(* ===== verification/_CoqProject ===== *)
-Q . S2P
Prelude.v
GoStrings.v
Api.v
Ownername.v
Display.v
RdataTypes.v
RdataToken.v
GoTime.v
RdataTTL.v
RdataName.v
GoNetip.v
GoNetipPrefix.v
RdataParse.v
RdataRender.v
RdataValidate.v
RdataLex.v
RdataRoundtrip.v
BindScan.v
BindParse.v
BindLines.v
BindValues.v
BindRoundtrip.v
PdnsEncode.v
RdataBackend.v
PdnsErrors.v
PdnsPatch.v
ApiMeta.v
StatusUtil.v
PdnsClient.v
PdnsSafety.v
CtlConditions.v
PdnsProgress.v
Cluster.v
CtlRecordSet.v
CtlSafety.v
CtlLiveness.v
CtlWatch.v
CtlZone.v
Admission.v
GoCrypto.v
GoJson.v
GoJsonDecode.v
WireModel.v
Publication.v
Capacity.v
SnapshotValid.v
ServingFences.v
ReservedScopes.v
Compile.v
CompileClaims.v
CompileSafety.v
CompileHistory.v
WireDecode.v
ApiStore.v
ShardState.v
Allocator.v
AllocatorSafety.v
ApiHistory.v
Planner.v
Outbox.v
Publisher.v
PublishInvariant.v
PublishWire.v
PublishEvents.v
PublishWrites.v
PublishOutbox.v
PublishPlanner.v
PublishPublisher.v
PublishSafety.v
PublishExample.v
AgentState.v
AgentHost.v
AgentTransaction.v
Agent.v
AgentStart.v
AgentLogic.v
AgentSafety.v
AgentFiles.v
AgentRuns.v
AgentAgree.v
