(* ===== verification/Prelude.v ===== *)
(** Verification of the Datum DNS operator.

    * The program

    The operator keeps DNS zones at a PowerDNS server in step with Kubernetes objects.
    Users write [DNSZone] and [DNSRecordSet] objects, by hand or with the command-line
    plugin ([internal/cmd/dns]).  The plugin reads values in presentation format, zone
    files and flags, validates them and prints them back (package [rdata], package
    [bind]).  Webhooks ([internal/webhook]) admit a record set or refuse it, and stamp it
    with the annotations people read ([internal/display]).  The downstream controllers
    ([internal/controller]) hold the finalizers, hand a zone or a record set to the
    PowerDNS client and write the status.  The client ([internal/dns/pdns]) turns the
    entries into RRsets, compares them with the zone, sends patches and reports a status
    per owner name.  Names are qualified by one shared function
    ([internal/dns/ownername]).

    Private zones are served by a second system ([internal/internaldns]).  Its control
    plane compiles the registrations, contributions and record sets of a zone into a plan,
    cuts the plan into chunks and writes a manifest over them.  A planner per shard
    collects the bindings of the shard into a snapshot that fits its budget.  Both put
    what they made into an outbox, from which it goes to a stream once what it depends on
    is there.  An allocator hands out the addresses of resolvers.  These processes share
    one Kubernetes API server and run on several machines.  Replicas receive the stream,
    check it against what they accepted before, and serve it.  The packages share the wire
    types and rules of package [model].

    * The files

    - [Prelude]: byte strings and their notation, the [result] monad of fallible code,
      tactics, and generic lemmas.
    - [GoStrings], [GoTime], [GoNetip]: what the code uses of Go's packages [strings],
      [strconv], [sort], [time] and [net/netip].  What Go leaves open (map order, ties of
      [sort.Slice], Unicode case tables) is the class [GoRuntime]; theorems hold for every
      instance and [reference_runtime] is one.
    - [Api]: the record set, zone and zone class types of [api/v1alpha1].
    - [Ownername]: [internal/dns/ownername/ownername.go].
    - [Display]: [internal/display/display.go] and [activity.go].
    - Package [internal/cmd/dns/rdata]: [RdataTypes] ([types.go]), [RdataToken]
      ([token.go], [txt.go]), [RdataTTL] ([ttl.go]), [RdataName] ([name.go],
      [hostname.go]), [RdataParse] ([parse.go], [line.go]), [RdataRender] ([render.go],
      [key.go], [fields.go]), [RdataValidate] ([validate.go]).  [RdataLex] and
      [RdataRoundtrip] prove that [Render] and [ParseValue] are inverse.
    - Package [internal/cmd/dns/bind]: [BindScan] ([scan.go], [ttl.go], [errors.go]) and
      [BindParse] ([parse.go], [emit.go], [api.go]).  [BindLines], [BindValues] and
      [BindRoundtrip] prove that [Emit] and [Parse] are inverse.
    - Package [internal/dns/pdns]: [PdnsEncode] (from entries to RRsets), [PdnsPatch] (how
      a patch is put together), [PdnsErrors] ([errors.go]), [PdnsClient] (the calls of
      [client.go], with the server as an oracle), [PdnsSafety] (what they may change
      whatever the server answers) and [PdnsProgress] (what they bring about when it
      accepts).
    - [RdataBackend] relates the plugin's validation and printing to the backend's
      encoding.
    - [ApiMeta]: the condition helpers of apimachinery and the finalizer and owner
      reference helpers of controller-runtime, as interfaces with an instance each.
    - [StatusUtil]: packages [internal/dns/util] and [internal/dns/utils].
    - Package [internal/controller]: [CtlConditions] ([conditions.go]), [Cluster] (the API
      server and the client a reconciler calls), [CtlRecordSet]
      ([dnsrecordset_downstream_controller.go], [alias_target.go]), [CtlWatch] (the
      mappings that queue it), [CtlZone] ([dnszone_downstream_controller.go]).
      [CtlSafety] and [CtlLiveness] hold the theorems on the record set reconciler.
    - [Admission]: [internal/webhook].
    - [GoCrypto], [GoJson]: SHA-256, hex and JSON encoding as Go's packages do them.
    - Package [internal/internaldns/model]: [WireModel] ([model.go], [subjects.go],
      [snapshot_keys.go], [private_records.go]) and [ReservedScopes]
      ([reserved_scopes.go]).  The checks of miekg/dns are the class [MiekgDNS], that of
      apimachinery the class [K8sValidation].
    - [Publication]: chunks and manifest of a publication ([publication_reconciler.go]) and
      their verification.
    - [Capacity]: [platform/capacity.go] and the dependencies of [platform/planner.go];
      [SnapshotValid] shows that a fitted snapshot is valid.
    - [Compile]: [controlplane/compiler.go], [wire.go] and [references.go].  [CompileClaims]
      says who holds a name after the passes over record sets and registrations,
      [CompileSafety] what a compiled plan is, and [CompileHistory] how a sequence of plans
      meets the fences of a replica.
    - [GoJsonDecode], [GoNetipPrefix]: JSON decoding and the prefixes of [net/netip].
      [WireDecode] decodes the wire types and shows that they are read back.
    - [ApiStore]: the API server as these processes see it, the objects of
      [internaldns_service_types.go], programs that call it, and a rely-guarantee logic for
      their interleavings.  [ApiHistory]: facts about what has been written.
    - [ShardState]: the record of a shard.  [Allocator] ([platform/allocator.go]) and
      [AllocatorSafety].  [Planner] ([platform/planner.go]), [Outbox]
      ([platform/outbox.go]), [Publisher] ([controlplane/publication_reconciler.go]).
    - The publication protocol of these three: [PublishInvariant] (what holds of the store
      while they share it), [PublishWire] and [PublishEvents] (what an entry is on the
      stream), [PublishWrites] (each kind of write keeps the invariant),
      [PublishOutbox], [PublishPlanner], [PublishPublisher] (each program keeps it),
      [PublishSafety] (the theorems, with what else may happen in the store) and
      [PublishExample] (a run from a zone to the snapshot that attaches it).
    - [ServingFences]: [serving/binding_fences.go] and the contribution fences of
      [serving/agent.go].
    - The replicas: [AgentState] (the checkpoint, [serving/state.go], and what the agent
      computes from it), [AgentHost] (the machine a replica runs on), [AgentTransaction]
      ([transaction.go] and the marker of [activation.go]), [Agent] (the handlers and
      [Step] of [agent.go], [continuity.go], [publication_state.go]), [AgentStart]
      ([bootstrap.go] and the restore at the start).  [AgentLogic] is a Hoare logic for
      them, [AgentSafety] shows what every operation keeps, [AgentFiles] what the
      transaction does to files, [AgentRuns] what holds over runs with restarts, and
      [AgentAgree] joins them with the publication protocol.

    * How code is modelled

    A Go function is a function of the same name.  A loop is a recursion on the list or
    string it consumes, or carries fuel: [tokenizeFrom] and [splitFrom] one step per byte
    of input, [isolateLoop] one step per change sent, [compileLoop] one round per source.
    Each is shown to be enough ([tokenizeFrom_fuel], [splitFields_spaced],
    [applyIsolatingRefusals_spec], [Compile_closed]).  Errors and
    advisories are values, one constructor per site; their wording is not modelled.
    Integers are [Z] with their width in [wf_RecordEntry], and with wrap-around written
    out where the code can overflow ([wrap64] in [RdataTTL]).  The clock is an argument.
    The PowerDNS server answers from an arbitrary function of the requests so far, and a
    call returns its result together with the requests it sent ([PdnsClient]).  A
    reconciler runs in a world that holds the events so far and whose cluster and PowerDNS
    answer each call as they like ([Cluster]); a safety theorem says what had to come
    before an event, a liveness theorem fixes a cluster that stores what is written and
    runs the reconciler on it.  A process of the platform is a program, a tree of calls to
    the API server; any number of them interleave call by call, a call may fail before or
    after it is applied, and a process may stop at any call ([ApiStore]).  A theorem on
    processes speaks of every such run, by the logic [wp] and its [adequacy].  An operation
    of a replica is a function of its state and of the machine, on which every call to the
    file system, the daemons, the probes and the broker is an event that may fail
    ([AgentHost]); a run of a replica is any sequence of operations, each of which may be
    cut short by a restart ([runs]).

    * What is proved

    - Safety of the client, whatever the server answers: it writes only what it lists and
      deletes only what it wrote ([EnsureRecordSet_safe], [DeleteRecordSet_exact],
      [DeleteZone_clears]); a status says programmed only for what was accepted
      ([EnsureRecordSet_status]); the search for refused changes ends and accounts for
      every change ([applyIsolatingRefusals_spec]); a settled set costs no write
      ([EnsureRecordSet_settled]).
    - Safety of the reconcilers, whatever cluster and server answer: a record set is
      reported as programmed only after its RRsets were ([Reconcile_programmed]); a
      finalizer goes only after the data it guards ([Reconcile_finalizer],
      [Reconcile_zone_removal]).
    - Progress: a record set is programmed after five runs ([Reconcile_converges]), a
      failure is tried again ([reconcileProgram_retries]) and waiting record sets are
      queued ([recordSetsWaitingOn_complete]); the exception is a failed delete of a
      removed name, which is never tried again ([Reconcile_forgets_delete]).
    - Admission keeps record sets from contending for a name
      ([validateRecordSet_exclusive]).
    - Compilation ends with a plan in which every SRV target has an address
      ([Compile_closed]); a name has one holder and records come from holders
      ([Compile_ownership]); a registration yields only to record sets and older
      registrations ([registrations_precedence]).  A replica accepts every plan compiled
      after the one it has ([publications_accepted]).
    - Publication: a replica accepts only the payload a manifest names
      ([VerifyManifest_sound]), and accepts what the control plane sends in any order
      ([VerifyManifest_wire]).
    - Planning: a snapshot fits its budget once encoded ([fitSnapshot_budget]), is valid
      ([fitSnapshot_valid]), and never drops what is served ([fitSnapshot_established]).
    - Fences: over any sequence of accepted snapshots and publications nothing goes back
      ([advanceBindingFences_history], [contributions_history]).
    - Replicas: what a replica has stored never goes back and can always be loaded
      ([replica_forward]); every publication it holds is put together from what was
      delivered ([replica_holds]); fed from one stream, two replicas hold the same plan
      under one revision unless one of them holds its withdrawal ([replicas_agree]);
      installing files is all or nothing ([transaction_atomic]; a write that fails may
      leave part of its data, and temporary files may stay behind).
    - The publication protocol: nothing is on the stream before what it refers to
      ([stream_ordered]), a revision names one content or its withdrawal ([one_content]),
      and what is in force never goes back ([commits_forward]).  The run is assumed to have
      no two names that meet in a truncated hash, and fewer than 2^62 events ([within]).
    - Allocation: whatever the callers do and in whatever order, an address has one owner
      and an owner one address ([allocations]).
    - Reserved subtrees are exclusive ([Owner_exclusive]).
    - Status and display: [aggregateProgrammedStatus_spec], [recordStatus_worst],
      [ComputeActivityDiff_spec], [annotations_settle]; [ComputeActivityDiff_blind] says
      which updates are not reported.
    - The patch: [buildRRSets_spec], [patchPayload_spec], [chunkRRSets_spec],
      [pairDeletes_spec], [keepSOASerialRising_spec], [stampComments_stable],
      [refuses_spec], [encodeSvcbLine_deterministic].
    - Refinement between plugin and backend: what is validated is written, line for line,
      as it was shown ([ValidateEntries_lossless], [Validate_written]), and
      [Validate_quoting] says exactly for which entries it is.
    - Round trips: values ([Render_ParseValue]), zone files ([Emit_Parse], for unquoted
      parameters without zone-file syntax), TXT data ([TXTContent_roundtrip],
      [TXTContentForAPI_wire]), TTLs ([ParseTTL_FormatTTL], [ParseTTL_compound],
      [ParseTTL_overflow]).
    - Names and tokens: [NormalizeName_FQDN], [NormalizeName_wf], [FQDN_Qualify],
      [IsApexIn_spec], [tokenize_cover], [validateTypedField_spec].

    * What is not modelled

    Wording of messages, logging, events and metrics; HTTP, JSON and Kubernetes transport;
    the server itself.  The registry of RR type names of miekg/dns is a parameter of
    [Parse].  Of the replicas: the text of rendered files and of errors (parameters), the
    encoding of the checkpoint, the wait for local daemons and the queries of probes, the
    readiness check and the daemons' side of the activation lock, and what a loss of power
    leaves of unsynced files; a restart keeps what was renamed into place.  Not modelled
    yet, in the order planned: the acknowledgement sink and the feed of the internal DNS
    service; the replicators and the PowerDNS record set
    reconciler that no binary starts ([internal/controller]); record values from flags
    ([rdata/flags.go]).  The store of the publication records is the Kubernetes API server;
    the JetStream store that can be configured in its place ([pubstore/store.go]), whose
    lists may be behind, is not modelled.  Of [compileZone], the confirmation of missing
    contributions, the hold of regions, the session of cached inputs and the patches of
    input statuses are left out.  Live discovery, process supervision, generated code and
    presentation are left out. *)

From Stdlib Require Export Ascii ZArith Lia.
From Stdlib Require Import Strings.Byte.
From stdpp Require Export base tactics list option gmap strings sorting.

#[global] Set Default Goal Selector "!".
#[global] Set Warnings "-clear-no-such-hyp".

(** * Byte strings

    A Go string is a sequence of bytes.  The model is a list of bytes, so that
    every list lemma applies, with string literals in [go_scope]. *)

Abbreviation gostring := (list ascii).

Declare Scope go_scope.
Delimit Scope go_scope with go.

Definition gostring_of_bytes (b : list Byte.byte) : gostring :=
  List.map ascii_of_byte b.
Definition bytes_of_gostring (s : gostring) : option (list Byte.byte) :=
  Some (List.map byte_of_ascii s).
String Notation gostring gostring_of_bytes bytes_of_gostring : go_scope.

#[global] Open Scope go_scope.

(** The numeric value of a byte, and the byte of a value (modulo 256). *)
Definition bval (c : ascii) : Z := Z.of_N (N_of_ascii c).
Definition byte (z : Z) : ascii := ascii_of_N (Z.to_N z).

(** Bytes the source names in character literals. *)
Abbreviation dquote := ("034"%char).
Abbreviation backslash := ("092"%char).
Abbreviation newline := ("010"%char).
Abbreviation tab := ("009"%char).
Abbreviation cr := ("013"%char).

(** * Fallible results: Go's [(T, error)] with the error as a value *)

Inductive result (E A : Type) : Type :=
| Ok (a : A)
| Err (e : E).
Arguments Ok {E A} _.
Arguments Err {E A} _.

#[global] Instance result_bind {E} : MBind (result E) := λ A B f m,
  match m with Ok a => f a | Err e => Err e end.
#[global] Instance result_ret {E} : MRet (result E) := λ A a, Ok a.
#[global] Instance result_fmap {E} : FMap (result E) := λ A B f m,
  match m with Ok a => Ok (f a) | Err e => Err e end.

Definition is_Ok {E A} (r : result E A) : Prop := ∃ a, r = Ok a.

(** Run [f] over a list, stopping at the first error, as a loop with an early
    [return err] does. *)
Fixpoint result_iter {E A} (f : A → result E unit) (l : list A) : result E unit :=
  match l with
  | [] => Ok tt
  | x :: l' => match f x with Ok _ => result_iter f l' | Err e => Err e end
  end.

(** The same with a state the loop carries. *)
Fixpoint result_fold {E S A} (f : S → A → result E S) (s : S) (l : list A) : result E S :=
  match l with
  | [] => Ok s
  | x :: l' => match f s x with Ok s' => result_fold f s' l' | Err e => Err e end
  end.

(** * Automation *)

Create HintDb godb discriminated.

(** Case analysis on every match and decision in sight, then congruence. *)
Ltac gocases := repeat (case_match || case_decide); simplify_eq/=; try done.

(** A property of one byte, by evaluating it at all 256 of them. *)
Ltac bytecases c :=
  destruct c as [[] [] [] [] [] [] [] []].

(** * Generic lemmas *)

Lemma bval_range c : (0 ≤ bval c < 256)%Z.
Proof. bytecases c; vm_compute; split; congruence. Qed.

Lemma byte_bval c : byte (bval c) = c.
Proof. bytecases c; reflexivity. Qed.

Lemma bval_byte z : (0 ≤ z < 256)%Z → bval (byte z) = z.
Proof.
  intros H. unfold bval, byte. rewrite N_ascii_embedding by lia. lia.
Qed.

Lemma bval_inj c d : bval c = bval d → c = d.
Proof. intros H. rewrite <- (byte_bval c), <- (byte_bval d). by f_equal. Qed.

#[global] Instance bval_Inj : Inj (=) (=) bval.
Proof. intros c d. apply bval_inj. Qed.

(** A property of every byte, by evaluating it at all of them. *)
Definition allBytes : list ascii := byte ∘ Z.of_nat <$> seq 0 256.

Lemma byte_all (P : ascii → bool) : forallb P allBytes = true → ∀ c, P c = true.
Proof.
  rewrite forallb_forall. intros HP c. apply HP, list_elem_of_In, list_elem_of_fmap.
  exists (Z.to_nat (bval c)). pose proof (bval_range c). split.
  - cbn. by rewrite Z2Nat.id, byte_bval by lia.
  - apply elem_of_seq. lia.
Qed.

Lemma byte_impl (P Q : ascii → bool) :
  forallb (λ c, implb (P c) (Q c)) allBytes = true → ∀ c, P c = true → Q c = true.
Proof. intros H c. specialize (byte_all _ H c) as Hc. cbn in Hc. by destruct (P c). Qed.

Section result_lemmas.
Context {E A B : Type}.

Lemma bind_Ok (m : result E A) (f : A → result E B) b :
  m ≫= f = Ok b ↔ ∃ a, m = Ok a ∧ f a = Ok b.
Proof.
  destruct m; cbn; split.
  - eauto.
  - by intros (? & [= ->] & ?).
  - done.
  - by intros (? & ? & ?).
Qed.

Lemma fmap_Ok (m : result E A) (f : A → B) b : f <$> m = Ok b ↔ ∃ a, m = Ok a ∧ b = f a.
Proof.
  destruct m; cbn; split.
  - intros [= <-]. eauto.
  - by intros (? & [= ->] & ->).
  - done.
  - by intros (? & ? & ?).
Qed.

Lemma result_iter_Ok (f : A → result E unit) (l : list A) :
  result_iter f l = Ok tt ↔ Forall (λ x, f x = Ok tt) l.
Proof.
  induction l as [|x l IH]; cbn.
  - by split; constructor.
  - rewrite Forall_cons, <- IH. destruct (f x) as [[]|]; split; intuition congruence.
Qed.

Lemma result_fold_app {S} (f : S → A → result E S) s l l' :
  result_fold f s (l ++ l') = result_fold f s l ≫= λ s', result_fold f s' l'.
Proof. revert s. induction l as [|x l IH]; intros s; cbn; [done|]. by destruct (f s x). Qed.
End result_lemmas.

Section list_lemmas.
Context {A : Type}.
Implicit Types l : list A.

Lemma last_app_singleton l x : last (l ++ [x]) = Some x.
Proof. apply last_snoc. Qed.

(** A loop with an invariant on what it has consumed. *)
Lemma foldl_prefix {S} (P : list A → S → Prop) (f : S → A → S) s l :
  P [] s → (∀ l1 x l2 s', l = l1 ++ x :: l2 → P l1 s' → P (l1 ++ [x]) (f s' x)) →
  P l (foldl f s l).
Proof.
  intros Hs Hstep.
  assert (∀ todo don s', l = don ++ todo → P don s' → P l (foldl f s' todo)) as Hgen.
  { induction todo as [|x todo IH]; intros don s' Hl HP; cbn.
    - by rewrite Hl, app_nil_r.
    - apply (IH (don ++ [x])); [by rewrite <- app_assoc|]. by apply (Hstep _ _ todo). }
  by apply (Hgen l []).
Qed.

Lemma foldl_inv {S} (P : S → Prop) (f : S → A → S) s l :
  P s → (∀ s' x, x ∈ l → P s' → P (f s' x)) → P (foldl f s l).
Proof.
  intros Hs Hstep. apply (foldl_prefix (λ _, P)); [done|].
  intros l1 x l2 s' ->. apply Hstep. set_solver.
Qed.

Lemma take_drop_slice l1 l2 l3 :
  take (length l2) (drop (length l1) (l1 ++ l2 ++ l3)) = l2.
Proof. by rewrite drop_app_length, take_app_length. Qed.

Lemma forallb_Forall (f : A → bool) l : forallb f l = true ↔ Forall (λ x, f x = true) l.
Proof. rewrite forallb_forall, List.Forall_forall. done. Qed.

Lemma forallb_impl (f g : A → bool) l :
  (∀ x, f x = true → g x = true) → forallb f l = true → forallb g l = true.
Proof. rewrite !forallb_Forall. intros Hfg Hf. by eapply Forall_impl. Qed.

Lemma forallb_andb (f g : A → bool) l :
  forallb (λ x, f x && g x) l = forallb f l && forallb g l.
Proof.
  induction l as [|x l IH]; [done|]. cbn. rewrite IH.
  by destruct (f x), (g x), (forallb f l).
Qed.

Lemma filter_id (P : A → Prop) `{∀ x, Decision (P x)} l : Forall P l → filter P l = l.
Proof. induction 1; [done|]. rewrite filter_cons_True by done. by f_equal. Qed.

Lemma filter_fmap_in {B} (f : B → A) (P : A → Prop) (Q : B → Prop)
    `{∀ x, Decision (P x), ∀ x, Decision (Q x)} (l : list B) :
  (∀ x, x ∈ l → P (f x) ↔ Q x) → filter P (f <$> l) = f <$> filter Q l.
Proof.
  intros HPQ. induction l as [|x l IH]; [done|].
  assert (P (f x) ↔ Q x) as Hx by (apply HPQ, elem_of_cons; by left).
  rewrite fmap_cons, !filter_cons, IH by (intros y Hy; apply HPQ, elem_of_cons; by right).
  repeat case_decide; tauto || done.
Qed.

Lemma omap_all {B} (f : A → option B) (g : A → B) l :
  (∀ x, x ∈ l → f x = Some (g x)) → omap f l = g <$> l.
Proof.
  intros Hf. induction l as [|x l IH]; [done|]. cbn.
  rewrite (Hf x) by apply elem_of_cons, or_introl, eq_refl. f_equal.
  apply IH. intros y Hy. by apply Hf, elem_of_cons, or_intror.
Qed.

Lemma take_length_take n l : take (length (take n l)) l = take n l.
Proof. rewrite <- (take_drop n l) at 2. apply take_app_length. Qed.

Lemma join_alter_app (ls : list (list A)) i x :
  i < length ls → mjoin (alter (λ l, l ++ [x]) i ls) ≡ₚ mjoin ls ++ [x].
Proof.
  revert i. induction ls as [|l ls IH]; intros [|i] Hi; cbn in *; [lia..| |].
  - by rewrite <- !app_assoc, (Permutation_app_comm (mjoin ls)).
  - rewrite IH by lia. by rewrite app_assoc.
Qed.

Lemma Forall_mjoin (P : A → Prop) (ls : list (list A)) :
  Forall P (mjoin ls) ↔ Forall (Forall P) ls.
Proof.
  induction ls as [|l ls IH]; cbn; [done|]. by rewrite Forall_app, Forall_cons, IH.
Qed.

Lemma list_filter_in (P Q : A → Prop) `{∀ x, Decision (P x)} `{∀ x, Decision (Q x)} l :
  (∀ x, x ∈ l → P x ↔ Q x) → filter P l = filter Q l.
Proof.
  induction l as [|x l IH]; intros HPQ; [done|]. rewrite !filter_cons.
  rewrite IH by (intros y Hy; apply HPQ, elem_of_cons; by right).
  assert (P x ↔ Q x) as Hx by (apply HPQ, elem_of_cons; by left).
  repeat case_decide; done || tauto.
Qed.

Lemma Forall_filter_sub (P Q : A → Prop) `{∀ x, Decision (Q x)} l :
  Forall P l → Forall P (filter Q l).
Proof. rewrite !Forall_forall. intros HP x [_ Hx]%list_elem_of_filter. auto. Qed.

Lemma Forall_last (P : A → Prop) l x : Forall P l → last l = Some x → P x.
Proof.
  intros HP (l' & ->)%last_Some. apply Forall_app in HP as [_ HP].
  by inversion HP.
Qed.

(** Grouping by a key loses nothing. *)
Lemma group_perm {K} `{EqDecision K} (key : A → K) (ks : list K) l :
  NoDup ks → Forall (λ x, key x ∈ ks) l → (ks ≫= λ k, filter (λ x, key x = k) l) ≡ₚ l.
Proof.
  intros Hks. revert l. induction Hks as [|k ks Hk Hks IH]; intros l Hl.
  { destruct Hl as [|x l Hx _]; [done|]. by apply elem_of_nil in Hx. }
  rewrite bind_cons. etrans; [|apply (filter_app_complement (λ x, key x = k) l)].
  apply Permutation_app_head. rewrite <- (IH (filter (λ x, key x ≠ k) l)).
  - apply reflexive_eq. clear -Hk. induction ks as [|k' ks IH]; [done|].
    apply not_elem_of_cons in Hk as [Hne Hk]. rewrite !bind_cons, IH by done. f_equal.
    rewrite list_filter_filter_l by (intros x ->; done). done.
  - rewrite Forall_forall in *. intros x [Hx Hin]%list_elem_of_filter.
    by destruct (proj1 (elem_of_cons _ _ _) (Hl x Hin)).
Qed.
End list_lemmas.
