(* ===== verification/GoStrings.v ===== *)
(** The parts of Go's standard library the operator's string code uses:
    package [strings], package [strconv], string ordering and package [sort],
    and iteration over a map.  Go strings are byte strings ([Prelude]).

    What the Go language or its library leaves open is a field of the class
    [GoRuntime]: the order in which [range] visits a map, the order [sort.Slice]
    leaves ties in, and the Unicode case tables that [strings.ToLower] and
    [strings.ToUpper] consult once a string holds a non-ASCII byte.  Every
    theorem of the development holds for each choice of these. *)

From S2P Require Import Prelude.

(** * Bytes *)

Definition isDigit (c : ascii) : bool :=
  (48 <=? bval c)%Z && (bval c <=? 57)%Z.
Definition isUpper (c : ascii) : bool :=
  (65 <=? bval c)%Z && (bval c <=? 90)%Z.
Definition isLower (c : ascii) : bool :=
  (97 <=? bval c)%Z && (bval c <=? 122)%Z.

(** [utf8.RuneSelf]: bytes below it are ASCII. *)
Definition isASCII (c : ascii) : bool := (bval c <? 128)%Z.
Definition ascii_string (s : gostring) : bool := forallb isASCII s.

Definition lowerByte (c : ascii) : ascii := if isUpper c then byte (bval c + 32) else c.
Definition upperByte (c : ascii) : ascii := if isLower c then byte (bval c - 32) else c.

(** [strings.asciiSpace]. *)
Definition asciiSpace (c : ascii) : bool :=
  (9 <=? bval c)%Z && (bval c <=? 13)%Z || (bval c =? 32)%Z.

(** The UTF-8 encodings of the non-ASCII code points [unicode.IsSpace] accepts:
    U+0085, U+00A0, U+1680, U+2000 to U+200A, U+2028, U+2029, U+202F, U+205F and
    U+3000. *)
Definition unicodeSpace2 (a b : ascii) : bool :=
  (bval a =? 194)%Z && ((bval b =? 133)%Z || (bval b =? 160)%Z).
Definition unicodeSpace3 (a b c : ascii) : bool :=
  (bval a =? 225)%Z && (bval b =? 154)%Z && (bval c =? 128)%Z
  || (bval a =? 226)%Z && (bval b =? 128)%Z
       && ((128 <=? bval c)%Z && (bval c <=? 138)%Z
           || (bval c =? 168)%Z || (bval c =? 169)%Z || (bval c =? 175)%Z)
  || (bval a =? 226)%Z && (bval b =? 129)%Z && (bval c =? 159)%Z
  || (bval a =? 227)%Z && (bval b =? 128)%Z && (bval c =? 128)%Z.

(** * Ordering: Go's [<] on strings is lexicographic on bytes *)

Fixpoint str_ltb (a b : gostring) : bool :=
  match a, b with
  | _, [] => false
  | [], _ :: _ => true
  | c :: a', d :: b' =>
      if (bval c <? bval d)%Z then true
      else if (bval d <? bval c)%Z then false else str_ltb a' b'
  end.

Definition str_le (a b : gostring) : Prop := str_ltb b a = false.

#[global] Instance str_le_dec : RelDecision str_le.
Proof. intros a b. unfold str_le. apply _. Defined.

(** A strict weak order, the contract [sort.Slice] asks of its [less]. *)
Record StrictWeak {A} (less : A → A → bool) : Prop := {
  sw_irrefl : ∀ x, less x x = false;
  sw_trans : ∀ x y z, less x y = true → less y z = true → less x z = true;
  sw_negtrans : ∀ x y z, less x y = false → less y z = false → less x z = false;
}.

(** Insertion that keeps the order of ties: the stable sort of
    [sort.SliceStable]. *)
Fixpoint insert_by {A} (less : A → A → bool) (x : A) (l : list A) : list A :=
  match l with
  | [] => [x]
  | y :: l' => if less y x then y :: insert_by less x l' else x :: l
  end.
Definition SliceStable {A} (less : A → A → bool) (l : list A) : list A :=
  foldr (insert_by less) [] l.

(** [sort.Strings]: equal strings are indistinguishable, so the result does not
    depend on how ties are ordered. *)
Definition sortStrings (l : list gostring) : list gostring := SliceStable str_ltb l.

Class GoRuntime := {
  (** [for k, v := range m]: some order of the entries. *)
  map_range : ∀ {K V} `{Countable K}, gmap K V → list (K * V);
  map_range_perm : ∀ {K V} `{Countable K} (m : gmap K V),
    map_range m ≡ₚ map_to_list m;
  (** [sort.Slice(l, less)]: some sorted permutation. *)
  sort_slice : ∀ {A}, (A → A → bool) → list A → list A;
  sort_slice_perm : ∀ {A} (less : A → A → bool) l, sort_slice less l ≡ₚ l;
  sort_slice_sorted : ∀ {A} (less : A → A → bool) l,
    StrictWeak less → StronglySorted (λ x y, less y x = false) (sort_slice less l);
  (** [strings.Map(unicode.ToLower, s)] and [strings.Map(unicode.ToUpper, s)],
      reached only by a string with a non-ASCII byte. *)
  unicode_ToLower : gostring → gostring;
  unicode_ToUpper : gostring → gostring;
  (** The Unicode case folding of [strings.EqualFold], reached only when one of the
      strings has a non-ASCII byte. *)
  unicode_EqualFold : gostring → gostring → bool;
  (** [strconv.Quote], reached only by a string with a non-ASCII byte. *)
  unicode_Quote : gostring → gostring;
}.

(** * Package strings *)

Definition HasPrefix (s p : gostring) : bool := bool_decide (take (length p) s = p).
Definition HasSuffix (s p : gostring) : bool :=
  bool_decide (drop (length s - length p) s = p).
Definition TrimPrefix (s p : gostring) : gostring :=
  if HasPrefix s p then drop (length p) s else s.
Definition TrimSuffix (s p : gostring) : gostring :=
  if HasSuffix s p then take (length s - length p) s else s.

(** [strings.Contains] and [strings.ContainsAny]. *)
Fixpoint Contains (s p : gostring) : bool :=
  HasPrefix s p || match s with [] => false | _ :: s' => Contains s' p end.
Definition ContainsByte (s : gostring) (c : ascii) : bool := existsb (Ascii.eqb c) s.
Definition ContainsAny (s chars : gostring) : bool := existsb (ContainsByte chars) s.

(** [strings.Split] at a one-byte separator. *)
Fixpoint splitByte (sep : ascii) (s : gostring) : list gostring :=
  match s with
  | [] => [[]]
  | c :: s' =>
      if Ascii.eqb c sep then [] :: splitByte sep s'
      else match splitByte sep s' with
           | [] => [[c]]
           | w :: ws => (c :: w) :: ws
           end
  end.

(** [strings.Cut] at a one-byte separator: before, after, found. *)
Fixpoint cutByte (sep : ascii) (s : gostring) : gostring * gostring * bool :=
  match s with
  | [] => ([], [], false)
  | c :: s' =>
      if Ascii.eqb c sep then ([], s', true)
      else let '(b, a, f) := cutByte sep s' in (c :: b, a, f)
  end.

(** [strings.Join]. *)
Fixpoint Join (parts : list gostring) (sep : gostring) : gostring :=
  match parts with
  | [] => []
  | [p] => p
  | p :: ps => p ++ sep ++ Join ps sep
  end.

(** [fmt.Sprintf] with the verbs separated by blanks. *)
Definition sp : gostring := " ".
Definition words (l : list gostring) : gostring := Join l sp.

Definition Repeat (s : gostring) (n : nat) : gostring := mjoin (replicate n s).

(** [strings.TrimRight] with a one-byte cutset. *)
Fixpoint trimLeftByte (c : ascii) (s : gostring) : gostring :=
  match s with
  | d :: s' => if Ascii.eqb d c then trimLeftByte c s' else s
  | [] => []
  end.
Definition TrimRightByte (s : gostring) (c : ascii) : gostring :=
  rev (trimLeftByte c (rev s)).

(** [strings.TrimSpace], one end at a time.  [trimSpaceRev] works on the reversed
    string, so the bytes of a multi-byte space come last byte first. *)
Fixpoint trimSpaceLeft (s : gostring) : gostring :=
  match s with
  | [] => []
  | a :: s1 =>
      if asciiSpace a then trimSpaceLeft s1 else
      match s1 with
      | [] => s
      | b :: s2 =>
          if unicodeSpace2 a b then trimSpaceLeft s2 else
          match s2 with
          | [] => s
          | c :: s3 => if unicodeSpace3 a b c then trimSpaceLeft s3 else s
          end
      end
  end.
Fixpoint trimSpaceRev (s : gostring) : gostring :=
  match s with
  | [] => []
  | a :: s1 =>
      if asciiSpace a then trimSpaceRev s1 else
      match s1 with
      | [] => s
      | b :: s2 =>
          if unicodeSpace2 b a then trimSpaceRev s2 else
          match s2 with
          | [] => s
          | c :: s3 => if unicodeSpace3 c b a then trimSpaceRev s3 else s
          end
      end
  end.
Definition trimSpaceRight (s : gostring) : gostring := rev (trimSpaceRev (rev s)).
Definition TrimSpace (s : gostring) : gostring := trimSpaceRight (trimSpaceLeft s).

(** [strings.Fields] on the ASCII spaces and the non-ASCII ones alike. *)
Fixpoint fieldsFrom (cur : gostring) (s : gostring) : list gostring :=
  let flush := match cur with [] => [] | _ => [rev cur] end in
  match s with
  | [] => flush
  | a :: s1 =>
      if asciiSpace a then flush ++ fieldsFrom [] s1 else
      match s1 with
      | [] => fieldsFrom (a :: cur) s1
      | b :: s2 =>
          if unicodeSpace2 a b then flush ++ fieldsFrom [] s2 else
          match s2 with
          | [] => fieldsFrom (a :: cur) s1
          | c :: s3 =>
              if unicodeSpace3 a b c then flush ++ fieldsFrom [] s3
              else fieldsFrom (a :: cur) s1
          end
      end
  end.
Definition Fields (s : gostring) : list gostring := fieldsFrom [] s.

(** [strings.ToLower] and [strings.ToUpper]: the byte loop on an ASCII string, the
    Unicode tables otherwise. *)
Definition ToLower `{GoRuntime} (s : gostring) : gostring :=
  if ascii_string s then lowerByte <$> s else unicode_ToLower s.
Definition ToUpper `{GoRuntime} (s : gostring) : gostring :=
  if ascii_string s then upperByte <$> s else unicode_ToUpper s.

Definition EqualFold `{GoRuntime} (s t : gostring) : bool :=
  if ascii_string s && ascii_string t then bool_decide (lowerByte <$> s = lowerByte <$> t)
  else unicode_EqualFold s t.

(** [s[strings.LastIndex(s, sep)+1:]] for a one-byte separator. *)
Definition afterLast (sep : ascii) (s : gostring) : gostring :=
  default [] (last (splitByte sep s)).

(** * Package strconv *)

(** [strconv.Quote], the verb [%q] of package [fmt]. *)
Definition lowerHex (d : Z) : ascii := if (d <? 10)%Z then byte (48 + d) else byte (87 + d).
Definition quoteGoByte (c : ascii) : gostring :=
  if Ascii.eqb c dquote || Ascii.eqb c backslash then [backslash; c]
  else if (32 <=? bval c)%Z && (bval c <? 127)%Z then [c]
  else if (bval c =? 7)%Z then [backslash; "a"%char]
  else if (bval c =? 8)%Z then [backslash; "b"%char]
  else if (bval c =? 12)%Z then [backslash; "f"%char]
  else if (bval c =? 10)%Z then [backslash; "n"%char]
  else if (bval c =? 13)%Z then [backslash; "r"%char]
  else if (bval c =? 9)%Z then [backslash; "t"%char]
  else if (bval c =? 11)%Z then [backslash; "v"%char]
  else [backslash; "x"%char; lowerHex (bval c / 16); lowerHex (bval c mod 16)].
Definition Quote `{GoRuntime} (s : gostring) : gostring :=
  if ascii_string s then dquote :: (s ≫= quoteGoByte) ++ [dquote] else unicode_Quote s.

Definition digitVal (c : ascii) : Z := (bval c - 48)%Z.

(** The value of a non-empty string of decimal digits. *)
Definition decimalVal (s : gostring) : Z :=
  fold_left (λ n c, (n * 10 + digitVal c)%Z) s 0%Z.

(** [strconv.ParseUint(s, 10, bits)]; the callers only test the error for nil. *)
Definition ParseUint (bits : Z) (s : gostring) : option Z :=
  match s with
  | [] => None
  | _ => if forallb isDigit s && (decimalVal s <? 2 ^ bits)%Z
         then Some (decimalVal s) else None
  end.

(** [strconv.ParseInt(s, 10, 64)]. *)
Definition ParseInt64 (s : gostring) : option Z :=
  let '(neg, rest) :=
    match s with
    | c :: s' => if Ascii.eqb c "-" then (true, s')
                 else if Ascii.eqb c "+" then (false, s') else (false, s)
    | [] => (false, s)
    end in
  match ParseUint 64 rest with
  | None => None
  | Some u =>
      if neg then if (u <=? 2 ^ 63)%Z then Some (- u)%Z else None
      else if (u <? 2 ^ 63)%Z then Some u else None
  end.

(** Decimal digits of a non-negative integer, most significant first.  Each step
    divides by ten, so the bit length of the number is enough fuel. *)
Fixpoint decimalDigits (fuel : nat) (n : Z) (acc : gostring) : gostring :=
  match fuel with
  | O => acc
  | S fuel' =>
      let acc' := byte (48 + n mod 10) :: acc in
      if (n <? 10)%Z then acc' else decimalDigits fuel' (n / 10) acc'
  end.
Definition FormatUint (n : Z) : gostring :=
  decimalDigits (S (Z.to_nat (Z.log2 n))) n [].

(** [strconv.FormatInt(n, 10)], [strconv.Itoa] and the verb [%d]. *)
Definition FormatInt (n : Z) : gostring :=
  if (n <? 0)%Z then "-"%char :: FormatUint (- n) else FormatUint n.

(** Two's complement wrap-around of an [int64]. *)
Definition wrap64 (z : Z) : Z := ((z + 2 ^ 63) mod 2 ^ 64 - 2 ^ 63)%Z.

(** [Time.Sub], which saturates. *)
Definition Sub (a b : Z) : Z := (Z.max (- 2 ^ 63) (Z.min (2 ^ 63 - 1) (a - b)))%Z.

(** * Lemmas *)

Lemma wrap64_id z : (- 2 ^ 63 ≤ z < 2 ^ 63)%Z → wrap64 z = z.
Proof. intros Hz. unfold wrap64. rewrite Z.mod_small; lia. Qed.

(** ** Prefixes and suffixes *)

Lemma HasPrefix_spec s p : HasPrefix s p = true ↔ ∃ t, s = p ++ t.
Proof.
  unfold HasPrefix. rewrite bool_decide_eq_true. split.
  - intros H. exists (drop (length p) s). by rewrite <- H at 1; rewrite take_drop.
  - intros [t ->]. by rewrite take_app_length.
Qed.

Lemma HasSuffix_spec s p : HasSuffix s p = true ↔ ∃ t, s = t ++ p.
Proof.
  unfold HasSuffix. rewrite bool_decide_eq_true. split.
  - intros H. exists (take (length s - length p) s). by rewrite <- H at 2; rewrite take_drop.
  - intros [t ->]. rewrite length_app, Nat.add_sub, drop_app_length. done.
Qed.

Lemma HasSuffix_app t p : HasSuffix (t ++ p) p = true.
Proof. apply HasSuffix_spec. eauto. Qed.

Lemma TrimSuffix_app t p : TrimSuffix (t ++ p) p = t.
Proof.
  unfold TrimSuffix. rewrite HasSuffix_app, length_app, Nat.add_sub.
  by rewrite take_app_length.
Qed.

Lemma TrimSuffix_id s p : HasSuffix s p = false → TrimSuffix s p = s.
Proof. unfold TrimSuffix. by intros ->. Qed.

Lemma HasSuffix_last s c : HasSuffix s [c] = bool_decide (last s = Some c).
Proof.
  apply eq_true_iff_eq. rewrite HasSuffix_spec, bool_decide_eq_true, last_Some. done.
Qed.

Lemma HasSuffix_snoc t c d : HasSuffix (t ++ [c]) [d] = bool_decide (c = d).
Proof.
  rewrite HasSuffix_last, last_snoc. apply bool_decide_ext. naive_solver.
Qed.

(** ** Case *)

Lemma lowerByte_idemp c : lowerByte (lowerByte c) = lowerByte c.
Proof. bytecases c; reflexivity. Qed.

Lemma isASCII_lowerByte c : isASCII (lowerByte c) = isASCII c.
Proof. bytecases c; reflexivity. Qed.

Lemma lowerByte_dot c : lowerByte c = "."%char ↔ c = "."%char.
Proof. bytecases c; vm_compute; split; congruence. Qed.

Lemma asciiSpace_lowerByte c : asciiSpace (lowerByte c) = asciiSpace c.
Proof. bytecases c; reflexivity. Qed.

Section case_lemmas.
Context `{GoRuntime}.
Implicit Types s t : gostring.

Lemma ascii_string_app s t :
  ascii_string (s ++ t) = ascii_string s && ascii_string t.
Proof. apply forallb_app. Qed.

Lemma ascii_string_lower s : ascii_string (lowerByte <$> s) = ascii_string s.
Proof.
  unfold ascii_string. induction s as [|c s IH]; [done|].
  cbn. by rewrite isASCII_lowerByte, IH.
Qed.

Lemma ToLower_ascii s : ascii_string s = true → ToLower s = lowerByte <$> s.
Proof. unfold ToLower. by intros ->. Qed.

Lemma ToLower_idemp s : ascii_string s = true → ToLower (ToLower s) = ToLower s.
Proof.
  intros Hs. rewrite (ToLower_ascii s Hs), ToLower_ascii
    by by rewrite ascii_string_lower.
  rewrite <- list_fmap_compose. apply list_fmap_ext.
  intros _ c _. apply lowerByte_idemp.
Qed.

Lemma ToLower_app s t :
  ascii_string s = true → ascii_string t = true →
  ToLower (s ++ t) = ToLower s ++ ToLower t.
Proof.
  intros Hs Ht. rewrite !ToLower_ascii; rewrite ?ascii_string_app, ?Hs, ?Ht; try done.
  apply fmap_app.
Qed.

Lemma ascii_ToLower s : ascii_string s = true → ascii_string (ToLower s) = true.
Proof. intros Hs. by rewrite ToLower_ascii, ascii_string_lower. Qed.

Lemma length_ToLower s : ascii_string s = true → length (ToLower s) = length s.
Proof. intros Hs. by rewrite ToLower_ascii, length_fmap. Qed.

(** ASCII strings without upper case letters are fixed by [ToLower]. *)
Definition lowerASCII (c : ascii) : bool := isASCII c && negb (isUpper c).

Lemma ToLower_fix s : forallb lowerASCII s = true → ToLower s = s.
Proof.
  intros Hs. rewrite ToLower_ascii.
  - induction s as [|c s IH]; [done|]. cbn in *. apply andb_true_iff in Hs as [Hc Hs].
    rewrite (IH Hs). f_equal. unfold lowerByte, lowerASCII in *.
    by destruct (isUpper c), (isASCII c).
  - apply forallb_Forall. apply forallb_Forall in Hs. eapply Forall_impl; [done|].
    intros c [? _]%andb_true_iff. done.
Qed.

Lemma lowerByte_lowerASCII c : isASCII c = true → lowerASCII (lowerByte c) = true.
Proof. bytecases c; done. Qed.

Lemma ToLower_lowerASCII s : ascii_string s = true → forallb lowerASCII (ToLower s) = true.
Proof.
  intros Hs. rewrite ToLower_ascii by done. unfold ascii_string in Hs.
  induction s as [|c s IH]; [done|]. cbn in *. apply andb_true_iff in Hs as [Hc Hs].
  by rewrite lowerByte_lowerASCII, IH.
Qed.
End case_lemmas.

(** ** Trimming *)

(** A byte at which trimming stops from either end. *)
Definition plainByte (c : ascii) : bool := isASCII c && negb (asciiSpace c).

Lemma plainByte_space2_l a b : plainByte a = true → unicodeSpace2 a b = false.
Proof.
  unfold plainByte, isASCII, unicodeSpace2. lia.
Qed.
Lemma plainByte_space2_r a b : plainByte b = true → unicodeSpace2 a b = false.
Proof. unfold plainByte, isASCII, unicodeSpace2. lia. Qed.
Lemma plainByte_space3_l a b c : plainByte a = true → unicodeSpace3 a b c = false.
Proof. unfold plainByte, isASCII, unicodeSpace3. lia. Qed.
Lemma plainByte_space3_r a b c : plainByte c = true → unicodeSpace3 a b c = false.
Proof. unfold plainByte, isASCII, unicodeSpace3. lia. Qed.
Lemma plainByte_blank2 a : unicodeSpace2 a " " = false.
Proof. unfold unicodeSpace2. change (bval " ") with 32%Z. lia. Qed.
Lemma plainByte_blank3 a c : unicodeSpace3 a " " c = false.
Proof. unfold unicodeSpace3. change (bval " ") with 32%Z. lia. Qed.
Lemma plainByte_blank3' a b : unicodeSpace3 a b " " = false.
Proof. unfold unicodeSpace3. change (bval " ") with 32%Z. lia. Qed.
Lemma plainByte_asciiSpace a : plainByte a = true → asciiSpace a = false.
Proof. unfold plainByte. destruct (asciiSpace a), (isASCII a); done. Qed.

Lemma trimSpaceLeft_plain c s : plainByte c = true → trimSpaceLeft (c :: s) = c :: s.
Proof.
  intros Hc. cbn. rewrite (plainByte_asciiSpace c Hc).
  destruct s as [|d [|e s]]; [done|by rewrite plainByte_space2_l|].
  by rewrite plainByte_space2_l, plainByte_space3_l.
Qed.

Lemma trimSpaceRev_plain c s : plainByte c = true → trimSpaceRev (c :: s) = c :: s.
Proof.
  intros Hc. cbn. rewrite (plainByte_asciiSpace c Hc).
  destruct s as [|d [|e s]]; [done|by rewrite plainByte_space2_r|].
  by rewrite plainByte_space2_r, plainByte_space3_r.
Qed.

(** A string whose first and last bytes are plain is not changed. *)
Lemma TrimSpace_plain c s d :
  plainByte c = true → plainByte d = true → last (c :: s) = Some d →
  TrimSpace (c :: s) = c :: s.
Proof.
  intros Hc Hd Hl. unfold TrimSpace, trimSpaceRight.
  rewrite trimSpaceLeft_plain by done.
  apply last_Some in Hl as [t ->].
  by rewrite rev_unit, trimSpaceRev_plain, <- rev_unit, rev_involutive.
Qed.

Lemma TrimSpace_fix s : forallb plainByte s = true → TrimSpace s = s.
Proof.
  intros Hs%forallb_Forall. destruct s as [|c s]; [done|].
  destruct (last (c :: s)) as [d|] eqn:Hl; [|by apply last_None in Hl].
  apply TrimSpace_plain with d; [by inversion Hs|exact (Forall_last _ _ _ Hs Hl)|done].
Qed.

Lemma TrimSpace_nil : TrimSpace [] = [].
Proof. done. Qed.

(** Does the string start with a space, ASCII or encoded? *)
Definition leadSpace (s : gostring) : bool :=
  match s with
  | a :: b :: c :: _ => asciiSpace a || unicodeSpace2 a b || unicodeSpace3 a b c
  | [a; b] => asciiSpace a || unicodeSpace2 a b
  | [a] => asciiSpace a
  | [] => false
  end.

Lemma trimSpaceLeft_lead_false s : leadSpace s = false → trimSpaceLeft s = s.
Proof.
  destruct s as [|a [|b [|c s]]]; cbn; [done|by intros ->|..];
    rewrite !orb_false_iff; [intros [-> ->]|intros [[-> ->] ->]]; done.
Qed.

Lemma leadSpace_trimSpaceLeft s : leadSpace (trimSpaceLeft s) = false.
Proof.
  remember (length s) as n eqn:Hn. revert s Hn.
  induction (lt_wf n) as [n _ IH]; intros s ->.
  assert (∀ t, length t < length s → leadSpace (trimSpaceLeft t) = false) as IH'
    by (intros t Ht; by eapply IH). clear IH.
  destruct s as [|a [|b [|c s]]]; cbn in *; repeat case_match; cbn; try done;
    try (apply IH'; lia); repeat case_match; simplify_eq; cbn; try done;
    try (by eapply IH'; cbn; lia).
  all: rewrite ?orb_false_iff; auto.
Qed.

Lemma leadSpace_app s t : leadSpace s = true → leadSpace (s ++ t) = true.
Proof.
  destruct s as [|a [|b [|c s]]]; cbn; [done|intros Ha; by destruct t as [|? [|??]]; cbn; rewrite Ha| |done].
  intros Ha. by destruct t; cbn; rewrite Ha.
Qed.

Lemma trimSpaceRev_suffix s : ∃ t, s = t ++ trimSpaceRev s.
Proof.
  remember (length s) as n eqn:Hn. revert s Hn.
  induction (lt_wf n) as [n _ IH]; intros s ->.
  assert (∀ l t, l ++ t = s → 0 < length l → ∃ u, s = u ++ trimSpaceRev t) as IH'.
  { intros l t <- Hl. destruct (IH (length t)) with (s := t) as [u Hu]; [|done|].
    - rewrite length_app. lia.
    - exists (l ++ u). by rewrite <- app_assoc, <- Hu. }
  clear IH. destruct s as [|a s1]; [by exists []|].
  cbn. case_match; [by apply (IH' [a] s1); [|cbn; lia]|].
  destruct s1 as [|b s2]; [by exists []|].
  case_match; [by apply (IH' [a; b] s2); [|cbn; lia]|].
  destruct s2 as [|c s3]; [by exists []|].
  case_match; [by apply (IH' [a; b; c] s3); [|cbn; lia]|by exists []].
Qed.

Lemma trimSpaceRight_prefix s : ∃ t, s = trimSpaceRight s ++ t.
Proof.
  unfold trimSpaceRight. destruct (trimSpaceRev_suffix (rev s)) as [t Ht].
  exists (rev t). rewrite <- rev_app_distr, <- Ht. by rewrite rev_involutive.
Qed.

Lemma trimSpaceLeft_suffix s : ∃ t, s = t ++ trimSpaceLeft s.
Proof.
  remember (length s) as n eqn:Hn. revert s Hn.
  induction (lt_wf n) as [n _ IH]; intros s ->.
  assert (∀ l t, l ++ t = s → 0 < length l → ∃ u, s = u ++ trimSpaceLeft t) as IH'.
  { intros l t <- Hl. destruct (IH (length t)) with (s := t) as [u Hu]; [|done|].
    - rewrite length_app. lia.
    - exists (l ++ u). by rewrite <- app_assoc, <- Hu. }
  clear IH. destruct s as [|a s1]; [by exists []|].
  cbn. case_match; [by apply (IH' [a] s1); [|cbn; lia]|].
  destruct s1 as [|b s2]; [by exists []|].
  case_match; [by apply (IH' [a; b] s2); [|cbn; lia]|].
  destruct s2 as [|c s3]; [by exists []|].
  case_match; [by apply (IH' [a; b; c] s3); [|cbn; lia]|by exists []].
Qed.

(** Trimming keeps a property of every byte. *)
Lemma TrimSpace_infix s : ∃ a b, s = a ++ TrimSpace s ++ b.
Proof.
  destruct (trimSpaceLeft_suffix s) as [a Ha].
  destruct (trimSpaceRight_prefix (trimSpaceLeft s)) as [b Hb].
  exists a, b. unfold TrimSpace. by rewrite <- Hb.
Qed.

Lemma TrimSpace_forallb f s : forallb f s = true → forallb f (TrimSpace s) = true.
Proof.
  intros Hs. destruct (TrimSpace_infix s) as (a & b & E). rewrite E in Hs.
  rewrite !forallb_app in Hs. by apply andb_true_iff in Hs as [_ [??]%andb_true_iff].
Qed.

Lemma leadSpace_TrimSpace s : leadSpace (TrimSpace s) = false.
Proof.
  unfold TrimSpace. pose proof (leadSpace_trimSpaceLeft s) as Hs.
  destruct (trimSpaceRight_prefix (trimSpaceLeft s)) as [t Ht].
  destruct (leadSpace (trimSpaceRight (trimSpaceLeft s))) eqn:E; [|done].
  rewrite Ht, leadSpace_app in Hs; done.
Qed.

Lemma trimSpaceRev_idemp s : trimSpaceRev (trimSpaceRev s) = trimSpaceRev s.
Proof.
  remember (length s) as n eqn:Hn. revert s Hn.
  induction (lt_wf n) as [n _ IH]; intros s ->.
  assert (∀ t, length t < length s → trimSpaceRev (trimSpaceRev t) = trimSpaceRev t) as IH'
    by (intros t Ht; by eapply IH). clear IH.
  destruct s as [|a s1]; [done|]. cbn.
  destruct (asciiSpace a) eqn:Ha; [apply IH'; cbn; lia|].
  destruct s1 as [|b s2]; [cbn; by rewrite Ha|].
  destruct (unicodeSpace2 b a) eqn:Hb; [apply IH'; cbn; lia|].
  destruct s2 as [|c s3]; [cbn; by rewrite Ha, Hb|].
  destruct (unicodeSpace3 c b a) eqn:Hc; [apply IH'; cbn; lia|].
  cbn. by rewrite Ha, Hb, Hc.
Qed.

(** [strings.TrimSpace] is idempotent. *)
Lemma TrimSpace_idemp s : TrimSpace (TrimSpace s) = TrimSpace s.
Proof.
  unfold TrimSpace at 1. rewrite trimSpaceLeft_lead_false by apply leadSpace_TrimSpace.
  unfold TrimSpace, trimSpaceRight. by rewrite rev_involutive, trimSpaceRev_idemp.
Qed.

(** ** Ordering and sorting *)

Lemma str_ltb_irrefl a : str_ltb a a = false.
Proof. induction a as [|c a IH]; [done|]. cbn. by rewrite Z.ltb_irrefl. Qed.

Lemma str_ltb_trans a b c : str_ltb a b = true → str_ltb b c = true → str_ltb a c = true.
Proof.
  revert b c. induction a as [|x a IH]; intros [|y b] [|z c]; cbn; try done.
  repeat case_match; try done; try lia. apply IH.
Qed.

Lemma str_ltb_total a b : str_ltb a b = false → str_ltb b a = false → a = b.
Proof.
  revert b. induction a as [|x a IH]; intros [|y b]; cbn; try done.
  repeat case_match; try done. intros ??.
  f_equal; [apply bval_inj; lia|by apply IH].
Qed.

Lemma str_ltb_asym a b : str_ltb a b = true → str_ltb b a = false.
Proof.
  intros Hab. destruct (str_ltb b a) eqn:Hba; [|done].
  by rewrite <- (str_ltb_irrefl a), (str_ltb_trans a b a).
Qed.

Lemma str_ltb_StrictWeak : StrictWeak str_ltb.
Proof.
  split; [apply str_ltb_irrefl|apply str_ltb_trans|].
  intros x y z Hxy Hyz. destruct (str_ltb x z) eqn:Hxz; [|done].
  destruct (str_ltb y x) eqn:Hyx.
  - by rewrite (str_ltb_trans y x z) in Hyz.
  - apply (str_ltb_total _ _ Hxy) in Hyx as ->. congruence.
Qed.

#[global] Instance str_le_antisymm : AntiSymm (=) str_le.
Proof. intros a b Hab Hba. by apply str_ltb_total. Qed.

Section sort_lemmas.
Context {A : Type} (less : A → A → bool) (Hless : StrictWeak less).
Let le x y := less y x = false.

Lemma insert_by_perm x l : insert_by less x l ≡ₚ x :: l.
Proof.
  induction l as [|y l IH]; cbn; [done|]. case_match; [|done].
  rewrite IH. apply Permutation_swap.
Qed.

Lemma SliceStable_perm l : SliceStable less l ≡ₚ l.
Proof.
  induction l as [|x l IH]; cbn; [done|]. by rewrite insert_by_perm, IH.
Qed.

Lemma insert_by_sorted x l : StronglySorted le l → StronglySorted le (insert_by less x l).
Proof using Hless.
  induction 1 as [|y l Hl IH Hy]; cbn.
  { constructor; constructor. }
  destruct (less y x) eqn:Hyx.
  - constructor; [done|]. rewrite insert_by_perm. constructor; [|done].
    unfold le. destruct (less x y) eqn:Hxy; [|done].
    rewrite <- (sw_irrefl _ Hless x), (sw_trans _ Hless x y x); done.
  - constructor; [by constructor|]. constructor; [done|].
    eapply Forall_impl; [done|]. intros z Hz.
    by apply (sw_negtrans _ Hless z y x).
Qed.

Lemma SliceStable_sorted l : StronglySorted le (SliceStable less l).
Proof using Hless.
  induction l; cbn; [constructor|by apply insert_by_sorted].
Qed.
End sort_lemmas.

Lemma sortStrings_perm l : sortStrings l ≡ₚ l.
Proof. apply SliceStable_perm. Qed.

Lemma sortStrings_sorted l : StronglySorted str_le (sortStrings l).
Proof. apply SliceStable_sorted, str_ltb_StrictWeak. Qed.

(** Whatever the order the entries came in, the sorted list is the same. *)
Lemma sortStrings_unique l1 l2 : l1 ≡ₚ l2 → sortStrings l1 = sortStrings l2.
Proof.
  intros Hl. apply (StronglySorted_unique str_le);
    [apply sortStrings_sorted..|by rewrite !sortStrings_perm].
Qed.

#[global] Instance sortStrings_Proper : Proper ((≡ₚ) ==> (=)) sortStrings.
Proof. intros l1 l2. apply sortStrings_unique. Qed.

(** ** Orders by a key, then by the rest *)

Section lex.
Context {A B : Type} `{EqDecision B} (key : A → B) (lt : B → B → bool) (rest : A → A → bool).

Definition lexLess (a b : A) : bool :=
  if decide (key a = key b) then rest a b else lt (key a) (key b).

Lemma lexLess_StrictWeak :
  StrictWeak lt → (∀ x y, lt x y = false → lt y x = false → x = y) →
  StrictWeak rest → StrictWeak lexLess.
Proof.
  intros [Hi Ht Hn] Htot [Hi' Ht' Hn']. unfold lexLess.
  assert (∀ x y, lt x y = true → lt y x = true → False) as Hasym.
  { intros x y Hxy Hyx. pose proof (Ht _ _ _ Hxy Hyx). by rewrite Hi in *. }
  assert (∀ x y, x ≠ y → lt x y = false → lt y x = true) as Hflip.
  { intros x y Hne Hxy. destruct (lt y x) eqn:E; [done|]. by destruct Hne; auto. }
  split; [intros x; by rewrite decide_True|..]; intros x y z;
    destruct (decide (key x = key y)) as [E1|N1], (decide (key y = key z)) as [E2|N2];
    intros Hxy Hyz.
  - rewrite decide_True by congruence. eauto.
  - by rewrite E1, decide_False.
  - by rewrite <- E2, decide_False.
  - rewrite decide_False; [by eauto|]. intros E. rewrite E in Hxy. eauto.
  - rewrite decide_True by congruence. eauto.
  - by rewrite E1, decide_False.
  - by rewrite <- E2, decide_False.
  - assert (lt (key z) (key x) = true) as Hzx by (apply Ht with (key y); auto).
    rewrite decide_False; [|by intros E; rewrite E, Hi in Hzx].
    destruct (lt (key x) (key z)) eqn:E; [|done]. by destruct (Hasym _ _ Hzx E).
Qed.

Lemma lexLess_total :
  (∀ x y, lt x y = false → lt y x = false → x = y) →
  ∀ a b, lexLess a b = false → lexLess b a = false →
  key a = key b ∧ rest a b = false ∧ rest b a = false.
Proof.
  intros Htot a b. unfold lexLess. destruct (decide (key a = key b)) as [E|N].
  - by rewrite decide_True.
  - rewrite decide_False by congruence. intros ??. by destruct N; auto.
Qed.

(** A stable sort by the key of a list sorted by the rest sorts by both. *)
Lemma SliceStable_lex l :
  StrictWeak lt → StrictWeak lexLess →
  StronglySorted (λ x y, rest y x = false) l →
  StronglySorted (λ x y, lexLess y x = false) (SliceStable (λ a b, lt (key a) (key b)) l).
Proof.
  intros Hlt Hlex. induction 1 as [|x l Hl IH Hx]; [constructor|]. cbn [SliceStable foldr].
  fold (SliceStable (λ a b, lt (key a) (key b)) l).
  rewrite <- (SliceStable_perm (λ a b, lt (key a) (key b)) l) in Hx.
  revert IH Hx. generalize (SliceStable (λ a b, lt (key a) (key b)) l). clear Hl l.
  induction 1 as [|y l Hl IH Hy]; intros Hx; cbn; [by repeat constructor|].
  apply Forall_cons in Hx as [Hyx Hx]. destruct (lt (key y) (key x)) eqn:E.
  - constructor; [by apply IH|]. rewrite insert_by_perm. constructor; [|done].
    unfold lexLess. case_decide as Hk; [by rewrite Hk, (sw_irrefl _ Hlt) in E|].
    destruct (lt (key x) (key y)) eqn:E'; [|done].
    by rewrite <- (sw_irrefl _ Hlt (key x)), (sw_trans _ Hlt _ _ _ E' E).
  - assert (lexLess y x = false) as Hlyx by (unfold lexLess; by case_decide).
    constructor; [by constructor|]. constructor; [done|]. eapply Forall_impl; [exact Hy|].
    intros z Hz. by apply (sw_negtrans _ Hlex z y x).
Qed.
End lex.

Lemma Zltb_StrictWeak : StrictWeak Z.ltb.
Proof. split; lia. Qed.
Lemma Zltb_total x y : (x <? y)%Z = false → (y <? x)%Z = false → x = y.
Proof. lia. Qed.

(** When [less] tells any two elements apart, sorting has one result whatever the
    runtime and the order of the input. *)
Lemma sort_slice_unique `{GoRuntime} {A} (less : A → A → bool) l1 l2 :
  StrictWeak less → (∀ x y, less x y = false → less y x = false → x = y) →
  l1 ≡ₚ l2 → sort_slice less l1 = SliceStable less l2.
Proof.
  intros Hless Htot Hl.
  assert (AntiSymm (=) (λ x y, less y x = false)) by (intros x y ??; auto).
  apply (StronglySorted_unique (λ x y, less y x = false)).
  - by apply sort_slice_sorted.
  - by apply SliceStable_sorted.
  - by rewrite sort_slice_perm, SliceStable_perm.
Qed.

Lemma NoDup_fmap_eq {A K} (key : A → K) l x y :
  NoDup (key <$> l) → x ∈ l → y ∈ l → key x = key y → x = y.
Proof.
  induction l as [|z l IH]; cbn; intros Hnd Hx Hy Heq; [by apply elem_of_nil in Hx|].
  apply NoDup_cons in Hnd as [Hz Hnd]. rewrite elem_of_cons in Hx, Hy.
  destruct Hx as [->|Hx], Hy as [->|Hy]; [done| | |by apply IH].
  - destruct Hz. rewrite Heq. by apply list_elem_of_fmap_2.
  - destruct Hz. rewrite <- Heq. by apply list_elem_of_fmap_2.
Qed.

(** Sorting by a key that no two elements share has one result: any sorted permutation is
    it. *)
Lemma sort_slice_keyed `{GoRuntime} {A K} (key : A → K) (less : K → K → bool) l l' :
  StrictWeak less → (∀ x y, less x y = false → less y x = false → x = y) →
  NoDup (key <$> l) → l' ≡ₚ l → StronglySorted (λ x y, less (key y) (key x) = false) l' →
  sort_slice (λ x y, less (key x) (key y)) l = l'.
Proof.
  intros Hless Htot Hnd Hl Hsorted.
  apply (StronglySorted_unique_strong (λ x y, less (key y) (key x) = false)).
  - intros x y Hx Hy Hxy Hyx. rewrite sort_slice_perm in Hx. rewrite Hl in Hy.
    by apply (NoDup_fmap_eq key l); auto.
  - apply (sort_slice_sorted (λ x y, less (key x) (key y))). destruct Hless. split; eauto.
  - done.
  - by rewrite sort_slice_perm.
Qed.

(** A runtime: the list order of [gmap], a stable sort and ASCII case tables. *)
Definition reference_runtime : GoRuntime := {|
  map_range := λ K V _ _ m, map_to_list m;
  sort_slice := λ A, SliceStable;
  unicode_ToLower := fmap lowerByte;
  unicode_ToUpper := fmap upperByte;
  unicode_EqualFold := λ s t, bool_decide (lowerByte <$> s = lowerByte <$> t);
  unicode_Quote := λ s, s;
  map_range_perm := λ _ _ _ _ _, reflexivity _;
  sort_slice_perm := λ A, SliceStable_perm;
  sort_slice_sorted := λ A less l H, SliceStable_sorted less H l;
|}.

(** ** Splitting *)

Lemma splitByte_app sep a b : splitByte sep (a ++ sep :: b) = splitByte sep a ++ splitByte sep b.
Proof.
  induction a as [|c a IH]; cbn; [by rewrite Ascii.eqb_refl|].
  rewrite IH. destruct (Ascii.eqb c sep); [done|].
  destruct (splitByte sep a) eqn:E; [|done]. by destruct a; cbn in E; repeat case_match.
Qed.

Lemma splitByte_ne_nil sep s : splitByte sep s ≠ [].
Proof. destruct s; cbn; repeat case_match; done. Qed.

Lemma Join_cons p ps sep : ps ≠ [] → Join (p :: ps) sep = p ++ sep ++ Join ps sep.
Proof. by destruct ps. Qed.

Lemma Join_forallb (f : ascii → bool) ls sep :
  Forall (λ l, forallb f l = true) ls → forallb f sep = true → forallb f (Join ls sep) = true.
Proof.
  intros Hls Hs. induction Hls as [|l ls Hl Hls IH]; [done|].
  destruct (decide (ls = [])) as [-> |]; [done|].
  by rewrite Join_cons, !forallb_app, Hl, Hs, IH.
Qed.

Lemma elem_of_Join c l ls sep : l ∈ ls → c ∈ l → c ∈ Join ls sep.
Proof.
  intros Hl Hc. induction ls as [|l' ls IH]; [by apply not_elem_of_nil in Hl|].
  destruct (decide (ls = [])) as [-> |].
  - by apply list_elem_of_singleton in Hl as ->.
  - rewrite Join_cons, !elem_of_app by done. apply elem_of_cons in Hl as [-> |]; [by left|].
    right. right. by apply IH.
Qed.

Lemma Join_splitByte sep s : Join (splitByte sep s) [sep] = s.
Proof.
  induction s as [|c s IH]; [done|]. pose proof (splitByte_ne_nil sep s) as Hne.
  cbn [splitByte]. destruct (Ascii.eqb_spec c sep) as [->|].
  - rewrite Join_cons, IH by done. done.
  - destruct (splitByte sep s) as [|w ws]; [done|]. rewrite <- IH. by destruct ws.
Qed.

(** ** Fields *)

(** No space starts anywhere inside the word. *)
Definition solid (w : gostring) : Prop := ∀ t u, w = t ++ u → leadSpace u = false.

Lemma fieldsFrom_step cur a s :
  leadSpace (a :: s) = false → fieldsFrom cur (a :: s) = fieldsFrom (a :: cur) s.
Proof.
  destruct s as [|b [|c s]]; cbn; intros Hl;
    repeat match goal with
    | H : _ || _ = false |- _ => apply orb_false_iff in H as [??]
    end; by repeat case_match.
Qed.

Lemma fieldsFrom_space cur a s :
  asciiSpace a = true →
  fieldsFrom cur (a :: s) = match cur with [] => [] | _ => [rev cur] end ++ fieldsFrom [] s.
Proof. intros Ha. cbn. by rewrite Ha. Qed.

(** A non-ASCII space never straddles a blank. *)
Lemma leadSpace_blank u rest :
  u ≠ [] → leadSpace u = false → leadSpace (u ++ " "%char :: rest) = false.
Proof.
  intros Hne. destruct u as [|a [|b [|c u]]]; [done|..]; cbn; intros Hl.
  - destruct rest; cbn; rewrite Hl, plainByte_blank2; [done|]. by rewrite plainByte_blank3.
  - apply orb_false_iff in Hl as [-> ->]. by rewrite plainByte_blank3'.
  - done.
Qed.

Lemma fieldsFrom_word cur w rest :
  solid w → fieldsFrom cur (w ++ " "%char :: rest) = fieldsFrom (rev w ++ cur) (" "%char :: rest).
Proof.
  revert cur. induction w as [|a w IH]; intros cur Hw; [done|].
  rewrite <- app_comm_cons, fieldsFrom_step.
  - rewrite IH.
    + cbn. by rewrite <- app_assoc.
    + intros t u ->. by apply (Hw (a :: t)).
  - rewrite app_comm_cons. apply leadSpace_blank; [done|]. by apply (Hw []).
Qed.

Lemma fieldsFrom_end cur w : solid w → fieldsFrom cur w = fieldsFrom (rev w ++ cur) [].
Proof.
  revert cur. induction w as [|a w IH]; intros cur Hw; [done|].
  rewrite fieldsFrom_step by by apply (Hw []). rewrite IH.
  - cbn [rev]. by rewrite <- app_assoc.
  - intros t u ->. by apply (Hw (a :: t)).
Qed.

Lemma flush_rev (w : gostring) :
  w ≠ [] → (match rev w ++ [] with [] => [] | _ => [rev (rev w ++ [])] end : list gostring) = [w].
Proof.
  rewrite app_nil_r, rev_involutive. intros Hw. destruct (rev w) eqn:E; [|done].
  by apply (f_equal (@rev _)) in E; rewrite rev_involutive in E.
Qed.

(** [Fields] reads back the words a blank-separated line was made of. *)
Lemma Fields_Join ws :
  Forall (λ w, w ≠ [] ∧ solid w) ws → Fields (Join ws " ") = ws.
Proof.
  unfold Fields. induction 1 as [|w ws [Hne Hw] Hws IH]; [done|].
  destruct ws as [|w' ws].
  - cbn [Join]. rewrite fieldsFrom_end by done. by apply flush_rev.
  - rewrite Join_cons by done. cbn [app]. rewrite fieldsFrom_word, fieldsFrom_space by done.
    rewrite flush_rev by done. by rewrite IH.
Qed.

Lemma fieldsFrom_solid cur s :
  (∀ t u, rev cur = t ++ u → u ≠ [] → leadSpace (u ++ s) = false) →
  Forall (λ w, w ≠ [] ∧ solid w) (fieldsFrom cur s).
Proof.
  remember (length s) as n eqn:Hn. revert cur s Hn.
  induction (lt_wf n) as [n _ IH]; intros cur s -> Hcur.
  assert (Forall (λ w, w ≠ [] ∧ solid w) match cur with [] => [] | _ => [rev cur] end) as Hfl.
  { destruct cur as [|c cur]; [done|]. apply Forall_singleton. split.
    - cbn. by destruct (rev cur).
    - intros t u E. destruct (decide (u = [])) as [->|Hu]; [done|].
      destruct (leadSpace u) eqn:Hl; [|done]. pose proof (leadSpace_app u s Hl). by rewrite (Hcur t u E Hu) in *. }
  assert (∀ s', length s' < length s → Forall (λ w, w ≠ [] ∧ solid w) (fieldsFrom [] s')) as Hnil.
  { intros s' Hs'. eapply IH; [done|reflexivity|]. intros t u E Hu.
    symmetry in E. by apply app_nil in E as [_ ->]. }
  destruct s as [|a s1]; [done|].
  destruct (leadSpace (a :: s1)) eqn:Hl.
  - assert (∃ s', length s' < length (a :: s1) ∧
      fieldsFrom cur (a :: s1) = match cur with [] => [] | _ => [rev cur] end ++ fieldsFrom [] s')
      as (s' & Hs' & ->); [|by apply Forall_app; auto].
    cbn in *. destruct (asciiSpace a); [exists s1; cbn; auto with lia|].
    destruct s1 as [|b s2]; [done|].
    destruct (unicodeSpace2 a b); [exists s2; cbn; auto with lia|].
    destruct s2 as [|c s3]; [done|]. cbn in Hl. rewrite Hl. exists s3. cbn. auto with lia.
  - rewrite fieldsFrom_step by done. eapply IH; [|reflexivity|]; [cbn; lia|].
    cbn [rev]. intros t u E Hu.
    destruct u as [|x u' _] using rev_ind; [done|].
    rewrite app_assoc in E. apply app_inj_tail in E as [E ->].
    rewrite <- app_assoc. cbn. destruct (decide (u' = [])) as [->|]; [done|]. eauto.
Qed.

Lemma Fields_solid s : Forall (λ w, w ≠ [] ∧ solid w) (Fields s).
Proof. apply fieldsFrom_solid. intros t u E Hu. symmetry in E. by apply app_nil in E as [_ ->]. Qed.

(** A word of plain bytes is solid. *)
Lemma plain_solid w : forallb plainByte w = true → solid w.
Proof.
  intros Hw t u ->. rewrite forallb_app in Hw. apply andb_true_iff in Hw as [_ Hu].
  destruct u as [|a [|b [|c u]]]; [done|..]; cbn [forallb] in Hu;
    apply andb_true_iff in Hu as [Ha _]; cbn;
    by rewrite ?plainByte_asciiSpace, ?plainByte_space2_l, ?plainByte_space3_l.
Qed.

(** ** Decimal numbers *)

Lemma decimalDigits_acc fuel n acc :
  decimalDigits fuel n acc = decimalDigits fuel n [] ++ acc.
Proof.
  revert n acc. induction fuel as [|fuel IH]; intros n acc; cbn; [done|].
  case_match; [done|]. rewrite IH, (IH _ [_]). by rewrite <- app_assoc.
Qed.

Lemma isDigit_byte k : (0 ≤ k < 10)%Z → isDigit (byte (48 + k)) = true.
Proof. intros Hk. unfold isDigit. rewrite bval_byte; lia. Qed.

Lemma decimalVal_app s t :
  decimalVal (s ++ t) = fold_left (λ n c, (n * 10 + digitVal c)%Z) t (decimalVal s).
Proof. apply fold_left_app. Qed.

Lemma decimalDigits_spec fuel n :
  (0 ≤ n < 2 ^ Z.of_nat fuel)%Z → 0 < fuel →
  forallb isDigit (decimalDigits fuel n []) = true ∧
  decimalDigits fuel n [] ≠ [] ∧
  decimalVal (decimalDigits fuel n []) = n.
Proof.
  revert n. induction fuel as [|fuel IH]; intros n Hn Hf; [lia|].
  cbn [decimalDigits]. assert (0 ≤ n mod 10 < 10)%Z as Hm by (apply Z.mod_pos_bound; lia).
  pose proof (isDigit_byte _ Hm) as Hd.
  assert (digitVal (byte (48 + n mod 10)) = n mod 10)%Z as Hv.
  { unfold digitVal. rewrite bval_byte; lia. }
  destruct (Z.ltb_spec n 10).
  - cbn [forallb]. rewrite Hd. split_and!; [done..|].
    unfold decimalVal. cbn. rewrite Hv. rewrite Z.mod_small; lia.
  - rewrite decimalDigits_acc. destruct fuel as [|fuel]; [change (2 ^ Z.of_nat 1)%Z with 2%Z in Hn; lia|].
    rewrite Nat2Z.inj_succ, Z.pow_succ_r in Hn by lia.
    destruct (IH (n / 10)%Z) as (H1 & H2 & H3); [|lia|].
    { split; [apply Z.div_pos; lia|apply Z.div_lt_upper_bound; lia]. }
    rewrite forallb_app, decimalVal_app, H1, H3. cbn. rewrite Hd, Hv. split_and!; [done| |].
    + intros [_ ?]%app_nil. done.
    + pose proof (Z.div_mod n 10). lia.
Qed.

Lemma FormatUint_spec n :
  (0 ≤ n)%Z →
  forallb isDigit (FormatUint n) = true ∧ FormatUint n ≠ [] ∧ decimalVal (FormatUint n) = n.
Proof.
  intros Hn. apply decimalDigits_spec; [|lia]. split; [done|].
  rewrite Nat2Z.inj_succ, Z2Nat.id by apply Z.log2_nonneg.
  destruct (decide (n = 0)%Z) as [->|]; [done|]. apply Z.log2_spec. lia.
Qed.

(** [ParseUint] reads back what [FormatInt] prints, when it fits the width. *)
Lemma ParseUint_FormatInt bits n :
  (0 ≤ n < 2 ^ bits)%Z → ParseUint bits (FormatInt n) = Some n.
Proof.
  intros Hn. unfold FormatInt. replace (n <? 0)%Z with false by lia.
  destruct (FormatUint_spec n) as (Hd & Hne & Hv); [lia|].
  unfold ParseUint. destruct (FormatUint n) eqn:E; [done|]. rewrite <- E in *.
  rewrite Hd, Hv. by replace (n <? 2 ^ bits)%Z with true by lia.
Qed.

Lemma isDigit_plain c : isDigit c = true → plainByte c = true.
Proof. bytecases c; done. Qed.

Lemma FormatInt_nonneg n : (0 ≤ n)%Z → FormatInt n = FormatUint n.
Proof. intros Hn. unfold FormatInt. by replace (n <? 0)%Z with false by lia. Qed.

Lemma FormatInt_digits n : (0 ≤ n)%Z → forallb isDigit (FormatInt n) = true ∧ FormatInt n ≠ [].
Proof. intros Hn. rewrite FormatInt_nonneg by done. by destruct (FormatUint_spec n Hn) as (? & ? & _). Qed.

Lemma FormatInt_word n : (0 ≤ n)%Z → FormatInt n ≠ [] ∧ solid (FormatInt n).
Proof.
  intros [Hd Hne]%FormatInt_digits. split; [done|]. apply plain_solid, forallb_Forall.
  rewrite forallb_Forall in Hd. eauto using Forall_impl, isDigit_plain.
Qed.

Lemma decimalFold_nonneg l z :
  forallb isDigit l = true → (0 ≤ z)%Z →
  (0 ≤ fold_left (λ n c, n * 10 + digitVal c) l z)%Z.
Proof.
  revert z. induction l as [|c l IH]; intros z Hd Hz; cbn; [done|].
  cbn in Hd. apply andb_true_iff in Hd as [Hc Hd]. apply (IH _ Hd).
  unfold isDigit, digitVal in *. lia.
Qed.

Lemma ParseUint_range bits s n : ParseUint bits s = Some n → (0 ≤ n < 2 ^ bits)%Z.
Proof.
  unfold ParseUint. destruct s as [|c s]; [done|].
  destruct (forallb isDigit (c :: s)) eqn:Hd; cbn [andb]; [|done].
  destruct (Z.ltb_spec (decimalVal (c :: s)) (2 ^ bits)); [|done]. intros [= <-].
  split; [|done]. by apply decimalFold_nonneg.
Qed.
