(* ===== verification/Api.v ===== *)
(** The API types of [api/v1alpha1]: record types, record entries and their
    typed values, [DNSRecordSet], [DNSZone] and the conditions they carry.

    [RRType] is a string restricted by the CRD's enum marker; the model is that
    enum.  Unsigned fields are integers whose width is stated by
    [wf_RecordEntry].  Only the object metadata the modelled code reads is kept. *)

From S2P Require Import Prelude GoStrings.

Inductive RRType :=
| RRTypeA | RRTypeAAAA | RRTypeALIAS | RRTypeCNAME | RRTypeTXT | RRTypeMX | RRTypeSRV
| RRTypeCAA | RRTypeNS | RRTypeSOA | RRTypePTR | RRTypeTLSA | RRTypeHTTPS | RRTypeSVCB.

#[global] Instance RRType_eq_dec : EqDecision RRType.
Proof. solve_decision. Defined.

(** [string(t)]. *)
Definition RRTypeString (t : RRType) : gostring :=
  match t with
  | RRTypeA => "A" | RRTypeAAAA => "AAAA" | RRTypeALIAS => "ALIAS"
  | RRTypeCNAME => "CNAME" | RRTypeTXT => "TXT" | RRTypeMX => "MX"
  | RRTypeSRV => "SRV" | RRTypeCAA => "CAA" | RRTypeNS => "NS" | RRTypeSOA => "SOA"
  | RRTypePTR => "PTR" | RRTypeTLSA => "TLSA" | RRTypeHTTPS => "HTTPS"
  | RRTypeSVCB => "SVCB"
  end.

#[global] Instance RRTypeString_inj : Inj (=) (=) RRTypeString.
Proof. intros [] []; cbn; congruence. Qed.

(** The single-field specs (A, AAAA, CNAME, ALIAS, NS, PTR and TXT). *)
Record ContentSpec := { Content : gostring }.

Record SRVRecordSpec := {
  srv_Priority : Z; srv_Weight : Z; srv_Port : Z; srv_Target : gostring }.
Record MXRecordSpec := { mx_Preference : Z; mx_Exchange : gostring }.
Record CAARecordSpec := { caa_Flag : Z; caa_Tag : gostring; caa_Value : gostring }.
Record TLSARecordSpec := {
  tlsa_Usage : Z; tlsa_Selector : Z; tlsa_MatchingType : Z; tlsa_CertData : gostring }.
Record HTTPSRecordSpec := {
  https_Priority : Z; https_Target : gostring; https_Params : gmap gostring gostring }.
Record SOARecordSpec := {
  soa_MName : gostring; soa_RName : gostring; soa_Serial : Z; soa_Refresh : Z;
  soa_Retry : Z; soa_Expire : Z; soa_TTL : Z }.

Record RecordEntry := {
  re_Name : gostring;
  re_TTL : option Z;
  re_A : option ContentSpec;
  re_AAAA : option ContentSpec;
  re_CNAME : option ContentSpec;
  re_ALIAS : option ContentSpec;
  re_NS : option ContentSpec;
  re_TXT : option ContentSpec;
  re_SOA : option SOARecordSpec;
  re_CAA : option CAARecordSpec;
  re_MX : option MXRecordSpec;
  re_SRV : option SRVRecordSpec;
  re_TLSA : option TLSARecordSpec;
  re_HTTPS : option HTTPSRecordSpec;
  re_SVCB : option HTTPSRecordSpec;
  re_PTR : option ContentSpec;
}.

(** The zero value of a [RecordEntry]. *)
Definition emptyEntry : RecordEntry := {|
  re_Name := []; re_TTL := None; re_A := None; re_AAAA := None; re_CNAME := None;
  re_ALIAS := None; re_NS := None; re_TXT := None; re_SOA := None; re_CAA := None;
  re_MX := None; re_SRV := None; re_TLSA := None; re_HTTPS := None; re_SVCB := None;
  re_PTR := None |}.

(** Assignments to one field. *)
Definition set_Name (n : gostring) (e : RecordEntry) : RecordEntry :=
  {| re_Name := n; re_TTL := re_TTL e; re_A := re_A e; re_AAAA := re_AAAA e;
     re_CNAME := re_CNAME e; re_ALIAS := re_ALIAS e; re_NS := re_NS e; re_TXT := re_TXT e;
     re_SOA := re_SOA e; re_CAA := re_CAA e; re_MX := re_MX e; re_SRV := re_SRV e;
     re_TLSA := re_TLSA e; re_HTTPS := re_HTTPS e; re_SVCB := re_SVCB e; re_PTR := re_PTR e |}.
Definition set_TTL (t : option Z) (e : RecordEntry) : RecordEntry :=
  {| re_Name := re_Name e; re_TTL := t; re_A := re_A e; re_AAAA := re_AAAA e;
     re_CNAME := re_CNAME e; re_ALIAS := re_ALIAS e; re_NS := re_NS e; re_TXT := re_TXT e;
     re_SOA := re_SOA e; re_CAA := re_CAA e; re_MX := re_MX e; re_SRV := re_SRV e;
     re_TLSA := re_TLSA e; re_HTTPS := re_HTTPS e; re_SVCB := re_SVCB e; re_PTR := re_PTR e |}.
Definition set_TXT (x : option ContentSpec) (e : RecordEntry) : RecordEntry :=
  {| re_Name := re_Name e; re_TTL := re_TTL e; re_A := re_A e; re_AAAA := re_AAAA e;
     re_CNAME := re_CNAME e; re_ALIAS := re_ALIAS e; re_NS := re_NS e; re_TXT := x;
     re_SOA := re_SOA e; re_CAA := re_CAA e; re_MX := re_MX e; re_SRV := re_SRV e;
     re_TLSA := re_TLSA e; re_HTTPS := re_HTTPS e; re_SVCB := re_SVCB e; re_PTR := re_PTR e |}.

(** A value together with the typed field it goes into, and the assignment
    [e.<field> = &value]. *)
Inductive TypedField :=
| FA (s : ContentSpec)
| FAAAA (s : ContentSpec)
| FCNAME (s : ContentSpec)
| FALIAS (s : ContentSpec)
| FNS (s : ContentSpec)
| FTXT (s : ContentSpec)
| FSOA (s : SOARecordSpec)
| FCAA (s : CAARecordSpec)
| FMX (s : MXRecordSpec)
| FSRV (s : SRVRecordSpec)
| FTLSA (s : TLSARecordSpec)
| FHTTPS (s : HTTPSRecordSpec)
| FSVCB (s : HTTPSRecordSpec)
| FPTR (s : ContentSpec).

Definition assign (f : TypedField) (e : RecordEntry) : RecordEntry := {|
  re_Name := re_Name e;
  re_TTL := re_TTL e;
  re_A := match f with FA s => Some s | _ => re_A e end;
  re_AAAA := match f with FAAAA s => Some s | _ => re_AAAA e end;
  re_CNAME := match f with FCNAME s => Some s | _ => re_CNAME e end;
  re_ALIAS := match f with FALIAS s => Some s | _ => re_ALIAS e end;
  re_NS := match f with FNS s => Some s | _ => re_NS e end;
  re_TXT := match f with FTXT s => Some s | _ => re_TXT e end;
  re_SOA := match f with FSOA s => Some s | _ => re_SOA e end;
  re_CAA := match f with FCAA s => Some s | _ => re_CAA e end;
  re_MX := match f with FMX s => Some s | _ => re_MX e end;
  re_SRV := match f with FSRV s => Some s | _ => re_SRV e end;
  re_TLSA := match f with FTLSA s => Some s | _ => re_TLSA e end;
  re_HTTPS := match f with FHTTPS s => Some s | _ => re_HTTPS e end;
  re_SVCB := match f with FSVCB s => Some s | _ => re_SVCB e end;
  re_PTR := match f with FPTR s => Some s | _ => re_PTR e end |}.

(** ** Conditions *)

Inductive ConditionStatus := ConditionTrue | ConditionFalse | ConditionUnknown.

#[global] Instance ConditionStatus_eq_dec : EqDecision ConditionStatus.
Proof. solve_decision. Defined.

Record Condition := {
  c_Type : gostring;
  c_Status : ConditionStatus;
  c_ObservedGeneration : Z;
  c_LastTransitionTime : Z;
  c_Reason : gostring;
  c_Message : gostring;
}.

#[global] Instance Condition_eq_dec : EqDecision Condition.
Proof. solve_decision. Defined.

Record RecordSetStatus := { rss_Name : gostring; rss_Conditions : list Condition }.

#[global] Instance RecordSetStatus_eq_dec : EqDecision RecordSetStatus.
Proof. solve_decision. Defined.

(** [metav1.OwnerReference], the fields that identify the owner. *)
Record OwnerReference := {
  oref_Kind : gostring; oref_Name : gostring; oref_UID : gostring; oref_Controller : bool }.

#[global] Instance OwnerReference_eq_dec : EqDecision OwnerReference.
Proof. solve_decision. Defined.

(** The deletion timestamp is zero when it is [None]; an empty list of statuses is the
    nil slice, which is how decoding leaves an absent one. *)
Record DNSRecordSet := {
  rs_Namespace : gostring;
  rs_Name : gostring;
  rs_UID : gostring;
  rs_Generation : Z;
  rs_CreationTimestamp : Z;
  rs_DeletionTimestamp : option Z;
  rs_Finalizers : list gostring;
  rs_OwnerReferences : list OwnerReference;
  rs_DNSZoneRef : gostring;
  rs_RecordType : RRType;
  rs_Records : list RecordEntry;
  rs_Conditions : list Condition;
  rs_RecordSets : list RecordSetStatus;
}.

Definition set_rs_Finalizers (l : list gostring) (rs : DNSRecordSet) : DNSRecordSet :=
  {| rs_Namespace := rs_Namespace rs; rs_Name := rs_Name rs; rs_UID := rs_UID rs;
     rs_Generation := rs_Generation rs; rs_CreationTimestamp := rs_CreationTimestamp rs;
     rs_DeletionTimestamp := rs_DeletionTimestamp rs; rs_Finalizers := l;
     rs_OwnerReferences := rs_OwnerReferences rs; rs_DNSZoneRef := rs_DNSZoneRef rs;
     rs_RecordType := rs_RecordType rs; rs_Records := rs_Records rs;
     rs_Conditions := rs_Conditions rs; rs_RecordSets := rs_RecordSets rs |}.
Definition set_rs_OwnerReferences (l : list OwnerReference) (rs : DNSRecordSet) : DNSRecordSet :=
  {| rs_Namespace := rs_Namespace rs; rs_Name := rs_Name rs; rs_UID := rs_UID rs;
     rs_Generation := rs_Generation rs; rs_CreationTimestamp := rs_CreationTimestamp rs;
     rs_DeletionTimestamp := rs_DeletionTimestamp rs; rs_Finalizers := rs_Finalizers rs;
     rs_OwnerReferences := l; rs_DNSZoneRef := rs_DNSZoneRef rs;
     rs_RecordType := rs_RecordType rs; rs_Records := rs_Records rs;
     rs_Conditions := rs_Conditions rs; rs_RecordSets := rs_RecordSets rs |}.
(** [rs.Status = ...], both fields. *)
Definition set_rs_Status (conds : list Condition) (sts : list RecordSetStatus)
    (rs : DNSRecordSet) : DNSRecordSet :=
  {| rs_Namespace := rs_Namespace rs; rs_Name := rs_Name rs; rs_UID := rs_UID rs;
     rs_Generation := rs_Generation rs; rs_CreationTimestamp := rs_CreationTimestamp rs;
     rs_DeletionTimestamp := rs_DeletionTimestamp rs; rs_Finalizers := rs_Finalizers rs;
     rs_OwnerReferences := rs_OwnerReferences rs; rs_DNSZoneRef := rs_DNSZoneRef rs;
     rs_RecordType := rs_RecordType rs; rs_Records := rs_Records rs;
     rs_Conditions := conds; rs_RecordSets := sts |}.
Definition set_rs_Conditions (conds : list Condition) (rs : DNSRecordSet) : DNSRecordSet :=
  set_rs_Status conds (rs_RecordSets rs) rs.

(** ** Zones *)

Definition DNSZoneVisibilityPrivate : gostring := "Private".

(** The linked [Domain]: its name and the nameserver hostnames observed for it. *)
Record DomainRef := { dr_Name : gostring; dr_Nameservers : list gostring }.

Record DNSZone := {
  z_Namespace : gostring;
  z_Name : gostring;
  z_UID : gostring;
  z_Generation : Z;
  z_DeletionTimestamp : option Z;
  z_Finalizers : list gostring;
  z_DomainName : gostring;
  z_DNSZoneClassName : gostring;
  z_Visibility : gostring;
  z_Nameservers : list gostring;
  z_RecordCount : Z;
  z_Conditions : list Condition;
  z_DomainRef : option DomainRef;
}.

Definition set_z_Finalizers (l : list gostring) (z : DNSZone) : DNSZone :=
  {| z_Namespace := z_Namespace z; z_Name := z_Name z; z_UID := z_UID z;
     z_Generation := z_Generation z; z_DeletionTimestamp := z_DeletionTimestamp z;
     z_Finalizers := l; z_DomainName := z_DomainName z;
     z_DNSZoneClassName := z_DNSZoneClassName z; z_Visibility := z_Visibility z;
     z_Nameservers := z_Nameservers z; z_RecordCount := z_RecordCount z;
     z_Conditions := z_Conditions z; z_DomainRef := z_DomainRef z |}.
Definition set_z_Status (ns : list gostring) (conds : list Condition) (z : DNSZone) : DNSZone :=
  {| z_Namespace := z_Namespace z; z_Name := z_Name z; z_UID := z_UID z;
     z_Generation := z_Generation z; z_DeletionTimestamp := z_DeletionTimestamp z;
     z_Finalizers := z_Finalizers z; z_DomainName := z_DomainName z;
     z_DNSZoneClassName := z_DNSZoneClassName z; z_Visibility := z_Visibility z;
     z_Nameservers := ns; z_RecordCount := z_RecordCount z;
     z_Conditions := conds; z_DomainRef := z_DomainRef z |}.

(** The nameserver policy of a class: its mode and, when set, the static servers. *)
Record NameServerPolicy := { nsp_Mode : gostring; nsp_Static : option (list gostring) }.
Record DNSZoneClass := {
  zc_ControllerName : gostring; zc_NameServerPolicy : option NameServerPolicy }.

(** ** Widths *)

Definition uint (bits z : Z) : Prop := (0 ≤ z < 2 ^ bits)%Z.

Record wf_RecordEntry (e : RecordEntry) : Prop := {
  wf_SRV : ∀ s, re_SRV e = Some s →
    uint 16 (srv_Priority s) ∧ uint 16 (srv_Weight s) ∧ uint 16 (srv_Port s);
  wf_MX : ∀ s, re_MX e = Some s → uint 16 (mx_Preference s);
  wf_CAA : ∀ s, re_CAA e = Some s → uint 8 (caa_Flag s);
  wf_TLSA : ∀ s, re_TLSA e = Some s →
    uint 8 (tlsa_Usage s) ∧ uint 8 (tlsa_Selector s) ∧ uint 8 (tlsa_MatchingType s);
  wf_HTTPS : ∀ s, re_HTTPS e = Some s → uint 16 (https_Priority s);
  wf_SVCB : ∀ s, re_SVCB e = Some s → uint 16 (https_Priority s);
  wf_SOA : ∀ s, re_SOA e = Some s →
    uint 32 (soa_Serial s) ∧ uint 32 (soa_Refresh s) ∧ uint 32 (soa_Retry s) ∧
    uint 32 (soa_Expire s) ∧ uint 32 (soa_TTL s);
}.
