(* ===== verification/Ownername.v ===== *)
(** Package [internal/dns/ownername]: the absolute name an owner name denotes
    within a zone. *)

From S2P Require Import Prelude GoStrings.

Section Ownername.
Context `{GoRuntime}.

Definition Qualify (owner zone : gostring) : gostring :=
  let owner := ToLower owner in
  let zone := ToLower zone in
  if decide (owner = "@" ∨ owner = []) then zone ++ "."
  else if decide (last owner = Some "."%char) then owner
  else owner ++ "." ++ zone ++ ".".

(** A qualified name always ends in a dot. *)
Lemma Qualify_last owner zone : last (Qualify owner zone) = Some "."%char.
Proof.
  unfold Qualify. case_decide; [by rewrite last_snoc|].
  case_decide; [done|]. rewrite (app_assoc _ "."), (app_assoc _ _ ".").
  by rewrite last_snoc.
Qed.

Lemma Qualify_ne_nil owner zone : Qualify owner zone ≠ [].
Proof. intros E. pose proof (Qualify_last owner zone) as Hl. by rewrite E in Hl. Qed.

(** Qualifying is idempotent: the absolute spelling denotes itself. *)
Lemma Qualify_idemp owner zone :
  ascii_string owner = true → ascii_string zone = true →
  Qualify (Qualify owner zone) zone = Qualify owner zone.
Proof.
  intros Ho Hz.
  assert (ToLower (Qualify owner zone) = Qualify owner zone) as Hlow.
  { unfold Qualify. case_decide; [|case_decide].
    - rewrite ToLower_app by auto using ascii_ToLower. by rewrite ToLower_idemp.
    - by apply ToLower_idemp.
    - rewrite !ToLower_app;
        rewrite ?ascii_string_app, ?ascii_ToLower by done; try done.
      by rewrite !ToLower_idemp. }
  unfold Qualify at 1. rewrite Hlow, decide_False, decide_True; [done| |].
  - apply Qualify_last.
  - intros [E|E]; [|by apply Qualify_ne_nil in E].
    pose proof (Qualify_last owner zone) as Hl. by rewrite E in Hl.
Qed.
End Ownername.
