(* ===== verification/Display.v ===== *)
(** Package [internal/display]: the names and values that activity summaries show for a
    record set, and the change they report between two versions of it.

    The annotations of an object are a finite map beside it; a nil map is the empty one. *)

From S2P Require Import Prelude GoStrings Api.

Abbreviation Annotations := (gmap gostring gostring).

Definition AnnotationDisplayName : gostring := "dns.networking.miloapis.com/display-name".
Definition AnnotationDisplayValue : gostring := "dns.networking.miloapis.com/display-value".

(** * display.go *)

(** The first occurrences of a list, in order; [seen] is the set of the loop. *)
Fixpoint uniqueFrom (seen : gset gostring) (l : list gostring) : list gostring :=
  match l with
  | [] => []
  | n :: l' => if decide (n ∈ seen) then uniqueFrom seen l' else n :: uniqueFrom ({[n]} ∪ seen) l'
  end.

Definition UniqueRecordNames (rs : DNSRecordSet) : list gostring :=
  uniqueFrom ∅ (re_Name <$> rs_Records rs).

(** The non-empty contents of one field. *)
Definition contentsOf (field : RecordEntry → option ContentSpec) (rs : DNSRecordSet) : list gostring :=
  omap (λ r, match field r with
             | Some s => if decide (Content s ≠ []) then Some (Content s) else None
             | None => None
             end) (rs_Records rs).

Definition ExtractIPAddresses (rs : DNSRecordSet) : list gostring :=
  match rs_RecordType rs with
  | RRTypeA => contentsOf re_A rs
  | RRTypeAAAA => contentsOf re_AAAA rs
  | _ => []
  end.

(** The content of one field of the first entry. *)
Definition firstContent (field : RecordEntry → option ContentSpec) (rs : DNSRecordSet) : gostring :=
  match rs_Records rs with
  | r :: _ => match field r with Some s => Content s | None => [] end
  | [] => []
  end.

Definition ExtractCNAMETarget (rs : DNSRecordSet) : gostring :=
  if decide (rs_RecordType rs ≠ RRTypeCNAME) then [] else firstContent re_CNAME rs.

Definition ExtractMXHosts (rs : DNSRecordSet) : gostring :=
  if decide (rs_RecordType rs ≠ RRTypeMX) then []
  else Join (omap (λ r, match re_MX r with
                        | Some s => if decide (mx_Exchange s ≠ [])
                                    then Some (words [FormatInt (mx_Preference s); mx_Exchange s])
                                    else None
                        | None => None
                        end) (rs_Records rs)) ", ".

Definition BuildFQDN (recordName zoneDomainName : gostring) : gostring :=
  if decide (recordName = "@") then zoneDomainName else recordName ++ "." ++ zoneDomainName.

Definition ComputeDisplayName (rs : DNSRecordSet) (zoneDomainName : gostring) : gostring :=
  match UniqueRecordNames rs with
  | [] => []
  | names => Join ((λ name, BuildFQDN name zoneDomainName) <$> names) ", "
  end.

(** [maxLength], and the cut of a longer text. *)
Definition maxLength : nat := 200.
Definition shorten (result : gostring) : gostring :=
  if decide (maxLength < length result) then take (maxLength - 3) result ++ "..." else result.

Definition ComputeDisplayValue (rs : DNSRecordSet) : gostring :=
  match rs_RecordType rs with
  | RRTypeA | RRTypeAAAA => shorten (Join (ExtractIPAddresses rs) ", ")
  | RRTypeCNAME => ExtractCNAMETarget rs
  | RRTypeALIAS => firstContent re_ALIAS rs
  | RRTypeMX => shorten (ExtractMXHosts rs)
  | RRTypeTXT =>
      match rs_Records rs with
      | r :: _ =>
          match re_TXT r with
          | Some s =>
              let content := Content s in
              [dquote] ++ (if decide (60 < length content) then take 57 content ++ "..." else content)
              ++ [dquote]
          | None => []
          end
      | [] => []
      end
  | RRTypeNS => shorten (Join (contentsOf re_NS rs) ", ")
  | RRTypeSRV =>
      shorten (Join (omap (λ r, (λ s, words [FormatInt (srv_Priority s); FormatInt (srv_Weight s);
                                             FormatInt (srv_Port s); srv_Target s]) <$> re_SRV r)
                          (rs_Records rs)) ", ")
  | _ => if decide (1 < length (rs_Records rs))
         then FormatInt (Z.of_nat (length (rs_Records rs))) ++ " records"
         else "(see details)"
  end.

(** The annotations after the call, and whether it changed them. *)
Definition EnsureAnnotations (annotations : Annotations) (rs : DNSRecordSet)
    (zoneDomainName : gostring) : Annotations * bool :=
  let expectedDisplayName := ComputeDisplayName rs zoneDomainName in
  let expectedDisplayValue := ComputeDisplayValue rs in
  if decide (default [] (annotations !! AnnotationDisplayName) = expectedDisplayName ∧
             default [] (annotations !! AnnotationDisplayValue) = expectedDisplayValue)
  then (annotations, false)
  else (<[AnnotationDisplayValue := expectedDisplayValue]>
          (<[AnnotationDisplayName := expectedDisplayName]> annotations), true).

(** * activity.go *)

Definition AnnotationActivityChange : gostring := "dns.networking.miloapis.com/activity-change".
Definition AnnotationActivityName : gostring := "dns.networking.miloapis.com/activity-name".
Definition AnnotationActivityValue : gostring := "dns.networking.miloapis.com/activity-value".

Definition ActivityChangeAdded : gostring := "added".
Definition ActivityChangeRemoved : gostring := "removed".
Definition ActivityChangeUpdated : gostring := "updated".

Record ActivityDiff := { ad_Change : gostring; ad_Name : gostring; ad_Value : gostring }.
Definition noDiff : ActivityDiff := {| ad_Change := []; ad_Name := []; ad_Value := [] |}.

Definition entriesByName (rs : DNSRecordSet) : gmap gostring (list RecordEntry) :=
  foldl (λ out r, <[re_Name r := default [] (out !! re_Name r) ++ [r]]> out) ∅ (rs_Records rs).

(** A record set with nothing but a type and records. *)
Definition bareRecordSet (t : RRType) (records : list RecordEntry) : DNSRecordSet :=
  {| rs_Namespace := []; rs_Name := []; rs_UID := []; rs_Generation := 0; rs_CreationTimestamp := 0;
     rs_DeletionTimestamp := None; rs_Finalizers := []; rs_OwnerReferences := [];
     rs_DNSZoneRef := []; rs_RecordType := t; rs_Records := records; rs_Conditions := [];
     rs_RecordSets := [] |}.

Definition subsetForNames (rs : DNSRecordSet) (names : list gostring) : DNSRecordSet :=
  bareRecordSet (rs_RecordType rs) (filter (λ r, re_Name r ∈ names) (rs_Records rs)).

Definition signatureForName (rs : DNSRecordSet) (name : gostring) : gostring :=
  ComputeDisplayValue (subsetForNames rs [name]).

Definition displayValueForNames (rs : DNSRecordSet) (names : list gostring) : gostring :=
  match names with [] => [] | _ => ComputeDisplayValue (subsetForNames rs names) end.

Definition fqdnsForNames (names : list gostring) (zoneDomainName : gostring) : gostring :=
  Join ((λ name, BuildFQDN name zoneDomainName) <$> names) ", ".

(** One of the two loops of [orderNames]: the names taken and what is still wanted. *)
Fixpoint takeWanted (want : gset gostring) (l : list gostring) : list gostring * gset gostring :=
  match l with
  | [] => ([], want)
  | n :: l' =>
      if decide (n ∈ want)
      then let '(out, want') := takeWanted (want ∖ {[n]}) l' in (n :: out, want')
      else takeWanted want l'
  end.

Definition orderNames (preferredOrder selected : list gostring) : list gostring :=
  match selected with
  | [] => []
  | _ =>
      let '(out, want) := takeWanted (list_to_set selected) preferredOrder in
      out ++ (takeWanted want selected).1
  end.

Definition dedupePreserveOrder (names : list gostring) : list gostring := uniqueFrom ∅ names.

Definition intersectNames (names available : list gostring) : list gostring :=
  filter (λ n, n ∈ available) names.

Section Activity.
Context `{GoRuntime}.

(** The loops over the two maps. *)
Definition addedNames (oldRS newRS : DNSRecordSet) : list gostring :=
  omap (λ '(name, _), if entriesByName oldRS !! name is Some _ then None else Some name)
    (map_range (entriesByName newRS)).
Definition updatedNames (oldRS newRS : DNSRecordSet) : list gostring :=
  omap (λ '(name, _),
    if entriesByName oldRS !! name is Some _
    then if decide (signatureForName oldRS name ≠ signatureForName newRS name) then Some name else None
    else None) (map_range (entriesByName newRS)).
Definition removedNames (oldRS newRS : DNSRecordSet) : list gostring :=
  omap (λ '(name, _), if entriesByName newRS !! name is Some _ then None else Some name)
    (map_range (entriesByName oldRS)).

Definition summarize (oldRS newRS : DNSRecordSet) (zoneDomainName : gostring)
    (added removed updated : list gostring) : ActivityDiff :=
  match added, removed, updated with
  | _ :: _, [], [] =>
      {| ad_Change := ActivityChangeAdded; ad_Name := fqdnsForNames added zoneDomainName;
         ad_Value := displayValueForNames newRS added |}
  | [], _ :: _, [] =>
      {| ad_Change := ActivityChangeRemoved; ad_Name := fqdnsForNames removed zoneDomainName;
         ad_Value := displayValueForNames oldRS removed |}
  | [], [], _ :: _ =>
      {| ad_Change := ActivityChangeUpdated; ad_Name := fqdnsForNames updated zoneDomainName;
         ad_Value := displayValueForNames newRS updated |}
  | [], [], [] => noDiff
  | _, _, _ =>
      let affected := dedupePreserveOrder (added ++ removed ++ updated) in
      let src := if decide (size (entriesByName newRS) = 0) then oldRS else newRS in
      {| ad_Change := ActivityChangeUpdated; ad_Name := fqdnsForNames affected zoneDomainName;
         ad_Value := displayValueForNames src (intersectNames affected (UniqueRecordNames src)) |}
  end.

(** A nil record set is [None]. *)
Definition ComputeActivityDiff (oldRS newRS : option DNSRecordSet) (zoneDomainName : gostring) :
    ActivityDiff :=
  match newRS, oldRS with
  | Some newRS, Some oldRS =>
      summarize oldRS newRS zoneDomainName
        (orderNames (UniqueRecordNames newRS) (addedNames oldRS newRS))
        (orderNames (UniqueRecordNames oldRS) (removedNames oldRS newRS))
        (orderNames (UniqueRecordNames newRS) (updatedNames oldRS newRS))
  | _, _ => noDiff
  end.

Definition ClearActivityAnnotations (annotations : Annotations) : Annotations * bool :=
  foldl (λ '(m, changed) key,
      match m !! key with Some _ => (delete key m, true) | None => (m, changed) end)
    (annotations, false) [AnnotationActivityChange; AnnotationActivityName; AnnotationActivityValue].

(** Set one annotation when it differs. *)
Definition stampAnnotation (key value : gostring) (acc : Annotations * bool) : Annotations * bool :=
  if decide (default [] (acc.1 !! key) ≠ value) then (<[key := value]> acc.1, true) else acc.

Definition EnsureActivityAnnotations (annotations : Annotations) (rs : DNSRecordSet)
    (oldRS : option DNSRecordSet) (zoneDomainName : gostring) : Annotations * bool :=
  let diff := ComputeActivityDiff oldRS (Some rs) zoneDomainName in
  if decide (ad_Change diff = []) then ClearActivityAnnotations annotations
  else
    stampAnnotation AnnotationActivityValue (ad_Value diff)
      (stampAnnotation AnnotationActivityName (ad_Name diff)
        (stampAnnotation AnnotationActivityChange (ad_Change diff) (annotations, false))).

(** * What is reported *)

Lemma uniqueFrom_spec seen l :
  NoDup (uniqueFrom seen l) ∧ ∀ n, n ∈ uniqueFrom seen l ↔ (n ∉ seen) ∧ n ∈ l.
Proof.
  revert seen. induction l as [|x l IH]; intros seen; cbn [uniqueFrom].
  { split; [constructor|]. intros n. rewrite elem_of_nil. tauto. }
  case_decide as Hx.
  - destruct (IH seen) as [? Hin]. split; [done|]. intros n. rewrite Hin, elem_of_cons.
    split; [tauto|]. by intros [? [->|?]].
  - destruct (IH ({[x]} ∪ seen)) as [Hnd Hin]. split.
    + constructor; [|done]. rewrite Hin. set_solver.
    + intros n. rewrite elem_of_cons, Hin, elem_of_cons. destruct (decide (n = x)) as [->|]; set_solver.
Qed.

Lemma UniqueRecordNames_spec rs :
  NoDup (UniqueRecordNames rs) ∧ ∀ n, n ∈ UniqueRecordNames rs ↔ n ∈ re_Name <$> rs_Records rs.
Proof.
  destruct (uniqueFrom_spec ∅ (re_Name <$> rs_Records rs)) as [? Hin]. split; [done|].
  intros n. unfold UniqueRecordNames. rewrite Hin. set_solver.
Qed.

Lemma entriesByName_Some rs n : is_Some (entriesByName rs !! n) ↔ n ∈ UniqueRecordNames rs.
Proof.
  destruct (UniqueRecordNames_spec rs) as [_ ->]. unfold entriesByName.
  induction (rs_Records rs) as [|r l IH] using rev_ind.
  { cbn. rewrite lookup_empty, elem_of_nil. split; [by intros []|done]. }
  rewrite foldl_snoc, fmap_app, elem_of_app, lookup_insert_is_Some, IH.
  change (re_Name <$> [r]) with [re_Name r]. rewrite list_elem_of_singleton. destruct (decide (re_Name r = n)) as [->|]; naive_solver.
Qed.

Lemma takeWanted_filter want l :
  NoDup l → takeWanted want l = (filter (λ n, n ∈ want) l, want ∖ list_to_set l).
Proof.
  intros Hnd. revert want. induction Hnd as [|x l Hx Hnd IH]; intros want; cbn [takeWanted].
  { f_equal. set_solver. }
  rewrite filter_cons. case_decide as Hw; rewrite IH.
  - f_equal; [|set_solver]. f_equal. apply list_filter_in. intros n Hn. set_solver.
  - f_equal. set_solver.
Qed.

Lemma orderNames_filter preferred selected :
  NoDup preferred → selected ⊆ preferred →
  orderNames preferred selected = filter (λ n, n ∈ selected) preferred.
Proof.
  intros Hnd Hsub. unfold orderNames. destruct selected as [|x sel] eqn:E.
  { symmetry. apply elem_of_nil_inv. by intros n [?%not_elem_of_nil _]%list_elem_of_filter. }
  rewrite <- E in *. clear E. rewrite takeWanted_filter by done.
  assert ((list_to_set selected : gset gostring) ∖ list_to_set preferred = ∅) as -> by set_solver.
  assert (∀ l, takeWanted ∅ l = ([], ∅)) as ->
    by (induction l as [|y l IH]; cbn; [done|]; by rewrite decide_False by set_solver).
  cbn. rewrite app_nil_r. apply list_filter_in. intros n _. by rewrite elem_of_list_to_set.
Qed.

(** The names a map loop picks, in the order of the record set. *)
Lemma orderNames_range rs (P : gostring → Prop) `{∀ n, Decision (P n)} (pick : gostring → option gostring) :
  (∀ n, pick n = if decide (P n) then Some n else None) →
  orderNames (UniqueRecordNames rs) (omap (λ '(name, _), pick name) (map_range (entriesByName rs))) =
  filter P (UniqueRecordNames rs).
Proof.
  intros Hpick. destruct (UniqueRecordNames_spec rs) as [Hnd _].
  assert (∀ n, n ∈ omap (λ '(name, _), pick name) (map_range (entriesByName rs))
    ↔ P n ∧ n ∈ UniqueRecordNames rs) as Hin.
  { intros n. rewrite list_elem_of_omap, <- entriesByName_Some. split.
    - intros ([k es] & Hk & Hf). rewrite map_range_perm in Hk. apply elem_of_map_to_list in Hk.
      rewrite Hpick in Hf. case_decide; [|done]. injection Hf as <-. split; [done|by eexists].
    - intros [HP [es Hes]]. exists (n, es). rewrite map_range_perm, Hpick, decide_True by done.
      split; [by apply elem_of_map_to_list|done]. }
  rewrite orderNames_filter; [|done|intros n Hn; by apply Hin in Hn as [_ ?]].
  apply list_filter_in. intros n Hn. rewrite Hin. tauto.
Qed.

Lemma entriesByName_case {A} rs n (a b : A) :
  (if entriesByName rs !! n is Some _ then a else b) = if decide (n ∈ UniqueRecordNames rs) then a else b.
Proof.
  case_decide as Hn; rewrite <- entriesByName_Some in Hn.
  - by destruct Hn as [es ->].
  - by apply eq_None_not_Some in Hn as ->.
Qed.

(** The names [addedNames] or [removedNames] picks: those [other] does not list. *)
Lemma missing_ordered rs other :
  orderNames (UniqueRecordNames rs)
    (omap (λ '(name, _), if entriesByName other !! name is Some _ then None else Some name)
       (map_range (entriesByName rs))) =
  filter (λ n, n ∉ UniqueRecordNames other) (UniqueRecordNames rs).
Proof.
  apply (orderNames_range rs _ (λ name, if entriesByName other !! name is Some _ then None else Some name)).
  intros n. rewrite entriesByName_case. by repeat case_decide.
Qed.

Lemma updated_ordered oldRS newRS :
  orderNames (UniqueRecordNames newRS) (updatedNames oldRS newRS) =
  filter (λ n, n ∈ UniqueRecordNames oldRS ∧ signatureForName oldRS n ≠ signatureForName newRS n)
    (UniqueRecordNames newRS).
Proof.
  apply (orderNames_range newRS _ (λ name, if entriesByName oldRS !! name is Some _
    then if decide (signatureForName oldRS name ≠ signatureForName newRS name) then Some name else None
    else None)).
  intros n. rewrite entriesByName_case. repeat case_decide; tauto.
Qed.

(** The change reported between two versions of a record set does not depend on the
    order in which Go ranges over a map: the names that are new, gone, or present in both
    with another display value, each in the order in which the record set first lists
    them. *)
Theorem ComputeActivityDiff_spec oldRS newRS zoneDomainName :
  let names := UniqueRecordNames in
  ComputeActivityDiff (Some oldRS) (Some newRS) zoneDomainName =
  summarize oldRS newRS zoneDomainName
    (filter (λ n, n ∉ names oldRS) (names newRS))
    (filter (λ n, n ∉ names newRS) (names oldRS))
    (filter (λ n, n ∈ names oldRS ∧ signatureForName oldRS n ≠ signatureForName newRS n) (names newRS)).
Proof.
  intros names. unfold ComputeActivityDiff, addedNames, removedNames.
  by rewrite !missing_ordered, updated_ordered.
Qed.

(** * Stamping is idempotent *)

Lemma lookup_stamped key value acc :
  default [] ((stampAnnotation key value acc).1 !! key) = value ∧
  ∀ key', key' ≠ key → (stampAnnotation key value acc).1 !! key' = acc.1 !! key'.
Proof.
  unfold stampAnnotation. case_decide as Hv; cbn.
  - rewrite lookup_insert_eq. split; [done|]. intros key' Hne. by rewrite lookup_insert_ne.
  - done.
Qed.

Lemma stamped_again (key value : gostring) (m : Annotations) b :
  default [] (m !! key) = value → stampAnnotation key value (m, b) = (m, b).
Proof. intros Hm. unfold stampAnnotation. by rewrite decide_False by tauto. Qed.

(** The loop of [ClearActivityAnnotations]. *)
Definition clearStep : Annotations * bool → gostring → Annotations * bool :=
  λ '(m, changed) key, match m !! key with Some _ => (delete key m, true) | None => (m, changed) end.

Lemma clearStep_None (keys : list gostring) (m : Annotations) b :
  Forall (λ k, m !! k = None) keys → foldl clearStep (m, b) keys = (m, b).
Proof. induction 1 as [|k keys Hk _ IH]; cbn; [done|]. by rewrite Hk. Qed.

Lemma clearStep_foldl keys acc k :
  k ∈ keys ∨ acc.1 !! k = None → (foldl clearStep acc keys).1 !! k = None.
Proof.
  revert acc. induction keys as [|k' keys IH]; intros [m b]; cbn.
  { intros [[]%not_elem_of_nil|?]; done. }
  intros Hk. apply IH. rewrite elem_of_cons in Hk. destruct (m !! k') eqn:E; cbn.
  - destruct (decide (k = k')) as [->|Hne]; [right; apply lookup_delete_eq|].
    rewrite lookup_delete_ne by done. tauto.
  - destruct Hk as [[->|?]|?]; auto.
Qed.

(** Stamping settles at once: stamping what was just stamped changes nothing and says
    so, so the writes of the webhook and of the replicator do not trigger each other. *)
Theorem annotations_settle annotations rs oldRS zoneDomainName :
  (let '(a, _) := EnsureAnnotations annotations rs zoneDomainName in
   EnsureAnnotations a rs zoneDomainName = (a, false)) ∧
  (let '(a, _) := EnsureActivityAnnotations annotations rs oldRS zoneDomainName in
   EnsureActivityAnnotations a rs oldRS zoneDomainName = (a, false)).
Proof.
  split.
  - unfold EnsureAnnotations. cbn zeta. case_decide as Hd.
    + by rewrite decide_True.
    + rewrite decide_True; [done|].
      split; [by rewrite lookup_insert_ne, lookup_insert_eq by done|by rewrite lookup_insert_eq].
  - unfold EnsureActivityAnnotations. cbn zeta. set (diff := ComputeActivityDiff _ _ _).
    destruct (decide (ad_Change diff = [])) as [Hc|Hc].
    + change (ClearActivityAnnotations ?m) with (foldl clearStep (m, false) [AnnotationActivityChange;
        AnnotationActivityName; AnnotationActivityValue]). set (keys := [_; _; _]).
      destruct (foldl clearStep (annotations, false) keys) as [a b] eqn:E.
      assert (a = (foldl clearStep (annotations, false) keys).1) as -> by (by rewrite E).
      apply clearStep_None, Forall_forall. intros k Hk.
      apply clearStep_foldl. by left.
    + set (a1 := stampAnnotation AnnotationActivityChange _ _).
      set (a2 := stampAnnotation AnnotationActivityName _ a1).
      set (a3 := stampAnnotation AnnotationActivityValue _ a2).
      destruct (lookup_stamped AnnotationActivityChange (ad_Change diff) (annotations, false)) as [H1 _].
      destruct (lookup_stamped AnnotationActivityName (ad_Name diff) a1) as [H2 H2'].
      destruct (lookup_stamped AnnotationActivityValue (ad_Value diff) a2) as [H3 H3'].
      destruct a3 as [a b] eqn:E. unfold a3 in E. rewrite E in H3, H3'. cbn in H3, H3'.
      fold a1 in H1. fold a2 in H2, H2'.
      rewrite (stamped_again AnnotationActivityChange) by (by rewrite H3', H2' by done).
      rewrite (stamped_again AnnotationActivityName) by (by rewrite H3' by done).
      by apply stamped_again.
Qed.

(** * A change that is not reported *)

(** The types whose display value does not show the data. *)
Definition dataHidden (t : RRType) : bool :=
  match t with
  | RRTypeCAA | RRTypeSOA | RRTypePTR | RRTypeTLSA | RRTypeHTTPS | RRTypeSVCB => true
  | _ => false
  end.

Lemma summarize_none oldRS newRS zoneDomainName added removed updated :
  summarize oldRS newRS zoneDomainName added removed updated = noDiff ↔ added = [] ∧ removed = [] ∧ updated = [].
Proof. destruct added, removed, updated; cbn; split; try done; by intros (? & ? & ?). Qed.

Lemma filter_none {A} (P : A → Prop) `{∀ x, Decision (P x)} l : filter P l = [] ↔ ∀ x, x ∈ l → ¬ P x.
Proof.
  split.
  - intros E x Hx HP. assert (x ∈ filter P l) as Hin by (by apply list_elem_of_filter). rewrite E in Hin. by apply not_elem_of_nil in Hin.
  - intros Hl. apply elem_of_nil_inv. intros x [HP Hx]%list_elem_of_filter. by apply (Hl x).
Qed.

Lemma activity_none oldRS newRS zoneDomainName :
  ComputeActivityDiff (Some oldRS) (Some newRS) zoneDomainName = noDiff ↔
  (∀ n, n ∈ re_Name <$> rs_Records oldRS ↔ n ∈ re_Name <$> rs_Records newRS) ∧
  ∀ n, n ∈ re_Name <$> rs_Records newRS → signatureForName oldRS n = signatureForName newRS n.
Proof.
  unfold ComputeActivityDiff, addedNames, removedNames. rewrite !missing_ordered, updated_ordered.
  rewrite summarize_none, !filter_none. setoid_rewrite (proj2 (UniqueRecordNames_spec oldRS)).
  setoid_rewrite (proj2 (UniqueRecordNames_spec newRS)). split.
  - intros (Hadd & Hrem & Hupd). split.
    + intros n. split; intros Hn; apply dec_stable; eauto.
    + intros n Hn. apply dec_stable. intros Hne. apply (Hupd n Hn). split; [|done]. apply dec_stable. eauto.
  - intros [Hnames Hsig]. split_and!; intros n Hn; [rewrite Hnames; tauto|rewrite <- Hnames; tauto|].
    intros [_ Hne]. by apply Hne, Hsig.
Qed.

Lemma signatureForName_hidden oldRS newRS n :
  dataHidden (rs_RecordType oldRS) = true → rs_RecordType newRS = rs_RecordType oldRS →
  re_Name <$> rs_Records oldRS ≡ₚ re_Name <$> rs_Records newRS →
  signatureForName oldRS n = signatureForName newRS n.
Proof.
  intros Hh Ht Hp. assert (∀ l, length (filter (λ r, re_Name r ∈ [n]) l) = length (filter (λ m, m ∈ [n]) (re_Name <$> l))) as Hlen.
  { intros l. induction l as [|r l IH]; [done|]. rewrite fmap_cons, !filter_cons. case_decide; cbn; by rewrite IH. }
  unfold signatureForName, subsetForNames, ComputeDisplayValue. cbn [bareRecordSet rs_RecordType rs_Records].
  assert (length (filter (λ r, re_Name r ∈ [n]) (rs_Records oldRS)) = length (filter (λ r, re_Name r ∈ [n]) (rs_Records newRS)))
    as -> by (rewrite !Hlen; by apply Permutation_length, filter_Permutation).
  rewrite Ht. by destruct (rs_RecordType oldRS).
Qed.

(** C40. The activity of an update is empty exactly when both versions list the same names
    and every name has the same display value in both, so that an edit the display value
    does not show goes unreported.  Of CAA, SOA, PTR, TLSA, HTTPS and SVCB record sets it
    shows no data at all: an update that keeps the type and the names of the records, each
    as often as before, is never reported, whatever it does to their values and TTLs. *)
Theorem ComputeActivityDiff_blind oldRS newRS zoneDomainName :
  (ComputeActivityDiff (Some oldRS) (Some newRS) zoneDomainName = noDiff ↔
   (∀ n, n ∈ re_Name <$> rs_Records oldRS ↔ n ∈ re_Name <$> rs_Records newRS) ∧
   ∀ n, n ∈ re_Name <$> rs_Records newRS → signatureForName oldRS n = signatureForName newRS n) ∧
  (dataHidden (rs_RecordType oldRS) = true → rs_RecordType newRS = rs_RecordType oldRS →
   re_Name <$> rs_Records oldRS ≡ₚ re_Name <$> rs_Records newRS →
   ComputeActivityDiff (Some oldRS) (Some newRS) zoneDomainName = noDiff).
Proof.
  split; [apply activity_none|]. intros Hh Ht Hp. apply activity_none. split; [intros n; by rewrite Hp|].
  intros n _. by apply signatureForName_hidden.
Qed.
End Activity.

#[local] Existing Instance reference_runtime.

Definition caaEntry (value : gostring) : RecordEntry :=
  assign (FCAA {| caa_Flag := 0; caa_Tag := "issue"; caa_Value := value |}) (set_Name "@" emptyEntry).
Definition caaRecordSet (value : gostring) : DNSRecordSet := bareRecordSet RRTypeCAA [caaEntry value].

Lemma ComputeActivityDiff_blind_witness :
  caaRecordSet "ca.example.net" ≠ caaRecordSet "evil.example.org" ∧
  ComputeActivityDiff (Some (caaRecordSet "ca.example.net")) (Some (caaRecordSet "evil.example.org"))
    "example.com" = noDiff.
Proof.
  split; [discriminate|].
  exact (proj2 (ComputeActivityDiff_blind (caaRecordSet "ca.example.net") (caaRecordSet "evil.example.org") "example.com")
           eq_refl eq_refl (reflexivity _)).
Defined.
