(* ===== verification/RdataTypes.v ===== *)
(** Package [internal/cmd/dns/rdata], file [types.go]: the error values of the
    package, the supported record types, and which typed fields an entry sets. *)

From S2P Require Import Prelude GoStrings Api.

(** One constructor per call of [errf] and [fixf] (and per [&Error] literal), with
    the values its message quotes.  The wording is not modelled. *)
Inductive Error :=
(* types.go *)
| EUnsupportedType (s : gostring)
(* token.go, txt.go *)
| EUnterminatedString (s : gostring)
| ETXTNoContent (v : gostring)
| ETXTMixedQuoting (v : gostring)
(* ttl.go *)
| EInvalidTTL (orig : gostring)
| ETTLFraction (orig : gostring)
| ETTLNegative (orig : gostring)
| ETTLExceeds (orig : gostring)
(* name.go *)
| ENameWhitespace (name : gostring)
| ENameInvalid (name : gostring)
| ENameIsZone (name : gostring)
| ENameIncludesZone (name short : gostring)
| ENameTooLongForZone (name zone : gostring)
| ENameTooLong (name : gostring) (len : Z)
| ENameEmptyLabel (name : gostring)
| ENameLongLabel (name : gostring)
| ENamePartialWildcard (name label : gostring)
| ENameInnerWildcard (name : gostring)
(* hostname.go *)
| EHostEmpty (field : gostring)
| EHostRoot (field h : gostring)
| EHostTooLong (field h : gostring) (len : Z)
| EHostEmptyLabel (field h : gostring)
| EHostLongLabel (field h : gostring)
| EHostHyphen (field h : gostring)
| EHostUnderscore (field h : gostring)
| EHostBadChar (field h : gostring) (c : ascii)
| ENotFQDN (field value : gostring) (suggestion : option gostring)
(* line.go *)
| ELineEmpty
| ELineShort (s : gostring)
| ELineNoType (s : gostring)
| ELineNoValue (s : gostring) (t : RRType)
(* parse.go *)
| EValueEmpty (t : RRType)
| EArity (t : RRType) (v : gostring) (n : Z)
| EParamDuplicate (t : RRType) (k : gostring)
| EParamEmptyKey (s : gostring)
| EParamBadKey (k : gostring) (c : ascii)
| ESOAArity (v : gostring) (n : Z)
| ESOANumber (field s : gostring)
| ESOAZero (field : gostring)
| ENotUint16 (field s : gostring)
| ENotUint8 (field s : gostring)
| ENotIPv4 (v : gostring)
| ENotIPv6 (v : gostring)
(* validate.go *)
| ENameMissing
| ENameOutsideZone (name zone : gostring)
| ECNAMEAtApex
| ESOANotApex (name : gostring)
| EFieldMissing (name : gostring) (t : RRType)
| EFieldMismatch (name : gostring) (t : RRType) (other : gostring)
| EFieldExtra (name : gostring) (t : RRType) (set : list gostring)
| ETargetEmpty (field : gostring)
| ETargetAt (field : gostring)
| ETargetRoot (field : gostring)
| ETXTEmpty
| ETXTTooLong (len : Z)
| ENullMX (pref : Z)
| ECAATagEmpty
| ECAATagPattern (tag : gostring)
| ECAAValueEmpty
| ECAAValueChars (v : gostring)
| ETLSAUsage (n : Z)
| ETLSASelector (n : Z)
| ETLSAMatchingType (n : Z)
| ETLSAEmpty
| ETLSANotHex (v : gostring)
| ETLSAOdd (n : Z)
| ETLSADigest (mt n : Z)
| ESVCBTargetEmpty (t : RRType)
| ESVCBAliasRoot (t : RRType)
| ESVCBAliasParams (t : RRType) (keys : list gostring)
| ESVCBKeyCase (t : RRType) (k : gostring)
| ESVCBValueSpace (t : RRType) (k : gostring)
| ESVCBValueEmpty (t : RRType) (k : gostring)
| ERNameEmpty
| ERNameAt (v : gostring)
| ERNameShort (v : gostring)
| ESetEmpty (t : RRType)
| ESingleValued (t : RRType) (name : gostring) (n : Z)
| EDuplicateValue (t : RRType) (name : gostring)
(* the run-time panic of dereferencing a nil field *)
| ENilDereference.

(** The advisories of [NormalizeNameWithWarnings] and [Warnings], one constructor per
    message, likewise. *)
Inductive Warning :=
| WNameOutsideZone (name zone : gostring)
| WCAATag (tag : gostring)
| WCAAFlag (flag : Z)
| WSRVPort
| WSVCBKey (t : RRType) (k : gostring)
| WSOARefresh (n : Z)
| WSOARetry (n : Z)
| WSOAExpire (n : Z)
| WTXTControl (at_byte : Z)
| WTTLZero
| WTTLDisagree (name first other : gostring).

(** [errors.Is(err, ErrTTLRange)]. *)
Definition isErrTTLRange (e : Error) : bool :=
  match e with ETTLNegative _ | ETTLExceeds _ => true | _ => false end.

Definition supportedTypes : list RRType :=
  [RRTypeA; RRTypeAAAA; RRTypeALIAS; RRTypeCNAME; RRTypeTXT; RRTypeMX; RRTypeSRV;
   RRTypeCAA; RRTypeNS; RRTypeSOA; RRTypePTR; RRTypeTLSA; RRTypeHTTPS; RRTypeSVCB].

Definition IsStructured (t : RRType) : bool :=
  match t with
  | RRTypeMX | RRTypeSRV | RRTypeCAA | RRTypeTLSA | RRTypeHTTPS | RRTypeSVCB
  | RRTypeSOA => true
  | _ => false
  end.

Definition IsSingleValued (t : RRType) : bool :=
  match t with RRTypeCNAME | RRTypeALIAS | RRTypeSOA => true | _ => false end.

(** The fields of [allFields]: the type, its JSON name and whether it is set. *)
Definition allFields : list (RRType * gostring * (RecordEntry → bool)) :=
  [ (RRTypeA, "a", λ e, bool_decide (is_Some (re_A e)));
    (RRTypeAAAA, "aaaa", λ e, bool_decide (is_Some (re_AAAA e)));
    (RRTypeALIAS, "alias", λ e, bool_decide (is_Some (re_ALIAS e)));
    (RRTypeCNAME, "cname", λ e, bool_decide (is_Some (re_CNAME e)));
    (RRTypeTXT, "txt", λ e, bool_decide (is_Some (re_TXT e)));
    (RRTypeMX, "mx", λ e, bool_decide (is_Some (re_MX e)));
    (RRTypeSRV, "srv", λ e, bool_decide (is_Some (re_SRV e)));
    (RRTypeCAA, "caa", λ e, bool_decide (is_Some (re_CAA e)));
    (RRTypeNS, "ns", λ e, bool_decide (is_Some (re_NS e)));
    (RRTypeSOA, "soa", λ e, bool_decide (is_Some (re_SOA e)));
    (RRTypePTR, "ptr", λ e, bool_decide (is_Some (re_PTR e)));
    (RRTypeTLSA, "tlsa", λ e, bool_decide (is_Some (re_TLSA e)));
    (RRTypeHTTPS, "https", λ e, bool_decide (is_Some (re_HTTPS e)));
    (RRTypeSVCB, "svcb", λ e, bool_decide (is_Some (re_SVCB e))) ].

Definition setFields (e : RecordEntry) : list gostring :=
  omap (λ '(_, json, set), if (set : RecordEntry → bool) e then Some json else None) allFields.

Section RdataTypes.
Context `{GoRuntime}.

Definition ParseRRType (s : gostring) : result Error RRType :=
  let want := ToUpper (TrimSpace s) in
  match list_find (λ t, RRTypeString t = want) supportedTypes with
  | Some (_, t) => Ok t
  | None => Err (EUnsupportedType s)
  end.

Definition jsonFieldFor (t : RRType) : gostring :=
  match list_find (λ f : RRType * gostring * (RecordEntry → bool), f.1.1 = t) allFields with
  | Some (_, f) => f.1.2
  | None => ToLower (RRTypeString t)
  end.

Definition sortedKeys (m : gmap gostring gostring) : list gostring :=
  sortStrings ((map_range m).*1).

(** The sorted keys do not depend on the order the map is visited in. *)
Lemma sortedKeys_spec m : sortedKeys m = sortStrings (map_to_list m).*1.
Proof. unfold sortedKeys. by rewrite map_range_perm. Qed.

Lemma elem_of_sortedKeys m k : k ∈ sortedKeys m ↔ is_Some (m !! k).
Proof.
  rewrite sortedKeys_spec, sortStrings_perm, list_elem_of_fmap. split.
  - intros ([k' v] & -> & Hkv%elem_of_map_to_list). eauto.
  - intros [v Hv%elem_of_map_to_list]. by exists (k, v).
Qed.

Lemma ParseRRType_String t : ParseRRType (RRTypeString t) = Ok t.
Proof. destruct t; reflexivity. Qed.
End RdataTypes.
