(* ===== verification/RdataToken.v ===== *)
(** Package [internal/cmd/dns/rdata], files [token.go] and [txt.go]: the
    presentation-format tokenizer, character-string quoting, chunking, and the
    two representations of TXT data.

    A Go loop over byte offsets becomes a recursion on the rest of the string; the
    offset of a token is recovered from the lengths.  [tokenize] recurses once per
    token with the length of the input as fuel, which is enough because every
    token consumes a byte ([tokenizeFrom_fuel]). *)

From S2P Require Import Prelude GoStrings Api RdataTypes.

(** [token]: the text with quotes removed and escapes resolved, whether it was
    quoted, its offset, and the bytes as written. *)
Record token := { text : gostring; quoted : bool; start : nat; raw : gostring }.

Definition isSpace (c : ascii) : bool :=
  Ascii.eqb c " " || Ascii.eqb c tab || Ascii.eqb c cr || Ascii.eqb c newline.

Definition hostToken (tok : token) : gostring :=
  if quoted tok then text tok else raw tok.

(** The value of a [\DDD] escape. *)
Definition escapeVal (d1 d2 d3 : ascii) : Z :=
  (digitVal d1 * 100 + digitVal d2 * 10 + digitVal d3)%Z.

(** [unescapeAt(s, i)] with [s] the bytes from the backslash on: the byte the
    escape denotes and the number of bytes it takes.  Callers check that a byte
    follows the backslash. *)
Definition unescapeAt (s : gostring) : ascii * nat :=
  match s with
  | _ :: d1 :: d2 :: d3 :: _ =>
      if isDigit d1 && isDigit d2 && isDigit d3 && (escapeVal d1 d2 d3 <=? 255)%Z
      then (byte (escapeVal d1 d2 d3), 4) else (d1, 2)
  | _ :: d1 :: _ => (d1, 2)
  | _ => ("000"%char, 2)
  end.

(** The body of a quoted string, after its opening quote: the text and what
    follows the closing quote, or [None] when it is not closed.  The two branches
    for a backslash are [unescapeAt] ([quotedBody_escape]). *)
Fixpoint quotedBody (s : gostring) : option (gostring * gostring) :=
  match s with
  | [] => None
  | c :: r =>
      if Ascii.eqb c backslash then
        match r with
        | [] => None
        | d1 :: r1 =>
            let short := prod_map (cons d1) id <$> quotedBody r1 in
            match r1 with
            | d2 :: d3 :: r3 =>
                if isDigit d1 && isDigit d2 && isDigit d3 && (escapeVal d1 d2 d3 <=? 255)%Z
                then prod_map (cons (byte (escapeVal d1 d2 d3))) id <$> quotedBody r3
                else short
            | _ => short
            end
        end
      else if Ascii.eqb c dquote then Some ([], r)
      else prod_map (cons c) id <$> quotedBody r
  end.

(** An unquoted word: its text with escapes resolved, and the rest. *)
Fixpoint wordBody (s : gostring) : gostring * gostring :=
  match s with
  | [] => ([], [])
  | c :: r =>
      if isSpace c then ([], s)
      else if Ascii.eqb c backslash then
        match r with
        | [] => ([c], [])
        | d1 :: r1 =>
            let short := prod_map (cons d1) id (wordBody r1) in
            match r1 with
            | d2 :: d3 :: r3 =>
                if isDigit d1 && isDigit d2 && isDigit d3 && (escapeVal d1 d2 d3 <=? 255)%Z
                then prod_map (cons (byte (escapeVal d1 d2 d3))) id (wordBody r3)
                else short
            | _ => short
            end
        end
      else prod_map (cons c) id (wordBody r)
  end.

Fixpoint skipSpaces (s : gostring) : gostring :=
  match s with
  | c :: r => if isSpace c then skipSpaces r else s
  | [] => []
  end.

(** [out = append(out, tok)], on the tokens that follow. *)
Definition consToken (tok : token) (r : option (result Error (list token))) :
    option (result Error (list token)) :=
  match r with
  | Some (Ok toks) => Some (Ok (tok :: toks))
  | Some (Err e) => Some (Err e)
  | None => None
  end.

(** The loop of [tokenize] from offset [off], on the rest [s] of the input
    [whole].  [None] means the fuel ran out. *)
Fixpoint tokenizeFrom (fuel : nat) (whole : gostring) (comments : bool) (off : nat)
    (s : gostring) : option (result Error (list token)) :=
  match fuel with
  | O => None
  | S fuel' =>
      let s' := skipSpaces s in
      let off' := off + (length s - length s') in
      match s' with
      | [] => Some (Ok [])
      | c :: r =>
          if Ascii.eqb c dquote then
            match quotedBody r with
            | None => Some (Err (EUnterminatedString whole))
            | Some (b, rest) =>
                let n := length s' - length rest in
                let tok := {| text := b; quoted := true; start := off'; raw := take n s' |} in
                consToken tok (tokenizeFrom fuel' whole comments (off' + n) rest)
            end
          else if comments && Ascii.eqb c ";" then Some (Ok [])
          else
            let '(b, rest) := wordBody s' in
            let n := length s' - length rest in
            let tok := {| text := b; quoted := false; start := off'; raw := take n s' |} in
            consToken tok (tokenizeFrom fuel' whole comments (off' + n) rest)
      end
  end.

Definition tokenize (s : gostring) (comments : bool) : result Error (list token) :=
  default (Ok []) (tokenizeFrom (S (length s)) s comments 0 s).

(** [quoteTXT], the bytes between the quotes. *)
Definition quoteByte (c : ascii) : gostring :=
  if Ascii.eqb c backslash || Ascii.eqb c dquote || Ascii.eqb c ";" then [backslash; c]
  else if (bval c <? 32)%Z || (bval c =? 127)%Z then
    [backslash; byte (48 + bval c / 100); byte (48 + (bval c / 10) mod 10);
     byte (48 + bval c mod 10)]
  else [c].
Definition quoteBody (s : gostring) : gostring := s ≫= quoteByte.
Definition quoteTXT (s : gostring) : gostring := dquote :: quoteBody s ++ [dquote].

(** [chunk255].  Every round drops 255 bytes, so the length is enough fuel. *)
Fixpoint chunkLoop (fuel : nat) (s : gostring) : list gostring :=
  match fuel with
  | O => []
  | S fuel' =>
      if decide (255 < length s) then take 255 s :: chunkLoop fuel' (drop 255 s)
      else match s with [] => [] | _ => [s] end
  end.
Definition chunk255 (s : gostring) : list gostring :=
  if decide (length s ≤ 255) then [s] else chunkLoop (length s) s.

(** [decodeTXTStrings]: the concatenation of quoted strings. *)
Fixpoint concatQuoted (v : gostring) (toks : list token) : result Error gostring :=
  match toks with
  | [] => Ok []
  | tok :: toks' =>
      if quoted tok then (λ s, text tok ++ s) <$> concatQuoted v toks'
      else Err (ETXTMixedQuoting v)
  end.
Definition decodeTXTStrings (v : gostring) : result Error gostring :=
  match tokenize v false with
  | Err e => Err e
  | Ok [] => Err (ETXTNoContent v)
  | Ok toks => concatQuoted v toks
  end.

Definition txtLogical (s : gostring) : gostring :=
  if HasPrefix s [dquote] then
    match decodeTXTStrings s with Ok d => d | Err _ => s end
  else s.

Definition parseTXTValue (v : gostring) : result Error gostring :=
  if HasPrefix v [dquote] then decodeTXTStrings v else Ok v.

Definition renderTXT (content : gostring) : gostring :=
  Join (quoteTXT <$> chunk255 (txtLogical content)) " ".

Definition TXTContentForAPI (content : gostring) : gostring := renderTXT content.
Definition TXTContentFromAPI (stored : gostring) : gostring := txtLogical stored.

Definition mapTXT (f : gostring → gostring) (t : RRType) (e : RecordEntry) : RecordEntry :=
  match re_TXT e with
  | Some spec =>
      if decide (t = RRTypeTXT) then set_TXT (Some {| Content := f (Content spec) |}) e else e
  | None => e
  end.
Definition EntryForAPI (t : RRType) (e : RecordEntry) : RecordEntry :=
  mapTXT TXTContentForAPI t e.
Definition EntryFromAPI (t : RRType) (e : RecordEntry) : RecordEntry :=
  mapTXT TXTContentFromAPI t e.

(** * The tokenizer *)

Lemma quotedBody_escape d r :
  quotedBody (backslash :: d :: r) =
  (let '(ch, n) := unescapeAt (backslash :: d :: r) in
   prod_map (cons ch) id <$> quotedBody (drop n (backslash :: d :: r))).
Proof. destruct r as [|d2 [|d3 r]]; try done. cbn. by case_match. Qed.

Lemma wordBody_escape d r :
  wordBody (backslash :: d :: r) =
  (let '(ch, n) := unescapeAt (backslash :: d :: r) in
   prod_map (cons ch) id (wordBody (drop n (backslash :: d :: r)))).
Proof. destruct r as [|d2 [|d3 r]]; try done. cbn. by case_match. Qed.

(** Both bodies consume a prefix of the input. *)
Lemma quotedBody_suffix s b rest :
  quotedBody s = Some (b, rest) → ∃ pre, pre ≠ [] ∧ s = pre ++ rest.
Proof.
  remember (length s) as n eqn:Hn. revert s b rest Hn.
  induction (lt_wf n) as [n _ IH]; intros s b rest ->.
  destruct s as [|c s]; [done|].
  assert (∀ l t, c :: s = l ++ t → l ≠ [] →
    ∀ b', quotedBody t = Some (b', rest) → ∃ pre, pre ≠ [] ∧ c :: s = pre ++ rest) as IH'.
  { intros l t E Hl b' Hb'. destruct (IH (length t)) with (s := t) (b := b') (rest := rest)
      as (pre & ? & ->); [|done..|].
    - rewrite E, length_app. destruct l; [done|cbn; lia].
    - exists (l ++ pre). split; [by destruct l|]. by rewrite <- app_assoc. }
  destruct (decide (c = backslash)) as [->|Hc].
  - destruct s as [|d r]; [done|]. rewrite quotedBody_escape.
    destruct (unescapeAt _) as [ch k] eqn:E. intros ([b' rest'] & Hb' & [= -> ->])%fmap_Some.
    apply (IH' (take k (backslash :: d :: r)) (drop k (backslash :: d :: r)) ltac:(by rewrite take_drop))
      with (b' := b'); [|done].
    destruct k; [|done]. destruct r as [|? [|??]]; cbn in E; repeat case_match; congruence.
  - cbn. rewrite (proj2 (Ascii.eqb_neq c backslash) Hc). case_match.
    + intros [= <- <-]. by exists [c].
    + intros ([b' rest'] & Hb' & [= -> ->])%fmap_Some.
      by apply (IH' [c] s) with (b' := b').
Qed.

Lemma wordBody_suffix s b rest : wordBody s = (b, rest) → ∃ pre, s = pre ++ rest.
Proof.
  remember (length s) as n eqn:Hn. revert s b rest Hn.
  induction (lt_wf n) as [n _ IH]; intros s b rest ->.
  destruct s as [|c s]; [intros [= <- <-]; by exists []|].
  assert (∀ l t, c :: s = l ++ t → l ≠ [] →
    ∀ b', wordBody t = (b', rest) → ∃ pre, c :: s = pre ++ rest) as IH'.
  { intros l t E Hl b' Hb'. destruct (IH (length t)) with (s := t) (b := b') (rest := rest)
      as (pre & ->); [|done..|].
    - rewrite E, length_app. destruct l; [done|cbn; lia].
    - exists (l ++ pre). by rewrite <- app_assoc. }
  destruct (decide (c = backslash)) as [->|Hc].
  - destruct s as [|d r]; [intros [= <- <-]; by exists [backslash]|].
    rewrite wordBody_escape. destruct (unescapeAt _) as [ch k] eqn:E.
    destruct (wordBody (drop k _)) as [b' rest'] eqn:Hb'. intros [= <- <-].
    apply (IH' (take k (backslash :: d :: r)) (drop k (backslash :: d :: r)) ltac:(by rewrite take_drop))
      with (b' := b'); [|done].
    destruct k; [|done]. destruct r as [|? [|??]]; cbn in E; repeat case_match; congruence.
  - cbn. case_match; [intros [= <- <-]; by exists []|].
    rewrite (proj2 (Ascii.eqb_neq c backslash) Hc).
    destruct (wordBody s) as [b' rest'] eqn:Hb'. intros [= <- <-].
    by apply (IH' [c] s) with (b' := b').
Qed.

(** A word that starts at a non-space byte is not empty. *)
Lemma wordBody_progress c s b rest :
  isSpace c = false → wordBody (c :: s) = (b, rest) → length rest ≤ length s.
Proof.
  intros Hc. destruct (decide (c = backslash)) as [->|Hb].
  - destruct s as [|d r]; [by intros [= <- <-]|]. rewrite wordBody_escape.
    destruct (unescapeAt _) as [ch k] eqn:E.
    destruct (wordBody (drop k _)) as [b' rest'] eqn:Hb'. intros [= <- <-].
    apply wordBody_suffix in Hb' as [pre Hpre].
    apply (f_equal length) in Hpre. rewrite length_drop, length_app in Hpre.
    assert (2 ≤ k); [|cbn in *; lia].
    destruct r as [|? [|??]]; cbn in E; repeat case_match; simplify_eq; lia.
  - cbn. rewrite Hc, (proj2 (Ascii.eqb_neq c backslash) Hb).
    destruct (wordBody s) as [b' rest'] eqn:Hb'. intros [= <- <-].
    apply wordBody_suffix in Hb' as [pre ->]. rewrite length_app. lia.
Qed.

Lemma skipSpaces_suffix s : ∃ pre, Forall (λ c, isSpace c = true) pre ∧ s = pre ++ skipSpaces s.
Proof.
  induction s as [|c s (pre & Hpre & IH)]; [by exists []|]. cbn. case_match.
  - exists (c :: pre). split; [by constructor|]. cbn. by rewrite <- IH.
  - by exists [].
Qed.

Lemma skipSpaces_head s c r : skipSpaces s = c :: r → isSpace c = false.
Proof.
  induction s as [|d s IH]; cbn; [done|]. case_match; [done|]. by intros [= <- <-].
Qed.

(** The rest a token leaves is shorter than the input it was read from. *)
Lemma token_progress s c r :
  skipSpaces s = c :: r →
  (∀ b rest, quotedBody r = Some (b, rest) → length rest < length s) ∧
  (∀ b rest, wordBody (c :: r) = (b, rest) → length rest < length s).
Proof.
  intros E. destruct (skipSpaces_suffix s) as (pre & _ & Hs).
  apply (f_equal length) in Hs. rewrite E, length_app in Hs. cbn in Hs.
  pose proof (skipSpaces_head s c r E) as Hc. split; intros b rest Hb.
  - apply quotedBody_suffix in Hb as (pre' & Hpre' & ->).
    rewrite length_app in Hs. destruct pre'; [done|cbn in *; lia].
  - apply wordBody_progress in Hb; [lia|done].
Qed.

Lemma consToken_Some tok r : is_Some r → is_Some (consToken tok r).
Proof. intros [[?|?] ->]; cbn; eauto. Qed.

(** Enough fuel: more than the length never runs out, and the amount does not
    matter. *)
Lemma tokenizeFrom_fuel fuel whole comments off s :
  length s < fuel →
  is_Some (tokenizeFrom fuel whole comments off s) ∧
  ∀ fuel', length s < fuel' →
    tokenizeFrom fuel' whole comments off s = tokenizeFrom fuel whole comments off s.
Proof.
  revert off s. induction fuel as [|fuel IH]; intros off s Hs; [lia|].
  split.
  - cbn [tokenizeFrom]. destruct (skipSpaces s) as [|c r] eqn:E; [done|].
    destruct (token_progress s c r E) as [Hq Hw].
    case_match.
    + destruct (quotedBody r) as [[b rest]|] eqn:Eq; [|done].
      specialize (Hq _ _ eq_refl). apply consToken_Some, IH. lia.
    + case_match; [done|]. destruct (wordBody (c :: r)) as [b rest] eqn:Ew.
      specialize (Hw _ _ eq_refl). apply consToken_Some, IH. lia.
  - intros [|fuel'] Hf; [lia|]. cbn [tokenizeFrom].
    destruct (skipSpaces s) as [|c r] eqn:E; [done|].
    destruct (token_progress s c r E) as [Hq Hw].
    case_match.
    + destruct (quotedBody r) as [[b rest]|] eqn:Eq; [|done].
      specialize (Hq _ _ eq_refl). f_equal. apply IH; lia.
    + case_match; [done|]. destruct (wordBody (c :: r)) as [b rest] eqn:Ew.
      specialize (Hw _ _ eq_refl). f_equal. apply IH; lia.
Qed.

(** * Quoting *)

(** Reading one escaped byte back gives the byte. *)
Lemma quotedBody_quoteByte c r :
  quotedBody (quoteByte c ++ r) = prod_map (cons c) id <$> quotedBody r.
Proof. bytecases c; destruct r as [|d2 [|d3 r]]; reflexivity. Qed.

Lemma quotedBody_quoteBody s rest :
  quotedBody (quoteBody s ++ dquote :: rest) = Some (s, rest).
Proof.
  induction s as [|c s IH]; [done|].
  change (quoteBody (c :: s)) with (quoteByte c ++ quoteBody s).
  by rewrite <- app_assoc, quotedBody_quoteByte, IH.
Qed.

Lemma tokenizeFrom_space fuel whole comments off s :
  tokenizeFrom fuel whole comments off (" "%char :: s) =
  tokenizeFrom fuel whole comments (S off) s.
Proof.
  destruct fuel as [|fuel]; [done|]. cbn [tokenizeFrom].
  change (skipSpaces (" "%char :: s)) with (skipSpaces s).
  destruct (skipSpaces_suffix s) as (pre & _ & Hs).
  apply (f_equal length) in Hs. rewrite length_app in Hs.
  replace (off + (length (" "%char :: s) - length (skipSpaces s)))
    with (S off + (length s - length (skipSpaces s))) by (cbn; lia).
  done.
Qed.

(** A sequence of quoted strings is read back as written. *)
Lemma tokenizeFrom_quoted fuel whole off parts :
  length (Join (quoteTXT <$> parts) " ") < fuel →
  ∃ toks, tokenizeFrom fuel whole false off (Join (quoteTXT <$> parts) " ") = Some (Ok toks)
    ∧ text <$> toks = parts ∧ Forall (λ tok, quoted tok = true) toks.
Proof.
  revert fuel off. induction parts as [|p parts IH]; intros fuel off Hf.
  { destruct fuel; [cbn in Hf; lia|]. by exists []. }
  destruct fuel as [|fuel]; [lia|].
  assert (∃ rest, Join (quoteTXT <$> p :: parts) " " = dquote :: quoteBody p ++ dquote :: rest ∧
    (parts = [] ∧ rest = [] ∨ rest = " "%char :: Join (quoteTXT <$> parts) " "))
    as (rest & E & Hrest).
  { destruct parts as [|q parts]; [exists []; by split; [|left]|].
    eexists. split; [|right; reflexivity]. cbn [fmap list_fmap Join].
    unfold quoteTXT at 1. cbn. by rewrite <- app_assoc. }
  rewrite E in *. cbn [tokenizeFrom skipSpaces].
  change (isSpace dquote) with false. cbn match. rewrite Ascii.eqb_refl, quotedBody_quoteBody.
  cbn in Hf. rewrite length_app in Hf. cbn in Hf.
  destruct Hrest as [[-> ->]| ->].
  - destruct fuel; [lia|]. cbn. eexists. split; [done|]. split; [done|]. by constructor.
  - rewrite tokenizeFrom_space. edestruct (IH fuel) as (toks & -> & <- & Hq); [cbn in Hf; lia|].
    eexists. split; [done|]. split; [done|]. by constructor.
Qed.

Lemma concatQuoted_quoted v toks :
  Forall (λ tok, quoted tok = true) toks → concatQuoted v toks = Ok (mjoin (text <$> toks)).
Proof. induction 1 as [|tok toks Htok _ IH]; cbn; [done|]. by rewrite Htok, IH. Qed.

Lemma decodeTXTStrings_quoted parts :
  parts ≠ [] → decodeTXTStrings (Join (quoteTXT <$> parts) " ") = Ok (mjoin parts).
Proof.
  intros Hne. unfold decodeTXTStrings, tokenize.
  edestruct tokenizeFrom_quoted as (toks & -> & Ht & Hq); [apply Nat.lt_succ_diag_r|].
  cbn. rewrite <- Ht. destruct toks as [|tok toks]; [by subst|].
  by apply concatQuoted_quoted.
Qed.

(** * Chunking *)

Lemma chunkLoop_spec fuel s :
  length s ≤ fuel → mjoin (chunkLoop fuel s) = s ∧ Forall (λ p, length p ≤ 255) (chunkLoop fuel s).
Proof.
  revert s. induction fuel as [|fuel IH]; intros s Hs.
  { destruct s; [by repeat constructor|cbn in Hs; lia]. }
  cbn [chunkLoop]. case_decide as Hl.
  - destruct (IH (drop 255 s)) as [IH1 IH2]; [rewrite length_drop; lia|].
    split.
    + change (take 255 s ++ mjoin (chunkLoop fuel (drop 255 s)) = s).
      by rewrite IH1, take_drop.
    + constructor; [rewrite length_take; lia|done].
  - destruct s as [|c s]; [by repeat constructor|].
    split; [cbn; by rewrite app_nil_r|]. constructor; [lia|constructor].
Qed.

Lemma chunk255_spec s :
  mjoin (chunk255 s) = s ∧ Forall (λ p, length p ≤ 255) (chunk255 s) ∧ chunk255 s ≠ [].
Proof.
  unfold chunk255. case_decide as Hl.
  - split_and!; [cbn; by rewrite app_nil_r|by apply Forall_singleton|done].
  - destruct (chunkLoop_spec (length s) s) as [H1 H2]; [done|]. split_and!; [done..|].
    intros E. rewrite E in H1. subst s. cbn in Hl. lia.
Qed.

(** * TXT data *)

Lemma renderTXT_eq s : ∃ parts, renderTXT s = Join (quoteTXT <$> parts) " " ∧ parts ≠ [] ∧
  mjoin parts = txtLogical s ∧ Forall (λ p, length p ≤ 255) parts.
Proof.
  destruct (chunk255_spec (txtLogical s)) as (H1 & H2 & H3).
  by exists (chunk255 (txtLogical s)).
Qed.

Lemma Join_quoted_head parts :
  parts ≠ [] → ∃ r, Join (quoteTXT <$> parts) " " = dquote :: r.
Proof. destruct parts as [|p [|q parts]]; cbn; [done|eauto..]. Qed.

Lemma quoteTXT_last s : last (quoteTXT s) = Some dquote.
Proof. unfold quoteTXT. by rewrite app_comm_cons, last_snoc. Qed.

Lemma Join_quoted_last parts :
  parts ≠ [] → last (Join (quoteTXT <$> parts) " ") = Some dquote.
Proof.
  induction parts as [|p parts IH]; [done|]. intros _.
  destruct parts as [|q parts]; [apply quoteTXT_last|].
  change (Join (quoteTXT <$> p :: q :: parts) " ")
    with (quoteTXT p ++ " " ++ Join (quoteTXT <$> q :: parts) " ").
  rewrite !last_app, IH by done. done.
Qed.

Lemma txtLogical_render s : txtLogical (renderTXT s) = txtLogical s.
Proof.
  destruct (renderTXT_eq s) as (parts & -> & Hne & Hj & _).
  unfold txtLogical at 1. rewrite decodeTXTStrings_quoted by done.
  destruct (Join_quoted_head parts Hne) as [r ->]. cbn. done.
Qed.

(** No byte of a quoted string is a control byte: a zone file holds it on one
    line. *)
Definition printable (c : ascii) : bool :=
  negb ((bval c <? 32)%Z || (bval c =? 127)%Z).

Lemma quoteByte_printable c : forallb printable (quoteByte c) = true.
Proof. bytecases c; reflexivity. Qed.

Lemma quoteTXT_printable s : forallb printable (quoteTXT s) = true.
Proof.
  change (quoteTXT s) with ([dquote] ++ quoteBody s ++ [dquote]).
  rewrite !forallb_app. cut (forallb printable (quoteBody s) = true); [by intros ->|].
  induction s as [|c s IH]; [done|].
  change (quoteBody (c :: s)) with (quoteByte c ++ quoteBody s).
  by rewrite forallb_app, quoteByte_printable, IH.
Qed.

(** The tokens of [whole] from offset [off] on: each token's [raw] is the slice of
    the input at its [start], tokens follow one another, and only white space lies
    between them and after the last. *)
Fixpoint token_cover (whole : gostring) (off : nat) (toks : list token) : Prop :=
  match toks with
  | [] => Forall (λ c, isSpace c = true) (drop off whole)
  | tok :: toks' =>
      off ≤ start tok ∧ raw tok ≠ [] ∧
      Forall (λ c, isSpace c = true) (take (start tok - off) (drop off whole)) ∧
      take (length (raw tok)) (drop (start tok) whole) = raw tok ∧
      token_cover whole (start tok + length (raw tok)) toks'
  end.

Lemma token_cover_cons whole off pre w rest b q toks :
  drop off whole = pre ++ w ++ rest → w ≠ [] → Forall (λ c, isSpace c = true) pre →
  token_cover whole (off + length pre + length w) toks →
  token_cover whole off
    ({| text := b; quoted := q; start := off + length pre; raw := w |} :: toks).
Proof.
  intros E Hw Hpre Ht. cbn. split_and!; [lia|done| | |done].
  - rewrite E. by replace (off + length pre - off) with (length pre) by lia; rewrite take_app_length.
  - by rewrite <- drop_drop, E, drop_app_length, take_app_length.
Qed.

Lemma tokenizeFrom_cover fuel whole off s toks :
  drop off whole = s → tokenizeFrom fuel whole false off s = Some (Ok toks) →
  token_cover whole off toks.
Proof.
  revert off s toks. induction fuel as [|fuel IH]; intros off s toks Hoff; [done|].
  cbn [tokenizeFrom]. destruct (skipSpaces_suffix s) as (pre & Hpre & Hs).
  destruct (skipSpaces s) as [|c r] eqn:E.
  { rewrite app_nil_r in Hs. subst. intros [= <-]. done. }
  replace (length s - length (c :: r)) with (length pre)
    by (rewrite Hs, length_app; lia).
  pose proof (skipSpaces_head s c r E) as Hc.
  assert (∀ b q w rest, c :: r = w ++ rest → w ≠ [] →
    consToken {| text := b; quoted := q; start := off + length pre;
        raw := take (length (c :: r) - length rest) (c :: r) |}
      (tokenizeFrom fuel whole false (off + length pre + (length (c :: r) - length rest)) rest)
      = Some (Ok toks) → token_cover whole off toks) as Hcons.
  { intros b q w rest Hcr Hw. rewrite Hcr in *. rewrite length_app, Nat.add_sub, take_app_length.
    destruct (tokenizeFrom _ _ _ _ rest) as [[toks'|]|] eqn:Et; cbn; [|done..].
    intros [= <-]. apply token_cover_cons with (rest := rest); [by rewrite Hoff|done..|].
    apply IH in Et; [done|].
    by rewrite <- !drop_drop, Hoff, Hs, drop_app_length, drop_app_length. }
  case_match eqn:Hq.
  - destruct (quotedBody r) as [[b rest]|] eqn:Eq; [|done].
    apply quotedBody_suffix in Eq as (w & Hw & ->).
    by apply (Hcons b true (c :: w)).
  - cbn [andb]. destruct (wordBody (c :: r)) as [b rest] eqn:Ew.
    pose proof (wordBody_progress c r b rest Hc Ew).
    destruct (wordBody_suffix _ _ _ Ew) as [w Hw]. apply Hcons with (w := w); [done|].
    intros ->. cbn in Hw. subst rest. cbn in *. lia.
Qed.

(** * Properties *)

(** C34. TXT data round trips: what the API stores decodes to the logical value of
    the input, an unquoted value comes back unchanged, and encoding an already
    encoded value changes nothing. *)
Theorem TXTContent_roundtrip s :
  TXTContentFromAPI (TXTContentForAPI s) = TXTContentFromAPI s ∧
  (HasPrefix s [dquote] = false → TXTContentFromAPI (TXTContentForAPI s) = s) ∧
  TXTContentForAPI (TXTContentForAPI s) = TXTContentForAPI s.
Proof.
  unfold TXTContentFromAPI, TXTContentForAPI. split_and!.
  - apply txtLogical_render.
  - intros Hs. rewrite txtLogical_render. unfold txtLogical. by rewrite Hs.
  - unfold renderTXT at 1. by rewrite txtLogical_render.
Qed.

(** The stored form of TXT data is one or more quoted character-strings of at
    most 255 bytes of data each, whose data concatenates to the logical value, and
    it holds no control byte. *)
Theorem TXTContentForAPI_wire s :
  ∃ parts, TXTContentForAPI s = Join (quoteTXT <$> parts) " " ∧ parts ≠ [] ∧
    Forall (λ p, length p ≤ 255) parts ∧ mjoin parts = txtLogical s ∧
    forallb printable (TXTContentForAPI s) = true.
Proof.
  destruct (renderTXT_eq s) as (parts & E & Hne & Hj & Hl).
  exists parts. unfold TXTContentForAPI. split_and!; [done..|].
  rewrite E. apply Join_forallb; [|done].
  apply Forall_fmap, Forall_true. intros p. apply quoteTXT_printable.
Qed.

(** [tokenize] loses nothing: the tokens are slices of the input, in order and
    without overlap, with only white space between them. *)
Theorem tokenize_cover s toks :
  tokenize s false = Ok toks → token_cover s 0 toks.
Proof.
  unfold tokenize. destruct (tokenizeFrom_fuel (S (length s)) s false 0 s) as [[r Hr] _]; [lia|].
  rewrite Hr. cbn. intros ->. by eapply tokenizeFrom_cover.
Qed.

Lemma tokenize_cover_witness :
  ∃ toks, length toks = 3 ∧ token_cover "10  mail\.x.example.com. a" 0 toks.
Proof.
  eexists. split; cycle 1.
  - apply (tokenize_cover "10  mail\.x.example.com. a"). vm_compute. reflexivity.
  - reflexivity.
Defined.
