(* ===== verification/GoTime.v ===== *)
(** Go's [time.ParseDuration], which [rdata.ParseTTL] calls for a TTL with a
    decimal point.  Durations are nanoseconds.  The fraction goes through
    [float64] arithmetic in Go; here through [SpecFloat] at binary64's precision,
    so the rounding is the same. *)

From Stdlib Require Import Floats.SpecFloat.
From S2P Require Import Prelude GoStrings.

(** ** float64 *)

Definition float64_of (z : Z) : spec_float := binary_normalize 53 1024 z 0 false.
Definition float64_mul : spec_float → spec_float → spec_float := SFmul 53 1024.
Definition float64_div : spec_float → spec_float → spec_float := SFdiv 53 1024.

(** [uint64(x)] for a finite non-negative [x]: truncation. *)
Definition uint64_of_float (x : spec_float) : Z :=
  match x with
  | S754_finite false m e =>
      if (0 <=? e)%Z then Z.pos m * 2 ^ e else Z.pos m / 2 ^ (- e)
  | _ => 0
  end%Z.

(** ** Leading digits *)

(** [leadingInt]: [None] on overflow. *)
Fixpoint leadingInt (x : Z) (s : gostring) : option (Z * gostring) :=
  match s with
  | c :: s' =>
      if isDigit c then
        if (2 ^ 63 / 10 <? x)%Z then None
        else let y := (x * 10 + digitVal c)%Z in
             if (2 ^ 63 <? y)%Z then None else leadingInt y s'
      else Some (x, s)
  | [] => Some (x, [])
  end.

(** [leadingFraction]: digits past an overflow are consumed and ignored. *)
Fixpoint leadingFraction (overflow : bool) (x : Z) (scale : spec_float) (s : gostring) :
    Z * spec_float * gostring :=
  match s with
  | c :: s' =>
      if isDigit c then
        if overflow || ((2 ^ 63 - 1) / 10 <? x)%Z then leadingFraction true x scale s'
        else let y := (x * 10 + digitVal c)%Z in
             if (2 ^ 63 <? y)%Z then leadingFraction true x scale s'
             else leadingFraction false y (float64_mul scale (float64_of 10)) s'
      else (x, scale, s)
  | [] => (x, scale, [])
  end.

(** The unit name: up to the next digit or dot. *)
Fixpoint spanUnit (s : gostring) : gostring * gostring :=
  match s with
  | c :: s' =>
      if Ascii.eqb c "." || isDigit c then ([], s)
      else let '(u, r) := spanUnit s' in (c :: u, r)
  | [] => ([], [])
  end.

(** [unitMap]; the two spellings of the micro sign are U+00B5 and U+03BC. *)
Definition unitMap (u : gostring) : option Z :=
  if decide (u = "ns") then Some 1%Z
  else if decide (u = "us" ∨ u = [byte 194; byte 181; "s"%char]
                  ∨ u = [byte 206; byte 188; "s"%char]) then Some 1000%Z
  else if decide (u = "ms") then Some 1000000%Z
  else if decide (u = "s") then Some 1000000000%Z
  else if decide (u = "m") then Some 60000000000%Z
  else if decide (u = "h") then Some 3600000000000%Z
  else None.

(** One [number unit] group: its value in nanoseconds and the rest. *)
Definition durationGroup (s : gostring) : option (Z * gostring) :=
  match s with
  | c :: _ =>
      if Ascii.eqb c "." || isDigit c then
        '(v, s1) ← leadingInt 0 s;
        let pre := negb (Nat.eqb (length s1) (length s)) in
        let '(f, scale, s2, post) :=
          match s1 with
          | "."%char :: s1' =>
              let '(f, scale, s2) := leadingFraction false 0 (float64_of 1) s1' in
              (f, scale, s2, negb (Nat.eqb (length s2) (length s1')))
          | _ => (0%Z, float64_of 1, s1, false)
          end in
        if negb pre && negb post then None else
        let '(u, s3) := spanUnit s2 in
        match u with
        | [] => None
        | _ =>
            unit ← unitMap u;
            if (2 ^ 63 / unit <? v)%Z then None else
            let v := (v * unit)%Z in
            if (0 <? f)%Z then
              let v := (v + uint64_of_float (float64_mul (float64_of f)
                              (float64_div (float64_of unit) scale)))%Z in
              if (2 ^ 63 <? v)%Z then None else Some (v, s3)
            else Some (v, s3)
        end
      else None
  | [] => None
  end.

(** Every group consumes a byte, so the length is enough fuel. *)
Fixpoint durationGroups (fuel : nat) (d : Z) (s : gostring) : option Z :=
  match s, fuel with
  | [], _ => Some d
  | _, O => None
  | _, S fuel' =>
      '(v, s') ← durationGroup s;
      let d := (d + v)%Z in
      if (2 ^ 63 <? d)%Z then None else durationGroups fuel' d s'
  end.

Definition ParseDuration (s : gostring) : option Z :=
  let '(neg, s) :=
    match s with
    | c :: s' => if Ascii.eqb c "-" then (true, s')
                 else if Ascii.eqb c "+" then (false, s') else (false, s)
    | [] => (false, s)
    end in
  if decide (s = "0") then Some 0%Z
  else match s with
       | [] => None
       | _ =>
           d ← durationGroups (length s) 0 s;
           if neg then Some (- d)%Z
           else if (2 ^ 63 - 1 <? d)%Z then None else Some d
       end.

Example ParseDuration_hours : ParseDuration "1.5h" = Some 5400000000000%Z.
Proof. vm_compute. reflexivity. Qed.
Example ParseDuration_mixed : ParseDuration "-2m0.25s" = Some (-120250000000)%Z.
Proof. vm_compute. reflexivity. Qed.
Example ParseDuration_day : ParseDuration "1.5d" = None.
Proof. vm_compute. reflexivity. Qed.
