(* ===== verification/RdataTTL.v ===== *)
(** Package [internal/cmd/dns/rdata], file [ttl.go]: the TTL grammar. *)

From S2P Require Import Prelude GoStrings GoTime RdataTypes.

Definition MaxTTL : Z := 2147483647.

Definition ttlUnits : list (ascii * Z) :=
  [("w"%char, 604800%Z); ("d"%char, 86400%Z); ("h"%char, 3600%Z);
   ("m"%char, 60%Z); ("s"%char, 1%Z)].

Fixpoint unitSecondsIn (units : list (ascii * Z)) (c : ascii) : option Z :=
  match units with
  | [] => None
  | (u, secs) :: units' => if Ascii.eqb u c then Some secs else unitSecondsIn units' c
  end.
Definition unitSeconds : ascii → option Z := unitSecondsIn ttlUnits.

(** The loop of [parseTTLSeconds]; [digits] is [v[start:i]].  The sum and the
    product are [int64] and wrap around. *)
Fixpoint ttlLoop (orig : gostring) (total : Z) (digits v : gostring) : result Error Z :=
  match v with
  | c :: v' =>
      if isDigit c then ttlLoop orig total (digits ++ [c]) v'
      else if decide (digits = []) then Err (EInvalidTTL orig)
      else match unitSeconds c with
           | None => Err (EInvalidTTL orig)
           | Some mult =>
               match ParseInt64 digits with
               | None => Err (EInvalidTTL orig)
               | Some n =>
                   let total := wrap64 (total + wrap64 (n * mult)) in
                   if (MaxTTL <? total)%Z then Err (ETTLExceeds orig)
                   else ttlLoop orig total [] v'
               end
           end
  | [] => if decide (digits = []) then Ok total else Err (EInvalidTTL orig)
  end.

Definition parseTTLSeconds (v orig : gostring) : result Error Z :=
  match ParseInt64 v with
  | Some n => Ok n
  | None =>
      if Contains v "." then
        match ParseDuration v with
        | None => Err (EInvalidTTL orig)
        | Some d =>
            if decide (Z.rem d 1000000000 = 0%Z) then Ok (Z.quot d 1000000000)
            else Err (ETTLFraction orig)
        end
      else
        let neg := HasPrefix v "-" in
        let v := TrimPrefix (TrimPrefix v "-") "+" in
        total ← ttlLoop orig 0 [] v;
        if neg then Ok (wrap64 (- total)) else Ok total
  end.

Definition checkTTLRange (secs : Z) (orig : gostring) : result Error unit :=
  if (secs <? 0)%Z then Err (ETTLNegative orig)
  else if (MaxTTL <? secs)%Z then Err (ETTLExceeds orig)
  else Ok tt.

(** [secs / u.secs] with the first unit that divides, for a positive [secs]. *)
Fixpoint formatIn (units : list (ascii * Z)) (secs : Z) : option gostring :=
  match units with
  | [] => None
  | (u, k) :: units' =>
      if (secs mod k =? 0)%Z then Some (FormatInt (secs / k) ++ [u])
      else formatIn units' secs
  end.

Definition FormatSeconds (secs : Z) : gostring :=
  let seconds := FormatInt secs ++ "s" in
  if (0 <? secs)%Z then default seconds (formatIn ttlUnits secs) else seconds.

Definition FormatTTL (ttl : option Z) : gostring :=
  match ttl with None => "Auto" | Some secs => FormatSeconds secs end.

Section TTL.
Context `{GoRuntime}.

Definition ParseTTL (s : gostring) : result Error (option Z) :=
  let v := ToLower (TrimSpace s) in
  if decide (v = [] ∨ v = "auto") then Ok None
  else secs ← parseTTLSeconds v s;
       _ ← checkTTLRange secs s;
       Ok (Some secs).

Definition ParseTTLSeconds (s : gostring) : result Error Z :=
  secs ← parseTTLSeconds (ToLower (TrimSpace s)) s;
  _ ← checkTTLRange secs s;
  Ok secs.

(** ** Compound durations

    A duration is written as a sequence of groups, a number and a unit; its text
    and its value. *)
Definition groupText (g : Z * (ascii * Z)) : gostring := FormatInt g.1 ++ [g.2.1].
Definition groupsText (gs : list (Z * (ascii * Z))) : gostring := gs ≫= groupText.
Definition groupsValue (gs : list (Z * (ascii * Z))) : Z :=
  foldr (λ g acc, (g.1 * g.2.2 + acc)%Z) 0%Z gs.

(** A group whose seconds leave room for the largest running total: adding it
    stays inside [int64]. *)
Definition groupFits (g : Z * (ascii * Z)) : Prop :=
  g.2 ∈ ttlUnits ∧ (0 ≤ g.1)%Z ∧ (g.1 * g.2.2 ≤ 2 ^ 63 - 1 - MaxTTL)%Z.

(** Digits and unit letters: lower case and no spaces, signs or dots. *)
Definition ttlByte (c : ascii) : bool := isDigit c || existsb (λ u, Ascii.eqb u.1 c) ttlUnits.

Lemma ttlByte_plain c : ttlByte c = true → plainByte c = true.
Proof. bytecases c; done. Qed.
Lemma ttlByte_lower c : ttlByte c = true → lowerASCII c = true.
Proof. bytecases c; done. Qed.

Lemma ttlByte_ToLower s : forallb ttlByte s = true → ToLower s = s.
Proof.
  rewrite forallb_Forall. intros Hs. apply ToLower_fix, forallb_Forall.
  eauto using Forall_impl, ttlByte_lower.
Qed.

Lemma ttlByte_TrimSpace s : forallb ttlByte s = true → TrimSpace s = s.
Proof.
  rewrite forallb_Forall. intros Hs. apply TrimSpace_fix, forallb_Forall.
  eauto using Forall_impl, ttlByte_plain.
Qed.

Lemma ttlByte_no_dot s : forallb ttlByte s = true → Contains s "." = false.
Proof.
  induction s as [|c s IH]; [done|]. cbn [forallb Contains].
  intros [Hc Hs]%andb_true_iff. rewrite (IH Hs), orb_false_r.
  apply bool_decide_eq_false. cbn. intros [= ->]. done.
Qed.

Lemma forallb_digit_ttl s : forallb isDigit s = true → forallb ttlByte s = true.
Proof.
  rewrite !forallb_Forall. intros Hs. eapply Forall_impl; [done|].
  intros c. unfold ttlByte. by intros ->.
Qed.

Lemma unit_ttlByte u : u ∈ ttlUnits → ttlByte u.1 = true.
Proof. revert u. apply Forall_forall. by repeat constructor. Qed.
Lemma unit_not_digit u : u ∈ ttlUnits → isDigit u.1 = false.
Proof. revert u. apply Forall_forall. by repeat constructor. Qed.
Lemma unit_unitSeconds u : u ∈ ttlUnits → unitSeconds u.1 = Some u.2.
Proof. revert u. apply Forall_forall. by repeat constructor. Qed.
Lemma unit_pos u : u ∈ ttlUnits → (1 ≤ u.2)%Z.
Proof. revert u. apply Forall_forall. repeat constructor; done. Qed.

Lemma groupsText_ttlByte gs : Forall groupFits gs → forallb ttlByte (groupsText gs) = true.
Proof.
  induction 1 as [|[n u] gs (Hu & Hn & _) _ IH]; [done|].
  change (groupsText ((n, u) :: gs)) with ((FormatInt n ++ [u.1]) ++ groupsText gs).
  cbn in *. rewrite !forallb_app, IH. cbn. rewrite unit_ttlByte by done. rewrite FormatInt_nonneg by done.
  by rewrite forallb_digit_ttl by apply FormatUint_spec, Hn.
Qed.

Lemma ParseInt64_FormatInt n : (0 ≤ n < 2 ^ 63)%Z → ParseInt64 (FormatInt n) = Some n.
Proof.
  intros Hn. unfold ParseInt64.
  destruct (FormatUint_spec n) as (Hd & Hne & _); [lia|].
  pose proof (ParseUint_FormatInt 64 n) as HP.
  rewrite FormatInt_nonneg in * by lia. destruct (FormatUint n) as [|c s]; [done|].
  cbn [forallb] in Hd. apply andb_true_iff in Hd as [Hc _].
  replace (Ascii.eqb c "-") with false by (symmetry; apply Ascii.eqb_neq; by intros ->).
  replace (Ascii.eqb c "+") with false by (symmetry; apply Ascii.eqb_neq; by intros ->).
  rewrite HP by lia. by replace (n <? 2 ^ 63)%Z with true by lia.
Qed.

Lemma ttlLoop_digits orig total ds cur v :
  forallb isDigit ds = true →
  ttlLoop orig total cur (ds ++ v) = ttlLoop orig total (cur ++ ds) v.
Proof.
  revert cur. induction ds as [|c ds IH]; intros cur Hds; [by rewrite app_nil_r|].
  cbn in *. apply andb_true_iff in Hds as [-> Hds]. rewrite (IH _ Hds).
  by rewrite <- app_assoc.
Qed.

(** One group adds its seconds to the total. *)
Lemma ttlLoop_group orig total g v :
  groupFits g → (0 ≤ total ≤ MaxTTL)%Z →
  ttlLoop orig total [] (groupText g ++ v) =
  if (MaxTTL <? total + g.1 * g.2.2)%Z then Err (ETTLExceeds orig)
  else ttlLoop orig (total + g.1 * g.2.2) [] v.
Proof.
  destruct g as [n u]. intros (Hu & Hn & Hfit) Ht. unfold groupText. cbn in *.
  destruct (FormatUint_spec n Hn) as (Hd & Hne & _). pose proof (unit_pos u Hu) as Hpos.
  rewrite FormatInt_nonneg, <- app_assoc, ttlLoop_digits by done. cbn [app ttlLoop].
  unfold MaxTTL in *.
  assert (0 ≤ n * u.2)%Z by nia. assert (n ≤ n * u.2)%Z by nia.
  rewrite unit_not_digit, decide_False, unit_unitSeconds by done.
  rewrite <- FormatInt_nonneg, ParseInt64_FormatInt by lia.
  by rewrite (wrap64_id (n * u.2)), wrap64_id by lia.
Qed.

Lemma groupsValue_nonneg gs : Forall groupFits gs → (0 ≤ groupsValue gs)%Z.
Proof.
  induction 1 as [|[n u] gs (Hu & Hn & _) _ IH]; cbn in *; [lia|].
  pose proof (unit_pos u Hu). apply Z.add_nonneg_nonneg; [apply Z.mul_nonneg_nonneg; lia|done].
Qed.

Lemma ttlLoop_groups orig gs total :
  Forall groupFits gs → (0 ≤ total ≤ MaxTTL)%Z →
  ttlLoop orig total [] (groupsText gs) =
  if (MaxTTL <? total + groupsValue gs)%Z then Err (ETTLExceeds orig)
  else Ok (total + groupsValue gs)%Z.
Proof.
  intros Hgs. revert total. induction Hgs as [|g gs Hg Hgs IH]; intros total Ht.
  - cbn. rewrite Z.add_0_r. by replace (MaxTTL <? total)%Z with false by lia.
  - change (groupsText (g :: gs)) with (groupText g ++ groupsText gs).
    rewrite ttlLoop_group by done. pose proof (groupsValue_nonneg gs Hgs).
    destruct Hg as (Hu & Hn & _). pose proof (unit_pos _ Hu).
    assert (0 ≤ g.1 * g.2.2)%Z by nia. cbn [groupsValue foldr]. fold (groupsValue gs).
    rewrite Z.add_assoc. destruct (Z.ltb_spec MaxTTL (total + g.1 * g.2.2)).
    + by replace (MaxTTL <? _)%Z with true by lia.
    + apply IH. lia.
Qed.

(** A text with a unit in it is not a bare number. *)
Lemma ParseInt64_unit s : forallb ttlByte s = true → forallb isDigit s = false →
  ParseInt64 s = None.
Proof.
  intros Ht Hd. unfold ParseInt64. destruct s as [|c s]; [done|].
  cbn [forallb] in Ht. apply andb_true_iff in Ht as [Hc _].
  replace (Ascii.eqb c "-") with false by (symmetry; apply Ascii.eqb_neq; by intros ->).
  replace (Ascii.eqb c "+") with false by (symmetry; apply Ascii.eqb_neq; by intros ->).
  unfold ParseUint. by rewrite Hd.
Qed.

Lemma groupsText_not_digits gs :
  Forall groupFits gs → gs ≠ [] → forallb isDigit (groupsText gs) = false.
Proof.
  intros Hgs Hne. destruct Hgs as [|[n u] gs (Hu & _) _]; [done|].
  change (groupsText ((n, u) :: gs)) with ((FormatInt n ++ [u.1]) ++ groupsText gs).
  rewrite !forallb_app. cbn. rewrite unit_not_digit by done. by rewrite andb_false_r.
Qed.

Lemma parseTTLSeconds_groups orig gs :
  Forall groupFits gs → gs ≠ [] →
  parseTTLSeconds (groupsText gs) orig =
  if (MaxTTL <? groupsValue gs)%Z then Err (ETTLExceeds orig) else Ok (groupsValue gs).
Proof.
  intros Hgs Hne. pose proof (groupsText_ttlByte gs Hgs) as Hb.
  unfold parseTTLSeconds. rewrite ParseInt64_unit, ttlByte_no_dot
    by auto using groupsText_not_digits.
  assert (∀ p, p ≠ [] → forallb ttlByte (take 1 p) = false →
    HasPrefix (groupsText gs) p = false) as Hpre.
  { intros p Hp Hpb. apply bool_decide_eq_false. intros E.
    destruct p as [|c p]; [done|]. destruct (groupsText gs) as [|d s]; [done|].
    cbn in E, Hpb, Hb. injection E as -> _. rewrite andb_true_r in Hpb.
    by rewrite Hpb in Hb. }
  rewrite (Hpre "-") by done. unfold TrimPrefix. rewrite (Hpre "-"), (Hpre "+") by done.
  rewrite ttlLoop_groups by (done || (unfold MaxTTL; lia)). rewrite Z.add_0_l.
  by destruct (MaxTTL <? groupsValue gs)%Z.
Qed.

Lemma ParseTTL_groups gs :
  Forall groupFits gs → gs ≠ [] →
  ParseTTL (groupsText gs) =
  if (MaxTTL <? groupsValue gs)%Z then Err (ETTLExceeds (groupsText gs))
  else Ok (Some (groupsValue gs)).
Proof.
  intros Hgs Hne. pose proof (groupsText_ttlByte gs Hgs) as Hb.
  pose proof (groupsText_not_digits gs Hgs Hne) as Hd.
  unfold ParseTTL. rewrite ttlByte_TrimSpace, ttlByte_ToLower by done.
  rewrite decide_False.
  - rewrite parseTTLSeconds_groups by done. pose proof (groupsValue_nonneg gs Hgs).
    destruct (MaxTTL <? groupsValue gs)%Z eqn:E; [done|]. cbn.
    unfold checkTTLRange. rewrite E. by replace (groupsValue gs <? 0)%Z with false by lia.
  - intros [E|E]; rewrite E in *; done.
Qed.

(** ** Printing *)

Lemma formatIn_Some units secs s :
  (0 ≤ secs)%Z → formatIn units secs = Some s →
  ∃ u, u ∈ units ∧ (secs mod u.2 = 0)%Z ∧ s = groupText ((secs / u.2)%Z, u).
Proof.
  intros Hs. induction units as [|[c k] units IH]; cbn; [done|].
  destruct (Z.eqb_spec (secs mod k) 0).
  - intros [= <-]. exists (c, k). split_and!; [apply elem_of_cons; by left|done..].
  - intros (u & Hu & ? & ->)%IH. exists u. split_and!; [apply elem_of_cons; by right|done..].
Qed.

(** What [FormatSeconds] prints is one group worth [secs] seconds. *)
Lemma FormatSeconds_group secs :
  (0 ≤ secs ≤ MaxTTL)%Z →
  ∃ g, groupFits g ∧ FormatSeconds secs = groupsText [g] ∧ groupsValue [g] = secs.
Proof.
  intros Hs. unfold FormatSeconds.
  assert (∃ g, groupFits g ∧ FormatInt secs ++ "s" = groupsText [g] ∧ groupsValue [g] = secs)
    as Hbare.
  { exists (secs, ("s"%char, 1%Z)). unfold MaxTTL in *. split_and!.
    - split_and!; cbn; [|unfold MaxTTL; lia..]. by apply (list_elem_of_lookup_2 _ 4).
    - by cbn; rewrite app_nil_r.
    - cbn. lia. }
  destruct (Z.ltb_spec 0 secs); [|done].
  destruct (formatIn ttlUnits secs) as [s|] eqn:E; [|done].
  apply formatIn_Some in E as (u & Hu & Hmod & ->); [|lia].
  pose proof (unit_pos u Hu). pose proof (Z.div_mod secs u.2).
  exists ((secs / u.2)%Z, u). unfold MaxTTL in *. split_and!.
  - split_and!; cbn; [done|apply Z.div_pos; lia|unfold MaxTTL; lia].
  - by cbn; rewrite app_nil_r.
  - cbn. lia.
Qed.

(** Every TTL the API may hold, the unset one included, survives printing with
    [FormatTTL] and reading with [ParseTTL]. *)
Theorem ParseTTL_FormatTTL ttl :
  (∀ n, ttl = Some n → (0 ≤ n ≤ MaxTTL)%Z) → ParseTTL (FormatTTL ttl) = Ok ttl.
Proof.
  intros Hr. destruct ttl as [secs|]; [|done]. specialize (Hr secs eq_refl).
  destruct (FormatSeconds_group secs Hr) as (g & Hg & E & Hv).
  cbn [FormatTTL]. rewrite E, ParseTTL_groups, Hv by (done || by apply Forall_singleton).
  by replace (MaxTTL <? secs)%Z with false by lia.
Qed.

(** A compound duration (any sequence of number-unit groups, none so large that
    the [int64] sum could wrap) is read as the sum of its groups when that is at
    most [MaxTTL], and refused as out of range when it is more. *)
Theorem ParseTTL_compound gs :
  Forall groupFits gs → gs ≠ [] →
  ParseTTL (groupsText gs) =
  if (MaxTTL <? groupsValue gs)%Z then Err (ETTLExceeds (groupsText gs))
  else Ok (Some (groupsValue gs)).
Proof. apply ParseTTL_groups. Qed.

(** The product and the sum in the unit loop are not guarded: a single group of
    30500568904944 weeks, a little over 2^64 seconds, wraps
    around [int64] and is accepted as a TTL of 579584 seconds; and a bare sign,
    with no digits at all, is accepted as a TTL of 0. *)
Theorem ParseTTL_overflow :
  ParseTTL "30500568904944w" = Ok (Some 579584%Z) ∧
  (MaxTTL < 30500568904944 * 604800)%Z ∧
  ParseTTL "-" = Ok (Some 0%Z).
Proof. split_and!; reflexivity. Qed.
End TTL.

Lemma ParseTTL_FormatTTL_witness :
  @ParseTTL reference_runtime (FormatTTL (Some 5400%Z)) = Ok (Some 5400%Z) ∧
  FormatTTL (Some 5400%Z) = "90m".
Proof.
  split; [|reflexivity].
  apply (@ParseTTL_FormatTTL reference_runtime (Some 5400%Z)).
  intros n [= <-]. unfold MaxTTL. lia.
Defined.

Lemma ParseTTL_compound_witness :
  @ParseTTL reference_runtime "1h30m" = Ok (Some 5400%Z).
Proof.
  refine (@ParseTTL_compound reference_runtime
    [(1%Z, ("h"%char, 3600%Z)); (30%Z, ("m"%char, 60%Z))] _ _); [|done].
  unfold groupFits, ttlUnits, MaxTTL. repeat constructor; cbn; try lia; set_solver.
Defined.
