(* ===== verification/RdataName.v ===== *)
(** Package [internal/cmd/dns/rdata], files [name.go] and [hostname.go]: owner
    names relative to a zone, and the host names of record targets. *)

From S2P Require Import Prelude GoStrings Ownername RdataTypes.

Definition maxNameLength : Z := 253.
Definition len (s : gostring) : Z := Z.of_nat (length s).

(** * name.go *)

(** The class [[A-Za-z0-9*._-]]. *)
Definition nameByte (c : ascii) : bool :=
  isUpper c || isLower c || isDigit c ||
  ContainsByte "*._-" c.

Definition namePattern (s : gostring) : bool :=
  bool_decide (s = "@") || (negb (bool_decide (s = [])) && forallb nameByte s).

Definition IsApex (name : gostring) : bool := bool_decide (name = "@" ∨ name = []).

Fixpoint checkOwnerLabelsFrom (orig : gostring) (i : nat) (labels : list gostring) :
    result Error unit :=
  match labels with
  | [] => Ok tt
  | l :: labels' =>
      if decide (l = []) then Err (ENameEmptyLabel orig)
      else if (63 <? len l)%Z then Err (ENameLongLabel orig)
      else if ContainsByte l "*" && negb (bool_decide (l = "*"))
      then Err (ENamePartialWildcard orig l)
      else if ContainsByte l "*" && negb (i =? 0) then Err (ENameInnerWildcard orig)
      else checkOwnerLabelsFrom orig (S i) labels'
  end.

Definition checkOwnerLabels (orig bare : gostring) : result Error unit :=
  if (maxNameLength <? len bare)%Z then Err (ENameTooLong orig (len bare))
  else checkOwnerLabelsFrom orig 0 (splitByte "." bare).

(** * hostname.go *)

Definition strictHost : bool := false.
Definition relaxedHost : bool := true.

(** The loop of [splitDNSLabels]; [b] is the label built so far. *)
Fixpoint splitDNSLabelsFrom (b name : gostring) : list gostring :=
  match name with
  | [] => [b]
  | c :: name' =>
      match name' with
      | d :: name'' =>
          if Ascii.eqb c backslash then splitDNSLabelsFrom (b ++ [c; d]) name''
          else if Ascii.eqb c "." then b :: splitDNSLabelsFrom [] name'
          else splitDNSLabelsFrom (b ++ [c]) name'
      | [] =>
          if Ascii.eqb c "." then b :: splitDNSLabelsFrom [] name'
          else splitDNSLabelsFrom (b ++ [c]) name'
      end
  end.
Definition splitDNSLabels (name : gostring) : list gostring := splitDNSLabelsFrom [] name.

(** The character loop of [checkLabel]. *)
Fixpoint checkLabelBytes (field whole : gostring) (underscores : bool) (label : gostring) :
    result Error unit :=
  match label with
  | [] => Ok tt
  | c :: label' =>
      let step :=
        if isLower c || isUpper c || isDigit c || Ascii.eqb c "-"
           || (Ascii.eqb c "_" && underscores)
        then checkLabelBytes field whole underscores label'
        else if Ascii.eqb c "_" then Err (EHostUnderscore field whole)
        else Err (EHostBadChar field whole c) in
      match label' with
      | _ :: label'' =>
          if Ascii.eqb c backslash then checkLabelBytes field whole underscores label''
          else step
      | [] => step
      end
  end.

Definition checkLabel (field whole label : gostring) (underscores : bool) : result Error unit :=
  if decide (label = []) then Err (EHostEmptyLabel field whole)
  else if (63 <? len label)%Z then Err (EHostLongLabel field whole)
  else if decide (head label = Some "-"%char ∨ last label = Some "-"%char)
  then Err (EHostHyphen field whole)
  else checkLabelBytes field whole underscores label.

Definition checkHostname (field h : gostring) (underscores : bool) : result Error unit :=
  if decide (h = []) then Err (EHostEmpty field)
  else
    let name := TrimSuffix h "." in
    if decide (name = []) then Err (EHostRoot field h)
    else if (maxNameLength <? len name)%Z then Err (EHostTooLong field h (len name))
    else result_iter (λ label, checkLabel field h label underscores) (splitDNSLabels name).

Section Names.
Context `{GoRuntime}.

Definition requireFQDN (field value zone : gostring) : result Error unit :=
  if HasSuffix value "." then Ok tt
  else
    let fix_ :=
      if 1 <? length (splitDNSLabels value) then Some (value ++ ".")
      else if decide (zone ≠ []) then
        Some (value ++ "." ++ TrimSuffix (ToLower zone) "." ++ ".")
      else None in
    Err (ENotFQDN field value fix_).

Definition FQDN (name zone : gostring) : gostring :=
  let zone := TrimSuffix (ToLower (TrimSpace zone)) "." in
  let name := ToLower (TrimSpace name) in
  if IsApex name then zone ++ "."
  else if HasSuffix name "." then name
  else name ++ "." ++ zone ++ ".".

Definition IsApexIn (name zone : gostring) : bool :=
  bool_decide (FQDN name zone = FQDN "@" zone).

Definition NormalizeNameWithWarnings (name zone : gostring) :
    result Error (gostring * list Warning) :=
  let zone := TrimSuffix (ToLower (TrimSpace zone)) "." in
  let raw := TrimSpace name in
  let lower := ToLower raw in
  if IsApex lower then Ok ("@", [])
  else if ContainsAny raw [" "%char; tab] then Err (ENameWhitespace name)
  else if negb (namePattern lower) then Err (ENameInvalid name)
  else
    let absolute := HasSuffix lower "." in
    let bare := TrimSuffix lower "." in
    if decide (bare = []) then Ok ("@", [])
    else
      _ ← checkOwnerLabels name bare;
      if absolute then
        if decide (zone = []) then Ok (bare ++ ".", [])
        else if decide (bare = zone) then Ok ("@", [])
        else if HasSuffix bare ("." ++ zone) then Ok (TrimSuffix bare ("." ++ zone), [])
        else Ok (bare ++ ".", [WNameOutsideZone (bare ++ ".") zone])
      else if decide (zone ≠ []) then
        if decide (bare = zone) then Err (ENameIsZone name)
        else if HasSuffix bare ("." ++ zone)
        then Err (ENameIncludesZone name (TrimSuffix bare ("." ++ zone)))
        else if (maxNameLength <? len bare + 1 + len zone)%Z
        then Err (ENameTooLongForZone name zone)
        else Ok (bare, [])
      else Ok (bare, []).

Definition NormalizeName (name zone : gostring) : result Error gostring :=
  fst <$> NormalizeNameWithWarnings name zone.
End Names.

(** * Properties of owner names *)

Section NameProperties.
Context `{GoRuntime}.

(** The zone as [FQDN] and [NormalizeName] read it. *)
Abbreviation zoneName zone := (TrimSuffix (ToLower (TrimSpace zone)) ".").

Lemma TrimSuffix_dot_cases s :
  (HasSuffix s "." = true ∧ s = TrimSuffix s "." ++ ".") ∨
  (HasSuffix s "." = false ∧ TrimSuffix s "." = s).
Proof.
  destruct (HasSuffix s ".") eqn:E; [left|right; auto using TrimSuffix_id].
  split; [done|]. apply HasSuffix_spec in E as [t ->]. by rewrite TrimSuffix_app.
Qed.

Lemma last_lower s : last (lowerByte <$> s) = Some "."%char ↔ last s = Some "."%char.
Proof.
  rewrite fmap_last. destruct (last s) as [c|]; cbn; [|done].
  split; intros [= E]; f_equal; by apply lowerByte_dot.
Qed.

Lemma ToLower_TrimSuffix_dot s :
  ascii_string s = true → ToLower (TrimSuffix s ".") = TrimSuffix (ToLower s) ".".
Proof.
  intros Hs. destruct (TrimSuffix_dot_cases s) as [[_ E]|[E ->]].
  - rewrite E in Hs |- *. rewrite TrimSuffix_app. rewrite ascii_string_app in Hs.
    apply andb_true_iff in Hs as [Hs _]. rewrite ToLower_app by done.
    by rewrite (ToLower_ascii "."), TrimSuffix_app.
  - rewrite TrimSuffix_id; [done|]. rewrite HasSuffix_last in *.
    apply bool_decide_eq_false in E. apply bool_decide_eq_false.
    by rewrite ToLower_ascii, last_lower.
Qed.

Lemma FQDN_as_Qualify name zone :
  ascii_string (TrimSpace zone) = true →
  FQDN name zone = Qualify (TrimSpace name) (TrimSuffix (TrimSpace zone) ".").
Proof.
  intros Hz. unfold FQDN, Qualify. rewrite ToLower_TrimSuffix_dot by done.
  unfold IsApex. rewrite HasSuffix_last. by repeat case_bool_decide; repeat case_decide.
Qed.

(** The command line and the backend agree on the RRset a record belongs to:
    [FQDN] is [ownername.Qualify] at the name without surrounding blanks and the
    zone without surrounding blanks and final dot.  [Qualify] itself reads neither
    the blanks nor the dot that way, so it is the trimmed arguments that agree. *)
Theorem FQDN_Qualify name zone :
  ascii_string (TrimSpace zone) = true →
  FQDN name zone = Qualify (TrimSpace name) (TrimSuffix (TrimSpace zone) ".").
Proof. apply FQDN_as_Qualify. Qed.

(** [IsApexIn] recognises exactly the spellings of the apex, whatever the zone:
    [@], the empty name and the absolute name of the zone, up to case and blanks.
    For the empty zone the last one is the root, [.], so the test does not degrade
    to the two literals. *)
Theorem IsApexIn_spec name zone :
  IsApexIn name zone = true ↔
  ToLower (TrimSpace name) = "@" ∨ ToLower (TrimSpace name) = [] ∨
  ToLower (TrimSpace name) = zoneName zone ++ ".".
Proof.
  unfold IsApexIn. rewrite bool_decide_eq_true.
  change (FQDN "@" zone) with (zoneName zone ++ "."). unfold FQDN, IsApex.
  case_bool_decide as Ha; [by split; [intros _|]; destruct Ha; auto|].
  apply Decidable.not_or in Ha as [??].
  destruct (HasSuffix _ _) eqn:Hs; [by split; [auto|intros [?|[?|?]]]|]. split.
  - intros E%(f_equal length). rewrite !length_app in E. cbn in E. lia.
  - intros [?|[?|E]]; [done..|]. by rewrite E, HasSuffix_app in Hs.
Qed.

(** ** Normalised names *)

(** A byte of a normalised name. *)
Definition normByte (c : ascii) : bool := nameByte c && lowerASCII c.

Lemma normByte_plain c : normByte c = true → plainByte c = true.
Proof. bytecases c; done. Qed.

Lemma normByte_fix s : forallb normByte s = true → ToLower (TrimSpace s) = s.
Proof.
  rewrite forallb_Forall. intros Hs. rewrite TrimSpace_fix, ToLower_fix; [done|..];
    apply forallb_Forall; eapply Forall_impl; try done; intros c Hc.
  - by apply andb_true_iff in Hc as [_ ?].
  - by apply normByte_plain.
Qed.

(** A label the owner name rules accept. *)
Definition ownerLabel (l : gostring) : Prop :=
  l ≠ [] ∧ (len l ≤ 63)%Z ∧ (ContainsByte l "*" = true → l = "*").

Lemma checkOwnerLabelsFrom_Ok orig i ls :
  checkOwnerLabelsFrom orig i ls = Ok tt → Forall ownerLabel ls.
Proof.
  revert i. induction ls as [|l ls IH]; intros i; cbn; [by constructor|].
  case_decide; [done|]. destruct (Z.ltb_spec 63 (len l)); [done|].
  intros Hr. constructor.
  - split_and!; [done..|]. intros Hc. rewrite Hc in Hr. by case_bool_decide.
  - destruct (ContainsByte l "*" && _); [done|].
    destruct (ContainsByte l "*" && _); [done|]. eauto.
Qed.

Lemma ownerLabels_last s : Forall ownerLabel (splitByte "." s) → last s ≠ Some "."%char.
Proof.
  intros Hl (t & ->)%last_Some. rewrite splitByte_app in Hl.
  apply Forall_app in Hl as [_ Hl]. cbn in Hl. inversion Hl as [|?? [Hne _]]. done.
Qed.

(** What a successful normalisation has established. *)
Lemma NormalizeName_inv name zone out ws :
  ascii_string name = true →
  NormalizeNameWithWarnings name zone = Ok (out, ws) →
  let lower := ToLower (TrimSpace name) in
  let bare := TrimSuffix lower "." in
  IsApex lower = true ∧ out = "@" ∨
  lower = "." ∧ out = "@" ∨
  IsApex lower = false ∧ forallb normByte lower = true ∧ bare ≠ [] ∧
  checkOwnerLabels name bare = Ok tt ∧
  (HasSuffix lower "." = true ∧
     (out = bare ++ "." ∨ bare = zoneName zone ∧ out = "@" ∨ bare = out ++ "." ++ zoneName zone) ∨
   HasSuffix lower "." = false ∧ out = bare ∧
     (zoneName zone ≠ [] → len bare + 1 + len (zoneName zone) ≤ maxNameLength)%Z).
Proof.
  intros Hn. unfold NormalizeNameWithWarnings. cbn zeta.
  destruct (IsApex _) eqn:Ha; [intros [= <- <-]; by left|].
  destruct (ContainsAny _ _) eqn:Hw; [done|].
  destruct (namePattern _) eqn:Hp; [cbn|done]. intros Hr. right.
  set (lower := ToLower (TrimSpace name)) in *.
  assert (forallb normByte lower = true) as Hnorm.
  { unfold IsApex in Ha. apply bool_decide_eq_false in Ha. unfold namePattern in Hp.
    rewrite bool_decide_eq_false_2 in Hp by tauto. cbn in Hp.
    apply andb_true_iff in Hp as [_ Hp]. unfold normByte.
    rewrite forallb_andb, Hp. by apply ToLower_lowerASCII, TrimSpace_forallb. }
  case_decide as Hb.
  { injection Hr as <- <-. left. split; [|done].
    destruct (TrimSuffix_dot_cases lower) as [[_ E]|[_ E]]; rewrite Hb in E; [done|].
    by rewrite <- E in Ha. }
  destruct (checkOwnerLabels _ _) as [[]|] eqn:Hl; cbn in Hr; [|done]. right.
  split_and!; [done..|]. destruct (HasSuffix lower ".") eqn:Hs; [left|right];
    (split; [done|]); repeat case_decide; simplify_eq; auto.
  - destruct (HasSuffix (TrimSuffix lower ".") _) eqn:Hz;
      injection Hr as <- <-; [right; right|by left].
    apply HasSuffix_spec in Hz as [t ->]. by rewrite TrimSuffix_app.
  - destruct (HasSuffix (TrimSuffix lower ".") _) eqn:Hz; [done|].
    destruct (Z.ltb_spec maxNameLength (len (TrimSuffix lower ".") + 1 + len (zoneName zone)));
      [done|]. by injection Hr as <- <-.
  - by split.
Qed.

Lemma FQDN_norm x zone :
  forallb normByte x = true → IsApex x = false →
  FQDN x zone = if HasSuffix x "." then x else x ++ "." ++ zoneName zone ++ ".".
Proof. intros Hx Ha. unfold FQDN. by rewrite normByte_fix, Ha. Qed.

Lemma checkOwnerLabels_Ok orig bare :
  checkOwnerLabels orig bare = Ok tt →
  (len bare ≤ maxNameLength)%Z ∧ Forall ownerLabel (splitByte "." bare).
Proof.
  unfold checkOwnerLabels. destruct (Z.ltb_spec maxNameLength (len bare)); [done|].
  intros Hl%checkOwnerLabelsFrom_Ok. done.
Qed.

(** The owner labels of [x] are the leading ones of [x.z]. *)
Lemma ownerLabels_prefix x z :
  Forall ownerLabel (splitByte "." (x ++ "." ++ z)) → Forall ownerLabel (splitByte "." x).
Proof. cbn. rewrite splitByte_app. by intros [? _]%Forall_app. Qed.

Lemma relative_not_apex x :
  forallb normByte x = true → Forall ownerLabel (splitByte "." x) →
  IsApex x = false ∧ HasSuffix x "." = false.
Proof.
  intros Hx Hl. rewrite HasSuffix_last. split; apply bool_decide_eq_false.
  - intros [-> | ->]; [done|]. inversion Hl as [|?? [? _]]. done.
  - by apply ownerLabels_last.
Qed.

(** Normalising an owner name never moves the record: the name stored denotes
    the RRset the user's spelling denotes in that zone.  The one exception is the
    root, [.], which is stored as the apex. *)
Theorem NormalizeName_FQDN name zone out ws :
  ascii_string name = true →
  NormalizeNameWithWarnings name zone = Ok (out, ws) →
  if decide (TrimSpace name = ".") then out = "@" else FQDN out zone = FQDN name zone.
Proof.
  intros Hn Hr. apply NormalizeName_inv in Hr; [|done]. cbn zeta in Hr.
  case_decide as Hroot.
  { rewrite Hroot in Hr. destruct Hr as [[_ ->]|[[_ ->]|(_ & _ & [] & _)]]; done. }
  destruct Hr as [[Ha ->]|[[E ->]|(Ha & Hnorm & Hb & Hl & Hr)]].
  { unfold FQDN at 2. by rewrite Ha. }
  { exfalso. apply Hroot. rewrite ToLower_ascii in E by by apply TrimSpace_forallb.
    destruct (TrimSpace name) as [|c [|]]; try done. cbn in E. injection E as E.
    by apply lowerByte_dot in E as ->. }
  unfold FQDN at 2. rewrite Ha.
  destruct (TrimSuffix_dot_cases (ToLower (TrimSpace name))) as [[Hs E]|[Hs E]];
    rewrite Hs in *; [destruct Hr as [[_ Hr]|[? _]]|destruct Hr as [[? _]|[_ [-> _]]]]; try done.
  - destruct Hr as [->|[[Hz ->]|Hz]].
    + by rewrite <- E, FQDN_norm, Hs.
    + by rewrite E, Hz.
    + apply checkOwnerLabels_Ok in Hl as [_ Hl]. rewrite Hz in Hl.
      apply ownerLabels_prefix in Hl. rewrite E, Hz, !forallb_app in Hnorm.
      apply andb_true_iff in Hnorm as [[Ho _]%andb_true_iff _].
      destruct (relative_not_apex out) as [Ha' Hs']; [done..|].
      rewrite FQDN_norm, Hs' by done. rewrite E, Hz. by rewrite <- !app_assoc.
  - by rewrite E, FQDN_norm, Hs.
Qed.

(** A normalised name is one DNS can hold: every label is non-empty, at most 63
    bytes and a wildcard only if it is the label [*]; and the name it denotes in a
    non-empty zone, final dot included, is at most 254 bytes, unless it is the apex
    (whose length is the zone's). *)
Theorem NormalizeName_wf name zone out ws :
  ascii_string name = true →
  NormalizeNameWithWarnings name zone = Ok (out, ws) →
  Forall ownerLabel (splitByte "." (TrimSuffix out ".")) ∧
  (out = "@" ∨ zoneName zone = [] ∨ (len (FQDN out zone) ≤ maxNameLength + 1)%Z).
Proof.
  intros Hn Hr. apply NormalizeName_inv in Hr; [|done]. cbn zeta in Hr.
  assert (Forall ownerLabel (splitByte "." (TrimSuffix "@" "."))) as Hat.
  { apply Forall_singleton. by split_and!. }
  destruct Hr as [[_ ->]|[[_ ->]|(Ha & Hnorm & Hb & [Hlen Hl]%checkOwnerLabels_Ok & Hr)]];
    [by auto..|].
  set (lower := ToLower (TrimSpace name)) in *.
  destruct (TrimSuffix_dot_cases lower) as [[Hs E]|[Hs E]];
    rewrite Hs in *; [destruct Hr as [[_ Hr]|[? _]]|destruct Hr as [[? _]|(_ & -> & Hz)]]; try done.
  - destruct Hr as [->|[[_ ->]|Hz]]; [|by auto|].
    + rewrite TrimSuffix_app. split; [done|]. right; right.
      rewrite <- E, FQDN_norm, Hs by done. rewrite E. unfold len in *.
      rewrite length_app. cbn. lia.
    + rewrite Hz in Hl. apply ownerLabels_prefix in Hl.
      rewrite E, Hz, !forallb_app in Hnorm.
      apply andb_true_iff in Hnorm as [[Ho _]%andb_true_iff _].
      destruct (relative_not_apex out) as [Ha' Hs']; [done..|].
      rewrite TrimSuffix_id by done. split; [done|]. right; right.
      rewrite FQDN_norm, Hs' by done. rewrite Hz in Hlen. unfold len in *.
      rewrite !length_app in *. cbn in *. lia.
  - rewrite E in Hl, Hz |- *. rewrite E. split; [done|]. destruct (decide (zoneName zone = [])); [by auto|].
    right; right. rewrite FQDN_norm, Hs by done. specialize (Hz ltac:(done)).
    unfold len in *. rewrite !length_app. cbn. lia.
Qed.
End NameProperties.

#[local] Existing Instance reference_runtime.

Lemma FQDN_Qualify_witness : FQDN " WWW " "Example.com." = Qualify "WWW" "Example.com".
Proof. apply (FQDN_Qualify " WWW " "Example.com."). reflexivity. Defined.

Lemma NormalizeName_FQDN_witness : FQDN "www" "example.com" = FQDN "WWW.Example.COM." "example.com".
Proof. apply (NormalizeName_FQDN "WWW.Example.COM." "example.com" "www" []); reflexivity. Defined.

Lemma NormalizeName_wf_witness :
  Forall ownerLabel (splitByte "." "*.dev") ∧
  ("*.dev" = "@" ∨ "example.com" = [] ∨
   (len (FQDN "*.dev" "example.com") ≤ maxNameLength + 1)%Z).
Proof. apply (NormalizeName_wf "*.DEV" "example.com" "*.dev" []); reflexivity. Defined.
