(* ===== verification/GoNetip.v ===== *)
(** What the modelled code uses of Go's package [net/netip]: [ParseAddr],
    [Addr.Is4], [Addr.Zone] and [Addr.String].

    An IPv6 address is kept as its eight 16-bit groups where the library keeps 16
    bytes; the position [i] of the byte loop is twice the number of groups. *)

From S2P Require Import Prelude GoStrings.

Inductive Addr :=
| Addr4 (octets : list Z)
| Addr6 (groups : list Z) (zone : gostring).

Definition Is4 (a : Addr) : bool := match a with Addr4 _ => true | Addr6 _ _ => false end.
Definition Zone (a : Addr) : gostring := match a with Addr4 _ => [] | Addr6 _ z => z end.

(** * Parsing *)

(** [parseIPv4Fields]: the octet built so far, its number of digits and the octets
    before it. *)
Fixpoint parseIPv4From (val : Z) (digLen : nat) (fields : list Z) (s : gostring) :
    option (list Z) :=
  match s with
  | [] => if length fields <? 3 then None else Some (fields ++ [val])
  | c :: s' =>
      if isDigit c then
        if (digLen =? 1)%nat && (val =? 0)%Z then None
        else
          let val' := (val * 10 + digitVal c)%Z in
          if (255 <? val')%Z then None else parseIPv4From val' (S digLen) fields s'
      else if Ascii.eqb c "." then
        if (digLen =? 0)%nat || bool_decide (s' = []) then None
        else if (length fields =? 3)%nat then None
        else parseIPv4From 0 0 (fields ++ [val]) s'
      else None
  end.
Definition parseIPv4 (s : gostring) : option Addr := Addr4 <$> parseIPv4From 0 0 [] s.

Definition hexVal (c : ascii) : option Z :=
  if isDigit c then Some (bval c - 48)%Z
  else if (97 <=? bval c)%Z && (bval c <=? 102)%Z then Some (bval c - 87)%Z
  else if (65 <=? bval c)%Z && (bval c <=? 70)%Z then Some (bval c - 55)%Z
  else None.

(** One hexadecimal group: its value, its number of digits and the rest; [None] past
    four digits or 16 bits. *)
Fixpoint hexGroup (off : nat) (acc : Z) (s : gostring) : option (Z * nat * gostring) :=
  match s with
  | c :: s' =>
      match hexVal c with
      | Some d =>
          let acc' := (Z.shiftl acc 4 + d)%Z in
          if (3 <? off)%nat || (65535 <? acc')%Z then None else hexGroup (S off) acc' s'
      | None => Some (acc, off, s)
      end
  | [] => Some (acc, off, [])
  end.

(** The loop of [parseIPv6]: the groups read, where the ellipsis stands and the rest
    of the string when the loop ends.  It reads one group per round and stops at
    eight, so eight is enough fuel and running out is the exit of [i < 16]. *)
Fixpoint parseIPv6From (fuel : nat) (groups : list Z) (ellipsis : option nat) (s : gostring) :
    option (list Z * option nat * gostring) :=
  match fuel with
  | O => Some (groups, ellipsis, s)
  | S fuel' =>
      '(acc, off, rest) ← hexGroup 0 0 s;
      if (off =? 0)%nat then None
      else if bool_decide (head rest = Some "."%char) then
        if bool_decide (ellipsis = None) && negb (length groups =? 6)%nat then None
        else if (6 <? length groups)%nat then None
        else
          octets ← parseIPv4From 0 0 [] s;
          match octets with
          | [a; b; c; d] => Some (groups ++ [a * 256 + b; c * 256 + d]%Z, ellipsis, [])
          | _ => None
          end
      else
        let groups' := groups ++ [acc] in
        match rest with
        | [] => Some (groups', ellipsis, [])
        | c :: rest' =>
            if negb (Ascii.eqb c ":") then None
            else
              match rest' with
              | [] => None
              | d :: rest'' =>
                  if Ascii.eqb d ":" then
                    if bool_decide (is_Some ellipsis) then None
                    else match rest'' with
                         | [] => Some (groups', Some (length groups'), [])
                         | _ => parseIPv6From fuel' groups' (Some (length groups')) rest''
                         end
                  else parseIPv6From fuel' groups' ellipsis rest'
              end
        end
  end.

Definition parseIPv6 (s : gostring) : option Addr :=
  let '(s, zone, found) := cutByte "%" s in
  if found && bool_decide (zone = []) then None
  else
    let leading := HasPrefix s "::" in
    let s := if leading then drop 2 s else s in
    if leading && bool_decide (s = []) then Some (Addr6 (replicate 8 0%Z) zone)
    else
      '(groups, ellipsis, rest) ← parseIPv6From 8 [] (if leading then Some 0 else None) s;
      if decide (rest ≠ []) then None
      else if (length groups <? 8)%nat then
        pos ← ellipsis;
        Some (Addr6 (take pos groups ++ replicate (8 - length groups) 0%Z ++ drop pos groups)
                zone)
      else if bool_decide (is_Some ellipsis) then None
      else Some (Addr6 groups zone).

(** [ParseAddr]: the first of [.], [:] and [%] decides the family. *)
Fixpoint addrFamily (s : gostring) : option ascii :=
  match s with
  | [] => None
  | c :: s' => if ContainsByte ".:%" c then Some c else addrFamily s'
  end.
Definition ParseAddr (s : gostring) : option Addr :=
  match addrFamily s with
  | Some c =>
      if Ascii.eqb c "." then parseIPv4 s
      else if Ascii.eqb c ":" then parseIPv6 s else None
  | None => None
  end.

(** * Printing *)

(** Lower-case hexadecimal without leading zeros; a group has at most four digits. *)
Definition hexDigit (d : Z) : ascii := if (d <? 10)%Z then byte (48 + d) else byte (87 + d).
Fixpoint hexDigits (fuel : nat) (n : Z) (acc : gostring) : gostring :=
  match fuel with
  | O => acc
  | S fuel' =>
      let acc := hexDigit (n mod 16) :: acc in
      if (n <? 16)%Z then acc else hexDigits fuel' (n / 16) acc
  end.
Definition appendHex (n : Z) : gostring := hexDigits 4 n [].

Definition string4 (octets : list Z) : gostring := Join (FormatInt <$> octets) ".".

(** The length of the run of zero groups at the head. *)
Fixpoint zeroRun (groups : list Z) : nat :=
  match groups with
  | g :: groups' => if (g =? 0)%Z then S (zeroRun groups') else 0
  | [] => 0
  end.

(** The first of the longest runs of two or more zero groups: its start and length. *)
Fixpoint longestRun (i : nat) (best : option (nat * nat)) (groups : list Z) :
    option (nat * nat) :=
  match groups with
  | [] => best
  | _ :: groups' =>
      let l := zeroRun groups in
      let best' :=
        if (2 <=? l)%nat && (default 0 (snd <$> best) <? l)%nat then Some (i, l) else best in
      longestRun (S i) best' groups'
  end.

Definition colons (groups : list Z) : gostring := Join (appendHex <$> groups) ":".
Definition string6 (groups : list Z) (zone : gostring) : gostring :=
  (match longestRun 0 None groups with
   | Some (i, l) => colons (take i groups) ++ "::" ++ colons (drop (i + l) groups)
   | None => colons groups
   end) ++ (if decide (zone = []) then [] else "%" ++ zone).

(** [Is4In6]: the prefix [::ffff:0:0/96]. *)
Definition AddrString (a : Addr) : gostring :=
  match a with
  | Addr4 octets => string4 octets
  | Addr6 groups zone =>
      match groups with
      | [0; 0; 0; 0; 0; 65535; g; h]%Z =>
          "::ffff:" ++ string4 [g / 256; g mod 256; h / 256; h mod 256]%Z
          ++ (if decide (zone = []) then [] else "%" ++ zone)
      | _ => string6 groups zone
      end
  end.

(** * Lemmas *)

(** A byte of an address without a zone. *)
Definition addrByte (c : ascii) : bool :=
  bool_decide (is_Some (hexVal c)) || ContainsByte ".:" c.

Lemma parseIPv4From_bytes val digLen fields s l :
  parseIPv4From val digLen fields s = Some l → forallb addrByte s = true.
Proof.
  revert val digLen fields. induction s as [|c s IH]; intros val digLen fields; [done|].
  cbn [parseIPv4From forallb]. destruct (isDigit c) eqn:Hd.
  - assert (addrByte c = true) as -> by (by bytecases c). do 2 (case_match; [done|]). apply IH.
  - destruct (Ascii.eqb_spec c ".") as [-> |]; [|done]. do 2 (case_match; [done|]). apply IH.
Qed.

Lemma hexGroup_bytes off acc s v n rest :
  hexGroup off acc s = Some (v, n, rest) →
  ∃ pre, s = pre ++ rest ∧ forallb addrByte pre = true.
Proof.
  revert off acc. induction s as [|c s IH]; intros off acc; cbn [hexGroup].
  { intros [= <- <- <-]. by exists []. }
  destruct (hexVal c) as [d|] eqn:Hc.
  - case_match; [done|]. intros (pre & -> & Hp)%IH. exists (c :: pre). split; [done|].
    cbn. rewrite Hp. unfold addrByte. by rewrite Hc.
  - intros [= <- <- <-]. by exists [].
Qed.

Lemma parseIPv6From_bytes fuel groups ell s gs ell' :
  parseIPv6From fuel groups ell s = Some (gs, ell', []) → forallb addrByte s = true.
Proof.
  revert groups ell s. induction fuel as [|fuel IH]; intros groups ell s; cbn [parseIPv6From].
  { by intros [= <- <- ->]. }
  intros ([[acc off] rest] & Hg & Hr)%bind_Some. case_match; [done|].
  case_bool_decide as Hdot.
  { do 2 (case_match; [done|]). apply bind_Some in Hr as (l & Hl & _).
    by eapply parseIPv4From_bytes. }
  apply hexGroup_bytes in Hg as (pre & -> & Hp). rewrite forallb_app, Hp. cbn [andb].
  destruct rest as [|c rest]; [done|]. cbn [forallb].
  destruct (Ascii.eqb_spec c ":") as [-> |]; [|done]. cbn [negb] in Hr. change (addrByte ":") with true.
  destruct rest as [|d rest]; [done|]. destruct (Ascii.eqb_spec d ":") as [-> |].
  - case_bool_decide; [done|]. cbn [forallb]. change (addrByte ":") with true.
    destruct rest as [|? rest]; [done|]. by apply IH in Hr.
  - by apply IH in Hr.
Qed.

Lemma cutByte_spec sep s a b found :
  cutByte sep s = (a, b, found) → s = if found then a ++ sep :: b else a.
Proof.
  revert a b found. induction s as [|c s IH]; intros a b found; cbn; [by intros [= <- <- <-]|].
  destruct (Ascii.eqb_spec c sep) as [-> |]; [by intros [= <- <- <-]|].
  destruct (cutByte sep s) as [[a' b'] f']. intros [= <- <- <-].
  rewrite (IH _ _ _ eq_refl). by destruct f'.
Qed.

(** An address without a zone is written with hexadecimal digits, dots and colons. *)
Lemma ParseAddr_bytes s a :
  ParseAddr s = Some a → Zone a = [] → s ≠ [] ∧ forallb addrByte s = true.
Proof.
  intros Ha Hz. split; [by intros ->|]. unfold ParseAddr in Ha.
  destruct (addrFamily s) as [c|]; [|done]. case_match.
  { unfold parseIPv4 in Ha. apply fmap_Some in Ha as (l & Hl & _). by eapply parseIPv4From_bytes. }
  case_match; [|done]. unfold parseIPv6 in Ha.
  destruct (cutByte "%" s) as [[s0 zone] found] eqn:Hc. apply cutByte_spec in Hc.
  destruct (found && bool_decide (zone = [])) eqn:Hf; [done|].
  assert (∀ z, Some a = Some (Addr6 z zone) → found = false) as Hfound.
  { intros z [= ->]. cbn in Hz. subst zone. by destruct found. }
  assert (forallb addrByte s0 = forallb addrByte (if HasPrefix s0 "::" then drop 2 s0 else s0))
    as Hs0.
  { destruct (HasPrefix s0 "::") eqn:E; [|done]. apply HasPrefix_spec in E as [t ->]. done. }
  cbn zeta in Ha. set (s1 := if HasPrefix s0 "::" then drop 2 s0 else s0) in *.
  destruct (HasPrefix s0 "::" && bool_decide (s1 = [])) eqn:Hlead.
  - rewrite (Hfound _ (eq_sym Ha)) in Hc. subst s. rewrite Hs0.
    apply andb_true_iff in Hlead as [_ Hn%bool_decide_eq_true]. by rewrite Hn.
  - apply bind_Some in Ha as ([[gs ell] rest] & Hp & Hr).
    destruct (decide (rest ≠ [])) as [|Hrest]; [done|]. apply dec_stable in Hrest as ->.
    apply parseIPv6From_bytes in Hp.
    assert (∃ z, Some a = Some (Addr6 z zone)) as [z Hz'].
    { case_match; [apply bind_Some in Hr as (? & _ & <-); by eexists|].
      case_match; [done|]. rewrite <- Hr. by eexists. }
    rewrite (Hfound z Hz') in Hc. subst s. by rewrite Hs0.
Qed.
