(* ===== verification/GoNetipPrefix.v ===== *)
(** More of Go's package [net/netip]: that [Addr.String] and [ParseAddr] are inverse, and
    prefixes ([ParsePrefix], [Masked], [Contains]), [Unmap], [IsGlobalUnicast] and
    [AddrFrom16]. *)

From S2P Require Import Prelude GoStrings GoNetip.

#[global] Instance Addr_eq_dec : EqDecision Addr.
Proof. solve_decision. Defined.

(** * Printing and parsing *)

Definition wf_Addr (a : Addr) : Prop :=
  match a with
  | Addr4 os => length os = 4 ∧ Forall (λ n, 0 ≤ n < 256)%Z os
  | Addr6 gs zone => length gs = 8 ∧ Forall (λ n, 0 ≤ n < 65536)%Z gs ∧ zone = []
  end.

(** ** IPv4 *)

(** Every octet, one by one. *)
Lemma octet_cases (P : Z → Prop) : Forall P (seqZ 0 256) → ∀ a, (0 ≤ a < 256)%Z → P a.
Proof. intros Hall a Ha. rewrite Forall_forall in Hall. apply Hall, elem_of_seqZ. lia. Qed.

Lemma parseIPv4From_octet a : (0 ≤ a < 256)%Z → ∀ fields rest,
  parseIPv4From 0 0 fields (FormatInt a ++ rest)
  = parseIPv4From a (length (FormatInt a)) fields rest.
Proof.
  revert a. refine (octet_cases (λ a, ∀ fields rest, parseIPv4From 0 0 fields (FormatInt a ++ rest)
    = parseIPv4From a (length (FormatInt a)) fields rest) _).
  let l := eval vm_compute in (seqZ 0 256) in change (seqZ 0 256) with l.
  repeat (apply Forall_cons_2; [intros fields rest; reflexivity|]). apply Forall_nil_2.
Qed.

Lemma parseIPv4From_dot a n fields rest :
  n ≠ 0 → rest ≠ [] → length fields < 3 →
  parseIPv4From a n fields ("." ++ rest) = parseIPv4From 0 0 (fields ++ [a]) rest.
Proof.
  intros Hn Hr Hf. cbn [app parseIPv4From isDigit]. change (isDigit ".") with false.
  change (Ascii.eqb "." ".") with true. cbn match.
  rewrite (proj2 (Nat.eqb_neq n 0)) by done. rewrite bool_decide_eq_false_2 by done.
  by rewrite (proj2 (Nat.eqb_neq (length fields) 3)) by lia.
Qed.

Lemma parseIPv4From_string4 a b c d :
  Forall (λ n, 0 ≤ n < 256)%Z [a; b; c; d] →
  parseIPv4From 0 0 [] (string4 [a; b; c; d]) = Some [a; b; c; d].
Proof.
  rewrite !Forall_cons. intros (Ha & Hb & Hc & Hd & _).
  assert (∀ n, (0 ≤ n < 256)%Z → FormatInt n ≠ []) as Hne by (intros; apply FormatInt_digits; lia).
  assert (∀ n, (0 ≤ n < 256)%Z → length (FormatInt n) ≠ 0) as Hl.
  { intros n Hn. specialize (Hne n Hn). by destruct (FormatInt n). }
  unfold string4. cbn [fmap list_fmap Join].
  rewrite parseIPv4From_octet by done.
  rewrite parseIPv4From_dot; [|by apply Hl|intros [E _]%app_nil; revert E; by apply Hne|cbn; lia].
  rewrite parseIPv4From_octet by done.
  rewrite parseIPv4From_dot; [|by apply Hl|intros [E _]%app_nil; revert E; by apply Hne|cbn; lia].
  rewrite parseIPv4From_octet by done.
  rewrite parseIPv4From_dot; [|by apply Hl|by apply Hne|cbn; lia].
  rewrite <- (app_nil_r (FormatInt d)), parseIPv4From_octet by done. done.
Qed.

(** ** Groups of IPv6 *)

Lemma hexVal_hexDigit d : (0 ≤ d < 16)%Z → hexVal (hexDigit d) = Some d.
Proof.
  intros Hd. assert (∃ i, (i < 16)%nat ∧ d = Z.of_nat i) as (i & Hi & ->) by (exists (Z.to_nat d); lia).
  do 16 (destruct i as [|i]; [reflexivity|]). lia.
Qed.

(** The digits of a group, by their number. *)
Lemma appendHex_cases g :
  (0 ≤ g < 65536)%Z →
  ∃ d ds, appendHex g = hexDigit <$> d :: ds ∧ Forall (λ d, 0 ≤ d < 16)%Z (d :: ds)
    ∧ length ds ≤ 3 ∧ foldl (λ acc d, acc * 16 + d)%Z 0%Z (d :: ds) = g.
Proof.
  intros Hg. unfold appendHex. cbn [hexDigits].
  pose proof (Z.mod_pos_bound g 16 ltac:(lia)). pose proof (Z.mod_pos_bound (g / 16) 16 ltac:(lia)).
  pose proof (Z.mod_pos_bound (g / 16 / 16) 16 ltac:(lia)).
  pose proof (Z.mod_pos_bound (g / 16 / 16 / 16) 16 ltac:(lia)).
  destruct (Z.ltb_spec g 16); [|destruct (Z.ltb_spec (g / 16) 16);
    [|destruct (Z.ltb_spec (g / 16 / 16) 16); [|destruct (Z.ltb_spec (g / 16 / 16 / 16) 16)]]].
  - exists (g mod 16)%Z, []. split_and!; [done|by rewrite !Forall_cons, Forall_nil|cbn; lia|].
    cbn. Z.to_euclidean_division_equations. lia.
  - exists (g / 16 mod 16)%Z, [g mod 16]%Z. split_and!; [done|by rewrite !Forall_cons, Forall_nil|cbn; lia|].
    cbn. Z.to_euclidean_division_equations. lia.
  - exists (g / 16 / 16 mod 16)%Z, [g / 16 mod 16; g mod 16]%Z.
    split_and!; [done|by rewrite !Forall_cons, Forall_nil|cbn; lia|].
    cbn. Z.to_euclidean_division_equations. lia.
  - exists (g / 16 / 16 / 16 mod 16)%Z, [g / 16 / 16 mod 16; g / 16 mod 16; g mod 16]%Z.
    split_and!; [done|by rewrite !Forall_cons, Forall_nil|cbn; lia|].
    cbn. Z.to_euclidean_division_equations. lia.
  - exfalso. Z.to_euclidean_division_equations. lia.
Qed.

Definition ends (rest : gostring) : Prop := match rest with [] => True | c :: _ => hexVal c = None end.

Lemma hexGroup_digits ds rest off acc :
  Forall (λ d, 0 ≤ d < 16)%Z ds → (0 ≤ acc)%Z → (off + length ds ≤ 4) → ends rest →
  (foldl (λ acc d, acc * 16 + d) acc ds < 65536)%Z →
  hexGroup off acc ((hexDigit <$> ds) ++ rest)
  = Some (foldl (λ acc d, acc * 16 + d)%Z acc ds, off + length ds, rest).
Proof.
  revert off acc. induction ds as [|d ds IH]; intros off acc Hds Hacc Hoff Hr Hlt.
  - cbn. rewrite Nat.add_0_r. destruct rest as [|c rest]; [done|]. cbn in *. by rewrite Hr.
  - apply Forall_cons in Hds as [Hd Hds]. cbn in Hoff, Hlt. cbn [fmap list_fmap app hexGroup].
    rewrite hexVal_hexDigit by done. rewrite Z.shiftl_mul_pow2 by lia. change (2 ^ 4)%Z with 16%Z.
    assert (acc * 16 + d < 65536)%Z as Hle.
    { eapply Z.le_lt_trans; [|exact Hlt]. clear -Hds Hacc Hd. revert Hds.
      assert (0 ≤ acc * 16 + d)%Z as Hpos by lia. revert Hpos. generalize (acc * 16 + d)%Z.
      clear. induction ds as [|e ds IH]; intros x Hx Hds; [cbn; lia|].
      apply Forall_cons in Hds as [He Hds]. cbn. etrans; [|apply IH; [lia|done]]. lia. }
    replace (3 <? off)%nat with false by (symmetry; apply Nat.ltb_ge; lia).
    replace (65535 <? acc * 16 + d)%Z with false by lia. cbn [orb].
    rewrite IH; [|done|lia|lia|done|done]. cbn. do 2 f_equal. f_equal. lia.
Qed.

Lemma hexGroup_appendHex g rest :
  (0 ≤ g < 65536)%Z → ends rest →
  ∃ off, hexGroup 0 0 (appendHex g ++ rest) = Some (g, S off, rest).
Proof.
  intros Hg Hr. destruct (appendHex_cases g Hg) as (d & ds & -> & Hds & Hl & Hv).
  exists (length ds). rewrite hexGroup_digits; [by rewrite Hv|done|lia|cbn; lia|done|].
  rewrite Hv. lia.
Qed.

Definition group (g : Z) : Prop := (0 ≤ g < 65536)%Z.

Lemma appendHex_head g : group g → ∃ c t, appendHex g = c :: t ∧ is_Some (hexVal c).
Proof.
  intros Hg. destruct (appendHex_cases g Hg) as (d & ds & -> & Hds & _).
  apply Forall_cons in Hds as [Hd _]. eexists _, _. split; [done|]. by rewrite hexVal_hexDigit.
Qed.

Lemma hexVal_sep c : is_Some (hexVal c) → Ascii.eqb c ":" = false ∧ Ascii.eqb c "." = false ∧ Ascii.eqb c "%" = false.
Proof. intros [d Hd]. revert Hd. bytecases c; done. Qed.

Lemma round_end fuel groups ell g :
  group g → parseIPv6From (S fuel) groups ell (appendHex g) = Some (groups ++ [g], ell, []).
Proof.
  intros Hg. cbn [parseIPv6From]. destruct (hexGroup_appendHex g [] Hg I) as [off Hoff].
  rewrite app_nil_r in Hoff. rewrite Hoff. cbn. by rewrite bool_decide_eq_false_2.
Qed.

Lemma round_more fuel groups ell g c t :
  group g → is_Some (hexVal c) →
  parseIPv6From (S fuel) groups ell (appendHex g ++ ":" ++ c :: t)
  = parseIPv6From fuel (groups ++ [g]) ell (c :: t).
Proof.
  intros Hg Hc. cbn [parseIPv6From].
  destruct (hexGroup_appendHex g (":" ++ c :: t) Hg) as [off Hoff]; [done|]. rewrite Hoff.
  cbn [mbind option_bind Nat.eqb app head]. rewrite bool_decide_eq_false_2 by done.
  cbn [Ascii.eqb Bool.eqb negb]. destruct (hexVal_sep c Hc) as (-> & _). done.
Qed.

Lemma round_ellipsis fuel groups g rest :
  group g →
  parseIPv6From (S fuel) groups None (appendHex g ++ "::" ++ rest)
  = match rest with
    | [] => Some (groups ++ [g], Some (length (groups ++ [g])), [])
    | _ => parseIPv6From fuel (groups ++ [g]) (Some (length (groups ++ [g]))) rest
    end.
Proof.
  intros Hg. cbn [parseIPv6From].
  destruct (hexGroup_appendHex g ("::" ++ rest) Hg) as [off Hoff]; [done|]. rewrite Hoff.
  cbn [mbind option_bind Nat.eqb app head]. rewrite bool_decide_eq_false_2 by done.
  cbn [Ascii.eqb Bool.eqb negb]. by rewrite bool_decide_eq_false_2 by (by intros []).
Qed.

Lemma colons_cons g h gs : colons (g :: h :: gs) = appendHex g ++ ":" ++ colons (h :: gs).
Proof. done. Qed.

Lemma colons_head g gs : group g → ∃ c t, colons (g :: gs) = c :: t ∧ is_Some (hexVal c).
Proof.
  intros Hg. destruct (appendHex_head g Hg) as (c & t & Ht & Hc). destruct gs as [|h gs].
  - exists c, t. done.
  - rewrite colons_cons, Ht. by eexists _, _.
Qed.

Lemma parse_colons fuel groups ell g gs :
  Forall group (g :: gs) → length gs < fuel →
  parseIPv6From fuel groups ell (colons (g :: gs)) = Some (groups ++ g :: gs, ell, []).
Proof.
  revert fuel groups g. induction gs as [|h gs IH]; intros [|fuel] groups g Hgs Hf; cbn in Hf; try lia;
    apply Forall_cons in Hgs as [Hg Hgs].
  - apply round_end. done.
  - rewrite colons_cons. destruct (colons_head h gs) as (c & t & Ht & Hc); [by inversion Hgs|].
    rewrite Ht, round_more by done. rewrite <- Ht, IH by (done || lia). by rewrite <- app_assoc.
Qed.

Lemma parse_colons_ellipsis fuel groups g gs rest :
  Forall group (g :: gs) → length gs < fuel →
  parseIPv6From fuel groups None (colons (g :: gs) ++ "::" ++ rest)
  = match rest with
    | [] => Some (groups ++ g :: gs, Some (length (groups ++ g :: gs)), [])
    | _ => parseIPv6From (fuel - S (length gs)) (groups ++ g :: gs)
             (Some (length (groups ++ g :: gs))) rest
    end.
Proof.
  revert fuel groups g. induction gs as [|h gs IH]; intros [|fuel] groups g Hgs Hf; cbn in Hf; try lia;
    apply Forall_cons in Hgs as [Hg Hgs].
  - change (colons [g]) with (appendHex g). rewrite round_ellipsis by done. cbn [length Nat.sub]. by rewrite Nat.sub_0_r.
  - rewrite colons_cons, <- !app_assoc.
    destruct (colons_head h gs) as (c & t & Ht & Hc); [by inversion Hgs|].
    rewrite Ht. change ((c :: t) ++ "::" ++ rest) with (c :: (t ++ "::" ++ rest)).
    rewrite round_more by done. change (c :: t ++ "::" ++ rest) with ((c :: t) ++ "::" ++ rest).
    rewrite <- Ht, IH by (done || lia). rewrite <- !app_assoc. done.
Qed.

(** The run of zeros that is left out. *)
Lemma zeroRun_take gs : take (zeroRun gs) gs = replicate (zeroRun gs) 0%Z ∧ zeroRun gs ≤ length gs.
Proof.
  induction gs as [|g gs [IH Hl]]; cbn; [done|]. destruct (Z.eqb_spec g 0) as [->|]; cbn; [|split; [done|lia]].
  rewrite IH. split; [done|lia].
Qed.

Lemma longestRun_spec start best gs all i l :
  drop start all = gs →
  (∀ i l, best = Some (i, l) → take l (drop i all) = replicate l 0%Z ∧ 2 ≤ l ∧ i + l ≤ length all) →
  longestRun start best gs = Some (i, l) →
  take l (drop i all) = replicate l 0%Z ∧ 2 ≤ l ∧ i + l ≤ length all.
Proof.
  revert start best. induction gs as [|g gs IH]; intros start best Hd Hb; cbn [longestRun]; [by apply Hb|].
  apply IH.
  - replace (S start) with (start + 1) by lia. by rewrite <- drop_drop, Hd.
  - intros i' l'. destruct (_ && _) eqn:Hc; [|by apply Hb]. intros [= <- <-].
    apply andb_true_iff in Hc as [Hc _]. apply Nat.leb_le in Hc. rewrite Hd.
    destruct (zeroRun_take (g :: gs)) as [Ht Hl]. split_and!; [done|done|].
    assert (length (drop start all) = length (g :: gs)) as He by by rewrite Hd.
    rewrite length_drop in He. cbn in He. cbn in Hl. cbn. lia.
Qed.

(** *** The whole address *)

Lemma cutByte_none sep s : ContainsByte s sep = false → cutByte sep s = (s, [], false).
Proof.
  unfold ContainsByte. induction s as [|c s IH]; [done|]. cbn. rewrite Ascii.eqb_sym.
  destruct (Ascii.eqb c sep); [done|]. intros Hs. by rewrite IH.
Qed.

Lemma ContainsByte_app s t c : ContainsByte (s ++ t) c = ContainsByte s c || ContainsByte t c.
Proof. apply existsb_app. Qed.

Lemma appendHex_percent g : group g → ContainsByte (appendHex g) "%" = false.
Proof.
  intros Hg. destruct (appendHex_cases g Hg) as (d & ds & -> & Hds & _).
  induction Hds as [|e es He _ IH]; [done|]. cbn [fmap list_fmap]. unfold ContainsByte in *.
  cbn [existsb]. rewrite IH, orb_false_r, Ascii.eqb_sym. apply hexVal_sep. by rewrite hexVal_hexDigit.
Qed.

Lemma colons_percent gs : Forall group gs → ContainsByte (colons gs) "%" = false.
Proof.
  induction gs as [|g [|h gs] IH]; intros Hgs; [done| |]; apply Forall_cons in Hgs as [Hg Hgs].
  - by apply appendHex_percent.
  - rewrite colons_cons, !ContainsByte_app, appendHex_percent, IH by done. done.
Qed.

Lemma addrFamily_hex s c t : Forall (λ c, is_Some (hexVal c)) s → ContainsByte ".:%" c = true → addrFamily (s ++ c :: t) = Some c.
Proof.
  intros Hs Hc. induction Hs as [|d s Hd _ IH]; cbn [app addrFamily]; [by rewrite Hc|].
  destruct (hexVal_sep d Hd) as (H1 & H2 & H3). cbn. by rewrite H1, H2, H3, IH.
Qed.

Lemma appendHex_digits g : group g → Forall (λ c, is_Some (hexVal c)) (appendHex g).
Proof.
  intros Hg. destruct (appendHex_cases g Hg) as (d & ds & -> & Hds & _). apply Forall_fmap.
  eapply Forall_impl; [exact Hds|]. intros e He. cbn. by rewrite hexVal_hexDigit.
Qed.

(** An address that starts with a group is IPv6. *)
Lemma addrFamily_colons g t : group g → addrFamily (appendHex g ++ ":" ++ t) = Some ":"%char.
Proof. intros Hg. apply addrFamily_hex; [by apply appendHex_digits|done]. Qed.

Lemma HasPrefix_hex c s : is_Some (hexVal c) → HasPrefix (c :: s) "::" = false.
Proof.
  intros Hc. apply bool_decide_eq_false_2. cbn. destruct (hexVal_sep c Hc) as (Hne & _).
  intros [= -> _]. by rewrite Ascii.eqb_refl in Hne.
Qed.

(** [parseIPv6] once the zone is cut off and a leading ellipsis is seen to be absent. *)
Lemma parseIPv6_plain s c t :
  s = c :: t → is_Some (hexVal c) → ContainsByte s "%" = false →
  parseIPv6 s =
  ('(groups, ellipsis, rest) ← parseIPv6From 8 [] None s;
   if decide (rest ≠ []) then None
   else if (length groups <? 8)%nat then
     pos ← ellipsis;
     Some (Addr6 (take pos groups ++ replicate (8 - length groups) 0%Z ++ drop pos groups) [])
   else if bool_decide (is_Some ellipsis) then None
   else Some (Addr6 groups [])).
Proof.
  intros Hs Hc Hp. unfold parseIPv6. rewrite cutByte_none by done. cbn [andb].
  rewrite Hs, HasPrefix_hex by done. done.
Qed.

Lemma parseIPv6_leading s :
  s ≠ [] → ContainsByte s "%" = false →
  parseIPv6 ("::" ++ s) =
  ('(groups, ellipsis, rest) ← parseIPv6From 8 [] (Some 0) s;
   if decide (rest ≠ []) then None
   else if (length groups <? 8)%nat then
     pos ← ellipsis;
     Some (Addr6 (take pos groups ++ replicate (8 - length groups) 0%Z ++ drop pos groups) [])
   else if bool_decide (is_Some ellipsis) then None
   else Some (Addr6 groups [])).
Proof.
  intros Hs Hp. unfold parseIPv6. rewrite cutByte_none by done. cbn [andb].
  change (HasPrefix ("::" ++ s) "::") with (bool_decide (":"%char :: ":"%char :: take 0 s = "::")).
  rewrite bool_decide_eq_true_2 by done. cbn [andb drop app]. by rewrite bool_decide_eq_false_2.
Qed.

Lemma not_nonempty {A} (l : list A) : l = [] → ¬ l ≠ [].
Proof. intros -> H. by apply H. Qed.

Lemma parse_leading l post :
  l + length post = 8 → 2 ≤ l → Forall group post →
  ParseAddr ("::" ++ colons post) = Some (Addr6 (replicate l 0%Z ++ post) []).
Proof.
  intros Hl H2 Hd. unfold ParseAddr.
  change (addrFamily ("::" ++ colons post)) with (Some ":"%char). cbn [Ascii.eqb Bool.eqb].
  destruct post as [|h post].
  { cbn in Hl. assert (l = 8) as -> by lia. done. }
  destruct (colons_head h post) as (c & t & Hct & Hc); [by inversion Hd|].
  rewrite parseIPv6_leading; [|by rewrite Hct|by apply colons_percent]. cbn [length] in Hl.
  rewrite parse_colons by (done || lia). cbn [mbind option_bind app].
  rewrite decide_False by (by apply not_nonempty). cbn [length].
  rewrite (proj2 (Nat.ltb_lt _ 8)) by lia. cbn [mbind option_bind take drop app].
  by replace (8 - S (length post)) with l by lia.
Qed.

Lemma parse_middle g pre l post :
  S (length pre) + l + length post = 8 → 2 ≤ l → Forall group (g :: pre) → Forall group post →
  ParseAddr (colons (g :: pre) ++ "::" ++ colons post)
  = Some (Addr6 ((g :: pre) ++ replicate l 0%Z ++ post) []).
Proof.
  intros Hl H2 Ht Hd. unfold ParseAddr.
  destruct (colons_head g pre) as (c & t & Hct & Hc); [by inversion Ht|].
  assert (addrFamily (colons (g :: pre) ++ "::" ++ colons post) = Some ":"%char) as ->.
  { destruct pre; [|rewrite colons_cons, <- !app_assoc]; apply addrFamily_colons; by inversion Ht. }
  cbn [Ascii.eqb Bool.eqb]. rewrite (parseIPv6_plain _ c (t ++ "::" ++ colons post));
    [|by rewrite Hct|done|by rewrite !ContainsByte_app, !colons_percent].
  rewrite parse_colons_ellipsis by (done || lia). destruct post as [|h post].
  - change (colons []) with ([] : gostring). cbn [mbind option_bind app length] in *.
    rewrite decide_False by (by apply not_nonempty). rewrite (proj2 (Nat.ltb_lt _ 8)) by lia.
    cbn [mbind option_bind]. rewrite (take_ge (g :: pre)), (drop_ge (g :: pre)) by (cbn; lia).
    by replace (8 - S (length pre)) with l by lia.
  - destruct (colons_head h post) as (c' & t' & Hct' & Hc'); [by inversion Hd|].
    assert (∀ o, match colons (h :: post) with [] => o
      | _ => parseIPv6From (8 - S (length pre)) ([] ++ g :: pre) (Some (length ([] ++ g :: pre))) (colons (h :: post))
      end = Some (([] ++ g :: pre) ++ h :: post, Some (length (g :: pre)), [])) as ->.
    { intros o. rewrite Hct'. rewrite <- Hct'. apply parse_colons; [done|cbn in Hl; lia]. }
    cbn [mbind option_bind]. rewrite decide_False by (by apply not_nonempty).
    cbn [app]. change (g :: pre ++ h :: post) with ((g :: pre) ++ h :: post).
    rewrite (proj2 (Nat.ltb_lt _ 8)) by (rewrite length_app; cbn in *; lia).
    cbn [mbind option_bind]. rewrite take_app_length, drop_app_length.
    replace (8 - length ((g :: pre) ++ h :: post)) with l by (rewrite length_app; cbn in *; lia). done.
Qed.

Lemma parse_full gs :
  length gs = 8 → Forall group gs → ParseAddr (colons gs) = Some (Addr6 gs []).
Proof.
  intros Hl Hgs. destruct gs as [|g gs]; [done|]. unfold ParseAddr.
  destruct (colons_head g gs) as (c & t & Hct & Hc); [by inversion Hgs|].
  assert (addrFamily (colons (g :: gs)) = Some ":"%char) as ->.
  { destruct gs; [done|]. rewrite colons_cons. apply addrFamily_colons. by inversion Hgs. }
  cbn [Ascii.eqb Bool.eqb]. rewrite (parseIPv6_plain _ c t); [|done|done|by apply colons_percent].
  rewrite parse_colons by (done || (cbn in Hl; lia)). cbn [mbind option_bind app].
  rewrite decide_False by (by apply not_nonempty). rewrite Hl. done.
Qed.

Lemma string6_parse gs :
  length gs = 8 → Forall group gs → ParseAddr (string6 gs []) = Some (Addr6 gs []).
Proof.
  intros Hl Hgs. unfold string6. rewrite decide_True by done. rewrite app_nil_r.
  destruct (longestRun 0 None gs) as [[i l]|] eqn:Hrun; [|by apply parse_full].
  destruct (longestRun_spec 0 None gs gs i l) as (Hz & H2 & Hil); [done|done|done|].
  assert (gs = take i gs ++ replicate l 0%Z ++ drop (i + l) gs) as Hsplit.
  { rewrite <- Hz, <- drop_drop, take_drop. by rewrite take_drop. }
  assert (length (take i gs) = i) as Hli by (rewrite length_take; lia).
  assert (length (drop (i + l) gs) = 8 - (i + l)) as Hlr by (rewrite length_drop; lia).
  assert (Forall group (take i gs)) as Ht by by apply Forall_take.
  assert (Forall group (drop (i + l) gs)) as Hd by by apply Forall_drop.
  rewrite Hsplit at 3. revert Hli Hlr Ht Hd. generalize (take i gs) (drop (i + l) gs).
  intros [|g pre] post Hli Hlr Ht Hd.
  - apply parse_leading; [cbn in Hli; lia|done|done].
  - apply parse_middle; [cbn in Hli; lia|done..].
Qed.

(** *** IPv4 and IPv4 in IPv6 *)

Lemma hexGroup_octet a : (0 ≤ a < 256)%Z → ∀ rest,
  ∃ v off, hexGroup 0 0 (FormatInt a ++ "." ++ rest) = Some (v, S off, "." ++ rest).
Proof.
  revert a. refine (octet_cases (λ a, ∀ rest, ∃ v off,
    hexGroup 0 0 (FormatInt a ++ "." ++ rest) = Some (v, S off, "." ++ rest)) _).
  let l := eval vm_compute in (seqZ 0 256) in change (seqZ 0 256) with l.
  repeat (apply Forall_cons_2; [intros rest; eexists _, _; reflexivity|]). apply Forall_nil_2.
Qed.

Lemma string4_cons a os : os ≠ [] → string4 (a :: os) = FormatInt a ++ "." ++ string4 os.
Proof. intros Ho. unfold string4. rewrite fmap_cons, Join_cons; [done|]. by destruct os. Qed.

Lemma FormatInt_hex a : (0 ≤ a)%Z → Forall (λ c, is_Some (hexVal c)) (FormatInt a).
Proof.
  intros Ha. destruct (FormatInt_digits a Ha) as [Hd _]. apply forallb_Forall in Hd.
  eapply Forall_impl; [exact Hd|]. intros c Hc. unfold hexVal. rewrite Hc. by eexists.
Qed.

Lemma string4_parse os :
  length os = 4 → Forall (λ n, 0 ≤ n < 256)%Z os → ParseAddr (string4 os) = Some (Addr4 os).
Proof.
  destruct os as [|a [|b [|c [|d []]]]]; try done. intros _ Ho. unfold ParseAddr.
  assert (addrFamily (string4 [a; b; c; d]) = Some "."%char) as ->.
  { rewrite string4_cons by done. apply addrFamily_hex; [|done]. apply FormatInt_hex.
    apply Forall_cons in Ho as [? _]. lia. }
  cbn [Ascii.eqb Bool.eqb]. unfold parseIPv4. by rewrite parseIPv4From_string4.
Qed.

Lemma string4_percent os : Forall (λ n, 0 ≤ n < 256)%Z os → ContainsByte (string4 os) "%" = false.
Proof.
  assert (∀ a, (0 ≤ a < 256)%Z → ContainsByte (FormatInt a) "%" = false) as Ha.
  { intros a Ha. assert (0 ≤ a)%Z as Hhex%FormatInt_hex by lia. induction Hhex as [|c s Hc _ IH]; [done|].
    unfold ContainsByte in *. cbn [existsb]. rewrite IH, orb_false_r, Ascii.eqb_sym. by apply hexVal_sep. }
  induction os as [|a [|b os] IH]; intros Ho; [done| |]; apply Forall_cons in Ho as [Hb Ho].
  - by apply Ha.
  - rewrite string4_cons by done. rewrite !ContainsByte_app, Ha, IH by done. done.
Qed.

Lemma mapped_parse g h :
  group g → group h →
  ParseAddr ("::ffff:" ++ string4 [g / 256; g mod 256; h / 256; h mod 256]%Z)
  = Some (Addr6 [0; 0; 0; 0; 0; 65535; g; h]%Z []).
Proof.
  intros Hg Hh. set (os := [g / 256; g mod 256; h / 256; h mod 256]%Z).
  assert (Forall (λ n, 0 ≤ n < 256)%Z os) as Ho.
  { unfold group in *. unfold os. rewrite !Forall_cons, Forall_nil. split_and!; try done;
      Z.to_euclidean_division_equations; lia. }
  unfold ParseAddr. change (addrFamily ("::ffff:" ++ string4 os)) with (Some ":"%char).
  cbn [Ascii.eqb Bool.eqb]. change ("::ffff:" ++ string4 os) with ("::" ++ "ffff:" ++ string4 os).
  rewrite parseIPv6_leading; [|done|by rewrite ContainsByte_app, string4_percent].
  assert (string4 os = FormatInt (g / 256) ++ "." ++ string4 [g mod 256; h / 256; h mod 256]%Z) as Hos by done.
  assert (∃ c t, string4 os = c :: t ∧ is_Some (hexVal c)) as (c & t & Hct & Hc).
  { assert (0 ≤ g / 256)%Z as Hge by (apply Forall_cons in Ho; lia).
    destruct (FormatInt_digits _ Hge) as [_ Hne]. pose proof (FormatInt_hex _ Hge) as Hhex.
    rewrite Hos. destruct (FormatInt (g / 256)) as [|c t]; [done|]. exists c.
    eexists. split; [done|]. by inversion Hhex. }
  change ("ffff:" ++ string4 os) with (appendHex 65535 ++ ":" ++ string4 os).
  rewrite Hct, round_more by done. rewrite <- Hct. cbn [parseIPv6From app].
  destruct (hexGroup_octet (g / 256)%Z) with (rest := string4 [g mod 256; h / 256; h mod 256]%Z) as (v & off & Hv).
  { by apply Forall_cons in Ho as [? _]. }
  rewrite <- Hos in Hv. rewrite Hv. cbn [mbind option_bind Nat.eqb app head].
  rewrite bool_decide_eq_true_2 by done. rewrite bool_decide_eq_false_2 by done. cbn [andb].
  change (6 <? length [65535%Z])%nat with false. cbn match.
  unfold os. rewrite parseIPv4From_string4 by done. cbn [mbind option_bind app].
  rewrite decide_False by (by apply not_nonempty). cbn.
  do 3 f_equal. unfold group in *. repeat f_equal; Z.to_euclidean_division_equations; lia.
Qed.

Lemma AddrString_cases gs :
  AddrString (Addr6 gs []) = string6 gs [] ∨
  ∃ g h, gs = [0; 0; 0; 0; 0; 65535; g; h]%Z
    ∧ AddrString (Addr6 gs []) = "::ffff:" ++ string4 [g / 256; g mod 256; h / 256; h mod 256]%Z.
Proof.
  unfold AddrString. repeat (case_match; try (by left)); subst; right; eexists _, _;
    (split; [reflexivity|]); first [done | by rewrite app_nil_r].
Qed.

(** What [String] prints [ParseAddr] reads back. *)
Lemma ParseAddr_AddrString a : wf_Addr a → ParseAddr (AddrString a) = Some a.
Proof.
  destruct a as [os|gs z]; [intros [Hl Ho]; by apply string4_parse|].
  intros (Hl & Hg & ->). destruct (AddrString_cases gs) as [-> |(g & h & -> & ->)].
  - by apply string6_parse.
  - rewrite !Forall_cons in Hg. apply mapped_parse; apply Hg.
Qed.

(** It prints in ASCII. *)
Lemma hexVal_ascii s : Forall (λ c, is_Some (hexVal c)) s → ascii_string s = true.
Proof.
  intros Hs. apply forallb_Forall. eapply Forall_impl; [exact Hs|]. intros c [v Hv].
  unfold hexVal, isDigit in Hv. unfold isASCII. repeat case_match; try done; lia.
Qed.
Lemma string4_ascii os : Forall (λ n, 0 ≤ n)%Z os → ascii_string (string4 os) = true.
Proof.
  intros Ho. apply Join_forallb; [|done]. apply Forall_fmap. eapply Forall_impl; [exact Ho|].
  intros n Hn. by apply hexVal_ascii, FormatInt_hex.
Qed.
Lemma colons_ascii gs : Forall group gs → ascii_string (colons gs) = true.
Proof.
  intros Hg. apply Join_forallb; [|done]. apply Forall_fmap. eapply Forall_impl; [exact Hg|].
  intros g Hgg. by apply hexVal_ascii, appendHex_digits.
Qed.
Lemma AddrString_ascii a : wf_Addr a → ascii_string (AddrString a) = true.
Proof.
  destruct a as [os|gs z].
  { intros [_ Ho]. apply string4_ascii. eapply Forall_impl; [exact Ho|]. cbn. lia. }
  intros (_ & Hg & ->). destruct (AddrString_cases gs) as [-> |(g & h & -> & ->)].
  - unfold string6. destruct (longestRun 0 None gs) as [[i l]|]; unfold ascii_string; rewrite !forallb_app;
      cbn [decide]; rewrite ?andb_true_iff; split_and!; try done;
      apply colons_ascii; [by apply Forall_take|by apply Forall_drop|done].
  - unfold ascii_string. rewrite forallb_app. apply andb_true_iff. split; [done|].
    apply string4_ascii. rewrite !Forall_cons in Hg. unfold group in Hg.
    rewrite !Forall_cons. split_and!; try done; Z.to_euclidean_division_equations; lia.
Qed.

Lemma AddrString_inj a b : wf_Addr a → wf_Addr b → AddrString a = AddrString b → a = b.
Proof.
  intros Ha Hb Heq. apply (f_equal ParseAddr) in Heq. rewrite !ParseAddr_AddrString in Heq by done.
  by injection Heq.
Qed.

(** ** What is parsed is well formed *)

Definition octet (n : Z) : Prop := (0 ≤ n < 256)%Z.

Lemma parseIPv4From_wf val n fields s os :
  octet val → Forall octet fields → length fields ≤ 3 →
  parseIPv4From val n fields s = Some os → length os = 4 ∧ Forall octet os.
Proof.
  revert val n fields. induction s as [|c s IH]; intros val n fields Hv Hf Hl; cbn [parseIPv4From].
  - destruct (Nat.ltb_spec (length fields) 3); [done|]. intros [= <-].
    rewrite length_app, Forall_app, Forall_singleton. cbn. split; [lia|done].
  - destruct (isDigit c) eqn:Hd.
    + case_match; [done|]. destruct (Z.ltb_spec 255 (val * 10 + digitVal c)); [done|].
      apply IH; [|done|done]. unfold octet, isDigit, digitVal in *. lia.
    + case_match; [|done]. case_match; [done|].
      destruct (Nat.eqb_spec (length fields) 3); [done|].
      apply IH; [done| |rewrite length_app; cbn; lia]. by rewrite Forall_app, Forall_singleton.
Qed.

Lemma hexVal_range c d : hexVal c = Some d → (0 ≤ d < 16)%Z.
Proof.
  unfold hexVal, isDigit. pose proof (bval_range c). intros Hd. repeat case_match; simplify_eq; lia.
Qed.

Lemma hexGroup_wf off acc s v n rest :
  group acc → hexGroup off acc s = Some (v, n, rest) → group v.
Proof.
  revert off acc. induction s as [|c s IH]; intros off acc Ha; cbn [hexGroup]; [by intros [= <- _ _]|].
  destruct (hexVal c) as [d|] eqn:Hc; [|by intros [= <- _ _]].
  apply hexVal_range in Hc. rewrite Z.shiftl_mul_pow2 by lia. change (2 ^ 4)%Z with 16%Z.
  destruct (_ || _) eqn:Ho; [done|]. apply orb_false_iff in Ho as [_ Ho]. apply IH.
  unfold group in *. lia.
Qed.

Lemma parseIPv6From_wf fuel groups ell s gs ell' rest :
  Forall group groups → length groups + fuel = 8 →
  parseIPv6From fuel groups ell s = Some (gs, ell', rest) → Forall group gs ∧ length gs ≤ 8.
Proof.
  revert groups ell s. induction fuel as [|fuel IH]; intros groups ell s Hg Hl; cbn [parseIPv6From].
  { intros [= <- _ _]. split; [done|lia]. }
  intros ([[acc off] r] & Ha & Hr)%bind_Some. apply hexGroup_wf in Ha; [|unfold group; lia].
  assert (Forall group (groups ++ [acc]) ∧ length (groups ++ [acc]) = S (length groups)) as [Hg' Hl'].
  { rewrite Forall_app, Forall_singleton, length_app. cbn. split; [done|lia]. }
  case_match; [done|]. case_bool_decide.
  - case_match; [done|]. destruct (Nat.ltb_spec 6 (length groups)); [done|].
    apply bind_Some in Hr as (os & Ho & Hr).
    apply parseIPv4From_wf in Ho as [_ Ho]; [|done|done|cbn; lia].
    destruct os as [|a [|b [|c [|d []]]]]; simplify_eq. rewrite !Forall_cons in Ho.
    rewrite Forall_app, length_app, !Forall_cons, Forall_nil. cbn.
    unfold octet, group in *. split; [split; [done|]|lia]. split_and!; lia.
  - destruct r as [|c r]; [injection Hr as <- _ _; split; [done|lia]|].
    case_match; [done|]. destruct r as [|d r]; [done|]. case_match.
    + case_bool_decide; [done|]. destruct r as [|e r]; [injection Hr as <- _ _; split; [done|lia]|].
      eapply IH; [exact Hg'|lia|exact Hr].
    + eapply IH; [exact Hg'|lia|exact Hr].
Qed.

Lemma ParseAddr_wf s a : ParseAddr s = Some a → Zone a = [] → wf_Addr a.
Proof.
  unfold ParseAddr. intros Ha Hz. destruct (addrFamily s) as [c|]; [|done]. case_match.
  { unfold parseIPv4 in Ha. apply fmap_Some in Ha as (os & Ho & ->).
    by apply parseIPv4From_wf in Ho; [|done|done|cbn; lia]. }
  case_match; [|done]. unfold parseIPv6 in Ha. destruct (cutByte "%" s) as [[s0 zone] found].
  case_match; [done|]. case_match.
  { injection Ha as <-. cbn in *. split_and!; [done| |done]. by repeat constructor. }
  apply bind_Some in Ha as ([[gs ell] rest] & Hp & Hr).
  apply parseIPv6From_wf in Hp as [Hg Hl]; [|done|done]. case_decide; [done|].
  destruct (Nat.ltb_spec (length gs) 8).
  - apply bind_Some in Hr as (pos & _ & [= <-]). cbn in *. split_and!; [| |done].
    + rewrite !length_app, length_take, length_replicate, length_drop. lia.
    + rewrite !Forall_app. split_and!; [by apply Forall_take| |by apply Forall_drop].
      apply Forall_replicate. unfold group. lia.
  - case_match; [done|]. injection Hr as <-. cbn in *. split_and!; [lia|done|done].
Qed.

(** * Families *)

(** [Addr.Unmap]. *)
Definition Unmap (a : Addr) : Addr :=
  match a with
  | Addr6 [0; 0; 0; 0; 0; 65535; g; h]%Z _ => Addr4 [g / 256; g mod 256; h / 256; h mod 256]%Z
  | _ => a
  end.

(** [Addr.IsGlobalUnicast] of an address without a zone. *)
Definition IsGlobalUnicast (a : Addr) : bool :=
  match Unmap a with
  | Addr4 os =>
      negb (bool_decide (os = [0; 0; 0; 0]%Z) || bool_decide (os = [255; 255; 255; 255]%Z)
            || match os with
               | o :: p :: _ =>
                   (o =? 127)%Z || ((224 <=? o) && (o <=? 239))%Z || ((o =? 169) && (p =? 254))%Z
               | _ => false
               end)
  | Addr6 gs _ =>
      negb (bool_decide (gs = replicate 8 0%Z) || bool_decide (gs = replicate 7 0%Z ++ [1%Z])
            || match gs with
               | g :: _ => (g / 256 =? 255)%Z || ((65152 <=? g) && (g <=? 65215))%Z
               | _ => false
               end)
  end.

Lemma Unmap_cases a :
  Unmap a = a ∨ ∃ g h z, a = Addr6 [0; 0; 0; 0; 0; 65535; g; h]%Z z
                  ∧ Unmap a = Addr4 [g / 256; g mod 256; h / 256; h mod 256]%Z.
Proof.
  destruct a as [os|gs z]; [by left|]. unfold Unmap.
  repeat (case_match; try (by left)); subst; right; eexists _, _, _; split; reflexivity.
Qed.

Lemma Unmap_wf a : wf_Addr a → wf_Addr (Unmap a).
Proof.
  intros Ha. destruct (Unmap_cases a) as [-> |(g & h & z & -> & ->)]; [done|].
  destruct Ha as (_ & Hg & _). rewrite !Forall_cons in Hg. cbn. split; [done|].
  rewrite !Forall_cons, Forall_nil. split_and!; try done; Z.to_euclidean_division_equations; lia.
Qed.

(** * Bits

    An IPv6 address as its 16 bytes; bit 0 is the highest of the first byte. *)

Definition As16 (gs : list Z) : list Z := gs ≫= λ g, [g / 256; g mod 256]%Z.
Fixpoint groupsOf (bs : list Z) : list Z :=
  match bs with a :: b :: bs' => (a * 256 + b)%Z :: groupsOf bs' | _ => [] end.
Definition AddrFrom16 (bs : list Z) : Addr := Addr6 (groupsOf bs) [].

Definition maskOf (bit : nat) : Z := (2 ^ Z.of_nat (7 - bit mod 8))%Z.
Definition bitAt (bs : list Z) (bit : nat) : bool :=
  Z.testbit (nth (bit / 8) bs 0%Z) (Z.of_nat (7 - bit mod 8)).
Definition setBit (bs : list Z) (bit : nat) (on : bool) : list Z :=
  alter (λ x, if on then Z.lor x (maskOf bit) else Z.ldiff x (maskOf bit)) (bit / 8) bs.

(** The bits from [from] to the end replaced. *)
Definition setBits (from : nat) (on : nat → bool) (bs : list Z) : list Z :=
  foldl (λ bs bit, setBit bs bit (on bit)) bs (seq from (128 - from)).

Record Prefix := { px_Addr : Addr; px_Bits : nat }.

(** [Prefix.Masked] and [Prefix.Contains], of IPv6 prefixes; IPv4 prefixes are refused
    where the code parses one. *)
Definition Masked (p : Prefix) : Prefix :=
  match px_Addr p with
  | Addr6 gs _ =>
      {| px_Addr := AddrFrom16 (setBits (px_Bits p) (λ _, false) (As16 gs)); px_Bits := px_Bits p |}
  | Addr4 _ => p
  end.
Definition PrefixContains (p : Prefix) (ip : Addr) : bool :=
  match px_Addr p, ip with
  | Addr6 gs _, Addr6 hs zone =>
      bool_decide (zone = [])
      && forallb (λ bit, Bool.eqb (bitAt (As16 gs) bit) (bitAt (As16 hs) bit)) (seq 0 (px_Bits p))
  | _, _ => false
  end.

(** [ParsePrefix]: the address before the last slash and the number of bits after it. *)
Definition ParsePrefix (s : gostring) : option Prefix :=
  match cutByte "/" (rev s) with
  | (_, _, false) => None
  | (bits, addr, true) =>
      let bitsStr := rev bits in
      ip ← ParseAddr (rev addr);
      if bool_decide (Zone ip ≠ []) then None
      else if (1 <? length bitsStr)%nat
              && match bitsStr with c :: _ => (bval c <? 49)%Z || (57 <? bval c)%Z | [] => false end
      then None
      else
        n ← ParseInt64 bitsStr;
        if (n <? 0)%Z || ((if Is4 ip then 32 else 128) <? n)%Z then None
        else Some {| px_Addr := ip; px_Bits := Z.to_nat n |}
  end.

(** ** Lemmas *)

Lemma length_setBit bs bit on : length (setBit bs bit on) = length bs.
Proof. apply length_alter. Qed.

Lemma setBit_octet bs bit on : Forall octet bs → Forall octet (setBit bs bit on).
Proof.
  intros Hb. apply Forall_alter; [done|]. intros x _ Hx.
  assert (forallb (λ k, forallb (λ x, let m := (2 ^ Z.of_nat k)%Z in
    (0 <=? Z.lor x m)%Z && (Z.lor x m <? 256)%Z && (0 <=? Z.ldiff x m)%Z && (Z.ldiff x m <? 256)%Z)
    (seqZ 0 256)) (seq 0 8) = true) as Hall by (vm_compute; reflexivity).
  rewrite forallb_Forall, Forall_forall in Hall. specialize (Hall (7 - bit mod 8)).
  rewrite forallb_Forall, Forall_forall in Hall.
  specialize (λ H, Hall H x). cbn zeta in Hall. rewrite !andb_true_iff in Hall.
  destruct Hall as (((? & ?) & ?) & ?);
    [apply elem_of_seq; lia|apply elem_of_seqZ; unfold octet in Hx; lia|].
  unfold octet, maskOf. destruct on; lia.
Qed.

Lemma bitAt_setBit_ne bs bit on bit' :
  bit ≠ bit' → bitAt (setBit bs bit on) bit' = bitAt bs bit'.
Proof.
  intros Hne. unfold bitAt, setBit. rewrite !nth_lookup.
  destruct (decide (bit / 8 = bit' / 8)) as [Heq|Hne']; [|by rewrite list_lookup_alter_ne].
  rewrite <- Heq, list_lookup_alter_eq. destruct (bs !! (bit / 8)) as [x|]; [|done].
  cbn [fmap option_fmap option_map default from_option id].
  assert (bit mod 8 ≠ bit' mod 8) as Hmod.
  { intros Hmod. apply Hne. pose proof (Nat.div_mod_eq bit 8). pose proof (Nat.div_mod_eq bit' 8). lia. }
  pose proof (Nat.mod_upper_bound bit 8 ltac:(lia)). pose proof (Nat.mod_upper_bound bit' 8 ltac:(lia)).
  unfold maskOf. destruct on.
  - rewrite Z.lor_spec, Z.pow2_bits_false by lia. by rewrite orb_false_r.
  - rewrite Z.ldiff_spec, Z.pow2_bits_false by lia. by rewrite andb_true_r.
Qed.

Lemma bitAt_setBit bs bit on :
  bit / 8 < length bs → bitAt (setBit bs bit on) bit = on.
Proof.
  intros Hl. unfold bitAt, setBit. rewrite nth_lookup, list_lookup_alter_eq.
  apply lookup_lt_is_Some in Hl as [x ->].
  cbn [fmap option_fmap option_map default from_option id]. unfold maskOf. destruct on.
  - rewrite Z.lor_spec, Z.pow2_bits_true by lia. by rewrite orb_true_r.
  - rewrite Z.ldiff_spec, Z.pow2_bits_true by lia. by rewrite andb_false_r.
Qed.

Lemma setBits_spec from on bs :
  length bs = 16 → Forall octet bs →
  length (setBits from on bs) = 16 ∧ Forall octet (setBits from on bs)
  ∧ ∀ bit, bit < from → bitAt (setBits from on bs) bit = bitAt bs bit.
Proof.
  intros Hl Ho. unfold setBits.
  apply (foldl_inv (λ bs', length bs' = 16 ∧ Forall octet bs' ∧ ∀ bit, bit < from → bitAt bs' bit = bitAt bs bit)).
  - done.
  - intros bs' bit Hin (Hl' & Ho' & Hb). apply elem_of_seq in Hin. split_and!.
    + by rewrite length_setBit.
    + by apply setBit_octet.
    + intros bit' Hb'. rewrite bitAt_setBit_ne by lia. by apply Hb.
Qed.

Lemma As16_spec gs : Forall group gs → Forall octet (As16 gs) ∧ length (As16 gs) = 2 * length gs.
Proof.
  induction 1 as [|g gs Hg _ [IH Hl]]; [done|]. cbn. rewrite !Forall_cons. split; [split_and!|].
  - unfold octet, group in *. Z.to_euclidean_division_equations. lia.
  - unfold octet. Z.to_euclidean_division_equations. lia.
  - done.
  - unfold As16 in Hl. lia.
Qed.

Lemma As16_groupsOf bs : Forall octet bs → Nat.even (length bs) = true → As16 (groupsOf bs) = bs.
Proof.
  assert (∀ n bs, length bs ≤ n → Forall octet bs → Nat.even (length bs) = true → As16 (groupsOf bs) = bs) as Hn.
  2:{ by apply (Hn (length bs)). }
  clear bs. induction n as [|n IH]; intros bs Hl Ho He; [by destruct bs; [|cbn in Hl; lia]|].
  destruct bs as [|a [|b bs]]; [done|done|]. rewrite !Forall_cons in Ho. destruct Ho as (Ha & Hb & Ho).
  cbn [groupsOf As16]. cbn. f_equal; [|f_equal].
  - unfold octet in *. Z.to_euclidean_division_equations. lia.
  - unfold octet in *. Z.to_euclidean_division_equations. lia.
  - apply IH; [cbn in Hl; lia|done|done].
Qed.

Lemma groupsOf_spec bs :
  length bs = 16 → Forall octet bs → length (groupsOf bs) = 8 ∧ Forall group (groupsOf bs).
Proof.
  do 16 (destruct bs as [|? bs]; [done|]). destruct bs; [|done]. intros _ Ho.
  rewrite !Forall_cons in Ho. split; [done|]. cbn. unfold octet, group in *.
  rewrite !Forall_cons, Forall_nil. split_and!; try done; lia.
Qed.

Lemma AddrFrom16_wf bs : length bs = 16 → Forall octet bs → wf_Addr (AddrFrom16 bs).
Proof. intros Hl Ho. destruct (groupsOf_spec bs Hl Ho). done. Qed.

(** A prefix contains the addresses that keep its leading bits. *)
Lemma PrefixContains_bits p gs bs :
  px_Addr p = Addr6 gs [] → length bs = 16 → Forall octet bs →
  (∀ bit, bit < px_Bits p → bitAt bs bit = bitAt (As16 gs) bit) →
  PrefixContains p (AddrFrom16 bs) = true.
Proof.
  intros Hp Hl Ho Hb. unfold PrefixContains. rewrite Hp. cbn [AddrFrom16].
  rewrite As16_groupsOf by (done || by rewrite Hl). rewrite bool_decide_eq_true_2 by done.
  apply forallb_Forall, Forall_forall. intros bit Hin%elem_of_seq. rewrite Hb by lia.
  apply Bool.eqb_reflx.
Qed.
