(* ===== verification/RdataParse.v ===== *)
(** Package [internal/cmd/dns/rdata], files [parse.go] and [line.go]: a record value
    in presentation format, and a whole record line.

    The numbers of a value are parsed by [strconv.ParseUint] at the width of their
    field.  The [field] arguments that only name the field in a message are kept. *)

From S2P Require Import Prelude GoStrings GoNetip Api RdataTypes RdataToken RdataTTL.

(** * parse.go *)

(** [fields]; [max] of [None] is the unbounded -1. *)
Definition fields (t : RRType) (v : gostring) (min : nat) (max : option nat) :
    result Error (list token) :=
  toks ← tokenize v false;
  if (length toks <? min) || match max with Some m => m <? length toks | None => false end
  then Err (EArity t v (Z.of_nat (length toks)))
  else Ok toks.

Definition parseUint16 (field s : gostring) : result Error Z :=
  match ParseUint 16 s with Some u => Ok u | None => Err (ENotUint16 field s) end.
Definition parseUint8 (field s : gostring) : result Error Z :=
  match ParseUint 8 s with Some u => Ok u | None => Err (ENotUint8 field s) end.
Definition parseSOAUint32 (field s : gostring) : result Error Z :=
  match ParseUint 32 s with
  | None => Err (ESOANumber field s)
  | Some u => if (u =? 0)%Z then Err (ESOAZero field) else Ok u
  end.

Definition checkIPv4 (v : gostring) : result Error unit :=
  match ParseAddr v with
  | Some addr => if Is4 addr then Ok tt else Err (ENotIPv4 v)
  | None => Err (ENotIPv4 v)
  end.
Definition checkIPv6 (v : gostring) : result Error unit :=
  match ParseAddr v with
  | Some addr =>
      if Is4 addr || negb (bool_decide (Zone addr = [])) then Err (ENotIPv6 v) else Ok tt
  | None => Err (ENotIPv6 v)
  end.

(** The bytes a service parameter key may hold. *)
Definition paramKeyByte (c : ascii) : bool :=
  isLower c || isDigit c || Ascii.eqb c "-" || Ascii.eqb c "_".

(** The quoting [parseParam] strips from a value: the text of a single quoted token. *)
Definition unquoteParam (v : gostring) : result Error gostring :=
  if (2 <=? length v) && HasPrefix v [dquote] && HasSuffix v [dquote] then
    inner ← tokenize v false;
    match inner with
    | [tok] => if quoted tok then Ok (text tok) else Ok v
    | _ => Ok v
    end
  else Ok v.

Section Parse.
Context `{GoRuntime}.

Definition parseParam (s : gostring) : result Error (gostring * gostring) :=
  let '(k, v, found) := cutByte "=" s in
  let k := ToLower (TrimSpace k) in
  if decide (k = []) then Err (EParamEmptyKey s)
  else
    match list_find (λ c, paramKeyByte c = false) k with
    | Some (_, c) => Err (EParamBadKey k c)
    | None =>
        if negb (found : bool) then Ok (k, [])
        else (λ v', (k, v')) <$> unquoteParam v
    end.

(** The loop of [parseSVCB] over the parameters. *)
Fixpoint parseParams (t : RRType) (params : gmap gostring gostring) (toks : list token) :
    result Error (gmap gostring gostring) :=
  match toks with
  | [] => Ok params
  | tok :: toks' =>
      '(k, val) ← parseParam (text tok);
      if decide (is_Some (params !! k)) then Err (EParamDuplicate t k)
      else parseParams t (<[k := val]> params) toks'
  end.

Definition parseSVCB (t : RRType) (v : gostring) : result Error HTTPSRecordSpec :=
  toks ← fields t v 2 None;
  match toks with
  | tok0 :: tok1 :: toks' =>
      prio ← parseUint16 (RRTypeString t ++ " priority") (text tok0);
      params ← parseParams t ∅ toks';
      Ok {| https_Priority := prio; https_Target := ToLower (hostToken tok1);
            https_Params := params |}
  | _ => Err (EArity t v (Z.of_nat (length toks)))
  end.

Definition parseSOA (v : gostring) : result Error SOARecordSpec :=
  toks ← tokenize v false;
  match toks with
  | [mname; rname] =>
      Ok {| soa_MName := ToLower (hostToken mname); soa_RName := ToLower (hostToken rname);
            soa_Serial := 0; soa_Refresh := 0; soa_Retry := 0; soa_Expire := 0; soa_TTL := 0 |}
  | [mname; rname; t2; t3; t4; t5; t6] =>
      serial ← parseSOAUint32 "serial" (text t2);
      refresh ← parseSOAUint32 "refresh" (text t3);
      retry ← parseSOAUint32 "retry" (text t4);
      expire ← parseSOAUint32 "expire" (text t5);
      minimum ← parseSOAUint32 "minimum" (text t6);
      Ok {| soa_MName := ToLower (hostToken mname); soa_RName := ToLower (hostToken rname);
            soa_Serial := serial; soa_Refresh := refresh; soa_Retry := retry;
            soa_Expire := expire; soa_TTL := minimum |}
  | _ => Err (ESOAArity v (Z.of_nat (length toks)))
  end.

(** The structured types of [ParseValue]; the arity [fields] checked makes the last
    branch of each match unreachable. *)
Definition parseMX (v : gostring) : result Error MXRecordSpec :=
  toks ← fields RRTypeMX v 2 (Some 2);
  match toks with
  | [t0; t1] =>
      pref ← parseUint16 "MX preference" (text t0);
      Ok {| mx_Preference := pref; mx_Exchange := ToLower (hostToken t1) |}
  | _ => Err (EArity RRTypeMX v (Z.of_nat (length toks)))
  end.

Definition parseSRV (v : gostring) : result Error SRVRecordSpec :=
  toks ← fields RRTypeSRV v 4 (Some 4);
  match toks with
  | [t0; t1; t2; t3] =>
      prio ← parseUint16 "SRV priority" (text t0);
      weight ← parseUint16 "SRV weight" (text t1);
      port ← parseUint16 "SRV port" (text t2);
      Ok {| srv_Priority := prio; srv_Weight := weight; srv_Port := port;
            srv_Target := ToLower (hostToken t3) |}
  | _ => Err (EArity RRTypeSRV v (Z.of_nat (length toks)))
  end.

Definition parseCAA (v : gostring) : result Error CAARecordSpec :=
  toks ← fields RRTypeCAA v 3 (Some 3);
  match toks with
  | [t0; t1; t2] =>
      flag ← parseUint8 "CAA flag" (text t0);
      Ok {| caa_Flag := flag; caa_Tag := ToLower (text t1); caa_Value := text t2 |}
  | _ => Err (EArity RRTypeCAA v (Z.of_nat (length toks)))
  end.

Definition parseTLSA (v : gostring) : result Error TLSARecordSpec :=
  toks ← fields RRTypeTLSA v 4 None;
  match toks with
  | t0 :: t1 :: t2 :: cert =>
      usage ← parseUint8 "TLSA usage" (text t0);
      sel ← parseUint8 "TLSA selector" (text t1);
      mt ← parseUint8 "TLSA matching type" (text t2);
      Ok {| tlsa_Usage := usage; tlsa_Selector := sel; tlsa_MatchingType := mt;
            tlsa_CertData := cert ≫= text |}
  | _ => Err (EArity RRTypeTLSA v (Z.of_nat (length toks)))
  end.

(** The switch of [ParseValue]: the typed field it fills. *)
Definition parseTyped (t : RRType) (v : gostring) : result Error TypedField :=
  let host := {| Content := ToLower v |} in
  match t with
  | RRTypeA => _ ← checkIPv4 v; Ok (FA {| Content := v |})
  | RRTypeAAAA => _ ← checkIPv6 v; Ok (FAAAA {| Content := v |})
  | RRTypeCNAME => Ok (FCNAME host)
  | RRTypeALIAS => Ok (FALIAS host)
  | RRTypeNS => Ok (FNS host)
  | RRTypePTR => Ok (FPTR host)
  | RRTypeTXT => s ← parseTXTValue v; Ok (FTXT {| Content := s |})
  | RRTypeMX => FMX <$> parseMX v
  | RRTypeSRV => FSRV <$> parseSRV v
  | RRTypeCAA => FCAA <$> parseCAA v
  | RRTypeTLSA => FTLSA <$> parseTLSA v
  | RRTypeHTTPS => FHTTPS <$> parseSVCB t v
  | RRTypeSVCB => FSVCB <$> parseSVCB t v
  | RRTypeSOA => FSOA <$> parseSOA v
  end.

Definition ParseValue (t : RRType) (value : gostring) : result Error RecordEntry :=
  let v := TrimSpace value in
  if decide (v = []) then Err (EValueEmpty t)
  else (λ f, assign f emptyEntry) <$> parseTyped t v.

(** * line.go *)

Record Line := {
  line_Name : gostring; line_TTL : option Z; line_Type : RRType; line_Rdata : gostring }.

Definition dnsClasses : list gostring := ["IN"; "CH"; "HS"; "CS"].

(** A non-digit ends the scan with [digits = false]. *)
Definition looksLikeTTL (s : gostring) : bool :=
  match s with
  | [] => false
  | c :: _ =>
      if forallb isDigit s then true
      else if negb (isDigit c) then false
      else match ParseTTL s with Ok _ => true | Err _ => false end
  end.

(** The loop of [rdataFrom]: the bytes before a comment. *)
Fixpoint rdataFromRest (inQuote : bool) (rest : gostring) : gostring :=
  match rest with
  | [] => []
  | c :: rest' =>
      if Ascii.eqb c backslash then
        match rest' with
        | [] => [c]
        | d :: rest'' => c :: d :: rdataFromRest inQuote rest''
        end
      else if Ascii.eqb c dquote then c :: rdataFromRest (negb inQuote) rest'
      else if Ascii.eqb c ";" && negb inQuote then []
      else c :: rdataFromRest inQuote rest'
  end.
Definition rdataFrom (s : gostring) (start : nat) : gostring :=
  rdataFromRest false (drop start s).

(** The loop over the class and the TTL, from the token after the name: the TTL and
    the tokens from the type on. *)
Fixpoint ttlAndClass (ttl : option Z) (toks : list token) :
    result Error (option Z * list token) :=
  match toks with
  | [] => Ok (ttl, [])
  | tok :: toks' =>
      if decide (ToUpper (text tok) ∈ dnsClasses) then ttlAndClass ttl toks'
      else if bool_decide (ttl = None) && looksLikeTTL (text tok) then
        ttl' ← ParseTTL (text tok);
        ttlAndClass ttl' toks'
      else Ok (ttl, toks)
  end.

Definition ParseLine (s : gostring) : result Error Line :=
  toks ← tokenize s true;
  match toks with
  | [] => Err ELineEmpty
  | name :: toks' =>
      if length toks <? 3 then Err (ELineShort s)
      else
        '(ttl, rest) ← ttlAndClass None toks';
        match rest with
        | [] => Err (ELineNoType s)
        | tok :: rest' =>
            t ← ParseRRType (text tok);
            match rest' with
            | [] => Err (ELineNoValue s t)
            | value :: _ =>
                let rdata := TrimSpace (rdataFrom s (start value)) in
                if decide (rdata = []) then Err (ELineNoValue s t)
                else Ok {| line_Name := text name; line_TTL := ttl; line_Type := t;
                           line_Rdata := rdata |}
            end
        end
  end.
End Parse.
