(* ===== verification/RdataRender.v ===== *)
(** Package [internal/cmd/dns/rdata], files [render.go], [key.go] and [fields.go]:
    the presentation form of a value, its identity and its labelled fields.

    [today] is [nowFunc().Format("20060102")]. *)

From S2P Require Import Prelude GoStrings GoNetip Api RdataTypes RdataToken.

(** * render.go *)

Definition soaDefaultRefresh : Z := 10800.
Definition soaDefaultRetry : Z := 3600.
Definition soaDefaultExpire : Z := 604800.
Definition soaDefaultMinimum : Z := 3600.

Definition soaSerial (today : gostring) (serial : Z) : gostring :=
  if (serial =? 0)%Z then today ++ "01" else FormatInt serial.

Definition orDefault (v def : Z) : Z := if (v =? 0)%Z then def else v.

Definition qualify (s : gostring) : gostring :=
  let s := TrimSpace s in
  if bool_decide (s = []) || HasSuffix s "." then s else s ++ ".".

Definition svcbFlagKeys : list gostring := ["no-default-alpn"].
Definition svcbUnquotedCSV : list gostring := ["alpn"; "ipv4hint"; "ipv6hint"; "port"].

Definition svcbKeyRank (k : gostring) : Z :=
  if decide (k = "alpn") then 10
  else if decide (k = "no-default-alpn") then 20
  else if decide (k = "port") then 30
  else if decide (k = "esnikeys" ∨ k = "ech") then 40
  else if decide (k = "ipv4hint") then 50
  else if decide (k = "ipv6hint") then 60
  else 1000.

(** The text of one parameter, if it has one. *)
Definition renderSVCBParam (m : gmap gostring gostring) (k : gostring) : option gostring :=
  let v := TrimSpace (default [] (m !! k)) in
  if decide (k ∈ svcbFlagKeys) then Some k
  else if decide (v = []) then None
  else if decide (k ∈ svcbUnquotedCSV) then Some (k ++ "=" ++ v)
  else Some (k ++ "=" ++ quoteTXT v).

Section Render.
Context `{GoRuntime}.

Definition renderSVCBParams (m : gmap gostring gostring) : gostring :=
  if decide (m = ∅) then []
  else
    let keys := SliceStable (λ a b, svcbKeyRank a <? svcbKeyRank b)%Z (sortedKeys m) in
    Join (omap (renderSVCBParam m) keys) " ".

Definition renderSVCB (s : HTTPSRecordSpec) : gostring :=
  let t := TrimSpace (https_Target s) in
  let t := if decide (t = ".") then t else if decide (t = []) then "." else qualify t in
  if (https_Priority s =? 0)%Z then words [FormatInt (https_Priority s); t]
  else
    let p := renderSVCBParams (https_Params s) in
    if decide (p ≠ []) then words [FormatInt (https_Priority s); t; p]
    else words [FormatInt (https_Priority s); t].

Definition Render (today : gostring) (t : RRType) (e : RecordEntry) : gostring :=
  match t with
  | RRTypeA => match re_A e with None => [] | Some s => TrimSpace (Content s) end
  | RRTypeAAAA => match re_AAAA e with None => [] | Some s => TrimSpace (Content s) end
  | RRTypeCNAME => match re_CNAME e with None => [] | Some s => qualify (Content s) end
  | RRTypeALIAS => match re_ALIAS e with None => [] | Some s => qualify (Content s) end
  | RRTypeNS => match re_NS e with None => [] | Some s => qualify (Content s) end
  | RRTypePTR => match re_PTR e with None => [] | Some s => qualify (Content s) end
  | RRTypeTXT => match re_TXT e with None => [] | Some s => renderTXT (Content s) end
  | RRTypeMX =>
      match re_MX e with None => [] | Some s =>
        words [FormatInt (mx_Preference s); qualify (mx_Exchange s)] end
  | RRTypeSRV =>
      match re_SRV e with None => [] | Some s =>
        words [FormatInt (srv_Priority s); FormatInt (srv_Weight s); FormatInt (srv_Port s);
               qualify (srv_Target s)] end
  | RRTypeCAA =>
      match re_CAA e with None => [] | Some s =>
        words [FormatInt (caa_Flag s); caa_Tag s; quoteTXT (caa_Value s)] end
  | RRTypeTLSA =>
      match re_TLSA e with None => [] | Some s =>
        words [FormatInt (tlsa_Usage s); FormatInt (tlsa_Selector s);
               FormatInt (tlsa_MatchingType s); tlsa_CertData s] end
  | RRTypeHTTPS => match re_HTTPS e with None => [] | Some s => renderSVCB s end
  | RRTypeSVCB => match re_SVCB e with None => [] | Some s => renderSVCB s end
  | RRTypeSOA =>
      match re_SOA e with None => [] | Some s =>
        words [qualify (soa_MName s); qualify (soa_RName s); soaSerial today (soa_Serial s);
               FormatInt (orDefault (soa_Refresh s) soaDefaultRefresh);
               FormatInt (orDefault (soa_Retry s) soaDefaultRetry);
               FormatInt (orDefault (soa_Expire s) soaDefaultExpire);
               FormatInt (orDefault (soa_TTL s) soaDefaultMinimum)] end
  end.

(** * key.go *)

Definition canonHost (s : gostring) : gostring :=
  let s := ToLower (TrimSpace s) in
  if decide (s = ".") then "." else TrimSuffix s ".".

Definition canonIP (s : gostring) : gostring :=
  match ParseAddr (TrimSpace s) with
  | None => ToLower (TrimSpace s)
  | Some addr => AddrString addr
  end.

Definition svcbKey (s : HTTPSRecordSpec) : gostring :=
  let target := canonHost (https_Target s) in
  let target := if decide (target = []) then "." else target in
  FormatInt (https_Priority s) ++ "|" ++ target ++
  (if (https_Priority s =? 0)%Z then []
   else mjoin ((λ k, "|" ++ k ++ "=" ++ TrimSpace (default [] (https_Params s !! k)))
               <$> sortedKeys (https_Params s))).

(** [fmt.Sprintf] with the verbs separated by bars. *)
Definition bars (l : list gostring) : gostring := Join l "|".

Definition Key (t : RRType) (e : RecordEntry) : gostring :=
  match t with
  | RRTypeA => match re_A e with None => [] | Some s => "A|" ++ canonIP (Content s) end
  | RRTypeAAAA => match re_AAAA e with None => [] | Some s => "AAAA|" ++ canonIP (Content s) end
  | RRTypeCNAME =>
      match re_CNAME e with None => [] | Some s => "CNAME|" ++ canonHost (Content s) end
  | RRTypeALIAS =>
      match re_ALIAS e with None => [] | Some s => "ALIAS|" ++ canonHost (Content s) end
  | RRTypeNS => match re_NS e with None => [] | Some s => "NS|" ++ canonHost (Content s) end
  | RRTypePTR => match re_PTR e with None => [] | Some s => "PTR|" ++ canonHost (Content s) end
  | RRTypeTXT => match re_TXT e with None => [] | Some s => "TXT|" ++ txtLogical (Content s) end
  | RRTypeMX =>
      match re_MX e with None => [] | Some s =>
        bars ["MX"; FormatInt (mx_Preference s); canonHost (mx_Exchange s)] end
  | RRTypeSRV =>
      match re_SRV e with None => [] | Some s =>
        bars ["SRV"; FormatInt (srv_Priority s); FormatInt (srv_Weight s);
              FormatInt (srv_Port s); canonHost (srv_Target s)] end
  | RRTypeCAA =>
      match re_CAA e with None => [] | Some s =>
        bars ["CAA"; FormatInt (caa_Flag s); ToLower (caa_Tag s); caa_Value s] end
  | RRTypeTLSA =>
      match re_TLSA e with None => [] | Some s =>
        bars ["TLSA"; FormatInt (tlsa_Usage s); FormatInt (tlsa_Selector s);
              FormatInt (tlsa_MatchingType s); ToUpper (TrimSpace (tlsa_CertData s))] end
  | RRTypeHTTPS => match re_HTTPS e with None => [] | Some s => "HTTPS|" ++ svcbKey s end
  | RRTypeSVCB => match re_SVCB e with None => [] | Some s => "SVCB|" ++ svcbKey s end
  | RRTypeSOA =>
      match re_SOA e with None => [] | Some s =>
        bars ["SOA"; canonHost (soa_MName s); canonHost (soa_RName s);
              FormatInt (orDefault (soa_Refresh s) soaDefaultRefresh);
              FormatInt (orDefault (soa_Retry s) soaDefaultRetry);
              FormatInt (orDefault (soa_Expire s) soaDefaultExpire);
              FormatInt (orDefault (soa_TTL s) soaDefaultMinimum)] end
  end.

Definition Equal (t : RRType) (a b : RecordEntry) : bool :=
  let ka := Key t a in
  if decide (ka = []) then false else bool_decide (ka = Key t b).

(** * fields.go *)

Definition soaNumField (v : Z) (def : gostring) : gostring :=
  if (v =? 0)%Z then def ++ " (default)" else FormatInt v.

Definition svcbFields (s : HTTPSRecordSpec) : list (gostring * gostring) :=
  let target := TrimSpace (https_Target s) in
  let target := if decide (target = []) then "." else target in
  let target := if decide (target ≠ ".") then qualify target else target in
  let mode := if (https_Priority s =? 0)%Z then "alias" else "service" in
  [("Priority", FormatInt (https_Priority s) ++ " (" ++ mode ++ " mode)"); ("Target", target)]
  ++ (if (https_Priority s =? 0)%Z then []
      else (λ k, ("Param " ++ k, default [] (https_Params s !! k)))
           <$> sortedKeys (https_Params s)).

(** [Fields]; the empty list is Go's [nil]. *)
Definition FieldsOf (today : gostring) (t : RRType) (e : RecordEntry) :
    list (gostring * gostring) :=
  let one label := λ o : option ContentSpec,
    match o with None => [] | Some s => [(label, qualify (Content s))] end in
  match t with
  | RRTypeA => match re_A e with None => [] | Some s => [("Address", Content s)] end
  | RRTypeAAAA => match re_AAAA e with None => [] | Some s => [("Address", Content s)] end
  | RRTypeCNAME => one "Target" (re_CNAME e)
  | RRTypeALIAS => one "Target" (re_ALIAS e)
  | RRTypeNS => one "Nameserver" (re_NS e)
  | RRTypePTR => one "Target" (re_PTR e)
  | RRTypeTXT =>
      match re_TXT e with None => [] | Some s =>
        let data := txtLogical (Content s) in
        let parts := chunk255 data in
        [("Data", data)] ++
        (if 1 <? length parts
         then [("Strings", FormatInt (Z.of_nat (length parts)) ++ " (chunked at 255 bytes)")]
         else []) end
  | RRTypeMX =>
      match re_MX e with None => [] | Some s =>
        [("Preference", FormatInt (mx_Preference s)); ("Exchange", qualify (mx_Exchange s))] end
  | RRTypeSRV =>
      match re_SRV e with None => [] | Some s =>
        [("Priority", FormatInt (srv_Priority s)); ("Weight", FormatInt (srv_Weight s));
         ("Port", FormatInt (srv_Port s)); ("Target", qualify (srv_Target s))] end
  | RRTypeCAA =>
      match re_CAA e with None => [] | Some s =>
        [("Flag", FormatInt (caa_Flag s)); ("Tag", caa_Tag s); ("Value", caa_Value s)] end
  | RRTypeTLSA =>
      match re_TLSA e with None => [] | Some s =>
        [("Usage", FormatInt (tlsa_Usage s)); ("Selector", FormatInt (tlsa_Selector s));
         ("Matching type", FormatInt (tlsa_MatchingType s));
         ("Certificate data", tlsa_CertData s)] end
  | RRTypeHTTPS => match re_HTTPS e with None => [] | Some s => svcbFields s end
  | RRTypeSVCB => match re_SVCB e with None => [] | Some s => svcbFields s end
  | RRTypeSOA =>
      match re_SOA e with None => [] | Some s =>
        [("Primary nameserver", qualify (soa_MName s));
         ("Responsible party", qualify (soa_RName s));
         ("Serial", soaNumField (soa_Serial s) (soaSerial today 0));
         ("Refresh", soaNumField (soa_Refresh s) (FormatInt soaDefaultRefresh));
         ("Retry", soaNumField (soa_Retry s) (FormatInt soaDefaultRetry));
         ("Expire", soaNumField (soa_Expire s) (FormatInt soaDefaultExpire));
         ("Minimum TTL", soaNumField (soa_TTL s) (FormatInt soaDefaultMinimum))] end
  end.
End Render.
