(* ===== verification/RdataValidate.v ===== *)
(** Package [internal/cmd/dns/rdata], file [validate.go]: which record entries the
    command line submits, and the advisories it prints.

    A nil dereference in [validateValue] is the error [ENilDereference]; by
    [validateTypedField_spec] the field [validateValue] reads is set when it runs. *)

From S2P Require Import Prelude GoStrings GoNetip Api RdataTypes RdataToken RdataTTL.
From S2P Require Import RdataName RdataParse RdataRender.

Definition maxTXTLength : Z := 2048.

(** * Patterns *)

Definition caaTagPattern (s : gostring) : bool :=
  negb (bool_decide (s = [])) && forallb (λ c, isLower c || isDigit c) s.
Definition isHex (c : ascii) : bool :=
  isDigit c || ((65 <=? bval c)%Z && (bval c <=? 70)%Z)
  || ((97 <=? bval c)%Z && (bval c <=? 102)%Z).
Definition hexPattern (s : gostring) : bool :=
  negb (bool_decide (s = [])) && forallb isHex s.
Definition svcbGenericKey (s : gostring) : bool :=
  HasPrefix s "key" && forallb isDigit (drop 3 s)
  && (1 <=? length (drop 3 s)) && (length (drop 3 s) <=? 5).

(** * One entry *)

Definition validateTTL (ttl : option Z) : result Error unit :=
  match ttl with None => Ok tt | Some n => checkTTLRange n (FormatInt n) end.

Definition validateTXT (raw : gostring) : result Error unit :=
  let content := txtLogical raw in
  if decide (content = []) then Err ETXTEmpty
  else if (maxTXTLength <? len content)%Z then Err (ETXTTooLong (len content))
  else Ok tt.

Definition validateCAA (c : CAARecordSpec) : result Error unit :=
  if decide (caa_Tag c = []) then Err ECAATagEmpty
  else if negb (caaTagPattern (caa_Tag c)) then Err (ECAATagPattern (caa_Tag c))
  else if decide (TrimSpace (caa_Value c) = []) then Err ECAAValueEmpty
  else if ContainsAny (caa_Value c) [dquote; newline; backslash]
  then Err (ECAAValueChars (caa_Value c))
  else Ok tt.

Definition validateTLSA (t : TLSARecordSpec) : result Error unit :=
  let cert := tlsa_CertData t in
  if (3 <? tlsa_Usage t)%Z then Err (ETLSAUsage (tlsa_Usage t))
  else if (1 <? tlsa_Selector t)%Z then Err (ETLSASelector (tlsa_Selector t))
  else if (2 <? tlsa_MatchingType t)%Z then Err (ETLSAMatchingType (tlsa_MatchingType t))
  else if decide (cert = []) then Err ETLSAEmpty
  else if negb (hexPattern cert) then Err (ETLSANotHex cert)
  else if negb (len cert mod 2 =? 0)%Z then Err (ETLSAOdd (len cert))
  else if (tlsa_MatchingType t =? 1)%Z && negb (len cert =? 64)%Z
  then Err (ETLSADigest 1 (len cert))
  else if (tlsa_MatchingType t =? 2)%Z && negb (len cert =? 128)%Z
  then Err (ETLSADigest 2 (len cert))
  else Ok tt.

Section Validate.
Context `{GoRuntime}.

Definition validateName (t : RRType) (name zone : gostring) : result Error unit :=
  if decide (name = []) then Err ENameMissing
  else
    apex ← (if decide (zone ≠ []) then
              '(norm, warns) ← NormalizeNameWithWarnings name zone;
              if decide (warns ≠ []) then Err (ENameOutsideZone name zone)
              else Ok (IsApex norm)
            else if negb (namePattern name) then Err (ENameInvalid name)
            else if IsApex name then Ok true
            else _ ← checkOwnerLabels name (TrimSuffix name "."); Ok false);
    match t with
    | RRTypeCNAME => if (apex : bool) then Err ECNAMEAtApex else Ok tt
    | RRTypeSOA => if apex then Ok tt else Err (ESOANotApex name)
    | _ => Ok tt
    end.

Definition validateTypedField (t : RRType) (e : RecordEntry) : result Error unit :=
  match setFields e with
  | [] => Err (EFieldMissing (re_Name e) t)
  | [f] =>
      if decide (f = jsonFieldFor t) then Ok tt
      else
        let otherName := match ParseRRType f with
                         | Ok other => RRTypeString other
                         | Err _ => f
                         end in
        Err (EFieldMismatch (re_Name e) t otherName)
  | set => Err (EFieldExtra (re_Name e) t set)
  end.

Definition checkTargetHost (field value zone : gostring) (underscores allowRoot : bool) :
    result Error unit :=
  let v := TrimSpace value in
  if decide (v = []) then Err (ETargetEmpty field)
  else if decide (v = "@") then Err (ETargetAt field)
  else if decide (v = ".") then if allowRoot then Ok tt else Err (ETargetRoot field)
  else
    _ ← checkHostname field v underscores;
    requireFQDN field v zone.

(** One round of the loop of [validateSVCB] over the parameters. *)
Definition validateParam (t : RRType) (params : gmap gostring gostring) (k : gostring) :
    result Error unit :=
  let v := default [] (params !! k) in
  if decide (k ≠ ToLower k) then Err (ESVCBKeyCase t k)
  else if ContainsAny v [" "%char; tab; newline] then Err (ESVCBValueSpace t k)
  else if negb (bool_decide (k ∈ svcbFlagKeys)) && bool_decide (TrimSpace v = [])
  then Err (ESVCBValueEmpty t k)
  else Ok tt.

Definition validateSVCB (t : RRType) (s : HTTPSRecordSpec) (zone : gostring) :
    result Error unit :=
  let target := TrimSpace (https_Target s) in
  let field := RRTypeString t ++ " target" in
  if decide (target = []) then Err (ESVCBTargetEmpty t)
  else
    _ ← (if decide (target ≠ ".") then
           _ ← checkHostname field target relaxedHost;
           requireFQDN field target zone
         else Ok tt);
    if (https_Priority s =? 0)%Z then
      if decide (target = ".") then Err (ESVCBAliasRoot t)
      else if decide (https_Params s ≠ ∅)
      then Err (ESVCBAliasParams t (sortedKeys (https_Params s)))
      else Ok tt
    else result_iter (validateParam t (https_Params s)) (sortedKeys (https_Params s)).

Definition validateSOA (s : SOARecordSpec) (zone : gostring) : result Error unit :=
  _ ← checkTargetHost "SOA mname" (soa_MName s) zone strictHost false;
  let rname := TrimSpace (soa_RName s) in
  if decide (rname = []) then Err ERNameEmpty
  else if ContainsByte rname "@" then Err (ERNameAt (soa_RName s))
  else
    _ ← checkHostname "SOA rname" rname relaxedHost;
    if length (splitDNSLabels (TrimSuffix rname ".")) <? 3 then Err (ERNameShort (soa_RName s))
    else requireFQDN "SOA rname" rname zone.

(** [*e.<field>]. *)
Definition deref {A} (o : option A) (f : A → result Error unit) : result Error unit :=
  match o with Some a => f a | None => Err ENilDereference end.

Definition validateValue (t : RRType) (e : RecordEntry) (zone : gostring) :
    result Error unit :=
  match t with
  | RRTypeA => deref (re_A e) (λ s, checkIPv4 (TrimSpace (Content s)))
  | RRTypeAAAA => deref (re_AAAA e) (λ s, checkIPv6 (TrimSpace (Content s)))
  | RRTypeCNAME => deref (re_CNAME e) (λ s,
      checkTargetHost "CNAME target" (Content s) zone relaxedHost false)
  | RRTypeALIAS => deref (re_ALIAS e) (λ s,
      checkTargetHost "ALIAS target" (Content s) zone relaxedHost false)
  | RRTypeNS => deref (re_NS e) (λ s,
      checkTargetHost "NS content" (Content s) zone strictHost false)
  | RRTypePTR => deref (re_PTR e) (λ s,
      checkTargetHost "PTR content" (Content s) zone relaxedHost false)
  | RRTypeTXT => deref (re_TXT e) (λ s, validateTXT (Content s))
  | RRTypeMX => deref (re_MX e) (λ s,
      if decide (TrimSpace (mx_Exchange s) = ".") then
        if (mx_Preference s =? 0)%Z then Ok tt else Err (ENullMX (mx_Preference s))
      else checkTargetHost "MX exchange" (mx_Exchange s) zone strictHost false)
  | RRTypeSRV => deref (re_SRV e) (λ s,
      checkTargetHost "SRV target" (srv_Target s) zone relaxedHost true)
  | RRTypeCAA => deref (re_CAA e) validateCAA
  | RRTypeTLSA => deref (re_TLSA e) validateTLSA
  | RRTypeHTTPS => deref (re_HTTPS e) (λ s, validateSVCB t s zone)
  | RRTypeSVCB => deref (re_SVCB e) (λ s, validateSVCB t s zone)
  | RRTypeSOA => deref (re_SOA e) (λ s, validateSOA s zone)
  end.

Definition ValidateInZone (t : RRType) (e : RecordEntry) (zone : gostring) :
    result Error unit :=
  _ ← ParseRRType (RRTypeString t);
  _ ← validateName t (re_Name e) zone;
  _ ← validateTTL (re_TTL e);
  _ ← validateTypedField t e;
  validateValue t e zone.

Definition Validate (t : RRType) (e : RecordEntry) : result Error unit :=
  ValidateInZone t e [].

(** * A whole record set *)

(** [ownerState]: how many entries an owner has and the keys they carry. *)
Record ownerState := { os_count : Z; os_seen : gset gostring }.

(** The second loop of [ValidateEntriesInZone]. *)
Fixpoint checkOwners (t : RRType) (zone : gostring) (owners : gmap gostring ownerState)
    (entries : list RecordEntry) : result Error unit :=
  match entries with
  | [] => Ok tt
  | e :: entries' =>
      let owner := FQDN (re_Name e) zone in
      let st := default {| os_count := 0; os_seen := ∅ |} (owners !! owner) in
      let count := (os_count st + 1)%Z in
      if IsSingleValued t && (1 <? count)%Z then Err (ESingleValued t (re_Name e) count)
      else
        let k := Key t e in
        if decide (k ∈ os_seen st) then Err (EDuplicateValue t (re_Name e))
        else
          let st' := {| os_count := count; os_seen := {[k]} ∪ os_seen st |} in
          checkOwners t zone (<[owner := st']> owners) entries'
  end.

Definition ValidateEntriesInZone (t : RRType) (entries : list RecordEntry) (zone : gostring) :
    result Error unit :=
  if decide (entries = []) then Err (ESetEmpty t)
  else
    _ ← result_iter (λ e, ValidateInZone t e zone) entries;
    checkOwners t zone ∅ entries.

Definition ValidateEntries (t : RRType) (entries : list RecordEntry) : result Error unit :=
  ValidateEntriesInZone t entries [].

(** * Advisories *)

Definition knownCAATags : list gostring :=
  ["issue"; "issuewild"; "iodef"; "issuemail"; "contactemail"; "contactphone"].
Definition knownSVCBKeys : list gostring :=
  ["mandatory"; "alpn"; "no-default-alpn"; "port"; "ipv4hint"; "ech"; "ipv6hint"; "dohpath";
   "ohttp"; "esnikeys"].

(** A condition that appends one advisory. *)
Definition warnIf (b : bool) (w : Warning) : list Warning := if b then [w] else [].

(** The first control character of TXT data; every one is a single byte, so the
    bytes of a longer rune never match. *)
Definition controlByte (c : ascii) : bool := (bval c <? 32)%Z || (bval c =? 127)%Z.

Definition svcbWarnings (t : RRType) (params : gmap gostring gostring) : list Warning :=
  omap (λ k, if bool_decide (k ∈ knownSVCBKeys) || svcbGenericKey k then None
             else Some (WSVCBKey t k)) (sortedKeys params).

Definition typeWarnings (t : RRType) (e : RecordEntry) : option (list Warning) :=
  match t with
  | RRTypeCAA =>
      s ← re_CAA e;
      Some (warnIf (negb (bool_decide (caa_Tag s ∈ knownCAATags))) (WCAATag (caa_Tag s))
            ++ warnIf (negb (caa_Flag s =? 0)%Z && negb (caa_Flag s =? 128)%Z)
                 (WCAAFlag (caa_Flag s)))
  | RRTypeSRV =>
      Some (match re_SRV e with
            | Some s => warnIf (srv_Port s =? 0)%Z WSRVPort
            | None => []
            end)
  | RRTypeHTTPS => s ← re_HTTPS e; Some (svcbWarnings t (https_Params s))
  | RRTypeSVCB => s ← re_SVCB e; Some (svcbWarnings t (https_Params s))
  | RRTypeSOA =>
      s ← re_SOA e;
      let low v bound w := warnIf (negb (v =? 0)%Z && (v <? bound)%Z) w in
      Some (low (soa_Refresh s) 1200%Z (WSOARefresh (soa_Refresh s))
            ++ low (soa_Retry s) 600%Z (WSOARetry (soa_Retry s))
            ++ low (soa_Expire s) 604800%Z (WSOAExpire (soa_Expire s)))
  | _ => Some []
  end.

(** A nil value of a type whose case returns early has no advisories at all. *)
Definition entryWarnings (t : RRType) (e : RecordEntry) : list Warning :=
  match typeWarnings t e with
  | None => []
  | Some out =>
      out
      ++ match re_TXT e with
         | Some s =>
             match list_find (λ c, controlByte c = true) (txtLogical (Content s)) with
             | Some (i, _) => warnIf (bool_decide (t = RRTypeTXT)) (WTXTControl (Z.of_nat i))
             | None => []
             end
         | None => []
         end
      ++ warnIf (bool_decide (re_TTL e = Some 0%Z)) WTTLZero
  end.

(** The loop of [ttlWarnings]: the first TTL of each owner seen and the owners warned
    about. *)
Fixpoint ttlWarningsFrom (zone : gostring) (first : gmap gostring (option Z))
    (warned : gset gostring) (entries : list RecordEntry) : list Warning :=
  match entries with
  | [] => []
  | e :: entries' =>
      let owner := FQDN (re_Name e) zone in
      match first !! owner with
      | None => ttlWarningsFrom zone (<[owner := re_TTL e]> first) warned entries'
      | Some ttl =>
          if negb (bool_decide (owner ∈ warned))
             && negb (bool_decide (FormatTTL ttl = FormatTTL (re_TTL e)))
          then WTTLDisagree (re_Name e) (FormatTTL ttl) (FormatTTL (re_TTL e))
               :: ttlWarningsFrom zone first ({[owner]} ∪ warned) entries'
          else ttlWarningsFrom zone first warned entries'
      end
  end.
Definition ttlWarnings (zone : gostring) (entries : list RecordEntry) : list Warning :=
  ttlWarningsFrom zone ∅ ∅ entries.

Definition WarningsInZone (t : RRType) (zone : gostring) (entries : list RecordEntry) :
    list Warning :=
  (entries ≫= entryWarnings t) ++ (if 1 <? length entries then ttlWarnings zone entries else []).

Definition Warnings (t : RRType) (entries : list RecordEntry) : list Warning :=
  WarningsInZone t [] entries.
End Validate.

(** * The typed field *)

(** Is the field of type [t] set? *)
Definition fieldSet (e : RecordEntry) (t : RRType) : bool :=
  match t with
  | RRTypeA => bool_decide (is_Some (re_A e))
  | RRTypeAAAA => bool_decide (is_Some (re_AAAA e))
  | RRTypeALIAS => bool_decide (is_Some (re_ALIAS e))
  | RRTypeCNAME => bool_decide (is_Some (re_CNAME e))
  | RRTypeTXT => bool_decide (is_Some (re_TXT e))
  | RRTypeMX => bool_decide (is_Some (re_MX e))
  | RRTypeSRV => bool_decide (is_Some (re_SRV e))
  | RRTypeCAA => bool_decide (is_Some (re_CAA e))
  | RRTypeNS => bool_decide (is_Some (re_NS e))
  | RRTypeSOA => bool_decide (is_Some (re_SOA e))
  | RRTypePTR => bool_decide (is_Some (re_PTR e))
  | RRTypeTLSA => bool_decide (is_Some (re_TLSA e))
  | RRTypeHTTPS => bool_decide (is_Some (re_HTTPS e))
  | RRTypeSVCB => bool_decide (is_Some (re_SVCB e))
  end.

Section TypedField.
Context `{GoRuntime}.

Lemma jsonFieldFor_inj : Inj (=) (=) jsonFieldFor.
Proof. intros [] [] E; first [reflexivity|vm_compute in E; discriminate E]. Qed.

Lemma setFields_types e :
  setFields e = jsonFieldFor <$> filter (λ t, fieldSet e t = true) supportedTypes.
Proof.
  transitivity (omap (λ t, if fieldSet e t then Some (jsonFieldFor t) else None) supportedTypes);
    [done|].
  induction supportedTypes as [|t l IH]; [done|]. rewrite filter_cons.
  cbn [omap list_omap]. rewrite IH. by destruct (fieldSet e t).
Qed.

Lemma supportedTypes_all t : t ∈ supportedTypes.
Proof. by destruct t; apply (bool_decide_unpack _). Qed.

Lemma supportedTypes_NoDup : NoDup supportedTypes.
Proof. by apply (bool_decide_unpack _). Qed.

(** The validator admits exactly the entries that set the typed field of their
    record type and no other, so the backend neither skips the entry nor ignores a
    field of it, and the value it goes on to check is there. *)
Theorem validateTypedField_spec t e :
  validateTypedField t e = Ok tt ↔ ∀ t', fieldSet e t' = bool_decide (t' = t).
Proof.
  transitivity (setFields e = [jsonFieldFor t]).
  { unfold validateTypedField. destruct (setFields e) as [|f [|]]; [done| |done].
    case_decide; split; congruence. }
  rewrite setFields_types. split.
  - intros E t'. change [jsonFieldFor t] with (jsonFieldFor <$> [t]) in E.
    pose proof jsonFieldFor_inj. apply (inj (fmap jsonFieldFor)) in E.
    assert (t' ∈ filter (λ t, fieldSet e t = true) supportedTypes ↔ t' = t) as Ht
      by (rewrite E; apply list_elem_of_singleton).
    rewrite list_elem_of_filter in Ht. pose proof (supportedTypes_all t').
    case_bool_decide; destruct (fieldSet e t'); naive_solver.
  - intros Hset. change [jsonFieldFor t] with (jsonFieldFor <$> [t]). f_equal.
    assert (filter (λ t', fieldSet e t' = true) supportedTypes =
      filter (λ t', t' = t) supportedTypes) as ->.
    { apply list_filter_iff. intros t'. rewrite Hset. apply bool_decide_eq_true. }
    by destruct t.
Qed.
End TypedField.
