(* ===== verification/RdataLex.v ===== *)
(** How the output of [Render] (package [internal/cmd/dns/rdata]) reads as tokens:
    numbers, hosts, quoted strings and service parameters separated by blanks are the
    tokens [ParseValue] sees. *)

From S2P Require Import Prelude GoStrings GoNetip Api RdataTypes RdataToken RdataTTL.
From S2P Require Import RdataName RdataParse RdataRender RdataValidate.

(** * Written tokens *)

(** What a token says, apart from where it stands. *)
Definition view (tok : token) : gostring * gostring * bool := (raw tok, text tok, quoted tok).

(** The end of the input or a blank. *)
Definition blankStart (rest : gostring) : Prop :=
  rest = [] ∨ ∃ rest', rest = " "%char :: rest'.

(** [w], when a blank or the end of the input follows, is one token with text [txt]. *)
Definition lexes (w txt : gostring) (q : bool) : Prop :=
  ∃ c r, w = c :: r ∧ isSpace c = false ∧
    ∀ rest, blankStart rest →
      if Ascii.eqb c dquote then q = true ∧ quotedBody (r ++ rest) = Some (txt, rest)
      else q = false ∧ wordBody (w ++ rest) = (txt, rest).

Abbreviation lexeme := (gostring * gostring * bool)%type.
Definition written (l : lexeme) : gostring := l.1.1.

(** The ends of a word that no trimming touches. *)
Definition endsPlain (w : gostring) : Prop :=
  ∃ c d, head w = Some c ∧ last w = Some d ∧ plainByte c = true ∧ plainByte d = true.
Definition lexemeOk (l : lexeme) : Prop := lexes l.1.1 l.1.2 l.2 ∧ endsPlain l.1.1.

(** A word that is its own text. *)
Definition bare (w : gostring) : lexeme := (w, w, false).
Definition bareWord (w : gostring) : Prop := lexemeOk (bare w).

Lemma tokenizeFrom_lexeme fuel whole off w txt q rest :
  lexes w txt q → blankStart rest →
  tokenizeFrom (S fuel) whole false off (w ++ rest) =
  consToken {| text := txt; quoted := q; start := off; raw := w |}
    (tokenizeFrom fuel whole false (off + length w) rest).
Proof.
  intros (c & r & -> & Hc & Hlex) Hrest. specialize (Hlex rest Hrest).
  cbn [tokenizeFrom app skipSpaces]. rewrite Hc, Nat.sub_diag, Nat.add_0_r.
  assert (length (c :: r ++ rest) - length rest = length (c :: r)) as Hn
    by (cbn; rewrite length_app; lia).
  pose proof (take_app_length (c :: r) rest : take _ (c :: r ++ rest) = _) as Ht.
  destruct (Ascii.eqb c dquote); cbn [andb app] in *; destruct Hlex as [-> ->];
    by rewrite Hn, Ht.
Qed.

(** Words separated by single blanks are read back as written. *)
Lemma tokenizeFrom_words fuel whole off ls :
  Forall lexemeOk ls → length (words (written <$> ls)) < fuel →
  ∃ toks, tokenizeFrom fuel whole false off (words (written <$> ls)) = Some (Ok toks) ∧
    view <$> toks = ls.
Proof.
  intros Hls. revert fuel off. induction Hls as [|[[w txt] q] ls [Hl _] Hls IH]; intros fuel off Hf.
  { destruct fuel; [cbn in Hf; lia|]. by exists []. }
  destruct fuel as [|fuel]; [lia|].
  assert (w ≠ []) as Hw by (by destruct Hl as (? & ? & ? & _); cbn in *; subst).
  destruct ls as [|l ls].
  - change (words (written <$> [(w, txt, q)])) with w in *. rewrite <- (app_nil_r w). rewrite (tokenizeFrom_lexeme _ _ _ w txt q) by (done || by left).
    destruct fuel; [destruct w; cbn in *; [done|lia]|]. cbn. rewrite ?app_nil_r. by eexists.
  - unfold words in *. cbn [fmap list_fmap] in *. rewrite Join_cons in * by done.
    change (written (w, txt, q)) with w in *. unfold sp in *. cbn [app] in *.
    rewrite (tokenizeFrom_lexeme _ _ _ w txt q) by (done || by right; eauto).
    rewrite tokenizeFrom_space. rewrite length_app in Hf. cbn in Hf.
    destruct (IH fuel (S (off + length w))) as (toks & -> & <-); [cbn; lia|].
    by eexists.
Qed.

Lemma tokenize_words ls :
  Forall lexemeOk ls →
  ∃ toks, tokenize (words (written <$> ls)) false = Ok toks ∧ view <$> toks = ls.
Proof.
  intros Hls. unfold tokenize.
  destruct (tokenizeFrom_words (S (length (words (written <$> ls))))
    (words (written <$> ls)) 0 ls) as (toks & -> & ?); [done|lia|]. by exists toks.
Qed.

Lemma TrimSpace_ends s : endsPlain s → TrimSpace s = s.
Proof.
  intros (c & d & Hc & Hd & Pc & Pd). destruct s as [|c' s]; [done|]. injection Hc as ->.
  by apply TrimSpace_plain with d.
Qed.

Lemma words_ends ws : Forall endsPlain ws → ws ≠ [] → endsPlain (words ws).
Proof.
  unfold words. induction 1 as [|w ws Hw Hws IH]; [done|]. intros _.
  destruct (decide (ws = [])) as [-> |Hne]; [done|].
  destruct Hw as (c & _ & Hc & _ & Pc & _), (IH Hne) as (_ & d & _ & Hd & _ & Pd).
  exists c, d. rewrite Join_cons by done. split_and!; [by destruct w| |done..].
  by rewrite !last_app, Hd.
Qed.

Lemma ends_plain w : w ≠ [] → forallb plainByte w = true → endsPlain w.
Proof.
  intros Hne Hw. rewrite forallb_Forall in Hw. destruct w as [|c w]; [done|].
  destruct (last (c :: w)) as [d|] eqn:Hd; [|by rewrite last_None in Hd].
  exists c, d. split_and!; [done..|by inversion Hw|]. by apply (Forall_last _ _ _ Hw).
Qed.

(** A rendered line of words as [ParseValue] sees it. *)
Lemma fields_words t ls n max :
  Forall lexemeOk ls → n ≤ length ls → (∀ m, max = Some m → length ls ≤ m) →
  ∃ toks, fields t (words (written <$> ls)) n max = Ok toks ∧ view <$> toks = ls.
Proof.
  intros Hls Hn Hmax. destruct (tokenize_words ls Hls) as (toks & Ht & <-).
  exists toks. split; [|done]. unfold fields. rewrite Ht. cbn [mbind result_bind]. rewrite length_fmap in *.
  rewrite (proj2 (Nat.ltb_ge _ _) Hn). destruct max as [m|]; [|done].
  by rewrite (proj2 (Nat.ltb_ge _ _) (Hmax m eq_refl)).
Qed.

(** ** Kinds of written tokens *)

(** A byte an unquoted word holds without escaping. *)
Definition wordByte (c : ascii) : bool := plainByte c && negb (Ascii.eqb c backslash).

Lemma wordBody_app w rest :
  forallb wordByte w = true → wordBody (w ++ rest) = prod_map (app w) id (wordBody rest).
Proof.
  induction w as [|c w IH]; cbn; intros Hw; [by destruct (wordBody rest)|].
  apply andb_true_iff in Hw as [[Hs Hb]%andb_true_iff Hw].
  assert (isSpace c = false) as -> by (by bytecases c).
  rewrite (proj1 (negb_true_iff _) Hb), IH by done.
  by destruct (wordBody rest).
Qed.

Lemma wordBody_blank rest : blankStart rest → wordBody rest = ([], rest).
Proof. by intros [-> |[? ->]]. Qed.

Lemma wordBody_word w rest :
  forallb wordByte w = true → blankStart rest → wordBody (w ++ rest) = (w, rest).
Proof.
  intros Hw Hr. rewrite wordBody_app, wordBody_blank by done. cbn. by rewrite app_nil_r.
Qed.

Lemma lexeme_word w :
  w ≠ [] → forallb wordByte w = true → head w ≠ Some dquote → bareWord w.
Proof.
  intros Hne Hw Hh. split; cycle 1; cbn.
  { apply ends_plain; [done|]. eapply forallb_impl; [|done].
    intros c Hc. by apply andb_true_iff in Hc as [? _]. }
  destruct w as [|c w]; [done|]. exists c, w. split_and!; [done| |].
  - cbn in Hw. apply andb_true_iff in Hw as [Hc _]. by bytecases c.
  - intros rest Hr. rewrite (proj2 (Ascii.eqb_neq c dquote)) by (intros ->; done).
    split; [done|]. by apply wordBody_word.
Qed.

Lemma lexeme_quoted s : lexemeOk (quoteTXT s, s, true).
Proof.
  split; cbn.
  - exists dquote, (quoteBody s ++ [dquote]). split_and!; [done..|]. intros rest _.
    rewrite Ascii.eqb_refl. split; [done|]. rewrite <- app_assoc. apply quotedBody_quoteBody.
  - exists dquote, dquote. split_and!; [done|apply quoteTXT_last|done..].
Qed.

Lemma wordByte_digits s : forallb isDigit s = true → forallb wordByte s = true.
Proof. apply forallb_impl. intros c. by bytecases c. Qed.

Lemma lexeme_number n : (0 ≤ n)%Z → bareWord (FormatInt n).
Proof.
  intros Hn. destruct (FormatInt_digits n Hn) as [Hd Hne].
  apply lexeme_word; [done|by apply wordByte_digits|].
  destruct (FormatInt n) as [|c w]; [done|]. cbn in *. intros [= ->]. done.
Qed.

(** ** Hosts *)

Definition labelByte (c : ascii) : bool :=
  isLower c || isUpper c || isDigit c || Ascii.eqb c "-" || Ascii.eqb c "_".
Definition hostByte (c : ascii) : bool := labelByte c || Ascii.eqb c ".".

(** A name written without escapes. *)
Definition escapeFree (s : gostring) : Prop := backslash ∉ s.

Lemma checkLabelBytes_bytes f w u l :
  checkLabelBytes f w u l = Ok tt → escapeFree l → forallb labelByte l = true.
Proof.
  unfold escapeFree. induction l as [|c l IH]; [done|].
  intros Hl [Hc Hnl]%not_elem_of_cons.
  assert (labelByte c = true ∧ checkLabelBytes f w u l = Ok tt) as [Hb Hl'].
  { unfold labelByte. cbn [checkLabelBytes] in Hl.
    rewrite (proj2 (Ascii.eqb_neq c backslash)) in Hl by done.
    destruct l; destruct (isLower c), (isUpper c), (isDigit c), (Ascii.eqb c "-"),
      (Ascii.eqb c "_"), u; cbn [orb andb] in Hl; simplify_eq; done. }
  cbn. by rewrite Hb, IH.
Qed.

Lemma splitDNSLabelsFrom_escapeFree b name :
  escapeFree name →
  splitDNSLabelsFrom b name =
  match splitByte "." name with l :: ls => (b ++ l) :: ls | [] => [b] end.
Proof.
  unfold escapeFree. revert b. induction name as [|c name IH]; intros b Hn.
  { cbn. by rewrite app_nil_r. }
  apply not_elem_of_cons in Hn as [Hc Hn]. cbn [splitDNSLabelsFrom splitByte].
  rewrite (proj2 (Ascii.eqb_neq c backslash)) by done.
  assert (∀ b', splitDNSLabelsFrom b' name =
    match splitByte "." name with l :: ls => (b' ++ l) :: ls | [] => [b'] end) as IH'
    by (intros; by apply IH).
  transitivity (if Ascii.eqb c "." then b :: splitDNSLabelsFrom [] name
                else splitDNSLabelsFrom (b ++ [c]) name); [by destruct name|].
  rewrite !IH'. pose proof (splitByte_ne_nil "." name).
  rewrite (Ascii.eqb_sym c). destruct (Ascii.eqb _ _), (splitByte "." name); try done.
  - by rewrite app_nil_r.
  - by rewrite <- app_assoc.
Qed.

Lemma splitDNSLabels_escapeFree name :
  escapeFree name → splitDNSLabels name = splitByte "." name.
Proof.
  intros Hn. unfold splitDNSLabels. rewrite splitDNSLabelsFrom_escapeFree by done.
  pose proof (splitByte_ne_nil "." name). by destruct (splitByte "." name).
Qed.

Lemma checkHostname_bytes f h u :
  checkHostname f h u = Ok tt → escapeFree h → h ≠ [] ∧ forallb hostByte h = true.
Proof.
  unfold checkHostname. case_decide as Hh; [done|]. case_decide; [done|]. case_match; [done|].
  rewrite result_iter_Ok. intros HF Hesc. split; [done|].
  assert (forallb hostByte (TrimSuffix h ".") = true) as Hb.
  { assert (escapeFree (TrimSuffix h ".")) as Hesc'.
    { destruct (TrimSuffix_dot_cases h) as [[_ E]|[_ ->]]; [|done].
      unfold escapeFree in *. rewrite E, not_elem_of_app in Hesc. tauto. }
    rewrite splitDNSLabels_escapeFree in HF by done.
    rewrite <- (Join_splitByte "." (TrimSuffix h ".")). apply Join_forallb; [|done].
    assert (Forall escapeFree (splitByte "." (TrimSuffix h "."))) as Hes.
    { apply Forall_forall. intros l Hl Hin. apply Hesc'.
      rewrite <- (Join_splitByte "."). by eapply elem_of_Join. }
    apply Forall_forall. intros l Hl. rewrite Forall_forall in HF, Hes.
    specialize (HF l Hl). unfold checkLabel in HF. repeat case_match; try done. apply checkLabelBytes_bytes in HF; [|by apply Hes].
    eapply forallb_impl; [|done]. intros c Hc. unfold hostByte. by rewrite Hc. }
  destruct (TrimSuffix_dot_cases h) as [[_ E]|[_ E]]; [|by rewrite E in Hb].
  by rewrite E, forallb_app, Hb.
Qed.

Section Hosts.
Context `{GoRuntime}.

(** A target the validator accepts, written without escapes. *)
Lemma checkTargetHost_Ok f v z u r :
  checkTargetHost f v z u r = Ok tt → escapeFree (TrimSpace v) →
  TrimSpace v ≠ [] ∧ forallb hostByte (TrimSpace v) = true ∧ HasSuffix (TrimSpace v) "." = true.
Proof.
  unfold checkTargetHost. cbn zeta. repeat case_decide; try done.
  - intros _ _. replace (TrimSpace v) with ("." : gostring). done.
  - rewrite bind_Ok. intros ([] & Hh & Hf) Hesc.
    apply checkHostname_bytes in Hh as [? ?]; [|done]. split_and!; [done..|].
    unfold requireFQDN in Hf. by case_match.
Qed.

Lemma hostByte_word h : forallb hostByte h = true → forallb wordByte h = true.
Proof. apply forallb_impl. intros c. by bytecases c. Qed.

Lemma hostByte_plain h : forallb hostByte h = true → forallb plainByte h = true.
Proof. apply forallb_impl. intros c. by bytecases c. Qed.

Lemma lexeme_host h : h ≠ [] → forallb hostByte h = true → bareWord h.
Proof.
  intros Hne Hh. apply lexeme_word; [done|by apply hostByte_word|].
  destruct h; [done|]. cbn in *. by intros [= ->].
Qed.

(** Lower-casing a host does not change the value it stands for. *)
Lemma canonHost_ToLower h :
  forallb hostByte (TrimSpace h) = true → canonHost (ToLower (TrimSpace h)) = canonHost h.
Proof.
  intros Hh. unfold canonHost.
  assert (ascii_string (TrimSpace h) = true) as Ha
    by (eapply forallb_impl; [|done]; intros c; by bytecases c).
  assert (TrimSpace (ToLower (TrimSpace h)) = ToLower (TrimSpace h)) as ->.
  { apply TrimSpace_fix. rewrite ToLower_ascii by done. rewrite forallb_Forall in *.
    apply Forall_fmap. eapply Forall_impl; [done|]. intros c. by bytecases c. }
  by rewrite ToLower_idemp.
Qed.

Lemma qualify_dot h : HasSuffix (TrimSpace h) "." = true → qualify h = TrimSpace h.
Proof. intros Hd. unfold qualify. by rewrite Hd, orb_true_r. Qed.
End Hosts.

(** ** Service parameters *)

(** Printable ASCII text that quoting leaves as it is, semicolons apart. *)
Definition plainText (c : ascii) : bool :=
  isASCII c && printable c && negb (Ascii.eqb c backslash) && negb (Ascii.eqb c dquote).

(** A parameter [Render] prints in full: a key [parseParam] accepts, a value without
    escapes, and no value for a flag key (one is not written). *)
Definition paramPlain (k v : gostring) : Prop :=
  k ≠ [] ∧ forallb paramKeyByte k = true ∧ forallb plainText v = true ∧
  (k ∈ svcbFlagKeys → TrimSpace v = []).

Lemma paramKeyByte_split k v :
  forallb paramKeyByte k = true → cutByte "=" (k ++ "="%char :: v) = (k, v, true).
Proof.
  induction k as [|c k IH]; intros Hk; [done|].
  cbn in Hk. apply andb_true_iff in Hk as [Hc Hk]. cbn. rewrite (IH Hk).
  assert (Ascii.eqb c "=" = false) as -> by (by bytecases c). done.
Qed.

Lemma paramKeyByte_flag k :
  forallb paramKeyByte k = true → cutByte "=" k = (k, [], false).
Proof.
  induction k as [|c k IH]; intros Hk; [done|].
  cbn in Hk. apply andb_true_iff in Hk as [Hc Hk]. cbn. rewrite (IH Hk).
  assert (Ascii.eqb c "=" = false) as -> by (by bytecases c). done.
Qed.

(** A quoted value inside a word: its escapes are resolved, its quotes stay. *)
Lemma wordBody_quoteBody v rest :
  forallb plainText v = true → " "%char ∉ v →
  wordBody (quoteBody v ++ rest) = prod_map (app v) id (wordBody rest).
Proof.
  induction v as [|c v IH]; intros Hp Hs.
  { change (quoteBody [] ++ rest) with rest. by destruct (wordBody rest). }
  cbn in Hp. apply andb_true_iff in Hp as [Hc Hp]. apply not_elem_of_cons in Hs as [Hsp Hs].
  change (quoteBody (c :: v)) with (quoteByte c ++ quoteBody v). rewrite <- app_assoc.
  transitivity (prod_map (cons c) id (wordBody (quoteBody v ++ rest)));
    [|rewrite (IH Hp Hs); by destruct (wordBody rest)].
  generalize (quoteBody v ++ rest). intros s. bytecases c; try done;
    destruct s as [|? [|??]]; done.
Qed.

Lemma unquoteParam_plain v : forallb plainText v = true → unquoteParam v = Ok v.
Proof.
  intros Hv. unfold unquoteParam.
  assert (HasPrefix v [dquote] = false) as ->; [|by rewrite andb_false_r].
  destruct v as [|c v]; [done|]. unfold HasPrefix. apply bool_decide_eq_false.
  cbn in *. rewrite take_0. intros [= ->]. done.
Qed.

Lemma lexes_plainQuoted v : forallb plainText v = true → lexes (dquote :: v ++ [dquote]) v true.
Proof.
  intros Hv. exists dquote, (v ++ [dquote]). split_and!; [done..|]. intros rest _.
  rewrite Ascii.eqb_refl. split; [done|]. rewrite <- app_assoc. cbn [app].
  induction v as [|c v IH]; [done|]. cbn in Hv. apply andb_true_iff in Hv as [Hc Hv].
  cbn [app quotedBody].
  rewrite (proj2 (Ascii.eqb_neq c backslash)), (proj2 (Ascii.eqb_neq c dquote))
    by (intros ->; done).
  by rewrite (IH Hv).
Qed.

Lemma unquoteParam_quoted v :
  forallb plainText v = true → unquoteParam (dquote :: v ++ [dquote]) = Ok v.
Proof.
  intros Hv. unfold unquoteParam.
  destruct (tokenize_words [(dquote :: v ++ [dquote], v, true)]) as (toks & Ht & Hview).
  { apply Forall_singleton. split; [by apply lexes_plainQuoted|]. exists dquote, dquote.
    split_and!; [done| |done..]. exact (last_snoc dquote (dquote :: v)). }
  change (words _) with (dquote :: v ++ [dquote]) in Ht. rewrite Ht.
  assert (HasSuffix (dquote :: v ++ [dquote]) [dquote] = true) as ->
    by exact (HasSuffix_app (dquote :: v) [dquote]).
  assert ((2 <=? length (dquote :: v ++ [dquote])) = true) as ->
    by (cbn; rewrite length_app; cbn; by rewrite Nat.add_comm).
  destruct toks as [|tok [|??]]; try done. cbn in Hview |- *.
  injection Hview as _ <- ->. done.
Qed.

Section Params.
Context `{GoRuntime}.

Lemma paramKey_fix k :
  forallb paramKeyByte k = true →
  ToLower (TrimSpace k) = k ∧ list_find (λ c, paramKeyByte c = false) k = None.
Proof.
  intros Hk. split.
  - rewrite TrimSpace_fix; [apply ToLower_fix|]; (eapply forallb_impl; [|done]);
      intros c; by bytecases c.
  - apply list_find_None. rewrite forallb_Forall in Hk. eapply Forall_impl; [done|].
    intros c ->. done.
Qed.

Lemma parseParam_value k v v' :
  k ≠ [] → forallb paramKeyByte k = true → unquoteParam v = Ok v' →
  parseParam (k ++ "="%char :: v) = Ok (k, v').
Proof.
  intros Hne Hk Hv. unfold parseParam. rewrite paramKeyByte_split by done.
  destruct (paramKey_fix k Hk) as [-> ->]. rewrite decide_False by done. by rewrite Hv.
Qed.

Lemma parseParam_flag k :
  k ≠ [] → forallb paramKeyByte k = true → parseParam k = Ok (k, []).
Proof.
  intros Hne Hk. unfold parseParam. rewrite paramKeyByte_flag by done.
  destruct (paramKey_fix k Hk) as [-> ->]. by rewrite decide_False.
Qed.

Lemma paramKeyByte_word k : forallb paramKeyByte k = true → forallb wordByte k = true.
Proof. apply forallb_impl. intros c. by bytecases c. Qed.

Lemma paramKey_head k s : k ≠ [] → forallb paramKeyByte k = true → head (k ++ s) ≠ Some dquote.
Proof. destruct k; [done|]. cbn. by intros _ Hk [= ->]. Qed.

Lemma plainText_word v :
  forallb plainText v = true → " "%char ∉ v → forallb wordByte v = true.
Proof.
  rewrite !forallb_Forall, !Forall_forall. intros Hv Hs c Hc. specialize (Hv c Hc).
  assert (c ≠ " "%char) by (by intros ->). by bytecases c.
Qed.

(** One parameter that validates and is plain: it is printed, as one token, and that
    token parses back to the key and the value without surrounding blanks. *)
Lemma renderSVCBParam_parse t m k v :
  m !! k = Some v → validateParam t m k = Ok tt → paramPlain k v →
  ∃ w txt, renderSVCBParam m k = Some w ∧ lexemeOk (w, txt, false) ∧
    parseParam txt = Ok (k, TrimSpace v).
Proof.
  intros Hm Hval (Hne & Hk & Hv & Hflag). unfold validateParam in Hval.
  unfold renderSVCBParam. rewrite Hm in *.
  change (default [] (Some v)) with v in *.
  case_decide; [done|]. case_match eqn:Hsp; [done|]. case_match eqn:Hemp; [done|].
  assert (" "%char ∉ TrimSpace v) as Hsp'.
  { intros Hin. assert (" "%char ∈ v) as Hin'.
    { destruct (TrimSpace_infix v) as (a & b & E). rewrite E, !elem_of_app. tauto. }
    unfold ContainsAny in Hsp. apply not_true_iff_false in Hsp. apply Hsp, existsb_exists.
    exists " "%char. by rewrite list_elem_of_In in Hin'. }
  apply (TrimSpace_forallb plainText) in Hv.
  destruct (decide (k ∈ svcbFlagKeys)) as [Hf|Hf].
  { exists k, k. split_and!; [done| |by rewrite (Hflag Hf); apply parseParam_flag].
    apply lexeme_word; [done|by apply paramKeyByte_word|].
    rewrite <- (app_nil_r k). by apply paramKey_head. }
  rewrite bool_decide_eq_false_2 in Hemp by done. cbn [negb andb] in Hemp.
  apply bool_decide_eq_false in Hemp. case_decide; [done|]. case_decide.
  - eexists _, _. split; [done|]. split.
    + apply lexeme_word; [by destruct k| |by apply paramKey_head].
      rewrite forallb_app, paramKeyByte_word by done. cbn. by apply plainText_word.
    + apply parseParam_value; [done..|]. by apply unquoteParam_plain.
  - exists (k ++ "=" ++ quoteTXT (TrimSpace v)),
      (k ++ "="%char :: dquote :: TrimSpace v ++ [dquote]).
    split_and!; [done| |apply parseParam_value; [done..|]; by apply unquoteParam_quoted].
    destruct k as [|c k]; [done|]. split; cycle 1; cbn [fst].
    { exists c, dquote. rewrite !last_app, quoteTXT_last. split_and!; [done..| |done].
      by bytecases c. }
    exists c, (k ++ "=" ++ quoteTXT (TrimSpace v)).
    cbn in Hk. pose proof Hk as [Hc Hk']%andb_true_iff.
    split_and!; [done|by bytecases c|]. intros rest Hr.
    assert (Ascii.eqb c dquote = false) as -> by (by bytecases c). split; [done|].
    rewrite <- !app_assoc. rewrite (wordBody_app (c :: k)) by (by apply paramKeyByte_word).
    rewrite (wordBody_app "=") by done. unfold quoteTXT.
    change ((dquote :: ?x ++ [dquote]) ++ rest) with ([dquote] ++ (x ++ [dquote]) ++ rest).
    rewrite (wordBody_app [dquote]), <- app_assoc, wordBody_quoteBody by done.
    rewrite (wordBody_word [dquote]) by done. done.
Qed.

(** All the parameters, as written tokens. *)
Lemma renderSVCBParams_lexemes t m ks :
  (∀ k, k ∈ ks → ∃ v, m !! k = Some v ∧ validateParam t m k = Ok tt ∧ paramPlain k v) →
  ∃ ls, omap (renderSVCBParam m) ks = written <$> ls ∧ Forall lexemeOk ls ∧
    Forall2 (λ k l, parseParam l.1.2 = Ok (k, TrimSpace (default [] (m !! k)))) ks ls.
Proof.
  induction ks as [|k ks IH]; intros Hks; [by exists []|].
  destruct (Hks k) as (v & Hm & Hval & Hp); [apply elem_of_cons; by left|].
  destruct (renderSVCBParam_parse t m k v Hm Hval Hp) as (w & txt & Hr & Hl & Hparse).
  destruct IH as (ls & Ho & Hls & HF); [intros k' Hk'; apply Hks, elem_of_cons; by right|].
  exists ((w, txt, false) :: ls). split_and!.
  - cbn. by rewrite Hr, Ho.
  - by constructor.
  - constructor; [by rewrite Hm|done].
Qed.

Lemma parseParams_lexemes t (val : gostring → gostring) ks toks acc :
  Forall2 (λ k tok, parseParam (text tok) = Ok (k, val k)) ks toks →
  NoDup ks → (∀ k, k ∈ ks → acc !! k = None) →
  ∃ m, parseParams t acc toks = Ok m ∧
    ∀ k, m !! k = if decide (k ∈ ks) then Some (val k) else acc !! k.
Proof.
  intros HF. revert acc. induction HF as [|k tok ks toks Hk HF IH]; intros acc Hnd Hacc.
  { exists acc. split; [done|]. intros k. by rewrite decide_False by apply not_elem_of_nil. }
  apply NoDup_cons in Hnd as [Hnk Hnd]. cbn. rewrite Hk. cbn.
  rewrite decide_False; [|rewrite Hacc by (apply elem_of_cons; by left); by intros []].
  destruct (IH (<[k := val k]> acc)) as (m & Hm & Hlook); [done| |].
  { intros k' Hk'. rewrite lookup_insert_ne by (by intros ->).
    apply Hacc, elem_of_cons. by right. }
  exists m. split; [done|]. intros k'. rewrite Hlook. destruct (decide (k' = k)) as [-> |Hne].
  - rewrite decide_False, decide_True by (done || apply elem_of_cons; by left).
    by rewrite lookup_insert_eq.
  - rewrite lookup_insert_ne by done.
    by destruct (decide (k' ∈ ks)), (decide (k' ∈ k :: ks)) as [[]%elem_of_cons|[]%not_elem_of_cons].
Qed.

Lemma sortedKeys_fmap f m : sortedKeys (f <$> m) = sortedKeys m.
Proof.
  rewrite !sortedKeys_spec. f_equal. rewrite map_to_list_fmap, <- list_fmap_compose.
  by apply list_fmap_ext; intros ? [].
Qed.

Lemma sortedKeys_NoDup m : NoDup (sortedKeys m).
Proof. rewrite sortedKeys_spec, sortStrings_perm. apply NoDup_fst_map_to_list. Qed.
End Params.
