(* ===== verification/RdataRoundtrip.v ===== *)
(** What the command line prints of a record value, it reads back: [ParseValue] on
    the output of [Render] (package [internal/cmd/dns/rdata]). *)

From S2P Require Import Prelude GoStrings GoNetip Api RdataTypes RdataToken RdataTTL.
From S2P Require Import RdataName RdataParse RdataRender RdataValidate RdataLex.

(** * Numbers *)

Lemma parseUint16_FormatInt f n : uint 16 n → parseUint16 f (FormatInt n) = Ok n.
Proof. intros Hn. unfold parseUint16. by rewrite ParseUint_FormatInt. Qed.

Lemma parseUint8_FormatInt f n : uint 8 n → parseUint8 f (FormatInt n) = Ok n.
Proof. intros Hn. unfold parseUint8. by rewrite ParseUint_FormatInt. Qed.

Lemma parseSOAUint32_FormatInt f n :
  uint 32 n → n ≠ 0%Z → parseSOAUint32 f (FormatInt n) = Ok n.
Proof.
  intros Hn Hne. unfold parseSOAUint32. rewrite ParseUint_FormatInt by done.
  by rewrite (proj2 (Z.eqb_neq n 0)).
Qed.

Lemma orDefault_uint v d :
  uint 32 v → uint 32 d → d ≠ 0%Z → uint 32 (orDefault v d) ∧ orDefault v d ≠ 0%Z.
Proof. unfold orDefault. intros ???. by destruct (Z.eqb_spec v 0). Qed.

(** A date stamp that makes a 32-bit serial, as eight digits do up to the year 4294. *)
Definition serialDate (today : gostring) : Prop := is_Some (ParseUint 32 (today ++ "01")).

Lemma soaSerial_spec today n :
  uint 32 n → serialDate today →
  bareWord (soaSerial today n) ∧
  ∃ u, parseSOAUint32 "serial" (soaSerial today n) = Ok u.
Proof.
  intros Hn [u Hu]. unfold soaSerial. destruct (Z.eqb_spec n 0) as [-> |Hne].
  - unfold parseSOAUint32. rewrite Hu. unfold ParseUint in Hu.
    destruct (today ++ "01") as [|c w] eqn:E; [done|].
    destruct (forallb isDigit (c :: w)) eqn:Hd; [|done]. split.
    + apply lexeme_word; [done|by apply wordByte_digits|]. cbn in *. by intros [= ->].
    + cbn [andb] in Hu. case_match; [|done]. injection Hu as <-. rewrite <- E in *.
      rewrite forallb_app in Hd. apply andb_true_iff in Hd as [Hd _].
      pose proof (decimalFold_nonneg today 0 Hd ltac:(lia)).
      rewrite decimalVal_app. cbn. fold (decimalVal today).
      rewrite (proj2 (Z.eqb_neq _ 0)); [by eexists|]. unfold decimalVal, digitVal.
      change (bval "0") with 48%Z. change (bval "1") with 49%Z. lia.
  - split; [apply lexeme_number; unfold uint in *; lia|].
    exists n. by apply parseSOAUint32_FormatInt.
Qed.

(** Names the tokens of a known reading. *)
Ltac split_view :=
  repeat match goal with
  | Hv : view <$> ?toks = _ |- _ =>
      let tok := fresh "tok" in
      first [ apply fmap_nil_inv in Hv; subst toks
            | destruct toks as [|tok toks]; [discriminate Hv|];
              rewrite fmap_cons in Hv; injection Hv as ? ? ? Hv ]
  end.

Create HintDb lexdb discriminated.

Section Values.
Context `{GoRuntime} (zone : gostring).

(** A host field on its own, as [checkTargetHost] accepts it. *)
Definition hostOk (v : gostring) : Prop :=
  TrimSpace v ≠ [] ∧ forallb hostByte (TrimSpace v) = true ∧ HasSuffix (TrimSpace v) "." = true.

Lemma hostOk_lexeme v : hostOk v → bareWord (qualify v).
Proof. intros (Hne & Hb & Hd). rewrite qualify_dot by done. by apply lexeme_host. Qed.
#[local] Hint Resolve hostOk_lexeme : lexdb.

Lemma lexeme_uint b n : uint b n → bareWord (FormatInt n).
Proof. intros Hn. apply lexeme_number. unfold uint in Hn. lia. Qed.
#[local] Hint Resolve lexeme_uint : lexdb.

Lemma hostOk_canon v : hostOk v → canonHost (ToLower (qualify v)) = canonHost v.
Proof. intros (_ & Hb & Hd). rewrite qualify_dot by done. by apply canonHost_ToLower. Qed.

Lemma hostOk_check f v u r :
  checkTargetHost f v zone u r = Ok tt → escapeFree v → hostOk v.
Proof.
  intros Hc Hesc. eapply checkTargetHost_Ok; [done|]. unfold escapeFree in *.
  destruct (TrimSpace_infix v) as (a & b & E). rewrite E, !not_elem_of_app in Hesc. tauto.
Qed.

Lemma tokenize_bare ws :
  Forall bareWord ws →
  ∃ toks, tokenize (words ws) false = Ok toks ∧ view <$> toks = bare <$> ws.
Proof.
  intros Hws. destruct (tokenize_words (bare <$> ws)) as (toks & Ht & Hv).
  - by apply Forall_fmap.
  - exists toks. by rewrite <- list_fmap_compose, list_fmap_id in Ht.
Qed.

Lemma fields_bare t ws n max :
  Forall bareWord ws → n ≤ length ws → (∀ m, max = Some m → length ws ≤ m) →
  ∃ toks, fields t (words ws) n max = Ok toks ∧ view <$> toks = bare <$> ws.
Proof.
  intros Hws Hn Hmax. destruct (fields_words t (bare <$> ws) n max) as (toks & Ht & Hv).
  - by apply Forall_fmap.
  - by rewrite length_fmap.
  - by rewrite length_fmap.
  - exists toks. by rewrite <- list_fmap_compose, list_fmap_id in Ht.
Qed.

(** Replaces the tokens by what they say, then reads the numbers. *)
Ltac use_tokens :=
  unfold hostToken;
  repeat match goal with
  | Ht : text _ = _ |- _ => rewrite ?Ht; clear Ht
  | Ht : raw _ = _ |- _ => rewrite ?Ht; clear Ht
  | Ht : quoted _ = _ |- _ => rewrite ?Ht; clear Ht
  end;
  rewrite ?parseUint16_FormatInt, ?parseUint8_FormatInt by done; try done.

(** Reads a rendered line of bare words. *)
Ltac read_fields :=
  match goal with
  | |- context [fields ?t (words ?ws) ?n ?max] =>
      let Hv := fresh "Hv" in
      destruct (fields_bare t ws n max) as (? & -> & Hv);
      [repeat (apply Forall_cons; split); eauto with lexdb|cbn; lia|intros ? [= <-]; cbn; lia|];
      cbn [fmap list_fmap] in Hv; split_view; cbn [mbind result_bind]
  end.

Lemma parseMX_render s :
  uint 16 (mx_Preference s) → hostOk (mx_Exchange s) →
  parseMX (words [FormatInt (mx_Preference s); qualify (mx_Exchange s)]) =
  Ok {| mx_Preference := mx_Preference s; mx_Exchange := ToLower (qualify (mx_Exchange s)) |}.
Proof.
  intros Hp Hh. unfold parseMX. read_fields. use_tokens.
Qed.

Lemma parseSRV_render s :
  uint 16 (srv_Priority s) → uint 16 (srv_Weight s) → uint 16 (srv_Port s) →
  hostOk (srv_Target s) →
  parseSRV (words [FormatInt (srv_Priority s); FormatInt (srv_Weight s);
                   FormatInt (srv_Port s); qualify (srv_Target s)]) =
  Ok {| srv_Priority := srv_Priority s; srv_Weight := srv_Weight s; srv_Port := srv_Port s;
        srv_Target := ToLower (qualify (srv_Target s)) |}.
Proof.
  intros Hp Hw Ho Hh. unfold parseSRV. read_fields. use_tokens.
Qed.

Lemma validateTLSA_hex s :
  validateTLSA s = Ok tt → bareWord (tlsa_CertData s) ∧ forallb plainByte (tlsa_CertData s) = true.
Proof.
  unfold validateTLSA. cbn zeta. repeat (case_match; try done). intros _.
  assert (hexPattern (tlsa_CertData s) = true) as Hh by by destruct (hexPattern _).
  unfold hexPattern in Hh. apply andb_true_iff in Hh as [_ Hh].
  split; [|eapply forallb_impl; [|done]; intros c; by bytecases c].
  apply lexeme_word; [done| |].
  - eapply forallb_impl; [|done]. intros c. by bytecases c.
  - destruct (tlsa_CertData s); [done|]. cbn in *. by intros [= ->].
Qed.

Lemma parseTLSA_render s :
  uint 8 (tlsa_Usage s) → uint 8 (tlsa_Selector s) → uint 8 (tlsa_MatchingType s) →
  bareWord (tlsa_CertData s) →
  parseTLSA (words [FormatInt (tlsa_Usage s); FormatInt (tlsa_Selector s);
                    FormatInt (tlsa_MatchingType s); tlsa_CertData s]) = Ok s.
Proof.
  intros Hu Hs Hm Hc. unfold parseTLSA. read_fields. cbn [mbind list_bind]. use_tokens.
  cbn. rewrite app_nil_r. by destruct s.
Qed.

Lemma validateCAA_tag s :
  validateCAA s = Ok tt → bareWord (caa_Tag s) ∧ ToLower (caa_Tag s) = caa_Tag s.
Proof.
  unfold validateCAA. repeat (case_match; try done). intros _.
  assert (caaTagPattern (caa_Tag s) = true) as Ht by by destruct (caaTagPattern _).
  unfold caaTagPattern in Ht. apply andb_true_iff in Ht as [_ Ht]. split.
  - apply lexeme_word; [done| |].
    + eapply forallb_impl; [|done]. intros c. by bytecases c.
    + destruct (caa_Tag s); [done|]. cbn in *. by intros [= ->].
  - apply ToLower_fix. eapply forallb_impl; [|done]. intros c. by bytecases c.
Qed.

Lemma parseCAA_render s :
  uint 8 (caa_Flag s) → validateCAA s = Ok tt →
  parseCAA (words [FormatInt (caa_Flag s); caa_Tag s; quoteTXT (caa_Value s)]) = Ok s.
Proof.
  intros Hf [Htag Hlow]%validateCAA_tag. unfold parseCAA.
  destruct (fields_words RRTypeCAA [bare (FormatInt (caa_Flag s)); bare (caa_Tag s);
    (quoteTXT (caa_Value s), caa_Value s, true)] 3 (Some 3)) as (toks & Ht & Hv).
  - repeat (apply Forall_cons; split); [by eapply lexeme_uint|done|apply lexeme_quoted|done].
  - done.
  - by intros ? [= <-].
  - change (words _) with (words [FormatInt (caa_Flag s); caa_Tag s; quoteTXT (caa_Value s)]) in Ht.
    rewrite Ht. split_view. cbn [mbind result_bind]. use_tokens. cbn. rewrite Hlow.
    by destruct s.
Qed.

Lemma parseSOA_render today s :
  hostOk (soa_MName s) → hostOk (soa_RName s) → uint 32 (soa_Serial s) →
  uint 32 (soa_Refresh s) → uint 32 (soa_Retry s) → uint 32 (soa_Expire s) →
  uint 32 (soa_TTL s) → serialDate today →
  ∃ serial, parseSOA (words [qualify (soa_MName s); qualify (soa_RName s);
      soaSerial today (soa_Serial s);
      FormatInt (orDefault (soa_Refresh s) soaDefaultRefresh);
      FormatInt (orDefault (soa_Retry s) soaDefaultRetry);
      FormatInt (orDefault (soa_Expire s) soaDefaultExpire);
      FormatInt (orDefault (soa_TTL s) soaDefaultMinimum)]) =
    Ok {| soa_MName := ToLower (qualify (soa_MName s));
          soa_RName := ToLower (qualify (soa_RName s)); soa_Serial := serial;
          soa_Refresh := orDefault (soa_Refresh s) soaDefaultRefresh;
          soa_Retry := orDefault (soa_Retry s) soaDefaultRetry;
          soa_Expire := orDefault (soa_Expire s) soaDefaultExpire;
          soa_TTL := orDefault (soa_TTL s) soaDefaultMinimum |}.
Proof.
  intros Hm Hr Hs Hre Hrt Hex Htt Hd.
  destruct (soaSerial_spec today (soa_Serial s) Hs Hd) as [Hlex [u Hu]]. exists u.
  destruct (orDefault_uint _ soaDefaultRefresh Hre) as [? ?]; [done..|].
  destruct (orDefault_uint _ soaDefaultRetry Hrt) as [? ?]; [done..|].
  destruct (orDefault_uint _ soaDefaultExpire Hex) as [? ?]; [done..|].
  destruct (orDefault_uint _ soaDefaultMinimum Htt) as [? ?]; [done..|].
  unfold parseSOA.
  match goal with |- context [tokenize (words ?ws) false] =>
    destruct (tokenize_bare ws) as (toks & -> & Hv) end.
  - repeat (apply Forall_cons; split); eauto with lexdb.
  - cbn [fmap list_fmap] in Hv. split_view. cbn [mbind result_bind]. use_tokens.
    rewrite Hu. cbn [mbind result_bind]. by rewrite !parseSOAUint32_FormatInt.
Qed.

(** The parameter keys in the order they are printed. *)
Definition renderKeys (m : gmap gostring gostring) : list gostring :=
  SliceStable (λ a b, svcbKeyRank a <? svcbKeyRank b)%Z (sortedKeys m).

Lemma renderKeys_perm m : renderKeys m ≡ₚ sortedKeys m.
Proof. apply SliceStable_perm. Qed.

Lemma renderKeys_empty : renderKeys ∅ = [].
Proof. unfold renderKeys. by rewrite sortedKeys_spec, map_to_list_empty. Qed.

Lemma renderSVCBParams_eq m :
  renderSVCBParams m = words (omap (renderSVCBParam m) (renderKeys m)).
Proof.
  unfold renderSVCBParams. case_decide as Hm; [subst m|done].
  by rewrite renderKeys_empty.
Qed.

Lemma words_nested a b parts :
  Forall (λ p : gostring, p ≠ []) parts →
  (if decide (words parts ≠ []) then words [a; b; words parts] else words [a; b]) =
  words (a :: b :: parts).
Proof.
  unfold words. destruct 1 as [|p parts Hp Hps]; [done|].
  rewrite decide_True; [done|]. destruct (decide (parts = [])) as [-> |].
  - done.
  - rewrite Join_cons by done. by destruct p.
Qed.

Lemma lexemeOk_ne l : lexemeOk l → written l ≠ [].
Proof. intros [(c & r & E & _) _]. unfold written. by rewrite E. Qed.

(** What an accepted service binding holds. *)
Lemma validateSVCB_Ok t s :
  validateSVCB t s zone = Ok tt → escapeFree (https_Target s) →
  hostOk (https_Target s) ∧ (https_Priority s = 0%Z → https_Params s = ∅) ∧
  (https_Priority s ≠ 0%Z → Forall (λ k, validateParam t (https_Params s) k = Ok tt)
     (sortedKeys (https_Params s))).
Proof.
  unfold validateSVCB. cbn zeta. case_decide as Hne; [done|]. rewrite bind_Ok.
  intros ([] & Ht & Hp) Hesc. split_and!.
  - destruct (decide (TrimSpace (https_Target s) = ".")) as [E|Hn]; [by unfold hostOk; rewrite E|].
    rewrite decide_True in Ht by done. apply bind_Ok in Ht as ([] & Hh & Hf).
    apply (hostOk_check (RRTypeString t ++ " target") _ relaxedHost false); [|done].
    unfold checkTargetHost. cbn zeta. rewrite !decide_False; [by rewrite Hh|done| |done].
    intros E. rewrite E in Hf. done.
  - intros E. rewrite (proj2 (Z.eqb_eq _ _) E) in Hp. case_decide; [done|].
    by case_decide.
  - intros E. rewrite (proj2 (Z.eqb_neq _ _) E) in Hp. by apply result_iter_Ok.
Qed.

Lemma renderSVCB_words s ls :
  hostOk (https_Target s) → (https_Priority s = 0%Z → https_Params s = ∅) →
  omap (renderSVCBParam (https_Params s)) (renderKeys (https_Params s)) = written <$> ls →
  Forall lexemeOk ls →
  renderSVCB s = words (written <$> bare (FormatInt (https_Priority s))
    :: bare (qualify (https_Target s)) :: ls).
Proof.
  intros (Hne & _ & Hdot) H0 Ho Hls. unfold renderSVCB. rewrite renderSVCBParams_eq, Ho.
  cbn zeta. rewrite !fmap_cons. change (written (bare ?w)) with w.
  rewrite <- (words_nested _ _ (written <$> ls))
    by (apply Forall_fmap; eapply Forall_impl; [done|apply lexemeOk_ne]).
  replace (if decide (TrimSpace (https_Target s) = ".") then TrimSpace (https_Target s)
           else if decide (TrimSpace (https_Target s) = []) then "."
           else qualify (TrimSpace (https_Target s))) with (qualify (https_Target s)).
  - destruct (Z.eqb_spec (https_Priority s) 0) as [E|_]; [|done].
    rewrite (H0 E), renderKeys_empty in Ho. by rewrite <- Ho.
  - unfold qualify. rewrite TrimSpace_idemp, Hdot, orb_true_r. by repeat case_decide.
Qed.

(** A printable service binding that validates, as written tokens. *)
Definition plainSVCB (s : HTTPSRecordSpec) : Prop :=
  escapeFree (https_Target s) ∧ map_Forall paramPlain (https_Params s).

Lemma renderSVCB_lexemes t s :
  uint 16 (https_Priority s) → validateSVCB t s zone = Ok tt → plainSVCB s →
  let m := https_Params s in
  ∃ ls, renderSVCB s = words (written <$> bare (FormatInt (https_Priority s))
      :: bare (qualify (https_Target s)) :: ls) ∧
    Forall lexemeOk (bare (FormatInt (https_Priority s)) :: bare (qualify (https_Target s)) :: ls) ∧
    Forall2 (λ k l, parseParam l.1.2 = Ok (k, TrimSpace (default [] (m !! k)))) (renderKeys m) ls.
Proof.
  intros Hp Hval [Hesc Hpl] m. apply validateSVCB_Ok in Hval as (Hh & H0 & Hpar); [|done].
  destruct (renderSVCBParams_lexemes t m (renderKeys m)) as (ls & Ho & Hls & HF).
  { intros k Hk. rewrite renderKeys_perm in Hk. pose proof Hk as [v Hv]%elem_of_sortedKeys.
    exists v. split_and!; [done| |by apply (Hpl k v)]. rewrite Forall_forall in Hpar.
    apply Hpar; [|done]. intros E. unfold m in Hv. by rewrite (H0 E), lookup_empty in Hv. }
  exists ls. split_and!; [by rewrite (renderSVCB_words s ls)| |done].
  apply Forall_cons; split; [by eapply lexeme_uint|].
  apply Forall_cons; split; [by apply hostOk_lexeme|done].
Qed.

Lemma parseSVCB_render t s :
  uint 16 (https_Priority s) → validateSVCB t s zone = Ok tt → plainSVCB s →
  parseSVCB t (renderSVCB s) =
  Ok {| https_Priority := https_Priority s; https_Target := ToLower (qualify (https_Target s));
        https_Params := TrimSpace <$> https_Params s |}.
Proof.
  intros Hp Hval Hpl. destruct (renderSVCB_lexemes t s Hp Hval Hpl) as (ls & -> & Hls & HF).
  set (m := https_Params s) in *.
  unfold parseSVCB. destruct (fields_words t (bare (FormatInt (https_Priority s))
    :: bare (qualify (https_Target s)) :: ls) 2 None) as (toks & -> & Hv);
    [done|cbn; lia|done|].
  destruct toks as [|tok [|tok0 toks]]; [done..|]. rewrite !fmap_cons in Hv.
  injection Hv as ? ? ? ? ? ? Hv. cbn [mbind result_bind]. use_tokens. cbn [mbind result_bind].
  destruct (parseParams_lexemes t (λ k, TrimSpace (default [] (m !! k))) (renderKeys m) toks ∅)
    as (m' & -> & Hm').
  - subst ls. rewrite Forall2_fmap_r in HF. exact HF.
  - rewrite renderKeys_perm. apply sortedKeys_NoDup.
  - intros k _. apply lookup_empty.
  - cbn. do 2 f_equal. apply map_eq. intros k. rewrite Hm', lookup_fmap, lookup_empty.
    case_decide as Hk; rewrite renderKeys_perm, elem_of_sortedKeys in Hk.
    + destruct Hk as [v Hk]. by rewrite Hk.
    + apply eq_None_not_Some in Hk. by rewrite Hk.
Qed.
End Values.

#[export] Hint Resolve hostOk_lexeme lexeme_uint lexeme_quoted : lexdb.

(** * Every type *)

(** Entries whose names are written without escapes, whose quoted text is printable
    ASCII, and whose TXT data is not itself a sequence of quoted strings (which
    [txtLogical] cannot tell from the wire form of its contents). *)
Definition plainEntry (t : RRType) (e : RecordEntry) : Prop :=
  match t with
  | RRTypeA | RRTypeAAAA | RRTypeTLSA => True
  | RRTypeTXT => ∀ s, re_TXT e = Some s →
      txtLogical (txtLogical (Content s)) = txtLogical (Content s)
  | RRTypeCNAME => ∀ s, re_CNAME e = Some s → escapeFree (Content s)
  | RRTypeALIAS => ∀ s, re_ALIAS e = Some s → escapeFree (Content s)
  | RRTypeNS => ∀ s, re_NS e = Some s → escapeFree (Content s)
  | RRTypePTR => ∀ s, re_PTR e = Some s → escapeFree (Content s)
  | RRTypeMX => ∀ s, re_MX e = Some s → escapeFree (mx_Exchange s)
  | RRTypeSRV => ∀ s, re_SRV e = Some s → escapeFree (srv_Target s)
  | RRTypeCAA => ∀ s, re_CAA e = Some s → forallb plainText (caa_Value s) = true
  | RRTypeHTTPS => ∀ s, re_HTTPS e = Some s → plainSVCB s
  | RRTypeSVCB => ∀ s, re_SVCB e = Some s → plainSVCB s
  | RRTypeSOA => ∀ s, re_SOA e = Some s → escapeFree (soa_MName s) ∧ escapeFree (soa_RName s)
  end.

Section Roundtrip.
Context `{GoRuntime} (today zone : gostring).

Lemma deref_Ok {A} (o : option A) f : deref o f = Ok tt → ∃ a, o = Some a ∧ f a = Ok tt.
Proof. destruct o; cbn; [eauto|done]. Qed.

Lemma ValidateInZone_value t e :
  ValidateInZone t e zone = Ok tt → validateValue t e zone = Ok tt.
Proof.
  unfold ValidateInZone. rewrite !bind_Ok. intros (_ & _ & Hv).
  repeat (apply bind_Ok in Hv as (_ & _ & Hv)). done.
Qed.

Lemma ParseValue_typed t v f :
  endsPlain v → parseTyped t v = Ok f → ParseValue t v = Ok (assign f emptyEntry).
Proof.
  intros He Hf. unfold ParseValue. rewrite TrimSpace_ends by done. cbn zeta.
  rewrite decide_False by (by destruct He as (? & ? & ? & _), v). by rewrite Hf.
Qed.

Lemma ParseValue_address t v f :
  v ≠ [] → TrimSpace v = v → parseTyped t v = Ok f → ParseValue t v = Ok (assign f emptyEntry).
Proof.
  intros Hne Ht Hf. unfold ParseValue. rewrite Ht. cbn zeta.
  rewrite decide_False by done. by rewrite Hf.
Qed.

Lemma words_bare_ends ws : Forall bareWord ws → ws ≠ [] → endsPlain (words ws).
Proof. intros Hws. apply words_ends. eapply Forall_impl; [done|]. by intros w [_ ?]. Qed.

Ltac bare_ends :=
  apply words_bare_ends; [repeat (apply Forall_cons; split); eauto with lexdb|done].

(** A host no expansion changes. *)
Definition absoluteHost (h : gostring) : Prop := TrimSpace h = h ∧ HasSuffix h "." = true.

Definition absoluteField (f : TypedField) : Prop :=
  match f with
  | FCNAME s | FALIAS s | FNS s | FPTR s => absoluteHost (Content s)
  | FMX s => absoluteHost (mx_Exchange s)
  | FSRV s => absoluteHost (srv_Target s)
  | FHTTPS s | FSVCB s => absoluteHost (https_Target s)
  | FSOA s => absoluteHost (soa_MName s) ∧ absoluteHost (soa_RName s)
  | FA _ | FAAAA _ | FTXT _ | FCAA _ | FTLSA _ => True
  end.

Lemma hostOk_absolute v : hostOk v → absoluteHost (ToLower (qualify v)).
Proof.
  intros (Hne & Hb & Hd). rewrite qualify_dot by done. unfold absoluteHost.
  rewrite ToLower_ascii by (eapply forallb_impl; [|done]; intros c; by bytecases c).
  rewrite HasSuffix_last in *. apply bool_decide_eq_true in Hd. split.
  - apply TrimSpace_fix. rewrite forallb_Forall in *. apply Forall_fmap.
    eapply Forall_impl; [done|]. intros c. by bytecases c.
  - apply bool_decide_eq_true. by rewrite last_lower.
Qed.

(** The value a rendered value reads back as: the same one, with absolute hosts. *)
Abbreviation readsBack t e :=
  (∃ f, ParseValue t (Render today t e) = Ok (assign f emptyEntry) ∧
     Key t (assign f emptyEntry) = Key t e ∧ absoluteField f).

Lemma roundtrip_A e s :
  re_A e = Some s → checkIPv4 (TrimSpace (Content s)) = Ok tt → readsBack RRTypeA e.
Proof.
  intros He Hc. cbn [Render Key]. rewrite He. eexists. split_and!.
  - apply (ParseValue_address _ _ (FA {| Content := TrimSpace (Content s) |}));
      [|apply TrimSpace_idemp|cbn; by rewrite Hc]. intros E. by rewrite E in Hc.
  - cbn. unfold canonIP. by rewrite TrimSpace_idemp.
  - done.
Qed.

Lemma roundtrip_AAAA e s :
  re_AAAA e = Some s → checkIPv6 (TrimSpace (Content s)) = Ok tt → readsBack RRTypeAAAA e.
Proof.
  intros He Hc. cbn [Render Key]. rewrite He. eexists. split_and!.
  - apply (ParseValue_address _ _ (FAAAA {| Content := TrimSpace (Content s) |}));
      [|apply TrimSpace_idemp|cbn; by rewrite Hc]. intros E. by rewrite E in Hc.
  - cbn. unfold canonIP. by rewrite TrimSpace_idemp.
  - done.
Qed.

Lemma hostOk_ends v : hostOk v → endsPlain (qualify v).
Proof. intros Hh. apply (hostOk_lexeme v Hh). Qed.

Lemma roundtrip_TXT e s :
  re_TXT e = Some s → txtLogical (txtLogical (Content s)) = txtLogical (Content s) →
  readsBack RRTypeTXT e.
Proof.
  intros He Hl. cbn [Render Key]. rewrite He. destruct (renderTXT_eq (Content s))
    as (parts & E & Hne & Hj & _).
  eexists. split_and!.
  - apply (ParseValue_typed _ _ (FTXT {| Content := txtLogical (Content s) |})).
    + rewrite E. destruct (Join_quoted_head parts Hne) as [r Hr].
      exists dquote, dquote. rewrite Join_quoted_last, Hr by done. done.
    + cbn. unfold parseTXTValue. rewrite E, decodeTXTStrings_quoted, Hj by done.
      by destruct (Join_quoted_head parts Hne) as [r ->].
  - cbn [assign re_TXT Content]. by rewrite Hl.
  - done.
Qed.

Lemma roundtrip_MX e s :
  re_MX e = Some s → uint 16 (mx_Preference s) → hostOk (mx_Exchange s) → readsBack RRTypeMX e.
Proof.
  intros He Hp Hh. cbn [Render Key]. rewrite He. eexists. split_and!.
  - eapply (ParseValue_typed _ _ (FMX _)); [bare_ends|].
    cbn [parseTyped]. by rewrite parseMX_render.
  - cbn [assign re_MX mx_Preference mx_Exchange]. by rewrite hostOk_canon.
  - by apply hostOk_absolute.
Qed.

Lemma roundtrip_SRV e s :
  re_SRV e = Some s → uint 16 (srv_Priority s) ∧ uint 16 (srv_Weight s) ∧ uint 16 (srv_Port s) →
  hostOk (srv_Target s) → readsBack RRTypeSRV e.
Proof.
  intros He (Hp & Hw & Ho) Hh. cbn [Render Key]. rewrite He. eexists. split_and!.
  - eapply (ParseValue_typed _ _ (FSRV _)); [bare_ends|].
    cbn [parseTyped]. by rewrite parseSRV_render.
  - cbn [assign re_SRV srv_Priority srv_Weight srv_Port srv_Target]. by rewrite hostOk_canon.
  - by apply hostOk_absolute.
Qed.

Lemma roundtrip_TLSA e s :
  re_TLSA e = Some s →
  uint 8 (tlsa_Usage s) ∧ uint 8 (tlsa_Selector s) ∧ uint 8 (tlsa_MatchingType s) →
  validateTLSA s = Ok tt → readsBack RRTypeTLSA e.
Proof.
  intros He (Hu & Hs & Hm) [Hc _]%validateTLSA_hex. cbn [Render Key]. rewrite He.
  eexists. split_and!.
  - eapply (ParseValue_typed _ _ (FTLSA _)); [bare_ends|].
    cbn [parseTyped]. by rewrite parseTLSA_render.
  - done.
  - done.
Qed.

Lemma roundtrip_CAA e s :
  re_CAA e = Some s → uint 8 (caa_Flag s) → validateCAA s = Ok tt → readsBack RRTypeCAA e.
Proof.
  intros He Hf Hv. cbn [Render Key]. rewrite He. eexists. split_and!.
  - eapply (ParseValue_typed _ _ (FCAA _)); [|cbn [parseTyped]; by rewrite parseCAA_render].
    apply words_ends; [|done]. destruct (validateCAA_tag s Hv) as [[_ Htag] _].
    destruct (lexeme_uint _ _ Hf) as [_ Hflag], (lexeme_quoted (caa_Value s)) as [_ Hval].
    by repeat (apply Forall_cons; split).
  - done.
  - done.
Qed.

(** HTTPS and SVCB differ only in the field. *)
Lemma svcb_reads_back t s :
  uint 16 (https_Priority s) → validateSVCB t s zone = Ok tt → plainSVCB s →
  endsPlain (renderSVCB s) ∧
  ∃ s', parseSVCB t (renderSVCB s) = Ok s' ∧ svcbKey s' = svcbKey s ∧
    absoluteHost (https_Target s').
Proof.
  intros Hp Hv Hpl. split.
  - destruct (renderSVCB_lexemes zone t s Hp Hv Hpl) as (ls & -> & Hls & _).
    apply words_ends; [|done]. apply Forall_fmap. eapply Forall_impl; [done|]. by intros l [_ ?].
  - eexists. split; [by eapply parseSVCB_render|]. destruct Hpl as [He _].
    apply validateSVCB_Ok in Hv as (Hh & _); [|done].
    split; [|by apply hostOk_absolute]. unfold svcbKey.
    cbn [https_Priority https_Target https_Params].
    rewrite hostOk_canon, sortedKeys_fmap by done. do 4 f_equal. case_match; [done|].
    f_equal. apply list_fmap_ext. intros i k _. do 3 f_equal. rewrite lookup_fmap.
    destruct (https_Params s !! k) as [v|]; [exact (TrimSpace_idemp v)|done].
Qed.

Lemma roundtrip_HTTPS e s :
  re_HTTPS e = Some s → uint 16 (https_Priority s) →
  validateSVCB RRTypeHTTPS s zone = Ok tt → plainSVCB s → readsBack RRTypeHTTPS e.
Proof.
  intros He Hp Hv Hpl. destruct (svcb_reads_back _ s Hp Hv Hpl) as [Hends (s' & Hs & Hk & Ha)].
  cbn [Render Key]. rewrite He. eexists. split_and!.
  - apply (ParseValue_typed _ _ (FHTTPS s')); [done|]. cbn [parseTyped]. by rewrite Hs.
  - cbn [assign re_HTTPS]. by rewrite Hk.
  - done.
Qed.

Lemma roundtrip_SVCB e s :
  re_SVCB e = Some s → uint 16 (https_Priority s) →
  validateSVCB RRTypeSVCB s zone = Ok tt → plainSVCB s → readsBack RRTypeSVCB e.
Proof.
  intros He Hp Hv Hpl. destruct (svcb_reads_back _ s Hp Hv Hpl) as [Hends (s' & Hs & Hk & Ha)].
  cbn [Render Key]. rewrite He. eexists. split_and!.
  - apply (ParseValue_typed _ _ (FSVCB s')); [done|]. cbn [parseTyped]. by rewrite Hs.
  - cbn [assign re_SVCB]. by rewrite Hk.
  - done.
Qed.

Lemma validateSOA_Ok s :
  validateSOA s zone = Ok tt → escapeFree (soa_MName s) ∧ escapeFree (soa_RName s) →
  hostOk (soa_MName s) ∧ hostOk (soa_RName s).
Proof.
  unfold validateSOA. rewrite bind_Ok. intros ([] & Hm & Hr) [Em Er].
  split; [by eapply hostOk_check|]. cbn zeta in Hr.
  case_decide as Hne; [done|]. case_match eqn:Hat; [done|].
  apply bind_Ok in Hr as ([] & Hh & Hr). case_match; [done|].
  destruct (decide (TrimSpace (soa_RName s) = ".")) as [E|Hd].
  { unfold hostOk. by rewrite E. }
  apply (hostOk_check zone "SOA rname" _ relaxedHost false); [|done].
  unfold checkTargetHost. cbn zeta. rewrite !decide_False; [by rewrite Hh|done| |done].
  intros E. by rewrite E in Hat.
Qed.

Lemma roundtrip_SOA e s :
  re_SOA e = Some s →
  uint 32 (soa_Serial s) ∧ uint 32 (soa_Refresh s) ∧ uint 32 (soa_Retry s) ∧
    uint 32 (soa_Expire s) ∧ uint 32 (soa_TTL s) →
  serialDate today → hostOk (soa_MName s) → hostOk (soa_RName s) → readsBack RRTypeSOA e.
Proof.
  intros He (Hs & Hre & Hrt & Hex & Htt) Hd Hm Hr. cbn [Render Key]. rewrite He.
  destruct (parseSOA_render today s Hm Hr Hs Hre Hrt Hex Htt Hd) as [serial Hp].
  destruct (soaSerial_spec today (soa_Serial s) Hs Hd) as [Hlex _].
  destruct (orDefault_uint _ soaDefaultRefresh Hre) as [? ?]; [done..|].
  destruct (orDefault_uint _ soaDefaultRetry Hrt) as [? ?]; [done..|].
  destruct (orDefault_uint _ soaDefaultExpire Hex) as [? ?]; [done..|].
  destruct (orDefault_uint _ soaDefaultMinimum Htt) as [? ?]; [done..|].
  eexists. split_and!.
  - eapply (ParseValue_typed _ _ (FSOA _)); [bare_ends|]. cbn [parseTyped]. by rewrite Hp.
  - cbn [assign re_SOA soa_MName soa_RName soa_Refresh soa_Retry soa_Expire soa_TTL].
    rewrite !hostOk_canon by done.
    assert (∀ v d, d ≠ 0%Z → orDefault (orDefault v d) d = orDefault v d) as Hdd.
    { intros v d Hne. unfold orDefault. by destruct (Z.eqb_spec v 0) as [|Hv];
        [rewrite (proj2 (Z.eqb_neq d 0))|rewrite (proj2 (Z.eqb_neq v 0))]. }
    by rewrite !Hdd.
  - by split; apply hostOk_absolute.
Qed.

(** The types whose value is one host. *)
Definition hostField (t : RRType) (c : ContentSpec) : option TypedField :=
  match t with
  | RRTypeCNAME => Some (FCNAME c)
  | RRTypeALIAS => Some (FALIAS c)
  | RRTypeNS => Some (FNS c)
  | RRTypePTR => Some (FPTR c)
  | _ => None
  end.

Lemma roundtrip_host t e s f :
  hostField t s = Some f → Render today t e = qualify (Content s) →
  Key t e = Key t (assign f emptyEntry) → hostOk (Content s) → readsBack t e.
Proof.
  intros Hf HR HK Hh. rewrite HR, HK. destruct t; try done; injection Hf as <-;
    (eexists; split_and!; [by eapply ParseValue_typed; [apply hostOk_ends|]| |by apply hostOk_absolute]);
    cbn; by rewrite hostOk_canon.
Qed.

Lemma Render_readsBack t e :
  wf_RecordEntry e → serialDate today → ValidateInZone t e zone = Ok tt → plainEntry t e →
  readsBack t e.
Proof.
  intros Hwf Hd Hval Hpl. apply ValidateInZone_value in Hval.
  destruct t; cbn in Hval, Hpl; apply deref_Ok in Hval as (s & Hs & Hv);
    try specialize (Hpl s Hs).
  - by eapply roundtrip_A.
  - by eapply roundtrip_AAAA.
  - eapply roundtrip_host; [done|cbn; by rewrite Hs..|by eapply hostOk_check].
  - eapply roundtrip_host; [done|cbn; by rewrite Hs..|by eapply hostOk_check].
  - by eapply roundtrip_TXT.
  - eapply roundtrip_MX; [done|by eapply wf_MX|]. case_decide as E; [|by eapply hostOk_check].
    unfold hostOk. by rewrite E.
  - eapply roundtrip_SRV; [done|by eapply wf_SRV|by eapply hostOk_check].
  - eapply roundtrip_CAA; [done|by eapply wf_CAA|done].
  - eapply roundtrip_host; [done|cbn; by rewrite Hs..|by eapply hostOk_check].
  - apply validateSOA_Ok in Hv as [? ?]; [|done].
    eapply roundtrip_SOA; [done|by eapply wf_SOA|done..].
  - eapply roundtrip_host; [done|cbn; by rewrite Hs..|by eapply hostOk_check].
  - eapply roundtrip_TLSA; [done|by eapply wf_TLSA|done].
  - eapply roundtrip_HTTPS; [done|by eapply wf_HTTPS|done..].
  - eapply roundtrip_SVCB; [done|by eapply wf_SVCB|done..].
Qed.

(** C30. What the command line prints of a record value, it reads back as the same value:
    for an entry the validator accepts, [ParseValue] accepts the output of [Render]
    and the value has the same identity ([Key]), for every record type.  The SOA serial
    is not part of the identity.

    This is for entries whose integers are of their width, on a date that makes a 32-bit
    SOA serial ([serialDate]), and that are plain ([plainEntry]): host names have no
    backslash; CAA values and service parameters are printable ASCII without quotes and
    backslashes; parameter keys are ones [parseParam] accepts, and the flag key has no
    value (one is not printed); and TXT data, decoded, is not again a sequence of quoted
    strings. *)
Theorem Render_ParseValue t e :
  wf_RecordEntry e → serialDate today → ValidateInZone t e zone = Ok tt → plainEntry t e →
  ∃ e', ParseValue t (Render today t e) = Ok e' ∧ Key t e' = Key t e.
Proof.
  intros Hwf Hd Hval Hpl. destruct (Render_readsBack t e Hwf Hd Hval Hpl) as (f & Hp & Hk & _).
  eauto.
Qed.
End Roundtrip.

#[local] Existing Instance reference_runtime.

(** An HTTPS entry with quoted, unquoted and flag parameters. *)
Definition exampleHTTPS : RecordEntry := set_Name "www" (assign (FHTTPS {|
  https_Priority := 1; https_Target := "Svc.example.net.";
  https_Params := {[ "no-default-alpn" := []; "port" := "8443"; "ech" := "AEX+DQ;A="; "alpn" := "h3,h2" ]} |})
  emptyEntry).

#[local] Instance paramPlain_dec k v : Decision (paramPlain k v).
Proof. unfold paramPlain. apply _. Defined.
#[local] Instance plainSVCB_dec s : Decision (plainSVCB s).
Proof. unfold plainSVCB, escapeFree. apply _. Defined.

Lemma exampleHTTPS_plain : plainEntry RRTypeHTTPS exampleHTTPS.
Proof.
  intros s [= <-]. apply (bool_decide_unpack _). vm_compute. exact I.
Qed.

Lemma exampleHTTPS_wf : wf_RecordEntry exampleHTTPS.
Proof. by split; intros s [= <-]. Qed.

Lemma Render_ParseValue_witness :
  Render "20240101" RRTypeHTTPS exampleHTTPS =
    "1 Svc.example.net. alpn=h3,h2 no-default-alpn port=8443 ech=" ++ quoteTXT "AEX+DQ;A=" ∧
  ∃ e', ParseValue RRTypeHTTPS (Render "20240101" RRTypeHTTPS exampleHTTPS) = Ok e' ∧
    Key RRTypeHTTPS e' = Key RRTypeHTTPS exampleHTTPS.
Proof.
  split; [vm_compute; reflexivity|]. apply (Render_ParseValue "20240101" "example.com").
  - apply exampleHTTPS_wf.
  - eexists. vm_compute. reflexivity.
  - vm_compute. reflexivity.
  - apply exampleHTTPS_plain.
Defined.
