(* ===== verification/BindScan.v ===== *)
(** Package [internal/cmd/dns/bind], files [scan.go], [ttl.go] and [errors.go]: zone
    files as logical lines and fields.

    The reader is the text it yields; a physical line is what [bufio.Scanner] returns
    with the 1 MiB limit the source sets.  Read errors of the underlying reader are not
    modelled. *)

From S2P Require Import Prelude GoStrings Api RdataTypes RdataTTL.

(** One constructor per error site; [at] and [atf] put the line number in front.  An
    error of package [rdata] is wrapped. *)
Inductive BindError :=
(* scan.go *)
| BETooLong
| BECloseParen
| BEOpenParen
| BEOpenString
(* ttl.go *)
| BETTLEmpty
| BETTLRange (s : gostring)
| BEBadTTL (s : gostring)
(* parse.go *)
| BEOriginMissing
| BEOriginRelative (s : gostring)
| BETTLMissing
| BEInclude
| BEGenerate
| BENoOwner
| BENoType (raw : gostring)
| BENotAType (s : gostring)
| BENoValue (t : RRType) (raw : gostring)
| BERdata (e : RdataTypes.Error)
(* emit.go *)
| BENoOrigin
| BENoRecordValue (t : RRType) (name : gostring).

(** [Error]: line 0 is no line. *)
Record Error := { err_Line : Z; err_Msg : BindError }.
Definition atLine (line : Z) (e : BindError) : Error := {| err_Line := line; err_Msg := e |}.

(** * ttl.go *)

Definition looksLikeTTL (tok : gostring) : bool :=
  match tok with c :: _ => isDigit c | [] => false end.

Definition parseTTL `{GoRuntime} (s : gostring) : result BindError Z :=
  if decide (s = []) then Err BETTLEmpty
  else match ParseTTLSeconds s with
       | Ok secs => Ok secs
       | Err e => if isErrTTLRange e then Err (BETTLRange s) else Err (BEBadTTL s)
       end.

(** * scan.go *)

Record logicalLine := {
  ll_text : gostring; ll_line : Z; ll_raw : gostring; ll_inherits : bool }.

(** The loop of [stripLine]: what is written and the new depth. *)
Fixpoint stripFrom (inQuote : bool) (depth : Z) (s : gostring) : result BindError (gostring * Z) :=
  match s with
  | [] => if inQuote then Err BEOpenString else Ok ([], depth)
  | c :: s' =>
      let step :=
        if Ascii.eqb c dquote then prod_map (cons c) id <$> stripFrom (negb inQuote) depth s'
        else if inQuote then prod_map (cons c) id <$> stripFrom inQuote depth s'
        else if Ascii.eqb c ";" then Ok ([], depth)
        else if Ascii.eqb c "(" then prod_map (cons " "%char) id <$> stripFrom inQuote (depth + 1) s'
        else if Ascii.eqb c ")" then
          if (depth =? 0)%Z then Err BECloseParen
          else prod_map (cons " "%char) id <$> stripFrom inQuote (depth - 1) s'
        else prod_map (cons c) id <$> stripFrom inQuote depth s' in
      match s' with
      | d :: s'' =>
          if Ascii.eqb c backslash
          then prod_map (app [c; d]) id <$> stripFrom inQuote depth s''
          else step
      | [] => step
      end
  end.
Definition stripLine (s : gostring) (depth : Z) : result BindError (gostring * Z) :=
  stripFrom false depth s.

Definition blank (c : ascii) : bool := Ascii.eqb c " " || Ascii.eqb c tab.

Fixpoint collapseFrom (inQuote lastSpace : bool) (s : gostring) : gostring :=
  match s with
  | [] => []
  | c :: s' =>
      let step :=
        if Ascii.eqb c dquote then c :: collapseFrom (negb inQuote) false s'
        else if negb inQuote && blank c then
          (if lastSpace then [] else [" "%char]) ++ collapseFrom inQuote true s'
        else c :: collapseFrom inQuote false s' in
      match s' with
      | d :: s'' =>
          if Ascii.eqb c backslash then c :: d :: collapseFrom inQuote false s'' else step
      | [] => step
      end
  end.
Definition collapseSpaces (s : gostring) : gostring := collapseFrom false false s.

(** [bufio.ScanLines]: split at newlines, one final carriage return of each line
    dropped, no line after a final newline. *)
Definition dropCR (s : gostring) : gostring := TrimSuffix s [cr].
Definition physicalLines (text : gostring) : list gostring :=
  let parts := splitByte newline text in
  match last parts with
  | Some [] => take (length parts - 1) parts
  | _ => parts
  end.
Definition maxLine : Z := 1048576.

(** The variables of [scan] between physical lines. *)
Record scanState := {
  sc_out : list logicalLine;
  sc_cur : gostring;
  sc_rawParts : list gostring;
  sc_depth : Z;
  sc_startLine : Z;
  sc_inherits : bool;
}.
Definition scanInit : scanState :=
  {| sc_out := []; sc_cur := []; sc_rawParts := []; sc_depth := 0; sc_startLine := 0;
     sc_inherits := false |}.

(** The body of the loop of [scan] on the physical line [raw] with number [lineNo]. *)
Definition scanLine (st : scanState) (lineNo : Z) (raw : gostring) : result Error scanState :=
  let phys := TrimRightByte (dropCR raw) cr in
  match stripLine phys (sc_depth st) with
  | Err e => Err (atLine lineNo e)
  | Ok (stripped, newDepth) =>
      let starting := (sc_depth st =? 0)%Z && bool_decide (sc_cur st = []) in
      if starting && (newDepth =? 0)%Z && bool_decide (TrimSpace stripped = []) then Ok st
      else
        let startLine := if starting then lineNo else sc_startLine st in
        let inherits := if starting
                        then match phys with c :: _ => blank c | [] => false end
                        else sc_inherits st in
        let rawParts := if starting then [] else sc_rawParts st in
        let cur := (match sc_cur st with [] => [] | cur => cur ++ " " end) ++ TrimSpace stripped in
        let rawParts := rawParts ++ [TrimSpace phys] in
        if (newDepth =? 0)%Z then
          let text := TrimSpace (collapseSpaces cur) in
          let out := if decide (text = []) then sc_out st
                     else sc_out st ++ [{| ll_text := text; ll_line := startLine;
                                           ll_raw := Join rawParts " ";
                                           ll_inherits := inherits |}] in
          Ok {| sc_out := out; sc_cur := []; sc_rawParts := []; sc_depth := newDepth;
                sc_startLine := startLine; sc_inherits := inherits |}
        else
          Ok {| sc_out := sc_out st; sc_cur := cur; sc_rawParts := rawParts;
                sc_depth := newDepth; sc_startLine := startLine; sc_inherits := inherits |}
  end.

Fixpoint scanLines (st : scanState) (lineNo : Z) (lines : list gostring) :
    result Error scanState :=
  match lines with
  | [] => Ok st
  | raw :: lines' =>
      if (maxLine <=? Z.of_nat (length raw))%Z then Err (atLine 0 BETooLong)
      else
        st' ← scanLine st (lineNo + 1) raw;
        scanLines st' (lineNo + 1) lines'
  end.

Definition scan (text : gostring) : result Error (list logicalLine) :=
  st ← scanLines scanInit 0 (physicalLines text);
  if (0 <? sc_depth st)%Z then Err (atLine (sc_startLine st) BEOpenParen)
  else Ok (sc_out st).

(** * Fields *)

Record token := { text : gostring; start : nat }.

(** One field: its text and the rest. *)
Fixpoint fieldBody (inQuote : bool) (s : gostring) : gostring * gostring :=
  match s with
  | [] => ([], [])
  | c :: s' =>
      let step :=
        if Ascii.eqb c dquote then prod_map (cons c) id (fieldBody (negb inQuote) s')
        else if negb inQuote && blank c then ([], s)
        else prod_map (cons c) id (fieldBody inQuote s') in
      match s' with
      | d :: s'' =>
          if Ascii.eqb c backslash then prod_map (app [c; d]) id (fieldBody inQuote s'')
          else step
      | [] => step
      end
  end.

Fixpoint skipBlanks (s : gostring) : gostring :=
  match s with c :: s' => if blank c then skipBlanks s' else s | [] => [] end.

(** The loop of [splitFields] from offset [off]; every field consumes a byte, so one
    more than the length is enough fuel. *)
Fixpoint splitFrom (fuel off : nat) (s : gostring) : list token :=
  match fuel with
  | O => []
  | S fuel' =>
      let s' := skipBlanks s in
      let off' := off + (length s - length s') in
      match s' with
      | [] => []
      | _ =>
          let '(b, rest) := fieldBody false s' in
          {| text := b; start := off' |} :: splitFrom fuel' (off' + (length s' - length rest)) rest
      end
  end.
Definition splitFields (s : gostring) : list token := splitFrom (S (length s)) 0 s.
