(* ===== verification/BindParse.v ===== *)
(** Package [internal/cmd/dns/bind], files [parse.go], [emit.go] and [api.go]: zone
    files read into records and records written as a zone file.

    The registry of RR type names, [dns.StringToType] of miekg/dns, is the parameter
    [StringToType].  Messages are values; the writer is the text written. *)

From S2P Require Import Prelude GoStrings Api RdataTypes RdataToken RdataTTL RdataName.
From S2P Require Import RdataParse RdataRender BindScan.

Record BindRecord := {
  br_Name : gostring; br_TTL : option Z; br_Type : RRType; br_Entry : RecordEntry;
  br_Line : Z }.

Record Unsupported := {
  un_Line : Z; un_Name : gostring; un_Type : gostring; un_Raw : gostring }.

(** The advisories of [Parse], one constructor per message. *)
Inductive BindWarning :=
| BWDirective (name : gostring) (line : Z)
| BWClass (line : Z) (class : gostring)
| BWOwner (line : Z) (w : Warning)
| BWRelative (line : Z) (written expanded : gostring)
| BWNoOrigin
| BWDuplicate (line : Z) (t : RRType) (name : gostring) (first : Z).

Record ParseResult := {
  pr_Origin : gostring;
  pr_Records : list BindRecord;
  pr_Unsupported : list Unsupported;
  pr_Warnings : list BindWarning;
}.

Definition dnsClasses : list gostring := ["IN"; "CH"; "HS"; "CS"].

Definition displayOwner (written qualified : gostring) : gostring :=
  if decide (written ≠ []) then written else qualified.

Definition looksLikeBadTTL (tok : gostring) : bool :=
  match tok with
  | c :: ((_ :: _) as rest) => (Ascii.eqb c "-" || Ascii.eqb c "+") && forallb isDigit rest
  | _ => false
  end.

(** [expand] and the rewriting of every host field. *)
Definition expand (v origin : gostring) : gostring :=
  let v := TrimSpace v in
  if decide (v = []) then v
  else if decide (v = "@") then if decide (origin = []) then v else origin ++ "."
  else if HasSuffix v "." then v
  else if decide (origin = []) then v
  else v ++ "." ++ origin ++ ".".

Definition expandSVCB (v origin : gostring) : gostring :=
  if decide (TrimSpace v = ".") then "." else expand v origin.

Definition expandContent (origin : gostring) (s : ContentSpec) : ContentSpec :=
  {| Content := expand (Content s) origin |}.
Definition expandTarget (origin : gostring) (s : HTTPSRecordSpec) : HTTPSRecordSpec :=
  {| https_Priority := https_Priority s; https_Target := expandSVCB (https_Target s) origin;
     https_Params := https_Params s |}.

(** The field is there: the entry comes from [ParseValue] for the same type. *)
Definition absolutizeTargets (t : RRType) (e : RecordEntry) (origin : gostring) : RecordEntry :=
  let upd {A} (o : option A) (f : A → TypedField) :=
    match o with Some s => assign (f s) e | None => e end in
  match t with
  | RRTypeCNAME => upd (re_CNAME e) (λ s, FCNAME (expandContent origin s))
  | RRTypeALIAS => upd (re_ALIAS e) (λ s, FALIAS (expandContent origin s))
  | RRTypeNS => upd (re_NS e) (λ s, FNS (expandContent origin s))
  | RRTypePTR => upd (re_PTR e) (λ s, FPTR (expandContent origin s))
  | RRTypeMX => upd (re_MX e) (λ s,
      FMX {| mx_Preference := mx_Preference s; mx_Exchange := expand (mx_Exchange s) origin |})
  | RRTypeSRV => upd (re_SRV e) (λ s,
      FSRV {| srv_Priority := srv_Priority s; srv_Weight := srv_Weight s;
              srv_Port := srv_Port s; srv_Target := expand (srv_Target s) origin |})
  | RRTypeHTTPS => upd (re_HTTPS e) (λ s, FHTTPS (expandTarget origin s))
  | RRTypeSVCB => upd (re_SVCB e) (λ s, FSVCB (expandTarget origin s))
  | RRTypeSOA => upd (re_SOA e) (λ s,
      FSOA {| soa_MName := expand (soa_MName s) origin; soa_RName := expand (soa_RName s) origin;
              soa_Serial := soa_Serial s; soa_Refresh := soa_Refresh s;
              soa_Retry := soa_Retry s; soa_Expire := soa_Expire s; soa_TTL := soa_TTL s |})
  | _ => e
  end.

Definition absolute (zone : gostring) : gostring :=
  if decide (zone = []) then [] else if HasSuffix zone "." then zone else zone ++ ".".

Section Parse.
Context `{GoRuntime} (StringToType : gostring → bool).

Definition knownRRType (name : gostring) : bool :=
  if StringToType (ToUpper name) then true
  else if HasPrefix (ToUpper name) "TYPE" then
    let rest := drop 4 name in
    negb (bool_decide (rest = [])) && forallb isDigit rest
  else false.

Definition qualifyOwner (owner origin : gostring) : gostring :=
  let o := ToLower (TrimSpace owner) in
  if decide (o = "@") then if decide (origin = []) then "@" else origin ++ "."
  else if HasSuffix o "." then o
  else if decide (origin = []) then o
  else o ++ "." ++ origin ++ ".".

(** The name and its advisories; the last one is about the spelling [written]. *)
Definition ownerName (line : Z) (qualified written zone : gostring) :
    result RdataTypes.Error (gostring * list BindWarning) :=
  '(name, warns) ← NormalizeNameWithWarnings qualified zone;
  let raw := ToLower (TrimSpace written) in
  let relative := negb (bool_decide (zone = [])) && negb (bool_decide (raw = []))
    && negb (bool_decide (raw = "@")) && negb (HasSuffix raw ".")
    && HasSuffix raw ("." ++ zone) in
  Ok (name, (BWOwner line <$> warns)
            ++ (if relative then [BWRelative line written (raw ++ "." ++ zone ++ ".")] else [])).

(** [directive]: the new origin when it sets one, the TTL in force and the advisory. *)
Definition directive (ll : logicalLine) (current : gostring) (ttl : option Z) :
    result Error (option gostring * option Z * list BindWarning) :=
  let toks := splitFields (ll_text ll) in
  let name := ToUpper (default [] (text <$> toks !! 0)) in
  if decide (name = "$ORIGIN") then
    match toks !! 1 with
    | None => Err (atLine (ll_line ll) BEOriginMissing)
    | Some tok =>
        let o := ToLower (text tok) in
        if negb (HasSuffix o ".") then
          if decide (current = []) then Err (atLine (ll_line ll) (BEOriginRelative (text tok)))
          else Ok (Some (TrimSuffix (o ++ "." ++ current) "."), ttl, [])
        else Ok (Some (TrimSuffix o "."), ttl, [])
    end
  else if decide (name = "$TTL") then
    match toks !! 1 with
    | None => Err (atLine (ll_line ll) BETTLMissing)
    | Some tok =>
        match parseTTL (text tok) with
        | Err e => Err (atLine (ll_line ll) e)
        | Ok v => Ok (None, Some v, [])
        end
    end
  else if decide (name = "$INCLUDE") then Err (atLine (ll_line ll) BEInclude)
  else if decide (name = "$GENERATE") then Err (atLine (ll_line ll) BEGenerate)
  else Ok (None, ttl, [BWDirective name (ll_line ll)]).

(** The loop over the TTL and the class: the TTL, the advisories and the rest of the
    tokens. *)
Fixpoint ttlAndClass (line : Z) (ttl : option Z) (warns : list BindWarning) (toks : list token) :
    result Error (option Z * list BindWarning * list token) :=
  match toks with
  | [] => Ok (ttl, warns, [])
  | tok :: toks' =>
      let class := ToUpper (text tok) in
      if decide (class ∈ dnsClasses) then
        ttlAndClass line ttl
          (if decide (class ≠ "IN") then warns ++ [BWClass line class] else warns) toks'
      else if bool_decide (ttl = None) && looksLikeTTL (text tok) then
        match parseTTL (text tok) with
        | Err e => Err (atLine line e)
        | Ok v => ttlAndClass line (Some v) warns toks'
        end
      else Ok (ttl, warns, toks)
  end.

(** What a statement yields besides its owner and advisories. *)
Inductive Statement := SNothing | SRecord (r : BindRecord) | SUnsupported (u : Unsupported).

(** From the type token on. *)
Definition typeAndValue (ll : logicalLine) (current zone : gostring) (defaultTTL : option Z)
    (written owner : gostring) (ttl : option Z) (warns : list BindWarning) (toks : list token) :
    result Error (Statement * gostring * list BindWarning) :=
  let line := ll_line ll in
  match toks with
  | [] => Err (atLine line (BENoType (ll_raw ll)))
  | tok :: toks' =>
      let typeTok := ToUpper (text tok) in
      match ParseRRType typeTok with
      | Err _ =>
          if looksLikeBadTTL (text tok) then Err (atLine line (BEBadTTL (text tok)))
          else if negb (knownRRType typeTok) then Err (atLine line (BENotAType (text tok)))
          else Ok (SUnsupported {| un_Line := line; un_Name := displayOwner written owner;
                                   un_Type := typeTok; un_Raw := ll_raw ll |}, owner, warns)
      | Ok rrType =>
          match toks' with
          | [] => Err (atLine line (BENoValue rrType (ll_raw ll)))
          | vtok :: _ =>
              let value := TrimSpace (drop (start vtok) (ll_text ll)) in
              match ParseValue rrType value with
              | Err e => Err (atLine line (BERdata e))
              | Ok entry =>
                  let entry := absolutizeTargets rrType entry current in
                  match ownerName line owner written zone with
                  | Err e => Err (atLine line (BERdata e))
                  | Ok (name, nameWarns) =>
                      let ttl := match ttl with None => defaultTTL | _ => ttl end in
                      let entry := set_TTL ttl (set_Name name entry) in
                      Ok (SRecord {| br_Name := name; br_TTL := ttl; br_Type := rrType;
                                     br_Entry := entry; br_Line := line |},
                          owner, warns ++ nameWarns)
                  end
              end
          end
      end
  end.

Definition parseRecord (ll : logicalLine) (current zone : gostring) (defaultTTL : option Z)
    (prevOwner : gostring) : result Error (Statement * gostring * list BindWarning) :=
  let toks := splitFields (ll_text ll) in
  match toks with
  | [] => Ok (SNothing, prevOwner, [])
  | tok0 :: toks' =>
      let continue written owner toks :=
        '(ttl, warns, rest) ← ttlAndClass (ll_line ll) None [] toks;
        typeAndValue ll current zone defaultTTL written owner ttl warns rest in
      if negb (ll_inherits ll) then
        continue (text tok0) (qualifyOwner (text tok0) current) toks'
      else if decide (prevOwner = []) then Err (atLine (ll_line ll) BENoOwner)
      else continue [] prevOwner toks
  end.

(** [dedupeWarnings]; [seen] maps what identifies a record to the line of the first. *)
Definition recordIdentity (r : BindRecord) : gostring :=
  RRTypeString (br_Type r) ++ ["000"%char] ++ br_Name r ++ ["000"%char]
  ++ Key (br_Type r) (br_Entry r).
Fixpoint dedupeFrom (seen : gmap gostring Z) (records : list BindRecord) : list BindWarning :=
  match records with
  | [] => []
  | r :: records' =>
      let k := recordIdentity r in
      match seen !! k with
      | Some first => BWDuplicate (br_Line r) (br_Type r) (br_Name r) first
                      :: dedupeFrom seen records'
      | None => dedupeFrom (<[k := br_Line r]> seen) records'
      end
  end.
Definition dedupeWarnings (records : list BindRecord) : list BindWarning := dedupeFrom ∅ records.

(** The variables of the loop of [Parse]. *)
Record parseState := {
  ps_current : gostring;
  ps_fileTTL : option Z;
  ps_sawOrigin : bool;
  ps_prevOwner : gostring;
  ps_records : list BindRecord;
  ps_unsupported : list Unsupported;
  ps_warnings : list BindWarning;
}.

Definition parseLine (zone : gostring) (st : parseState) (ll : logicalLine) :
    result Error parseState :=
  if HasPrefix (ll_text ll) "$" then
    '(newOrigin, newTTL, warn) ← directive ll (ps_current st) (ps_fileTTL st);
    Ok {| ps_current := default (ps_current st) newOrigin;
          ps_fileTTL := newTTL;
          ps_sawOrigin := ps_sawOrigin st || bool_decide (is_Some newOrigin);
          ps_prevOwner := ps_prevOwner st;
          ps_records := ps_records st;
          ps_unsupported := ps_unsupported st;
          ps_warnings := ps_warnings st ++ warn |}
  else
    '(stmt, owner, warns) ← parseRecord ll (ps_current st) zone (ps_fileTTL st) (ps_prevOwner st);
    Ok {| ps_current := ps_current st;
          ps_fileTTL := ps_fileTTL st;
          ps_sawOrigin := ps_sawOrigin st;
          ps_prevOwner := owner;
          ps_records := ps_records st ++ match stmt with SRecord r => [r] | _ => [] end;
          ps_unsupported := ps_unsupported st
            ++ match stmt with SUnsupported u => [u] | _ => [] end;
          ps_warnings := ps_warnings st ++ warns |}.

Fixpoint parseLines (zone : gostring) (st : parseState) (lls : list logicalLine) :
    result Error parseState :=
  match lls with
  | [] => Ok st
  | ll :: lls' => st' ← parseLine zone st ll; parseLines zone st' lls'
  end.

Definition zoneOf (origin : gostring) : gostring := TrimSuffix (ToLower (TrimSpace origin)) ".".

Definition Parse (file origin : gostring) (defaultTTL : option Z) : result Error ParseResult :=
  let zone := zoneOf origin in
  lls ← scan file;
  st ← parseLines zone {| ps_current := zone; ps_fileTTL := defaultTTL; ps_sawOrigin := false;
                          ps_prevOwner := []; ps_records := []; ps_unsupported := [];
                          ps_warnings := [] |} lls;
  let noOrigin := negb (ps_sawOrigin st) && bool_decide (zone = [])
    && negb (bool_decide (ps_records st = [])) in
  Ok {| pr_Origin := absolute (ps_current st);
        pr_Records := ps_records st;
        pr_Unsupported := ps_unsupported st;
        pr_Warnings := ps_warnings st ++ (if noOrigin then [BWNoOrigin] else [])
                       ++ dedupeWarnings (ps_records st) |}.
End Parse.

(** * emit.go *)

Definition defaultEmitTTL : Z := 300.

Definition emitOrder : list RRType :=
  [RRTypeSOA; RRTypeNS; RRTypeA; RRTypeAAAA; RRTypeALIAS; RRTypeCNAME; RRTypeMX; RRTypeTXT;
   RRTypeSRV; RRTypeCAA; RRTypePTR; RRTypeTLSA; RRTypeHTTPS; RRTypeSVCB].

Definition displayName (n : gostring) : gostring := if decide (n = []) then "@" else n.

Definition pad (s : gostring) (width : nat) : gostring :=
  if width <=? length s then s else s ++ Repeat " " (width - length s).

Definition nameLess (a b : gostring) : bool :=
  if decide (a = "@") then negb (bool_decide (b = "@"))
  else if decide (b = "@") then false
  else str_ltb a b.

(** A row of [rendered]: name, TTL, type and value. *)
Record row := { row_name : gostring; row_ttl : gostring; row_type : gostring; row_value : gostring }.

Definition rowLess (a b : row) : bool :=
  if decide (row_name a ≠ row_name b) then nameLess (row_name a) (row_name b)
  else str_ltb (row_value a) (row_value b).

Definition rowText (nameWidth ttlWidth typeWidth : nat) (r : row) : gostring :=
  pad (row_name r) nameWidth ++ " " ++ pad (row_ttl r) ttlWidth ++ " IN "
  ++ pad (row_type r) typeWidth ++ " " ++ row_value r ++ [newline].

Section Emit.
Context `{GoRuntime} (today : gostring).

Definition rowOf (t : RRType) (r : BindRecord) : row :=
  {| row_name := displayName (br_Name r);
     row_ttl := match br_TTL r with Some v => FormatInt v | None => [] end;
     row_type := RRTypeString t;
     row_value := Render today t (br_Entry r) |}.

Definition writeGroup (t : RRType) (group : list BindRecord) : gostring :=
  let rendered := SliceStable rowLess (rowOf t <$> group) in
  let nameWidth := foldl Nat.max 0 (length ∘ row_name <$> rendered) in
  let ttlWidth := foldl Nat.max 0 (length ∘ row_ttl <$> rendered) in
  [newline] ++ "; " ++ RRTypeString t ++ [newline]
  ++ (rendered ≫= rowText nameWidth ttlWidth (length (RRTypeString t))).

(** The types of the records that [emitOrder] does not list, sorted. *)
Definition sortedTypes (records : list BindRecord) : list RRType :=
  sort_slice (λ a b, str_ltb (RRTypeString a) (RRTypeString b))
    (filter (λ t, t ∉ emitOrder) (remove_dups (br_Type <$> records))).

Definition Emit (origin : gostring) (defaultTTL : Z) (records : list BindRecord) :
    result Error gostring :=
  let zone := zoneOf origin in
  if decide (zone = []) then Err (atLine 0 BENoOrigin)
  else
    let defaultTTL := if (defaultTTL <=? 0)%Z || (MaxTTL <? defaultTTL)%Z
                      then defaultEmitTTL else defaultTTL in
    match list_find (λ r, Render today (br_Type r) (br_Entry r) = []) records with
    | Some (_, r) => Err (atLine 0 (BENoRecordValue (br_Type r) (displayName (br_Name r))))
    | None =>
        let group t := filter (λ r, br_Type r = t) records in
        Ok ("$ORIGIN " ++ zone ++ "." ++ [newline]
            ++ "$TTL " ++ FormatInt defaultTTL ++ [newline]
            ++ (emitOrder ≫= λ t, match group t with [] => [] | g => writeGroup t g end)
            ++ (sortedTypes records ≫= λ t, writeGroup t (group t)))
    end.
End Emit.

(** * api.go *)

Definition RecordsFromSet (set : DNSRecordSet) : list BindRecord :=
  (λ entry,
     let e := EntryFromAPI (rs_RecordType set) entry in
     let name := if decide (re_Name e = []) then "@" else re_Name e in
     let e := set_Name name e in
     {| br_Name := name; br_TTL := re_TTL e; br_Type := rs_RecordType set; br_Entry := e;
        br_Line := 0 |}) <$> rs_Records set.
