(* ===== verification/BindLines.v ===== *)
(** Package [internal/cmd/dns/bind]: the lines of an emitted zone file, from the
    scanner to the fields of a statement. *)

From S2P Require Import Prelude GoStrings GoNetip Api RdataTypes RdataToken RdataTTL RdataName.
From S2P Require Import RdataParse RdataRender RdataValidate RdataLex RdataRoundtrip.
From S2P Require Import BindScan BindParse.

(** * Physical lines *)

Definition unlines (ls : list gostring) : gostring := ls ≫= λ l, l ++ [newline].

Lemma splitByte_single sep s : sep ∉ s → splitByte sep s = [s].
Proof.
  induction s as [|c s IH]; [done|]. intros [Hc Hs]%not_elem_of_cons. cbn.
  rewrite (proj2 (Ascii.eqb_neq c sep)) by done. by rewrite (IH Hs).
Qed.

Lemma physicalLines_unlines ls :
  Forall (λ l, newline ∉ l) ls → physicalLines (unlines ls) = ls.
Proof.
  intros Hls. unfold physicalLines. assert (splitByte newline (unlines ls) = ls ++ [[]]) as ->.
  { induction Hls as [|l ls Hl Hls IH]; [done|]. unfold unlines. rewrite bind_cons.
    fold (unlines ls). rewrite <- app_assoc. cbn [app].
    by rewrite splitByte_app, splitByte_single, IH. }
  rewrite last_snoc, length_app, Nat.add_sub. by rewrite take_app_length.
Qed.

(** * Text the scanner keeps *)

(** A word of the owner, TTL, class and type columns. *)
Definition columnByte (c : ascii) : bool :=
  plainByte c && printable c && negb (ContainsByte [dquote; backslash; ";"%char; "("%char; ")"%char] c).
Definition columnWord (w : gostring) : Prop := w ≠ [] ∧ forallb columnByte w = true.

(** Text on one line with no syntax outside quoted strings, single blanks, and no open
    string at its end; [lastSpace] tells whether a blank came before. *)
Fixpoint cleanFrom (inQuote lastSpace : bool) (s : gostring) : bool :=
  match s with
  | [] => negb inQuote
  | c :: s' =>
      printable c &&
      if Ascii.eqb c backslash then
        match s' with d :: s'' => printable d && cleanFrom inQuote false s'' | [] => false end
      else if Ascii.eqb c dquote then cleanFrom (negb inQuote) false s'
      else if inQuote then cleanFrom inQuote false s'
      else if Ascii.eqb c " " then negb lastSpace && cleanFrom false true s'
      else negb (ContainsByte ";()" c) && cleanFrom false false s'
  end.

(** A word that leaves the scanner where it was. *)
Definition cleanWord (w : gostring) : Prop :=
  ∀ lastSpace s, cleanFrom false lastSpace (w ++ s) = cleanFrom false false s.

(** Clean text, one byte or escape at a time: the cases of the scanner's loops. *)
Lemma cleanFrom_ind (P : bool → bool → gostring → Prop) :
  (∀ ls, P false ls []) →
  (∀ q ls c s, printable c = true → P q false s → P q ls (backslash :: c :: s)) →
  (∀ q ls s, P (negb q) false s → P q ls (dquote :: s)) →
  (∀ ls c s, c ≠ backslash → c ≠ dquote → printable c = true → P true false s →
     P true ls (c :: s)) →
  (∀ s, P false true s → P false false (" "%char :: s)) →
  (∀ ls c s, c ≠ backslash → c ≠ dquote → c ≠ " "%char → printable c = true →
     ContainsByte ";()" c = false → P false false s → P false ls (c :: s)) →
  ∀ q ls s, cleanFrom q ls s = true → P q ls s.
Proof.
  intros H0 Hesc Hq Hin Hsp Hc q ls s. remember (length s) as n eqn:Hn.
  revert q ls s Hn. induction (lt_wf n) as [n _ IH]. intros q ls s ->.
  destruct s as [|c s]; cbn [cleanFrom]; [by destruct q|].
  intros [Hp Hs]%andb_true_iff.
  destruct (Ascii.eqb_spec c backslash) as [-> |Hb].
  { destruct s as [|d s]; [done|]. apply andb_true_iff in Hs as [Hd Hs].
    apply Hesc; [done|]. eapply IH; [|done|done]. cbn. lia. }
  assert (∀ q ls, cleanFrom q ls s = true → P q ls s) as IH'
    by (intros q' ls' ?; eapply IH; [|done|done]; cbn; lia).
  destruct (Ascii.eqb_spec c dquote) as [-> |Hd]; [by apply Hq, IH'|].
  destruct q; [by apply Hin; [..|apply IH']|].
  destruct (Ascii.eqb_spec c " ") as [-> |Hne].
  - apply andb_true_iff in Hs as [Hl Hs]. destruct ls; [done|]. by apply Hsp, IH'.
  - apply andb_true_iff in Hs as [Hl%negb_true_iff Hs]. apply Hc; try done. by apply IH'.
Qed.

Lemma stripFrom_clean q ls s d : cleanFrom q ls s = true → stripFrom q d s = Ok (s, d).
Proof.
  revert q ls s. apply (cleanFrom_ind (λ q ls s, stripFrom q d s = Ok (s, d))); cbn [stripFrom].
  - done.
  - intros q ls c s _ IH. rewrite Ascii.eqb_refl. by rewrite IH.
  - intros q ls s IH. destruct s; by rewrite IH.
  - intros ls c s Hb Hd Hp IH.
    rewrite (proj2 (Ascii.eqb_neq c backslash)), (proj2 (Ascii.eqb_neq c dquote)) by done.
    destruct s; by rewrite IH.
  - intros s IH. destruct s; by rewrite IH.
  - intros ls c s Hb Hd Hs Hp Hc IH.
    rewrite (proj2 (Ascii.eqb_neq c backslash)), (proj2 (Ascii.eqb_neq c dquote)) by done.
    assert (Ascii.eqb c ";" = false ∧ Ascii.eqb c "(" = false ∧ Ascii.eqb c ")" = false)
      as (-> & -> & ->) by (by bytecases c).
    destruct s; by rewrite IH.
Qed.

Lemma collapseFrom_clean q ls s : cleanFrom q ls s = true → collapseFrom q ls s = s.
Proof.
  revert q ls s. apply (cleanFrom_ind (λ q ls s, collapseFrom q ls s = s)); cbn [collapseFrom].
  - done.
  - intros q ls c s _ IH. rewrite Ascii.eqb_refl. by rewrite IH.
  - intros q ls s IH. destruct s; by rewrite IH.
  - intros ls c s Hb Hd Hp IH.
    rewrite (proj2 (Ascii.eqb_neq c backslash)), (proj2 (Ascii.eqb_neq c dquote)) by done.
    destruct s; by rewrite IH.
  - intros s IH. destruct s; by rewrite IH.
  - intros ls c s Hb Hd Hs Hp Hc IH.
    rewrite (proj2 (Ascii.eqb_neq c backslash)), (proj2 (Ascii.eqb_neq c dquote)) by done.
    assert (blank c = false) as -> by (by bytecases c).
    destruct s; by rewrite IH.
Qed.

Lemma cleanFrom_newline q ls s : cleanFrom q ls s = true → newline ∉ s.
Proof.
  revert q ls s. apply (cleanFrom_ind (λ q ls s, newline ∉ s)).
  - intros _. apply not_elem_of_nil.
  - intros q ls c s Hp IH. rewrite !not_elem_of_cons. split_and!; [done|by intros <-|done].
  - intros q ls s IH. rewrite not_elem_of_cons. done.
  - intros ls c s _ _ Hp IH. rewrite not_elem_of_cons. split; [by intros <-|done].
  - intros s IH. rewrite not_elem_of_cons. done.
  - intros ls c s _ _ _ Hp _ IH. rewrite not_elem_of_cons. split; [by intros <-|done].
Qed.

(** ** Clean words *)

Lemma cleanWord_app a b : cleanWord a → cleanWord b → cleanWord (a ++ b).
Proof. intros Ha Hb ls s. by rewrite <- app_assoc, Ha, Hb. Qed.

Lemma cleanWord_column w : columnWord w → cleanWord w.
Proof.
  intros [Hne Hw] ls s. revert ls. induction w as [|c w IH]; [done|]. intros ls.
  cbn in Hw. apply andb_true_iff in Hw as [Hc Hw]. cbn [app cleanFrom].
  assert (printable c = true ∧ Ascii.eqb c backslash = false ∧ Ascii.eqb c dquote = false ∧
    Ascii.eqb c " " = false ∧ ContainsByte ";()" c = false) as (-> & -> & -> & -> & ->)
    by (by bytecases c).
  cbn [andb negb]. destruct w as [|d w]; [done|]. by apply IH.
Qed.

Lemma cleanFrom_quoteBody ls v s :
  cleanFrom true ls (quoteBody v ++ s) = cleanFrom true false s.
Proof.
  revert ls. induction v as [|c v IH]; intros ls; [by destruct s|].
  change (quoteBody (c :: v)) with (quoteByte c ++ quoteBody v). rewrite <- app_assoc.
  rewrite <- (IH false). generalize (quoteBody v ++ s). intros r. by bytecases c.
Qed.

Lemma cleanWord_quoted v : cleanWord (quoteTXT v).
Proof.
  intros ls s. unfold quoteTXT. cbn [app cleanFrom]. cbn. rewrite <- app_assoc.
  rewrite cleanFrom_quoteBody. cbn [app cleanFrom]. done.
Qed.

Lemma cleanFrom_words ls ws :
  Forall cleanWord ws → ws ≠ [] → cleanFrom false ls (words ws) = true.
Proof.
  intros Hws. revert ls. induction Hws as [|w ws Hw Hws IH]; [done|]. intros ls _.
  unfold words. destruct (decide (ws = [])) as [-> |Hne].
  - cbn. rewrite <- (app_nil_r w). by rewrite Hw.
  - rewrite Join_cons, Hw by done. cbn. by apply IH.
Qed.

(** ** Columns *)

(** A byte outside strings that the loops copy. *)
Definition copied (c : ascii) : bool := columnByte c || Ascii.eqb c " ".

Lemma stripFrom_copied w d s :
  forallb copied w = true →
  stripFrom false d (w ++ s) = prod_map (app w) id <$> stripFrom false d s.
Proof.
  induction w as [|c w IH]; intros Hw.
  { cbn [app]. by destruct (stripFrom false d s) as [[]|]. }
  cbn in Hw. apply andb_true_iff in Hw as [Hc Hw]. specialize (IH Hw).
  transitivity (prod_map (cons c) id <$> stripFrom false d (w ++ s));
    [|rewrite IH; by destruct (stripFrom false d s) as [[]|]].
  cbn [app stripFrom].
  assert (Ascii.eqb c backslash = false ∧ Ascii.eqb c dquote = false ∧ Ascii.eqb c ";" = false ∧
    Ascii.eqb c "(" = false ∧ Ascii.eqb c ")" = false) as (-> & -> & -> & -> & ->)
    by (by bytecases c).
  by destruct (w ++ s).
Qed.

Lemma collapseFrom_column w ls s :
  columnWord w → collapseFrom false ls (w ++ s) = w ++ collapseFrom false false s.
Proof.
  intros [Hne Hw]. revert ls. induction w as [|c w IH]; [done|]. intros ls.
  cbn in Hw. apply andb_true_iff in Hw as [Hc Hw]. cbn [app collapseFrom].
  assert (Ascii.eqb c backslash = false ∧ Ascii.eqb c dquote = false ∧ blank c = false)
    as (-> & -> & ->) by (by bytecases c).
  transitivity (c :: collapseFrom false false (w ++ s)); [by destruct (w ++ s)|].
  destruct w as [|c' w]; [done|]. by rewrite IH.
Qed.

Lemma collapseFrom_blanks n s :
  collapseFrom false false (replicate (S n) " "%char ++ s) = " "%char :: collapseFrom false true s.
Proof.
  transitivity (" "%char :: collapseFrom false true (replicate n " "%char ++ s)).
  { cbn. by destruct (replicate n " "%char ++ s). }
  f_equal. induction n as [|n IH]; [done|]. rewrite <- IH. cbn.
  by destruct (replicate n " "%char ++ s).
Qed.

(** Columns, each followed by one or more blanks, and the value. *)
Fixpoint spaced (ws : list (gostring * nat)) (r : gostring) : gostring :=
  match ws with
  | [] => r
  | (w, n) :: ws' => w ++ replicate (S n) " "%char ++ spaced ws' r
  end.

Lemma stripFrom_spaced ws r d :
  Forall (columnWord ∘ fst) ws → cleanFrom false true r = true →
  stripFrom false d (spaced ws r) = Ok (spaced ws r, d).
Proof.
  intros Hws Hr. induction Hws as [|[w n] ws [_ Hw] Hws IH]; [by eapply stripFrom_clean|].
  cbn [spaced]. rewrite stripFrom_copied, stripFrom_copied, IH; [done| |].
  - apply forallb_Forall, Forall_replicate. done.
  - eapply forallb_impl; [|exact Hw]. intros c Hc. unfold copied. by rewrite Hc.
Qed.

Definition single (ws : list (gostring * nat)) : list (gostring * nat) :=
  (λ w, (w.1, 0)) <$> ws.

Lemma collapseFrom_spaced ws r ls :
  Forall (columnWord ∘ fst) ws → cleanFrom false true r = true → (ws = [] → ls = true) →
  collapseFrom false ls (spaced ws r) = spaced (single ws) r.
Proof.
  intros Hws Hr. revert ls. induction Hws as [|[w n] ws Hw Hws IH]; intros ls Hls.
  { rewrite (Hls eq_refl). by apply collapseFrom_clean. }
  cbn [spaced]. rewrite collapseFrom_column, collapseFrom_blanks, IH by done. done.
Qed.

(** ** Lines of the file *)

Lemma ends_noCR s : endsPlain s → TrimRightByte (dropCR s) cr = s.
Proof.
  intros (_ & d & _ & Hd & _ & Pd). assert (d ≠ cr) as Hcr by (by intros ->).
  unfold dropCR. rewrite TrimSuffix_id.
  - unfold TrimRightByte. apply last_Some in Hd as [s' ->]. rewrite rev_unit. cbn.
    rewrite (proj2 (Ascii.eqb_neq d cr)) by done. cbn. by rewrite rev_involutive.
  - rewrite HasSuffix_last, Hd. apply bool_decide_eq_false. congruence.
Qed.

Lemma spaced_ends ws r :
  Forall (columnWord ∘ fst) ws → ws ≠ [] → endsPlain r → endsPlain (spaced ws r).
Proof.
  intros Hws _ Hr. induction Hws as [|[w n] ws [Hne Hw] Hws IH]; [done|]. cbn [spaced].
  destruct IH as (_ & d & _ & Hd & _ & Pd). destruct w as [|c w]; [done|].
  exists c, d. split_and!; [done| | |done].
  - by rewrite !last_app, Hd.
  - cbn in Hw. apply andb_true_iff in Hw as [Hc _]. by bytecases c.
Qed.

Definition idle (st : scanState) : Prop := sc_depth st = 0%Z ∧ sc_cur st = [].

Lemma scanLine_blank st n : idle st → scanLine st n [] = Ok st.
Proof. intros [Hd Hc]. unfold scanLine. cbn. by rewrite Hd, Hc. Qed.

Lemma scanLine_comment st n t :
  idle st → columnWord t → scanLine st n ("; " ++ t) = Ok st.
Proof.
  intros [Hd Hc] [Hne Ht]. unfold scanLine.
  rewrite ends_noCR; [cbn; by rewrite Hd, Hc|].
  assert (endsPlain t) as (_ & d & _ & Hl & _ & Pd).
  { apply ends_plain; [done|]. eapply forallb_impl; [|done]. intros c. by bytecases c. }
  exists ";"%char, d. rewrite last_app, Hl. done.
Qed.

Lemma scanLine_spaced st n ws r :
  idle st → Forall (columnWord ∘ fst) ws → ws ≠ [] → cleanFrom false true r = true →
  endsPlain r →
  ∃ st' raw, scanLine st n (spaced ws r) = Ok st' ∧ idle st' ∧
    sc_out st' = sc_out st ++ [{| ll_text := spaced (single ws) r; ll_line := n;
                                  ll_raw := raw; ll_inherits := false |}].
Proof.
  intros [Hd Hc] Hws Hne Hr He.
  assert (endsPlain (spaced ws r)) as Hends by by apply spaced_ends.
  assert (endsPlain (spaced (single ws) r)) as Hends'.
  { apply spaced_ends; [|by destruct ws|done]. apply Forall_fmap. exact Hws. }
  unfold scanLine. rewrite ends_noCR by done. rewrite Hd, Hc.
  unfold stripLine. rewrite stripFrom_spaced by done.
  rewrite !TrimSpace_ends by done.
  assert (∀ s, endsPlain s → s ≠ []) as Hnn by (intros [] (? & ? & ? & _); done).
  rewrite (bool_decide_eq_false_2 (spaced ws r = [])) by auto.
  rewrite (bool_decide_eq_true_2 ([] = [])) by done. cbv zeta. cbn [andb Z.eqb app].
  unfold collapseSpaces. rewrite collapseFrom_spaced by done.
  rewrite TrimSpace_ends, decide_False by auto.
  eexists _, _. split; [done|]. split; [done|]. cbn [sc_out]. do 3 f_equal.
  destruct ws as [|[[|c w] k] ws]; [done|..]; apply Forall_cons in Hws as [[? Hw] _]; [done|].
  cbn in Hw |- *. apply andb_true_iff in Hw as [Hw _]. by bytecases c.
Qed.

(** ** Fields *)

Lemma fieldBody_column w s :
  columnWord w → fieldBody false (w ++ " "%char :: s) = (w, " "%char :: s).
Proof.
  intros [_ Hw]. induction w as [|c w IH]; [by destruct s|].
  cbn in Hw. apply andb_true_iff in Hw as [Hc Hw]. specialize (IH Hw). cbn [app fieldBody].
  assert (Ascii.eqb c backslash = false ∧ Ascii.eqb c dquote = false ∧ blank c = false)
    as (-> & -> & ->) by (by bytecases c).
  cbn [negb andb]. rewrite IH. by destruct (w ++ " "%char :: s).
Qed.

Lemma skipBlanks_column w s : columnWord w → skipBlanks (w ++ s) = w ++ s.
Proof.
  intros [Hne Hw]. destruct w as [|c w]; [done|]. cbn in *.
  apply andb_true_iff in Hw as [Hc _]. by assert (blank c = false) as -> by (by bytecases c).
Qed.

Lemma splitFrom_blank fuel off s :
  splitFrom fuel off (" "%char :: s) = splitFrom fuel (S off) s.
Proof.
  destruct fuel as [|fuel]; [done|]. cbn [splitFrom skipBlanks].
  assert (length (skipBlanks s) ≤ length s) as Hl.
  { induction s as [|c s IH]; cbn; [done|]. destruct (blank c); cbn; lia. }
  change (blank " ") with true. cbn match.
  replace (off + (length (" "%char :: s) - length (skipBlanks s)))
    with (S off + (length s - length (skipBlanks s))) by (cbn; lia). done.
Qed.

(** One column. *)
Lemma splitFrom_column fuel off w s :
  columnWord w →
  splitFrom (S fuel) off (w ++ " "%char :: s) =
  {| text := w; start := off |} :: splitFrom fuel (S (off + length w)) s.
Proof.
  intros Hw. pose proof (proj1 Hw) as Hne. cbn [splitFrom]. rewrite (skipBlanks_column w) by done.
  destruct (w ++ " "%char :: s) as [|c l] eqn:El; [by destruct w|]. rewrite <- El.
  rewrite fieldBody_column by done. rewrite Nat.sub_diag, Nat.add_0_r, length_app, Nat.add_sub.
  by rewrite splitFrom_blank.
Qed.

Lemma splitFrom_spaced ws r fuel off :
  Forall (columnWord ∘ fst) ws → endsPlain r → length (spaced (single ws) r) < fuel →
  ∃ toks vtok rest, splitFrom fuel off (spaced (single ws) r) = toks ++ vtok :: rest ∧
    text <$> toks = ws.*1 ∧ start vtok = off + (length (spaced (single ws) r) - length r).
Proof.
  intros Hws Hr. revert fuel off. induction Hws as [|[w n] ws Hw Hws IH]; intros fuel off Hf.
  - destruct fuel as [|fuel]; [lia|]. change (spaced (single []) r) with r in *.
    destruct Hr as (c & d & Hc & _ & Pc & _). destruct r as [|c' r]; [done|].
    injection Hc as ->. cbn [splitFrom skipBlanks].
    assert (blank c = false) as -> by (by bytecases c).
    destruct (fieldBody false (c :: r)) as [b rest]. eexists [], _, _. split; [done|].
    by rewrite Nat.sub_diag.
  - destruct fuel as [|fuel]; [lia|]. cbn [spaced single fmap list_fmap fst] in *.
    fold (single ws) in *. cbn [replicate app] in *.
    set (s := spaced (single ws) r) in *. rewrite length_app in Hf. cbn in Hf.
    destruct (IH fuel (S (off + length w))) as (toks & vtok & rest & E & Ht & Hs); [lia|].
    exists ({| text := w; start := off |} :: toks), vtok, rest. split_and!.
    + by rewrite splitFrom_column, E.
    + cbn. by rewrite Ht.
    + rewrite Hs, length_app. cbn. assert (length r ≤ length s) as Hl; [|lia].
      unfold s. clear. induction (single ws) as [|[w' n'] l IHl]; cbn; [done|].
      rewrite length_app. cbn. rewrite length_app. lia.
Qed.

Lemma drop_spaced ws r : drop (length (spaced ws r) - length r) (spaced ws r) = r.
Proof.
  assert (∃ pre, spaced ws r = pre ++ r) as [pre ->].
  { induction ws as [|[w n] ws [pre IH]]; [by exists []|]. cbn [spaced]. rewrite IH.
    exists (w ++ replicate (S n) " "%char ++ pre). by rewrite <- !app_assoc. }
  rewrite length_app, Nat.add_sub. apply drop_app_length.
Qed.

Lemma splitFields_spaced ws r :
  Forall (columnWord ∘ fst) ws → endsPlain r →
  ∃ toks vtok rest, splitFields (spaced (single ws) r) = toks ++ vtok :: rest ∧
    text <$> toks = ws.*1 ∧ drop (start vtok) (spaced (single ws) r) = r.
Proof.
  intros Hws Hr. destruct (splitFrom_spaced ws r (S (length (spaced (single ws) r))) 0)
    as (toks & vtok & rest & E & Ht & Hs); [done..|lia|].
  exists toks, vtok, rest. split_and!; [done..|]. rewrite Hs. apply drop_spaced.
Qed.

Lemma fieldBody_end w : columnWord w → fieldBody false w = (w, []).
Proof.
  intros [_ Hw]. induction w as [|c w IH]; [done|].
  cbn in Hw. apply andb_true_iff in Hw as [Hc Hw]. specialize (IH Hw). cbn [fieldBody].
  assert (Ascii.eqb c backslash = false ∧ Ascii.eqb c dquote = false ∧ blank c = false)
    as (-> & -> & ->) by (by bytecases c).
  cbn [negb andb]. rewrite IH. by destruct w.
Qed.

(** A directive and its argument. *)
Lemma splitFields_two w v :
  columnWord w → columnWord v →
  ∃ i j, splitFields (spaced (single [(w, 0)]) v) =
    [{| text := w; start := i |}; {| text := v; start := j |}].
Proof.
  intros Hw Hv. cbn [single fmap list_fmap fst spaced replicate app]. unfold splitFields.
  rewrite splitFrom_column by done.
  destruct (length (w ++ " "%char :: v)) as [|n] eqn:Hn; [by rewrite length_app in Hn; cbn in Hn; lia|].
  cbn [splitFrom]. rewrite <- (app_nil_r v), skipBlanks_column, app_nil_r, fieldBody_end by done.
  destruct Hv as [Hv _]. destruct v as [|c v]; [done|].
  eexists _, _. do 2 f_equal. by destruct n.
Qed.
