(* ===== verification/BindValues.v ===== *)
(** Package [internal/cmd/dns/bind]: a record value [Render] writes is text the zone-file
    scanner copies unchanged. *)

From S2P Require Import Prelude GoStrings GoNetip Api RdataTypes RdataToken RdataTTL RdataName.
From S2P Require Import RdataParse RdataRender RdataValidate RdataLex RdataRoundtrip.
From S2P Require Import BindScan BindParse BindLines.

(** A word of a value: the scanner copies it, and no trimming touches it. *)
Definition tidy (w : gostring) : Prop := cleanWord w ∧ endsPlain w.

Lemma tidy_column w : columnWord w → tidy w.
Proof.
  intros Hw. split; [by apply cleanWord_column|]. destruct Hw as [Hne Hw].
  apply ends_plain; [done|]. eapply forallb_impl; [|exact Hw].
  apply byte_impl. vm_compute. reflexivity.
Qed.

Lemma tidy_bytes f w :
  forallb (λ c, implb (f c) (columnByte c)) allBytes = true → w ≠ [] → forallb f w = true → tidy w.
Proof.
  intros Hf Hne Hw. apply tidy_column. split; [done|]. eapply forallb_impl; [|done].
  by apply byte_impl.
Qed.

Lemma tidy_quoted v : tidy (quoteTXT v).
Proof. split; [apply cleanWord_quoted|apply lexeme_quoted]. Qed.

Lemma tidy_number n : (0 ≤ n)%Z → tidy (FormatInt n).
Proof.
  intros [Hd Hne]%FormatInt_digits. by apply (tidy_bytes isDigit).
Qed.

Lemma tidy_uint b n : uint b n → tidy (FormatInt n).
Proof. intros Hn. apply tidy_number. unfold uint in Hn. lia. Qed.

Lemma tidy_host v : hostOk v → tidy (qualify v).
Proof.
  intros (Hne & Hb & Hd). rewrite qualify_dot by done.
  by apply (tidy_bytes hostByte).
Qed.

Lemma tidy_address v a : ParseAddr v = Some a → Zone a = [] → tidy v.
Proof.
  intros Ha Hz. destruct (ParseAddr_bytes v a Ha Hz) as [Hne Hb].
  by apply (tidy_bytes addrByte).
Qed.

(** Unquoted parameter values that hold no zone-file syntax. *)
Definition csvPlain (m : gmap gostring gostring) : Prop :=
  map_Forall (λ k v, k ∈ svcbUnquotedCSV → ContainsAny v ";()" = false) m.

Lemma columnWord_value v :
  v ≠ [] → forallb plainText v = true → " "%char ∉ v → ContainsAny v ";()" = false →
  columnWord v.
Proof.
  intros Hne Hv Hs Hc. split; [done|]. rewrite forallb_Forall, Forall_forall in *.
  intros c Hin. apply (byte_impl
    (λ c, plainText c && negb (Ascii.eqb c " ") && negb (ContainsByte ";()" c)) columnByte);
    [reflexivity|].
  rewrite (Hv c Hin), (proj2 (Ascii.eqb_neq c " ")) by (by intros ->). cbn [andb negb].
  apply negb_true_iff, not_true_iff_false. intros E. apply not_true_iff_false in Hc.
  apply Hc, existsb_exists. exists c. by rewrite <- list_elem_of_In.
Qed.

(** * Every type *)

Lemma tidy_paramKey k s : k ≠ [] → forallb paramKeyByte k = true → tidy s → tidy (k ++ "=" ++ s).
Proof.
  intros Hne Hk [Hc (_ & d & _ & Hd & _ & Pd)].
  assert (columnWord (k ++ "=")) as Hw.
  { split; [by destruct k|]. rewrite forallb_app. apply andb_true_iff. split; [|done].
    eapply forallb_impl; [|done]. by apply byte_impl. }
  rewrite app_assoc. split; [by apply cleanWord_app; [apply cleanWord_column|]|].
  destruct (tidy_column _ Hw) as [_ (c & _ & Hc' & _ & Pc & _)].
  exists c, d. rewrite last_app, Hd. split_and!; [by destruct k|done..].
Qed.

Lemma renderSVCBParam_tidy `{GoRuntime} t m k v w :
  m !! k = Some v → validateParam t m k = Ok tt → paramPlain k v →
  (k ∈ svcbUnquotedCSV → ContainsAny v ";()" = false) → renderSVCBParam m k = Some w → tidy w.
Proof.
  intros Hm Hval (Hne & Hk & Hv & _) Hcsv. unfold renderSVCBParam. rewrite Hm in *.
  change (default [] (Some v)) with v in *.
  case_decide; [intros [= <-]; by apply (tidy_bytes paramKeyByte)|].
  case_decide as Hemp; [done|].
  case_decide as Hin; intros [= <-]; apply tidy_paramKey; [done..| |done|done|apply tidy_quoted].
  apply tidy_column, columnWord_value; [done|by apply TrimSpace_forallb|..];
    destruct (TrimSpace_infix v) as (a & b & E).
  - intros Hs. unfold validateParam in Hval. rewrite Hm in Hval.
    change (default [] (Some v)) with v in Hval. case_decide; [done|].
    case_match eqn:Hsp; [done|]. apply not_true_iff_false in Hsp.
    apply Hsp, existsb_exists. exists " "%char. split; [|done].
    apply list_elem_of_In. rewrite E, !elem_of_app. tauto.
  - specialize (Hcsv Hin). apply not_true_iff_false. intros Hc. apply not_true_iff_false in Hcsv.
    apply Hcsv. unfold ContainsAny in *. rewrite E, !existsb_app, Hc. by rewrite orb_true_r.
Qed.

(** Entries whose unquoted parameter values hold no zone-file syntax. *)
Definition csvEntry (t : RRType) (e : RecordEntry) : Prop :=
  match t with
  | RRTypeHTTPS => ∀ s, re_HTTPS e = Some s → csvPlain (https_Params s)
  | RRTypeSVCB => ∀ s, re_SVCB e = Some s → csvPlain (https_Params s)
  | _ => True
  end.

Section Values.
Context `{GoRuntime} (today zone : gostring).

(** The text is words the scanner copies, with single blanks between them. *)
Definition tidyLine (s : gostring) : Prop := ∃ ws, s = words ws ∧ Forall tidy ws ∧ ws ≠ [].

Lemma tidyLine_one w : tidy w → tidyLine w.
Proof. intros Hw. exists [w]. split_and!; [done|by apply Forall_singleton|done]. Qed.

Lemma tidyLine_words ws : Forall tidy ws → ws ≠ [] → tidyLine (words ws).
Proof. intros. by exists ws. Qed.

Lemma tidyLine_svcb t s :
  uint 16 (https_Priority s) → validateSVCB t s zone = Ok tt → plainSVCB s →
  csvPlain (https_Params s) → tidyLine (renderSVCB s).
Proof.
  intros Hp Hval [Hesc Hpl] Hcsv. pose proof Hval as (Hh & H0 & Hpar)%validateSVCB_Ok; [|done].
  set (m := https_Params s) in *.
  assert (∀ k, k ∈ renderKeys m →
    ∃ v, m !! k = Some v ∧ validateParam t m k = Ok tt ∧ paramPlain k v) as Hks.
  { intros k Hk. rewrite renderKeys_perm in Hk. pose proof Hk as [v Hv]%elem_of_sortedKeys.
    exists v. split_and!; [done| |by apply (Hpl k v)]. rewrite Forall_forall in Hpar.
    apply Hpar; [|done]. intros E. by rewrite (H0 E), lookup_empty in Hv. }
  destruct (renderSVCBParams_lexemes t m (renderKeys m) Hks) as (ls & Ho & Hls & _).
  rewrite (renderSVCB_words s ls) by done. apply tidyLine_words; [|done].
  rewrite !fmap_cons. change (written (bare ?w)) with w. rewrite <- Ho.
  apply Forall_cons; split; [by eapply tidy_uint|].
  apply Forall_cons; split; [by apply tidy_host|].
  apply Forall_forall. intros w (k & Hk & Hw)%list_elem_of_omap.
  destruct (Hks k Hk) as (v & Hm & Hv & Hkp). eapply renderSVCBParam_tidy; [done..| |done].
  by apply (Hcsv k v).
Qed.

Lemma tidy_digits v : forallb isDigit v = true → v ≠ [] → tidy v.
Proof. intros. by apply (tidy_bytes isDigit). Qed.

Lemma tidy_soaSerial n : uint 32 n → serialDate today → tidy (soaSerial today n).
Proof.
  intros Hn [u Hu]. unfold soaSerial. case_match; [|by eapply tidy_uint].
  unfold ParseUint in Hu. apply tidy_digits; [|by destruct today].
  destruct (today ++ "01"); [done|]. by destruct (forallb _ _).
Qed.

Lemma tidy_orDefault v d : uint 32 v → uint 32 d → tidy (FormatInt (orDefault v d)).
Proof. intros Hv Hd. unfold orDefault. by case_match; eapply tidy_uint. Qed.

Lemma checkIPv4_tidy v : checkIPv4 v = Ok tt → tidy v.
Proof.
  unfold checkIPv4. destruct (ParseAddr v) as [a|] eqn:Ha; [|done]. destruct (Is4 a) eqn:H4; [|done].
  intros _. apply (tidy_address v a Ha). by destruct a.
Qed.

Lemma checkIPv6_tidy v : checkIPv6 v = Ok tt → tidy v.
Proof.
  unfold checkIPv6. destruct (ParseAddr v) as [a|] eqn:Ha; [|done].
  destruct (Is4 a); [done|]. case_bool_decide as Hz; [|done]. intros _. by apply (tidy_address v a).
Qed.

Lemma tidy_caaTag s : validateCAA s = Ok tt → tidy (caa_Tag s).
Proof.
  unfold validateCAA. case_decide; [done|]. destruct (caaTagPattern _) eqn:Ht; [|done]. intros _.
  apply andb_true_iff in Ht as [_ Ht]. by eapply tidy_bytes; [|done|exact Ht].
Qed.

Lemma tidy_tlsaCert s : validateTLSA s = Ok tt → tidy (tlsa_CertData s).
Proof.
  unfold validateTLSA. cbn zeta. do 3 (case_match; [done|]). case_decide; [done|].
  destruct (hexPattern _) eqn:Hh; [|done]. intros _.
  apply andb_true_iff in Hh as [_ Hh]. by eapply tidy_bytes; [|done|exact Hh].
Qed.

Ltac tidy_words :=
  apply tidyLine_words; [repeat (apply Forall_cons; split)|done];
  first [by eapply tidy_uint | by apply tidy_host | by apply tidy_orDefault | done | auto].

(** The value of a validated entry is a tidy line. *)
Lemma Render_tidy t e :
  wf_RecordEntry e → serialDate today → ValidateInZone t e zone = Ok tt → plainEntry t e →
  csvEntry t e → tidyLine (Render today t e).
Proof.
  intros Hwf Hd Hval Hpl Hcsv. apply ValidateInZone_value in Hval.
  destruct t; cbn in Hval, Hpl, Hcsv; apply deref_Ok in Hval as (s & Hs & Hv);
    try specialize (Hpl s Hs); try specialize (Hcsv s Hs); cbn [Render]; rewrite Hs.
  - by apply tidyLine_one, checkIPv4_tidy.
  - by apply tidyLine_one, checkIPv6_tidy.
  - eapply tidyLine_one, tidy_host, hostOk_check; done.
  - eapply tidyLine_one, tidy_host, hostOk_check; done.
  - destruct (renderTXT_eq (Content s)) as (parts & -> & Hne & _).
    apply tidyLine_words; [|by destruct parts]. apply Forall_fmap, Forall_true.
    intros p. apply tidy_quoted.
  - pose proof (wf_MX _ Hwf _ Hs). assert (hostOk (mx_Exchange s)); [|tidy_words].
    case_decide as E; [|by eapply hostOk_check]. unfold hostOk. by rewrite E.
  - destruct (wf_SRV _ Hwf _ Hs) as (? & ? & ?).
    assert (hostOk (srv_Target s)) by (by eapply hostOk_check). tidy_words.
  - pose proof (wf_CAA _ Hwf _ Hs). pose proof (tidy_caaTag s Hv).
    pose proof (tidy_quoted (caa_Value s)). tidy_words.
  - eapply tidyLine_one, tidy_host, hostOk_check; done.
  - apply validateSOA_Ok in Hv as [? ?]; [|done].
    destruct (wf_SOA _ Hwf _ Hs) as (Hser & ? & ? & ? & ?).
    pose proof (tidy_soaSerial _ Hser Hd). tidy_words.
  - eapply tidyLine_one, tidy_host, hostOk_check; done.
  - destruct (wf_TLSA _ Hwf _ Hs) as (? & ? & ?). pose proof (tidy_tlsaCert s Hv). tidy_words.
  - eapply tidyLine_svcb; [by eapply wf_HTTPS|done..].
  - eapply tidyLine_svcb; [by eapply wf_SVCB|done..].
Qed.

Lemma tidyLine_spec s : tidyLine s → cleanFrom false true s = true ∧ endsPlain s.
Proof.
  intros (ws & -> & Hws & Hne). split.
  - apply cleanFrom_words; [|done]. eapply Forall_impl; [done|]. by intros w [? _].
  - apply words_ends; [|done]. eapply Forall_impl; [done|]. by intros w [_ ?].
Qed.
End Values.
