(* ===== verification/BindRoundtrip.v ===== *)
(** Package [internal/cmd/dns/bind]: what [Emit] writes, [Parse] reads back. *)

From S2P Require Import Prelude GoStrings Api RdataTypes RdataToken RdataTTL RdataName.
From S2P Require Import RdataParse RdataRender RdataValidate RdataLex RdataRoundtrip.
From S2P Require Import BindScan BindParse BindLines BindValues.

(** * Owner names *)

(** A zone as [zoneOf] leaves it, with labels DNS can hold. *)
Record zoneWf (zone : gostring) : Prop := {
  zw_ne : zone ≠ [];
  zw_bytes : forallb nameByte zone = true;
  zw_lower : forallb lowerASCII zone = true;
  zw_dot : HasSuffix zone "." = false;
  zw_len : (len zone ≤ maxNameLength)%Z;
  zw_labels : checkOwnerLabelsFrom zone 1 (splitByte "." zone) = Ok tt;
}.

Lemma checkOwnerLabelsFrom_any o o' i j l :
  checkOwnerLabelsFrom o i l = Ok tt → (i = 0 → j = 0) → checkOwnerLabelsFrom o' j l = Ok tt.
Proof.
  revert i j. induction l as [|x l IH]; intros i j; [done|]. cbn [checkOwnerLabelsFrom].
  intros Hl Hij. case_decide; [done|]. case_match; [done|]. case_match; [done|].
  destruct (ContainsByte x "*") eqn:Ex; cbn [andb] in *.
  - destruct (Nat.eqb_spec i 0); [|done]. rewrite (Hij e). cbn in *. by eapply IH.
  - by eapply IH.
Qed.

Section Owners.
Context `{GoRuntime} (zone : gostring) (Hzone : zoneWf zone).

Lemma zone_normByte : forallb normByte zone = true.
Proof using Hzone. unfold normByte. by rewrite forallb_andb, zw_bytes, zw_lower. Qed.

Lemma zone_fix : TrimSuffix (ToLower (TrimSpace zone)) "." = zone.
Proof using Hzone.
  rewrite normByte_fix by apply zone_normByte. by apply TrimSuffix_id, zw_dot.
Qed.

(** A normalised name that is not the apex. *)
Record relativeName (n : gostring) : Prop := {
  rn_bytes : forallb normByte n = true;
  rn_ne : n ≠ [];
  rn_dot : HasSuffix n "." = false;
  rn_labels : checkOwnerLabels n n = Ok tt;
  rn_zone : HasSuffix n ("." ++ zone) = false;
  rn_len : (len n + 1 + len zone ≤ maxNameLength)%Z;
}.

Lemma normalised_cases n :
  ascii_string n = true → NormalizeNameWithWarnings n zone = Ok (n, []) →
  n = "@" ∨ relativeName n.
Proof using Hzone.
  intros Ha Hn. destruct (decide (n = "@")) as [-> |Hne]; [by left|right].
  pose proof (NormalizeName_inv n zone n [] Ha Hn) as Hinv. cbn zeta in Hinv.
  rewrite zone_fix in Hinv.
  destruct Hinv as [[_ ?]|[[_ ?]|(Hap & Hb & Hbare & Hl & Hcase)]]; [done..|].
  assert (length (ToLower (TrimSpace n)) ≤ length n) as Hlow.
  { rewrite length_ToLower by (by apply TrimSpace_forallb).
    destruct (TrimSpace_infix n) as (a & b & E). rewrite E at 2. rewrite !length_app. lia. }
  unfold NormalizeNameWithWarnings in Hn. rewrite zone_fix in Hn. cbn zeta in Hn.
  rewrite Hap in Hn. case_match; [done|]. case_match; [done|].
  rewrite decide_False in Hn by done. rewrite Hl in Hn. cbn [mbind result_bind] in Hn.
  pose proof (zw_ne zone Hzone) as Hz.
  destruct Hcase as [(Hd & Hcase)|(Hd & E & Hlen)]; rewrite Hd in Hn.
  - rewrite decide_False in Hn by done. case_decide; [congruence|].
    case_match eqn:Hs; [|congruence]. exfalso. injection Hn as E.
    apply HasSuffix_spec in Hs as [t Et]. rewrite Et, TrimSuffix_app in E. subst t.
    destruct (TrimSuffix_dot_cases (ToLower (TrimSpace n))) as [[_ E']|[E' _]]; [|congruence].
    rewrite E', Et, !length_app in Hlow. cbn in Hlow. lia.
  - rewrite TrimSuffix_id in * by done. rewrite <- E in *.
    rewrite decide_True in Hn by done. case_decide; [done|]. case_match; [done|].
    split; try done. by apply Hlen.
Qed.

Lemma Normalize_absolute b :
  forallb normByte b = true → b ≠ [] → checkOwnerLabels (b ++ ".") b = Ok tt →
  NormalizeNameWithWarnings (b ++ ".") zone =
  if decide (b = zone) then Ok ("@", [])
  else if HasSuffix b ("." ++ zone) then Ok (TrimSuffix b ("." ++ zone), [])
  else Ok (b ++ ".", [WNameOutsideZone (b ++ ".") zone]).
Proof using Hzone.
  intros Hb Hne Hl. unfold NormalizeNameWithWarnings. rewrite zone_fix. cbn zeta.
  assert (forallb normByte (b ++ ".") = true) as Hbd by (by rewrite forallb_app, Hb).
  rewrite normByte_fix by done.
  rewrite TrimSpace_fix by (eapply forallb_impl; [apply normByte_plain|done]).
  assert (IsApex (b ++ ".") = false) as ->.
  { apply bool_decide_eq_false. intros [E|E]; apply (f_equal last) in E; by rewrite last_snoc in E. }
  assert (ContainsAny (b ++ ".") [" "%char; tab] = false) as ->.
  { unfold ContainsAny. apply not_true_iff_false. intros (c & Hin & Hc)%existsb_exists.
    rewrite forallb_forall in Hbd. specialize (Hbd c Hin). by bytecases c. }
  assert (namePattern (b ++ ".") = true) as ->.
  { unfold namePattern. rewrite (bool_decide_eq_false_2 (b ++ "." = [])) by (by destruct b).
    cbn. rewrite (forallb_impl normByte nameByte (b ++ ".")); [by rewrite orb_true_r| |done].
    intros c Hc. by apply andb_true_iff in Hc as [? _]. }
  rewrite HasSuffix_app, TrimSuffix_app, Hl, decide_False by done. cbn [negb mbind result_bind].
  rewrite decide_False by (by apply zw_ne). done.
Qed.

Lemma checkOwnerLabelsFrom_app o i l1 l2 :
  checkOwnerLabelsFrom o i l1 = Ok tt → l1 ≠ [] → checkOwnerLabelsFrom o 1 l2 = Ok tt →
  checkOwnerLabelsFrom o i (l1 ++ l2) = Ok tt.
Proof.
  intros Hl1 Hne Hl2. revert i Hl1. induction l1 as [|x l1 IH]; [done|]. intros i.
  cbn [app checkOwnerLabelsFrom]. repeat (case_match; try done). intros Hl1.
  destruct l1 as [|y l1]; [by eapply checkOwnerLabelsFrom_any|]. by apply IH.
Qed.

Lemma relativeName_fix n : relativeName n → ToLower (TrimSpace n) = n ∧ n ≠ "@".
Proof.
  intros Hn. split; [apply normByte_fix, Hn|]. intros ->. by pose proof (rn_bytes _ Hn).
Qed.

(** Qualifying a normalised name and normalising it again gives it back. *)
Lemma Normalize_qualified n :
  n = "@" ∨ relativeName n →
  NormalizeNameWithWarnings (qualifyOwner n zone) zone = Ok (n, []).
Proof using Hzone.
  pose proof (zw_ne zone Hzone) as Hz. pose proof (zw_labels zone Hzone) as Hzl.
  intros [-> |Hn].
  - change (qualifyOwner "@" zone) with (if decide (zone = []) then "@" else zone ++ ".").
    rewrite decide_False, Normalize_absolute, decide_True; [done..|apply zone_normByte|done| |done].
    unfold checkOwnerLabels. pose proof (zw_len zone Hzone).
    rewrite (proj2 (Z.ltb_ge _ _)) by done. by eapply checkOwnerLabelsFrom_any.
  - destruct (relativeName_fix n Hn) as [E Hat]. unfold qualifyOwner. rewrite E.
    rewrite !decide_False by done. rewrite (rn_dot n Hn).
    rewrite (app_assoc "." zone), (app_assoc n).
    assert (forallb normByte (n ++ "." ++ zone) = true) as Hb
      by (rewrite !forallb_app, (rn_bytes n Hn), zone_normByte; done).
    rewrite Normalize_absolute; [|done|by destruct n|].
    + rewrite decide_False, HasSuffix_app, TrimSuffix_app; [done|].
      intros El%(f_equal length). rewrite !length_app in El. cbn in El. lia.
    + unfold checkOwnerLabels. pose proof (rn_len n Hn).
      rewrite (proj2 (Z.ltb_ge _ _)) by (unfold len in *; rewrite !length_app; cbn; lia).
      change ("." ++ zone) with ("."%char :: zone). rewrite splitByte_app.
      apply checkOwnerLabelsFrom_app; [|apply splitByte_ne_nil|by eapply checkOwnerLabelsFrom_any].
      pose proof (rn_labels n Hn) as Hnl. unfold checkOwnerLabels in Hnl. case_match; [done|].
      by eapply checkOwnerLabelsFrom_any.
Qed.

Lemma ownerName_normalised line n :
  n = "@" ∨ relativeName n → ownerName line (qualifyOwner n zone) n zone = Ok (n, []).
Proof using Hzone.
  intros Hn. unfold ownerName. rewrite Normalize_qualified by done. cbn.
  destruct Hn as [-> |Hn]; [by rewrite andb_false_r|].
  destruct (relativeName_fix n Hn) as [-> _]. change ("."%char :: zone) with ("." ++ zone).
  by rewrite (rn_zone n Hn), andb_false_r.
Qed.
End Owners.

(** * Rows *)

(** A row without its newline. *)
Definition rowLine (nameWidth ttlWidth : nat) (r : row) : gostring :=
  pad (row_name r) nameWidth ++ " " ++ pad (row_ttl r) ttlWidth ++ " IN "
  ++ row_type r ++ " " ++ row_value r.

(** The columns before the value. *)
Definition columns (nameWidth ttlWidth : nat) (r : row) : list (gostring * nat) :=
  let fill := nameWidth - length (row_name r) in
  match row_ttl r with
  | [] => [(row_name r, fill + S ttlWidth); ("IN", 0); (row_type r, 0)]
  | ttl => [(row_name r, fill); (ttl, ttlWidth - length ttl); ("IN", 0); (row_type r, 0)]
  end.

Lemma pad_eq s w : pad s w = s ++ replicate (w - length s) " "%char.
Proof.
  unfold pad. destruct (Nat.leb_spec w (length s)) as [Hle|Hgt].
  - replace (w - length s) with 0 by lia. by rewrite app_nil_r.
  - f_equal. unfold Repeat. induction (w - length s) as [|n IH]; [done|]. cbn in *. f_equal. exact IH.
Qed.

Lemma rowText_eq nw tw r :
  rowText nw tw (length (row_type r)) r = rowLine nw tw r ++ [newline].
Proof.
  unfold rowText, rowLine. rewrite (pad_eq (row_type r)), Nat.sub_diag, app_nil_r.
  by rewrite <- !app_assoc.
Qed.

Lemma blanks_cons n s : replicate n " "%char ++ " "%char :: s = replicate (S n) " "%char ++ s.
Proof. by rewrite replicate_S_end, <- app_assoc. Qed.

Lemma rowLine_spaced nw tw r : rowLine nw tw r = spaced (columns nw tw r) (row_value r).
Proof.
  unfold rowLine, columns. rewrite !pad_eq.
  destruct (row_ttl r) as [|c ttl]; cbn [spaced]; rewrite <- !app_assoc; cbn [app].
  - rewrite Nat.sub_0_r. change (length []) with 0. rewrite !blanks_cons.
    rewrite <- Nat.add_succ_l, replicate_add, <- !app_assoc. done.
  - rewrite !blanks_cons. done.
Qed.

(** A statement line as the scanner hands it over. *)
Definition statement (ws : list (gostring * nat)) (v : gostring) (ll : logicalLine) : Prop :=
  ll_text ll = spaced (single ws) v ∧ ll_inherits ll = false.

(** * The record of a row *)

Lemma expand_absolute h origin : absoluteHost h → expand h origin = h.
Proof.
  intros [Ht Hd]. unfold expand. rewrite Ht. cbn zeta. case_decide; [done|].
  rewrite Hd. case_decide as E; [by subst h|done].
Qed.

Lemma absolutizeTargets_absolute t f origin :
  absoluteField f → absolutizeTargets t (assign f emptyEntry) origin = assign f emptyEntry.
Proof.
  assert (∀ h, absoluteHost h → expandSVCB h origin = h) as Hs.
  { intros h [Ht Hd]. unfold expandSVCB. rewrite Ht. case_decide; [done|]. by apply expand_absolute. }
  intros Hf. destruct f as [s|s|s|s|s|s|s|s|s|s|s|s|s|s], t; try reflexivity; destruct s; cbn in *;
    unfold expandContent, expandTarget; cbn;
    rewrite ?expand_absolute, ?Hs by (done || apply Hf); done.
Qed.

Section Record.
Context `{GoRuntime} (StringToType : gostring → bool).

Lemma RRTypeString_upper t : ToUpper (RRTypeString t) = RRTypeString t ∧
  ParseRRType (RRTypeString t) = Ok t.
Proof. by destruct t. Qed.

Lemma parseTTL_FormatInt n : (0 ≤ n ≤ MaxTTL)%Z → parseTTL (FormatInt n) = Ok n.
Proof.
  intros Hn. pose proof (FormatInt_digits n ltac:(lia)) as [Hd Hne].
  unfold parseTTL. rewrite decide_False by done. unfold ParseTTLSeconds.
  pose proof (forallb_digit_ttl _ Hd) as Ht.
  rewrite ttlByte_TrimSpace, ttlByte_ToLower by done. unfold parseTTLSeconds.
  rewrite ParseInt64_FormatInt by (unfold MaxTTL in Hn; lia). cbn [mbind result_bind].
  unfold checkTTLRange. rewrite (proj2 (Z.ltb_ge _ _)), (proj2 (Z.ltb_ge _ _)) by lia. done.
Qed.
End Record.

Section Rows.
Context `{GoRuntime} (StringToType : gostring → bool) (today zone : gostring) (Hzone : zoneWf zone).
Context (Hdate : serialDate today).

(** A record the file can hold: a validated entry under a normalised name. *)
Record exportable (r : BindRecord) : Prop := {
  ex_wf : wf_RecordEntry (br_Entry r);
  ex_valid : ValidateInZone (br_Type r) (br_Entry r) zone = Ok tt;
  ex_plain : plainEntry (br_Type r) (br_Entry r);
  ex_csv : csvEntry (br_Type r) (br_Entry r);
  ex_ascii : ascii_string (br_Name r) = true;
  ex_name : NormalizeNameWithWarnings (br_Name r) zone = Ok (br_Name r, []);
  ex_ttl : ∀ v, br_TTL r = Some v → (0 ≤ v ≤ MaxTTL)%Z;
}.

(** The record read back: the same owner, type and value, and the TTL in force. *)
Definition sameRecord (d : Z) (r r' : BindRecord) : Prop :=
  br_Name r' = br_Name r ∧ br_Type r' = br_Type r ∧ br_TTL r' = Some (default d (br_TTL r)) ∧
  Key (br_Type r) (br_Entry r') = Key (br_Type r) (br_Entry r) ∧
  re_Name (br_Entry r') = br_Name r' ∧ re_TTL (br_Entry r') = br_TTL r'.

Lemma ToUpper_digits s : forallb isDigit s = true → ToUpper s = s.
Proof.
  intros Hs. unfold ToUpper.
  assert (ascii_string s = true) as -> by (eapply forallb_impl; [|done]; by apply byte_impl).
  induction s as [|c s IH]; [done|]. cbn in *. apply andb_true_iff in Hs as [Hc Hs].
  rewrite IH by done. f_equal. by bytecases c.
Qed.

Lemma ttlAndClass_type line ttl tok t rest :
  text tok = RRTypeString t → ttlAndClass line ttl [] (tok :: rest) = Ok (ttl, [], tok :: rest).
Proof.
  intros Ht. cbn [ttlAndClass]. rewrite Ht.
  destruct (RRTypeString_upper t) as [-> _]. rewrite decide_False by (apply (bool_decide_eq_false_1 _); by destruct t).
  assert (looksLikeTTL (RRTypeString t) = false) as -> by (by destruct t). by rewrite andb_false_r.
Qed.

Lemma ttlAndClass_columns line o t toks rest :
  text <$> toks = option_list (FormatInt <$> o) ++ ["IN"; RRTypeString t] →
  (∀ v, o = Some v → (0 ≤ v ≤ MaxTTL)%Z) →
  ∃ tok, text tok = RRTypeString t ∧
    ttlAndClass line None [] (toks ++ rest) = Ok (o, [], tok :: rest).
Proof.
  intros Htoks Ho.
  assert (∀ ttl tok, text tok = "IN" → ∀ toks,
    ttlAndClass line ttl [] (tok :: toks) = ttlAndClass line ttl [] toks) as Hin.
  { intros ttl tok Ht toks'. cbn [ttlAndClass]. by rewrite Ht. }
  destruct o as [v|]; cbn in Htoks.
  - destruct toks as [|tv [|ti [|tt [|]]]]; try discriminate. injection Htoks as Hv Hi Ht.
    exists tt. split; [done|]. specialize (Ho v eq_refl).
    destruct (FormatInt_digits v ltac:(lia)) as [Hd Hne].
    cbn [app]. transitivity (ttlAndClass line (Some v) [] (ti :: tt :: rest)).
    + cbn [ttlAndClass]. rewrite Hv, ToUpper_digits by done.
      destruct (FormatInt v) as [|c w] eqn:E; [done|]. cbn in Hd.
      apply andb_true_iff in Hd as [Hc _].
      assert (Forall (λ k : gostring, looksLikeTTL k = false) dnsClasses) as Hk by by repeat constructor.
      rewrite decide_False; [|intros Hin'; rewrite Forall_forall in Hk; specialize (Hk _ Hin');
        cbn in Hk; congruence].
      cbn [looksLikeTTL]. rewrite Hc. rewrite <- E, parseTTL_FormatInt by lia. done.
    + rewrite Hin by done. by eapply ttlAndClass_type.
  - destruct toks as [|ti [|tt [|]]]; try discriminate. injection Htoks as Hi Ht.
    exists tt. split; [done|]. cbn [app]. rewrite Hin by done. by eapply ttlAndClass_type.
Qed.

Lemma exportable_name r : exportable r → br_Name r = "@" ∨ relativeName zone (br_Name r).
Proof using Hzone. intros Hr. apply normalised_cases; [done|apply Hr..]. Qed.

Lemma owner_column n : n = "@" ∨ relativeName zone n → columnWord n ∧ displayName n = n ∧
  ∀ s, HasPrefix (n ++ s) "$" = false.
Proof.
  assert (columnWord n → (∀ c s, n = c :: s → c ≠ "$"%char) →
    columnWord n ∧ displayName n = n ∧ ∀ s, HasPrefix (n ++ s) "$" = false) as Hall.
  { intros Hw Hd. split_and!; [done|by unfold displayName; rewrite decide_False by apply Hw|].
    intros s. destruct Hw as [Hne _]. destruct n as [|c n]; [done|].
    apply bool_decide_eq_false. cbn. rewrite take_0. intros [= E]. by eapply Hd. }
  intros [-> |Hn]; [by apply Hall; [|intros c s [= <- _]]|].
  destruct Hn as [Hb Hne _ _ _ _]. apply Hall.
  - split; [done|]. eapply forallb_impl; [|done]. by apply byte_impl.
  - intros c s -> ->. by cbn in Hb.
Qed.

Lemma rowOf_columns nw tw r :
  exportable r →
  Forall (columnWord ∘ fst) (columns nw tw (rowOf today (br_Type r) r)) ∧
  (columns nw tw (rowOf today (br_Type r) r)).*1 =
    br_Name r :: option_list (FormatInt <$> br_TTL r) ++ ["IN"; RRTypeString (br_Type r)].
Proof using Hzone.
  intros Hr. destruct (owner_column _ (exportable_name r Hr)) as (Hn & Hd & _).
  assert (columnWord (RRTypeString (br_Type r))) as Ht by (by destruct (br_Type r)).
  unfold columns. cbn [rowOf row_name row_ttl row_type]. rewrite Hd.
  destruct (br_TTL r) as [v|] eqn:Hv.
  - assert (0 ≤ v)%Z as Hpos by (by apply (ex_ttl r Hr) in Hv as [? _]).
    destruct (FormatInt_digits v Hpos) as [Hds Hne].
    destruct (FormatInt v) as [|c w] eqn:E; [done|]. split; [|by cbn; rewrite E].
    repeat (apply Forall_cons; split); try done. split; [done|].
    cbn [fst]. eapply forallb_impl; [|done]. by apply byte_impl.
  - split; [|done]. by repeat (apply Forall_cons; split).
Qed.

Lemma exportable_value r :
  exportable r → tidyLine (Render today (br_Type r) (br_Entry r)).
Proof using Hdate. intros []. by eapply Render_tidy. Qed.

Lemma Key_meta t n ttl e : Key t (set_TTL ttl (set_Name n e)) = Key t e.
Proof. by destruct t. Qed.

Lemma typeAndValue_row ll tok vtok rest r d :
  exportable r → text tok = RRTypeString (br_Type r) →
  drop (start vtok) (ll_text ll) = Render today (br_Type r) (br_Entry r) →
  ∃ r', typeAndValue StringToType ll zone zone (Some d) (br_Name r)
      (qualifyOwner (br_Name r) zone) (br_TTL r) [] (tok :: vtok :: rest) =
    Ok (SRecord r', qualifyOwner (br_Name r) zone, []) ∧ sameRecord d r r'.
Proof using Hzone Hdate.
  intros Hr Ht Hv. unfold typeAndValue. cbn zeta. rewrite Ht, Hv.
  destruct (RRTypeString_upper (br_Type r)) as [-> ->].
  destruct (tidyLine_spec _ (exportable_value r Hr)) as [_ He]. rewrite TrimSpace_ends by done.
  destruct (Render_readsBack today zone (br_Type r) (br_Entry r)) as (f & -> & Hk & Ha);
    [apply Hr|done|apply Hr..|].
  rewrite absolutizeTargets_absolute by done.
  rewrite (ownerName_normalised zone Hzone) by by apply exportable_name.
  eexists. split; [done|]. unfold sameRecord. cbn [br_Name br_TTL br_Type br_Entry].
  rewrite Key_meta, Hk. split_and!; [done|done| |done|..]; [by destruct (br_TTL r)|by destruct f..].
Qed.

Lemma parseLine_row nw tw r d ll st :
  exportable r → ps_current st = zone → ps_fileTTL st = Some d →
  statement (columns nw tw (rowOf today (br_Type r) r)) (Render today (br_Type r) (br_Entry r)) ll →
  ∃ r', parseLine StringToType zone st ll =
      Ok {| ps_current := zone; ps_fileTTL := Some d; ps_sawOrigin := ps_sawOrigin st;
            ps_prevOwner := qualifyOwner (br_Name r) zone; ps_records := ps_records st ++ [r'];
            ps_unsupported := ps_unsupported st; ps_warnings := ps_warnings st |} ∧
    sameRecord d r r'.
Proof using Hzone Hdate.
  intros Hr Hcur Httl [Hll Hinh]. destruct (rowOf_columns nw tw r Hr) as [Hws Hcols].
  destruct (tidyLine_spec _ (exportable_value r Hr)) as [_ He].
  destruct (splitFields_spaced _ _ Hws He) as (toks & vtok & rest & Hsp & Htoks & Hv).
  rewrite Hcols in Htoks. rewrite <- Hll in Hsp, Hv.
  destruct toks as [|tok0 toks]; [done|]. injection Htoks as Hn Htoks.
  destruct (ttlAndClass_columns (ll_line ll) (br_TTL r) (br_Type r) toks (vtok :: rest))
    as (tok & Htok & Hclass); [done|apply Hr|].
  destruct (typeAndValue_row ll tok vtok rest r d) as (r' & Hstmt & Hsame); [done..|].
  exists r'. split; [|done]. unfold parseLine.
  assert (HasPrefix (ll_text ll) "$" = false) as ->.
  { destruct (owner_column _ (exportable_name r Hr)) as (_ & _ & Hd). rewrite Hll.
    destruct (columns _ _ _) as [|[w k] ws]; [done|]. injection Hcols as -> _. apply Hd. }
  unfold parseRecord. rewrite Hsp, Hinh, Hcur, Httl. cbn [app negb]. cbn zeta.
  rewrite Hn, Hclass. cbn [mbind result_bind]. rewrite Hstmt. cbn [mbind result_bind].
  by rewrite !app_nil_r.
Qed.

(** The line of a record, in columns of some width. *)
Definition rowStatement (r : BindRecord) (ll : logicalLine) : Prop :=
  ∃ nw tw, statement (columns nw tw (rowOf today (br_Type r) r))
             (Render today (br_Type r) (br_Entry r)) ll.

Lemma parseLines_rows d rs lls st :
  Forall exportable rs → Forall2 rowStatement rs lls →
  ps_current st = zone → ps_fileTTL st = Some d →
  ∃ st' rs', parseLines StringToType zone st lls = Ok st' ∧ ps_current st' = zone ∧
    ps_sawOrigin st' = ps_sawOrigin st ∧
    ps_records st' = ps_records st ++ rs' ∧ Forall2 (sameRecord d) rs rs' ∧
    ps_unsupported st' = ps_unsupported st ∧ ps_warnings st' = ps_warnings st.
Proof using Hzone Hdate.
  intros Hrs Hlls. revert st Hrs.
  induction Hlls as [|r ll rs lls (nw & tw & Hll) Hlls IH]; intros st Hrs Hcur Httl.
  { exists st, []. by rewrite app_nil_r. }
  apply Forall_cons in Hrs as [Hr Hrs].
  destruct (parseLine_row nw tw r d ll st) as (r' & Hline & Hsame); [done..|].
  cbn [parseLines]. rewrite Hline. cbn [mbind result_bind].
  edestruct IH as (st' & rs' & -> & Hcur' & Hsaw & Hrecs & Hsames & Hun & Hw);
    [done| | |]; cycle 2.
  - exists st', (r' :: rs'). split_and!; try done.
    + rewrite Hrecs. cbn. by rewrite <- app_assoc.
    + by constructor.
  - done.
  - done.
Qed.

(** The two directives at the top. *)
Lemma zone_column : columnWord (zone ++ ".").
Proof using Hzone.
  split; [by destruct zone|]. rewrite forallb_app. apply andb_true_iff. split; [|done].
  eapply forallb_impl; [|by apply zone_normByte]. by apply byte_impl.
Qed.

Lemma parseLine_origin st ll :
  statement [("$ORIGIN", 0)] (zone ++ ".") ll →
  parseLine StringToType zone st ll =
  Ok {| ps_current := zone; ps_fileTTL := ps_fileTTL st; ps_sawOrigin := true;
        ps_prevOwner := ps_prevOwner st; ps_records := ps_records st;
        ps_unsupported := ps_unsupported st; ps_warnings := ps_warnings st |}.
Proof using Hzone.
  intros [Hll _]. destruct (splitFields_two "$ORIGIN" (zone ++ ".")) as (i & j & Hsp);
    [done|apply zone_column|].
  unfold parseLine, directive. rewrite Hll, Hsp. cbn [spaced single fmap list_fmap fst].
  change (HasPrefix ("$ORIGIN" ++ ?s) "$") with true. cbn [lookup list_lookup default fmap option_fmap option_map text].
  change (ToUpper "$ORIGIN") with ("$ORIGIN" : gostring). rewrite decide_True by done.
  assert (ToLower (zone ++ ".") = zone ++ ".") as ->.
  { apply ToLower_fix. rewrite forallb_app. apply andb_true_iff. split; [apply Hzone|done]. }
  rewrite HasSuffix_app, TrimSuffix_app. cbn [negb mbind result_bind default].
  rewrite app_nil_r, (bool_decide_eq_true_2 (is_Some (Some zone))), orb_true_r by done. done.
Qed.

Lemma parseLine_ttl st ll d :
  statement [("$TTL", 0)] (FormatInt d) ll → (0 ≤ d ≤ MaxTTL)%Z →
  parseLine StringToType zone st ll =
  Ok {| ps_current := ps_current st; ps_fileTTL := Some d; ps_sawOrigin := ps_sawOrigin st;
        ps_prevOwner := ps_prevOwner st; ps_records := ps_records st;
        ps_unsupported := ps_unsupported st; ps_warnings := ps_warnings st |}.
Proof.
  intros [Hll _] Hd. destruct (FormatInt_digits d ltac:(lia)) as [Hds Hne].
  destruct (splitFields_two "$TTL" (FormatInt d)) as (i & j & Hsp); [done| |].
  { split; [done|]. eapply forallb_impl; [|done]. by apply byte_impl. }
  unfold parseLine, directive. rewrite Hll, Hsp. cbn [spaced single fmap list_fmap fst].
  change (HasPrefix ("$TTL" ++ ?s) "$") with true. cbn [lookup list_lookup default fmap option_fmap option_map text].
  change (ToUpper "$TTL") with ("$TTL" : gostring).
  rewrite decide_False, decide_True, parseTTL_FormatInt by done. cbn [mbind result_bind default].
  by rewrite app_nil_r, (bool_decide_eq_false_2 (is_Some None)), orb_false_r by apply is_Some_None.
Qed.
End Rows.

(** * The lines of the file *)

(** A line of the file and the statement on it, if any. *)
Inductive emitted : gostring → option (list (gostring * nat) * gostring) → Prop :=
| emitted_blank : emitted [] None
| emitted_comment t : columnWord t → emitted ("; " ++ t) None
| emitted_statement ws v :
    Forall (columnWord ∘ fst) ws → ws ≠ [] → tidyLine v → emitted (spaced ws v) (Some (ws, v)).

Lemma scanLines_emitted st n ls os :
  idle st → Forall2 emitted ls os → Forall (λ l, (len l < maxLine)%Z) ls →
  ∃ st' lls, scanLines st n ls = Ok st' ∧ idle st' ∧ sc_out st' = sc_out st ++ lls ∧
    Forall2 (λ p, statement p.1 p.2) (omap id os) lls.
Proof.
  intros Hst Hls. revert st n Hst. induction Hls as [|l o ls os Hl Hls IH]; intros st n Hst Hlen.
  { exists st, []. by rewrite app_nil_r. }
  apply Forall_cons in Hlen as [Hlen Hlens]. unfold len in Hlen. cbn [scanLines].
  rewrite (proj2 (Z.leb_gt _ _)) by done. destruct Hl as [|t Ht|ws v Hws Hne Hv].
  - rewrite scanLine_blank by done. apply IH; done.
  - rewrite scanLine_comment by done. apply IH; done.
  - destruct (tidyLine_spec v Hv) as [Hc He].
    destruct (scanLine_spaced st (n + 1) ws v) as (st1 & raw & -> & Hst1 & Hout); [done..|].
    cbn [mbind result_bind]. destruct (IH st1 (n + 1)%Z Hst1 Hlens) as (st' & lls & -> & Hst' & Hout' & HF).
    eexists st', (_ :: lls). split_and!; [done..| |].
    + by rewrite Hout', Hout, <- app_assoc.
    + cbn. constructor; [|done]. done.
Qed.

Lemma emitted_newline l o : emitted l o → newline ∉ l.
Proof.
  destruct 1 as [|t [_ Ht]|ws v Hws Hne Hv].
  - apply not_elem_of_nil.
  - rewrite not_elem_of_app. split; [by apply (bool_decide_eq_false_1 _)|]. intros Hin. rewrite forallb_Forall, Forall_forall in Ht.
    by specialize (Ht _ Hin).
  - destruct (tidyLine_spec v Hv) as [Hc _]. apply cleanFrom_newline in Hc.
    induction Hws as [|[w n] ws [_ Hw] Hws IH]; [done|]. cbn [spaced]. rewrite !not_elem_of_app.
    split_and!.
    + intros Hin. rewrite forallb_Forall, Forall_forall in Hw. by specialize (Hw _ Hin).
    + intros [? _]%elem_of_replicate. done.
    + destruct ws; [done|by apply IH].
Qed.

Lemma scan_emitted ls os :
  Forall2 emitted ls os → Forall (λ l, (len l < maxLine)%Z) ls →
  ∃ lls, scan (unlines ls) = Ok lls ∧ Forall2 (λ p, statement p.1 p.2) (omap id os) lls.
Proof.
  intros Hls Hlen. unfold scan. rewrite physicalLines_unlines.
  - destruct (scanLines_emitted scanInit 0 ls os) as (st & lls & -> & [Hd _] & Hout & HF); [done..|].
    cbn [mbind result_bind]. rewrite Hd. exists lls. split; [|done]. by rewrite Hout.
  - eapply Forall2_Forall_l; [done|]. apply Forall_true. intros o l. apply emitted_newline.
Qed.

(** * The file *)

Section File.
Context `{GoRuntime} (StringToType : gostring → bool) (today zone : gostring) (Hzone : zoneWf zone).
Context (Hdate : serialDate today).

(** The statement of a record, in columns of some width. *)
Definition rowParts (r : BindRecord) (p : list (gostring * nat) * gostring) : Prop :=
  ∃ nw tw, p = (columns nw tw (rowOf today (br_Type r) r), Render today (br_Type r) (br_Entry r)).

(** What a block of lines says: its lines, and the records it holds in file order. *)
Definition block (text : gostring) (rs : list BindRecord) : Prop :=
  ∃ ls os, text = unlines ls ∧ Forall2 emitted ls os ∧ Forall2 rowParts rs (omap id os).

Lemma block_app t1 t2 rs1 rs2 : block t1 rs1 → block t2 rs2 → block (t1 ++ t2) (rs1 ++ rs2).
Proof.
  intros (ls1 & os1 & -> & He1 & Hr1) (ls2 & os2 & -> & He2 & Hr2). exists (ls1 ++ ls2), (os1 ++ os2).
  split_and!; [by unfold unlines; rewrite bind_app|by apply Forall2_app|].
  rewrite omap_app. by apply Forall2_app.
Qed.

Lemma block_rows t nw tw rs :
  Forall (exportable zone) rs → Forall (λ r, br_Type r = t) rs →
  block ((rowOf today t <$> rs) ≫= rowText nw tw (length (RRTypeString t))) rs.
Proof using Hzone Hdate.
  induction rs as [|r rs IH]; intros Hrs Ht.
  { exists [], []. split_and!; constructor. }
  apply Forall_cons in Hrs as [Hr Hrs]. apply Forall_cons in Ht as [<- Ht].
  rewrite fmap_cons, bind_cons. apply (block_app _ _ [r]); [|by apply IH].
  set (rw := rowOf today (br_Type r) r). change (RRTypeString (br_Type r)) with (row_type rw).
  exists [rowLine nw tw rw], [Some (columns nw tw rw, row_value rw)]. split_and!.
  - rewrite rowText_eq. unfold unlines. by rewrite bind_cons, app_nil_r.
  - constructor; [|done]. rewrite rowLine_spaced. constructor.
    + by destruct (rowOf_columns today zone Hzone nw tw r Hr).
    + unfold columns. by destruct (row_ttl rw).
    + by apply exportable_value with zone.
  - constructor; [|done]. by exists nw, tw.
Qed.

(** A group: a blank line, a comment with the type, and the rows sorted. *)
Lemma block_group t g :
  Forall (exportable zone) g → Forall (λ r, br_Type r = t) g →
  ∃ g', g' ≡ₚ g ∧ block (writeGroup today t g) g'.
Proof using Hzone Hdate.
  intros Hg Ht. unfold writeGroup. cbn zeta.
  set (rendered := SliceStable rowLess (rowOf today t <$> g)).
  destruct (Permutation_map_inv (rowOf today t) (l1 := rendered) g) as (g' & E & Hp);
    [apply SliceStable_perm|]. rewrite E. exists g'. split; [done|].
  rewrite (app_assoc "; "), (app_assoc _ [newline]), (app_assoc [newline]).
  apply (block_app _ _ []); [|by apply block_rows; rewrite <- Hp].
  exists [[]; "; " ++ RRTypeString t], [None; None]. split_and!.
  - unfold unlines. rewrite !bind_cons. cbn. by rewrite app_nil_r.
  - constructor; [constructor|]. constructor; [|done]. constructor. by destruct t.
  - constructor.
Qed.

Lemma block_groups order records :
  Forall (exportable zone) records →
  ∃ rs, rs ≡ₚ (order ≫= λ t, filter (λ r, br_Type r = t) records) ∧
    block (order ≫= λ t, match filter (λ r, br_Type r = t) records with
                         | [] => [] | g => writeGroup today t g end) rs.
Proof using Hzone Hdate.
  intros Hrec. induction order as [|t order (rs & Hp & Hb)].
  { exists []. split; [done|]. exists [], []. split_and!; constructor. }
  rewrite !bind_cons.
  remember (filter (λ r, br_Type r = t) records) as g eqn:Hfilter.
  assert (∃ g', g' ≡ₚ g ∧ block (match g with [] => [] | _ => writeGroup today t g end) g')
    as (g' & Hg' & Hblock).
  { assert (Forall (λ r, br_Type r = t) g) as Ht
      by (subst g; apply Forall_forall; by intros r [? _]%list_elem_of_filter).
    assert (Forall (exportable zone) g) as Hg by by subst g; apply Forall_filter_sub.
    destruct g as [|r gs]; [|by apply block_group].
    exists []. split; [done|]. exists [], []. split_and!; constructor. }
  exists (g' ++ rs). split; [by rewrite Hg', Hp|]. by apply block_app; [destruct g|].
Qed.

(** The default TTL the file states. *)
Definition fileTTL (ttl : Z) : Z :=
  if (ttl <=? 0)%Z || (MaxTTL <? ttl)%Z then defaultEmitTTL else ttl.

Lemma fileTTL_range ttl : (0 ≤ fileTTL ttl ≤ MaxTTL)%Z.
Proof.
  unfold fileTTL, defaultEmitTTL, MaxTTL. destruct (Z.leb_spec ttl 0), (Z.ltb_spec 2147483647 ttl);
    cbn; lia.
Qed.

Lemma emitOrder_all t : t ∈ emitOrder.
Proof. apply (bool_decide_unpack _). by destruct t. Qed.

Lemma sortedTypes_nil records : sortedTypes records = [].
Proof.
  unfold sortedTypes. apply Permutation_nil_r. rewrite sort_slice_perm.
  apply reflexive_eq. induction (remove_dups _) as [|t ts IH]; [done|].
  rewrite filter_cons_False; [done|]. intros Ht. apply Ht, emitOrder_all.
Qed.

Lemma Emit_block origin ttl records :
  zoneOf origin = zone → Forall (exportable zone) records →
  ∃ text rs, Emit today origin ttl records =
      Ok (unlines [spaced [("$ORIGIN", 0)] (zone ++ "."); spaced [("$TTL", 0)] (FormatInt (fileTTL ttl))]
          ++ text) ∧
    rs ≡ₚ records ∧ block text rs.
Proof using Hzone Hdate.
  intros Ho Hrec. destruct (block_groups emitOrder records Hrec) as (rs & Hp & Hb).
  eexists _, rs. split_and!; [| |exact Hb].
  - unfold Emit. rewrite Ho. cbn zeta. rewrite decide_False by apply Hzone.
    rewrite (proj2 (list_find_None _ _)).
    + rewrite sortedTypes_nil. cbn [mbind list_bind]. rewrite app_nil_r. f_equal.
      unfold unlines. rewrite !bind_cons. cbn [spaced replicate mbind list_bind].
      rewrite app_nil_r, <- !app_assoc. done.
    + eapply Forall_impl; [done|]. intros r Hr E.
      destruct (tidyLine_spec _ (exportable_value today zone Hdate r Hr)) as [_ (? & ? & Hh & _)].
      by rewrite E in Hh.
  - rewrite Hp. apply group_perm; [apply (bool_decide_unpack _); done|].
    apply Forall_true. intros r. apply emitOrder_all.
Qed.

(** What [Parse] makes of the lines of a file [Emit] wrote. *)
Lemma Parse_block origin dflt d text rs :
  zoneOf origin = zone → Forall (exportable zone) rs → (0 ≤ d ≤ MaxTTL)%Z → block text rs →
  let file := unlines [spaced [("$ORIGIN", 0)] (zone ++ "."); spaced [("$TTL", 0)] (FormatInt d)]
              ++ text in
  Forall (λ l, (len l < maxLine)%Z) (physicalLines file) →
  ∃ rs', Parse StringToType file origin dflt =
      Ok {| pr_Origin := zone ++ "."; pr_Records := rs'; pr_Unsupported := [];
            pr_Warnings := dedupeWarnings rs' |} ∧
    Forall2 (sameRecord d) rs rs'.
Proof using Hzone Hdate.
  intros Ho Hrs Hd (ls & os & -> & Hls & Hparts) file Hlen.
  set (head := [("$ORIGIN" : gostring, 0)]) in *. set (head' := [("$TTL" : gostring, 0)]) in *.
  set (all := spaced head (zone ++ ".") :: spaced head' (FormatInt d) :: ls).
  assert (Forall2 emitted all (Some (head, zone ++ ".") :: Some (head', FormatInt d) :: os)) as Hall.
  { constructor; [|constructor; [|done]]; constructor; try done; try by apply Forall_singleton.
    - by apply tidyLine_one, tidy_column, zone_column.
    - apply tidyLine_one, tidy_number. lia. }
  assert (file = unlines all) as Hfile by (unfold file, unlines; by rewrite <- bind_app).
  rewrite Hfile in *. rewrite physicalLines_unlines in Hlen.
  2: { eapply Forall2_Forall_l; [exact Hall|]. apply Forall_true. intros o l. apply emitted_newline. }
  destruct (scan_emitted _ _ Hall Hlen) as (lls & Hscan & HF). cbn [omap list_omap id] in HF.
  destruct lls as [|l1 [|l2 lls]]; [by inversion HF..|by apply Forall2_cons in HF as [_ HF]; inversion HF|].
  apply Forall2_cons in HF as [H1 HF]. apply Forall2_cons in HF as [H2 HF].
  unfold Parse. rewrite Ho, Hscan. cbn [mbind result_bind parseLines].
  rewrite (parseLine_origin _ zone Hzone) by done. cbn [mbind result_bind parseLines].
  rewrite (parseLine_ttl _ zone _ _ d) by done. cbn [mbind result_bind].
  edestruct (parseLines_rows StringToType today zone Hzone Hdate d rs lls)
    as (st' & rs' & -> & Hcur & Hsaw & Hrecs & Hsame & Hun & Hw); [done| |done|done|].
  - clear -Hparts HF. revert lls HF. induction Hparts as [|r p rs ps (nw & tw & ->) Hps IH];
      intros lls HF; apply Forall2_cons_inv_l in HF || inversion HF; [done|].
    destruct HF as (ll & lls' & Hll & HF & ->). constructor; [by exists nw, tw|by apply IH].
  - cbn [mbind result_bind]. exists rs'. rewrite Hcur, Hsaw, Hrecs, Hun, Hw. split; [|done].
    cbn [ps_sawOrigin ps_records ps_unsupported ps_warnings negb andb app].
    unfold absolute. by rewrite decide_False, (zw_dot zone Hzone) by apply Hzone.
Qed.
End File.

Section ZoneFile.
Context `{GoRuntime} (StringToType : gostring → bool) (today : gostring).

(** C29. A zone file the tool exports, it imports: for validated records under normalised
    names, [Emit] writes a file, and [Parse] reads from it exactly those records, each
    with its owner, type, value and TTL (the file's default where it had none), with
    nothing skipped and no advisory but those on duplicates.  The value read back has the
    same identity ([Key], of which the SOA serial is no part).

    This is for a zone in lower case with labels DNS can hold and no final dot, a date
    that makes a 32-bit SOA serial, and a file whose lines are under the scanner's limit
    of one MiB.  Each record is [exportable]: its entry is valid, with integers of their
    width, and plain ([plainEntry]: host names without backslashes, CAA values and service
    parameters of printable ASCII without quotes and backslashes, parameter keys that
    [parseParam] accepts, a flag key without a value, TXT data that decoded is not again a
    sequence of quoted strings); the parameters that are written without quotes (alpn,
    ipv4hint, ipv6hint, port) hold no semicolon and no parenthesis; its name is ASCII and
    normalised without a warning; and its TTL, if it has one, is in range. *)
Theorem Emit_Parse origin ttl dflt records :
  zoneWf (zoneOf origin) → serialDate today → Forall (exportable (zoneOf origin)) records →
  ∃ file, Emit today origin ttl records = Ok file ∧
    (Forall (λ l, (len l < maxLine)%Z) (physicalLines file) →
     ∃ order res, Parse StringToType file origin dflt = Ok res ∧ order ≡ₚ records ∧
       Forall2 (sameRecord (fileTTL ttl)) order (pr_Records res) ∧
       pr_Origin res = zoneOf origin ++ "." ∧ pr_Unsupported res = [] ∧
       pr_Warnings res = dedupeWarnings (pr_Records res)).
Proof.
  intros Hz Hd Hrec.
  destruct (Emit_block today _ Hz Hd origin ttl records) as (text & rs & -> & Hp & Hb); [done..|].
  eexists. split; [done|]. intros Hlen.
  destruct (Parse_block StringToType today _ Hz Hd origin dflt (fileTTL ttl) text rs) as (rs' & -> & Hs);
    [done|by rewrite Hp|apply fileTTL_range|done..|].
  exists rs. by eexists.
Qed.
End ZoneFile.

#[local] Existing Instance reference_runtime.

(** An HTTPS record and an apex MX record. *)
Definition exampleMX : RecordEntry :=
  set_Name "@" (assign (FMX {| mx_Preference := 10; mx_Exchange := "mail.example.com." |}) emptyEntry).
Definition exampleRecords : list BindRecord :=
  [{| br_Name := "www"; br_TTL := None; br_Type := RRTypeHTTPS; br_Entry := exampleHTTPS; br_Line := 0 |};
   {| br_Name := "@"; br_TTL := Some 60%Z; br_Type := RRTypeMX; br_Entry := exampleMX; br_Line := 0 |}].

Lemma exampleZone_wf : zoneWf "example.com".
Proof. by split. Qed.

#[local] Instance csvPlain_dec m : Decision (csvPlain m).
Proof. unfold csvPlain. apply _. Defined.

Lemma exampleRecords_exportable : Forall (exportable "example.com") exampleRecords.
Proof.
  apply Forall_cons; split; [|apply Forall_singleton]; split.
  - apply exampleHTTPS_wf.
  - vm_compute. reflexivity.
  - apply exampleHTTPS_plain.
  - intros s [= <-]. apply (bool_decide_unpack _). vm_compute. exact I.
  - vm_compute. reflexivity.
  - vm_compute. reflexivity.
  - done.
  - by split; intros s [= <-].
  - vm_compute. reflexivity.
  - intros s [= <-]. apply (bool_decide_unpack _). vm_compute. exact I.
  - done.
  - vm_compute. reflexivity.
  - vm_compute. reflexivity.
  - intros v [= <-]. unfold MaxTTL. lia.
Qed.

Lemma exampleFile_lines file :
  Emit "20240101" "Example.COM." 0 exampleRecords = Ok file →
  Forall (λ l, (len l < maxLine)%Z) (physicalLines file).
Proof.
  intros E. apply (bool_decide_unpack _).
  assert (match Emit "20240101" "Example.COM." 0 exampleRecords with
          | Ok f => bool_decide (Forall (λ l, (len l < maxLine)%Z) (physicalLines f))
          | Err _ => true end = true) as Hl by (vm_compute; reflexivity).
  rewrite E in Hl. by rewrite Hl.
Qed.

Lemma Emit_Parse_witness :
  ∃ file order res, Emit "20240101" "Example.COM." 0 exampleRecords = Ok file ∧
    Parse (λ _, true) file "Example.COM." None = Ok res ∧
    order ≡ₚ exampleRecords ∧ Forall2 (sameRecord 300) order (pr_Records res).
Proof.
  destruct (Emit_Parse (λ _, true) "20240101" "Example.COM." 0 None exampleRecords)
    as (file & Hf & Hp).
  - exact exampleZone_wf.
  - eexists. vm_compute. reflexivity.
  - exact exampleRecords_exportable.
  - destruct (Hp (exampleFile_lines file Hf)) as (order & res & Hparse & Hperm & Hsame & _).
    exists file, order, res. exact (conj Hf (conj Hparse (conj Hperm Hsame))).
Defined.
