(* ===== verification/PdnsEncode.v ===== *)
(** Package [internal/dns/pdns], file [client.go]: from the entries of a
    [DNSRecordSet] to the RRsets PowerDNS is sent ([buildRRSets] and the content
    encoders), and the SOA serial rule. *)

From S2P Require Import Prelude GoStrings Api Ownername.

(** * Data *)

Record rrsetRecord := { rec_Content : gostring; rec_Disabled : bool }.

#[global] Instance rrsetRecord_eq_dec : EqDecision rrsetRecord.
Proof. solve_decision. Defined.

Record zoneRRsetComment := {
  cm_Account : gostring; cm_Content : gostring; cm_ModifiedAt : Z }.

#[global] Instance zoneRRsetComment_eq_dec : EqDecision zoneRRsetComment.
Proof. solve_decision. Defined.

(** [changeTypeReplace] and [changeTypeDelete], the only values the field takes. *)
Inductive ChangeType := changeTypeReplace | changeTypeDelete.

#[global] Instance ChangeType_eq_dec : EqDecision ChangeType.
Proof. solve_decision. Defined.

Definition ChangeTypeString (c : ChangeType) : gostring :=
  match c with changeTypeReplace => "REPLACE" | changeTypeDelete => "DELETE" end.

Record rrset := {
  rr_Name : gostring;
  rr_Type : gostring;
  rr_TTL : Z;
  rr_ChangeType : ChangeType;
  rr_Records : list rrsetRecord;
  rr_Comments : list zoneRRsetComment;
  rr_commentsOnly : bool;
}.

#[global] Instance rrset_eq_dec : EqDecision rrset.
Proof. solve_decision. Defined.

(** An RRset as the zone read returns it; [None] is the nil slice of a body without
    comments. *)
Record zoneRRset := {
  zr_Name : gostring;
  zr_Type : gostring;
  zr_TTL : Z;
  zr_Records : list rrsetRecord;
  zr_Comments : option (list zoneRRsetComment);
}.
Definition commentsOf (rr : zoneRRset) : list zoneRRsetComment := default [] (zr_Comments rr).

Definition rrsetKey : Type := gostring * gostring.

Record OwnerRRSet := { or_TTL : Z; or_Records : list gostring }.

Definition liveRecord (content : gostring) : rrsetRecord :=
  {| rec_Content := content; rec_Disabled := false |}.

Definition set_Records (l : list rrsetRecord) (r : rrset) : rrset :=
  {| rr_Name := rr_Name r; rr_Type := rr_Type r; rr_TTL := rr_TTL r;
     rr_ChangeType := rr_ChangeType r; rr_Records := l; rr_Comments := rr_Comments r;
     rr_commentsOnly := rr_commentsOnly r |}.

(** * Contents *)

Definition qualifyIfNeeded (target : gostring) : gostring :=
  match last target with
  | None => target
  | Some c => if Ascii.eqb c "." then target else target ++ "."
  end.

(** [prev] tells whether the byte before is a backslash. *)
Fixpoint escapeTXTFrom (prev : bool) (s : gostring) : gostring :=
  match s with
  | [] => []
  | c :: s' =>
      (if Ascii.eqb c ";" && negb prev then [backslash; c] else [c])
      ++ escapeTXTFrom (Ascii.eqb c backslash) s'
  end.
Definition escapeTXTContent (s : gostring) : gostring := escapeTXTFrom false s.

Definition quoteIfNeeded (s : gostring) : gostring :=
  if (2 <=? length s) && bool_decide (head s = Some dquote)
     && bool_decide (last s = Some dquote)
  then s
  else dquote :: escapeTXTContent s ++ [dquote].

Definition svcbKeyRank (k : gostring) : Z :=
  if decide (k = "alpn") then 10
  else if decide (k = "no-default-alpn") then 20
  else if decide (k = "port") then 30
  else if decide (k = "esnikeys" ∨ k = "ech") then 40
  else if decide (k = "ipv4hint") then 50
  else if decide (k = "ipv6hint") then 60
  else 1000.

Definition svcbKeyLess : gostring → gostring → bool := lexLess svcbKeyRank Z.ltb str_ltb.

Definition svcbFlagKeys : list gostring := ["no-default-alpn"].
Definition svcbUnquotedCSV : list gostring := ["alpn"; "ipv4hint"; "ipv6hint"; "port"].

(** The text of one parameter, if it has one. *)
Definition svcbParamText (m : gmap gostring gostring) (k : gostring) : option gostring :=
  let v := TrimSpace (default [] (m !! k)) in
  if decide (k ∈ svcbFlagKeys) then Some k
  else if decide (v = []) then None
  else if decide (k ∈ svcbUnquotedCSV) then Some (k ++ "=" ++ v)
  else Some (k ++ "=" ++ quoteIfNeeded v).

Section Encode.
Context `{GoRuntime}.

Definition encodeSvcbParams (m : gmap gostring gostring) : gostring :=
  if decide (m = ∅) then []
  else
    let keys := sort_slice svcbKeyLess (map_range m).*1 in
    Join (omap (svcbParamText m) keys) " ".

Definition encodeSvcbLine (priority : Z) (target : gostring) (params : gmap gostring gostring) :
    gostring :=
  let t := TrimSpace target in
  let t := if decide (t = ".") then t
           else if decide (t = []) then "." else qualifyIfNeeded t in
  if (priority =? 0)%Z then words [FormatInt priority; t]
  else
    let p := encodeSvcbParams params in
    if decide (p ≠ []) then words [FormatInt priority; t; p]
    else words [FormatInt priority; t].

(** A field that stands for a default when it is zero. *)
Definition orDefault (v d : Z) : Z := if (v =? 0)%Z then d else v.

(** The SOA content.  [today] is [time.Now().Format("20060102")]. *)
Definition soaLine (today : gostring) (s : SOARecordSpec) : gostring :=
  words [qualifyIfNeeded (TrimSpace (soa_MName s)); qualifyIfNeeded (TrimSpace (soa_RName s));
         if (soa_Serial s =? 0)%Z then today ++ "01" else FormatInt (soa_Serial s);
         FormatInt (orDefault (soa_Refresh s) 10800); FormatInt (orDefault (soa_Retry s) 3600);
         FormatInt (orDefault (soa_Expire s) 604800); FormatInt (orDefault (soa_TTL s) 3600)].

(** [append], when the value is not empty. *)
Definition addNonEmpty (v content : gostring) (recs : list rrsetRecord) : list rrsetRecord :=
  if decide (v = []) then recs else recs ++ [liveRecord content].

(** The body of the loop of [buildRRSets]: what one entry does to the records of its
    RRset. *)
Definition addEntry (today : gostring) (t : RRType) (rec : RecordEntry)
    (recs : list rrsetRecord) : list rrsetRecord :=
  match t with
  | RRTypeA =>
      match re_A rec with None => recs | Some s =>
        let v := TrimSpace (Content s) in addNonEmpty v v recs end
  | RRTypeAAAA =>
      match re_AAAA rec with None => recs | Some s =>
        let v := TrimSpace (Content s) in addNonEmpty v v recs end
  | RRTypeCNAME =>
      match re_CNAME rec with None => recs | Some s =>
        let target := qualifyIfNeeded (TrimSpace (Content s)) in
        if decide (recs = []) then addNonEmpty target target recs else recs end
  | RRTypeTXT =>
      match re_TXT rec with None => recs | Some s =>
        let v := TrimSpace (Content s) in addNonEmpty v (quoteIfNeeded v) recs end
  | RRTypeMX =>
      match re_MX rec with None => recs | Some s =>
        let exch := TrimSpace (mx_Exchange s) in
        addNonEmpty exch (words [FormatInt (mx_Preference s); qualifyIfNeeded exch]) recs end
  | RRTypeSRV =>
      match re_SRV rec with None => recs | Some s =>
        let tgt := TrimSpace (srv_Target s) in
        addNonEmpty tgt (words [FormatInt (srv_Priority s); FormatInt (srv_Weight s);
                                FormatInt (srv_Port s); qualifyIfNeeded tgt]) recs end
  | RRTypeCAA =>
      match re_CAA rec with None => recs | Some s =>
        recs ++ [liveRecord (words [FormatInt (caa_Flag s); caa_Tag s;
                                    quoteIfNeeded (caa_Value s)])] end
  | RRTypeNS =>
      match re_NS rec with None => recs | Some s =>
        let v := TrimSpace (Content s) in addNonEmpty v (qualifyIfNeeded v) recs end
  | RRTypeSOA =>
      match re_SOA rec with None => recs | Some s => [liveRecord (soaLine today s)] end
  | RRTypePTR =>
      match re_PTR rec with None => recs | Some s =>
        let v := TrimSpace (Content s) in addNonEmpty v (qualifyIfNeeded v) recs end
  | RRTypeTLSA =>
      match re_TLSA rec with None => recs | Some s =>
        recs ++ [liveRecord (words [FormatInt (tlsa_Usage s); FormatInt (tlsa_Selector s);
                                    FormatInt (tlsa_MatchingType s); tlsa_CertData s])] end
  | RRTypeHTTPS =>
      match re_HTTPS rec with None => recs | Some s =>
        recs ++ [liveRecord (encodeSvcbLine (https_Priority s) (https_Target s)
                                            (https_Params s))] end
  | RRTypeSVCB =>
      match re_SVCB rec with None => recs | Some s =>
        recs ++ [liveRecord (encodeSvcbLine (https_Priority s) (https_Target s)
                                            (https_Params s))] end
  | RRTypeALIAS =>
      match re_ALIAS rec with None => recs | Some s =>
        let target := qualifyIfNeeded (TrimSpace (Content s)) in
        if decide (recs = []) then addNonEmpty target target recs else recs end
  end.

(** The loop of [dedupeRecords]; [seen] holds the contents kept so far. *)
Fixpoint dedupeFrom (seen : gset gostring) (l : list rrsetRecord) : list rrsetRecord :=
  match l with
  | [] => []
  | r :: l' =>
      if decide (rec_Content r ∈ seen) then dedupeFrom seen l'
      else r :: dedupeFrom ({[rec_Content r]} ∪ seen) l'
  end.
Definition dedupeRecords (l : list rrsetRecord) : list rrsetRecord :=
  if length l <? 2 then l else dedupeFrom ∅ l.

Definition entryTTL (rec : RecordEntry) : Z := default 300%Z (re_TTL rec).

(** [getOrInit] on a name the map does not hold. *)
Definition newReplace (t : RRType) (owner : gostring) (ttl : Z) : rrset :=
  {| rr_Name := owner; rr_Type := RRTypeString t; rr_TTL := ttl;
     rr_ChangeType := changeTypeReplace; rr_Records := []; rr_Comments := [];
     rr_commentsOnly := false |}.

(** One iteration of the loop of [buildRRSets] on [setsByOwner]. *)
Definition buildStep (today zone : gostring) (t : RRType) (sets : gmap gostring rrset)
    (rec : RecordEntry) : gmap gostring rrset :=
  let name := Qualify (re_Name rec) zone in
  let r := default (newReplace t name (entryTTL rec)) (sets !! name) in
  <[name := set_Records (addEntry today t rec (rr_Records r)) r]> sets.

Definition buildRRSets (today zone : gostring) (t : RRType) (records : list RecordEntry) :
    list rrset :=
  let setsByOwner := foldl (buildStep today zone t) ∅ records in
  let owners := sortStrings (map_range setsByOwner).*1 in
  omap (λ owner, (λ r, set_Records (dedupeRecords (rr_Records r)) r) <$> setsByOwner !! owner)
    owners.

Definition BuildOwnerRRSet (today zone : gostring) (t : RRType) (ownerName : gostring)
    (entries : list RecordEntry) : option OwnerRRSet :=
  match entries with
  | [] => None
  | _ =>
      let rrsets := buildRRSets today zone t entries in
      let target := Qualify ownerName zone in
      '(_, rr) ← list_find (λ rr, rr_Name rr = target) rrsets;
      Some {| or_TTL := rr_TTL rr; or_Records := rec_Content <$> rr_Records rr |}
  end.
End Encode.

(** * The SOA serial *)

Definition soaSerial (content : gostring) : option Z :=
  let fields := Fields content in
  if decide (length fields = 7) then fields !! 2 ≫= ParseUint 32 else None.

(** The serial PowerDNS holds: the largest it can read, 0 if none. *)
Definition heldSerial (current : zoneRRset) : Z :=
  foldl (λ held rec, match soaSerial (rec_Content rec) with
                     | Some serial => if (held <? serial)%Z then serial else held
                     | None => held end) 0%Z (zr_Records current).

Definition raiseSerial (held : Z) (content : gostring) : gostring :=
  let fields := Fields content in
  if decide (length fields ≠ 7) then content
  else match soaSerial content with
       | Some serial =>
           if (held <=? serial)%Z then content
           else Join (<[2 := FormatInt held]> fields) " "
       | None => Join (<[2 := FormatInt held]> fields) " "
       end.

Definition keepSOASerialRising (desired : list gostring) (current : zoneRRset) : list gostring :=
  let held := heldSerial current in
  if (held =? 0)%Z then desired else raiseSerial held <$> desired.

(** * Properties *)

(** ** Service parameters *)

Lemma svcbKeyLess_StrictWeak : StrictWeak svcbKeyLess.
Proof.
  apply lexLess_StrictWeak; [apply Zltb_StrictWeak|apply Zltb_total|apply str_ltb_StrictWeak].
Qed.

Lemma svcbKeyLess_total a b : svcbKeyLess a b = false → svcbKeyLess b a = false → a = b.
Proof.
  intros Hab Hba. destruct (lexLess_total _ _ _ Zltb_total a b Hab Hba) as (_ & ? & ?).
  by apply str_ltb_total.
Qed.

(** The parameters in canonical order, independently of any runtime. *)
Lemma encodeSvcbParams_canonical `{GoRuntime} m :
  encodeSvcbParams m =
  Join (omap (svcbParamText m) (SliceStable svcbKeyLess (map_to_list m).*1)) " ".
Proof.
  unfold encodeSvcbParams. case_decide as Hm; [subst m; by rewrite map_to_list_empty|].
  rewrite (sort_slice_unique svcbKeyLess _ (map_to_list m).*1);
    [done|apply svcbKeyLess_StrictWeak|apply svcbKeyLess_total|by rewrite map_range_perm].
Qed.

(** The content of an HTTPS or SVCB record does not depend on the order Go
    happens to visit its parameters in, nor on how its sort breaks ties: two
    runs encode it to the same bytes, so PowerDNS never sees a spurious change. *)
Theorem encodeSvcbLine_deterministic (R1 R2 : GoRuntime) priority target params :
  @encodeSvcbLine R1 priority target params = @encodeSvcbLine R2 priority target params.
Proof. unfold encodeSvcbLine. by rewrite !encodeSvcbParams_canonical. Qed.

(** ** Deduplication *)

(** The reference: keep an element unless an equal content came before. *)
Fixpoint firstSeen (l : list rrsetRecord) : list rrsetRecord :=
  match l with
  | [] => []
  | r :: l' => r :: filter (λ r', rec_Content r' ≠ rec_Content r) (firstSeen l')
  end.

Lemma dedupeFrom_firstSeen seen l :
  dedupeFrom seen l = filter (λ r, rec_Content r ∉ seen) (firstSeen l).
Proof.
  revert seen. induction l as [|r l IH]; intros seen; [done|]. cbn [dedupeFrom firstSeen].
  rewrite filter_cons, list_filter_filter. destruct (decide (rec_Content r ∈ seen)).
  - rewrite decide_False by tauto. rewrite IH. apply list_filter_iff. intros x.
    destruct (decide (rec_Content x = rec_Content r)) as [->|]; tauto.
  - rewrite decide_True by done. rewrite IH. f_equal. apply list_filter_iff. intros x.
    rewrite elem_of_union, elem_of_singleton. tauto.
Qed.

Lemma dedupeRecords_firstSeen l : dedupeRecords l = firstSeen l.
Proof.
  unfold dedupeRecords. destruct (Nat.ltb_spec (length l) 2).
  - destruct l as [|r [|r' l]]; cbn in *; [done..|lia].
  - rewrite dedupeFrom_firstSeen. apply filter_id, Forall_true. intros r []%not_elem_of_empty.
Qed.

Lemma firstSeen_NoDup l : NoDup (rec_Content <$> firstSeen l).
Proof.
  induction l as [|r l IH]; cbn; [constructor|]. constructor.
  - intros (r' & Hr & [Hne _]%list_elem_of_filter)%list_elem_of_fmap. by rewrite Hr in Hne.
  - eapply sublist_NoDup; [done|]. apply fmap_sublist, sublist_filter.
Qed.

(** ** The RRsets of a record set *)

Section Build.
Context `{GoRuntime} (today zone : gostring) (t : RRType).

(** What one entry contributes on its own: no record or one. *)
Definition contribution (e : RecordEntry) : list rrsetRecord := addEntry today t e [].

(** Which of the contributions at one name are kept: the first for the single-valued
    CNAME and ALIAS, the last for SOA, all of them otherwise. *)
Definition chooseRecords (l : list rrsetRecord) : list rrsetRecord :=
  match t with
  | RRTypeCNAME | RRTypeALIAS => take 1 l
  | RRTypeSOA => option_list (last l)
  | _ => l
  end.

Definition atOwner (o : gostring) (e : RecordEntry) : Prop := Qualify (re_Name e) zone = o.
#[local] Instance atOwner_dec o e : Decision (atOwner o e).
Proof. unfold atOwner. apply _. Defined.

(** The reference RRset at owner [o]. *)
Definition ownerRRset (records : list RecordEntry) (o : gostring) : rrset :=
  let es := filter (atOwner o) records in
  {| rr_Name := o; rr_Type := RRTypeString t;
     rr_TTL := default 300%Z (entryTTL <$> head es);
     rr_ChangeType := changeTypeReplace;
     rr_Records := firstSeen (chooseRecords (es ≫= contribution));
     rr_Comments := []; rr_commentsOnly := false |}.

Lemma contribution_length e : length (contribution e) ≤ 1.
Proof.
  unfold contribution, addEntry, addNonEmpty. repeat case_match; cbn; lia.
Qed.

Lemma addEntry_contribution e recs :
  addEntry today t e recs =
  match t with
  | RRTypeCNAME | RRTypeALIAS => if decide (recs = []) then contribution e else recs
  | RRTypeSOA => if decide (contribution e = []) then recs else contribution e
  | _ => recs ++ contribution e
  end.
Proof.
  unfold contribution, addEntry, addNonEmpty.
  repeat case_match; simplify_eq; rewrite ?app_nil_r; try done;
    repeat case_decide; by simplify_list_eq.
Qed.

Lemma foldl_addEntry es :
  foldl (λ recs e, addEntry today t e recs) [] es = chooseRecords (es ≫= contribution).
Proof.
  induction es as [|e es IH] using rev_ind; [unfold chooseRecords; by destruct t|].
  rewrite foldl_snoc, IH, addEntry_contribution, bind_app. cbn. rewrite app_nil_r.
  pose proof (contribution_length e) as Hlen. unfold chooseRecords.
  generalize (es ≫= contribution). intros l.
  destruct (contribution e) as [|r [|]]; cbn in Hlen; [rewrite app_nil_r| |lia].
  - destruct t; rewrite ?app_nil_r; try done;
      case_decide; try done; by destruct l.
  - destruct t; try done; [by destruct l..|by rewrite last_snoc].
Qed.

(** The map the loop builds holds the reference RRset at every name mentioned. *)
Lemma buildStep_lookup records o :
  foldl (buildStep today zone t) ∅ records !! o =
  match filter (atOwner o) records with
  | [] => None
  | (e :: _) as es =>
      Some (set_Records (chooseRecords (es ≫= contribution)) (newReplace t o (entryTTL e)))
  end.
Proof.
  induction records as [|rec records IH] using rev_ind; [done|].
  rewrite foldl_snoc, filter_app. unfold buildStep at 1. cbn zeta.
  destruct (decide (Qualify (re_Name rec) zone = o)) as [<-|Hne].
  - rewrite filter_singleton_True by done. rewrite lookup_insert_eq, IH.
    destruct (filter _ records) as [|e es] eqn:E; cbn -[mbind].
    + by rewrite <- foldl_addEntry.
    + by rewrite <- !foldl_addEntry, app_comm_cons, foldl_snoc.
  - rewrite filter_singleton_False by done. rewrite app_nil_r.
    rewrite lookup_insert_ne by done. apply IH.
Qed.
Lemma setsByOwner_keys records :
  (map_range (foldl (buildStep today zone t) ∅ records)).*1
  ≡ₚ remove_dups ((λ e, Qualify (re_Name e) zone) <$> records).
Proof.
  rewrite map_range_perm. apply NoDup_Permutation.
  - apply NoDup_fst_map_to_list.
  - apply NoDup_remove_dups.
  - intros o. rewrite elem_of_remove_dups, !list_elem_of_fmap. split.
    + intros ([o' r] & -> & Hr%elem_of_map_to_list). cbn. rewrite buildStep_lookup in Hr.
      destruct (filter _ records) as [|e es] eqn:E; [done|].
      assert (e ∈ filter (atOwner o') records) as [Hat Hin]%list_elem_of_filter
        by (rewrite E; apply elem_of_cons; by left). by exists e.
    + intros (e & -> & Hin). set (o := Qualify (re_Name e) zone).
      assert (e ∈ filter (atOwner o) records) as He by by apply list_elem_of_filter.
      destruct (filter (atOwner o) records) as [|e' es] eqn:E; [by apply not_elem_of_nil in He|].
      eexists (o, _). split; [done|]. apply elem_of_map_to_list. by rewrite buildStep_lookup, E.
Qed.

Lemma buildRRSets_owners records :
  buildRRSets today zone t records =
  ownerRRset records <$>
    sortStrings (remove_dups ((λ e, Qualify (re_Name e) zone) <$> records)).
Proof.
  unfold buildRRSets. cbn zeta. rewrite setsByOwner_keys.
  apply omap_all. intros o Ho. rewrite sortStrings_perm, elem_of_remove_dups in Ho.
  apply list_elem_of_fmap in Ho as (e & -> & Hin).
  set (o := Qualify (re_Name e) zone). unfold ownerRRset. fold o.
  rewrite buildStep_lookup.
  assert (e ∈ filter (atOwner o) records) as He by by apply list_elem_of_filter.
  destruct (filter (atOwner o) records) as [|e' es]; [by apply not_elem_of_nil in He|].
  cbn -[mbind]. by rewrite dedupeRecords_firstSeen.
Qed.

(** The entries of one owner name always make an RRset. *)
Lemma BuildOwnerRRSet_Some owner entries :
  entries ≠ [] → Forall (λ e, re_Name e = owner) entries →
  BuildOwnerRRSet today zone t owner entries =
  Some {| or_TTL := default 300%Z (entryTTL <$> head entries);
          or_Records := rec_Content <$> firstSeen (chooseRecords (entries ≫= contribution)) |}.
Proof.
  intros Hne HF. unfold BuildOwnerRRSet. destruct entries as [|e0 es0] eqn:Ee; [done|].
  rewrite <- Ee in *. cbn zeta. set (o := Qualify owner zone).
  rewrite buildRRSets_owners. set (os := sortStrings _).
  assert (o ∈ os) as Ho.
  { unfold os. rewrite sortStrings_perm, elem_of_remove_dups. apply list_elem_of_fmap.
    exists e0. rewrite Ee in HF |- *. apply Forall_cons in HF as [<- _].
    split; [done|apply elem_of_cons; by left]. }
  destruct (list_find_elem_of (λ rr, rr_Name rr = o) (ownerRRset entries <$> os)
    (ownerRRset entries o)) as [[i rr] Hf]; [by apply list_elem_of_fmap_2|done|].
  rewrite Hf. apply list_find_Some in Hf as (Hi & Hn & _).
  rewrite list_lookup_fmap in Hi. apply fmap_Some in Hi as (o' & _ & ->). cbn in Hn. subst o'.
  unfold ownerRRset. rewrite (filter_id (atOwner o) entries); [done|]. eapply Forall_impl; [done|].
  intros e He. unfold atOwner. by rewrite He.
Qed.

(** C35. [buildRRSets] groups the entries by the name they denote and sends one RRset
    per name, in name order: with the TTL of the first entry at the name (300 when
    unset), the first target of a CNAME or ALIAS, the last SOA, and for every
    other type each content once, in the order first written. *)
Theorem buildRRSets_spec records :
  buildRRSets today zone t records =
  ownerRRset records <$>
    sortStrings (remove_dups ((λ e, Qualify (re_Name e) zone) <$> records)).
Proof. apply buildRRSets_owners. Qed.
End Build.

(** ** The SOA serial only rises *)

Lemma soaSerial_range c s : soaSerial c = Some s → (0 ≤ s < 2 ^ 32)%Z.
Proof.
  unfold soaSerial. case_decide; [|done]. intros (f & _ & Hf)%bind_Some.
  by apply ParseUint_range in Hf.
Qed.

(** The held serial bounds every serial of the records. *)
Lemma heldSerial_spec current :
  (0 ≤ heldSerial current < 2 ^ 32)%Z ∧
  ∀ rec s, rec ∈ zr_Records current → soaSerial (rec_Content rec) = Some s →
    (s ≤ heldSerial current)%Z.
Proof.
  unfold heldSerial. induction (zr_Records current) as [|rec l [IH1 IH2]] using rev_ind.
  { split; [done|]. intros rec s []%not_elem_of_nil. }
  rewrite foldl_snoc. destruct (soaSerial (rec_Content rec)) as [z|] eqn:E.
  - pose proof (soaSerial_range _ _ E). case_match; split; try lia;
      intros rec' s [Hl | ->%list_elem_of_singleton]%elem_of_app Hs; try congruence;
      try (specialize (IH2 _ _ Hl Hs); lia); simplify_eq; lia.
  - split; [done|]. intros rec' s [Hl | ->%list_elem_of_singleton]%elem_of_app Hs; [eauto|congruence].
Qed.

Lemma raiseSerial_spec held c :
  (0 < held < 2 ^ 32)%Z →
  (∀ j, j ≠ 2 → Fields (raiseSerial held c) !! j = Fields c !! j) ∧
  (length (Fields c) = 7 → ∃ s, soaSerial (raiseSerial held c) = Some s ∧ (held ≤ s)%Z ∧
     ∀ s0, soaSerial c = Some s0 → (s0 ≤ s)%Z) ∧
  (length (Fields c) ≠ 7 → raiseSerial held c = c).
Proof.
  intros Hh. unfold raiseSerial. case_decide as Hlen; [done|].
  assert (Fields (Join (<[2:=FormatInt held]> (Fields c)) " ") = <[2:=FormatInt held]> (Fields c))
    as HF.
  { apply Fields_Join, Forall_insert; [apply Fields_solid|]. apply FormatInt_word. lia. }
  assert (soaSerial (Join (<[2:=FormatInt held]> (Fields c)) " ") = Some held) as HS.
  { unfold soaSerial. rewrite HF, length_insert, decide_True by done.
    rewrite list_lookup_insert_eq by lia. apply ParseUint_FormatInt. lia. }
  destruct (soaSerial c) as [s|] eqn:E; [destruct (Z.leb_spec held s)|].
  - split_and!; [done| |done]. intros _. exists s. split_and!; [done..|]. intros ? [= <-]. lia.
  - split_and!; [|intros _|done].
    + intros j Hj. by rewrite HF, list_lookup_insert_ne.
    + exists held. split_and!; [done|lia|]. intros ? [= <-]. lia.
  - split_and!; [|intros _|done].
    + intros j Hj. by rewrite HF, list_lookup_insert_ne.
    + exists held. by split_and!.
Qed.

(** Rewriting an SOA record never moves the zone's serial backwards: of each
    content to be sent only the serial may change, it is never lowered, and if it
    reads as a number it is at least every serial PowerDNS holds; a well-formed
    content (seven fields) is made to read as one whenever PowerDNS holds a
    non-zero serial. *)
Theorem keepSOASerialRising_spec desired current i c :
  desired !! i = Some c →
  ∃ c', keepSOASerialRising desired current !! i = Some c' ∧
    (∀ j, j ≠ 2 → Fields c' !! j = Fields c !! j) ∧
    (∀ s0, soaSerial c = Some s0 → ∃ s, soaSerial c' = Some s ∧ (s0 ≤ s)%Z) ∧
    (∀ rec s0 s, rec ∈ zr_Records current → soaSerial (rec_Content rec) = Some s0 →
       soaSerial c' = Some s → (s0 ≤ s)%Z) ∧
    (length (Fields c) = 7 → heldSerial current ≠ 0%Z → is_Some (soaSerial c')).
Proof.
  intros Hc. destruct (heldSerial_spec current) as [Hrange Hmax].
  unfold keepSOASerialRising. destruct (Z.eqb_spec (heldSerial current) 0) as [E|Hne].
  - exists c. split_and!; [done..|eauto using Z.le_refl| |done].
    intros rec s0 s Hin Hs0 Hs. apply soaSerial_range in Hs. specialize (Hmax _ _ Hin Hs0). lia.
  - exists (raiseSerial (heldSerial current) c). rewrite list_lookup_fmap, Hc. cbn [fmap option_fmap option_map].
    destruct (raiseSerial_spec (heldSerial current) c) as (Hf & H7 & Hn7); [lia|].
    destruct (decide (length (Fields c) = 7)) as [Hlen|Hlen].
    + destruct (H7 Hlen) as (s & Hs & Hheld & Hc0). split_and!; [done..| | |by eauto].
      * intros s0 Hs0. exists s. split; [done|]. by apply Hc0.
      * intros rec s0 s' Hin Hs0 Hs'. specialize (Hmax _ _ Hin Hs0). simplify_eq. lia.
    + rewrite (Hn7 Hlen) in *. assert (soaSerial c = None) as HN
        by (unfold soaSerial; by rewrite decide_False).
      rewrite HN. by split_and!.
Qed.

Lemma keepSOASerialRising_spec_witness :
  let held := {| zr_Name := "example.com."; zr_Type := "SOA"; zr_TTL := 300;
    zr_Records := [liveRecord "a. b. 2024010105 1 1 1 1"]; zr_Comments := None |} in
  keepSOASerialRising ["a. b. 2024010101 1 1 1 1"] held = ["a. b. 2024010105 1 1 1 1"] ∧
  ∃ c', keepSOASerialRising ["a. b. 2024010101 1 1 1 1"] held !! 0 = Some c' ∧
    is_Some (soaSerial c').
Proof.
  intros held. split; [reflexivity|].
  destruct (keepSOASerialRising_spec ["a. b. 2024010101 1 1 1 1"] held 0
    "a. b. 2024010101 1 1 1 1" eq_refl) as (c' & Hc & _ & _ & _ & Hs).
  exists c'. split; [exact Hc|]. apply Hs; [reflexivity|]. intros E. vm_compute in E. discriminate E.
Defined.
