(* ===== verification/RdataBackend.v ===== *)
(** Packages [internal/cmd/dns/rdata] and [internal/dns/pdns] together: what the
    command line validates and prints is what the backend writes.

    The two packages hold their own copies of the quoting, qualifying and parameter
    rules ([RdataRender], [PdnsEncode]); the lemmas of the first part relate them. *)

From S2P Require Import Prelude GoStrings Api Ownername PdnsEncode.
From S2P Require Import RdataTypes RdataToken RdataName RdataParse RdataRender RdataValidate.
From S2P Require Import RdataLex RdataRoundtrip.

(** * The copied rules agree *)

Lemma qualify_pdns s : qualify s = qualifyIfNeeded (TrimSpace s).
Proof.
  unfold qualify, qualifyIfNeeded. rewrite HasSuffix_last.
  destruct (last (TrimSpace s)) as [c|] eqn:E.
  - rewrite bool_decide_eq_false_2 by (by intros Hn; rewrite Hn in E). cbn [orb].
    destruct (Ascii.eqb_spec c "."); case_bool_decide; naive_solver.
  - apply last_None in E. by rewrite E.
Qed.

Lemma qualifyIfNeeded_ne s : s ≠ [] → qualifyIfNeeded s ≠ [].
Proof. unfold qualifyIfNeeded. destruct (last s); [|done]. case_match; [done|]. by destruct s. Qed.

(** A byte both quotings treat alike: [quoteTXT] also escapes backslashes, quotes and
    control bytes, [quoteIfNeeded] copies them. *)
Definition sameByte (c : ascii) : bool :=
  negb (Ascii.eqb c backslash || Ascii.eqb c dquote || (bval c <? 32)%Z || (bval c =? 127)%Z).

Lemma escapeTXT_same v : forallb sameByte v = true → escapeTXTContent v = quoteBody v.
Proof.
  unfold escapeTXTContent. induction v as [|c v IH]; intros Hv; [done|].
  cbn in Hv. apply andb_true_iff in Hv as [Hc Hv].
  change (quoteBody (c :: v)) with (quoteByte c ++ quoteBody v). cbn [escapeTXTFrom].
  assert (Ascii.eqb c backslash = false) as -> by (by bytecases c).
  rewrite (IH Hv). f_equal. by bytecases c.
Qed.

Lemma escapeTXT_length prev v :
  length v ≤ length (escapeTXTFrom prev v) ≤ length (quoteBody v) ∧
  (forallb sameByte v = false → length (escapeTXTFrom prev v) < length (quoteBody v)).
Proof.
  revert prev. induction v as [|c v IH]; intros prev; [done|].
  change (quoteBody (c :: v)) with (quoteByte c ++ quoteBody v). cbn [escapeTXTFrom forallb]. rewrite !length_app.
  destruct (IH (Ascii.eqb c backslash)) as [Hle Hlt].
  set (here := if Ascii.eqb c ";" && negb prev then [backslash; c] else [c]).
  assert (1 ≤ length here ≤ length (quoteByte c)) 
    by (clear; destruct prev; unfold here; bytecases c; vm_compute; repeat constructor).
  assert (sameByte c = false → length here < length (quoteByte c)) as Hless
    by (clear; destruct prev; unfold here; bytecases c; vm_compute; first [discriminate|repeat constructor]).
  cbn [length]. split; [lia|]. intros [Hc|Hv]%andb_false_iff; [apply Hless in Hc|apply Hlt in Hv]; lia.
Qed.

(** The two quotings give the same text exactly where all bytes are alike; elsewhere the
    backend's is the shorter one. *)
Lemma quoteIfNeeded_exact v :
  if forallb sameByte v then quoteIfNeeded v = quoteTXT v else length (quoteIfNeeded v) < length (quoteTXT v).
Proof.
  unfold quoteIfNeeded, quoteTXT. destruct (escapeTXT_length false v) as [Hle Hlt]. fold (escapeTXTContent v) in Hle, Hlt.
  destruct (forallb sameByte v) eqn:Hv.
  - rewrite escapeTXT_same by done.
    rewrite (bool_decide_eq_false_2 (head v = Some dquote)); [by rewrite andb_false_r|].
    destruct v; [done|]. cbn in *. by intros [= ->].
  - specialize (Hlt eq_refl). case_match; cbn [length]; rewrite ?length_app; cbn [length]; lia.
Qed.

Lemma quoteIfNeeded_plain v : forallb plainText v = true → quoteIfNeeded v = quoteTXT v.
Proof.
  intros Hv. pose proof (quoteIfNeeded_exact v) as E. assert (forallb sameByte v = true) as Hs; [|by rewrite Hs in E].
  rewrite forallb_forall in *. intros c Hc%Hv. by bytecases c.
Qed.

(** An encoded TXT value passes [quoteIfNeeded] unchanged. *)
Lemma quoteIfNeeded_quoted s :
  2 ≤ length s → head s = Some dquote → last s = Some dquote → quoteIfNeeded s = s.
Proof.
  intros Hl Hh Ht. unfold quoteIfNeeded. rewrite !bool_decide_eq_true_2 by done.
  by rewrite (proj2 (Nat.leb_le _ _) Hl).
Qed.

Lemma svcbKeyRank_pdns k : RdataRender.svcbKeyRank k = PdnsEncode.svcbKeyRank k.
Proof. done. Qed.

Section Backend.
Context `{GoRuntime} (today zone : gostring).

(** [Render] lists the parameters in the backend's order. *)
Lemma renderKeys_pdns m : renderKeys m = SliceStable svcbKeyLess (map_to_list m).*1.
Proof.
  assert (AntiSymm (=) (λ x y, svcbKeyLess y x = false)) by (intros x y ??; by apply svcbKeyLess_total).
  apply (StronglySorted_unique (λ x y, svcbKeyLess y x = false)).
  - unfold renderKeys. rewrite sortedKeys_spec.
    apply (SliceStable_lex svcbKeyRank Z.ltb str_ltb);
      [apply Zltb_StrictWeak|apply svcbKeyLess_StrictWeak|apply sortStrings_sorted].
  - apply SliceStable_sorted, svcbKeyLess_StrictWeak.
  - by rewrite renderKeys_perm, sortedKeys_spec, sortStrings_perm, SliceStable_perm.
Qed.

(** Parameter values written without escapes. *)
Definition plainParams (m : gmap gostring gostring) : Prop :=
  map_Forall (λ _ v, forallb plainText v = true) m.

Lemma renderSVCBParams_pdns m : plainParams m → renderSVCBParams m = encodeSvcbParams m.
Proof.
  intros Hm. rewrite renderSVCBParams_eq, encodeSvcbParams_canonical, renderKeys_pdns.
  unfold words, sp. f_equal. apply list_omap_ext, Forall2_same_length_lookup_2; [done|].
  intros i k k' Hk Hk'. assert (k' = k) as -> by congruence.
  unfold renderSVCBParam, svcbParamText. cbn zeta.
  change PdnsEncode.svcbFlagKeys with svcbFlagKeys.
  change PdnsEncode.svcbUnquotedCSV with svcbUnquotedCSV.
  do 3 (case_decide; [done|]). do 3 f_equal. symmetry. apply quoteIfNeeded_plain.
  apply TrimSpace_forallb. destruct (m !! k) as [v|] eqn:E; [|done]. by apply (Hm k v).
Qed.

Lemma renderSVCB_pdns s :
  plainParams (https_Params s) →
  renderSVCB s = encodeSvcbLine (https_Priority s) (https_Target s) (https_Params s).
Proof.
  intros Hm. unfold renderSVCB, encodeSvcbLine. rewrite renderSVCBParams_pdns by done.
  by rewrite qualify_pdns, TrimSpace_idemp.
Qed.

(** ** Where the quotings differ *)

Definition weight (l : list gostring) : nat := sum_list_with (S ∘ length) l.

Lemma Join_length l : length (Join l " ") = weight l - 1.
Proof.
  induction l as [|a [|b l] IH]; [done|unfold weight; cbn; lia|].
  change (Join (a :: b :: l) " ") with (a ++ " " ++ Join (b :: l) " "). rewrite !length_app, IH.
  unfold weight. cbn. lia.
Qed.

(** A parameter on which the quotings agree: one that is written quoted has only bytes
    that both treat alike. *)
Definition paramAlike (k v : gostring) : Prop :=
  k ∉ svcbFlagKeys → k ∉ svcbUnquotedCSV → forallb sameByte (TrimSpace v) = true.
#[local] Instance paramAlike_dec k v : Decision (paramAlike k v) := _.

Lemma param_exact m k v :
  m !! k = Some v →
  (paramAlike k v → svcbParamText m k = renderSVCBParam m k) ∧
  (¬ paramAlike k v → ∃ a b, svcbParamText m k = Some a ∧ renderSVCBParam m k = Some b ∧ length a < length b).
Proof.
  intros Hk. unfold renderSVCBParam, svcbParamText. rewrite Hk. cbn [default id]. cbn zeta.
  change PdnsEncode.svcbFlagKeys with svcbFlagKeys. change PdnsEncode.svcbUnquotedCSV with svcbUnquotedCSV.
  unfold paramAlike. pose proof (quoteIfNeeded_exact (TrimSpace v)) as Hq.
  case_decide as Hf; [split; [done|]; intros Hn; destruct Hn; intros; tauto|].
  case_decide as He; [split; [done|]; intros Hn; destruct Hn; intros; by rewrite He|].
  case_decide as Hc; [split; [done|]; intros Hn; destruct Hn; intros; tauto|].
  destruct (forallb sameByte (TrimSpace v)).
  - split; [by rewrite Hq|]. intros Hn. by destruct Hn.
  - split; [intros Ha; by specialize (Ha Hf Hc)|]. intros _. do 2 eexists. split_and!; [done..|].
    rewrite !length_app. lia.
Qed.

Lemma params_shorter m ks :
  (∀ k, k ∈ ks → is_Some (m !! k)) →
  weight (omap (svcbParamText m) ks) ≤ weight (omap (renderSVCBParam m) ks) ∧
  ((∃ k v, k ∈ ks ∧ m !! k = Some v ∧ ¬ paramAlike k v) →
   0 < weight (omap (svcbParamText m) ks) < weight (omap (renderSVCBParam m) ks)).
Proof.
  intros Hks. induction ks as [|k ks IH]; [by split; [|intros (k & v & ?%not_elem_of_nil & _)]|].
  destruct IH as [Hle Hlt]; [intros; apply Hks; by right|].
  destruct (Hks k) as [v Hv]; [by left|]. destruct (param_exact m k v Hv) as [Hsame Hdiff]. cbn [omap list_omap].
  destruct (decide (paramAlike k v)) as [Ha|Ha].
  - rewrite (Hsame Ha). destruct (renderSVCBParam m k) as [b|]; unfold weight in *; cbn [sum_list_with];
      (split; [lia|]); intros (k' & v' & [->|Hin]%elem_of_cons & Hv' & Hn); try congruence;
      destruct Hlt; eauto; lia.
  - destruct (Hdiff Ha) as (a & b & -> & -> & Hab). unfold weight in *. cbn. split; [lia|]. intros _. lia.
Qed.

Definition alikeSVCB (s : HTTPSRecordSpec) : Prop :=
  https_Priority s ≠ 0%Z → map_Forall paramAlike (https_Params s).

Lemma renderKeys_bound m k : k ∈ renderKeys m ↔ is_Some (m !! k).
Proof.
  rewrite renderKeys_pdns, SliceStable_perm, list_elem_of_fmap. split.
  - intros ([k' v] & -> & Hv%elem_of_map_to_list). by exists v.
  - intros [v Hv]. exists (k, v). by rewrite elem_of_map_to_list.
Qed.

Lemma params_exact m :
  (map_Forall paramAlike m → encodeSvcbParams m = renderSVCBParams m) ∧
  (¬ map_Forall paramAlike m → length (encodeSvcbParams m) < length (renderSVCBParams m)).
Proof.
  rewrite renderSVCBParams_eq, encodeSvcbParams_canonical, <- renderKeys_pdns. split.
  - intros Hm. unfold words, sp. f_equal. apply list_omap_ext, Forall2_same_length_lookup_2; [done|].
    intros i k k' Hk Hk'. assert (k' = k) as -> by congruence.
    destruct (proj1 (renderKeys_bound m k)) as [v Hv]; [by eapply list_elem_of_lookup_2|].
    by apply (param_exact m k v Hv), Hm.
  - intros Hn. unfold words, sp. rewrite !Join_length.
    destruct (params_shorter m (renderKeys m)) as [_ Hlt]; [by intros k Hk%renderKeys_bound|].
    destruct Hlt; [|lia]. apply map_not_Forall in Hn as (k & v & Hv & Hn); [|apply _].
    exists k, v. split_and!; [|done..]. apply renderKeys_bound. by exists v.
Qed.

Lemma renderSVCB_exact s :
  let c := encodeSvcbLine (https_Priority s) (https_Target s) (https_Params s) in
  (alikeSVCB s → c = renderSVCB s) ∧ (¬ alikeSVCB s → length c < length (renderSVCB s)).
Proof.
  unfold renderSVCB, encodeSvcbLine, alikeSVCB. rewrite qualify_pdns, TrimSpace_idemp. cbn zeta.
  destruct (Z.eqb_spec (https_Priority s) 0) as [Hp|Hp]; [split; [done|]; intros Hn; by destruct Hn|].
  destruct (params_exact (https_Params s)) as [Heq Hlt]. split.
  - intros Ha. by rewrite (Heq (Ha Hp)).
  - intros Hn. assert (length (encodeSvcbParams (https_Params s)) < length (renderSVCBParams (https_Params s))) as Hl
      by (apply Hlt; contradict Hn; done). clear Heq Hlt Hn.
    rewrite (decide_True (P := renderSVCBParams _ ≠ [])) by (by intros E; rewrite E in Hl; cbn in Hl; lia).
    case_decide; unfold words, sp; rewrite !Join_length; unfold weight; cbn; lia.
Qed.

(** * Validated entries are written *)

Lemma checkTargetHost_ne f v u r : checkTargetHost f v zone u r = Ok tt → TrimSpace v ≠ [].
Proof. unfold checkTargetHost. cbn zeta. by case_decide. Qed.

Lemma EntryForAPI_id t e : t ≠ RRTypeTXT → EntryForAPI t e = e.
Proof. intros Ht. unfold EntryForAPI, mapTXT. case_match; [|done]. by rewrite decide_False. Qed.

Lemma addNonEmpty_ne v c : v ≠ [] → addNonEmpty v c [] = [liveRecord c].
Proof. intros Hv. unfold addNonEmpty. by rewrite decide_False. Qed.

(** Quoted text on which the two packages' quotings agree. *)
Definition plainQuoted (t : RRType) (e : RecordEntry) : Prop :=
  match t with
  | RRTypeCAA => ∀ s, re_CAA e = Some s → forallb plainText (caa_Value s) = true
  | RRTypeHTTPS => ∀ s, re_HTTPS e = Some s → plainParams (https_Params s)
  | RRTypeSVCB => ∀ s, re_SVCB e = Some s → plainParams (https_Params s)
  | _ => True
  end.

Lemma contribution_TXT e s :
  re_TXT e = Some s →
  contribution today RRTypeTXT (EntryForAPI RRTypeTXT e) = [liveRecord (renderTXT (Content s))].
Proof.
  intros Hs. unfold contribution, EntryForAPI, mapTXT. rewrite Hs, decide_True by done.
  cbn [addEntry set_TXT re_TXT Content]. unfold TXTContentForAPI.
  destruct (renderTXT_eq (Content s)) as (parts & E & Hne & _).
  destruct (Join_quoted_head parts Hne) as [r Hr]. pose proof (Join_quoted_last parts Hne) as Hl.
  rewrite <- E in *.
  assert (endsPlain (renderTXT (Content s))) as He by (exists dquote, dquote; by rewrite Hl, Hr).
  rewrite TrimSpace_ends by done. cbn zeta. rewrite addNonEmpty_ne by (by rewrite Hr).
  rewrite quoteIfNeeded_quoted; [done| |by rewrite Hr|done].
  rewrite E. destruct parts as [|p [|q parts]]; [done|..]; cbn; rewrite !length_app; cbn; lia.
Qed.

(** The backend's record for one entry, in the terms of [Render]. *)
Lemma contribution_Render t e :
  ValidateInZone t e zone = Ok tt →
  ∃ c, contribution today t (EntryForAPI t e) = [liveRecord c] ∧
    (plainQuoted t e → c = Render today t e).
Proof.
  intros Hval%ValidateInZone_value. destruct (decide (t = RRTypeTXT)) as [-> |Ht].
  { apply deref_Ok in Hval as (s & Hs & _). rewrite (contribution_TXT e s Hs).
    eexists. split; [done|]. cbn. by rewrite Hs. }
  rewrite EntryForAPI_id by done. unfold contribution.
  destruct t; try done; cbn in Hval; apply deref_Ok in Hval as (s & Hs & Hv);
    cbn [addEntry Render plainQuoted]; rewrite Hs; cbn zeta.
  - rewrite addNonEmpty_ne; [by eexists|]. intros E. by rewrite E in Hv.
  - rewrite addNonEmpty_ne; [by eexists|]. intros E. by rewrite E in Hv.
  - apply checkTargetHost_ne in Hv. rewrite decide_True by done.
    rewrite addNonEmpty_ne by (by apply qualifyIfNeeded_ne). rewrite qualify_pdns. by eexists.
  - apply checkTargetHost_ne in Hv. rewrite decide_True by done.
    rewrite addNonEmpty_ne by (by apply qualifyIfNeeded_ne). rewrite qualify_pdns. by eexists.
  - rewrite addNonEmpty_ne; [rewrite qualify_pdns; by eexists|].
    intros E. rewrite E in Hv. case_decide; [done|]. by apply checkTargetHost_ne in Hv.
  - apply checkTargetHost_ne in Hv. rewrite addNonEmpty_ne, qualify_pdns by done. by eexists.
  - eexists. split; [done|]. intros Hp. by rewrite quoteIfNeeded_plain by by apply Hp.
  - apply checkTargetHost_ne in Hv. rewrite addNonEmpty_ne, qualify_pdns by done. by eexists.
  - unfold soaLine. rewrite !qualify_pdns. by eexists.
  - apply checkTargetHost_ne in Hv. rewrite addNonEmpty_ne, qualify_pdns by done. by eexists.
  - by eexists.
  - eexists. split; [done|]. intros Hp. by rewrite renderSVCB_pdns by by apply Hp.
  - eexists. split; [done|]. intros Hp. by rewrite renderSVCB_pdns by by apply Hp.
Qed.

(** * Validated record sets lose nothing *)

(** The entries of one owner, as [ValidateEntriesInZone] groups them. *)
Abbreviation ownedBy o := (λ e, FQDN (re_Name e) zone = o).

Lemma checkOwners_Ok t es owners o :
  checkOwners t zone owners es = Ok tt →
  let here := filter (ownedBy o) es in
  let st := default {| os_count := 0; os_seen := ∅ |} (owners !! o) in
  NoDup (Key t <$> here) ∧ Forall (λ e, Key t e ∉ os_seen st) here ∧
  (IsSingleValued t = true → here = [] ∨ (os_count st + Z.of_nat (length here) ≤ 1)%Z).
Proof.
  revert owners. induction es as [|e es IH]; intros owners Hc; cbn zeta.
  { split_and!; [constructor..|by left]. }
  cbn [checkOwners] in Hc. case_match eqn:Hs; [done|]. case_decide as Hk; [done|].
  specialize (IH _ Hc). cbn zeta in IH. rewrite filter_cons.
  destruct (decide (FQDN (re_Name e) zone = o)) as [<-|Hne].
  - rewrite lookup_insert_eq in IH. cbn [default from_option os_seen os_count] in IH.
    destruct IH as (Hnd & Hseen & Hone). split_and!.
    + rewrite fmap_cons. constructor; [|done].
      intros (e' & E & He')%list_elem_of_fmap. rewrite Forall_forall in Hseen.
      apply (Hseen e' He'). rewrite <- E. set_solver.
    + constructor; [done|]. eapply Forall_impl; [done|]. set_solver.
    + intros Ht. right. rewrite Ht in Hs. cbn in Hs. destruct (Hone Ht) as [E|E].
      * rewrite E. cbn. lia.
      * cbn in E |- *. lia.
  - rewrite lookup_insert_ne in IH by done. exact IH.
Qed.

Lemma plainEntry_quoted t e : plainEntry t e → plainQuoted t e.
Proof.
  destruct t; try done; intros Hp s Hs; destruct (Hp s Hs) as [_ Hm];
    intros k v Hkv; by destruct (Hm k v Hkv) as (_ & _ & ? & _).
Qed.

(** An entry of a validated record set, as submitted. *)
Record submitted (t : RRType) (e : RecordEntry) : Prop := {
  sub_wf : wf_RecordEntry e;
  sub_valid : ValidateInZone t e zone = Ok tt;
  sub_plain : plainEntry t e;
  sub_name : TrimSpace (re_Name e) = re_Name e;
}.

(** Entries that print the same have the same identity. *)
Lemma Render_Key t e1 e2 :
  serialDate today → submitted t e1 → submitted t e2 →
  Render today t e1 = Render today t e2 → Key t e1 = Key t e2.
Proof.
  intros Hd [] [] E.
  destruct (Render_readsBack today zone t e1) as (f1 & H1 & <- & _); [done..|].
  destruct (Render_readsBack today zone t e2) as (f2 & H2 & <- & _); [done..|].
  rewrite E in H1. congruence.
Qed.

Lemma Render_NoDup t es :
  serialDate today → Forall (submitted t) es → NoDup (Key t <$> es) →
  NoDup (rec_Content ∘ (liveRecord ∘ Render today t) <$> es).
Proof.
  intros Hd. induction 1 as [|e es He Hes IH]; [by constructor|].
  rewrite !fmap_cons, !NoDup_cons. intros [Hk Hnd]. split; [|by apply IH].
  intros (e' & E & Hin)%list_elem_of_fmap. cbn in E. apply Hk.
  rewrite Forall_forall in Hes. rewrite (Render_Key t e e' Hd He (Hes e' Hin) E).
  by apply list_elem_of_fmap_2.
Qed.

Lemma firstSeen_id l : NoDup (rec_Content <$> l) → firstSeen l = l.
Proof.
  induction l as [|r l IH]; [done|]. rewrite fmap_cons, NoDup_cons. intros [Hr Hnd].
  cbn [firstSeen]. rewrite IH by done. f_equal. apply filter_id, Forall_forall.
  intros r' Hr' E. apply Hr. rewrite <- E. by apply list_elem_of_fmap_2.
Qed.

Lemma chooseRecords_single t l :
  (IsSingleValued t = true → length l ≤ 1) → chooseRecords t l = l.
Proof.
  intros Hl. unfold chooseRecords. destruct t; try done;
    specialize (Hl eq_refl); destruct l as [|r [|]]; cbn in *; try done; lia.
Qed.

(** The contents of the entries of one owner. *)
Lemma contributions_Render t es :
  Forall (submitted t) es →
  ((EntryForAPI t <$> es) ≫= contribution today t) = liveRecord ∘ Render today t <$> es.
Proof.
  induction 1 as [|e es [] Hes IH]; [done|]. rewrite fmap_cons, bind_cons, IH.
  destruct (contribution_Render t e) as (c & -> & ->); [done|done|by apply plainEntry_quoted].
Qed.

(** A zone as a [DNSZone] spells it: no blanks around it and no final dot. *)
Definition zoneSpelled : Prop :=
  TrimSpace zone = zone ∧ HasSuffix zone "." = false ∧ ascii_string zone = true.

Lemma submitted_owner t e :
  zoneSpelled → submitted t e → FQDN (re_Name e) zone = Qualify (re_Name e) zone.
Proof.
  intros (Hz & Hd & Ha) [_ _ _ Hn]. rewrite FQDN_as_Qualify by (by rewrite Hz).
  by rewrite Hn, Hz, TrimSuffix_id.
Qed.

Lemma re_Name_ForAPI t e : re_Name (EntryForAPI t e) = re_Name e.
Proof. unfold EntryForAPI, mapTXT. case_match; [|done]. by case_decide. Qed.

(** The RRset the backend builds at one owner of a validated record set. *)
Lemma ownerRRset_Render t es o :
  serialDate today → zoneSpelled → Forall (submitted t) es → checkOwners t zone ∅ es = Ok tt →
  rr_Records (ownerRRset today zone t (EntryForAPI t <$> es) o) =
  liveRecord ∘ Render today t <$> filter (λ e, Qualify (re_Name e) zone = o) es.
Proof.
  intros Hd Hz Hes Hc. unfold ownerRRset. cbn [rr_Records].
  rewrite (filter_fmap_in (EntryForAPI t) _ (λ e, Qualify (re_Name e) zone = o))
    by (intros e _; unfold atOwner; by rewrite re_Name_ForAPI).
  set (here := filter (λ e, Qualify (re_Name e) zone = o) es).
  assert (here = filter (ownedBy o) es) as Ho.
  { unfold here. rewrite <- (list_fmap_id es) at 1.
    rewrite (filter_fmap_in id _ (ownedBy o)), list_fmap_id; [done|]. intros e He.
    rewrite Forall_forall in Hes. by rewrite (submitted_owner t e Hz (Hes e He)). }
  assert (Forall (submitted t) here) as Hhere by by apply Forall_filter_sub.
  destruct (checkOwners_Ok t es ∅ o Hc) as (Hnd & _ & Hone). rewrite <- Ho in Hnd, Hone.
  rewrite contributions_Render by done. rewrite lookup_empty in Hone. cbn in Hone.
  rewrite chooseRecords_single.
  - apply firstSeen_id. rewrite <- list_fmap_compose. by apply Render_NoDup.
  - intros Ht. rewrite length_fmap. destruct (Hone Ht) as [-> |]; cbn; lia.
Qed.

(** C28. Nothing a validated record set says is lost on the way to PowerDNS: at every
    owner the backend writes exactly the lines [Render] shows for the entries at that
    owner, one per entry and in their order, although [buildRRSets] drops duplicates
    and keeps one value of a single-valued type; and every owner is written.

    This is for a zone spelled as a DNSZone spells it (ASCII, no blanks around it, no
    final dot), a date that makes a 32-bit SOA serial ([serialDate]) and entries that are
    each valid, with integers of their width and a name without blanks around it, and
    plain ([plainEntry]): host names have no backslash; CAA values and service parameters
    are printable ASCII without quotes and backslashes; parameter keys are ones
    [parseParam] accepts, and the flag key has no value; and TXT data, decoded, is not
    again a sequence of quoted strings. *)
Theorem ValidateEntries_lossless t es :
  serialDate today → zoneSpelled → Forall (submitted t) es →
  ValidateEntriesInZone t es zone = Ok tt →
  let rrsets := buildRRSets today zone t (EntryForAPI t <$> es) in
  (∀ rr, rr ∈ rrsets →
     rr_Records rr =
     liveRecord ∘ Render today t <$> filter (λ e, Qualify (re_Name e) zone = rr_Name rr) es) ∧
  (∀ e, e ∈ es → ∃ rr, rr ∈ rrsets ∧ rr_Name rr = Qualify (re_Name e) zone).
Proof.
  intros Hd Hz Hes Hval. unfold ValidateEntriesInZone in Hval. case_decide; [done|].
  apply bind_Ok in Hval as (_ & _ & Hc). cbn zeta. rewrite buildRRSets_owners. split.
  - intros rr (o & -> & _)%list_elem_of_fmap. by apply ownerRRset_Render.
  - intros e He. eexists. split; [apply list_elem_of_fmap_2|done].
    rewrite sortStrings_perm, elem_of_remove_dups. rewrite <- (re_Name_ForAPI t).
    by apply (list_elem_of_fmap_2 (λ e, Qualify (re_Name e) zone)), list_elem_of_fmap_2.
Qed.

(** C31. [Validate] keeps its promise that the backend will write the entry: an accepted
    entry, in the form the API stores, makes exactly one record of its type, and where
    the two packages quote alike its content is the line [Render] shows. *)
Theorem Validate_written t e :
  ValidateInZone t e zone = Ok tt →
  ∃ c, contribution today t (EntryForAPI t e) = [liveRecord c] ∧
    (plainQuoted t e → c = Render today t e).
Proof. apply contribution_Render. Qed.

(** Quoted text whose every byte the two packages treat alike. *)
Definition alikeQuoted (t : RRType) (e : RecordEntry) : Prop :=
  match t with
  | RRTypeCAA => if re_CAA e is Some s then forallb sameByte (caa_Value s) = true else True
  | RRTypeHTTPS => if re_HTTPS e is Some s then alikeSVCB s else True
  | RRTypeSVCB => if re_SVCB e is Some s then alikeSVCB s else True
  | _ => True
  end.
#[local] Instance alikeQuoted_dec t e : Decision (alikeQuoted t e).
Proof. unfold alikeQuoted, alikeSVCB. repeat case_match; apply _. Defined.

(** The record of an entry, where the quotings agree and where they do not. *)
Lemma contribution_quoting t e c :
  ValidateInZone t e zone = Ok tt → contribution today t (EntryForAPI t e) = [liveRecord c] →
  (alikeQuoted t e → c = Render today t e) ∧ (¬ alikeQuoted t e → length c < length (Render today t e)).
Proof.
  intros Hval Hc. destruct (contribution_Render t e Hval) as (c' & Hc' & Hplain). rewrite Hc' in Hc. injection Hc as ->.
  apply ValidateInZone_value in Hval. unfold contribution in Hc'.
  destruct t; cbn [alikeQuoted]; try (split; [intros _; by apply Hplain|tauto]); cbn in Hval;
    apply deref_Ok in Hval as (s & Hs & _); rewrite EntryForAPI_id in Hc' by done;
    cbn [addEntry Render app] in Hc' |- *; rewrite Hs in Hc' |- *; injection Hc' as <-.
  - pose proof (quoteIfNeeded_exact (caa_Value s)) as Hq. destruct (forallb sameByte (caa_Value s)) eqn:E.
    + split; [by rewrite Hq|done].
    + split; [done|]. intros _. unfold words, sp. rewrite !Join_length. unfold weight. cbn in *. lia.
  - apply renderSVCB_exact.
  - apply renderSVCB_exact.
Qed.

(** C38. What the command line shows for a valid entry is what the backend writes exactly
    where the two packages quote alike: no CAA value and no quoted service parameter of a
    record that is no alias has a backslash, a quote or a control byte.  Wherever one has,
    [Validate] still accepts the entry, and the backend writes another, shorter line. *)
Theorem Validate_quoting t e :
  ValidateInZone t e zone = Ok tt →
  ∃ c, contribution today t (EntryForAPI t e) = [liveRecord c] ∧
    (c = Render today t e ↔ alikeQuoted t e) ∧
    (¬ alikeQuoted t e → length c < length (Render today t e)).
Proof.
  intros Hval. destruct (contribution_Render t e Hval) as (c & Hc & _). exists c.
  destruct (contribution_quoting t e c Hval Hc) as [Heq Hlt]. split_and!; [done| |done].
  split; [|done]. intros E. destruct (decide (alikeQuoted t e)) as [|Hn]; [done|]. apply Hlt in Hn. rewrite E in Hn. lia.
Qed.
End Backend.

#[local] Existing Instance reference_runtime.

Lemma exampleHTTPS_submitted : submitted "example.com" RRTypeHTTPS exampleHTTPS.
Proof.
  split; [apply exampleHTTPS_wf|vm_compute; reflexivity|apply exampleHTTPS_plain|].
  vm_compute. reflexivity.
Qed.

Lemma ValidateEntries_lossless_witness :
  let rrsets := buildRRSets "20240101" "example.com" RRTypeHTTPS
    (EntryForAPI RRTypeHTTPS <$> [exampleHTTPS]) in
  ∃ rr, rr ∈ rrsets ∧ rr_Name rr = "www.example.com.".
Proof.
  intros rrsets.
  destruct (ValidateEntries_lossless "20240101" "example.com" RRTypeHTTPS [exampleHTTPS])
    as [_ Hown].
  - eexists. vm_compute. reflexivity.
  - split_and!; vm_compute; reflexivity.
  - apply Forall_singleton, exampleHTTPS_submitted.
  - vm_compute. reflexivity.
  - destruct (Hown exampleHTTPS) as (rr & Hrr & Hn); [by apply elem_of_cons; left|].
    exists rr. split; [exact Hrr|]. rewrite Hn. vm_compute. reflexivity.
Defined.

Lemma Validate_written_witness :
  ∃ c, contribution "20240101" RRTypeHTTPS (EntryForAPI RRTypeHTTPS exampleHTTPS)
    = [liveRecord c].
Proof.
  destruct (Validate_written "20240101" "example.com" RRTypeHTTPS exampleHTTPS) as (c & Hc & _).
  - vm_compute. reflexivity.
  - exists c. exact Hc.
Defined.

(** A CAA value with a tab. *)
Definition tabbedCAA : RecordEntry := set_Name "@" (assign (FCAA
  {| caa_Flag := 0; caa_Tag := "issue"; caa_Value := "a" ++ [tab] ++ "b" |}) emptyEntry).

Lemma Validate_quoting_witness :
  ∃ c, contribution "20240101" RRTypeCAA (EntryForAPI RRTypeCAA tabbedCAA) = [liveRecord c] ∧
    length c < length (Render "20240101" RRTypeCAA tabbedCAA).
Proof.
  destruct (Validate_quoting "20240101" "example.com" RRTypeCAA tabbedCAA) as (c & Hc & _ & Hlt).
  - vm_compute. reflexivity.
  - exists c. split; [exact Hc|]. apply Hlt. intros Ha. vm_compute in Ha. discriminate.
Defined.
