(* ===== verification/PdnsErrors.v ===== *)
(** Package [internal/dns/pdns], file [errors.go]: what the errors of the PowerDNS
    API mean.

    A Go error is a tree: a leaf, one wrapped error ([fmt.Errorf] with [%w]) or
    several ([errors.Join]).  [json_error] is [json.Unmarshal] into
    [pdnsErrorBody]; every statement holds for any decoder. *)

From S2P Require Import Prelude GoStrings PdnsEncode.

(** [e_id] tells apart the pointers two failures allocate: the code compares errors
    with [!=]. *)
#[warnings="-register-all"]
Inductive GoError :=
| APIError (e_id : nat) (Status : Z) (Body : gostring)
| ErrZoneNotFound
| OtherError (e_id : nat) (text : gostring)
| Wrapped (e_id : nat) (prefix : gostring) (inner : GoError)
| Joined (errs : list GoError).

(** [err.Error()]. *)
Fixpoint ErrorText (e : GoError) : gostring :=
  match e with
  | APIError _ status body =>
      if decide (body ≠ []) then "status " ++ FormatInt status ++ ": " ++ body
      else "error: status " ++ FormatInt status
  | ErrZoneNotFound => "zone not found"
  | OtherError _ text => text
  | Wrapped _ prefix inner => prefix ++ ErrorText inner
  | Joined errs => Join (ErrorText <$> errs) [newline]
  end.

(** [errors.Is(err, dnserrors.ErrZoneNotFound)]. *)
Fixpoint isZoneNotFound (e : GoError) : bool :=
  match e with
  | ErrZoneNotFound => true
  | Wrapped _ _ inner => isZoneNotFound inner
  | Joined errs => existsb isZoneNotFound errs
  | _ => false
  end.

(** The API errors in the tree, each as its status and body. *)
Fixpoint apiErrorsIn (e : GoError) : list (Z * gostring) :=
  match e with
  | APIError _ status body => [(status, body)]
  | Joined errs => errs ≫= apiErrorsIn
  | Wrapped _ _ inner => apiErrorsIn inner
  | ErrZoneNotFound | OtherError _ _ => []
  end.

Definition conflictPhrase : gostring := "Conflicts with pre-existing".
Definition StatusUnprocessableEntity : Z := 422.

Fixpoint IsTransient (e : GoError) : bool :=
  match e with
  | APIError _ status _ => (500 <=? status)%Z || (status =? 429)%Z
  | Joined errs => existsb IsTransient errs
  | Wrapped _ _ inner => IsTransient inner
  | ErrZoneNotFound | OtherError _ _ => true
  end.

(** ** The pattern of a refused RRset

    [RRset (\S+) IN (\S+): Conflicts with pre-existing].  [\S] stops at the ASCII
    blanks only. *)
Definition regexpSpace (c : ascii) : bool :=
  Ascii.eqb c " " || Ascii.eqb c tab || Ascii.eqb c newline || Ascii.eqb c "012"
  || Ascii.eqb c cr.

Fixpoint spanNonSpace (s : gostring) : gostring * gostring :=
  match s with
  | c :: s' =>
      if regexpSpace c then ([], s) else let '(w, r) := spanNonSpace s' in (c :: w, r)
  | [] => ([], [])
  end.

(** The rest of the string behind a literal. *)
Definition expect (lit s : gostring) : option gostring :=
  if HasPrefix s lit then Some (drop (length lit) s) else None.

(** A match that starts at the first byte.  The literal after each group begins
    with, or is followed by, a blank, so a group can only be the whole run of
    non-blanks (less the colon, for the second one). *)
Definition refusedAt (s : gostring) : option (gostring * gostring) :=
  s ← expect "RRset " s;
  let '(name, s) := spanNonSpace s in
  if decide (name = []) then None else
  s ← expect " IN " s;
  let '(typ_colon, s) := spanNonSpace s in
  if HasSuffix typ_colon ":" then
    let typ := TrimSuffix typ_colon ":" in
    if decide (typ = []) then None else
    _ ← expect " Conflicts with pre-existing" s;
    Some (name, typ)
  else None.

(** [FindStringSubmatch]: the leftmost match. *)
Fixpoint refusedRRSetPattern (s : gostring) : option (gostring * gostring) :=
  match refusedAt s with
  | Some m => Some m
  | None => match s with [] => None | _ :: s' => refusedRRSetPattern s' end
  end.

Section Errors.
Context `{GoRuntime} (json_error : gostring → option (gostring * list gostring)).

Definition reasons (body : gostring) : list gostring :=
  if decide (body = []) then []
  else match json_error body with
       | None => []
       | Some (error, errors) =>
           match errors with
           | _ :: _ => errors
           | [] => if decide (error = []) then [] else [error]
           end
       end.

Definition isConflict (e : Z * gostring) : bool :=
  (e.1 =? StatusUnprocessableEntity)%Z &&
  existsb (λ reason, Contains reason conflictPhrase) (reasons e.2).

Definition IsConflict (e : GoError) : bool := existsb isConflict (apiErrorsIn e).

Definition conflictMessage : gostring :=
  "A conflicting record already exists for this name. Remove the existing record and try again.".
Definition retryMessage : gostring :=
  "Failed to apply DNS record. It will be retried automatically.".

Definition FriendlyMessage (e : GoError) : gostring :=
  match apiErrorsIn e with
  | [] => retryMessage
  | ((status, _) :: _) as apiErrs =>
      if existsb isConflict apiErrs then conflictMessage
      else
        let detail := Join (apiErrs ≫= λ e, reasons e.2) "; " in
        if Contains detail conflictPhrase then conflictMessage
        else if Contains detail "Invalid character" then
          "The record content contains an invalid character. TXT records containing semicolons or special characters must be properly quoted."
        else if Contains detail "Not in zone" then
          "The record name is outside the zone. Check that the name belongs to this DNS zone."
        else if Contains detail "RRset" && Contains detail "IN CNAME" then
          "A CNAME record conflicts with an existing record at this name."
        else if Contains detail "RRset" && Contains detail "IN ALIAS" then
          "An ALIAS record conflicts with an existing record at this name."
        else if (status =? 422)%Z then
          if decide (detail ≠ []) then "The DNS record was rejected as invalid: " ++ detail
          else "The DNS record was rejected as invalid. Check the record type and value."
        else if (status =? 404)%Z then
          "The DNS zone could not be found. It may still be provisioning."
        else if (500 <=? status)%Z then
          "An internal error occurred while applying the record. It will be retried automatically."
        else retryMessage
  end.

Definition refusedRRSets (e : GoError) : list rrsetKey :=
  apiErrorsIn e ≫= λ '(status, body),
    if (status =? StatusUnprocessableEntity)%Z then
      omap (λ reason, '(n, t) ← refusedRRSetPattern reason; Some (ToLower n, ToUpper t))
        (reasons body)
    else [].

Definition refuses (e : GoError) (key : rrsetKey) : bool :=
  bool_decide (key ∈ refusedRRSets e).
End Errors.

(** * Properties *)

Definition nonSpace (w : gostring) : Prop := w ≠ [] ∧ forallb (λ c, negb (regexpSpace c)) w = true.

(** The text of PowerDNS's refusal of one RRset. *)
Definition refusalText (n t : gostring) : gostring :=
  "RRset " ++ n ++ " IN " ++ t ++ ": Conflicts with pre-existing".

Lemma expect_Some lit s r : expect lit s = Some r ↔ s = lit ++ r.
Proof.
  unfold expect. destruct (HasPrefix s lit) eqn:E.
  - apply HasPrefix_spec in E as [t ->]. rewrite drop_app_length. split; [by intros [= ->]|].
    by intros ->%app_inv_head.
  - split; [done|]. intros ->. assert (HasPrefix (lit ++ r) lit = true) as HP
      by (apply HasPrefix_spec; by exists r). congruence.
Qed.

Lemma expect_app lit r : expect lit (lit ++ r) = Some r.
Proof. by apply expect_Some. Qed.

Lemma spanNonSpace_app w c r :
  forallb (λ c, negb (regexpSpace c)) w = true → regexpSpace c = true →
  spanNonSpace (w ++ c :: r) = (w, c :: r).
Proof.
  intros Hw Hc. induction w as [|d w IH]; cbn in *; [by rewrite Hc|].
  apply andb_true_iff in Hw as [Hd Hw]. rewrite (IH Hw).
  by destruct (regexpSpace d).
Qed.

Lemma spanNonSpace_spec s w r :
  spanNonSpace s = (w, r) → s = w ++ r ∧ forallb (λ c, negb (regexpSpace c)) w = true.
Proof.
  revert w. induction s as [|c s IH]; intros w; cbn; [by intros [= <- <-]|].
  destruct (regexpSpace c) eqn:Hc; [by intros [= <- <-]|].
  destruct (spanNonSpace s) as [w' r']. intros [= <- <-].
  destruct (IH w') as [-> Hw]; [done|]. cbn. by rewrite Hc, Hw.
Qed.

(** A match is exactly a refusal text. *)
Lemma refusedAt_Some s n t :
  refusedAt s = Some (n, t) ↔
  nonSpace n ∧ nonSpace t ∧ ∃ post, s = refusalText n t ++ post.
Proof.
  unfold refusedAt, nonSpace, refusalText. split.
  - intros (s1 & ->%expect_Some & H1)%bind_Some.
    destruct (spanNonSpace s1) as [n' s2] eqn:E1. case_decide; [done|].
    apply bind_Some in H1 as (s3 & ->%expect_Some & H2).
    destruct (spanNonSpace s3) as [tc s4] eqn:E2.
    destruct (HasSuffix tc ":") eqn:Hs; [|done]. case_decide; [done|].
    apply bind_Some in H2 as (post & ->%expect_Some & [= <- <-]).
    apply spanNonSpace_spec in E1 as [-> Hn]. apply spanNonSpace_spec in E2 as [-> Ht].
    apply HasSuffix_spec in Hs as [t ->]. rewrite TrimSuffix_app in *.
    rewrite forallb_app in Ht. apply andb_true_iff in Ht as [Ht _].
    split_and!; [done..|]. exists post. by rewrite <- !app_assoc.
  - intros ([Hn Hn'] & [Ht Ht'] & post & ->). rewrite <- !app_assoc, expect_app.
    cbn [mbind option_bind].
    change (" IN " ++ ?x) with (" "%char :: "IN " ++ x).
    rewrite spanNonSpace_app by done. rewrite decide_False by done.
    change (" "%char :: "IN " ++ ?x) with (" IN " ++ x). rewrite expect_app.
    cbn [mbind option_bind].
    replace (t ++ ": Conflicts with pre-existing" ++ post)
      with ((t ++ ":") ++ " "%char :: "Conflicts with pre-existing" ++ post)
      by by rewrite <- app_assoc.
    rewrite spanNonSpace_app; [|by rewrite forallb_app, Ht'|done].
    rewrite HasSuffix_app, TrimSuffix_app, decide_False by done.
    change (" "%char :: "Conflicts with pre-existing" ++ post)
      with (" Conflicts with pre-existing" ++ post). by rewrite expect_app.
Qed.

Lemma refusedRRSetPattern_Some s n t :
  refusedRRSetPattern s = Some (n, t) →
  nonSpace n ∧ nonSpace t ∧ ∃ pre post, s = pre ++ refusalText n t ++ post.
Proof.
  induction s as [|c s IH]; cbn [refusedRRSetPattern].
  - by destruct (refusedAt []) eqn:E.
  - destruct (refusedAt (c :: s)) as [m|] eqn:E.
    + intros [= ->]. apply refusedAt_Some in E as (? & ? & post & ->).
      split_and!; [done..|]. by exists [], post.
    + intros (? & ? & pre & post & ->)%IH. split_and!; [done..|]. by exists (c :: pre), post.
Qed.

Section Properties.
Context `{GoRuntime} (json_error : gostring → option (gostring * list gostring)).

(** The RRsets isolated after a rejected patch are the ones PowerDNS named, and
    no others: a key is taken as refused only on account of a 422 whose message
    says that this RRset, up to case, conflicts; and a message that opens with
    the refusal of an RRset marks it refused. *)
Theorem refuses_spec e :
  (∀ key, refuses json_error e key = true →
     ∃ body reason n t pre post, (StatusUnprocessableEntity, body) ∈ apiErrorsIn e ∧
       reason ∈ reasons json_error body ∧ reason = pre ++ refusalText n t ++ post ∧
       key = (ToLower n, ToUpper t)) ∧
  (∀ body n t post, (StatusUnprocessableEntity, body) ∈ apiErrorsIn e →
     nonSpace n → nonSpace t → refusalText n t ++ post ∈ reasons json_error body →
     refuses json_error e (ToLower n, ToUpper t) = true).
Proof.
  unfold refuses, refusedRRSets. split.
  - intros key ([status body] & Hkey & Hin)%bool_decide_eq_true%list_elem_of_bind.
    destruct (Z.eqb_spec status StatusUnprocessableEntity) as [->|];
      [|by apply not_elem_of_nil in Hkey].
    apply list_elem_of_omap in Hkey as (reason & Hr & ([n t] & Hm & [= <-])%bind_Some).
    apply refusedRRSetPattern_Some in Hm as (_ & _ & pre & post & E). naive_solver.
  - intros body n t post Hin Hn Ht Hr. apply bool_decide_eq_true, list_elem_of_bind.
    exists (StatusUnprocessableEntity, body). split; [|done]. rewrite Z.eqb_refl.
    apply list_elem_of_omap. exists (refusalText n t ++ post). split; [done|].
    assert (refusedAt (refusalText n t ++ post) = Some (n, t)) as E
      by (apply refusedAt_Some; eauto).
    destruct (refusalText n t ++ post); cbn [refusedRRSetPattern]; by rewrite E.
Qed.

End Properties.
