(* ===== verification/PdnsPatch.v ===== *)
(** Package [internal/dns/pdns], file [client.go]: how a patch is put together.
    Order of changes, comment clearing, chunking, pairing deletes with replaces,
    comment stamps, and the payload a change marshals to. *)

From S2P Require Import Prelude GoStrings Api Ownername PdnsEncode.

Definition ACCOUNT_OBSERVED_GENERATION : gostring := "OBSERVED_GENERATION".
Definition ACCOUNT_OWNER : gostring := "OWNER".
Definition ACCOUNT_OBJECT_UID : gostring := "OBJECT_UID".

Definition isDelete (rr : rrset) : bool := bool_decide (rr_ChangeType rr = changeTypeDelete).

(** * Order *)

(** The [less] of [sortRRSets]: DELETE first, then type, name and change type. *)
Definition rrsetLess : rrset → rrset → bool :=
  lexLess isDelete (λ a b, a && negb b)
    (lexLess rr_Type str_ltb
      (lexLess rr_Name str_ltb
        (λ a b, str_ltb (ChangeTypeString (rr_ChangeType a)) (ChangeTypeString (rr_ChangeType b))))).

Definition sortRRSets `{GoRuntime} (patch : list rrset) : list rrset := sort_slice rrsetLess patch.

(** * Changes *)

Definition newDeleteRRSet (qualifiedName recordType : gostring) : rrset :=
  {| rr_Name := qualifiedName; rr_Type := recordType; rr_TTL := 0;
     rr_ChangeType := changeTypeDelete; rr_Records := []; rr_Comments := [];
     rr_commentsOnly := false |}.

Definition commentsOnlyReplace (qualifiedName recordType : gostring) : rrset :=
  {| rr_Name := qualifiedName; rr_Type := recordType; rr_TTL := 0;
     rr_ChangeType := changeTypeReplace; rr_Records := []; rr_Comments := [];
     rr_commentsOnly := true |}.

Definition patchIdentity `{GoRuntime} (rr : rrset) : rrsetKey :=
  (ToLower (rr_Name rr), ToUpper (rr_Type rr)).

(** The identities a patch replaces. *)
Definition replacedIn `{GoRuntime} (patch : list rrset) : gset rrsetKey :=
  list_to_set (patchIdentity <$> filter (λ rr, rr_ChangeType rr = changeTypeReplace) patch).

(** The second loop of [clearCommentsBehindDeletes]; its error names the change that
    deletes what the patch also replaces. *)
Fixpoint clearLoop `{GoRuntime} (replaced : gset rrsetKey) (patch : list rrset) :
    result rrset (list rrset) :=
  match patch with
  | [] => Ok []
  | rr :: patch' =>
      if decide (rr_ChangeType rr ≠ changeTypeDelete) then
        cons rr <$> clearLoop replaced patch'
      else if decide (patchIdentity rr ∈ replaced) then Err rr
      else (λ out, rr :: commentsOnlyReplace (rr_Name rr) (rr_Type rr) :: out)
             <$> clearLoop replaced patch'
  end.

Definition clearCommentsBehindDeletes `{GoRuntime} (patch : list rrset) : result rrset (list rrset) :=
  clearLoop (replacedIn patch) patch.

(** * Chunks *)

Definition patchChunkSize : nat := 500.

Record rrsetChunk := { ck_rrsets : list rrset; ck_start : nat; ck_end : nat }.

(** The loop of [chunkRRSets] at index [start]; the list is what is left from there.
    Every chunk takes at least one change, so the length is enough fuel. *)
Fixpoint chunkFrom (fuel start : nat) (rrsets : list rrset) : list rrsetChunk :=
  match fuel, rrsets with
  | S fuel', _ :: _ =>
      {| ck_rrsets := take patchChunkSize rrsets; ck_start := start;
         ck_end := start + length (take patchChunkSize rrsets) |}
      :: chunkFrom fuel' (start + patchChunkSize) (drop patchChunkSize rrsets)
  | _, _ => []
  end.
Definition chunkRRSets (rrsets : list rrset) : list rrsetChunk :=
  chunkFrom (length rrsets) 0 rrsets.

(** * Pairing *)

(** [at] of [pairDeletes]: the last index a name is replaced at. *)
Definition replacedAt (replaces : list rrset) : gmap gostring nat :=
  foldl (λ at_ '(i, rr), <[rr_Name rr := i]> at_) ∅ (imap pair replaces).

Definition pairStep (at_ : gmap gostring nat) (acc : list (list rrset) * list rrset) (rr : rrset) :
    list (list rrset) * list rrset :=
  match at_ !! rr_Name rr with
  | None => (acc.1, acc.2 ++ [rr])
  | Some i => (alter (λ change, change ++ [rr]) i acc.1, acc.2)
  end.

Definition pairDeletes (replaces deletes : list rrset) : list (list rrset) * list rrset :=
  foldl (pairStep (replacedAt replaces)) ((λ rr, [rr]) <$> replaces, []) deletes.

(** * Comments *)

Definition set_ModifiedAt (m : Z) (c : zoneRRsetComment) : zoneRRsetComment :=
  {| cm_Account := cm_Account c; cm_Content := cm_Content c; cm_ModifiedAt := m |}.

(** The comment already stored whose stamp is carried forward. *)
Definition carries (c current : zoneRRsetComment) : Prop :=
  cm_Account current = cm_Account c ∧ cm_Content current = cm_Content c ∧
  cm_ModifiedAt current ≠ 0%Z.

#[global] Instance carries_dec c current : Decision (carries c current).
Proof. unfold carries. apply _. Defined.

Definition stampComments (desired existing : list zoneRRsetComment) (now : Z) :
    list zoneRRsetComment :=
  (λ c, match list_find (carries c) existing with
        | Some (_, current) => set_ModifiedAt (cm_ModifiedAt current) c
        | None => set_ModifiedAt now c
        end) <$> desired.

(** The comments [buildReplaceRRSet] asks for, before they are stamped. *)
Definition ownerComments (ownerRef : gostring) (generation : Z) (uid : gostring) :
    list zoneRRsetComment :=
  [{| cm_Account := ACCOUNT_OWNER; cm_Content := ownerRef; cm_ModifiedAt := 0 |};
   {| cm_Account := ACCOUNT_OBSERVED_GENERATION; cm_Content := FormatInt generation;
      cm_ModifiedAt := 0 |}]
  ++ (if decide (uid ≠ []) then
        [{| cm_Account := ACCOUNT_OBJECT_UID; cm_Content := uid; cm_ModifiedAt := 0 |}]
      else []).

(** [now] is [time.Now().Unix()]. *)
Definition buildReplaceRRSet `{GoRuntime} (now : Z) (zone recordType ownerName : gostring)
    (ttl : Z) (values : list gostring) (ownerRef : gostring) (observedGeneration : Z)
    (objectUID : gostring) (existingComments : list zoneRRsetComment) : rrset :=
  {| rr_Name := Qualify ownerName zone; rr_Type := recordType; rr_TTL := ttl;
     rr_ChangeType := changeTypeReplace;
     rr_Records := dedupeRecords (liveRecord <$> filter (λ v, v ≠ []) values);
     rr_Comments := stampComments (ownerComments ownerRef observedGeneration objectUID)
                      existingComments now;
     rr_commentsOnly := false |}.

(** * The payload

    The JSON object one change marshals to: a key that is left out is [None]. *)
Record wireRRSet := {
  w_name : gostring;
  w_type : gostring;
  w_ttl : option Z;
  w_changetype : ChangeType;
  w_records : option (list rrsetRecord);
  w_comments : option (list zoneRRsetComment);
}.

Definition MarshalJSON (r : rrset) : wireRRSet :=
  if rr_commentsOnly r then
    {| w_name := rr_Name r; w_type := rr_Type r; w_ttl := None;
       w_changetype := rr_ChangeType r; w_records := None; w_comments := Some [] |}
  else
    {| w_name := rr_Name r; w_type := rr_Type r; w_ttl := Some (rr_TTL r);
       w_changetype := rr_ChangeType r; w_records := Some (rr_Records r);
       w_comments := match rr_Comments r with
                     | [] => if isDelete r then Some [] else None
                     | cs => Some cs
                     end |}.

(** * Properties *)

(** ** Order and clears *)

Lemma rrsetLess_StrictWeak : StrictWeak rrsetLess.
Proof.
  unfold rrsetLess. repeat apply lexLess_StrictWeak;
    try apply str_ltb_StrictWeak; try apply str_ltb_total.
  - split; [by intros []|by intros [] [] []..].
  - by intros [] [].
  - destruct str_ltb_StrictWeak as [Hi Ht Hn]. by split; intros *; [apply Hi|apply Ht|apply Hn].
Qed.

(** Sorting splits a patch into its deletes and then the rest. *)
Lemma sortRRSets_split `{GoRuntime} patch :
  ∃ ds rs, sortRRSets patch = ds ++ rs ∧ ds ++ rs ≡ₚ patch ∧
    Forall (λ rr, isDelete rr = true) ds ∧ Forall (λ rr, isDelete rr = false) rs.
Proof.
  unfold sortRRSets. pose proof (sort_slice_perm rrsetLess patch) as Hp.
  pose proof (sort_slice_sorted rrsetLess patch rrsetLess_StrictWeak) as Hs.
  revert Hp Hs. generalize (sort_slice rrsetLess patch). intros l Hp Hs.
  cut (∃ ds rs, l = ds ++ rs ∧ Forall (λ rr, isDelete rr = true) ds ∧
         Forall (λ rr, isDelete rr = false) rs); [by intros (ds & rs & -> & ? & ?); exists ds, rs|].
  clear Hp. induction Hs as [|rr l Hs IH Hall]; [by exists [], []|].
  destruct (isDelete rr) eqn:Hd.
  - destruct IH as (ds & rs & -> & Hds & Hrs). exists (rr :: ds), rs. by split_and!; [|constructor|].
  - exists [], (rr :: l). split_and!; [done..|constructor; [done|]].
    eapply Forall_impl; [done|]. cbn. intros rr' Hless. unfold rrsetLess, lexLess in Hless.
    destruct (isDelete rr') eqn:Hd'; [|done].
    rewrite decide_False in Hless by congruence. by rewrite Hd in Hless.
Qed.

(** A change with the clear that follows it. *)
Definition withClear (rr : rrset) : list rrset :=
  if isDelete rr then [rr; commentsOnlyReplace (rr_Name rr) (rr_Type rr)] else [rr].

Lemma clearLoop_Ok `{GoRuntime} replaced patch out :
  clearLoop replaced patch = Ok out ↔
  out = patch ≫= withClear ∧
  Forall (λ rr, isDelete rr = true → patchIdentity rr ∉ replaced) patch.
Proof.
  revert out. induction patch as [|rr patch IH]; intros out; cbn [clearLoop].
  { split; [by intros [= <-]|by intros [-> _]]. }
  rewrite Forall_cons. change ((rr :: patch) ≫= withClear) with (withClear rr ++ (patch ≫= withClear)).
  unfold withClear at 1, isDelete. case_decide as Hd.
  - rewrite !bool_decide_eq_false_2 by done. rewrite fmap_Ok. setoid_rewrite IH. naive_solver.
  - rewrite !bool_decide_eq_true_2 by done.
    case_decide; [naive_solver|]. rewrite fmap_Ok. setoid_rewrite IH. naive_solver.
Qed.

Lemma clearLoop_Err `{GoRuntime} replaced patch d :
  clearLoop replaced patch = Err d →
  d ∈ patch ∧ isDelete d = true ∧ patchIdentity d ∈ replaced.
Proof.
  induction patch as [|rr patch IH]; cbn [clearLoop]; [done|]. rewrite elem_of_cons.
  case_decide as Hd; [|case_decide].
  - destruct (clearLoop replaced patch); [done|]. intros [= ->]. naive_solver.
  - intros [= ->]. split_and!; [by left| |done]. unfold isDelete. by apply bool_decide_eq_true.
  - destruct (clearLoop replaced patch); [done|]. intros [= ->]. naive_solver.
Qed.

(** The changes a sorted patch is sent as. *)
Definition patchPayload `{GoRuntime} (patch : list rrset) : result rrset (list rrset) :=
  clearCommentsBehindDeletes (sortRRSets patch).

(** What [applyRRSetPatch] sends is the given changes and nothing else, every
    DELETE ahead of every REPLACE (so a name that changes type is free before its new
    record is checked) and directly followed by the REPLACE that clears its
    comments; it is refused exactly when it would both replace and delete one
    RRset. *)
Theorem patchPayload_spec `{GoRuntime} patch :
  match patchPayload patch with
  | Ok out => ∃ ds rs, out = (ds ≫= withClear) ++ rs ∧ ds ++ rs ≡ₚ patch ∧
      Forall (λ rr, isDelete rr = true) ds ∧ Forall (λ rr, isDelete rr = false) rs
  | Err d => d ∈ patch ∧ isDelete d = true ∧
      ∃ r, r ∈ patch ∧ isDelete r = false ∧ patchIdentity d = patchIdentity r
  end.
Proof.
  unfold patchPayload, clearCommentsBehindDeletes.
  destruct (sortRRSets_split patch) as (ds & rs & -> & Hp & Hds & Hrs).
  destruct (clearLoop _ _) as [out|d] eqn:E.
  - apply clearLoop_Ok in E as [-> _]. exists ds, rs. split_and!; [|done..].
    rewrite bind_app. f_equal. clear -Hrs. induction Hrs as [|rr rs Hrr Hrs IH]; [done|].
    cbn. unfold withClear at 1. rewrite Hrr. by rewrite IH.
  - apply clearLoop_Err in E as (Hd & Hdel & Hin). rewrite <- Hp. split_and!; [done..|].
    apply elem_of_list_to_set, list_elem_of_fmap in Hin as (r & Hid & [Hr Hinr]%list_elem_of_filter).
    exists r. rewrite <- Hp. split_and!; [done| |done]. unfold isDelete. by rewrite Hr.
Qed.

(** ** Chunks *)

Lemma chunkFrom_spec fuel start l :
  length l ≤ fuel →
  mjoin (ck_rrsets <$> chunkFrom fuel start l) = l ∧
  Forall (λ ck, 1 ≤ length (ck_rrsets ck) ≤ patchChunkSize ∧ start ≤ ck_start ck ∧
            ck_end ck = ck_start ck + length (ck_rrsets ck) ∧
            ck_rrsets ck = take (ck_end ck - ck_start ck) (drop (ck_start ck - start) l))
    (chunkFrom fuel start l).
Proof.
  revert start l. induction fuel as [|fuel IH]; intros start [|rr l] Hl; cbn [length] in Hl; [done|lia|done|].
  cbn [chunkFrom]. set (l0 := rr :: l) in *.
  assert (length (drop patchChunkSize l0) ≤ fuel) as Hd
    by (rewrite length_drop; unfold l0, patchChunkSize; cbn [length]; lia).
  destruct (IH (start + patchChunkSize) _ Hd) as [IH1 IH2]. clear IH.
  split.
  - change (take patchChunkSize l0 ++
      mjoin (ck_rrsets <$> chunkFrom fuel (start + patchChunkSize) (drop patchChunkSize l0)) = l0).
    by rewrite IH1, take_drop.
  - constructor; cbn [ck_rrsets ck_start ck_end].
    + assert (1 ≤ length (take patchChunkSize l0) ≤ patchChunkSize)
        by (rewrite length_take; unfold l0, patchChunkSize; cbn [length]; lia).
      split_and!; try lia. rewrite Nat.sub_diag, drop_0.
      replace (start + length (take patchChunkSize l0) - start)
        with (length (take patchChunkSize l0)) by lia.
      by rewrite take_length_take.
    + eapply Forall_impl; [done|]. cbn. intros ck (Hlen & Hs & He & Hck).
      split_and!; try lia.
      replace (ck_start ck - start) with (patchChunkSize + (ck_start ck - (start + patchChunkSize)))
        by lia. by rewrite <- drop_drop.
Qed.

(** Every position is in some chunk. *)
Lemma chunkFrom_cover fuel start l j :
  length l ≤ fuel → start ≤ j < start + length l →
  ∃ ck, ck ∈ chunkFrom fuel start l ∧ ck_start ck ≤ j < ck_end ck.
Proof.
  revert start l. induction fuel as [|fuel IH]; intros start [|rr l] Hl Hj;
    cbn [length] in *; try lia.
  cbn [chunkFrom]. set (l0 := rr :: l) in *. assert (length l0 = S (length l)) as Hl0 by done.
  setoid_rewrite elem_of_cons.
  destruct (decide (j < start + patchChunkSize)) as [Hlt|Hge].
  - eexists. split; [by left|]. cbn [ck_start ck_end]. rewrite length_take. lia.
  - destruct (IH (start + patchChunkSize) (drop patchChunkSize l0)) as (ck & Hck & Hin).
    + rewrite length_drop. unfold patchChunkSize. lia.
    + rewrite length_drop. lia.
    + exists ck. split; [by right|done].
Qed.

(** Chunking neither drops, repeats nor reorders a change: the chunks,
    concatenated, are the patch; each is non-empty, holds at most [patchChunkSize]
    changes, and is the window of the patch that its bounds say. *)
Theorem chunkRRSets_spec l :
  mjoin (ck_rrsets <$> chunkRRSets l) = l ∧
  Forall (λ ck, 1 ≤ length (ck_rrsets ck) ≤ patchChunkSize ∧
            ck_end ck = ck_start ck + length (ck_rrsets ck) ∧
            ck_rrsets ck = take (ck_end ck - ck_start ck) (drop (ck_start ck) l))
    (chunkRRSets l).
Proof.
  destruct (chunkFrom_spec (length l) 0 l) as [Hj Hall]; [done|]. split; [done|].
  eapply Forall_impl; [done|]. cbn. intros ck (? & _ & ? & ?). by rewrite Nat.sub_0_r in *.
Qed.

(** ** Pairing *)

Lemma replacedAt_snoc l rr :
  replacedAt (l ++ [rr]) = <[rr_Name rr := length l]> (replacedAt l).
Proof. unfold replacedAt. by rewrite imap_app, foldl_app; cbn; rewrite Nat.add_0_r. Qed.

Lemma replacedAt_Some l n i :
  replacedAt l !! n = Some i → ∃ rr, l !! i = Some rr ∧ rr_Name rr = n.
Proof.
  induction l as [|rr l IH] using rev_ind; [done|]. rewrite replacedAt_snoc.
  intros [[<- <-]|[Hne (rr' & Hl & Hn)%IH]]%lookup_insert_Some.
  - exists rr. by rewrite lookup_app_r, Nat.sub_diag by done.
  - exists rr'. split; [|done]. by apply lookup_app_l_Some.
Qed.

Lemma replacedAt_None l n : replacedAt l !! n = None → n ∉ rr_Name <$> l.
Proof.
  induction l as [|rr l IH] using rev_ind; [intros _; apply not_elem_of_nil|].
  rewrite replacedAt_snoc. intros [HN Hne]%lookup_insert_None.
  rewrite fmap_app, elem_of_app. cbn. rewrite list_elem_of_singleton. intros [?|?]; [by apply IH|congruence].
Qed.

Section Pair.
Context (replaces : list rrset).

(** The invariant of the loop of [pairDeletes] after the deletes [seen]. *)
Record paired (seen : list rrset) (acc : list (list rrset) * list rrset) : Prop := {
  paired_len : length acc.1 = length replaces;
  paired_at : ∀ i rr, replaces !! i = Some rr →
    ∃ ds, acc.1 !! i = Some (rr :: ds) ∧
      Forall (λ d, d ∈ seen ∧ rr_Name d = rr_Name rr) ds;
  paired_all : mjoin acc.1 ++ acc.2 ≡ₚ replaces ++ seen;
  paired_rest : Forall (λ d, rr_Name d ∉ rr_Name <$> replaces) acc.2;
}.

Lemma paired_init : paired [] ((λ rr, [rr]) <$> replaces, []).
Proof.
  split; cbn; [apply length_fmap| | |done].
  - intros i rr Hi. exists []. by rewrite list_lookup_fmap, Hi.
  - rewrite !app_nil_r. induction replaces as [|rr l IH]; cbn; [done|by rewrite IH].
Qed.

Lemma paired_step seen acc d :
  paired seen acc → paired (seen ++ [d]) (pairStep (replacedAt replaces) acc d).
Proof.
  intros [Hlen Hat Hall Hrest]. unfold pairStep.
  assert (∀ ds rr, Forall (λ d, d ∈ seen ∧ rr_Name d = rr_Name rr) ds →
    Forall (λ d', d' ∈ seen ++ [d] ∧ rr_Name d' = rr_Name rr) ds) as Hweak.
  { intros ds rr HF. eapply Forall_impl; [done|]. intros d' [??]. rewrite elem_of_app. auto. }
  destruct (replacedAt replaces !! rr_Name d) as [i|] eqn:E; split; cbn.
  - by rewrite length_alter.
  - intros j rr Hj. destruct (Hat j rr Hj) as (ds & Hds & HF).
    destruct (decide (i = j)) as [<-|Hne].
    + exists (ds ++ [d]). rewrite list_lookup_alter_eq, Hds. split; [done|].
      apply Forall_app. split; [by auto|]. apply Forall_singleton.
      apply replacedAt_Some in E as (rr' & Hrr' & Hn). rewrite elem_of_app, list_elem_of_singleton.
      split; [by right|]. congruence.
    + exists ds. rewrite list_lookup_alter_ne by done. auto.
  - apply replacedAt_Some in E as (rr' & Hrr'%lookup_lt_Some & _).
    rewrite join_alter_app by lia. rewrite app_assoc, <- Hall.
    rewrite <- !app_assoc. by rewrite (Permutation_app_comm [d]).
  - done.
  - done.
  - intros j rr Hj. destruct (Hat j rr Hj) as (ds & Hds & HF). eauto.
  - by rewrite !app_assoc, Hall.
  - apply Forall_app. split; [done|]. apply Forall_singleton. by apply replacedAt_None.
Qed.

Lemma paired_pairDeletes deletes : paired deletes (pairDeletes replaces deletes).
Proof.
  unfold pairDeletes. induction deletes as [|d ds IH] using rev_ind; [apply paired_init|].
  rewrite foldl_snoc. by apply paired_step.
Qed.

(** Pairing keeps every change once.  The [i]-th group is the [i]-th replace
    followed by deletes at its name only, so a delete and the replace that takes
    over its name travel together; what is left over are the deletes at names
    nothing replaces. *)
Theorem pairDeletes_spec deletes changes rest :
  pairDeletes replaces deletes = (changes, rest) →
  length changes = length replaces ∧
  (∀ i rr, replaces !! i = Some rr →
     ∃ ds, changes !! i = Some (rr :: ds) ∧
       Forall (λ d, d ∈ deletes ∧ rr_Name d = rr_Name rr) ds) ∧
  mjoin changes ++ rest ≡ₚ replaces ++ deletes ∧
  Forall (λ d, rr_Name d ∉ rr_Name <$> replaces) rest.
Proof. intros E. destruct (paired_pairDeletes deletes) as [????]. by rewrite E in *. Qed.
End Pair.

(** ** Comment stamps *)

(** The stamp a comment gets. *)
Definition stampOf (existing : list zoneRRsetComment) (now : Z) (c : zoneRRsetComment) : Z :=
  match list_find (carries c) existing with
  | Some (_, current) => cm_ModifiedAt current
  | None => now
  end.

Lemma stampComments_stampOf desired existing now :
  stampComments desired existing now =
  (λ c, set_ModifiedAt (stampOf existing now c) c) <$> desired.
Proof.
  apply list_fmap_ext. intros i c _. unfold stampOf. by destruct (list_find _ _) as [[]|].
Qed.

Lemma stampOf_key existing now c c' :
  cm_Account c = cm_Account c' → cm_Content c = cm_Content c' →
  stampOf existing now c = stampOf existing now c'.
Proof.
  intros Ha Hc. unfold stampOf. f_equal.
  rewrite (list_find_ext (carries c) (carries c')); [done|].
  intros x. unfold carries. by rewrite Ha, Hc.
Qed.

Lemma stampOf_ne_0 existing now c : now ≠ 0%Z → stampOf existing now c ≠ 0%Z.
Proof.
  intros Hn. unfold stampOf. destruct (list_find _ _) as [[i cur]|] eqn:E; [|done].
  by apply list_find_Some in E as (_ & (_ & _ & ?) & _).
Qed.

(** Stamping is stable: rewriting an RRset with the comments it already carries
    leaves every comment byte for byte the same, whatever the clock says by then, so
    a repeated reconcile adds no rows to PowerDNS's comment table. *)
Theorem stampComments_stable desired existing now now' :
  now ≠ 0%Z →
  stampComments desired (stampComments desired existing now) now' =
  stampComments desired existing now.
Proof.
  intros Hn. rewrite (stampComments_stampOf _ (stampComments _ _ _)).
  rewrite (stampComments_stampOf desired existing). apply list_fmap_ext. intros i c Hi.
  f_equal. set (f := λ c, set_ModifiedAt (stampOf existing now c) c).
  unfold stampOf at 1. destruct (list_find (carries c) (f <$> desired)) as [[j x]|] eqn:E.
  - apply list_find_Some in E as (Hj & (Ha & Hc & _) & _).
    rewrite list_lookup_fmap in Hj. apply fmap_Some in Hj as (c' & _ & ->). cbn in *.
    by apply stampOf_key.
  - exfalso. apply list_find_None in E. rewrite Forall_forall in E.
    apply (E (f c)); [apply list_elem_of_fmap_2; by eapply list_elem_of_lookup_2|].
    split_and!; [done..|]. by apply stampOf_ne_0.
Qed.

Lemma pairDeletes_spec_witness :
  let r := newDeleteRRSet "b." "TXT" in
  let d := newDeleteRRSet "a." "CNAME" in
  let rep := commentsOnlyReplace "a." "A" in
  length [[rep; d]] = length [rep] ∧ mjoin [[rep; d]] ++ [r] ≡ₚ [rep] ++ [d; r].
Proof.
  intros r d rep.
  destruct (pairDeletes_spec [rep] [d; r] [[rep; d]] [r]) as (H1 & _ & H3 & _);
    [reflexivity|]. split; [exact H1|exact H3].
Defined.

Lemma stampComments_stable_witness :
  let c := {| cm_Account := "OWNER"; cm_Content := "ns:a"; cm_ModifiedAt := 0 |} in
  stampComments [c] (stampComments [c] [] 17) 99 = [set_ModifiedAt 17 c].
Proof. intros c. rewrite (stampComments_stable [c] [] 17 99); [reflexivity|lia]. Defined.
