(* ===== verification/ApiMeta.v ===== *)
(** What the operator calls of [k8s.io/apimachinery] and [controller-runtime], as
    interfaces: the operations with their documented behaviour as laws, and instances
    that show the laws can be met. *)

From S2P Require Import Prelude GoStrings Api.

(** * Conditions: [k8s.io/apimachinery/pkg/api/meta] *)

(** The same condition, the transition time aside. *)
Definition sameCondition (a b : Condition) : Prop :=
  c_Type a = c_Type b ∧ c_Status a = c_Status b ∧ c_Reason a = c_Reason b ∧
  c_Message a = c_Message b ∧ c_ObservedGeneration a = c_ObservedGeneration b.

Class ApiMeta := {
  FindStatusCondition : list Condition → gostring → option Condition;
  (** It finds the condition of that type, if there is one. *)
  FindStatusCondition_Some : ∀ l t c,
    FindStatusCondition l t = Some c → c ∈ l ∧ c_Type c = t;
  FindStatusCondition_None : ∀ l t,
    FindStatusCondition l t = None → Forall (λ c, c_Type c ≠ t) l;
  (** The new conditions, and whether they changed.  The new condition carries a
      transition time. *)
  SetStatusCondition : list Condition → Condition → list Condition * bool;
  SetStatusCondition_same : ∀ l c,
    ∃ c', FindStatusCondition (SetStatusCondition l c).1 (c_Type c) = Some c' ∧
      sameCondition c' c;
  SetStatusCondition_other : ∀ l c t,
    t ≠ c_Type c → FindStatusCondition (SetStatusCondition l c).1 t = FindStatusCondition l t;
  SetStatusCondition_time : ∀ l c old c',
    FindStatusCondition l (c_Type c) = Some old →
    FindStatusCondition (SetStatusCondition l c).1 (c_Type c) = Some c' →
    c_LastTransitionTime c' =
      if decide (c_Status old = c_Status c) then c_LastTransitionTime old
      else c_LastTransitionTime c;
  SetStatusCondition_changed : ∀ l c,
    (SetStatusCondition l c).2 = false ↔
    ∃ old, FindStatusCondition l (c_Type c) = Some old ∧ sameCondition old c;
  SetStatusCondition_unchanged : ∀ l c,
    (SetStatusCondition l c).2 = false → (SetStatusCondition l c).1 = l;
}.

Definition findCondition (l : list Condition) (t : gostring) : option Condition :=
  snd <$> list_find (λ c, c_Type c = t) l.

#[global] Instance sameCondition_dec a b : Decision (sameCondition a b).
Proof. unfold sameCondition. apply _. Defined.

(** The update of an existing condition. *)
Definition updateCondition (old new : Condition) : Condition :=
  {| c_Type := c_Type old; c_Status := c_Status new;
     c_ObservedGeneration := c_ObservedGeneration new;
     c_LastTransitionTime := if decide (c_Status old = c_Status new)
                             then c_LastTransitionTime old else c_LastTransitionTime new;
     c_Reason := c_Reason new; c_Message := c_Message new |}.

Definition setCondition (l : list Condition) (c : Condition) : list Condition * bool :=
  match list_find (λ c', c_Type c' = c_Type c) l with
  | None => (l ++ [c], true)
  | Some (i, old) =>
      if decide (sameCondition old c) then (l, false) else (<[i := updateCondition old c]> l, true)
  end.

Lemma findCondition_cons c l t :
  findCondition (c :: l) t = if decide (c_Type c = t) then Some c else findCondition l t.
Proof.
  unfold findCondition. cbn. case_decide; [done|].
  by destruct (list_find _ l) as [[]|].
Qed.

Lemma findCondition_spec l t c :
  findCondition l t = Some c →
  ∃ l1 l2, l = l1 ++ c :: l2 ∧ c_Type c = t ∧ Forall (λ c', c_Type c' ≠ t) l1.
Proof.
  induction l as [|c' l IH]; [done|]. rewrite findCondition_cons. case_decide as Ht.
  - intros [= ->]. by exists [], l.
  - intros (l1 & l2 & -> & Hc & HF)%IH. exists (c' :: l1), l2. split_and!; [done..|]. by constructor.
Qed.

Lemma findCondition_app l1 l2 t :
  Forall (λ c, c_Type c ≠ t) l1 → findCondition (l1 ++ l2) t = findCondition l2 t.
Proof. induction 1 as [|c l1 Hc _ IH]; [done|]. cbn [app]. by rewrite findCondition_cons, decide_False. Qed.

Lemma findCondition_None l t : findCondition l t = None → Forall (λ c, c_Type c ≠ t) l.
Proof. unfold findCondition. intros HN%fmap_None. by apply list_find_None in HN. Qed.

(** Where [setCondition] writes. *)
Lemma setCondition_spec l c :
  (findCondition l (c_Type c) = None ∧ setCondition l c = (l ++ [c], true)) ∨
  ∃ l1 old l2, l = l1 ++ old :: l2 ∧ c_Type old = c_Type c ∧
    Forall (λ c', c_Type c' ≠ c_Type c) l1 ∧
    setCondition l c = if decide (sameCondition old c) then (l, false)
                       else (l1 ++ updateCondition old c :: l2, true).
Proof.
  unfold setCondition, findCondition. destruct (list_find _ l) as [[i old]|] eqn:E; [right|by left].
  apply list_find_Some in E as (Hi & Ht & Hlt).
  exists (take i l), old, (drop (S i) l). split_and!; [by rewrite take_drop_middle|done| |].
  - apply Forall_lookup. intros j x Hj. apply lookup_take_Some in Hj as [Hj Hlt']. by eapply Hlt.
  - case_decide; [done|]. f_equal. by apply insert_take_drop, lookup_lt_Some with old.
Qed.

Definition reference_apimeta : ApiMeta.
Proof.
  refine {| FindStatusCondition := findCondition; SetStatusCondition := setCondition |}.
  - intros l t c (l1 & l2 & -> & Ht & _)%findCondition_spec. split; [|done].
    apply elem_of_app. right. apply elem_of_cons. by left.
  - intros l t. apply findCondition_None.
  - intros l c. destruct (setCondition_spec l c) as [[HN ->]|(l1 & old & l2 & -> & Ht & HF & ->)].
    + exists c. cbn [fst]. rewrite findCondition_app by by apply findCondition_None.
      by rewrite findCondition_cons, decide_True.
    + case_decide as Hs; cbn [fst]; rewrite findCondition_app, findCondition_cons, decide_True by done;
        eexists; (split; [done|]); [done|]. by split_and!.
  - intros l c t Hne. destruct (setCondition_spec l c) as [[HN ->]|(l1 & old & l2 & -> & Ht & HF & ->)].
    + cbn [fst]. clear HN. induction l as [|c' l IH]; cbn [app]; rewrite !findCondition_cons.
      * by rewrite decide_False.
      * case_decide; done.
    + case_decide as Hs; [done|]. cbn [fst]. clear HF Hs. induction l1 as [|c' l1 IH]; cbn [app];
        rewrite !findCondition_cons; [|by rewrite IH].
      cbn [c_Type updateCondition]. by rewrite !decide_False by congruence.
  - intros l c old c' Hold. destruct (setCondition_spec l c) as [[HN ->]|(l1 & old' & l2 & -> & Ht & HF & ->)].
    { congruence. }
    rewrite findCondition_app, findCondition_cons, decide_True in Hold by done. injection Hold as ->.
    case_decide as Hs; cbn [fst]; rewrite findCondition_app, findCondition_cons, decide_True by done;
      intros [= <-]; [|done]. rewrite decide_True by apply Hs. done.
  - intros l c. destruct (setCondition_spec l c) as [[HN ->]|(l1 & old & l2 & -> & Ht & HF & ->)].
    + split; [done|]. intros (? & ? & _). congruence.
    + rewrite findCondition_app, findCondition_cons, (decide_True (P := c_Type old = c_Type c)) by done.
      case_decide as Hs; cbn; split; try done; [by exists old|]. by intros (? & [= <-] & ?).
  - intros l c. destruct (setCondition_spec l c) as [[HN ->]|(l1 & old & l2 & -> & Ht & HF & ->)];
      [done|]. by case_decide.
Defined.

(** * Finalizers and owner references: [controllerutil] *)

(** The owner of a record set is its zone.  [HasOwnerReference], [SetOwnerReference] and
    [RemoveControllerReference] may fail, on a type the scheme does not know. *)
Class ControllerUtil := {
  ContainsFinalizer : list gostring → gostring → bool;
  ContainsFinalizer_spec : ∀ l f, ContainsFinalizer l f = true ↔ f ∈ l;
  AddFinalizer : list gostring → gostring → list gostring;
  AddFinalizer_spec : ∀ l f g, g ∈ AddFinalizer l f ↔ g = f ∨ g ∈ l;
  RemoveFinalizer : list gostring → gostring → list gostring;
  RemoveFinalizer_spec : ∀ l f g, g ∈ RemoveFinalizer l f ↔ g ≠ f ∧ g ∈ l;
  IsControlledBy : list OwnerReference → DNSZone → bool;
  HasOwnerReference : list OwnerReference → DNSZone → result gostring bool;
  SetOwnerReference : DNSZone → list OwnerReference → result gostring (list OwnerReference);
  SetOwnerReference_Has : ∀ z l l',
    SetOwnerReference z l = Ok l' → HasOwnerReference l' z = Ok true;
  (** The reference it sets is not a controller reference. *)
  SetOwnerReference_controlled : ∀ z l l',
    SetOwnerReference z l = Ok l' → IsControlledBy l z = false → IsControlledBy l' z = false;
  RemoveControllerReference : DNSZone → list OwnerReference → result gostring (list OwnerReference);
  RemoveControllerReference_controlled : ∀ z l l',
    RemoveControllerReference z l = Ok l' → IsControlledBy l' z = false;
}.

Definition zoneReference (z : DNSZone) : OwnerReference :=
  {| oref_Kind := "DNSZone"; oref_Name := z_Name z; oref_UID := z_UID z; oref_Controller := false |}.
Definition refersTo (z : DNSZone) (o : OwnerReference) : bool :=
  bool_decide (oref_UID o = z_UID z).

Definition reference_controllerutil : ControllerUtil.
Proof.
  refine {|
    ContainsFinalizer := λ l f, bool_decide (f ∈ l);
    AddFinalizer := λ l f, if decide (f ∈ l) then l else l ++ [f];
    RemoveFinalizer := λ l f, filter (λ g, g ≠ f) l;
    IsControlledBy := λ l z, existsb (λ o, oref_Controller o && refersTo z o) l;
    HasOwnerReference := λ l z, Ok (existsb (refersTo z) l);
    SetOwnerReference := λ z l, Ok (l ++ [zoneReference z]);
    RemoveControllerReference := λ z l, Ok (filter (λ o, refersTo z o = false) l) |}.
  - intros l f. apply bool_decide_eq_true.
  - intros l f g. case_decide; [set_solver|]. rewrite elem_of_app, list_elem_of_singleton. tauto.
  - intros l f g. by rewrite list_elem_of_filter.
  - intros z l l' [= <-]. f_equal. rewrite existsb_app. cbn. unfold refersTo at 2. cbn.
    by rewrite bool_decide_eq_true_2, orb_true_r.
  - intros z l l' [= <-] Hl. by rewrite existsb_app, Hl.
  - intros z l l' [= <-]. apply not_true_iff_false. intros (o & Ho & Hc)%existsb_exists.
    apply list_elem_of_In, list_elem_of_filter in Ho as [Ho _]. by rewrite Ho, andb_false_r in Hc.
Defined.
