(* ===== verification/StatusUtil.v ===== *)
(** Package [internal/dns/util]: the status the command line and the agent show for a
    zone or a record, who owns a record set, and whether a zone is delegated.

    A nil pointer is [None].  A label map is a finite map; a missing key reads as the
    empty string, as in Go. *)

From S2P Require Import Prelude GoStrings Api ApiMeta Ownername.

(** * conditions.go *)

Definition condAccepted : gostring := "Accepted".
Definition condProgrammed : gostring := "Programmed".

Definition reasonPending : gostring := "Pending".
Definition reasonNotOwner : gostring := "NotOwner".
Definition reasonPDNSError : gostring := "PDNSError".
Definition reasonConflict : gostring := "Conflict".

Definition StatusOK : gostring := "OK".
Definition StatusPending : gostring := "Pending".
Definition StatusError : gostring := "Error".
Definition StatusRejected : gostring := "Rejected".
Definition StatusProgrammed : gostring := "Programmed".
Definition StatusNotOwner : gostring := "Not owner".
Definition StatusConflict : gostring := "Conflict".
Definition StatusUnknown : gostring := "Unknown".

Definition pendingDetail : gostring := "waiting for the DNS backend".

Definition firstNonEmpty (values : list gostring) : gostring :=
  match list_find (λ v, v ≠ []) values with Some (_, v) => v | None => [] end.

Definition pluralRecords (n : Z) : gostring :=
  if (n =? 1)%Z then "1 record" else FormatInt n ++ " records".

(** A false [Accepted] condition. *)
Definition rejection `{ApiMeta} (conds : list Condition) : option Condition :=
  match FindStatusCondition conds condAccepted with
  | Some accepted => if decide (c_Status accepted = ConditionFalse) then Some accepted else None
  | None => None
  end.

Definition ZoneStatus `{ApiMeta} (z : option DNSZone) : gostring * gostring :=
  match z with
  | None => (StatusUnknown, "no zone data")
  | Some z =>
      match rejection (z_Conditions z) with
      | Some a => (StatusRejected, firstNonEmpty [c_Message a; c_Reason a; "the zone was rejected"])
      | None =>
          match FindStatusCondition (z_Conditions z) condProgrammed with
          | None => (StatusPending, pendingDetail)
          | Some p =>
              match c_Status p with
              | ConditionTrue =>
                  (StatusOK, "zone programmed, " ++ pluralRecords (z_RecordCount z) ++ " live")
              | ConditionFalse =>
                  if decide (c_Reason p = reasonPending ∨ c_Reason p = [])
                  then (StatusPending, firstNonEmpty [c_Message p; pendingDetail])
                  else (StatusError, firstNonEmpty [c_Message p; c_Reason p])
              | ConditionUnknown => (StatusPending, firstNonEmpty [c_Message p; pendingDetail])
              end
          end
      end
  end.

Definition statusSeverity (word : gostring) : Z :=
  if decide (word = StatusRejected) then 70
  else if decide (word = StatusError) then 60
  else if decide (word = StatusConflict) then 50
  else if decide (word = StatusNotOwner) then 40
  else if decide (word = StatusPending) then 20
  else if decide (word = StatusProgrammed) then 10
  else if decide (word = StatusUnknown) then 5
  else 30.

Definition classifyProgrammed (c : option Condition) : gostring * gostring :=
  match c with
  | None => (StatusPending, pendingDetail)
  | Some c =>
      if decide (c_Status c = ConditionTrue)
      then (StatusProgrammed, firstNonEmpty [c_Message c; "live in the DNS backend"])
      else if decide (c_Reason c = reasonNotOwner)
      then (StatusNotOwner, firstNonEmpty [c_Message c; "another record set owns this name"])
      else if decide (c_Reason c = reasonConflict)
      then (StatusConflict, firstNonEmpty [c_Message c; "the backend reported a conflict"])
      else if decide (c_Reason c = reasonPDNSError)
      then (StatusError, firstNonEmpty [c_Message c; "the backend reported an error"])
      else if decide (c_Reason c = reasonPending ∨ c_Reason c = [])
      then (StatusPending, firstNonEmpty [c_Message c; pendingDetail])
      else (c_Reason c, c_Message c)
  end.

(** The reduction over the entries: the worst so far, with its rank. *)
Definition worseStep (acc : Z * (gostring * gostring)) (c : option Condition) :
    Z * (gostring * gostring) :=
  let wd := classifyProgrammed c in
  let rank := statusSeverity wd.1 in
  if (acc.1 <? rank)%Z then (rank, wd) else acc.

Section Status.
Context `{GoRuntime} `{ApiMeta}.

Definition qualifyOwner (owner zone : gostring) : gostring :=
  let owner := TrimSpace owner in
  let zone := TrimSuffix (TrimSpace zone) "." in
  if decide (zone ≠ []) then Qualify owner zone
  else if decide (owner = []) then "@" else ToLower owner.

Definition ownerConditions (rs : DNSRecordSet) (ownerName zone condType : gostring) :
    list (option Condition) :=
  let want := qualifyOwner ownerName zone in
  (λ st, FindStatusCondition (rss_Conditions st) condType) <$>
    filter (λ st, qualifyOwner (rss_Name st) zone = want) (rs_RecordSets rs).

Definition recordStatus (rs : option DNSRecordSet) (ownerName zone : gostring) :
    gostring * gostring :=
  match rs with
  | None => (StatusUnknown, "no record set data")
  | Some rs =>
      match rejection (rs_Conditions rs) with
      | Some a =>
          (StatusRejected, firstNonEmpty [c_Message a; c_Reason a; "the record set was rejected"])
      | None =>
          match ownerConditions rs ownerName zone condProgrammed with
          | [] => (StatusPending, pendingDetail)
          | conditions => (foldl worseStep ((-1)%Z, ([], [])) conditions).2
          end
      end
  end.

Definition RecordStatus (rs : option DNSRecordSet) (ownerName : gostring) : gostring * gostring :=
  recordStatus rs ownerName [].
Definition RecordStatusInZone (rs : option DNSRecordSet) (ownerName zone : gostring) :
    gostring * gostring := recordStatus rs ownerName zone.

(** * ownership.go *)

Definition LabelManagedBy : gostring := "app.kubernetes.io/managed-by".
Definition LabelDNSManaged : gostring := "dns.datumapis.com/managed".
Definition LabelSourceKind : gostring := "dns.datumapis.com/source-kind".
Definition LabelSourceName : gostring := "dns.datumapis.com/source-name".
Definition LabelSourceNamespace : gostring := "dns.datumapis.com/source-namespace".
Definition ValueManagedByNetworking : gostring := "networking.datumapis.com".
Definition ValueDNSManaged : gostring := "true".
Definition ValueSourceKindGateway : gostring := "Gateway".

Abbreviation labels := (gmap gostring gostring).
Definition label (l : labels) (k : gostring) : gostring := default [] (l !! k).

Definition MachineOwned (l : labels) : bool * gostring :=
  if decide (l = ∅) then (false, [])
  else if negb (EqualFold (label l LabelSourceKind) ValueSourceKindGateway
                || EqualFold (label l LabelDNSManaged) ValueDNSManaged
                || EqualFold (label l LabelManagedBy) ValueManagedByNetworking)
  then (false, [])
  else
    let name := label l LabelSourceName in
    let ns := label l LabelSourceNamespace in
    if decide (name = []) then (true, [])
    else if decide (ns ≠ []) then (true, ns ++ "/" ++ name) else (true, name).

(** * provenance.go *)

Definition LabelIrohConnectorName : gostring := "networking.datumapis.com/iroh-dns-connector-name".
Definition LabelIrohConnectorNamespace : gostring :=
  "networking.datumapis.com/iroh-dns-connector-namespace".
Definition LabelExternalDNSManagedBy : gostring := "external-dns.io/managed-by".
Definition ValueExternalDNSManagedBy : gostring := "datum-cloud-webhook".
Definition LabelExternalDNSOwner : gostring := "external-dns.io/owner".

Inductive Provenance :=
| ProvenanceUser | ProvenancePlatform | ProvenanceGateway | ProvenanceIroh | ProvenanceExternalDNS.

Definition Managed (p : Provenance) : bool :=
  match p with ProvenanceUser => false | _ => true end.

Record Ownership := { ow_Provenance : Provenance; ow_Source : gostring }.

Definition IsPlatformShape (t : RRType) (ownerName zoneDomain : gostring) : bool :=
  match t with
  | RRTypeSOA => true
  | RRTypeNS => bool_decide (qualifyOwner ownerName zoneDomain = qualifyOwner "@" zoneDomain)
  | _ => false
  end.

Definition ClassifyOwnership (l : labels) (t : RRType) (ownerName zoneDomain : gostring) :
    Ownership :=
  let shape :=
    if IsPlatformShape t ownerName zoneDomain
    then {| ow_Provenance := ProvenancePlatform; ow_Source := [] |}
    else {| ow_Provenance := ProvenanceUser; ow_Source := [] |} in
  if decide (l = ∅) then shape
  else if decide (label l LabelExternalDNSManagedBy = ValueExternalDNSManagedBy)
  then {| ow_Provenance := ProvenanceExternalDNS; ow_Source := label l LabelExternalDNSOwner |}
  else
    let name := label l LabelIrohConnectorName in
    let ns := label l LabelIrohConnectorNamespace in
    if decide (name ≠ []) then
      {| ow_Provenance := ProvenanceIroh;
         ow_Source := if decide (ns ≠ []) then ns ++ "/" ++ name else name |}
    else
      let '(owned, source) := MachineOwned l in
      if (owned : bool) then {| ow_Provenance := ProvenanceGateway; ow_Source := source |} else shape.

(** * delegation.go *)

Inductive DelegationWord :=
| DelegationComplete | DelegationPartial | DelegationIncomplete | DelegationUnknown.

Record Delegation := {
  dg_State : DelegationWord;
  dg_Expected : list gostring;
  dg_Observed : list gostring;
  dg_SetCount : Z;
  dg_Total : Z;
  dg_Linked : bool;
}.

Definition normalizeNameserver (s : gostring) : gostring :=
  TrimSuffix (ToLower (TrimSpace s)) ".".

Definition IsSet (d : Delegation) (nameserver : gostring) : bool :=
  existsb (λ o, bool_decide (normalizeNameserver o = normalizeNameserver nameserver))
    (dg_Observed d).

Definition DelegationState (z : option DNSZone) : Delegation :=
  match z with
  | None => {| dg_State := DelegationUnknown; dg_Expected := []; dg_Observed := [];
               dg_SetCount := 0; dg_Total := 0; dg_Linked := false |}
  | Some z =>
      let expected := z_Nameservers z in
      let total := Z.of_nat (length expected) in
      let linked := bool_decide (is_Some (z_DomainRef z)) in
      let seen := match z_DomainRef z with Some r => dr_Nameservers r | None => [] end in
      if (total =? 0)%Z || negb linked || bool_decide (seen = [])
      then {| dg_State := DelegationUnknown; dg_Expected := expected; dg_Observed := seen;
              dg_SetCount := 0; dg_Total := total; dg_Linked := linked |}
      else
        let observed : gset gostring :=
          list_to_set (filter (λ n, n ≠ []) (normalizeNameserver <$> seen)) in
        let count := Z.of_nat (length (filter (λ e, normalizeNameserver e ∈ observed) expected)) in
        {| dg_State := if (count =? total)%Z then DelegationComplete
                       else if (count =? 0)%Z then DelegationIncomplete else DelegationPartial;
           dg_Expected := expected; dg_Observed := seen; dg_SetCount := count;
           dg_Total := total; dg_Linked := linked |}
  end.

(** * The worst status wins *)

Lemma statusSeverity_pos w : (5 ≤ statusSeverity w ≤ 70)%Z.
Proof. unfold statusSeverity. repeat case_decide; lia. Qed.

Definition severityOf (c : option Condition) : Z := statusSeverity (classifyProgrammed c).1.

Lemma worseStep_foldl conds acc :
  let r := foldl worseStep acc conds in
  (r = acc ∧ Forall (λ c, (severityOf c ≤ acc.1)%Z) conds) ∨
  ∃ i c, conds !! i = Some c ∧ r = (severityOf c, classifyProgrammed c) ∧ (acc.1 < severityOf c)%Z ∧
    (∀ j c', conds !! j = Some c' → (severityOf c' ≤ severityOf c)%Z) ∧
    (∀ j c', j < i → conds !! j = Some c' → (severityOf c' < severityOf c)%Z).
Proof.
  revert acc. induction conds as [|c conds IH]; intros acc; [left; by split|]. cbn [foldl].
  assert (worseStep acc c = if (acc.1 <? severityOf c)%Z then (severityOf c, classifyProgrammed c) else acc)
    as -> by done.
  destruct (Z.ltb_spec acc.1 (severityOf c)) as [Hlt|Hge].
  - right. destruct (IH (severityOf c, classifyProgrammed c))
      as [[-> HF]|(i & c' & Hi & -> & Hc & Hmax & Hfirst)]; cbn [fst] in *.
    + exists 0, c. split_and!; [done..| |by intros; lia].
      intros [|j] c' Hj; [by injection Hj as ->|]. by apply (Forall_lookup_1 _ _ j c' HF).
    + exists (S i), c'. split_and!; [done..|lia| |].
      * intros [|j] c'' Hj; [injection Hj as ->; lia|by eapply Hmax].
      * intros [|j] c'' Hj Hl; [injection Hl as ->; lia|]. eapply Hfirst; [|done]. lia.
  - destruct (IH acc) as [[-> HF]|(i & c' & Hi & -> & Hc & Hmax & Hfirst)].
    + left. split; [done|]. by constructor.
    + right. exists (S i), c'. split_and!; [done..| |].
      * intros [|j] c'' Hj; [injection Hj as ->; lia|by eapply Hmax].
      * intros [|j] c'' Hj Hl; [injection Hl as ->; lia|]. eapply Hfirst; [|done]. lia.
Qed.

(** The status shown for a record is the worst of all its spellings: when the set is not
    rejected and the backend has reported on the name, it is the status of one of the
    entries whose owner resolves to the same name, none of those is worse, and the
    earliest of the worst is shown. *)
Theorem recordStatus_worst rs ownerName zone :
  rejection (rs_Conditions rs) = None →
  ownerConditions rs ownerName zone condProgrammed ≠ [] →
  ∃ i c, ownerConditions rs ownerName zone condProgrammed !! i = Some c ∧
    recordStatus (Some rs) ownerName zone = classifyProgrammed c ∧
    (∀ j c', ownerConditions rs ownerName zone condProgrammed !! j = Some c' →
       (statusSeverity (classifyProgrammed c').1 ≤ statusSeverity (classifyProgrammed c).1)%Z ∧
       (j < i → (statusSeverity (classifyProgrammed c').1 < statusSeverity (classifyProgrammed c).1)%Z)).
Proof.
  intros Hr Hne. cbn [recordStatus]. rewrite Hr.
  destruct (ownerConditions rs ownerName zone condProgrammed) as [|c0 conds] eqn:E; [done|].
  destruct (worseStep_foldl (c0 :: conds) ((-1)%Z, ([], [])))
    as [[_ HF]|(i & c & Hi & -> & _ & Hmax & Hfirst)].
  - apply Forall_cons in HF as [Hc _]. pose proof (statusSeverity_pos (classifyProgrammed c0).1).
    unfold severityOf in Hc. cbn in Hc. lia.
  - exists i, c. split_and!; [done..|]. intros j c' Hj. split; [by eapply Hmax|]. intros. by eapply Hfirst.
Qed.
End Status.

(** * Witness: one name spelled in two ways, one entry failed *)

#[local] Existing Instance reference_runtime.
#[local] Existing Instance reference_apimeta.

Definition exampleStatus (name reason : gostring) (status : ConditionStatus) : RecordSetStatus :=
  {| rss_Name := name;
     rss_Conditions := [{| c_Type := condProgrammed; c_Status := status; c_ObservedGeneration := 1;
       c_LastTransitionTime := 0; c_Reason := reason; c_Message := [] |}] |}.

Definition exampleTwoSpellings : DNSRecordSet :=
  {| rs_Namespace := "ns"; rs_Name := "a"; rs_UID := "u1"; rs_Generation := 1;
     rs_CreationTimestamp := 0; rs_DeletionTimestamp := None; rs_Finalizers := [];
     rs_OwnerReferences := []; rs_DNSZoneRef := "z"; rs_RecordType := RRTypeA; rs_Records := [];
     rs_Conditions := [];
     rs_RecordSets := [exampleStatus "www" "Programmed" ConditionTrue;
                       exampleStatus "www.example.com." reasonConflict ConditionFalse] |}.

Lemma recordStatus_worst_witness :
  (recordStatus (Some exampleTwoSpellings) "www" "example.com").1 = StatusConflict.
Proof.
  destruct (recordStatus_worst exampleTwoSpellings "www" "example.com") as (i & c & Hi & Hs & Hworst).
  - reflexivity.
  - discriminate.
  - rewrite Hs. destruct i as [|[|i]]; vm_compute in Hi; [|injection Hi as <-; reflexivity|discriminate Hi].
    destruct (Hworst 1 _ eq_refl) as [Hle _]. injection Hi as <-. exfalso. apply Hle. reflexivity.
Defined.
