(* ===== verification/PdnsClient.v ===== *)
(** Package [internal/dns/pdns], file [client.go]: the calls of the client.

    A call is a function of the events so far, in order: the requests put to
    PowerDNS, and the patches that were refused before they were sent.  What
    PowerDNS answers is [server], a function of the events up to and including the
    request, so any server that can be observed one request at a time is covered,
    with whatever else changes its data in between.

    [json_zone] and [json_error] decode the bodies; every statement holds for any
    decoder.  Logging and the prune counter ([notePrunes]) are left out: they
    change neither the result nor what is sent. *)

From S2P Require Import Prelude GoStrings Api ApiMeta Ownername.
From S2P Require Import PdnsEncode PdnsErrors PdnsPatch.

(** * HTTP *)

Inductive request :=
| GetZoneRequest (zone : gostring)
| PatchZoneRequest (zone : gostring) (rrsets : list wireRRSet)
| CreateZoneRequest (name : gostring) (nameservers : list gostring)
| DeleteZoneRequest (zone : gostring).

Inductive event :=
| Sent (r : request)
| NotSent (zone : gostring).

Inductive response :=
| NoResponse (text : gostring)
| Response (StatusCode : Z) (Body : gostring).

(** A computation over the events. *)
Definition Io (A : Type) : Type := list event → A * list event.

#[global] Instance Io_ret : MRet Io := λ A a tr, (a, tr).
#[global] Instance Io_bind : MBind Io := λ A B f m tr, let '(a, tr') := m tr in f a tr'.

(** The readings of the clock during one call: [metav1.Now()] for the status an
    owner gets, [time.Now().Unix()] for its comments and the date in its SOA. *)
Record Clock := {
  metaNow : gostring → ConditionStatus → Z;
  unixNow : gostring → Z;
  today : gostring → gostring;
}.

(** * Status entries *)

Definition CondProgrammed : gostring := "Programmed".
Definition ReasonConflict : gostring := "Conflict".

Definition makeProgrammedStatus (clock : Clock) (owner : gostring) (status : ConditionStatus)
    (reason message : gostring) : RecordSetStatus :=
  {| rss_Name := owner;
     rss_Conditions := [{| c_Type := "Programmed"; c_Status := status;
       c_ObservedGeneration := 0; c_LastTransitionTime := metaNow clock owner status;
       c_Reason := reason; c_Message := message |}] |}.

Definition recordSetErrorStatus (clock : Clock) (owner text : gostring) : RecordSetStatus :=
  makeProgrammedStatus clock owner ConditionFalse "PDNSError" text.

Definition recordSetCreatedStatus (clock : Clock) (owner : gostring) : RecordSetStatus :=
  makeProgrammedStatus clock owner ConditionTrue "Programmed" "Record set successfully created".

Definition recordSetSuccessStatus (clock : Clock) (owner : gostring)
    (current : list RecordSetStatus) : RecordSetStatus :=
  match list_find (λ st, rss_Name st = owner) current with
  | None => recordSetCreatedStatus clock owner
  | Some (_, curStatus) =>
      match rss_Conditions curStatus with
      | c :: _ => if decide (c_Status c = ConditionTrue) then curStatus
                  else recordSetCreatedStatus clock owner
      | [] => recordSetCreatedStatus clock owner
      end
  end.

Definition set_LastTransitionTime (t : Z) (c : Condition) : Condition :=
  {| c_Type := c_Type c; c_Status := c_Status c;
     c_ObservedGeneration := c_ObservedGeneration c; c_LastTransitionTime := t;
     c_Reason := c_Reason c; c_Message := c_Message c |}.

Definition keepTransitionTimes `{ApiMeta} (statuses previous : list RecordSetStatus) :
    list RecordSetStatus :=
  let before : gmap gostring Condition :=
    foldl (λ m st, match FindStatusCondition (rss_Conditions st) CondProgrammed with
                   | Some cond => <[rss_Name st := cond]> m
                   | None => m end) ∅ previous in
  (λ st, match before !! rss_Name st with
         | None => st
         | Some prev =>
             {| rss_Name := rss_Name st;
                rss_Conditions :=
                  (λ c, if decide (c_Type c = c_Type prev ∧ c_Status c = c_Status prev)
                        then set_LastTransitionTime (c_LastTransitionTime prev) c else c)
                  <$> rss_Conditions st |}
         end) <$> statuses.

(** * Ownership *)

Definition recordSetOwnerRef (rs : DNSRecordSet) : gostring :=
  rs_Namespace rs ++ ":" ++ rs_Name rs.

Definition rrsetOwnerRef (rr : zoneRRset) : gostring :=
  match list_find (λ c, cm_Account c = ACCOUNT_OWNER) (commentsOf rr) with
  | Some (_, c) => cm_Content c
  | None => []
  end.

(** The generation and UID the comments record; the last of each kind wins. *)
Definition commentStep (acc : Z * gostring) (c : zoneRRsetComment) : Z * gostring :=
  if decide (cm_Account c = ACCOUNT_OBSERVED_GENERATION) then
    match ParseInt64 (cm_Content c) with Some g => (g, acc.2) | None => acc end
  else if decide (cm_Account c = ACCOUNT_OBJECT_UID) then (acc.1, cm_Content c)
  else acc.

Definition rrsetMatchesObject (current : zoneRRset) (rs : DNSRecordSet) : bool :=
  match zr_Comments current with
  | None => false
  | Some comments => bool_decide (foldl commentStep (0%Z, []) comments = (rs_Generation rs, rs_UID rs))
  end.

(** The nil map for [wanted] is the empty set. *)
Definition ownedSurplus `{GoRuntime} (existing : gmap rrsetKey zoneRRset)
    (ownerRef recordType : gostring) (wanted : gset gostring) : list rrsetKey :=
  omap (λ '(key, current),
      if decide (rrsetOwnerRef current ≠ ownerRef) then None
      else if decide ((key : rrsetKey).1 ∈ wanted ∧ key.2 = recordType) then None
      else Some key) (map_range existing).

Definition stripTrailingDot (s : gostring) : gostring :=
  if HasSuffix s "." then take (length s - 1) s else s.

(** Who else holds the name, for the message of a refused RRset. *)
Definition holders `{GoRuntime} (qualified recordType ownerRef : gostring)
    (existing : gmap rrsetKey zoneRRset) : list gostring :=
  omap (λ '(key, rr),
      if negb (EqualFold (key : rrsetKey).1 qualified) || EqualFold key.2 recordType then None
      else
        let ref := rrsetOwnerRef rr in
        if decide (ref = ownerRef) then None
        else if decide (ref ≠ []) then
          Some (key.2 ++ " record of DNSRecordSet " ++ afterLast ":" ref)
        else Some (key.2 ++ " record")) (map_range existing).

Definition recordSetRefusedStatus `{GoRuntime} (clock : Clock)
    (owner qualified recordType ownerRef : gostring) (existing : gmap rrsetKey zoneRRset) :
    RecordSetStatus :=
  let name := stripTrailingDot qualified in
  let held :=
    match sortStrings (holders qualified recordType ownerRef existing) with
    | [] => "another record"
    | hs => "the " ++ Join hs " and the "
    end in
  makeProgrammedStatus clock owner ConditionFalse ReasonConflict
    (name ++ " cannot be published because " ++ held ++
     " already holds the name. It will be published once that record is removed.").

(** * Calls *)

Section Calls.
Context `{GoRuntime} `{ApiMeta}.
Context (server : list event → response).
Context (json_zone : gostring → result gostring (list zoneRRset)).
Context (json_error : gostring → option (gostring * list gostring)).

(** [c.HTTP.Do]. *)
Definition Do (r : request) : Io response := λ tr, (server (tr ++ [Sent r]), tr ++ [Sent r]).

(** A fresh error pointer: the events so far number it. *)
Definition freshId : Io nat := λ tr, (length tr, tr).

(** [readRespBody(resp, 64<<10)]. *)
Definition readRespBody (body : gostring) : gostring := TrimSpace (take (Z.to_nat 65536) body).

Definition applyRRSetPatch (zone : gostring) (patch : list rrset) : Io (option GoError) :=
  match patch with
  | [] => mret None
  | _ =>
      match clearCommentsBehindDeletes (sortRRSets patch) with
      | Err rr => λ tr,
          let tr' := tr ++ [NotSent zone] in
          let id := length tr' in
          (Some (Wrapped id ("building the patch for zone " ++ zone ++ ": ")
             (OtherError id ("patch both replaces and deletes " ++ rr_Type rr ++ " " ++ rr_Name rr))),
           tr')
      | Ok rrsets =>
          resp ← Do (PatchZoneRequest zone (MarshalJSON <$> rrsets));
          id ← freshId;
          match resp with
          | NoResponse text => mret (Some (OtherError id text))
          | Response status body =>
              if (status =? 204)%Z || (status =? 200)%Z then mret None
              else mret (Some (APIError id status (readRespBody body)))
          end
      end
  end.

Definition indexRRSets (l : list zoneRRset) : gmap rrsetKey zoneRRset :=
  foldl (λ m rr, <[(zr_Name rr, zr_Type rr) := rr]> m) ∅ l.

Definition getPDNSZoneRRSets (zoneName : gostring) :
    Io (result GoError (gmap rrsetKey zoneRRset)) :=
  resp ← Do (GetZoneRequest zoneName);
  id ← freshId;
  match resp with
  | NoResponse text => mret (Err (OtherError id text))
  | Response status body =>
      if (status =? 404)%Z then mret (Err ErrZoneNotFound)
      else if negb (status =? 200)%Z then
        mret (Err (APIError id status (readRespBody body)))
      else match json_zone body with
           | Err text => mret (Err (OtherError id text))
           | Ok l => mret (Ok (indexRRSets l))
           end
  end.

(** Patch chunk after chunk, stopping at the first error. *)
Fixpoint applyChunks (zone : gostring) (chunks : list rrsetChunk) : Io (option GoError) :=
  match chunks with
  | [] => mret None
  | ck :: chunks' =>
      err ← applyRRSetPatch zone (ck_rrsets ck);
      match err with
      | Some e => mret (Some e)
      | None => applyChunks zone chunks'
      end
  end.

(** ** Zones *)

Definition absoluteNameservers (nameservers : list gostring) : list gostring :=
  omap (λ ns, match last ns with
              | None => None
              | Some c => Some (if Ascii.eqb c "." then ns else ns ++ ".")
              end) nameservers.

Definition CreateZone (zone : gostring) (nameservers : list gostring) : Io (option GoError) :=
  resp ← Do (CreateZoneRequest (zone ++ ".") (absoluteNameservers nameservers));
  id ← freshId;
  match resp with
  | NoResponse text => mret (Some (OtherError id text))
  | Response status _ =>
      if (status =? 201)%Z || (status =? 409)%Z then mret None
      else if negb (status =? 200)%Z then
        mret (Some (OtherError id ("pdns create zone failed: status " ++ FormatInt status)))
      else mret None
  end.

(** [json_name] decodes the name of the zone. *)
Definition GetZone (json_name : gostring → result gostring gostring) (zone : gostring) :
    Io (result GoError gostring) :=
  resp ← Do (GetZoneRequest zone);
  id ← freshId;
  match resp with
  | NoResponse text => mret (Err (OtherError id text))
  | Response status body =>
      if (status =? 404)%Z then mret (Err ErrZoneNotFound)
      else if negb (status =? 200)%Z then
        mret (Err (OtherError id ("pdns get zone failed: status " ++ FormatInt status)))
      else match json_name body with
           | Err text => mret (Err (OtherError id text))
           | Ok name => mret (Ok name)
           end
  end.

(** [nss] is [GetZoneNameservers] of the class. *)
Definition EnsureZone (json_name : gostring → result gostring gostring) (zone : gostring)
    (nss : list gostring) : Io (option GoError) :=
  r ← GetZone json_name zone;
  match r with
  | Ok _ => mret None
  | Err err => if isZoneNotFound err then CreateZone zone nss else mret (Some err)
  end.

Definition clearZoneComments (zoneName : gostring) : Io (option GoError) :=
  r ← getPDNSZoneRRSets zoneName;
  match r with
  | Err err => if isZoneNotFound err then mret None else mret (Some err)
  | Ok existing =>
      let clears := omap (λ '(_, current),
          match commentsOf current with
          | [] => None
          | _ => Some (commentsOnlyReplace (zr_Name current) (zr_Type current))
          end) (map_range existing) in
      applyChunks zoneName (chunkRRSets (sortRRSets clears))
  end.

Definition DeleteZone (zone : gostring) : Io (option GoError) :=
  if decide (zone = []) then mret None
  else
    err ← clearZoneComments zone;
    match err with
    | Some e => id ← freshId;
                mret (Some (Wrapped id ("clearing the comments of zone " ++ zone ++ ": ") e))
    | None =>
        resp ← Do (DeleteZoneRequest zone);
        id ← freshId;
        match resp with
        | NoResponse text => mret (Some (OtherError id text))
        | Response status _ =>
            if (status =? 404)%Z || (status =? 204)%Z || (status =? 200)%Z then mret None
            else mret (Some (OtherError id ("pdns delete zone failed: status " ++ FormatInt status)))
        end
    end.
(** ** Isolating refusals *)

Definition refusedIn (change : list rrset) (refused : gset rrsetKey) : bool :=
  existsb (λ rr, bool_decide (patchIdentity rr ∈ refused)) change.

(** The [i]-th change; the indices below are always in range. *)
Definition changeAt (changes : list (list rrset)) (i : nat) : list rrset :=
  default [] (changes !! i).

(** [errs[i] = err] for every [i] of [idxs]. *)
Definition setErrs (idxs : list nat) (err : GoError) (errs : list (option GoError)) :
    list (option GoError) :=
  foldl (λ errs i, <[i := Some err]> errs) errs idxs.

(** The loop of [applyIsolatingRefusals].  It goes round again only with fewer changes
    pending, so their number is enough fuel ([isolateLoop_fuel]). *)
Fixpoint isolateLoop (fuel : nat) (zone : gostring) (changes : list (list rrset))
    (errs : list (option GoError)) (pending : list nat) : Io (list (option GoError)) :=
  match pending, fuel with
  | [], _ => mret errs
  | _, O => mret errs
  | _, S fuel' =>
      err ← applyRRSetPatch zone (pending ≫= changeAt changes);
      match err with
      | None => mret errs
      | Some e =>
          let refused : gset rrsetKey := list_to_set (refusedRRSets json_error e) in
          let hit i := refusedIn (changeAt changes i) refused in
          let kept := filter (λ i, hit i = false) pending in
          if decide (length kept = length pending) then mret (setErrs pending e errs)
          else isolateLoop fuel' zone changes
                 (setErrs (filter (λ i, hit i = true) pending) e errs) kept
      end
  end.

Definition applyIsolatingRefusals (zone : gostring) (changes : list (list rrset)) :
    Io (list (option GoError)) :=
  isolateLoop (length changes) zone changes (replicate (length changes) None)
    (seq 0 (length changes)).

(** ** Record sets *)

(** Pointer equality of errors. *)
Definition sameError (a b : GoError) : bool :=
  match a, b with
  | APIError i _ _, APIError j _ _ | OtherError i _, OtherError j _
  | Wrapped i _ _, Wrapped j _ _ => i =? j
  | ErrZoneNotFound, ErrZoneNotFound => true
  | _, _ => false
  end.

(** [rrsetMap]: the entries by the owner name as written. *)
Definition groupByName (records : list RecordEntry) : gmap gostring (list RecordEntry) :=
  foldl (λ m e, <[re_Name e := default [] (m !! re_Name e) ++ [e]]> m) ∅ records.

(** The variables of the owner loop of [EnsureRecordSet]. *)
Record ensureState := {
  es_statusList : list RecordSetStatus;
  es_desired : gset gostring;
  es_replaces : list rrset;
  es_replacedStatus : list nat;
}.

Definition ensureOwner (clock : Clock) (zoneName : gostring) (rs : DNSRecordSet)
    (existing : gmap rrsetKey zoneRRset) (rrsetMap : gmap gostring (list RecordEntry))
    (st : ensureState) (owner : gostring) : ensureState :=
  let recordType := RRTypeString (rs_RecordType rs) in
  match BuildOwnerRRSet (today clock owner) zoneName (rs_RecordType rs) owner
          (default [] (rrsetMap !! owner)) with
  | None =>
      {| es_statusList := es_statusList st ++
           [recordSetErrorStatus clock owner ("failed to build owner RRSet for owner " ++ owner)];
         es_desired := es_desired st; es_replaces := es_replaces st;
         es_replacedStatus := es_replacedStatus st |}
  | Some ownerRRSet =>
      let qualified := Qualify owner zoneName in
      let desired := {[qualified]} ∪ es_desired st in
      let found := existing !! (qualified, recordType) in
      if match found with Some current => rrsetMatchesObject current rs | None => false end then
        {| es_statusList := es_statusList st ++
             [recordSetSuccessStatus clock owner (rs_RecordSets rs)];
           es_desired := desired; es_replaces := es_replaces st;
           es_replacedStatus := es_replacedStatus st |}
      else
        let records :=
          match found with
          | Some current =>
              if decide (rs_RecordType rs = RRTypeSOA)
              then keepSOASerialRising (or_Records ownerRRSet) current
              else or_Records ownerRRSet
          | None => or_Records ownerRRSet
          end in
        let comments := match found with Some current => commentsOf current | None => [] end in
        {| es_statusList := es_statusList st ++ [recordSetCreatedStatus clock owner];
           es_desired := desired;
           es_replaces := es_replaces st ++
             [buildReplaceRRSet (unixNow clock owner) zoneName recordType owner
                (or_TTL ownerRRSet) records (recordSetOwnerRef rs) (rs_Generation rs)
                (rs_UID rs) comments];
           es_replacedStatus := es_replacedStatus st ++ [length (es_statusList st)] |}
  end.

(** What one error does to the status list and the transient errors. *)
Definition noteError (clock : Clock) (zoneName : gostring) (rs : DNSRecordSet)
    (existing : gmap rrsetKey zoneRRset) (replace : rrset) (idx : nat) (err : GoError)
    (acc : list RecordSetStatus * list GoError) : list RecordSetStatus * list GoError :=
  let '(statusList, transient) := acc in
  let owner := default [] (rss_Name <$> statusList !! idx) in
  let transient :=
    if IsTransient err &&
       match last transient with None => true | Some e => negb (sameError e err) end
    then transient ++ [err] else transient in
  let recordType := RRTypeString (rs_RecordType rs) in
  let st :=
    if refuses json_error err (patchIdentity replace)
    then recordSetRefusedStatus clock owner (Qualify owner zoneName) recordType
           (recordSetOwnerRef rs) existing
    else recordSetErrorStatus clock owner (ErrorText err) in
  (<[idx := st]> statusList, transient).

(** The results of one chunk of replaces, error by error. *)
Definition noteErrors (clock : Clock) (zoneName : gostring) (rs : DNSRecordSet)
    (existing : gmap rrsetKey zoneRRset) (results : list (rrset * nat * option GoError))
    (acc : list RecordSetStatus * list GoError) : list RecordSetStatus * list GoError :=
  foldl (λ acc '(rr, idx, err),
    match err with
    | None => acc
    | Some e => noteError clock zoneName rs existing rr idx e acc
    end) acc results.

(** The loop over the chunks of the replaces. *)
Fixpoint applyReplaces (clock : Clock) (zoneName : gostring) (rs : DNSRecordSet)
    (existing : gmap rrsetKey zoneRRset) (changes : list (list rrset))
    (replacedStatus : list nat) (chunks : list rrsetChunk)
    (acc : list RecordSetStatus * list GoError) :
    Io (list RecordSetStatus * list GoError) :=
  match chunks with
  | [] => mret acc
  | ck :: chunks' =>
      let window {A} (l : list A) := take (ck_end ck - ck_start ck) (drop (ck_start ck) l) in
      errs ← applyIsolatingRefusals zoneName (window changes);
      applyReplaces clock zoneName rs existing changes replacedStatus chunks'
        (noteErrors clock zoneName rs existing
           (zip (zip (ck_rrsets ck) (window replacedStatus)) errs) acc)
  end.

(** The loop over the chunks of the remaining deletes, which goes on after an error. *)
Fixpoint applyDeletes (zoneName : gostring) (chunks : list rrsetChunk) : Io unit :=
  match chunks with
  | [] => mret tt
  | ck :: chunks' =>
      _ ← applyRRSetPatch zoneName (ck_rrsets ck);
      applyDeletes zoneName chunks'
  end.

(** [errors.Join]. *)
Definition JoinErrors (errs : list GoError) : option GoError :=
  match errs with [] => None | _ => Some (Joined errs) end.

(** The patch [EnsureRecordSet] decides on: the state after the owner loop, the
    replaces with the deletes at their names, and the other deletes. *)
Definition ensurePlan (clock : Clock) (zoneName : gostring) (rs : DNSRecordSet)
    (existing : gmap rrsetKey zoneRRset) : ensureState * list (list rrset) * list rrset :=
  let rrsetMap := groupByName (rs_Records rs) in
  let owners := sortStrings (map_range rrsetMap).*1 in
  let st := foldl (ensureOwner clock zoneName rs existing rrsetMap)
    {| es_statusList := []; es_desired := ∅; es_replaces := []; es_replacedStatus := [] |}
    owners in
  let surplus := (λ key : rrsetKey, newDeleteRRSet key.1 key.2) <$>
    ownedSurplus existing (recordSetOwnerRef rs) (RRTypeString (rs_RecordType rs))
      (es_desired st) in
  let '(changes, deletes) := pairDeletes (es_replaces st) surplus in
  (st, changes, sortRRSets deletes).

(** [EnsureRecordSet] after the zone read. *)
Definition ensureApply (clock : Clock) (zoneName : gostring) (rs : DNSRecordSet)
    (existing : gmap rrsetKey zoneRRset) : Io (list RecordSetStatus * option GoError) :=
  let '(st, changes, deletes) := ensurePlan clock zoneName rs existing in
  acc ← applyReplaces clock zoneName rs existing changes (es_replacedStatus st)
          (chunkRRSets (es_replaces st)) (es_statusList st, []);
  _ ← applyDeletes zoneName (chunkRRSets deletes);
  mret (keepTransitionTimes acc.1 (rs_RecordSets rs), JoinErrors acc.2).

Definition EnsureRecordSet (clock : Clock) (zoneName : gostring) (rs : DNSRecordSet) :
    Io (list RecordSetStatus * option GoError) :=
  r ← getPDNSZoneRRSets zoneName;
  match r with
  | Err err => mret ([], Some err)
  | Ok existing => ensureApply clock zoneName rs existing
  end.

(** The RRsets [DeleteRecordSet] removes. *)
Definition deleteTargets (zoneName : gostring) (rs : DNSRecordSet)
    (existing : gmap rrsetKey zoneRRset) : gset rrsetKey :=
  let recordType := RRTypeString (rs_RecordType rs) in
  let ownerRef := recordSetOwnerRef rs in
  let named := foldl (λ (targets : gset rrsetKey) e,
      let key := (Qualify (re_Name e) zoneName, recordType) in
      match existing !! key with
      | None => targets
      | Some current =>
          let owner := rrsetOwnerRef current in
          if decide (owner ≠ [] ∧ owner ≠ ownerRef) then targets else {[key]} ∪ targets
      end) ∅ (rs_Records rs) in
  list_to_set (ownedSurplus existing ownerRef recordType ∅) ∪ named.

Definition DeleteRecordSet (zoneName : gostring) (rs : DNSRecordSet) : Io (option GoError) :=
  r ← getPDNSZoneRRSets zoneName;
  match r with
  | Err err => if isZoneNotFound err then mret None else mret (Some err)
  | Ok existing =>
      let targets := gset_to_gmap tt (deleteTargets zoneName rs existing) in
      let deletes := (λ key : rrsetKey, newDeleteRRSet key.1 key.2) <$> (map_range targets).*1 in
      applyChunks zoneName (chunkRRSets (sortRRSets deletes))
  end.

(** ** The remaining entry points *)

Definition ReplaceRRSet (clock : Clock) (zone recordType ownerName : gostring) (ttl : Z)
    (values : list gostring) (ownerRef : gostring) (observedGeneration : Z)
    (objectUID : gostring) : Io (option GoError) :=
  applyRRSetPatch zone [buildReplaceRRSet (unixNow clock ownerName) zone recordType ownerName
    ttl values ownerRef observedGeneration objectUID []].

Definition DeleteRRSet (zone recordType ownerName : gostring) : Io (option GoError) :=
  applyRRSetPatch zone [newDeleteRRSet (Qualify ownerName zone) recordType].

Definition GetZoneRRSets (zone : gostring) : Io (result GoError (list zoneRRset)) :=
  resp ← Do (GetZoneRequest zone);
  id ← freshId;
  match resp with
  | NoResponse text => mret (Err (OtherError id text))
  | Response status body =>
      if (status =? 404)%Z then mret (Ok [])
      else if negb (Z.quot status 100 =? 2)%Z then
        mret (Err (OtherError id ("pdns get zone rrsets failed: status " ++ FormatInt status)))
      else match json_zone body with
           | Err text => mret (Err (OtherError id text))
           | Ok l => mret (Ok l)
           end
  end.

Definition set_ChangeType (c : ChangeType) (r : rrset) : rrset :=
  {| rr_Name := rr_Name r; rr_Type := rr_Type r; rr_TTL := rr_TTL r; rr_ChangeType := c;
     rr_Records := rr_Records r; rr_Comments := rr_Comments r;
     rr_commentsOnly := rr_commentsOnly r |}.

Definition ApplyRecordSetAuthoritative (date zone : gostring) (rs : DNSRecordSet) :
    Io (option GoError) :=
  let recordType := RRTypeString (rs_RecordType rs) in
  let desired :=
    (λ rr, match rr_Records rr with
           | [] => set_ChangeType changeTypeDelete rr
           | _ => set_ChangeType changeTypeReplace rr
           end) <$>
    filter (λ rr, rr_Type rr = recordType)
      (buildRRSets date zone (rs_RecordType rs) (rs_Records rs)) in
  let desiredOwners : gset gostring := list_to_set (rr_Name <$> desired) in
  r ← GetZoneRRSets zone;
  match r with
  | Err err => mret (Some err)
  | Ok existing =>
      let deletes := (λ ex, newDeleteRRSet (zr_Name ex) (zr_Type ex)) <$>
        filter (λ ex, zr_Type ex = recordType ∧ zr_Name ex ∉ desiredOwners) existing in
      applyRRSetPatch zone (desired ++ deletes)
  end.
End Calls.
