(* ===== verification/PdnsSafety.v ===== *)
(** What the calls of the PowerDNS client ([PdnsClient.v]) guarantee, for every
    server: what they may change, that they end, that a status reported as
    programmed was programmed, and that a settled record set is left alone. *)

From S2P Require Import Prelude GoStrings Api ApiMeta Ownername.
From S2P Require Import PdnsEncode PdnsErrors PdnsPatch PdnsClient.

(** * Reasoning about calls

    [spec m Q]: from any events [tr], [m] adds some events [evs] and its result
    [a] satisfies [Q tr a evs]. *)

Definition spec {A} (m : Io A) (Q : list event → A → list event → Prop) : Prop :=
  ∀ tr, ∃ evs, (m tr).2 = tr ++ evs ∧ Q tr (m tr).1 evs.

Lemma spec_ret {A} (a : A) Q : (∀ tr, Q tr a []) → spec (mret a) Q.
Proof. intros HQ tr. exists []. by rewrite app_nil_r. Qed.

Lemma spec_bind {A B} (m : Io A) (f : A → Io B) Q1 Q2 Q3 :
  spec m Q1 → (∀ a, spec (f a) (Q2 a)) →
  (∀ tr a evs1 b evs2, Q1 tr a evs1 → Q2 a (tr ++ evs1) b evs2 → Q3 tr b (evs1 ++ evs2)) →
  spec (m ≫= f) Q3.
Proof.
  intros Hm Hf HQ tr. destruct (Hm tr) as (evs1 & E1 & H1).
  unfold mbind, Io_bind. destruct (m tr) as [a tr']. cbn in *. subst tr'.
  destruct (Hf a (tr ++ evs1)) as (evs2 & E2 & H2).
  exists (evs1 ++ evs2). rewrite E2, app_assoc. eauto.
Qed.

Lemma spec_weaken {A} (m : Io A) (Q Q' : list event → A → list event → Prop) :
  spec m Q → (∀ tr a evs, Q tr a evs → Q' tr a evs) → spec m Q'.
Proof. intros Hm HQ tr. destruct (Hm tr) as (evs & ? & ?). eauto. Qed.

(** What a computation satisfies, with the computation's own run at hand. *)
Lemma spec_run {A} (m : Io A) (Q : list event → A → list event → Prop) :
  spec m Q → spec m (λ tr r evs, Q tr r evs ∧ m tr = (r, tr ++ evs)).
Proof.
  intros Hm tr. destruct (Hm tr) as (evs & E & HQ). exists evs. split_and!; [done..|].
  rewrite <- E. by destruct (m tr).
Qed.

(** [emits P m]: every event [m] adds satisfies [P]. *)
Definition emits {A} (P : event → Prop) (m : Io A) : Prop := spec m (λ _ _ evs, Forall P evs).

Lemma emits_ret {A} P (a : A) : emits P (mret a).
Proof. by apply spec_ret. Qed.

Lemma emits_bind {A B} P (m : Io A) (f : A → Io B) :
  emits P m → (∀ a, emits P (f a)) → emits P (m ≫= f).
Proof.
  intros Hm Hf. eapply spec_bind; [done|intros a; apply Hf|]. cbn.
  intros. by apply Forall_app.
Qed.

Create HintDb iodb discriminated.
#[export] Hint Resolve emits_ret emits_bind : iodb.

Section Safety.
Context `{GoRuntime} `{ApiMeta}.
Context (server : list event → response).
Context (json_zone : gostring → result gostring (list zoneRRset)).
Context (json_error : gostring → option (gostring * list gostring)).

(** Was the last request accepted? *)
Definition accepted (tr : list event) : bool :=
  match server tr with Response status _ => (status =? 204)%Z || (status =? 200)%Z | _ => false end.

(** The patch the events end with, as the changes it was made from. *)
Definition patchSent (zone : gostring) (patch : list rrset) (ev : event) : Prop :=
  ∃ out, patchPayload patch = Ok out ∧ ev = Sent (PatchZoneRequest zone (MarshalJSON <$> out)).

Lemma applyRRSetPatch_spec zone patch :
  spec (applyRRSetPatch server zone patch) (λ tr r evs,
    match patch with
    | [] => r = None ∧ evs = []
    | _ => ∃ ev, evs = [ev] ∧ (patchSent zone patch ev ∨ ev = NotSent zone) ∧
             (r = None → patchSent zone patch ev ∧ accepted (tr ++ [ev]) = true)
    end).
Proof.
  unfold applyRRSetPatch. destruct patch as [|rr patch']; [by apply spec_ret|].
  set (patch := rr :: patch'). intros tr.
  destruct (clearCommentsBehindDeletes (sortRRSets patch)) as [out|d] eqn:E.
  - set (ev := Sent (PatchZoneRequest zone (MarshalJSON <$> out))).
    assert (patchSent zone patch ev) as Hs by (by exists out).
    exists [ev]. unfold mbind, Io_bind, Do, freshId, accepted. fold ev.
    destruct (server (tr ++ [ev])) as [text|status body] eqn:Hresp; cbn;
      [|destruct ((status =? 204)%Z || (status =? 200)%Z) eqn:Hok; cbn];
      (split; [done|]); exists ev; (split_and!; [done|by left|]); [done| |done].
    intros _. by rewrite Hresp.
  - exists [NotSent zone]. cbn. split; [done|]. exists (NotSent zone). by split_and!; [|right|].
Qed.

(** ** What a patch may change *)

(** An event that patches [zone] with changes that all satisfy [Q], or one that sends
    nothing. *)
Definition patchOnly (zone : gostring) (Q : rrset → Prop) (ev : event) : Prop :=
  (∃ out, ev = Sent (PatchZoneRequest zone (MarshalJSON <$> out)) ∧ Forall Q out) ∨
  ev = NotSent zone.

(** [Q] allows the clear behind each delete it allows. *)
Definition clearClosed (Q : rrset → Prop) : Prop :=
  ∀ rr, Q rr → isDelete rr = true → Q (commentsOnlyReplace (rr_Name rr) (rr_Type rr)).

Lemma patchPayload_Forall (Q : rrset → Prop) patch out :
  clearClosed Q → Forall Q patch → patchPayload patch = Ok out → Forall Q out.
Proof.
  intros Hcl HF. unfold patchPayload, clearCommentsBehindDeletes.
  intros [-> _]%clearLoop_Ok. rewrite Forall_forall in HF.
  apply Forall_forall. intros rr (rr' & Hin & Hin')%list_elem_of_bind.
  assert (rr' ∈ patch) as Hp. { by rewrite <- (sort_slice_perm rrsetLess patch). }
  unfold withClear in Hin. destruct (isDelete rr') eqn:Hd.
  - apply elem_of_cons in Hin as [->| ->%list_elem_of_singleton]; auto.
  - apply list_elem_of_singleton in Hin as ->. auto.
Qed.

Lemma applyRRSetPatch_emits zone (Q : rrset → Prop) patch :
  clearClosed Q → Forall Q patch → emits (patchOnly zone Q) (applyRRSetPatch server zone patch).
Proof.
  intros Hcl HF. eapply spec_weaken; [apply applyRRSetPatch_spec|]. intros tr r evs.
  destruct patch as [|rr patch']; [by intros [_ ->]|].
  intros (ev & -> & Hev & _). apply Forall_singleton.
  destruct Hev as [(out & Hout & ->) | ->]; [left|by right].
  exists out. split; [done|]. by eapply patchPayload_Forall.
Qed.
#[local] Hint Resolve applyRRSetPatch_emits : iodb.

Lemma applyDeletes_emits zone (Q : rrset → Prop) chunks :
  clearClosed Q → Forall (λ ck, Forall Q (ck_rrsets ck)) chunks →
  emits (patchOnly zone Q) (applyDeletes server zone chunks).
Proof.
  intros Hcl HF. induction HF as [|ck chunks Hck HF IH]; cbn; auto with iodb.
Qed.

Lemma applyChunks_emits zone (Q : rrset → Prop) chunks :
  clearClosed Q → Forall (λ ck, Forall Q (ck_rrsets ck)) chunks →
  emits (patchOnly zone Q) (applyChunks server zone chunks).
Proof.
  intros Hcl HF. induction HF as [|ck chunks Hck HF IH]; cbn; [auto with iodb|].
  apply emits_bind; [auto with iodb|]. intros []; auto with iodb.
Qed.

Lemma isolateLoop_emits zone (Q : rrset → Prop) changes fuel errs pending :
  clearClosed Q → Forall (Forall Q) changes →
  emits (patchOnly zone Q) (isolateLoop server json_error fuel zone changes errs pending).
Proof.
  intros Hcl HF. revert errs pending.
  induction fuel as [|fuel IH]; intros errs [|i pending]; cbn [isolateLoop]; auto with iodb.
  apply emits_bind.
  - apply applyRRSetPatch_emits; [done|]. apply Forall_forall.
    intros rr (j & Hin & _)%list_elem_of_bind. unfold changeAt in Hin.
    destruct (changes !! j) as [ch|] eqn:E; [|by apply not_elem_of_nil in Hin].
    rewrite Forall_lookup in HF. specialize (HF _ _ E). rewrite Forall_forall in HF. auto.
  - intros [e|]; [|auto with iodb]. case_decide; auto with iodb.
Qed.

Lemma chunk_Forall (Q : rrset → Prop) l :
  Forall Q l → Forall (λ ck, Forall Q (ck_rrsets ck)) (chunkRRSets l).
Proof.
  intros HF. destruct (chunkFrom_spec (length l) 0 l) as [Hj _]; [done|].
  rewrite <- Hj in HF. apply Forall_forall. intros ck Hck. rewrite Forall_forall in HF.
  apply Forall_forall. intros rr Hrr. apply HF, list_elem_of_join.
  exists (ck_rrsets ck). split; [done|]. by apply list_elem_of_fmap_2.
Qed.

(** *** EnsureRecordSet *)

Section Ensure.
Context (clock : Clock) (zone : gostring) (rs : DNSRecordSet).
Context (existing : gmap rrsetKey zoneRRset).

(** The RRset is in the zone and this record set wrote it. *)
Definition ownedHere (key : rrsetKey) : Prop :=
  ∃ current, existing !! key = Some current ∧ rrsetOwnerRef current = recordSetOwnerRef rs.

(** A change the record set may ask for: to replace an RRset of its own type at a name
    it lists, or to delete, or clear the comments of, an RRset it wrote itself. *)
Definition ensureMay (rr : rrset) : Prop :=
  if isDelete rr || rr_commentsOnly rr then ownedHere (rr_Name rr, rr_Type rr)
  else rr_Type rr = RRTypeString (rs_RecordType rs) ∧
       ∃ e, e ∈ rs_Records rs ∧ rr_Name rr = Qualify (re_Name e) zone.

Lemma ensureMay_clearClosed : clearClosed ensureMay.
Proof. intros rr Hrr Hd. unfold ensureMay in *. by rewrite Hd in Hrr. Qed.

Lemma ownedSurplus_owned ref t wanted key :
  key ∈ ownedSurplus existing ref t wanted →
  ∃ current, existing !! key = Some current ∧ rrsetOwnerRef current = ref.
Proof.
  intros ([key' current] & Hin & Hk)%list_elem_of_omap.
  rewrite map_range_perm in Hin. apply elem_of_map_to_list in Hin.
  destruct (decide (rrsetOwnerRef current ≠ ref)) as [|E]; [done|].
  case_decide; [done|]. injection Hk as ->. exists current. split; [done|]. by apply dec_stable.
Qed.

Lemma surplus_may wanted :
  Forall ensureMay ((λ key : rrsetKey, newDeleteRRSet key.1 key.2) <$>
    ownedSurplus existing (recordSetOwnerRef rs) (RRTypeString (rs_RecordType rs)) wanted).
Proof.
  apply Forall_fmap, Forall_forall. intros [n t] Hin%ownedSurplus_owned. exact Hin.
Qed.

Lemma groupByName_lookup records n es :
  groupByName records !! n = Some es →
  es ≠ [] ∧ Forall (λ e, e ∈ records ∧ re_Name e = n) es.
Proof.
  unfold groupByName. revert es. induction records as [|e records IH] using rev_ind; [done|].
  intros es. rewrite foldl_snoc. intros [[<- <-]|[Hne Hes]]%lookup_insert_Some.
  - split; [by intros [_ ?]%app_nil|]. apply Forall_app. split.
    + destruct (foldl _ _ _ !! re_Name e) as [es'|] eqn:E; cbn; [|done].
      destruct (IH _ eq_refl) as [_ HF]. eapply Forall_impl; [done|].
      intros e' [??]. rewrite elem_of_app. auto.
    + apply Forall_singleton. rewrite elem_of_app, list_elem_of_singleton. auto.
  - destruct (IH _ Hes) as [? HF]. split; [done|]. eapply Forall_impl; [done|].
    intros e' [??]. rewrite elem_of_app. auto.
Qed.

Lemma ensureOwner_may rrsetMap st owner :
  rrsetMap = groupByName (rs_Records rs) → is_Some (rrsetMap !! owner) →
  Forall ensureMay (es_replaces st) →
  Forall ensureMay (es_replaces (ensureOwner clock zone rs existing rrsetMap st owner)).
Proof.
  intros -> [es Hes] HF. apply groupByName_lookup in Hes as [Hne Hes].
  unfold ensureOwner. destruct (BuildOwnerRRSet _ _ _ _ _) as [o|]; [|done]. cbn zeta.
  destruct (match _ with Some _ => _ | None => false end); [done|]. cbn [es_replaces].
  apply Forall_app. split; [done|]. apply Forall_singleton. unfold ensureMay. cbn.
  split; [done|]. destruct Hes as [|e es [Hin Hn]]; [done|]. exists e. by rewrite Hn.
Qed.

Lemma sortedKeys_dom {V} (m : gmap gostring V) :
  Forall (λ k, is_Some (m !! k)) (sortStrings (map_range m).*1).
Proof.
  rewrite sortStrings_perm, map_range_perm. apply Forall_forall.
  intros k ([k' v] & -> & Hv%elem_of_map_to_list)%list_elem_of_fmap. by eexists.
Qed.

Lemma ensurePlan_may st changes deletes :
  ensurePlan clock zone rs existing = (st, changes, deletes) →
  Forall ensureMay (es_replaces st) ∧ Forall (Forall ensureMay) changes ∧
  Forall ensureMay deletes.
Proof.
  unfold ensurePlan. set (st0 := {| es_statusList := [] |}).
  set (m := groupByName (rs_Records rs)).
  set (st' := foldl _ st0 _). set (surplus := _ <$> ownedSurplus _ _ _ _).
  destruct (pairDeletes (es_replaces st') surplus) as [ch rest] eqn:E. intros [= <- <- <-].
  assert (Forall ensureMay (es_replaces st')) as Hrep.
  { unfold st'. pose proof (sortedKeys_dom m) as Hdom. revert Hdom.
    generalize (sortStrings (map_range m).*1). intros owners.
    assert (Forall ensureMay (es_replaces st0)) as H0' by done. revert H0'.
    generalize st0. induction owners as [|o owners IH]; intros s Hs Hdom; [done|].
    apply Forall_cons in Hdom as [Ho Hdom]. cbn. apply IH; [|done].
    by apply ensureOwner_may. }
  assert (Forall ensureMay (mjoin ch ++ rest)) as Hall.
  { pose proof (paired_pairDeletes (es_replaces st') surplus) as [_ _ Hperm _].
    rewrite E in Hperm. cbn in Hperm. rewrite Hperm. apply Forall_app. split; [done|].
    apply surplus_may. }
  apply Forall_app in Hall as [Hch Hrest]. split_and!; [done| |].
  - by apply Forall_mjoin.
  - unfold sortRRSets. by rewrite sort_slice_perm.
Qed.

Lemma applyReplaces_emits changes rst chunks acc :
  Forall (Forall ensureMay) changes →
  emits (patchOnly zone ensureMay)
    (applyReplaces server json_error clock zone rs existing changes rst chunks acc).
Proof.
  intros HF. revert acc. induction chunks as [|ck chunks IH]; intros acc; cbn; [auto with iodb|].
  apply emits_bind; [|auto].
  apply isolateLoop_emits; [apply ensureMay_clearClosed|]. by apply Forall_take, Forall_drop.
Qed.
End Ensure.

(** The zone read at the start of a call: one request, and nothing is changed. *)
Lemma getPDNSZoneRRSets_spec zone :
  spec (getPDNSZoneRRSets server json_zone zone) (λ tr r evs,
    evs = [Sent (GetZoneRequest zone)] ∧ r = (getPDNSZoneRRSets server json_zone zone tr).1).
Proof.
  intros tr. exists [Sent (GetZoneRequest zone)]. split; [|done].
  unfold getPDNSZoneRRSets, mbind, Io_bind, Do, freshId.
  destruct (server _) as [text|status body]; [done|]. by repeat case_match.
Qed.

Lemma EnsureRecordSet_read clock zone rs tr :
  EnsureRecordSet server json_zone json_error clock zone rs tr =
  match (getPDNSZoneRRSets server json_zone zone tr).1 with
  | Err e => (([], Some e), tr ++ [Sent (GetZoneRequest zone)])
  | Ok existing =>
      ensureApply server json_error clock zone rs existing (tr ++ [Sent (GetZoneRequest zone)])
  end.
Proof.
  destruct (getPDNSZoneRRSets_spec zone tr) as (evs0 & E0 & -> & _).
  unfold EnsureRecordSet, mbind, Io_bind.
  destruct (getPDNSZoneRRSets server json_zone zone tr) as [r tr1]. cbn in E0. subst tr1.
  by destruct r.
Qed.

Lemma ensureApply_emits clock zone rs existing :
  emits (patchOnly zone (ensureMay zone rs existing))
    (ensureApply server json_error clock zone rs existing).
Proof.
  unfold ensureApply.
  destruct (ensurePlan clock zone rs existing) as [[st changes] deletes] eqn:Hplan.
  apply ensurePlan_may in Hplan as (_ & Hch & Hdel).
  apply emits_bind; [by apply applyReplaces_emits|]. intros acc. apply emits_bind.
  - apply applyDeletes_emits; [apply ensureMay_clearClosed|by apply chunk_Forall].
  - auto with iodb.
Qed.

(** C8. A record set touches only what is its own.  Whatever PowerDNS answers,
    [EnsureRecordSet] reads the zone once and then sends patches of that zone only,
    in which every change either replaces an RRset of the record set's own type at
    a name it lists, or deletes (or clears the comments of) an RRset that, by the
    zone just read, this record set wrote.  A failed read changes nothing. *)
Theorem EnsureRecordSet_safe clock zone rs tr :
  ∃ evs, (EnsureRecordSet server json_zone json_error clock zone rs tr).2 =
           tr ++ Sent (GetZoneRequest zone) :: evs ∧
    match (getPDNSZoneRRSets server json_zone zone tr).1 with
    | Err _ => evs = []
    | Ok existing => Forall (patchOnly zone (ensureMay zone rs existing)) evs
    end.
Proof.
  rewrite EnsureRecordSet_read. destruct (getPDNSZoneRRSets _ _ _ _).1 as [existing|e];
    [|by exists []].
  destruct (ensureApply_emits clock zone rs existing (tr ++ [Sent (GetZoneRequest zone)]))
    as (evs & E & HF). exists evs. by rewrite E, <- app_assoc.
Qed.

(** ** Isolating refusals *)

(** A patch of [zone] with these changes is among the events and was accepted. *)
Definition appliedIn (zone : gostring) (tr evs : list event) (patch : list rrset) : Prop :=
  ∃ evs1 ev evs2, evs = evs1 ++ ev :: evs2 ∧ patchSent zone patch ev ∧
    accepted (tr ++ evs1 ++ [ev]) = true.

Lemma appliedIn_app_r zone tr evs1 evs2 patch :
  appliedIn zone (tr ++ evs1) evs2 patch → appliedIn zone tr (evs1 ++ evs2) patch.
Proof.
  intros (l1 & ev & l2 & -> & Hs & Ha). exists (evs1 ++ l1), ev, l2.
  rewrite <- !app_assoc in *. done.
Qed.

Lemma appliedIn_app_l zone tr evs1 evs2 patch :
  appliedIn zone tr evs1 patch → appliedIn zone tr (evs1 ++ evs2) patch.
Proof.
  intros (l1 & ev & l2 & -> & Hs & Ha). exists l1, ev, (l2 ++ evs2).
  by rewrite <- app_assoc.
Qed.

(** Among the events is one call that sent [batch] and was answered with [r]. *)
Definition triedIn (zone : gostring) (tr evs : list event) (batch : list rrset) (r : option GoError) : Prop :=
  ∃ evs1 ev evs2, evs = evs1 ++ ev :: evs2 ∧
    applyRRSetPatch server zone batch (tr ++ evs1) = (r, tr ++ evs1 ++ [ev]).

Lemma triedIn_app_r zone tr evs1 evs2 batch r :
  triedIn zone (tr ++ evs1) evs2 batch r → triedIn zone tr (evs1 ++ evs2) batch r.
Proof.
  intros (l1 & ev & l2 & -> & E). exists (evs1 ++ l1), ev, l2. split; [by rewrite app_assoc|].
  rewrite <- !app_assoc in *. done.
Qed.

Lemma triedIn_head zone tr ev evs batch r :
  applyRRSetPatch server zone batch tr = (r, tr ++ [ev]) → triedIn zone tr (ev :: evs) batch r.
Proof. intros E. exists [], ev, evs. split; [done|]. by rewrite app_nil_r. Qed.

Lemma setErrs_length idxs e errs : length (setErrs idxs e errs) = length errs.
Proof.
  unfold setErrs. revert errs. induction idxs as [|i idxs IH]; intros errs; cbn; [done|].
  by rewrite IH, length_insert.
Qed.

Lemma setErrs_notin idxs e errs i : i ∉ idxs → setErrs idxs e errs !! i = errs !! i.
Proof.
  unfold setErrs. revert errs. induction idxs as [|j idxs IH]; intros errs Hi; cbn; [done|].
  apply not_elem_of_cons in Hi as [Hij Hi]. rewrite IH by done. by apply list_lookup_insert_ne.
Qed.

Lemma setErrs_in idxs e errs i :
  i ∈ idxs → i < length errs → setErrs idxs e errs !! i = Some (Some e).
Proof.
  induction idxs as [|j idxs IH] using rev_ind; intros Hi Hlt; [by apply not_elem_of_nil in Hi|].
  unfold setErrs. rewrite foldl_snoc. fold (setErrs idxs e errs).
  destruct (decide (j = i)) as [->|Hne].
  - apply list_lookup_insert_eq. by rewrite setErrs_length.
  - rewrite list_lookup_insert_ne by done. apply IH; [|done].
    apply elem_of_app in Hi as [?|?%list_elem_of_singleton]; [done|congruence].
Qed.

Section Isolate.
Context (zone : gostring) (changes : list (list rrset)).

(** The error names an RRset of the [i]-th change. *)
Definition hitBy (e : GoError) (i : nat) : bool :=
  refusedIn (changeAt changes i) (list_to_set (refusedRRSets json_error e)).

(** The [i]-th change failed with [e]: [e] answered the batch of some pending
    changes, [i] among them, and names [i], or names none of that batch. *)
Definition failedWith (tr evs : list event) (i : nat) (e : GoError) : Prop :=
  ∃ pend : list nat, i ∈ pend ∧ triedIn zone tr evs (pend ≫= changeAt changes) (Some e) ∧
    (hitBy e i = true ∨ ∀ j, j ∈ pend → hitBy e j = false).

(** What the loop has done about the changes [pending]. *)
Record isolated (errs : list (option GoError)) (pending : list nat)
    (tr : list event) (errs' : list (option GoError)) (evs : list event) : Prop := {
  iso_calls : length evs ≤ length pending;
  iso_length : length errs' = length errs;
  iso_other : ∀ i, i ∉ pending → errs' !! i = errs !! i;
  iso_ok : ∀ i, i ∈ pending → i < length errs → errs' !! i = Some None →
    ∃ batch, appliedIn zone tr evs batch ∧ changeAt changes i ⊆ batch;
  iso_err : ∀ i e, i ∈ pending → i < length errs → errs' !! i = Some (Some e) →
    errs !! i = Some None → failedWith tr evs i e;
}.

(** One round: what follows the answer [r] to the batch of all pending changes. *)
Definition roundPost (errs : list (option GoError)) (pending : list nat) (r : option GoError)
    (tr : list event) (errs' : list (option GoError)) (evs : list event) : Prop :=
  match r with
  | None => errs' = errs ∧ evs = []
  | Some e =>
      let kept := filter (λ i, hitBy e i = false) pending in
      if decide (length kept = length pending)
      then errs' = setErrs pending e errs ∧ evs = []
      else isolated (setErrs (filter (λ i, hitBy e i = true) pending) e errs) kept tr errs' evs
  end.

Lemma filter_length_eq {A} (P : A → Prop) `{∀ x, Decision (P x)} l x :
  length (filter P l) = length l → x ∈ l → P x.
Proof.
  intros Hlen Hin. apply dec_stable. intros Hn.
  pose proof (length_filter_lt P l x Hin Hn). lia.
Qed.

Lemma isolated_round errs pending tr r ev errs' evs :
  pending ≠ [] →
  applyRRSetPatch server zone (pending ≫= changeAt changes) tr = (r, tr ++ [ev]) →
  (r = None → appliedIn zone tr [ev] (pending ≫= changeAt changes)) →
  roundPost errs pending r (tr ++ [ev]) errs' evs →
  isolated errs pending tr errs' (ev :: evs).
Proof.
  intros Hne Hrun Hok. assert (1 ≤ length pending) by (destruct pending; [done|cbn; lia]).
  assert (∀ i, i ∈ pending → changeAt changes i ⊆ pending ≫= changeAt changes) as Hsub.
  { intros i Hi rr Hrr. apply list_elem_of_bind. eauto. }
  destruct r as [e|]; cbn; [case_decide as Hk|].
  - intros [-> ->]. split; cbn; [done|apply setErrs_length|apply setErrs_notin|..].
    + intros i Hi Hlt. by rewrite setErrs_in.
    + intros i e' Hi Hlt. rewrite setErrs_in by done. intros [= <-] _. exists pending.
      split_and!; [done|by apply triedIn_head|]. right. intros j Hj. by apply (filter_length_eq (λ i, hitBy e i = false) pending).
  - intros [Hcalls Hlen Hother HokI HerrI]. rewrite setErrs_length in *.
    assert (length (filter (λ i, hitBy e i = false) pending) ≤ length pending) by apply length_filter.
    assert (∀ i, i ∈ pending → hitBy e i = true → i < length errs → errs' !! i = Some (Some e)) as Hhit.
    { intros i Hi Hh Hlt. rewrite (Hother i) by (rewrite list_elem_of_filter; intros [? _]; congruence).
      apply setErrs_in; [by apply list_elem_of_filter|done]. }
    split; cbn; [lia|done|..].
    + intros i Hi. rewrite (Hother i) by (by rewrite list_elem_of_filter; intros [_ ?]).
      apply setErrs_notin. by rewrite list_elem_of_filter; intros [_ ?].
    + intros i Hi Hlt Hi'. destruct (hitBy e i) eqn:Hh; [by rewrite Hhit in Hi'|].
      destruct (HokI i) as (b & Hb & ?); [by apply list_elem_of_filter|done..|].
      exists b. split; [|done]. by apply (appliedIn_app_r _ _ [ev]).
    + intros i e' Hi Hlt Hi' Hi0. destruct (hitBy e i) eqn:Hh.
      { rewrite Hhit in Hi' by done. injection Hi' as <-. exists pending.
        split_and!; [done|by apply triedIn_head|by left]. }
      destruct (HerrI i e') as (pend & ? & Ht & ?); [by apply list_elem_of_filter|done..| |].
      * rewrite setErrs_notin; [done|]. rewrite list_elem_of_filter. intros [? _]. congruence.
      * exists pend. split_and!; [done| |done]. by apply (triedIn_app_r _ _ [ev]).
  - intros [-> ->]. split; cbn; [done..| |].
    + intros i Hi _ _. exists (pending ≫= changeAt changes). auto.
    + intros i e Hi _ E1 E2. congruence.
Qed.

Lemma isolateLoop_spec fuel errs pending :
  length pending ≤ fuel → Forall (λ i, changeAt changes i ≠ []) pending →
  spec (isolateLoop server json_error fuel zone changes errs pending) (isolated errs pending).
Proof.
  revert errs pending. induction fuel as [|fuel IH]; intros errs pending Hfuel Hne;
    (destruct pending as [|i0 pending'];
      [apply spec_ret; intros tr; split; try done; by intros * ?%not_elem_of_nil|]);
    [cbn in Hfuel; lia|].
  cbn [isolateLoop]. set (pending := i0 :: pending') in *.
  eapply (spec_bind _ _ _ (roundPost errs pending)); [apply spec_run, applyRRSetPatch_spec|..].
  - intros [e|]; [|by apply spec_ret]. unfold roundPost, hitBy.
    cbn zeta. case_decide as Hk; [by apply spec_ret|]. apply IH.
    + match goal with |- length ?k ≤ _ =>
        assert (length k ≤ length pending) by apply length_filter end. lia.
    + by apply Forall_filter_sub.
  - intros tr r evs1 errs' evs2 [H1 Hrun] H2. cbn in H1.
    destruct (changeAt changes i0 ++ _) as [|rr rest] eqn:Eb.
    { apply app_nil in Eb as [? _]. by apply Forall_cons in Hne as [? _]. }
    destruct H1 as (ev & -> & _ & Hok). apply isolated_round with r; [done..| |done].
    intros [Hs Ha]%Hok. exists [], ev, []. split_and!; [done| |done].
    unfold pending. cbn. by rewrite Eb.
Qed.
End Isolate.

(** What became of a change, by its entry in the errors. *)
Definition changeOutcome (zone : gostring) (changes : list (list rrset)) (tr evs : list event)
    (i : nat) (change : list rrset) (err : option (option GoError)) : Prop :=
  match err with
  | None => False
  | Some None => ∃ batch, appliedIn zone tr evs batch ∧ change ⊆ batch
  | Some (Some e) => failedWith zone changes tr evs i e
  end.

Lemma isolating_spec zone changes :
  Forall (λ change, change ≠ []) changes →
  spec (applyIsolatingRefusals server json_error zone changes) (λ tr errs evs,
    length evs ≤ length changes ∧ length errs = length changes ∧
    ∀ i change, changes !! i = Some change →
      changeOutcome zone changes tr evs i change (errs !! i)).
Proof.
  intros Hne. eapply spec_weaken; [apply isolateLoop_spec|].
  - by rewrite length_seq.
  - apply Forall_forall. intros i Hi%elem_of_seq. unfold changeAt.
    destruct (lookup_lt_is_Some_2 changes i) as [ch Hch]; [lia|]. rewrite Hch.
    rewrite Forall_lookup in Hne. by eapply Hne.
  - intros tr errs evs [Hcalls Hlen _ Hok Herr].
    rewrite length_seq, length_replicate in *. split_and!; [done..|].
    intros i change Hi. pose proof (lookup_lt_Some _ _ _ Hi) as Hlt.
    assert (i ∈ seq 0 (length changes)) as Hseq by (apply elem_of_seq; lia).
    destruct (errs !! i) as [[e|]|] eqn:Ei; cbn.
    + apply Herr; [done..|]. by apply lookup_replicate_2.
    + destruct (Hok i) as (b & Hb & Hsub); [done..|]. exists b. split; [done|].
      unfold changeAt in Hsub. by rewrite Hi in Hsub.
    + apply lookup_ge_None in Ei. lia.
Qed.

(** C10. [applyIsolatingRefusals] ends after at most one patch per change, whatever
    PowerDNS answers, and accounts for every change (none of them is empty): one reported without error was
    part of a patch PowerDNS accepted, whole; one reported with an error was part of
    a patch this very run tried and that ended in that very error (PowerDNS refused
    it, the call failed, or it could not be built), and the error names the change
    as refused, or names none of the changes that patch carried.  So a refusal that
    names changes holds back only those it names. *)
Theorem applyIsolatingRefusals_spec zone changes tr :
  Forall (λ change, change ≠ []) changes →
  let '(errs, tr') := applyIsolatingRefusals server json_error zone changes tr in
  ∃ evs, tr' = tr ++ evs ∧ length evs ≤ length changes ∧ length errs = length changes ∧
    ∀ i change, changes !! i = Some change →
      changeOutcome zone changes tr evs i change (errs !! i).
Proof.
  intros Hne. destruct (isolating_spec zone changes Hne tr) as (evs & E & Hpost).
  destruct (applyIsolatingRefusals _ _ _ _ tr) as [errs tr']. by exists evs.
Qed.

(** ** Statuses *)

(** The entry reports its owner as programmed. *)
Definition programmed (st : RecordSetStatus) : Prop :=
  ∃ c, c ∈ rss_Conditions st ∧ c_Status c = ConditionTrue.

Lemma keepTransitionTimes_spec statuses previous idx st :
  keepTransitionTimes statuses previous !! idx = Some st →
  ∃ st0, statuses !! idx = Some st0 ∧ rss_Name st = rss_Name st0 ∧
    (programmed st → programmed st0).
Proof.
  unfold keepTransitionTimes. rewrite list_lookup_fmap.
  intros (st0 & Hst0 & ->)%fmap_Some. exists st0. split; [done|].
  case_match; cbn; (split; [done|]); [|done].
  intros (c' & (c0 & -> & Hc0)%list_elem_of_fmap & Hc). exists c0. split; [done|].
  by case_decide.
Qed.

Section Statuses.
Context (clock : Clock) (zone : gostring) (rs : DNSRecordSet).
Context (existing : gmap rrsetKey zoneRRset).

Lemma not_programmed_False owner reason message :
  ¬ programmed (makeProgrammedStatus clock owner ConditionFalse reason message).
Proof. intros (c & ->%list_elem_of_singleton & ?). done. Qed.

(** An error leaves the names alone and the entry not programmed. *)
Lemma noteError_spec rr idx e acc :
  let acc' := noteError json_error clock zone rs existing rr idx e acc in
  rss_Name <$> acc'.1 = rss_Name <$> acc.1 ∧
  ∀ i st, acc'.1 !! i = Some st → programmed st → i ≠ idx ∧ acc.1 !! i = Some st.
Proof.
  destruct acc as [L T]. unfold noteError. cbn [fst].
  set (owner := default [] (rss_Name <$> L !! idx)).
  set (st' := if refuses _ _ _ then _ else _).
  assert (rss_Name st' = owner ∧ ¬ programmed st') as [Hn Hp].
  { unfold st'. destruct (refuses _ _ _); split; done || apply not_programmed_False. }
  split.
  - rewrite list_fmap_insert. destruct (L !! idx) as [s|] eqn:E.
    + apply list_insert_id. by rewrite list_lookup_fmap, E, Hn.
    + apply list_insert_ge. rewrite length_fmap. by apply lookup_ge_None.
  - intros i st [(-> & <- & _)|[Hne Hi]]%list_lookup_insert_Some Hst; [done|]. done.
Qed.

Lemma noteErrors_spec results acc :
  let acc' := noteErrors json_error clock zone rs existing results acc in
  rss_Name <$> acc'.1 = rss_Name <$> acc.1 ∧
  ∀ i st, acc'.1 !! i = Some st → programmed st →
    acc.1 !! i = Some st ∧ ∀ rr e, (rr, i, Some e) ∉ results.
Proof.
  cbn zeta. revert acc. induction results as [|[[rr idx] [e|]] results IH]; intros acc; cbn.
  - split; [done|]. intros i st Hi _. split; [done|]. intros ?? []%not_elem_of_nil.
  - destruct (IH (noteError json_error clock zone rs existing rr idx e acc)) as [Hn Hp].
    destruct (noteError_spec rr idx e acc) as [Hn' Hp']. split; [by rewrite <- Hn'|].
    intros i st Hi Hst. destruct (Hp i st Hi Hst) as [Hi1 Hno].
    destruct (Hp' i st Hi1 Hst) as [Hne Hi2]. split; [done|].
    intros rr' e' [[= -> -> ->]|?]%elem_of_cons; [done|by eapply Hno].
  - destruct (IH acc) as [Hn Hp]. split; [done|]. intros i st Hi Hst.
    destruct (Hp i st Hi Hst) as [Hi1 Hno]. split; [done|].
    intros rr' e' [[=]|?]%elem_of_cons. by eapply Hno.
Qed.

(** The part of a list a chunk covers. *)
Definition window {A} (ck : rrsetChunk) (l : list A) : list A :=
  take (ck_end ck - ck_start ck) (drop (ck_start ck) l).

Lemma window_lookup {A} ck (l : list A) j :
  ck_start ck ≤ j < ck_end ck → window ck l !! (j - ck_start ck) = l !! j.
Proof.
  intros Hj. unfold window. rewrite lookup_take_lt, lookup_drop by lia. f_equal. lia.
Qed.

Lemma window_length {A B} ck (l : list A) (k : list B) :
  length l = length k → length (window ck l) = length (window ck k).
Proof. intros E. unfold window. by rewrite !length_take, !length_drop, E. Qed.

Lemma applyReplaces_spec replaces changes rst chunks acc :
  length changes = length replaces → length rst = length replaces →
  Forall (λ change, change ≠ []) changes →
  Forall (λ ck, ck_rrsets ck = window ck replaces) chunks →
  spec (applyReplaces server json_error clock zone rs existing changes rst chunks acc)
    (λ tr acc' evs,
      rss_Name <$> acc'.1 = rss_Name <$> acc.1 ∧
      ∀ idx st, acc'.1 !! idx = Some st → programmed st →
        acc.1 !! idx = Some st ∧
        ∀ ck i change, ck ∈ chunks → window ck rst !! i = Some idx →
          window ck changes !! i = Some change →
          ∃ batch, appliedIn zone tr evs batch ∧ change ⊆ batch).
Proof.
  intros Hlc Hlr Hne Hck. revert acc.
  induction Hck as [|ck chunks Hck Hcks IH]; intros acc; cbn [applyReplaces].
  { apply spec_ret. intros tr. split; [done|]. intros idx st Hst _. split; [done|].
    intros ck i change []%not_elem_of_nil. }
  eapply spec_bind; [apply isolating_spec, Forall_take, Forall_drop, Hne| |].
  { intros errs. apply IH. }
  cbn beta. fold (window ck changes). fold (window ck rst).
  intros tr errs evs1 acc' evs2 (_ & Hlen & Hout) [Hn Hp].
  set (results := zip (zip (ck_rrsets ck) (window ck rst)) errs) in *.
  destruct (noteErrors_spec results acc) as [Hn' Hp']. split; [by rewrite <- Hn'|].
  intros idx st Hst Hprog. destruct (Hp idx st Hst Hprog) as [Hst1 Hrest].
  destruct (Hp' idx st Hst1 Hprog) as [Hst0 Hno]. split; [done|].
  intros ck' i change [->|Hin]%elem_of_cons Hidx Hchange.
  - specialize (Hout i change Hchange).
    destruct (errs !! i) as [[e|]|] eqn:Ei; cbn in Hout; [exfalso| |done].
    + destruct (lookup_lt_is_Some_2 (ck_rrsets ck) i) as [rr Hrr].
      { rewrite Hck, (window_length ck replaces rst) by done. by eapply lookup_lt_Some. }
      apply (Hno rr e). unfold results. apply list_elem_of_lookup_2 with i.
      rewrite lookup_zip_with, lookup_zip_with, Hrr, Hidx, Ei. done.
    + destruct Hout as (b & Hb & Hsub). exists b. split; [by apply appliedIn_app_l|done].
  - destruct (Hrest ck' i change) as (b & Hb & Hsub); [done..|]. exists b.
    split; [by apply appliedIn_app_r|done].
Qed.

(** The key of the RRset an owner name denotes for this record set. *)
Definition ownKey (owner : gostring) : rrsetKey :=
  (Qualify owner zone, RRTypeString (rs_RecordType rs)).

(** PowerDNS already holds the RRset as this generation of the object wrote it. *)
Definition settled (owner : gostring) : Prop :=
  ∃ current, existing !! ownKey owner = Some current ∧ rrsetMatchesObject current rs = true.

(** The invariant of the owner loop of [EnsureRecordSet] after [owners]. *)
Record planned (owners : list gostring) (st : ensureState) : Prop := {
  pl_names : rss_Name <$> es_statusList st = owners;
  pl_length : length (es_replacedStatus st) = length (es_replaces st);
  pl_replace : ∀ j rr idx, es_replaces st !! j = Some rr → es_replacedStatus st !! j = Some idx →
    isDelete rr = false ∧ ∃ owner, owners !! idx = Some owner ∧ (rr_Name rr, rr_Type rr) = ownKey owner;
  pl_programmed : ∀ idx s, es_statusList st !! idx = Some s → programmed s →
    settled (rss_Name s) ∨ idx ∈ es_replacedStatus st;
}.

Lemma recordSetSuccessStatus_name owner current :
  rss_Name (recordSetSuccessStatus clock owner current) = owner.
Proof.
  unfold recordSetSuccessStatus. destruct (list_find _ _) as [[i st]|] eqn:E; [|done].
  apply list_find_Some in E as (_ & Hn & _). by repeat case_match.
Qed.

Lemma planned_init :
  planned [] {| es_statusList := []; es_desired := ∅; es_replaces := []; es_replacedStatus := [] |}.
Proof. split; done. Qed.

(** An owner that adds an entry but no replace. *)
Lemma planned_status owners st owner s desired :
  planned owners st → rss_Name s = owner → (programmed s → settled owner) →
  planned (owners ++ [owner])
    {| es_statusList := es_statusList st ++ [s]; es_desired := desired;
       es_replaces := es_replaces st; es_replacedStatus := es_replacedStatus st |}.
Proof.
  intros [Hn Hl Hr Hp] Hs Hprog. split; cbn.
  - by rewrite fmap_app, Hn; cbn; rewrite Hs.
  - done.
  - intros j rr idx Hj Hidx. destruct (Hr j rr idx Hj Hidx) as (? & o & Ho & ?).
    split; [done|]. exists o. split; [by apply lookup_app_l_Some|done].
  - intros idx s' [Hin|[_ Hin]]%lookup_app_Some Hs'; [eauto|].
    apply list_lookup_singleton_Some in Hin as [_ <-]. left. rewrite Hs. auto.
Qed.

Lemma planned_replace owners st owner s rr desired :
  planned owners st → rss_Name s = owner → isDelete rr = false →
  (rr_Name rr, rr_Type rr) = ownKey owner →
  planned (owners ++ [owner])
    {| es_statusList := es_statusList st ++ [s]; es_desired := desired;
       es_replaces := es_replaces st ++ [rr];
       es_replacedStatus := es_replacedStatus st ++ [length (es_statusList st)] |}.
Proof.
  intros [Hn Hl Hr Hp] Hs Hdel Hkey.
  assert (length owners = length (es_statusList st)) as Hlen by (by rewrite <- Hn, length_fmap).
  split; cbn.
  - by rewrite fmap_app, Hn; cbn; rewrite Hs.
  - by rewrite !length_app, Hl.
  - intros j rr' idx [Hj|[Hge Hj]]%lookup_app_Some Hidx.
    + rewrite lookup_app_l in Hidx by (rewrite Hl; by eapply lookup_lt_Some).
      destruct (Hr j rr' idx Hj Hidx) as (? & o & Ho & ?).
      split; [done|]. exists o. split; [by apply lookup_app_l_Some|done].
    + apply list_lookup_singleton_Some in Hj as [Hj0 <-].
      rewrite lookup_app_r in Hidx by lia. rewrite Hl, Hj0 in Hidx. cbn in Hidx.
      injection Hidx as <-. split; [done|]. exists owner.
      by rewrite lookup_app_r, Hlen, Nat.sub_diag by lia.
  - intros idx s' [Hin|[Hge Hin]]%lookup_app_Some Hs'; setoid_rewrite elem_of_app.
    + destruct (Hp idx s' Hin Hs'); auto.
    + apply list_lookup_singleton_Some in Hin as [Hi0 _]. right. right.
      apply list_elem_of_singleton. lia.
Qed.

Lemma planned_step m owners st owner :
  planned owners st → planned (owners ++ [owner]) (ensureOwner clock zone rs existing m st owner).
Proof.
  intros Hpl. unfold ensureOwner. destruct (BuildOwnerRRSet _ _ _ _ _) as [o|]; cbn zeta.
  - destruct (existing !! _) as [current|] eqn:Ef;
      [destruct (rrsetMatchesObject current rs) eqn:Em|].
    + apply planned_status; [done|apply recordSetSuccessStatus_name|].
      intros _. by exists current.
    + by apply planned_replace.
    + by apply planned_replace.
  - apply planned_status; [done..|]. by intros ?%not_programmed_False.
Qed.

Lemma planned_foldl m owners :
  planned owners (foldl (ensureOwner clock zone rs existing m)
    {| es_statusList := []; es_desired := ∅; es_replaces := []; es_replacedStatus := [] |} owners).
Proof.
  induction owners as [|o owners IH] using rev_ind; [apply planned_init|].
  rewrite foldl_snoc. by apply planned_step.
Qed.

(** The replace of an owner went out in an accepted patch. *)
Definition replacedFor (tr evs : list event) (owner : gostring) : Prop :=
  ∃ batch rr, appliedIn zone tr evs batch ∧ rr ∈ batch ∧ isDelete rr = false ∧
    (rr_Name rr, rr_Type rr) = ownKey owner.

Lemma applyReplaces_sound owners st changes surplus rest :
  planned owners st → pairDeletes (es_replaces st) surplus = (changes, rest) →
  spec (applyReplaces server json_error clock zone rs existing changes (es_replacedStatus st)
          (chunkRRSets (es_replaces st)) (es_statusList st, []))
    (λ tr acc evs, rss_Name <$> acc.1 = owners ∧
      ∀ idx s, acc.1 !! idx = Some s → programmed s →
        settled (rss_Name s) ∨ replacedFor tr evs (rss_Name s)).
Proof.
  intros [Hn Hl Hr Hp] Hpair.
  destruct (paired_pairDeletes (es_replaces st) surplus) as [Hlen Hat _ _].
  rewrite Hpair in Hlen, Hat. cbn in Hlen, Hat.
  eapply spec_weaken; [apply (applyReplaces_spec (es_replaces st)); try done|].
  - apply Forall_lookup. intros i ch Hi.
    destruct (lookup_lt_is_Some_2 (es_replaces st) i) as [rr Hrr].
    { rewrite <- Hlen. by eapply lookup_lt_Some. }
    destruct (Hat i rr Hrr) as (ds & Hds & _). by simplify_eq.
  - destruct (chunkFrom_spec (length (es_replaces st)) 0 (es_replaces st)) as [_ HF]; [done|].
    eapply Forall_impl; [done|]. cbn. intros ck (_ & _ & _ & Hck). by rewrite Nat.sub_0_r in Hck.
  - cbn. intros tr acc evs [Hnames Hst]. split; [by rewrite Hnames|].
    intros idx s Hidx Hprog. destruct (Hst idx s Hidx Hprog) as [Hs0 Happ].
    destruct (Hp idx s Hs0 Hprog) as [|(j & Hj)%list_elem_of_lookup]; [by left|right].
    destruct (lookup_lt_is_Some_2 (es_replaces st) j) as [rr Hrr].
    { rewrite <- Hl. by eapply lookup_lt_Some. }
    destruct (Hat j rr Hrr) as (ds & Hds & _). destruct (Hr j rr idx Hrr Hj) as (Hd & o & Ho & Hkey).
    destruct (chunkFrom_cover (length (es_replaces st)) 0 (es_replaces st) j) as (ck & Hck & Hin).
    { done. } { split; [lia|]. by eapply lookup_lt_Some. }
    destruct (Happ ck (j - ck_start ck) (rr :: ds) Hck) as (b & Hb & Hsub).
    + by rewrite window_lookup.
    + by rewrite window_lookup.
    + exists b, rr. split_and!; [done|apply Hsub; apply elem_of_cons; by left|done|].
      rewrite Hkey. f_equal. assert (owners !! idx = Some (rss_Name s)) as E
        by (by rewrite <- Hn, list_lookup_fmap, Hs0). congruence.
Qed.
End Statuses.

Lemma groupByName_keys records :
  (map_range (groupByName records)).*1 ≡ₚ remove_dups (re_Name <$> records).
Proof.
  rewrite map_range_perm. apply NoDup_Permutation.
  - apply NoDup_fst_map_to_list.
  - apply NoDup_remove_dups.
  - intros n. rewrite elem_of_remove_dups, !list_elem_of_fmap. split.
    + intros ([n' es] & -> & Hes%elem_of_map_to_list). cbn.
      apply groupByName_lookup in Hes as [Hne HF]. destruct HF as [|e es [Hin Hn]]; [done|].
      by exists e.
    + intros (e & -> & Hin). cut (is_Some (groupByName records !! re_Name e)).
      { intros [es Hes]. exists (re_Name e, es). split; [done|]. by apply elem_of_map_to_list. }
      unfold groupByName. induction records as [|e' records IH] using rev_ind;
        [by apply not_elem_of_nil in Hin|].
      rewrite foldl_snoc. destruct (decide (re_Name e' = re_Name e)) as [->|Hne].
      { rewrite lookup_insert_eq. by eexists. }
      rewrite lookup_insert_ne by done. apply IH.
      apply elem_of_app in Hin as [?|<-%list_elem_of_singleton]; done.
Qed.

Lemma ensureApply_sound clock zone rs existing :
  spec (ensureApply server json_error clock zone rs existing) (λ tr r evs,
    rss_Name <$> r.1 = sortStrings (remove_dups (re_Name <$> rs_Records rs)) ∧
    Forall (λ st, programmed st → settled zone rs existing (rss_Name st) ∨
              replacedFor zone rs tr evs (rss_Name st)) r.1).
Proof.
  unfold ensureApply, ensurePlan. cbn zeta.
  set (owners := sortStrings (map_range (groupByName (rs_Records rs))).*1).
  pose proof (planned_foldl clock zone rs existing (groupByName (rs_Records rs)) owners) as Hpl.
  set (st := foldl _ _ owners) in *. set (surplus := _ <$> ownedSurplus _ _ _ _).
  destruct (pairDeletes (es_replaces st) surplus) as [changes deletes] eqn:Hpair.
  eapply (spec_bind _ _ _ (λ acc tr r evs,
    r.1 = keepTransitionTimes acc.1 (rs_RecordSets rs)));
    [by eapply applyReplaces_sound|..].
  - intros acc. eapply (spec_bind _ _ _ (λ _ _ r _,
        r.1 = keepTransitionTimes acc.1 (rs_RecordSets rs)));
      [apply (applyDeletes_emits zone (λ _, True)); [done|]|intros u; by apply spec_ret|done].
    apply Forall_true. intros ck. by apply Forall_true.
  - cbn. intros tr acc evs1 r evs2 [Hn Hs] ->. split.
    + rewrite <- groupByName_keys. fold owners. rewrite <- Hn.
      unfold keepTransitionTimes. rewrite <- list_fmap_compose. apply list_fmap_ext.
      intros i s _. cbn. by case_match.
    + apply Forall_lookup. intros idx s Hlk Hp.
      apply keepTransitionTimes_spec in Hlk as (s0 & Hs0 & Hname & Hprog).
      rewrite Hname. destruct (Hs idx s0 Hs0 (Hprog Hp)) as [|(b & rr & Hb & ?)]; [by left|right].
      exists b, rr. split; [by apply appliedIn_app_l|done].
Qed.

(** C9. A status is not reported programmed unless it is.  [EnsureRecordSet] returns
    one entry per owner name the record set lists, in name order; and an entry with
    a true condition is one whose RRset, by the zone read, already carries the
    metadata of this generation of the object, or whose replace was part of a patch
    that PowerDNS accepted during the call. *)
Theorem EnsureRecordSet_status clock zone rs tr :
  let '(statuses, err, tr') := EnsureRecordSet server json_zone json_error clock zone rs tr in
  let read := Sent (GetZoneRequest zone) in
  match (getPDNSZoneRRSets server json_zone zone tr).1 with
  | Err e => statuses = [] ∧ err = Some e ∧ tr' = tr ++ [read]
  | Ok existing =>
      ∃ evs, tr' = (tr ++ [read]) ++ evs ∧
      rss_Name <$> statuses = sortStrings (remove_dups (re_Name <$> rs_Records rs)) ∧
      Forall (λ st, programmed st →
        settled zone rs existing (rss_Name st) ∨
        replacedFor zone rs (tr ++ [read]) evs (rss_Name st)) statuses
  end.
Proof.
  rewrite EnsureRecordSet_read. destruct (getPDNSZoneRRSets _ _ _ _).1 as [existing|e]; [|done].
  destruct (ensureApply_sound clock zone rs existing (tr ++ [Sent (GetZoneRequest zone)]))
    as (evs & E & HF). destruct (ensureApply _ _ _ _ _ _ _) as [[statuses err] tr'].
  by exists evs.
Qed.

(** ** Deleting a record set *)

Lemma applyChunks_applied zone chunks :
  spec (applyChunks server zone chunks) (λ tr r evs,
    r = None → ∀ ck, ck ∈ chunks → ck_rrsets ck ≠ [] → appliedIn zone tr evs (ck_rrsets ck)).
Proof.
  induction chunks as [|ck chunks IH]; cbn [applyChunks].
  { apply spec_ret. intros tr _ ck []%not_elem_of_nil. }
  eapply (spec_bind _ _ _ (λ r1 tr r evs, r = None → r1 = None ∧
    ∀ ck, ck ∈ chunks → ck_rrsets ck ≠ [] → appliedIn zone tr evs (ck_rrsets ck)));
    [apply applyRRSetPatch_spec|..].
  - intros [e|]; [by apply spec_ret|]. eapply spec_weaken; [apply IH|]. auto.
  - cbn. intros tr r1 evs1 r evs2 H1 H2 ->. destruct (H2 eq_refl) as [-> Hrest].
    intros ck' [->|Hin]%elem_of_cons Hne; [|by apply appliedIn_app_r, Hrest].
    destruct (ck_rrsets ck) as [|rr l]; [done|]. destruct H1 as (ev & -> & _ & Hok).
    destruct (Hok eq_refl) as [Hs Ha]. apply appliedIn_app_l. by exists [], ev, [].
Qed.

(** Every change of a list was applied when its chunks were. *)
Lemma chunks_applied zone tr evs l rr :
  (∀ ck, ck ∈ chunkRRSets l → ck_rrsets ck ≠ [] → appliedIn zone tr evs (ck_rrsets ck)) →
  rr ∈ l → ∃ batch, appliedIn zone tr evs batch ∧ rr ∈ batch.
Proof.
  intros Hck Hin. destruct (chunkFrom_spec (length l) 0 l) as [Hj _]; [done|].
  rewrite <- Hj in Hin. apply list_elem_of_join in Hin as (b & Hrr & Hb).
  apply list_elem_of_fmap in Hb as (ck & -> & Hin). exists (ck_rrsets ck). split; [|done].
  apply Hck; [done|]. intros E. rewrite E in Hrr. by apply not_elem_of_nil in Hrr.
Qed.

Section Delete.
Context (zone : gostring) (rs : DNSRecordSet) (existing : gmap rrsetKey zoneRRset).

(** A change the deletion of a record set may ask for: to delete, or clear the comments
    of, an RRset of the zone that it wrote, or that nobody claims and it lists. *)
Definition deleteMay (rr : rrset) : Prop :=
  isDelete rr || rr_commentsOnly rr = true ∧
  ∃ current, existing !! (rr_Name rr, rr_Type rr) = Some current ∧
    (rrsetOwnerRef current = recordSetOwnerRef rs ∨
     rrsetOwnerRef current = [] ∧ rr_Type rr = RRTypeString (rs_RecordType rs) ∧
       ∃ e, e ∈ rs_Records rs ∧ rr_Name rr = Qualify (re_Name e) zone).

Lemma deleteMay_clearClosed : clearClosed deleteMay.
Proof. intros rr [_ Hrr] Hd. split; [done|]. exact Hrr. Qed.

Lemma deleteTargets_may :
  Forall (λ key : rrsetKey, deleteMay (newDeleteRRSet key.1 key.2))
    (elements (deleteTargets zone rs existing)).
Proof.
  apply Forall_forall. intros [n t]. rewrite elem_of_elements. unfold deleteTargets.
  intros [Hs%elem_of_list_to_set|Hn]%elem_of_union; (split; [done|]).
  { apply ownedSurplus_owned in Hs as (current & Hc & Ho). exists current. auto. }
  revert Hn. cbn [newDeleteRRSet rr_Name rr_Type].
  assert (∀ e, e ∈ rs_Records rs → e ∈ rs_Records rs) as Hsub by done. revert Hsub.
  generalize (rs_Records rs) at 1 3. intros records Hsub Hn.
  induction records as [|e records IH] using rev_ind; [by apply elem_of_empty in Hn|].
  rewrite foldl_snoc in Hn. cbn zeta in Hn.
  assert (∀ e', e' ∈ records → e' ∈ rs_Records rs) as Hsub'
    by (intros e' ?; apply Hsub, elem_of_app; by left).
  destruct (existing !! _) as [current|] eqn:E; [|auto].
  destruct (decide (rrsetOwnerRef current ≠ [] ∧ _)) as [|Hown]; [auto|].
  apply elem_of_union in Hn as [Hn%elem_of_singleton|]; [|auto]. injection Hn as -> ->.
  exists current. split; [done|].
  destruct (decide (rrsetOwnerRef current = recordSetOwnerRef rs)); [by left|right].
  split_and!; [apply dec_stable; tauto|done|]. exists e. split; [|done].
  apply Hsub, elem_of_app. right. by apply list_elem_of_singleton.
Qed.
End Delete.

Lemma gset_range {A} `{Countable A} (X : gset A) :
  (map_range (gset_to_gmap tt X)).*1 ≡ₚ elements X.
Proof.
  rewrite map_range_perm. apply NoDup_Permutation.
  - apply NoDup_fst_map_to_list.
  - apply NoDup_elements.
  - intros x. rewrite elem_of_elements, list_elem_of_fmap. split.
    + by intros ([x' []] & -> & [Hx _]%elem_of_map_to_list%lookup_gset_to_gmap_Some).
    + intros Hx. exists (x, tt). split; [done|].
      by apply elem_of_map_to_list, lookup_gset_to_gmap_Some.
Qed.

(** The deletes [DeleteRecordSet] sends. *)
Definition recordSetDeletes (zone : gostring) (rs : DNSRecordSet)
    (existing : gmap rrsetKey zoneRRset) : list rrset :=
  (λ key : rrsetKey, newDeleteRRSet key.1 key.2) <$>
    (map_range (gset_to_gmap tt (deleteTargets zone rs existing))).*1.

Lemma DeleteRecordSet_read zone rs tr :
  let tr1 := tr ++ [Sent (GetZoneRequest zone)] in
  DeleteRecordSet server json_zone zone rs tr =
  match (getPDNSZoneRRSets server json_zone zone tr).1 with
  | Err e => (if isZoneNotFound e then None else Some e, tr1)
  | Ok existing =>
      applyChunks server zone (chunkRRSets (sortRRSets (recordSetDeletes zone rs existing))) tr1
  end.
Proof.
  destruct (getPDNSZoneRRSets_spec zone tr) as (evs0 & E0 & -> & _).
  unfold DeleteRecordSet, mbind, Io_bind.
  destruct (getPDNSZoneRRSets server json_zone zone tr) as [r tr1]. cbn in E0. subst tr1.
  destruct r as [|e]; cbn; [done|]. by destruct (isZoneNotFound e).
Qed.

Lemma recordSetDeletes_may zone rs existing :
  Forall (deleteMay zone rs existing) (sortRRSets (recordSetDeletes zone rs existing)).
Proof.
  unfold sortRRSets, recordSetDeletes. rewrite sort_slice_perm, gset_range.
  apply Forall_fmap. apply deleteTargets_may.
Qed.

Lemma owned_targets zone rs existing key current :
  existing !! key = Some current → rrsetOwnerRef current = recordSetOwnerRef rs →
  key ∈ deleteTargets zone rs existing.
Proof.
  intros Hk Ho. unfold deleteTargets. apply elem_of_union_l, elem_of_list_to_set.
  apply list_elem_of_omap. exists (key, current). rewrite map_range_perm.
  split; [by apply elem_of_map_to_list|]. rewrite decide_False by tauto.
  rewrite decide_False; [done|]. by intros [?%elem_of_empty _].
Qed.

Lemma recordSetDeletes_applied zone rs existing tr :
  let calls := applyChunks server zone (chunkRRSets (sortRRSets (recordSetDeletes zone rs existing))) in
  (calls tr).1 = None →
  ∃ evs, (calls tr).2 = tr ++ evs ∧ ∀ key current, existing !! key = Some current →
    rrsetOwnerRef current = recordSetOwnerRef rs →
    ∃ batch, appliedIn zone tr evs batch ∧ newDeleteRRSet key.1 key.2 ∈ batch.
Proof.
  intros calls Hr. destruct (applyChunks_applied zone
    (chunkRRSets (sortRRSets (recordSetDeletes zone rs existing))) tr) as (evs & E & Hok).
  exists evs. split; [exact E|]. intros key current Hk Ho.
  eapply chunks_applied; [by apply Hok|]. unfold sortRRSets, recordSetDeletes.
  rewrite sort_slice_perm. apply list_elem_of_fmap. exists key. split; [done|].
  rewrite gset_range, elem_of_elements. by eapply owned_targets.
Qed.

(** C11. Deleting a record set removes what is its own, all of it and nothing else:
    every change it sends deletes (or clears the comments of) an RRset of the zone
    just read that this record set wrote, or that no record set claims and this one
    lists under its own type; and if it reports success, every RRset it wrote was
    deleted by a patch PowerDNS accepted.  A zone that is gone counts as success. *)
Theorem DeleteRecordSet_exact zone rs tr :
  let '(r, tr') := DeleteRecordSet server json_zone zone rs tr in
  let tr1 := tr ++ [Sent (GetZoneRequest zone)] in
  match (getPDNSZoneRRSets server json_zone zone tr).1 with
  | Err e => tr' = tr1 ∧ r = if isZoneNotFound e then None else Some e
  | Ok existing =>
      ∃ evs, tr' = tr1 ++ evs ∧ Forall (patchOnly zone (deleteMay zone rs existing)) evs ∧
      (r = None → ∀ key current, existing !! key = Some current →
         rrsetOwnerRef current = recordSetOwnerRef rs →
         ∃ batch, appliedIn zone tr1 evs batch ∧ newDeleteRRSet key.1 key.2 ∈ batch)
  end.
Proof.
  rewrite DeleteRecordSet_read. cbn zeta. set (tr1 := tr ++ _).
  destruct (getPDNSZoneRRSets _ _ _ _).1 as [existing|e]; [|done].
  set (deletes := sortRRSets (recordSetDeletes zone rs existing)).
  destruct (applyChunks_emits zone (deleteMay zone rs existing) (chunkRRSets deletes))
    with (tr := tr1) as (evs & E & HF);
    [apply deleteMay_clearClosed|by apply chunk_Forall, recordSetDeletes_may|].
  pose proof (recordSetDeletes_applied zone rs existing tr1) as Hok. cbn zeta in Hok. fold deletes in Hok.
  destruct (applyChunks _ _ _ _) as [r tr']. cbn in *. subst tr'.
  exists evs. split_and!; [done..|]. intros Hr. destruct (Hok Hr) as (evs' & E' & Hdel).
  by apply app_inv_head in E' as <-.
Qed.

(** ** Deleting a zone *)

Lemma clearZoneComments_applied zone :
  spec (clearZoneComments server json_zone zone) (λ tr r evs,
    let tr1 := tr ++ [Sent (GetZoneRequest zone)] in
    ∃ evs', evs = Sent (GetZoneRequest zone) :: evs' ∧
    (r = None →
      match (getPDNSZoneRRSets server json_zone zone tr).1 with
      | Err e => isZoneNotFound e = true
      | Ok existing => ∀ key current, existing !! key = Some current → commentsOf current ≠ [] →
          ∃ batch, appliedIn zone tr1 evs' batch ∧
            commentsOnlyReplace (zr_Name current) (zr_Type current) ∈ batch
      end)).
Proof.
  eapply (spec_bind _ _ _ (λ r1 tr r evs, r = None → match r1 with
    | Err e => isZoneNotFound e = true
    | Ok existing => ∀ key current, existing !! key = Some current → commentsOf current ≠ [] →
        ∃ batch, appliedIn zone tr evs batch ∧
          commentsOnlyReplace (zr_Name current) (zr_Type current) ∈ batch
    end)); [apply getPDNSZoneRRSets_spec|..].
  - intros [existing|e]; [|destruct (isZoneNotFound e); by apply spec_ret].
    eapply spec_weaken; [apply applyChunks_applied|]. cbn. intros tr r evs Hok Hr key current Hk Hc.
    eapply chunks_applied; [by apply Hok|]. unfold sortRRSets. rewrite sort_slice_perm.
    apply list_elem_of_omap. exists (key, current). rewrite map_range_perm.
    split; [by apply elem_of_map_to_list|]. by destruct (commentsOf current).
  - cbn. intros tr r1 evs1 r evs2 [-> ->] H2. by exists evs2.
Qed.

Lemma clearZoneComments_emits zone :
  emits (λ ev, ev ≠ Sent (DeleteZoneRequest zone)) (clearZoneComments server json_zone zone).
Proof.
  apply emits_bind.
  - eapply spec_weaken; [apply getPDNSZoneRRSets_spec|]. intros tr r evs [-> _].
    by apply Forall_singleton.
  - intros [existing|e]; [|destruct (isZoneNotFound e); apply emits_ret].
    eapply spec_weaken; [apply (applyChunks_emits zone (λ _, True)); [done|]|].
    + apply Forall_true. intros ck. by apply Forall_true.
    + cbn. intros tr r evs HF. eapply Forall_impl; [done|]. by intros ev [(out & -> & _) | ->].
Qed.

(** A zone is deleted only once its comments are out of the way: the request that
    deletes it is sent only after PowerDNS has accepted, for every RRset the zone
    read shows with comments, the change that clears them (or has reported the
    zone gone). *)
Theorem DeleteZone_clears zone tr :
  let tr1 := tr ++ [Sent (GetZoneRequest zone)] in
  ∃ evs, (DeleteZone server json_zone zone tr).2 = tr ++ evs ∧
    (Sent (DeleteZoneRequest zone) ∈ evs →
      match (getPDNSZoneRRSets server json_zone zone tr).1 with
      | Err e => isZoneNotFound e = true
      | Ok existing => ∀ key current, existing !! key = Some current → commentsOf current ≠ [] →
          ∃ batch evs1 evs2,
            evs = Sent (GetZoneRequest zone) :: evs1 ++ Sent (DeleteZoneRequest zone) :: evs2 ∧
            appliedIn zone tr1 evs1 batch ∧
            commentsOnlyReplace (zr_Name current) (zr_Type current) ∈ batch
      end).
Proof.
  cbn zeta. unfold DeleteZone. case_decide as Hz.
  { exists []. rewrite app_nil_r. split; [done|]. by intros []%not_elem_of_nil. }
  destruct (clearZoneComments_applied zone tr) as (evs & E & evs' & -> & Hok).
  destruct (clearZoneComments_emits zone tr) as (evs2 & E2 & HF).
  rewrite E in E2. apply app_inv_head in E2 as <-.
  unfold mbind, Io_bind, Do, freshId, mret, Io_ret.
  destruct (clearZoneComments _ _ _ tr) as [[e|] tr2]; cbn in E, Hok |- *; subst tr2.
  - eexists. split; [done|]. intros Hin. rewrite Forall_forall in HF. by destruct (HF _ Hin).
  - exists (Sent (GetZoneRequest zone) :: evs' ++ [Sent (DeleteZoneRequest zone)]).
    split; [destruct (server _) as [|status body]; [|destruct (_ || _)]; cbn; by rewrite <- app_assoc|].
    intros _. specialize (Hok eq_refl). destruct (getPDNSZoneRRSets _ _ _ _).1; [|done].
    intros key current Hk Hc. destruct (Hok key current Hk Hc) as (b & Hb & Hin).
    by exists b, evs', [].
Qed.

(** ** A settled record set *)

Section Settled.
Context (clock : Clock) (zone : gostring) (rs : DNSRecordSet).
Context (existing : gmap rrsetKey zoneRRset).

Lemma ensureOwner_settled st o :
  is_Some (groupByName (rs_Records rs) !! o) → settled zone rs existing o →
  let st' := ensureOwner clock zone rs existing (groupByName (rs_Records rs)) st o in
  es_replaces st' = es_replaces st ∧ es_desired st' = {[Qualify o zone]} ∪ es_desired st.
Proof.
  intros [es Hes] (current & Hc & Hm). unfold ensureOwner. rewrite Hes. cbn [default].
  apply groupByName_lookup in Hes as [Hne Hes].
  rewrite BuildOwnerRRSet_Some;
    [|done|eapply Forall_impl; [exact Hes|by intros e [_ ?]]].
  change (existing !! (Qualify o zone, RRTypeString (rs_RecordType rs)) = Some current) in Hc.
  cbn zeta. by rewrite Hc, Hm.
Qed.

Lemma settled_foldl owners :
  Forall (λ o, is_Some (groupByName (rs_Records rs) !! o) ∧ settled zone rs existing o) owners →
  let st := foldl (ensureOwner clock zone rs existing (groupByName (rs_Records rs)))
    {| es_statusList := []; es_desired := ∅; es_replaces := []; es_replacedStatus := [] |} owners in
  es_replaces st = [] ∧ ∀ o, o ∈ owners → Qualify o zone ∈ es_desired st.
Proof.
  induction owners as [|o owners IH] using rev_ind; cbn zeta.
  { intros _. split; [done|]. by intros o []%not_elem_of_nil. }
  intros [HF [Ho Hset]%Forall_singleton]%Forall_app. destruct (IH HF) as [IH1 IH2].
  rewrite foldl_snoc.
  set (st := foldl _ _ owners) in *. destruct (ensureOwner_settled st o Ho Hset) as [-> ->].
  split; [done|]. intros o' [Hin|<-%list_elem_of_singleton]%elem_of_app.
  - apply elem_of_union_r. auto.
  - apply elem_of_union_l. by apply elem_of_singleton.
Qed.

(** No RRset of the zone that this record set wrote is left over. *)
Definition noSurplus : Prop :=
  ∀ key current, existing !! key = Some current →
    rrsetOwnerRef current = recordSetOwnerRef rs →
    key.2 = RRTypeString (rs_RecordType rs) ∧
    ∃ e, e ∈ rs_Records rs ∧ key.1 = Qualify (re_Name e) zone.

Lemma ensurePlan_settled :
  Forall (λ e, settled zone rs existing (re_Name e)) (rs_Records rs) → noSurplus →
  ∃ st, ensurePlan clock zone rs existing = (st, [], sortRRSets []) ∧ es_replaces st = [].
Proof.
  intros Hset Hsur. unfold ensurePlan. cbn zeta.
  set (owners := sortStrings (map_range (groupByName (rs_Records rs))).*1).
  assert (∀ o, o ∈ owners ↔ o ∈ re_Name <$> rs_Records rs) as Howners.
  { intros o. unfold owners. by rewrite sortStrings_perm, groupByName_keys, elem_of_remove_dups. }
  rewrite Forall_forall in Hset. destruct (settled_foldl owners) as [Hr Hd].
  { apply Forall_forall. intros o Ho. split.
    - pose proof (sortedKeys_dom (groupByName (rs_Records rs))) as HF.
      rewrite Forall_forall in HF. by apply HF.
    - apply Howners, list_elem_of_fmap in Ho as (e & -> & He). auto. }
  set (st := foldl _ _ owners) in *.
  assert (ownedSurplus existing (recordSetOwnerRef rs) (RRTypeString (rs_RecordType rs))
    (es_desired st) = []) as ->.
  { apply elem_of_nil_inv. intros key Hkey. apply list_elem_of_omap in Hkey as ([k c] & Hin & Hk).
    rewrite map_range_perm in Hin. apply elem_of_map_to_list in Hin.
    destruct (decide (rrsetOwnerRef c ≠ _)) as [|Ho]; [done|]. apply dec_stable in Ho.
    destruct (Hsur k c Hin Ho) as [Ht (e & He & Hn)]. rewrite decide_True in Hk; [done|].
    split; [|done]. rewrite Hn. apply Hd, Howners. by apply list_elem_of_fmap_2. }
  rewrite Hr. cbn. by exists st.
Qed.
End Settled.

(** A settled record set is left alone: when the zone read shows every RRset it
    lists as written by this generation of the object, and no other RRset as its own,
    [EnsureRecordSet] sends nothing after the read and reports no error. *)
Theorem EnsureRecordSet_settled clock zone rs tr existing :
  (getPDNSZoneRRSets server json_zone zone tr).1 = Ok existing →
  Forall (λ e, settled zone rs existing (re_Name e)) (rs_Records rs) →
  noSurplus zone rs existing →
  let '(statuses, err, tr') := EnsureRecordSet server json_zone json_error clock zone rs tr in
  tr' = tr ++ [Sent (GetZoneRequest zone)] ∧ err = None.
Proof.
  intros Hread Hset Hsur. rewrite EnsureRecordSet_read, Hread. unfold ensureApply.
  destruct (ensurePlan_settled clock zone rs existing Hset Hsur) as (st & -> & Hr).
  assert (sortRRSets [] = []) as ->.
  { apply Permutation_nil. symmetry. apply sort_slice_perm. }
  by rewrite Hr.
Qed.
End Safety.

(** * Witnesses: one record, and a server that serves it *)

#[local] Existing Instance reference_runtime.
#[local] Existing Instance reference_apimeta.

Definition exampleServer (evs : list event) : response :=
  match last evs with
  | Some (Sent (PatchZoneRequest _ _)) => Response 204 []
  | _ => Response 200 []
  end.

Definition exampleEntry : RecordEntry :=
  {| re_Name := "www"; re_TTL := None; re_A := Some {| Content := "192.0.2.1" |};
     re_AAAA := None; re_CNAME := None; re_ALIAS := None; re_NS := None; re_TXT := None;
     re_SOA := None; re_CAA := None; re_MX := None; re_SRV := None; re_TLSA := None;
     re_HTTPS := None; re_SVCB := None; re_PTR := None |}.

Definition exampleRecordSet : DNSRecordSet :=
  {| rs_Namespace := "ns"; rs_Name := "a"; rs_UID := "u1"; rs_Generation := 3;
     rs_CreationTimestamp := 0; rs_DeletionTimestamp := None; rs_Finalizers := [];
     rs_OwnerReferences := []; rs_DNSZoneRef := "z"; rs_RecordType := RRTypeA;
     rs_Records := [exampleEntry]; rs_Conditions := []; rs_RecordSets := [] |}.

Definition exampleClock : Clock :=
  {| metaNow := λ _ _, 7%Z; unixNow := λ _, 7%Z; today := λ _, "20240101" |}.

(** The RRset as PowerDNS holds it once the record set is programmed. *)
Definition exampleRRset : zoneRRset :=
  {| zr_Name := "www.example.com."; zr_Type := "A"; zr_TTL := 300;
     zr_Records := [liveRecord "192.0.2.1"];
     zr_Comments := Some (stampComments (ownerComments "ns:a" 3 "u1") [] 7) |}.

Lemma applyIsolatingRefusals_spec_witness :
  let changes := [[newDeleteRRSet "www.example.com." "A"]] in
  let '(errs, tr') := applyIsolatingRefusals exampleServer (λ _, None) "example.com" changes [] in
  errs = [None] ∧ ∃ evs, tr' = [] ++ evs ∧ length evs ≤ 1.
Proof.
  intros changes.
  pose proof (applyIsolatingRefusals_spec exampleServer (λ _, None) "example.com" changes []) as W.
  specialize (W ltac:(by apply Forall_singleton)).
  destruct (applyIsolatingRefusals exampleServer (λ _, None) "example.com" changes []) as [errs tr'] eqn:E.
  vm_compute in E. injection E as <- <-. split; [reflexivity|].
  destruct W as (evs & Htr & Hlen & _). exists evs. split; [exact Htr|exact Hlen].
Defined.

Lemma EnsureRecordSet_settled_witness :
  (EnsureRecordSet exampleServer (λ _, Ok [exampleRRset]) (λ _, None) exampleClock
     "example.com" exampleRecordSet []).2 = [Sent (GetZoneRequest "example.com")].
Proof.
  pose proof (EnsureRecordSet_settled exampleServer (λ _, Ok [exampleRRset]) (λ _, None)
    exampleClock "example.com" exampleRecordSet []
    {[("www.example.com.", "A") := exampleRRset]}) as W.
  specialize (W eq_refl).
  assert (Forall (λ e, settled "example.com" exampleRecordSet
    {[("www.example.com.", "A") := exampleRRset]} (re_Name e)) (rs_Records exampleRecordSet)) as W1.
  { apply Forall_singleton. exists exampleRRset. split; reflexivity. }
  assert (noSurplus "example.com" exampleRecordSet
    {[("www.example.com.", "A") := exampleRRset]}) as W2.
  { intros key current Hk _. apply lookup_singleton_Some in Hk as [<- _].
    split; [reflexivity|]. exists exampleEntry. split; [by apply list_elem_of_singleton|reflexivity]. }
  specialize (W W1 W2).
  destruct (EnsureRecordSet _ _ _ _ _ _ _) as [[statuses err] tr']. destruct W as [Wtr _]. exact Wtr.
Defined.

(** On an empty zone the same record set is written in one patch and programmed. *)
Lemma EnsureRecordSet_creates_example :
  let '(statuses, err, tr') := EnsureRecordSet exampleServer (λ _, Ok []) (λ _, None)
    exampleClock "example.com" exampleRecordSet [] in
  err = None ∧ length tr' = 2 ∧ Forall programmed statuses.
Proof.
  vm_compute. split_and!; [done..|]. constructor; [|done].
  eexists. split; [by apply list_elem_of_singleton|done].
Qed.
