(* ===== verification/CtlConditions.v ===== *)
(** Package [internal/controller], file [conditions.go], and the retry delays of
    [dnsrecordset_downstream_controller.go]: what the per-name statuses of a record set
    add up to, and when it is tried again.

    Times and durations are nanoseconds; the zero [time.Time] is the first of January of
    the year 1. *)

From S2P Require Import Prelude GoStrings Api ApiMeta PdnsClient.

(** * conditions.go *)

Definition CondAccepted : gostring := "Accepted".
Definition CondTargetResolved : gostring := "TargetResolved".
Definition ReasonAccepted : gostring := "Accepted".
Definition ReasonPending : gostring := "Pending".
Definition ReasonProgrammed : gostring := "Programmed".
Definition ReasonPDNSError : gostring := "PDNSError".
Definition ReasonTargetResolved : gostring := "TargetResolved".
Definition ReasonTargetUnresolved : gostring := "TargetUnresolved".
Definition ReasonTargetLookupFailed : gostring := "TargetLookupFailed".

Definition messageRecordsPending : gostring := "One or more records not yet programmed".
Definition maxBlockedRecordsInMessage : nat := 3.

Definition namesBlockingCause (reason : gostring) : bool :=
  negb (bool_decide (reason = [] ∨ reason = ReasonPending ∨ reason = ReasonProgrammed)).

Definition blockedRecordDetail (name : gostring) (cond : Condition) : gostring :=
  if decide (c_Message cond = []) then name ++ ": " ++ c_Reason cond
  else name ++ ": " ++ c_Message cond.

Definition joinBlockedDetails (details : list gostring) : gostring :=
  if length details <=? maxBlockedRecordsInMessage then Join details "; "
  else Join (take maxBlockedRecordsInMessage details) "; " ++ "; and "
       ++ FormatInt (Z.of_nat (length details - maxBlockedRecordsInMessage)) ++ " more".

(** A status entry is programmed when its condition is true. *)
Definition isProgrammed `{ApiMeta} (conds : list Condition) : bool :=
  match FindStatusCondition conds CondProgrammed with
  | Some cond => bool_decide (c_Status cond = ConditionTrue)
  | None => false
  end.

(** The variables of the loop. *)
Record aggregate := {
  ag_allProgrammed : bool; ag_blockedReason : gostring; ag_blockedDetails : list gostring }.

Definition aggregateStep `{ApiMeta} (acc : aggregate) (st : RecordSetStatus) : aggregate :=
  match FindStatusCondition (rss_Conditions st) CondProgrammed with
  | Some cond =>
      if decide (c_Status cond = ConditionTrue) then acc
      else if negb (namesBlockingCause (c_Reason cond)) then
        {| ag_allProgrammed := false; ag_blockedReason := ag_blockedReason acc;
           ag_blockedDetails := ag_blockedDetails acc |}
      else
        {| ag_allProgrammed := false;
           ag_blockedReason := if decide (ag_blockedReason acc = []) then c_Reason cond
                               else ag_blockedReason acc;
           ag_blockedDetails := ag_blockedDetails acc ++ [blockedRecordDetail (rss_Name st) cond] |}
  | None =>
      {| ag_allProgrammed := false; ag_blockedReason := ag_blockedReason acc;
         ag_blockedDetails := ag_blockedDetails acc |}
  end.

Definition statusNameLess (a b : RecordSetStatus) : bool := str_ltb (rss_Name a) (rss_Name b).

Definition aggregateProgrammedStatus `{ApiMeta} (statuses : list RecordSetStatus) :
    bool * gostring * gostring :=
  let ordered := SliceStable statusNameLess statuses in
  let acc := foldl aggregateStep
    {| ag_allProgrammed := true; ag_blockedReason := []; ag_blockedDetails := [] |} ordered in
  if ag_allProgrammed acc then (true, [], [])
  else if decide (ag_blockedReason acc = []) then (false, ReasonPending, messageRecordsPending)
  else (false, ag_blockedReason acc, joinBlockedDetails (ag_blockedDetails acc)).

(** * Retry delays *)

Definition second : Z := 1000000000.
Definition unprogrammedRetryBaseDelay : Z := 5 * second.
Definition unprogrammedRetryMaxDelay : Z := 300 * second.

(** [time.Time{}]. *)
Definition zeroTime : Z := -62135596800 * second.

Definition retryDelaySince (since now : Z) : Z :=
  let delay := Sub now since in
  let delay := if (delay <? unprogrammedRetryBaseDelay)%Z then unprogrammedRetryBaseDelay else delay in
  if (unprogrammedRetryMaxDelay <? delay)%Z then unprogrammedRetryMaxDelay else delay.

Definition latestStep `{ApiMeta} (now : Z) (acc : bool * Z) (st : RecordSetStatus) : bool * Z :=
  let cond := FindStatusCondition (rss_Conditions st) CondProgrammed in
  if isProgrammed (rss_Conditions st) then acc
  else
    let since := match cond with Some c => c_LastTransitionTime c | None => now end in
    (true, if (acc.2 <? since)%Z then since else acc.2).

(** The delay, if some record waits. *)
Definition unprogrammedRetryDelay `{ApiMeta} (statuses : list RecordSetStatus) (now : Z) :
    option Z :=
  let '(waiting, latest) := foldl (latestStep now) (false, zeroTime) statuses in
  if (waiting : bool) then Some (retryDelaySince latest now) else None.

Definition recordSetProgrammedAtGeneration `{ApiMeta} (rs : DNSRecordSet) : bool :=
  match FindStatusCondition (rs_Conditions rs) CondProgrammed with
  | Some cond => bool_decide (c_Status cond = ConditionTrue)
                 && (c_ObservedGeneration cond =? rs_Generation rs)%Z
  | None => false
  end.

(** The index value: the zone, when some record of the set is not programmed. *)
Definition unprogrammedRecordSetZone `{ApiMeta} (rs : DNSRecordSet) : list gostring :=
  if forallb (λ st, isProgrammed (rss_Conditions st)) (rs_RecordSets rs) then []
  else [rs_DNSZoneRef rs].

(** * What the aggregate says *)

Section Aggregate.
Context `{ApiMeta}.

(** An entry that names what blocks it. *)
Definition blocking (st : RecordSetStatus) : option Condition :=
  match FindStatusCondition (rss_Conditions st) CondProgrammed with
  | Some cond => if decide (c_Status cond = ConditionTrue) then None
                 else if namesBlockingCause (c_Reason cond) then Some cond else None
  | None => None
  end.

Definition blockedDetail (st : RecordSetStatus) : option gostring :=
  blockedRecordDetail (rss_Name st) <$> blocking st.

Lemma blocking_reason st cond : blocking st = Some cond → c_Reason cond ≠ [].
Proof.
  unfold blocking. repeat case_match; try done. intros [= <-] E.
  match goal with H : namesBlockingCause _ = true |- _ => rewrite E in H; done end.
Qed.

Lemma omap_cons' {A B} (f : A → option B) x l :
  omap f (x :: l) = match f x with Some y => y :: omap f l | None => omap f l end.
Proof. done. Qed.

Lemma aggregateStep_foldl sts acc :
  let r := foldl aggregateStep acc sts in
  ag_allProgrammed r = ag_allProgrammed acc && forallb (λ st, isProgrammed (rss_Conditions st)) sts ∧
  ag_blockedReason r = (if decide (ag_blockedReason acc = [])
                        then default [] (c_Reason <$> head (omap blocking sts))
                        else ag_blockedReason acc) ∧
  ag_blockedDetails r = ag_blockedDetails acc ++ omap blockedDetail sts.
Proof.
  revert acc. induction sts as [|st sts IH]; intros acc.
  { cbn. rewrite andb_true_r, app_nil_r. by case_decide. }
  cbn [foldl]. destruct (IH (aggregateStep acc st)) as (-> & -> & ->).
  rewrite !omap_cons'. cbn [forallb].
  change (blockedDetail st) with (blockedRecordDetail (rss_Name st) <$> blocking st).
  unfold aggregateStep, isProgrammed at 2.
  destruct (FindStatusCondition (rss_Conditions st) CondProgrammed) as [cond|] eqn:E.
  2:{ assert (blocking st = None) as -> by (unfold blocking; by rewrite E). cbn. by rewrite andb_false_r. }
  destruct (decide (c_Status cond = ConditionTrue)) as [Hc|Hc].
  { assert (blocking st = None) as -> by (unfold blocking; by rewrite E, decide_True).
    cbn. by rewrite bool_decide_eq_true_2. }
  rewrite bool_decide_eq_false_2 by done. cbn [andb]. rewrite andb_false_r.
  destruct (namesBlockingCause (c_Reason cond)) eqn:Hn; cbn [negb].
  2:{ assert (blocking st = None) as -> by (unfold blocking; by rewrite E, decide_False, Hn). done. }
  assert (blocking st = Some cond) as -> by (unfold blocking; by rewrite E, decide_False, Hn).
  split_and!; [done| |cbn; by rewrite <- app_assoc]. cbn.
  destruct (decide (ag_blockedReason acc = [])) as [Ha|Ha]; [|by rewrite decide_False].
  rewrite decide_False; [done|]. intros E'. by rewrite E' in Hn.
Qed.

Lemma forallb_perm {A} (f : A → bool) l l' : l ≡ₚ l' → forallb f l = forallb f l'.
Proof. intros Hp. apply eq_true_iff_eq. rewrite !forallb_Forall. by rewrite Hp. Qed.

Lemma aggregateProgrammedStatus_all statuses :
  (aggregateProgrammedStatus statuses).1.1 = forallb (λ st, isProgrammed (rss_Conditions st)) statuses.
Proof.
  unfold aggregateProgrammedStatus. cbn zeta.
  destruct (aggregateStep_foldl (SliceStable statusNameLess statuses) {| ag_allProgrammed := true;
    ag_blockedReason := []; ag_blockedDetails := [] |}) as (-> & _ & _). cbn [ag_allProgrammed andb].
  rewrite (forallb_perm _ _ _ (SliceStable_perm statusNameLess statuses)).
  destruct (forallb _ _); [done|]. by case_decide.
Qed.

(** The condition of a record set follows from its records: it is true exactly when
    every per-name entry is; otherwise its reason is that of the first entry in name
    order that names a cause, with the message naming the blocked records, or pending
    when none does. *)
Theorem aggregateProgrammedStatus_spec statuses :
  let ordered := SliceStable statusNameLess statuses in
  aggregateProgrammedStatus statuses =
  if forallb (λ st, isProgrammed (rss_Conditions st)) statuses then (true, [], [])
  else match omap blocking ordered with
       | [] => (false, ReasonPending, messageRecordsPending)
       | cond :: _ => (false, c_Reason cond, joinBlockedDetails (omap blockedDetail ordered))
       end.
Proof.
  intros ordered. unfold aggregateProgrammedStatus. fold ordered. cbn zeta.
  destruct (aggregateStep_foldl ordered {| ag_allProgrammed := true; ag_blockedReason := [];
    ag_blockedDetails := [] |}) as (-> & -> & ->). cbn [ag_allProgrammed ag_blockedReason ag_blockedDetails app].
  assert (forallb (λ st, isProgrammed (rss_Conditions st)) ordered =
          forallb (λ st, isProgrammed (rss_Conditions st)) statuses) as ->
    by apply forallb_perm, SliceStable_perm.
  cbn [andb]. case_match; [done|]. rewrite (decide_True (P := ([] : gostring) = [])) by done.
  destruct (omap blocking ordered) as [|cond l] eqn:E; [done|]. cbn. rewrite decide_False; [done|].
  assert (cond ∈ omap blocking ordered) as (st & _ & Hst)%list_elem_of_omap
    by (rewrite E; apply elem_of_cons; by left).
  by apply blocking_reason in Hst.
Qed.

Lemma retryDelaySince_bounds since now :
  (unprogrammedRetryBaseDelay ≤ retryDelaySince since now ≤ unprogrammedRetryMaxDelay)%Z.
Proof.
  unfold retryDelaySince, unprogrammedRetryBaseDelay, unprogrammedRetryMaxDelay, second.
  cbn zeta. generalize (Sub now since). intros d.
  destruct (Z.ltb_spec d (5 * 1000000000)); case_match eqn:E;
    [apply Z.ltb_lt in E|apply Z.ltb_ge in E|apply Z.ltb_lt in E|apply Z.ltb_ge in E]; lia.
Qed.

Lemma latestStep_foldl now sts acc :
  (foldl (latestStep now) acc sts).1 =
  acc.1 || negb (forallb (λ st, isProgrammed (rss_Conditions st)) sts).
Proof.
  revert acc. induction sts as [|st sts IH]; intros acc; [by rewrite orb_false_r|]. cbn [foldl forallb].
  rewrite IH. unfold latestStep. destruct (isProgrammed (rss_Conditions st)); cbn; [done|].
  by rewrite orb_true_r.
Qed.

Lemma unprogrammedRetryDelay_spec statuses now :
  match unprogrammedRetryDelay statuses now with
  | None => forallb (λ st, isProgrammed (rss_Conditions st)) statuses = true
  | Some d => forallb (λ st, isProgrammed (rss_Conditions st)) statuses = false ∧
      (unprogrammedRetryBaseDelay ≤ d ≤ unprogrammedRetryMaxDelay)%Z
  end.
Proof.
  unfold unprogrammedRetryDelay. pose proof (latestStep_foldl now statuses (false, zeroTime)) as Hw.
  destruct (foldl _ _ _) as [w latest]. cbn in Hw. subst w. destruct (forallb _ _); cbn; [done|].
  split; [done|apply retryDelaySince_bounds].
Qed.
End Aggregate.
