(* ===== verification/PdnsProgress.v ===== *)
(** That the PowerDNS client gets a record set programmed ([PdnsClient]): against a
    server that accepts the patches that write records, [EnsureRecordSet] reports no
    error and every name as programmed, whatever the answers to its deletes. *)

From S2P Require Import Prelude GoStrings Api ApiMeta Ownername.
From S2P Require Import PdnsEncode PdnsErrors PdnsPatch PdnsClient PdnsSafety CtlConditions.

Section Progress.
Context `{GoRuntime} `{ApiMeta}.
Context (server : list event → response).
Context (json_zone : gostring → result gostring (list zoneRRset)).
Context (json_error : gostring → option (gostring * list gostring)).

(** The patch writes the records of an RRset; one that does not only deletes RRsets and
    clears the comments behind them. *)
Definition writesRecords (rrsets : list wireRRSet) : bool :=
  existsb (λ rr, bool_decide (w_changetype rr = changeTypeReplace) && bool_decide (is_Some (w_records rr))) rrsets.

(** The server accepts every patch of the zone that writes records. *)
Definition accepting (zone : gostring) : Prop :=
  ∀ tr rrsets, writesRecords rrsets = true → accepted server (tr ++ [Sent (PatchZoneRequest zone rrsets)]) = true.

(** Changes that write records. *)
Definition writing (l : list rrset) : Prop :=
  ∃ rr, rr ∈ l ∧ isDelete rr = false ∧ rr_commentsOnly rr = false.

Lemma writing_payload patch out :
  writing patch → patchPayload patch = Ok out → writesRecords (MarshalJSON <$> out) = true.
Proof.
  intros (rr & Hin & Hdel & Hc). unfold patchPayload, clearCommentsBehindDeletes. intros [-> _]%clearLoop_Ok.
  apply existsb_exists. exists (MarshalJSON rr). split.
  - apply list_elem_of_In, list_elem_of_fmap_2, list_elem_of_bind. exists rr. unfold withClear. rewrite Hdel.
    split; [by left|]. unfold sortRRSets. by rewrite sort_slice_perm.
  - unfold MarshalJSON. rewrite Hc. cbn. unfold isDelete in Hdel. apply bool_decide_eq_false in Hdel.
    by destruct (rr_ChangeType rr).
Qed.

(** No change of the list deletes what another of them replaces. *)
Definition compatible (l : list rrset) : Prop :=
  ∀ d r, d ∈ l → r ∈ l → isDelete d = true → isDelete r = false → patchIdentity d ≠ patchIdentity r.

Lemma compatible_payload patch : compatible patch → ∃ out, patchPayload patch = Ok out.
Proof.
  intros Hc. unfold patchPayload, clearCommentsBehindDeletes.
  destruct (clearLoop _ _) as [out|d] eqn:E; [eauto|].
  apply clearLoop_Err in E as (Hd & Hdel & Hin).
  apply elem_of_list_to_set, list_elem_of_fmap in Hin as (r & Hid & [Hr Hinr]%list_elem_of_filter).
  unfold sortRRSets in *. rewrite sort_slice_perm in Hd, Hinr.
  destruct (Hc d r); [done..| |done]. unfold isDelete. by rewrite Hr.
Qed.

Lemma compatible_subset l l' : l ⊆ l' → compatible l' → compatible l.
Proof. intros Hs Hc d r ?%Hs ?%Hs. by apply Hc. Qed.

Section Accepting.
Context (zone : gostring) (Hserver : accepting zone).

Lemma applyRRSetPatch_accepted patch tr :
  compatible patch → writing patch → (applyRRSetPatch server zone patch tr).1 = None.
Proof.
  intros [out Hout]%compatible_payload Hw. pose proof (writing_payload _ _ Hw Hout) as Hwire. unfold applyRRSetPatch.
  destruct patch as [|rr patch']; [done|]. unfold patchPayload in Hout. rewrite Hout.
  specialize (Hserver tr (MarshalJSON <$> out) Hwire). unfold accepted in Hserver.
  unfold mbind, Io_bind, Do, freshId. destruct (server _); [done|]. cbn. by rewrite Hserver.
Qed.

Lemma isolating_accepted changes tr :
  compatible (mjoin changes) → Forall writing changes →
  (applyIsolatingRefusals server json_error zone changes tr).1 = replicate (length changes) None.
Proof.
  intros Hc Hwr. unfold applyIsolatingRefusals.
  destruct (length changes) as [|n] eqn:E; [done|]. cbn [seq isolateLoop].
  unfold mbind at 1, Io_bind at 1.
  match goal with |- context [applyRRSetPatch server zone ?p tr] =>
    pose proof (applyRRSetPatch_accepted p tr) as Hp;
    destruct (applyRRSetPatch server zone p tr) as [r tr'] end.
  cbn in Hp. rewrite Hp; [done| |].
  2:{ destruct changes as [|ch changes']; [done|]. apply Forall_cons in Hwr as [(rr & Hrr & ?) _].
    exists rr. split; [|done]. apply elem_of_app. by left. }
  eapply compatible_subset; [|done].
  change (changeAt changes 0 ++ (seq 1 n ≫= changeAt changes))
    with (seq 0 (S n) ≫= changeAt changes).
  intros rr (j & Hrr & _)%list_elem_of_bind. unfold changeAt in Hrr.
  destruct (changes !! j) as [ch|] eqn:Ej; [|by apply not_elem_of_nil in Hrr].
  apply list_elem_of_join. exists ch. split; [done|]. by eapply list_elem_of_lookup_2.
Qed.

Lemma noteErrors_none clock rs existing rrs n acc :
  noteErrors json_error clock zone rs existing (zip rrs (replicate n None)) acc = acc.
Proof.
  unfold noteErrors. revert rrs. induction n as [|n IH]; intros [|[rr idx] rrs]; cbn; done || apply IH.
Qed.

Lemma applyReplaces_accepted clock rs existing changes rst chunks acc tr :
  compatible (mjoin changes) → Forall writing changes →
  (applyReplaces server json_error clock zone rs existing changes rst chunks acc tr).1 = acc.
Proof.
  intros Hc Hwr. revert tr. induction chunks as [|ck chunks IH]; intros tr; [done|].
  cbn [applyReplaces]. unfold mbind, Io_bind.
  match goal with |- context [applyIsolatingRefusals server json_error zone ?c tr] =>
    pose proof (isolating_accepted c tr) as Hi;
    destruct (applyIsolatingRefusals server json_error zone c tr) as [errs tr'] end.
  cbn [fst] in Hi. rewrite Hi; [by rewrite noteErrors_none| |by apply Forall_take, Forall_drop]. eapply compatible_subset; [|done].
  intros rr (ch & Hrr & Hch)%list_elem_of_join. apply list_elem_of_join. exists ch. split; [done|].
  apply elem_of_take in Hch as (j & Hch & _). rewrite lookup_drop in Hch.
  by eapply list_elem_of_lookup_2.
Qed.
End Accepting.

(** ** The plan *)

Section Plan.
Context (clock : Clock) (zone : gostring) (rs : DNSRecordSet).
Context (existing : gmap rrsetKey zoneRRset).

(** The status entries are the ones the client writes: one condition, of type
    Programmed. *)
Definition written (st : RecordSetStatus) : Prop :=
  ∃ c, rss_Conditions st = [c] ∧ c_Type c = CondProgrammed.

(** ... that is true. *)
Definition fulfilled (st : RecordSetStatus) : Prop :=
  ∃ c, rss_Conditions st = [c] ∧ c_Type c = CondProgrammed ∧ c_Status c = ConditionTrue.

Lemma fulfilled_isProgrammed st : fulfilled st → isProgrammed (rss_Conditions st) = true.
Proof.
  intros (c & -> & Ht & Hs). unfold isProgrammed.
  destruct (FindStatusCondition [c] CondProgrammed) as [c'|] eqn:E.
  - apply FindStatusCondition_Some in E as [->%list_elem_of_singleton _]. by rewrite bool_decide_eq_true_2.
  - apply FindStatusCondition_None in E. by rewrite Forall_singleton in E.
Qed.

Lemma fulfilled_all statuses :
  Forall fulfilled statuses → forallb (λ st, isProgrammed (rss_Conditions st)) statuses = true.
Proof.
  intros HF. apply forallb_forall. intros st Hst%list_elem_of_In. rewrite Forall_forall in HF.
  by apply fulfilled_isProgrammed, HF.
Qed.

Lemma success_fulfilled owner :
  Forall written (rs_RecordSets rs) → fulfilled (recordSetSuccessStatus clock owner (rs_RecordSets rs)).
Proof.
  intros HF. unfold recordSetSuccessStatus.
  assert (fulfilled (recordSetCreatedStatus clock owner)) as Hc by by eexists.
  destruct (list_find _ _) as [[i st]|] eqn:E; [|done].
  apply list_find_Some in E as (Hi & _ & _). rewrite Forall_lookup in HF.
  destruct (HF i st Hi) as (c & Ec & Ht). rewrite Ec. case_decide; [|done]. by exists c.
Qed.

Lemma keepTransitionTimes_fulfilled statuses previous :
  Forall fulfilled statuses → Forall fulfilled (keepTransitionTimes statuses previous).
Proof.
  intros HF. unfold keepTransitionTimes. apply Forall_fmap. eapply Forall_impl; [done|].
  intros st (c & Ec & Ht & Hs). cbn. case_match; [|by exists c].
  unfold fulfilled. cbn. rewrite Ec. cbn. eexists. split; [done|]. by case_decide.
Qed.

(** What the owner loop has made of the owners so far. *)
Record ready (st : ensureState) : Prop := {
  rd_done : Forall fulfilled (es_statusList st);
  rd_desired : ∀ n, n ∈ es_desired st → ∃ e, e ∈ rs_Records rs ∧ n = Qualify (re_Name e) zone;
  rd_replaces : Forall (λ rr, (isDelete rr = false ∧ rr_commentsOnly rr = false) ∧ rr_Name rr ∈ es_desired st ∧
    rr_Type rr = RRTypeString (rs_RecordType rs)) (es_replaces st);
}.

Lemma ready_step st owner :
  Forall written (rs_RecordSets rs) → is_Some (groupByName (rs_Records rs) !! owner) →
  ready st → ready (ensureOwner clock zone rs existing (groupByName (rs_Records rs)) st owner).
Proof.
  intros Hw [es Hes] [Hd Hde Hr]. unfold ensureOwner. rewrite Hes. cbn [default].
  apply groupByName_lookup in Hes as [Hne Hes].
  rewrite BuildOwnerRRSet_Some; [|done|eapply Forall_impl; [exact Hes|by intros e [_ ?]]].
  assert (∀ n, n ∈ {[Qualify owner zone]} ∪ es_desired st →
    ∃ e, e ∈ rs_Records rs ∧ n = Qualify (re_Name e) zone) as Hde'.
  { intros n [->%elem_of_singleton|]%elem_of_union; [|auto].
    destruct Hes as [|e es [Hin Hn]]; [done|]. exists e. by rewrite Hn. }
  assert (Forall (λ rr, (isDelete rr = false ∧ rr_commentsOnly rr = false) ∧ rr_Name rr ∈ {[Qualify owner zone]} ∪ es_desired st ∧
    rr_Type rr = RRTypeString (rs_RecordType rs)) (es_replaces st)) as Hr'.
  { eapply Forall_impl; [done|]. intros rr (? & ? & ?). split; [done|]. split; [by apply elem_of_union_r|done]. }
  cbn zeta. case_match; (split; cbn; [apply Forall_app; split; [done|]|done|]).
  - by apply Forall_singleton, success_fulfilled.
  - done.
  - apply Forall_singleton. by eexists.
  - apply Forall_app. split; [done|]. apply Forall_singleton. split; [done|].
    split; [|done]. apply elem_of_union_l. by apply elem_of_singleton.
Qed.

Lemma ready_foldl owners :
  Forall written (rs_RecordSets rs) →
  Forall (λ o, is_Some (groupByName (rs_Records rs) !! o)) owners →
  ready (foldl (ensureOwner clock zone rs existing (groupByName (rs_Records rs)))
    {| es_statusList := []; es_desired := ∅; es_replaces := []; es_replacedStatus := [] |} owners).
Proof.
  intros Hw. induction owners as [|o owners IH] using rev_ind.
  { split; cbn; [done| |done]. by intros n ?%elem_of_empty. }
  intros [HF Ho]%Forall_app. rewrite Forall_singleton in Ho. rewrite foldl_snoc. apply ready_step; auto.
Qed.

(** No RRset that the record set wrote differs from one it lists in case only. *)
Definition noCaseTwin : Prop :=
  ∀ key current e, existing !! key = Some current →
    rrsetOwnerRef current = recordSetOwnerRef rs → e ∈ rs_Records rs →
    ToLower key.1 = ToLower (Qualify (re_Name e) zone) →
    ToUpper key.2 = ToUpper (RRTypeString (rs_RecordType rs)) →
    key = ownKey zone rs (re_Name e).

Lemma ensurePlan_ready st changes deletes :
  Forall written (rs_RecordSets rs) → noCaseTwin →
  ensurePlan clock zone rs existing = (st, changes, deletes) →
  Forall fulfilled (es_statusList st) ∧ compatible (mjoin changes) ∧ Forall writing changes.
Proof.
  intros Hw Htwin. unfold ensurePlan.
  pose proof (sortedKeys_dom (groupByName (rs_Records rs))) as Hdom.
  pose proof (ready_foldl _ Hw Hdom) as [Hd Hde Hr]. clear Hdom.
  set (st' := foldl _ _ _) in *. set (surplus := _ <$> ownedSurplus _ _ _ _).
  destruct (pairDeletes (es_replaces st') surplus) as [ch rest] eqn:E. intros [= <- <- <-].
  pose proof (paired_pairDeletes (es_replaces st') surplus) as [Hlen Hat Hperm _].
  rewrite E in Hlen, Hat, Hperm. cbn in Hlen, Hat, Hperm. split_and!; [done| |].
  2:{ apply Forall_lookup. intros i c Hi. destruct (lookup_lt_is_Some_2 (es_replaces st') i) as [rr Hrr].
    { rewrite <- Hlen. by eapply lookup_lt_Some. }
    destruct (Hat i rr Hrr) as (ds & Hch & _). rewrite Hch in Hi. injection Hi as <-. exists rr. split; [by left|].
    rewrite Forall_lookup in Hr. by destruct (Hr i rr Hrr). }
  apply (compatible_subset _ (es_replaces st' ++ surplus)).
  { intros rr Hrr. rewrite <- Hperm. apply elem_of_app. by left. }
  rewrite Forall_forall in Hr. intros d r Hd' Hr' Hdel Hrep Hid.
  apply elem_of_app in Hd' as [Hd'|Hd'%list_elem_of_fmap]; [by destruct (Hr d Hd') as [[? _] _]; congruence|].
  apply elem_of_app in Hr' as [Hr'|(k & -> & _)%list_elem_of_fmap]; [|done].
  destruct Hd' as ([n t] & -> & Hs). destruct (Hr r Hr') as (_ & Hn & Ht).
  destruct (Hde _ Hn) as (e & He & Hne). unfold patchIdentity in Hid. cbn in Hid.
  injection Hid as Hidn Hidt. rewrite Hne in Hidn. rewrite Ht in Hidt.
  apply list_elem_of_omap in Hs as ([key current] & Hin & Hk).
  rewrite map_range_perm in Hin. apply elem_of_map_to_list in Hin.
  destruct (decide (rrsetOwnerRef current ≠ _)) as [|Ho]; [done|]. apply dec_stable in Ho.
  case_decide as Hx; [done|]. injection Hk as ->.
  specialize (Htwin _ _ e Hin Ho He Hidn Hidt). injection Htwin as -> ->.
  apply Hx. cbn. by rewrite <- Hne.
Qed.
End Plan.

Lemma EnsureRecordSet_fulfilled clock zone rs tr existing :
  accepting zone → (getPDNSZoneRRSets server json_zone zone tr).1 = Ok existing →
  Forall written (rs_RecordSets rs) → noCaseTwin zone rs existing →
  let r := (EnsureRecordSet server json_zone json_error clock zone rs tr).1 in
  r.2 = None ∧ Forall fulfilled r.1.
Proof.
  intros Ha Hread Hw Htwin. rewrite EnsureRecordSet_read, Hread. unfold ensureApply.
  destruct (ensurePlan clock zone rs existing) as [[st changes] deletes] eqn:Hplan.
  apply ensurePlan_ready in Hplan as (Hd & Hc & Hwr); [|done..]. unfold mbind, Io_bind.
  match goal with |- context [applyReplaces server json_error clock zone rs existing ?c ?i ?k ?a ?t] =>
    pose proof (applyReplaces_accepted zone Ha clock rs existing c i k a t Hc Hwr) as Hacc;
    destruct (applyReplaces server json_error clock zone rs existing c i k a t) as [acc tr1] end.
  cbn in Hacc. subst acc. destruct (applyDeletes _ _ _ _) as [u tr2]. cbn.
  split; [done|]. by apply keepTransitionTimes_fulfilled.
Qed.
End Progress.
