(* ===== verification/Cluster.v ===== *)
(** The world of a controller: the Kubernetes API, the clock, the resolver for ALIAS
    targets and PowerDNS.

    A handler is a function of the events so far.  Every call to the outside is an event,
    and the answer is a function of the events up to and including it, so any cluster,
    clock, resolver and server that can be observed one call at a time is covered, with
    whatever else changes in between.  The only state a handler keeps between runs is
    the table of ALIAS checks. *)

From S2P Require Import Prelude GoStrings Api PdnsEncode PdnsErrors PdnsPatch PdnsClient.

Abbreviation NamespacedName := (gostring * gostring)%type.

Inductive kevent :=
| KGetRecordSet (key : NamespacedName)
| KGetZone (key : NamespacedName)
| KReadZone (key : NamespacedName)
| KGetClass (name : gostring)
| KListRecordSets (namespace zone : gostring)
| KListUnprogrammed (namespace zone : gostring)
| KPatchRecordSet (base rs : DNSRecordSet)
| KPatchRecordSetStatus (base rs : DNSRecordSet)
| KDeleteRecordSet (rs : DNSRecordSet)
| KPatchZone (base z : DNSZone)
| KPatchZoneStatus (base z : DNSZone)
| KLookup (target : gostring)
| KTick
| KDns (e : event).

(** The answer to a read or a patch: the object, or an error, which may be that there is
    no such object. *)
Inductive KGet (A : Type) :=
| KFound (a : A)
| KNotFound (text : gostring)
| KFailed (text : gostring).
Arguments KFound {A} _.
Arguments KNotFound {A} _.
Arguments KFailed {A} _.

(** What [LookupIPAddr] returns: addresses, the error that there is no such name, or
    another error. *)
Inductive Lookup := Addresses (n : nat) | NoSuchName | LookupFailed.

Record Cluster := {
  k_recordSet : list kevent → KGet DNSRecordSet;
  k_zone : list kevent → KGet DNSZone;
  k_class : list kevent → KGet DNSZoneClass;
  k_list : list kevent → result gostring (list DNSRecordSet);
  k_deleted : list kevent → option gostring;
  k_lookup : list kevent → Lookup;
  k_now : list kevent → Z;
  (** PowerDNS and the clock of the client, for a call made after these events. *)
  k_pdns : list kevent → list event → response;
  k_clock : list kevent → Clock;
}.

(** An error of a handler. *)
Inductive CtlError := KubeError (text : gostring) | DnsError (e : GoError).

(** [ctrl.Result]. *)
Record Result := { RequeueAfter : Z; Requeue : bool }.
Definition emptyResult : Result := {| RequeueAfter := 0; Requeue := false |}.
Definition requeueAfter (d : Z) : Result := {| RequeueAfter := d; Requeue := false |}.

(** One entry of [aliasTargetChecks.last]. *)
Record aliasTargetCheck := { ac_generation : Z; ac_at : Z }.

Record world := {
  w_trace : list kevent;
  w_aliasChecks : gmap NamespacedName aliasTargetCheck;
}.

Definition Ctl (A : Type) : Type := world → A * world.
#[global] Instance Ctl_ret : MRet Ctl := λ A a w, (a, w).
#[global] Instance Ctl_bind : MBind Ctl := λ A B f m w, let '(a, w') := m w in f a w'.

Definition note (ev : kevent) (w : world) : world :=
  {| w_trace := w_trace w ++ [ev]; w_aliasChecks := w_aliasChecks w |}.

(** A call to the outside. *)
Definition ask {A} (ev : kevent) (answer : list kevent → A) : Ctl A :=
  λ w, let w' := note ev w in (answer (w_trace w'), w').

Section Cluster.
Context (K : Cluster).

Definition Now : Ctl Z := ask KTick (k_now K).

(** A call of the PowerDNS client. *)
Definition dns {A} (m : (list event → response) → Clock → Io A) : Ctl A := λ w,
  let '(a, evs) := m (k_pdns K (w_trace w)) (k_clock K (w_trace w)) [] in
  (a, {| w_trace := w_trace w ++ (KDns <$> evs); w_aliasChecks := w_aliasChecks w |}).

Definition getRecordSet (key : NamespacedName) : Ctl (KGet DNSRecordSet) :=
  ask (KGetRecordSet key) (k_recordSet K).
Definition getZone (key : NamespacedName) : Ctl (KGet DNSZone) := ask (KGetZone key) (k_zone K).
Definition getClass (name : gostring) : Ctl (KGet DNSZoneClass) := ask (KGetClass name) (k_class K).
Definition listRecordSets (namespace zone : gostring) : Ctl (result gostring (list DNSRecordSet)) :=
  ask (KListRecordSets namespace zone) (k_list K).

(** [r.Patch(ctx, &obj, client.MergeFrom(base))] and [r.Status().Patch]: the object the
    server returns is what the handler goes on with. *)
Definition patchRecordSet (base rs : DNSRecordSet) : Ctl (KGet DNSRecordSet) :=
  ask (KPatchRecordSet base rs) (k_recordSet K).
Definition patchRecordSetStatus (base rs : DNSRecordSet) : Ctl (KGet DNSRecordSet) :=
  ask (KPatchRecordSetStatus base rs) (k_recordSet K).
Definition patchZone (base z : DNSZone) : Ctl (KGet DNSZone) := ask (KPatchZone base z) (k_zone K).
Definition patchZoneStatus (base z : DNSZone) : Ctl (KGet DNSZone) :=
  ask (KPatchZoneStatus base z) (k_zone K).
End Cluster.

(** The error of an answer, if it is one. *)
Definition errOf {A} (r : KGet A) : option gostring :=
  match r with KFound _ => None | KNotFound e | KFailed e => Some e end.

(** [return ctrl.Result{}, err]. *)
Definition returnErr (err : option gostring) : result CtlError Result :=
  match err with None => Ok emptyResult | Some e => Err (KubeError e) end.

(** [client.IgnoreNotFound(err)]. *)
Definition ignoreNotFound {A} (r : KGet A) : option gostring :=
  match r with KFailed e => Some e | _ => None end.

(** * Reasoning about handlers

    [allowed G tr evs]: each event of [evs], coming after [tr] and the ones before it,
    satisfies [G]. *)

Fixpoint allowed (G : list kevent → kevent → Prop) (tr evs : list kevent) : Prop :=
  match evs with
  | [] => True
  | ev :: evs' => G tr ev ∧ allowed G (tr ++ [ev]) evs'
  end.

Lemma allowed_app G tr evs1 evs2 :
  allowed G tr (evs1 ++ evs2) ↔ allowed G tr evs1 ∧ allowed G (tr ++ evs1) evs2.
Proof.
  revert tr. induction evs1 as [|ev evs1 IH]; intros tr; cbn; [rewrite app_nil_r; tauto|].
  rewrite IH, <- app_assoc. cbn. tauto.
Qed.

Lemma allowed_Forall (P : kevent → Prop) G tr evs :
  (∀ tr ev, P ev → G tr ev) → Forall P evs → allowed G tr evs.
Proof. intros HP HF. revert tr. induction HF; cbn; auto. Qed.

(** [guarded G m w]: run from [w], [m] only adds events, and each satisfies [G]. *)
Definition guarded {A} (G : list kevent → kevent → Prop) (m : Ctl A) (w : world) : Prop :=
  ∃ evs, w_trace (m w).2 = w_trace w ++ evs ∧ allowed G (w_trace w) evs.

Lemma guarded_quiet {A} G (m : Ctl A) w : w_trace (m w).2 = w_trace w → guarded G m w.
Proof. intros E. exists []. by rewrite app_nil_r. Qed.

Lemma guarded_ask {A} (G : list kevent → kevent → Prop) ev (f : list kevent → A) w :
  G (w_trace w) ev → guarded G (ask ev f) w.
Proof. intros HG. by exists [ev]. Qed.

Lemma guarded_bind {A B} G (m : Ctl A) (f : A → Ctl B) w :
  guarded G m w → guarded G (f (m w).1) (m w).2 → guarded G (m ≫= f) w.
Proof.
  intros (evs & E & Hm) (evs' & E' & Hf). exists (evs ++ evs'). unfold mbind, Ctl_bind.
  destruct (m w) as [a w']. cbn in *. split; [by rewrite E', E, app_assoc|].
  apply allowed_app. by rewrite E in Hf.
Qed.

Lemma guarded_dns {A} (G : list kevent → kevent → Prop) K
    (m : (list event → response) → Clock → Io A) w :
  (∀ tr e, G tr (KDns e)) → guarded G (dns K m) w.
Proof.
  intros HG. unfold dns, guarded. destruct (m _ _ []) as [a evs]. exists (KDns <$> evs).
  split; [done|]. apply (allowed_Forall (λ ev, ∃ e, ev = KDns e)).
  - by intros tr ev [e ->].
  - apply Forall_fmap, Forall_true. intros e. by exists e.
Qed.

(** The calls of the PowerDNS client, when what they may send is known. *)
Lemma guarded_dns_calls {A} (G : list kevent → kevent → Prop) K
    (m : (list event → response) → Clock → Io A) w :
  (∀ evs1 e evs2, (m (k_pdns K (w_trace w)) (k_clock K (w_trace w)) []).2 = evs1 ++ e :: evs2 →
     G (w_trace w ++ (KDns <$> evs1)) (KDns e)) →
  guarded G (dns K m) w.
Proof.
  intros HG. unfold dns, guarded. destruct (m _ _ []) as [a evs]. cbn in HG. exists (KDns <$> evs).
  split; [done|]. induction evs as [|e evs IH] using rev_ind; [done|].
  rewrite fmap_app. apply allowed_app. split.
  - apply IH. intros evs1 e' evs2 ->. by apply (HG evs1 e' (evs2 ++ [e])); rewrite <- app_assoc.
  - split; [|done]. by apply (HG evs e []).
Qed.

(** One event of a guarded run. *)
Lemma guarded_at {A} G (m : Ctl A) w :
  guarded G m w → ∃ evs, w_trace (m w).2 = w_trace w ++ evs ∧
    ∀ evs1 ev evs2, evs = evs1 ++ ev :: evs2 → G (w_trace w ++ evs1) ev.
Proof.
  intros (evs & E & Hall). exists evs. split; [done|]. intros evs1 ev evs2 ->.
  by apply allowed_app in Hall as [_ [? _]].
Qed.

(** Through a handler, one call or one branch at a time. *)
Ltac guard_step :=
  first
    [ apply guarded_bind
    | apply guarded_quiet; reflexivity
    | apply guarded_ask
    | apply guarded_dns; by intros
    | progress cbn zeta
    | progress cbn [ask fst snd note w_trace w_aliasChecks]
    | match goal with
      | |- guarded _ (match ?x with _ => _ end) _ => destruct x eqn:?
      | |- guarded _ (if ?x then _ else _) _ => destruct x eqn:?
      end ].
