(* ===== verification/CtlRecordSet.v ===== *)
(** Package [internal/controller], files [dnsrecordset_downstream_controller.go] and
    [alias_target.go]: the reconciler that programs a record set at PowerDNS.

    Logging and the gauge of unresolved ALIAS targets are not modelled. *)

From S2P Require Import Prelude GoStrings Api ApiMeta Ownername PdnsEncode PdnsErrors PdnsPatch.
From S2P Require Import PdnsClient CtlConditions Cluster.

(** * alias_target.go *)

Definition aliasTargetCheckInterval : Z := 300 * second.

(** [due]: [None] when the check is due, otherwise how long to wait. *)
Definition due (last : gmap NamespacedName aliasTargetCheck) (key : NamespacedName)
    (generation now : Z) : option Z :=
  match last !! key with
  | None => None
  | Some prev =>
      if negb (ac_generation prev =? generation)%Z then None
      else
        let wait := Sub (ac_at prev + aliasTargetCheckInterval) now in
        if (0 <? wait)%Z then Some wait else None
  end.

Definition recordCheck (key : NamespacedName) (generation now : Z) : Ctl unit := λ w,
  (tt, {| w_trace := w_trace w;
          w_aliasChecks := <[key := {| ac_generation := generation; ac_at := now |}]> (w_aliasChecks w) |}).
Definition forget (key : NamespacedName) : Ctl unit := λ w,
  (tt, {| w_trace := w_trace w; w_aliasChecks := delete key (w_aliasChecks w) |}).

Definition aliasChecks : Ctl (gmap NamespacedName aliasTargetCheck) := λ w, (w_aliasChecks w, w).

Definition rsKey (rs : DNSRecordSet) : NamespacedName := (rs_Namespace rs, rs_Name rs).

Section Reconciler.
Context `{GoRuntime} `{ApiMeta} `{ControllerUtil}.
Context (json_zone : gostring → result gostring (list zoneRRset)).
Context (json_error : gostring → option (gostring * list gostring)).
Context (K : Cluster).

(** The lookups: the unresolved and the failed targets, in record order. *)
Fixpoint lookupTargets (seen : gset gostring) (unresolved failed : list gostring)
    (records : list RecordEntry) : Ctl (list gostring * list gostring) :=
  match records with
  | [] => mret (unresolved, failed)
  | rec :: records' =>
      match re_ALIAS rec with
      | None => lookupTargets seen unresolved failed records'
      | Some s =>
          let target := TrimSuffix (TrimSpace (Content s)) "." in
          if decide (target = []) then lookupTargets seen unresolved failed records'
          else
            let target := target ++ "." in
            if decide (target ∈ seen) then lookupTargets seen unresolved failed records'
            else
              r ← ask (KLookup target) (k_lookup K);
              let seen := {[target]} ∪ seen in
              match r with
              | Addresses 0 | NoSuchName =>
                  lookupTargets seen (unresolved ++ [target]) failed records'
              | Addresses _ => lookupTargets seen unresolved failed records'
              | LookupFailed => lookupTargets seen unresolved (failed ++ [target]) records'
              end
      end
  end.

Definition aliasTargetCondition (rs : DNSRecordSet) : Ctl Condition :=
  '(unresolved, failed) ← lookupTargets ∅ [] [] (rs_Records rs);
  now ← Now K;
  let cond status reason message :=
    {| c_Type := CondTargetResolved; c_Status := status; c_ObservedGeneration := rs_Generation rs;
       c_LastTransitionTime := now; c_Reason := reason; c_Message := message |} in
  mret (if decide (unresolved ≠ []) then
          cond ConditionFalse ReasonTargetUnresolved
            ("ALIAS target " ++ Join (sortStrings unresolved) ", " ++
             " does not resolve to an A or AAAA address, so the name answers SERVFAIL")
        else if decide (failed ≠ []) then
          cond ConditionUnknown ReasonTargetLookupFailed
            ("could not look up ALIAS target " ++ Join (sortStrings failed) ", " ++ "; retrying")
        else cond ConditionTrue ReasonTargetResolved "every ALIAS target resolves").

(** [hasResolver] is [r.TargetResolver != nil]. *)
Definition checkALIASTargets (hasResolver : bool) (rs : DNSRecordSet) :
    Ctl (result CtlError Result) :=
  let key := rsKey rs in
  if negb hasResolver then mret (Ok emptyResult)
  else if decide (rs_RecordType rs ≠ RRTypeALIAS) then
    _ ← forget key; mret (Ok emptyResult)
  else
    now ← Now K;
    checks ← aliasChecks;
    match due checks key (rs_Generation rs) now with
    | Some wait => mret (Ok (requeueAfter wait))
    | None =>
        cond ← aliasTargetCondition rs;
        _ ← recordCheck key (rs_Generation rs) now;
        let '(conds, changed) := SetStatusCondition (rs_Conditions rs) cond in
        if (changed : bool) then
          r ← patchRecordSetStatus K rs (set_rs_Conditions conds rs);
          match errOf r with
          | Some e => mret (Err (KubeError e))
          | None => mret (Ok (requeueAfter aliasTargetCheckInterval))
          end
        else mret (Ok (requeueAfter aliasTargetCheckInterval))
    end.

(** * dnsrecordset_downstream_controller.go *)

Definition downstreamRSFinalizer : gostring :=
  "dns.networking.miloapis.com/finalize-dnsrecordset-downstream".

(** Set a condition with the current generation and time, and patch the status when that
    changes it: [None] when it did not. *)
Definition patchCondition (rs : DNSRecordSet) (type : gostring) (status : ConditionStatus)
    (reason message : gostring) : Ctl (option (KGet DNSRecordSet)) :=
  now ← Now K;
  let '(conds, changed) := SetStatusCondition (rs_Conditions rs)
    {| c_Type := type; c_Status := status; c_ObservedGeneration := rs_Generation rs;
       c_LastTransitionTime := now; c_Reason := reason; c_Message := message |} in
  if (changed : bool)
  then r ← patchRecordSetStatus K rs (set_rs_Conditions conds rs); mret (Some r)
  else mret None.

Definition setAcceptedCondition (rs : DNSRecordSet) (status : ConditionStatus)
    (reason message : gostring) : Ctl (option gostring) :=
  r ← patchCondition rs CondAccepted status reason message;
  mret (match r with Some r => errOf r | None => None end).

(** The condition [updateStatus] sets: status, reason and message. *)
Definition programmedOutcome (err : option GoError) (statuses : list RecordSetStatus) :
    ConditionStatus * gostring * gostring :=
  match err with
  | Some e =>
      (ConditionFalse, if IsTransient e then ReasonPending else ReasonPDNSError, ErrorText e)
  | None =>
      let '(allProgrammed, reason, message) := aggregateProgrammedStatus statuses in
      if (allProgrammed : bool)
      then (ConditionTrue, ReasonProgrammed, "RecordSet is programmed in downstream controller")
      else (ConditionFalse, reason, message)
  end.

(** The record set as [updateStatus] leaves it, or the error of the patch.  The sort is in
    place, so the caller's [statuses] are sorted too; nothing it does next depends on
    their order. *)
Definition updateStatus (rs : DNSRecordSet) (err : option GoError)
    (statuses : list RecordSetStatus) : Ctl (result gostring DNSRecordSet) :=
  let '(status, reason, message) := programmedOutcome err statuses in
  now ← Now K;
  let '(conds, changed) := SetStatusCondition (rs_Conditions rs)
    {| c_Type := CondProgrammed; c_Status := status; c_ObservedGeneration := rs_Generation rs;
       c_LastTransitionTime := now; c_Reason := reason; c_Message := message |} in
  let statuses := SliceStable statusNameLess statuses in
  let replaced := bool_decide (rs_RecordSets rs = []) || bool_decide (rs_RecordSets rs ≠ statuses) in
  let rs' := set_rs_Status conds (if replaced then statuses else rs_RecordSets rs) rs in
  if changed || replaced then
    r ← patchRecordSetStatus K rs rs';
    mret (match r with KFound stored => Ok stored | KNotFound e | KFailed e => Err e end)
  else mret (Ok rs').

(** When the condition has been false since. *)
Definition programmedSince (rs : DNSRecordSet) : Ctl Z :=
  match FindStatusCondition (rs_Conditions rs) CondProgrammed with
  | Some cond => mret (c_LastTransitionTime cond)
  | None => Now K
  end.

(** [Reconcile] when the cache has no zone. *)
Definition reconcileOrphan (hasAPIReader : bool) (req : NamespacedName) (rs : DNSRecordSet) :
    Ctl (result CtlError Result) :=
  if bool_decide (rs_DeletionTimestamp rs ≠ None)
     && ContainsFinalizer (rs_Finalizers rs) downstreamRSFinalizer then
    zone ← ask ((if hasAPIReader then KReadZone else KGetZone) (rs_Namespace rs, rs_DNSZoneRef rs))
             (k_zone K);
    match zone with
    | KFound _ => mret (Ok (requeueAfter second))
    | KFailed e => mret (Err (KubeError e))
    | KNotFound _ =>
        r ← patchRecordSet K rs
              (set_rs_Finalizers (RemoveFinalizer (rs_Finalizers rs) downstreamRSFinalizer) rs);
        match ignoreNotFound r with
        | Some e => mret (Err (KubeError e))
        | None => _ ← forget req; mret (Ok emptyResult)
        end
    end
  else
    err ← setAcceptedCondition rs ConditionFalse ReasonPending
            ("waiting for DNSZone " ++ Quote (rs_DNSZoneRef rs));
    mret (returnErr err).

(** [Reconcile] while the record set is being deleted. *)
Definition reconcileDeletion (req : NamespacedName) (zone : DNSZone) (rs : DNSRecordSet) :
    Ctl (result CtlError Result) :=
  if negb (ContainsFinalizer (rs_Finalizers rs) downstreamRSFinalizer) then mret (Ok emptyResult)
  else
    err ← dns K (λ server _, DeleteRecordSet server json_zone (z_DomainName zone) rs);
    match err with
    | Some e => mret (Err (DnsError e))
    | None =>
        r ← getRecordSet K req;
        match r with
        | KNotFound _ => mret (Ok emptyResult)
        | KFailed e => mret (Err (KubeError e))
        | KFound rs =>
            r ← patchRecordSet K rs
                  (set_rs_Finalizers (RemoveFinalizer (rs_Finalizers rs) downstreamRSFinalizer) rs);
            match errOf r with
            | Some e => mret (Err (KubeError e))
            | None => _ ← forget req; mret (Ok emptyResult)
            end
        end
    end.

(** [Reconcile] from the programming on. *)
Definition reconcileProgram (hasResolver : bool) (zone : DNSZone) (rs : DNSRecordSet) :
    Ctl (result CtlError Result) :=
  if recordSetProgrammedAtGeneration rs then checkALIASTargets hasResolver rs
  else
    '(statuses, ensureErr) ← dns K (λ server clock,
        EnsureRecordSet server json_zone json_error clock (z_DomainName zone) rs);
    r ← updateStatus rs ensureErr statuses;
    match r with
    | Err e => mret (Err (KubeError e))
    | Ok rs =>
        match ensureErr with
        | Some e =>
            if IsTransient e then mret (Err (DnsError e))
            else
              since ← programmedSince rs;
              now ← Now K;
              mret (Ok (requeueAfter (retryDelaySince since now)))
        | None =>
            now ← Now K;
            match unprogrammedRetryDelay statuses now with
            | Some delay => mret (Ok (requeueAfter delay))
            | None => checkALIASTargets hasResolver rs
            end
        end
    end.

(** [Reconcile] from the owner references on. *)
Definition reconcileLive (hasResolver : bool) (zone : DNSZone) (rs : DNSRecordSet) :
    Ctl (result CtlError Result) :=
  if IsControlledBy (rs_OwnerReferences rs) zone then
    match RemoveControllerReference zone (rs_OwnerReferences rs) with
    | Err e => mret (Err (KubeError e))
    | Ok refs => r ← patchRecordSet K rs (set_rs_OwnerReferences refs rs); mret (returnErr (errOf r))
    end
  else
    match HasOwnerReference (rs_OwnerReferences rs) zone with
    | Err e => mret (Err (KubeError e))
    | Ok false =>
        match SetOwnerReference zone (rs_OwnerReferences rs) with
        | Err e => mret (Err (KubeError e))
        | Ok refs => r ← patchRecordSet K rs (set_rs_OwnerReferences refs rs); mret (returnErr (errOf r))
        end
    | Ok true =>
        r ← patchCondition rs CondAccepted ConditionTrue ReasonAccepted
              "RecordSet is accepted for processing";
        match r with
        | Some r => mret (returnErr (errOf r))
        | None => reconcileProgram hasResolver zone rs
        end
    end.

(** [className] is [r.DNSHandler.Client.Name]. *)
Definition Reconcile (className : gostring) (hasAPIReader hasResolver : bool)
    (req : NamespacedName) : Ctl (result CtlError Result) :=
  r ← getRecordSet K req;
  match r with
  | KNotFound _ => mret (Ok emptyResult)
  | KFailed e => mret (Err (KubeError e))
  | KFound rs =>
      z ← getZone K (req.1, rs_DNSZoneRef rs);
      match z with
      | KFailed e => mret (Err (KubeError e))
      | KNotFound _ => reconcileOrphan hasAPIReader req rs
      | KFound zone =>
          if decide (z_Visibility zone = DNSZoneVisibilityPrivate) then mret (Ok emptyResult)
          else if decide (z_DNSZoneClassName zone = [] ∨ z_DNSZoneClassName zone ≠ className)
          then mret (Ok emptyResult)
          else if decide (rs_DeletionTimestamp rs ≠ None) then reconcileDeletion req zone rs
          else if negb (ContainsFinalizer (rs_Finalizers rs) downstreamRSFinalizer) then
            r ← patchRecordSet K rs
                  (set_rs_Finalizers (AddFinalizer (rs_Finalizers rs) downstreamRSFinalizer) rs);
            mret (returnErr (errOf r))
          else reconcileLive hasResolver zone rs
      end
  end.
End Reconciler.
