(* ===== verification/CtlSafety.v ===== *)
(** Package [internal/controller]: what the reconciler of record sets may do
    ([CtlRecordSet]), composed with what the PowerDNS client does ([PdnsSafety]). *)

From S2P Require Import Prelude GoStrings Api ApiMeta Ownername PdnsEncode PdnsErrors PdnsPatch.
From S2P Require Import PdnsClient PdnsSafety CtlConditions Cluster CtlRecordSet.

Section Safety.
Context `{GoRuntime} `{ApiMeta} `{ControllerUtil}.
Context (json_zone : gostring → result gostring (list zoneRRset)).
Context (json_error : gostring → option (gostring * list gostring)).
Context (K : Cluster).

(** A guard that only looks at what patches do. *)
Definition patchGuard (G : list kevent → kevent → Prop) : Prop :=
  ∀ tr ev, match ev with
           | KPatchRecordSet _ _ | KPatchRecordSetStatus _ _ => True
           | _ => G tr ev
           end.

(** A guard that lets look-ups and the clock pass. *)
Definition lookupGuard (G : list kevent → kevent → Prop) : Prop :=
  ∀ tr ev, match ev with KLookup _ | KTick => G tr ev | _ => True end.
Lemma patchGuard_lookup G : patchGuard G → lookupGuard G.
Proof. intros HG tr ev. specialize (HG tr ev). by destruct ev. Qed.

Lemma lookupTargets_guarded G seen unresolved failed records w :
  lookupGuard G → guarded G (lookupTargets K seen unresolved failed records) w.
Proof.
  intros HG. revert seen unresolved failed w.
  induction records as [|rec records IH]; intros seen unresolved failed w; cbn [lookupTargets].
  { by apply guarded_quiet. }
  repeat (case_match; try apply IH). apply guarded_bind; [apply guarded_ask, (HG _ (KLookup _))|].
  repeat case_match; apply IH.
Qed.

Lemma aliasTargetCondition_spec G rs w :
  lookupGuard G →
  guarded G (aliasTargetCondition K rs) w ∧
  c_Type (aliasTargetCondition K rs w).1 = CondTargetResolved.
Proof.
  intros HG. unfold aliasTargetCondition, Now. split.
  - apply guarded_bind; [by apply lookupTargets_guarded|].
    repeat guard_step. apply (HG _ KTick).
  - unfold mbind, Ctl_bind. destruct (lookupTargets _ _ _ _ _ _) as [[unresolved failed] w'].
    cbn. by repeat case_match.
Qed.

Lemma checkALIASTargets_guarded G hasResolver rs w :
  lookupGuard G →
  (∀ tr c, c_Type c = CondTargetResolved →
     G tr (KPatchRecordSetStatus rs (set_rs_Conditions (SetStatusCondition (rs_Conditions rs) c).1 rs))) →
  guarded G (checkALIASTargets K hasResolver rs) w.
Proof.
  intros HG Hp. unfold checkALIASTargets, Now.
  repeat first [by apply aliasTargetCondition_spec | guard_step]; try (apply (HG _ KTick)).
  match goal with E : SetStatusCondition _ _ = _ |- _ =>
    apply (f_equal fst) in E; cbn [fst] in E; rewrite <- E end.
  by apply Hp, (aliasTargetCondition_spec G).
Qed.

(** A condition that is already set costs a look at the clock. *)
Lemma patchCondition_None rs type status reason message w :
  (patchCondition K rs type status reason message w).1 = None →
  (patchCondition K rs type status reason message w).2 = note KTick w.
Proof.
  unfold patchCondition, Now, mbind, Ctl_bind, ask. cbn.
  destruct (SetStatusCondition _ _) as [conds []]; [|done].
  unfold patchRecordSetStatus, ask. done.
Qed.

(** ** Releasing the finalizer *)

(** What [DeleteRecordSet] has seen to when it reports success: PowerDNS has no such
    zone, or every RRset the zone read shows as written by the record set went out in a
    patch that PowerDNS accepted. *)
Definition cleaned (server : list event → response) (domain : gostring) (rs : DNSRecordSet)
    (evs : list event) : Prop :=
  let read := [Sent (GetZoneRequest domain)] in
  ∃ evs', evs = read ++ evs' ∧
  match (getPDNSZoneRRSets server json_zone domain []).1 with
  | Err e => isZoneNotFound e = true
  | Ok existing => ∀ key current, existing !! key = Some current →
      rrsetOwnerRef current = recordSetOwnerRef rs →
      ∃ batch, appliedIn server domain read evs' batch ∧ newDeleteRRSet key.1 key.2 ∈ batch
  end.

Lemma DeleteRecordSet_cleaned server domain rs :
  (DeleteRecordSet server json_zone domain rs []).1 = None →
  cleaned server domain rs (DeleteRecordSet server json_zone domain rs []).2.
Proof.
  rewrite DeleteRecordSet_read. cbn zeta. unfold cleaned.
  destruct (getPDNSZoneRRSets _ _ _ _).1 as [existing|e].
  - intros Hok. destruct (recordSetDeletes_applied server json_zone json_error _ _ _ _ Hok) as (evs & -> & Hdel). by exists evs.
  - cbn. intros Hr. exists []. split; [done|]. by destruct (isZoneNotFound e).
Qed.

(** Why a patch may drop the finalizer, in a run that began after [start]. *)
Definition releasable (req : NamespacedName) (start tr : list kevent) : Prop :=
  (∃ rs zone evs, k_recordSet K (start ++ [KGetRecordSet req]) = KFound rs ∧
     let seen := start ++ [KGetRecordSet req; KGetZone (req.1, rs_DNSZoneRef rs)] in
     k_zone K seen = KFound zone ∧
     tr = seen ++ (KDns <$> evs) ++ [KGetRecordSet req] ∧
     cleaned (k_pdns K seen) (z_DomainName zone) rs evs) ∨
  (∃ rs ev e1 e2, k_recordSet K (start ++ [KGetRecordSet req]) = KFound rs ∧
     let seen := start ++ [KGetRecordSet req; KGetZone (req.1, rs_DNSZoneRef rs)] in
     let key := (rs_Namespace rs, rs_DNSZoneRef rs) in
     k_zone K seen = KNotFound e1 ∧ (ev = KReadZone key ∨ ev = KGetZone key) ∧
     tr = seen ++ [ev] ∧ k_zone K tr = KNotFound e2).

Definition finalizerGuard (req : NamespacedName) (start tr : list kevent) (ev : kevent) : Prop :=
  match ev with
  | KPatchRecordSet base rs =>
      downstreamRSFinalizer ∈ rs_Finalizers base → downstreamRSFinalizer ∉ rs_Finalizers rs →
      releasable req start tr
  | _ => True
  end.

Lemma updateStatus_guarded G rs err statuses w :
  patchGuard G → (∀ tr rs', G tr (KPatchRecordSetStatus rs rs')) →
  guarded G (updateStatus K rs err statuses) w.
Proof.
  intros HG Hs. unfold updateStatus, Now. destruct (programmedOutcome err statuses) as [[??]?].
  repeat guard_step; [apply (HG _ KTick)|apply Hs].
Qed.

Lemma reconcileProgram_guarded G hasResolver zone rs w :
  patchGuard G → (∀ tr base rs', G tr (KPatchRecordSetStatus base rs')) →
  guarded G (reconcileProgram json_zone json_error K hasResolver zone rs) w.
Proof.
  intros HG Hs. unfold reconcileProgram, programmedSince, Now.
  repeat first [ by apply checkALIASTargets_guarded; auto using patchGuard_lookup
               | by apply updateStatus_guarded; auto
               | apply guarded_dns; by intros tr e; apply (HG _ (KDns e))
               | guard_step ]; apply (HG _ KTick).
Qed.

Lemma finalizerGuard_patch req start : patchGuard (finalizerGuard req start).
Proof. by intros tr []. Qed.

Lemma reconcileLive_finalizer req start hasResolver zone rs w :
  guarded (finalizerGuard req start)
    (reconcileLive json_zone json_error K hasResolver zone rs) w.
Proof.
  unfold reconcileLive, patchCondition, patchRecordSet, patchRecordSetStatus, Now.
  repeat first [ by apply reconcileProgram_guarded; [apply finalizerGuard_patch|]
               | guard_step ]; first [done | by intros ? []].
Qed.

Lemma reconcileDeletion_finalizer req start zone rs w :
  let seen := [KGetRecordSet req; KGetZone (req.1, rs_DNSZoneRef rs)] in
  w_trace w = start ++ seen →
  k_recordSet K (start ++ [KGetRecordSet req]) = KFound rs → k_zone K (start ++ seen) = KFound zone →
  guarded (finalizerGuard req start) (reconcileDeletion json_zone K req zone rs) w.
Proof.
  intros seen Hw Hrs Hz. unfold reconcileDeletion, getRecordSet, patchRecordSet.
  destruct (ContainsFinalizer _ _); [|by apply guarded_quiet]. cbn [negb].
  apply guarded_bind; [by apply guarded_dns|]. unfold dns. rewrite Hw.
  pose proof (DeleteRecordSet_cleaned (k_pdns K (start ++ seen)) (z_DomainName zone) rs) as Hd.
  destruct (DeleteRecordSet _ _ _ _ []) as [[e|] evs]; cbn [fst snd] in *; [by apply guarded_quiet|].
  repeat guard_step; [done|]. intros _ _. left.
  exists rs, zone, evs. split; [done|]. cbn zeta. split_and!; [done| |by apply Hd].
  by rewrite <- !app_assoc.
Qed.

Lemma reconcileOrphan_finalizer hasAPIReader req start e rs w :
  let seen := [KGetRecordSet req; KGetZone (req.1, rs_DNSZoneRef rs)] in
  w_trace w = start ++ seen →
  k_recordSet K (start ++ [KGetRecordSet req]) = KFound rs → k_zone K (start ++ seen) = KNotFound e →
  guarded (finalizerGuard req start) (reconcileOrphan K hasAPIReader req rs) w.
Proof.
  intros seen Hw Hrs Hz. unfold reconcileOrphan, patchRecordSet, setAcceptedCondition, patchCondition, Now,
    patchRecordSetStatus.
  repeat guard_step; try done.
  { by destruct hasAPIReader. }
  intros _ _. right. rewrite Hw in *. exists rs. eexists _, _, _. split; [done|]. cbn zeta.
  split_and!; [done| |done|done]. destruct hasAPIReader; auto.
Qed.

(** C13. The finalizer of a record set is released only when there is nothing left of it
    to remove.  A patch of a run of the reconciler that drops it comes either after the
    zone was read at PowerDNS, in that run, and every RRset it shows as written by the
    record set was deleted by a patch that PowerDNS accepted (or PowerDNS reported that
    it has no such zone); or after both the cache and the reader said that the object of
    the zone does not exist. *)
Theorem Reconcile_finalizer className hasAPIReader hasResolver req w :
  ∃ evs, w_trace (Reconcile json_zone json_error K className hasAPIReader hasResolver req w).2 =
           w_trace w ++ evs ∧
  ∀ evs1 base rs evs2, evs = evs1 ++ KPatchRecordSet base rs :: evs2 →
    downstreamRSFinalizer ∈ rs_Finalizers base → downstreamRSFinalizer ∉ rs_Finalizers rs →
    releasable req (w_trace w) (w_trace w ++ evs1).
Proof.
  destruct (guarded_at (finalizerGuard req (w_trace w))
    (Reconcile json_zone json_error K className hasAPIReader hasResolver req) w) as (evs & E & HG).
  2:{ exists evs. split; [done|]. intros evs1 base rs evs2 Hev.
      exact (HG evs1 (KPatchRecordSet base rs) evs2 Hev). }
  unfold Reconcile, getRecordSet, getZone, patchRecordSet.
  repeat first [ apply reconcileLive_finalizer
               | eapply reconcileDeletion_finalizer; cbn; rewrite <- ?app_assoc; by rewrite <- ?app_assoc in *
               | eapply reconcileOrphan_finalizer; cbn; rewrite <- ?app_assoc; by rewrite <- ?app_assoc in *
               | guard_step ]; try done.
  intros Hin []. apply AddFinalizer_spec. by left.
Qed.

(** ** Reporting a record set as programmed *)

(** Setting another condition leaves the answer alone. *)
Lemma programmedAt_other rs c :
  c_Type c ≠ CondProgrammed →
  recordSetProgrammedAtGeneration (set_rs_Conditions (SetStatusCondition (rs_Conditions rs) c).1 rs) =
  recordSetProgrammedAtGeneration rs.
Proof.
  intros Hc. unfold recordSetProgrammedAtGeneration, set_rs_Conditions. cbn.
  by rewrite SetStatusCondition_other.
Qed.

Lemma programmedAt_set l c statuses rs :
  c_Type c = CondProgrammed →
  recordSetProgrammedAtGeneration (set_rs_Status (SetStatusCondition l c).1 statuses rs) =
  bool_decide (c_Status c = ConditionTrue) && (c_ObservedGeneration c =? rs_Generation rs)%Z.
Proof.
  intros Hc. unfold recordSetProgrammedAtGeneration. cbn.
  destruct (SetStatusCondition_same l c) as (c' & Hf & (_ & Hs & _ & _ & Hg)).
  rewrite Hc in Hf. by rewrite Hf, Hs, Hg.
Qed.

(** What a call of [EnsureRecordSet] has seen to when it reports every name as
    programmed: the RRset of each is at PowerDNS with the metadata of this generation of
    the object, or went out in a patch that PowerDNS accepted. *)
Definition provisioned (server : list event → response) (domain : gostring) (rs : DNSRecordSet)
    (evs : list event) : Prop :=
  let read := [Sent (GetZoneRequest domain)] in
  ∃ existing evs', evs = read ++ evs' ∧
    (getPDNSZoneRRSets server json_zone domain []).1 = Ok existing ∧
    Forall (λ e, settled domain rs existing (re_Name e) ∨
                 replacedFor server domain rs read evs' (re_Name e)) (rs_Records rs).

Lemma isProgrammed_programmed st : isProgrammed (rss_Conditions st) = true → programmed st.
Proof.
  unfold isProgrammed. destruct (FindStatusCondition _ _) as [c|] eqn:E; [|done].
  intros Hc%bool_decide_eq_true. apply FindStatusCondition_Some in E as [Hin _]. by exists c.
Qed.

Lemma EnsureRecordSet_provisioned server clock domain rs statuses evs :
  EnsureRecordSet server json_zone json_error clock domain rs [] = (statuses, None, evs) →
  forallb (λ st, isProgrammed (rss_Conditions st)) statuses = true →
  provisioned server domain rs evs.
Proof.
  rewrite EnsureRecordSet_read. unfold provisioned.
  destruct (getPDNSZoneRRSets _ _ _ _).1 as [existing|e] eqn:Hread; [|done]. intros E Hall.
  destruct (ensureApply_sound server json_error clock domain rs existing ([] ++ [Sent (GetZoneRequest domain)]))
    as (evs' & E' & Hn & HF). rewrite E in *. cbn in E', Hn, HF. exists existing, evs'.
  split_and!; [done..|]. apply Forall_forall. intros e He.
  assert (re_Name e ∈ rss_Name <$> statuses) as (st & -> & Hst)%list_elem_of_fmap.
  { rewrite Hn, sortStrings_perm, elem_of_remove_dups. by apply list_elem_of_fmap_2. }
  rewrite Forall_forall in HF. apply HF; [done|]. apply isProgrammed_programmed.
  rewrite forallb_Forall, Forall_forall in Hall. auto.
Qed.

Lemma programmedOutcome_True err statuses reason message :
  programmedOutcome err statuses = (ConditionTrue, reason, message) →
  err = None ∧ forallb (λ st, isProgrammed (rss_Conditions st)) statuses = true.
Proof.
  unfold programmedOutcome. destruct err; [done|].
  destruct (aggregateProgrammedStatus statuses) as [[[] ?] ?] eqn:E; [|done]. intros _. split; [done|].
  by rewrite <- aggregateProgrammedStatus_all, E.
Qed.

Lemma updateStatus_programmed G rs err statuses w :
  patchGuard G →
  (err = None → forallb (λ st, isProgrammed (rss_Conditions st)) statuses = true →
   ∀ rs', G (w_trace w ++ [KTick]) (KPatchRecordSetStatus rs rs')) →
  (∀ tr rs', recordSetProgrammedAtGeneration rs' = false → G tr (KPatchRecordSetStatus rs rs')) →
  guarded G (updateStatus K rs err statuses) w.
Proof.
  intros HG Hs Hn. unfold updateStatus, Now, patchRecordSetStatus.
  destruct (programmedOutcome err statuses) as [[status reason] message] eqn:Ho.
  repeat guard_step; [apply (HG _ KTick)|].
  match goal with E : SetStatusCondition _ _ = _ |- _ =>
    apply (f_equal fst) in E; cbn [fst] in E; rewrite <- E end.
  destruct (decide (status = ConditionTrue)) as [->|Hst].
  - apply programmedOutcome_True in Ho as [??]. by apply Hs.
  - apply Hn. rewrite programmedAt_set by done. cbn. by rewrite bool_decide_eq_false_2.
Qed.

(** The record set was reported as programmed after this call. *)
Definition programmedBy (req : NamespacedName) (start tr : list kevent) (base : DNSRecordSet) : Prop :=
  ∃ zone evs,
    let seen := start ++ [KGetRecordSet req; KGetZone (req.1, rs_DNSZoneRef base)] in
    k_recordSet K (start ++ [KGetRecordSet req]) = KFound base ∧ k_zone K seen = KFound zone ∧
    tr = seen ++ KTick :: (KDns <$> evs) ++ [KTick] ∧
    provisioned (k_pdns K (seen ++ [KTick])) (z_DomainName zone) base evs.

Definition programmedGuard (req : NamespacedName) (start tr : list kevent) (ev : kevent) : Prop :=
  match ev with
  | KPatchRecordSetStatus base rs =>
      recordSetProgrammedAtGeneration base = false → recordSetProgrammedAtGeneration rs = true →
      programmedBy req start tr base
  | _ => True
  end.

Lemma programmedGuard_patch req start : patchGuard (programmedGuard req start).
Proof. by intros tr []. Qed.

Lemma programmedGuard_other req start tr rs c :
  c_Type c ≠ CondProgrammed →
  programmedGuard req start tr
    (KPatchRecordSetStatus rs (set_rs_Conditions (SetStatusCondition (rs_Conditions rs) c).1 rs)).
Proof. intros Hc Hb. rewrite programmedAt_other by done. congruence. Qed.

Lemma checkALIASTargets_programmed req start hasResolver rs w :
  guarded (programmedGuard req start) (checkALIASTargets K hasResolver rs) w.
Proof.
  apply checkALIASTargets_guarded; [apply patchGuard_lookup, programmedGuard_patch|]. intros tr c Hc.
  apply programmedGuard_other. by rewrite Hc.
Qed.

Lemma patchCondition_programmed req start rs status reason message w :
  guarded (programmedGuard req start) (patchCondition K rs CondAccepted status reason message) w.
Proof.
  unfold patchCondition, Now, patchRecordSetStatus. repeat guard_step; [done|].
  match goal with E : SetStatusCondition _ _ = _ |- _ =>
    apply (f_equal fst) in E; cbn [fst] in E; rewrite <- E end.
  by apply programmedGuard_other.
Qed.

Lemma reconcileProgram_programmed req start hasResolver zone rs w :
  let seen := start ++ [KGetRecordSet req; KGetZone (req.1, rs_DNSZoneRef rs)] in
  w_trace w = seen ++ [KTick] →
  k_recordSet K (start ++ [KGetRecordSet req]) = KFound rs → k_zone K seen = KFound zone →
  guarded (programmedGuard req start) (reconcileProgram json_zone json_error K hasResolver zone rs) w.
Proof.
  intros seen Hw Hrs Hz. unfold reconcileProgram, programmedSince, Now.
  case_match; [apply checkALIASTargets_programmed|].
  apply guarded_bind; [by apply guarded_dns|]. unfold dns. rewrite Hw.
  pose proof (EnsureRecordSet_provisioned (k_pdns K (seen ++ [KTick])) (k_clock K (seen ++ [KTick]))
    (z_DomainName zone) rs) as Hp.
  destruct (EnsureRecordSet _ _ _ _ _ _ []) as [[statuses err] evs]. cbn [fst snd w_trace].
  apply guarded_bind.
  { apply updateStatus_programmed; [apply programmedGuard_patch| |].
    - intros -> Hall rs' _ _. exists zone, evs. cbn. split_and!; [done..| |by eapply Hp].
      unfold seen. by rewrite <- !app_assoc.
    - intros tr rs' Hn. cbn. congruence. }
  repeat first [apply checkALIASTargets_programmed | guard_step]; done.
Qed.

(** C12. The status says programmed only of what was programmed.  A status patch of a run of
    the reconciler that makes a record set count as programmed at its generation, when it
    did not before, comes after [EnsureRecordSet] has, in that run, read the zone at
    PowerDNS and found or made, in patches that PowerDNS accepted, the RRset of every
    record of the set. *)
Theorem Reconcile_programmed className hasAPIReader hasResolver req w :
  ∃ evs, w_trace (Reconcile json_zone json_error K className hasAPIReader hasResolver req w).2 =
           w_trace w ++ evs ∧
  ∀ evs1 base rs evs2, evs = evs1 ++ KPatchRecordSetStatus base rs :: evs2 →
    recordSetProgrammedAtGeneration base = false → recordSetProgrammedAtGeneration rs = true →
    programmedBy req (w_trace w) (w_trace w ++ evs1) base.
Proof.
  destruct (guarded_at (programmedGuard req (w_trace w))
    (Reconcile json_zone json_error K className hasAPIReader hasResolver req) w) as (evs & E & HG).
  2:{ exists evs. split; [done|]. intros evs1 base rs evs2 Hev.
      exact (HG evs1 (KPatchRecordSetStatus base rs) evs2 Hev). }
  unfold Reconcile, reconcileOrphan, reconcileDeletion, reconcileLive, setAcceptedCondition, getRecordSet,
    getZone, patchRecordSet.
  repeat first [ apply patchCondition_programmed | guard_step ]; try done.
  2: by destruct hasAPIReader.
  apply reconcileProgram_programmed; rewrite ?patchCondition_None by done; cbn;
    rewrite <- ?app_assoc in *; done.
Qed.
End Safety.
