(* ===== verification/CtlLiveness.v ===== *)
(** Package [internal/controller]: that the reconciler of record sets ([CtlRecordSet])
    gets there.  A run that leaves something to do comes back, and over a cluster that
    takes its writes, a few runs program the record set, whatever state it starts in. *)

From S2P Require Import Prelude GoStrings Api ApiMeta Ownername PdnsEncode PdnsErrors PdnsPatch.
From S2P Require Import PdnsClient PdnsSafety CtlConditions PdnsProgress Cluster CtlRecordSet CtlSafety.

Lemma Ctl_bind_eq {A B} (m : Ctl A) (f : A → Ctl B) w : (m ≫= f) w = f (m w).1 (m w).2.
Proof. unfold mbind, Ctl_bind. by destruct (m w). Qed.

(** * The object as the cluster stores it *)

(** The record set after these events, if nobody else writes it. *)
Definition storeStep (rs : DNSRecordSet) (ev : kevent) : DNSRecordSet :=
  match ev with KPatchRecordSet _ rs' | KPatchRecordSetStatus _ rs' => rs' | _ => rs end.
Definition stored (rs0 : DNSRecordSet) (tr : list kevent) : DNSRecordSet := foldl storeStep rs0 tr.

Lemma stored_snoc rs0 tr ev : stored rs0 (tr ++ [ev]) = storeStep (stored rs0 tr) ev.
Proof. unfold stored. by rewrite foldl_snoc. Qed.

Lemma stored_dns rs0 tr evs : stored rs0 (tr ++ (KDns <$> evs)) = stored rs0 tr.
Proof.
  induction evs as [|e evs IH] using rev_ind; [by rewrite app_nil_r|].
  rewrite fmap_app, app_assoc. change (KDns <$> [e]) with [KDns e]. by rewrite stored_snoc.
Qed.

(** An invariant of the stored object holds after a run whose patches all have it. *)
Lemma stored_guarded {A} rs0 (P : DNSRecordSet → Prop) (m : Ctl A) w :
  guarded (λ tr ev, P (stored rs0 tr) → P (storeStep (stored rs0 tr) ev)) m w →
  P (stored rs0 (w_trace w)) → P (stored rs0 (w_trace (m w).2)).
Proof.
  intros (evs & -> & Hall). revert Hall. generalize (w_trace w) as tr.
  induction evs as [|ev evs IH]; intros tr Hall HP; [by rewrite app_nil_r|].
  destruct Hall as [Hev Hall]. rewrite cons_middle, app_assoc. apply IH; [done|].
  rewrite stored_snoc. auto.
Qed.

(** A request to PowerDNS. *)
Definition isDns (ev : kevent) : bool := match ev with KDns _ => true | _ => false end.

Section Liveness.
Context `{GoRuntime} `{ApiMeta} `{ControllerUtil}.
Context (json_zone : gostring → result gostring (list zoneRRset)).
Context (json_error : gostring → option (gostring * list gostring)).
Context (K : Cluster).
Context (rs0 : DNSRecordSet) (zone : DNSZone).

(** The same object and specification. *)
Definition sameSpec (rs rs' : DNSRecordSet) : Prop :=
  rs_Namespace rs = rs_Namespace rs' ∧ rs_Name rs = rs_Name rs' ∧
  rs_Generation rs = rs_Generation rs' ∧ rs_DeletionTimestamp rs = rs_DeletionTimestamp rs' ∧
  rs_RecordType rs = rs_RecordType rs' ∧ rs_Records rs = rs_Records rs'.

(** A cluster that stores what the reconciler writes, knows the types it is asked about
    and has the zone; and a PowerDNS that has the zone and accepts every patch of it that
    writes records.  What it answers to a patch that only deletes is left open. *)
Record cooperative : Prop := {
  co_get : ∀ tr key, k_recordSet K (tr ++ [KGetRecordSet key]) = KFound (stored rs0 tr);
  co_patch : ∀ tr base rs, k_recordSet K (tr ++ [KPatchRecordSet base rs]) = KFound rs;
  co_status : ∀ tr base rs, k_recordSet K (tr ++ [KPatchRecordSetStatus base rs]) = KFound rs;
  co_zone : ∀ tr key, k_zone K (tr ++ [KGetZone key]) = KFound zone;
  co_owner : ∀ l, ∃ b, HasOwnerReference l zone = Ok b;
  co_setOwner : ∀ l, ∃ l', SetOwnerReference zone l = Ok l';
  co_removeController : ∀ l, IsControlledBy l zone = true →
    ∃ l', RemoveControllerReference zone l = Ok l';
  co_accepting : ∀ tr, accepting (k_pdns K tr) (z_DomainName zone);
  co_read : ∀ tr, ∃ existing,
    (getPDNSZoneRRSets (k_pdns K tr) json_zone (z_DomainName zone) []).1 = Ok existing ∧
    noCaseTwin (z_DomainName zone) rs0 existing;
}.

(** The record set is in use, as the reconciler keeps it. *)
Definition live (rs : DNSRecordSet) : Prop :=
  sameSpec rs0 rs ∧ Forall written (rs_RecordSets rs).

Definition acceptedCondition (rs : DNSRecordSet) : Condition :=
  {| c_Type := CondAccepted; c_Status := ConditionTrue; c_ObservedGeneration := rs_Generation rs;
     c_LastTransitionTime := 0; c_Reason := ReasonAccepted;
     c_Message := "RecordSet is accepted for processing" |}.

Definition isAccepted (rs : DNSRecordSet) : bool :=
  match FindStatusCondition (rs_Conditions rs) CondAccepted with
  | Some old => bool_decide (sameCondition old (acceptedCondition rs))
  | None => false
  end.

(** How far the reconciler has got. *)
Definition stage (rs : DNSRecordSet) : nat :=
  if negb (ContainsFinalizer (rs_Finalizers rs) downstreamRSFinalizer) then 0
  else if IsControlledBy (rs_OwnerReferences rs) zone then 1
  else if negb (match HasOwnerReference (rs_OwnerReferences rs) zone with Ok b => b | _ => false end) then 2
  else if negb (isAccepted rs) then 3
  else if negb (recordSetProgrammedAtGeneration rs) then 4
  else 5.

Lemma stage_le rs : stage rs ≤ 5.
Proof. unfold stage. repeat case_match; lia. Qed.

Lemma stage_full rs :
  stage rs = 5 →
  recordSetProgrammedAtGeneration rs = true ∧ downstreamRSFinalizer ∈ rs_Finalizers rs.
Proof.
  unfold stage. destruct (ContainsFinalizer _ _) eqn:Hf; [|done]. apply ContainsFinalizer_spec in Hf.
  repeat case_match; try done. intros _. split; [by apply negb_false_iff|done].
Qed.

Lemma stage_status rs conds statuses :
  let rs' := set_rs_Status conds statuses rs in
  3 ≤ stage rs → isAccepted rs' = true →
  stage rs' = if recordSetProgrammedAtGeneration rs' then 5 else 4.
Proof.
  intros rs' Hs Ha. unfold stage in *. change (rs_Finalizers rs') with (rs_Finalizers rs).
  change (rs_OwnerReferences rs') with (rs_OwnerReferences rs). rewrite Ha. cbn [negb].
  repeat case_match; done || lia || congruence.
Qed.

Lemma isAccepted_other c statuses rs :
  c_Type c ≠ CondAccepted →
  isAccepted (set_rs_Status (SetStatusCondition (rs_Conditions rs) c).1 statuses rs) = isAccepted rs.
Proof. intros Hc. unfold isAccepted. cbn. by rewrite SetStatusCondition_other. Qed.

(** A later status, as long as the record set stays accepted and programmed. *)
Lemma stage_other rs c :
  c_Type c = CondTargetResolved → live rs → stage rs = 5 →
  let rs' := set_rs_Conditions (SetStatusCondition (rs_Conditions rs) c).1 rs in
  live rs' ∧ stage rs' = 5.
Proof.
  intros Hc Hl Hs. split; [done|]. unfold set_rs_Conditions.
  rewrite stage_status; [|lia|rewrite isAccepted_other by (by rewrite Hc)].
  - fold (set_rs_Conditions (SetStatusCondition (rs_Conditions rs) c).1 rs).
    rewrite programmedAt_other by (by rewrite Hc). unfold stage in Hs. by repeat case_match.
  - unfold stage in Hs. repeat case_match; try done. by apply negb_false_iff.
Qed.

Section Cooperative.
Context (Hco : cooperative).

Lemma checkALIASTargets_stays hasResolver rs w :
  live rs → stage rs = 5 → stored rs0 (w_trace w) = rs →
  let rs' := stored rs0 (w_trace (checkALIASTargets K hasResolver rs w).2) in
  live rs' ∧ stage rs' = 5.
Proof.
  intros Hl Hs Hw. apply (stored_guarded rs0 (λ r, live r ∧ stage r = 5)); [|by rewrite Hw].
  apply checkALIASTargets_guarded; [by intros tr []; cbn|].
  intros tr c Hc _. by apply stage_other.
Qed.

Lemma live_noCaseTwin rs existing :
  live rs → noCaseTwin (z_DomainName zone) rs0 existing → noCaseTwin (z_DomainName zone) rs existing.
Proof.
  intros [(En & Em & _ & _ & Et & Er) _] Ht key current e Hk Ho He.
  unfold ownKey, recordSetOwnerRef in *. rewrite <- Et, <- Er, <- En, <- Em in *. by apply (Ht key current e).
Qed.

(** What [updateStatus] leaves behind after a call that programmed every name. *)
Lemma updateStatus_stored rs statuses w :
  live rs → stage rs = 4 → stored rs0 (w_trace w) = rs → Forall fulfilled statuses →
  let r := updateStatus K rs None statuses w in
  ∃ rs', r.1 = Ok rs' ∧ live rs' ∧ stage rs' = 5 ∧ stored rs0 (w_trace r.2) = rs'.
Proof.
  intros [Hsp Hwr] Hs Hw HF. unfold updateStatus.
  assert (programmedOutcome None statuses = (ConditionTrue, ReasonProgrammed,
    "RecordSet is programmed in downstream controller")) as ->.
  { unfold programmedOutcome. pose proof (aggregateProgrammedStatus_all statuses) as Ha.
    destruct (aggregateProgrammedStatus statuses) as [[b ?] ?]. cbn in Ha. rewrite Ha.
    by rewrite fulfilled_all. }
  rewrite Ctl_bind_eq. cbn [ask Now fst snd note w_trace]. set (now := k_now K _).
  set (c := {| c_Type := CondProgrammed |}).
  destruct (SetStatusCondition (rs_Conditions rs) c) as [conds changed] eqn:E.
  set (replaced := bool_decide (rs_RecordSets rs = []) || _). set (rs' := set_rs_Status conds _ rs).
  assert (recordSetProgrammedAtGeneration rs' = true) as Hp.
  { apply (f_equal fst) in E. cbn in E. unfold rs'. rewrite <- E, programmedAt_set by done.
    cbn. by rewrite Z.eqb_refl. }
  assert (isAccepted rs' = true) as Ha.
  { apply (f_equal fst) in E. cbn in E. unfold rs'. rewrite <- E, isAccepted_other by done.
    unfold stage in Hs. repeat case_match; try done. by apply negb_false_iff. }
  assert (live rs' ∧ stage rs' = 5) as [Hl' Hs'].
  { split; [split; [done|]|].
    - cbn. destruct replaced; [|done]. rewrite SliceStable_perm. eapply Forall_impl; [done|].
      intros st (c' & ? & ? & _). by exists c'.
    - unfold rs' in *. rewrite stage_status; [by rewrite Hp|lia|done]. }
  destruct (changed || replaced) eqn:Hch.
  - rewrite Ctl_bind_eq. cbn. rewrite (co_status Hco). exists rs'. by rewrite !stored_snoc.
  - exfalso. apply orb_false_iff in Hch as [-> Hr].
    pose proof (SetStatusCondition_unchanged (rs_Conditions rs) c) as Hu. rewrite E in Hu.
    cbn in Hu. unfold rs' in Hp. rewrite (Hu eq_refl) in Hp.
    change (recordSetProgrammedAtGeneration rs = true) in Hp.
    unfold stage in Hs. rewrite Hp in Hs. by repeat case_match.
Qed.

Lemma reconcileProgram_stage hasResolver rs w :
  live rs → 4 ≤ stage rs → stored rs0 (w_trace w) = rs →
  let rs' := stored rs0 (w_trace (reconcileProgram json_zone json_error K hasResolver zone rs w).2) in
  live rs' ∧ stage rs' = 5.
Proof.
  intros Hl Hs Hw. unfold reconcileProgram.
  destruct (recordSetProgrammedAtGeneration rs) eqn:Hp.
  { apply checkALIASTargets_stays; [done| |done]. unfold stage in *. rewrite Hp in *.
    repeat case_match; done || lia. }
  assert (stage rs = 4) as Hs4 by (unfold stage in *; rewrite Hp in *; repeat case_match; done || lia).
  rewrite Ctl_bind_eq. unfold dns.
  destruct (co_read Hco (w_trace w)) as (existing & Hread & Htwin).
  pose proof (EnsureRecordSet_fulfilled (k_pdns K (w_trace w)) json_zone json_error (k_clock K (w_trace w))
    (z_DomainName zone) rs [] existing (co_accepting Hco _) Hread (proj2 Hl) (live_noCaseTwin _ _ Hl Htwin))
    as [He HF].
  destruct (EnsureRecordSet _ _ _ _ _ _ []) as [[statuses err] evs]. cbn in He, HF. subst err. cbn [fst snd].
  rewrite Ctl_bind_eq. set (w1 := {| w_trace := _ |}).
  destruct (updateStatus_stored rs statuses w1) as (rs' & -> & Hl' & Hs' & Hw');
    [done|done|unfold w1; cbn; by rewrite stored_dns|done|].
  set (w2 := (updateStatus K rs None statuses w1).2) in *.
  rewrite Ctl_bind_eq. cbn [ask Now fst snd]. set (now := k_now K _).
  pose proof (unprogrammedRetryDelay_spec statuses now) as Hd. rewrite fulfilled_all in Hd by done.
  destruct (unprogrammedRetryDelay statuses now); [by destruct Hd|].
  apply checkALIASTargets_stays; [done..|]. cbn. by rewrite stored_snoc.
Qed.

(** The first two calls of [reconcileLive], on a record set that is accepted or not. *)
Lemma patchCondition_accepted rs w :
  let m := patchCondition K rs CondAccepted ConditionTrue ReasonAccepted
    "RecordSet is accepted for processing" in
  if isAccepted rs then m w = (None, note KTick w)
  else ∃ conds, (m w).1 = Some (KFound (set_rs_Conditions conds rs)) ∧
    isAccepted (set_rs_Conditions conds rs) = true ∧
    stored rs0 (w_trace (m w).2) = set_rs_Conditions conds rs.
Proof.
  cbn zeta. unfold patchCondition. rewrite Ctl_bind_eq. cbn [ask Now fst snd]. set (now := k_now K _).
  set (c := {| c_Type := CondAccepted |}).
  pose proof (SetStatusCondition_changed (rs_Conditions rs) c) as Hch.
  pose proof (SetStatusCondition_same (rs_Conditions rs) c) as (c' & Hf & Hc').
  destruct (SetStatusCondition (rs_Conditions rs) c) as [conds changed]. cbn in Hch, Hf.
  assert (isAccepted rs = negb changed) as ->.
  { unfold isAccepted. destruct (FindStatusCondition _ _) as [old|].
    - destruct changed; [apply bool_decide_eq_false_2|apply bool_decide_eq_true_2].
      + intros Hs. destruct Hch as [_ Hch]. discriminate Hch. by exists old.
      + destruct Hch as [Hch _]. by destruct (Hch eq_refl) as (? & [= <-] & ?).
    - destruct changed; [done|]. destruct Hch as [Hch _]. by destruct (Hch eq_refl) as (? & [=] & ?). }
  destruct changed; [|done]. exists conds. rewrite Ctl_bind_eq. cbn. rewrite (co_status Hco).
  split_and!; [done| |by rewrite !stored_snoc]. unfold isAccepted. cbn. rewrite Hf.
  by apply bool_decide_eq_true_2.
Qed.

(** One more stage done, or all of them. *)
Definition advances (rs rs' : DNSRecordSet) : Prop :=
  live rs' ∧ (stage rs < stage rs' ∨ stage rs' = 5).

Lemma stage_refs rs refs :
  1 ≤ stage rs → IsControlledBy refs zone = false →
  stage (set_rs_OwnerReferences refs rs) =
  if match HasOwnerReference refs zone with Ok b => b | _ => false end
  then if isAccepted rs then if recordSetProgrammedAtGeneration rs then 5 else 4 else 3
  else 2.
Proof.
  intros Hs Hc. unfold stage in *. cbn [rs_Finalizers rs_OwnerReferences set_rs_OwnerReferences].
  rewrite Hc. change (isAccepted (set_rs_OwnerReferences refs rs)) with (isAccepted rs).
  change (recordSetProgrammedAtGeneration (set_rs_OwnerReferences refs rs))
    with (recordSetProgrammedAtGeneration rs).
  destruct (ContainsFinalizer _ _); cbn [negb] in *; [|lia].
  by repeat case_match.
Qed.

Lemma reconcileLive_stage hasResolver rs w :
  live rs → 1 ≤ stage rs → stored rs0 (w_trace w) = rs →
  advances rs (stored rs0 (w_trace (reconcileLive json_zone json_error K hasResolver zone rs w).2)).
Proof.
  intros Hl Hs Hw. unfold reconcileLive, patchRecordSet.
  destruct (IsControlledBy _ _) eqn:Hc.
  { destruct (co_removeController Hco _ Hc) as [refs Hr]. rewrite Hr, Ctl_bind_eq. cbn.
    rewrite stored_snoc. split; [done|]. cbn [storeStep].
    rewrite (stage_refs rs refs Hs) by by eapply RemoveControllerReference_controlled.
    assert (stage rs = 1) as -> by (unfold stage in *; rewrite Hc in *; repeat case_match; done || lia).
    left. repeat case_match; lia. }
  destruct (co_owner Hco (rs_OwnerReferences rs)) as [[] Ho]; rewrite Ho.
  2:{ destruct (co_setOwner Hco (rs_OwnerReferences rs)) as [refs Hr]. rewrite Hr, Ctl_bind_eq. cbn.
    rewrite stored_snoc. split; [done|]. cbn [storeStep].
    rewrite (stage_refs rs refs Hs) by by eapply SetOwnerReference_controlled.
    rewrite (SetOwnerReference_Has _ _ _ Hr).
    assert (stage rs = 2) as -> by (unfold stage in *; rewrite Hc, Ho in *; repeat case_match; done || lia).
    left. repeat case_match; lia. }
  assert (3 ≤ stage rs) as Hs3 by (unfold stage in *; rewrite Hc, Ho in *; repeat case_match; done || lia).
  rewrite Ctl_bind_eq. pose proof (patchCondition_accepted rs w) as Hp. cbn zeta in Hp.
  destruct (isAccepted rs) eqn:Ha.
  - rewrite Hp. cbn [fst snd].
    destruct (reconcileProgram_stage hasResolver rs (note KTick w)) as [Hl' Hs']; [done| |cbn; by rewrite stored_snoc|].
    + unfold stage in *. rewrite Hc, Ho, Ha in *. repeat case_match; cbn in *; lia.
    + split; [done|by right].
  - destruct Hp as (conds & -> & Ha' & Hst). cbn [fst snd].
    change (w_trace (?r, ?w').2) with (w_trace w'). cbn. rewrite Hst. split; [done|left].
    unfold set_rs_Conditions in *. rewrite stage_status by done.
    assert (stage rs = 3) as -> by (unfold stage in *; rewrite Ha in *; repeat case_match; done || lia).
    case_match; lia.
Qed.

Lemma Reconcile_stage className hasAPIReader hasResolver req w :
  z_Visibility zone ≠ DNSZoneVisibilityPrivate → z_DNSZoneClassName zone = className → className ≠ [] →
  rs_DeletionTimestamp rs0 = None → live (stored rs0 (w_trace w)) →
  advances (stored rs0 (w_trace w)) (stored rs0
    (w_trace (Reconcile json_zone json_error K className hasAPIReader hasResolver req w).2)).
Proof.
  intros Hv Hcl Hne Hdel Hl. unfold Reconcile, getRecordSet, getZone, patchRecordSet.
  rewrite Ctl_bind_eq. cbn [ask fst snd note w_trace]. rewrite (co_get Hco).
  set (rs := stored rs0 (w_trace w)) in *. rewrite Ctl_bind_eq. cbn [ask fst snd note w_trace].
  rewrite (co_zone Hco), decide_False, decide_False by (naive_solver).
  assert (rs_DeletionTimestamp rs = None) as Hd by (by destruct Hl as [(_ & _ & _ & <- & _) _]).
  rewrite Hd, decide_False by tauto.
  destruct (ContainsFinalizer (rs_Finalizers rs) downstreamRSFinalizer) eqn:Hf; cbn [negb].
  - apply reconcileLive_stage; [done| |cbn; by rewrite !stored_snoc].
    unfold stage. rewrite Hf. cbn. repeat case_match; lia.
  - rewrite Ctl_bind_eq. cbn. rewrite stored_snoc. cbn [storeStep]. split; [done|]. left.
    unfold stage at 1. rewrite Hf. unfold stage. cbn [rs_Finalizers set_rs_Finalizers].
    assert (ContainsFinalizer (AddFinalizer (rs_Finalizers rs) downstreamRSFinalizer) downstreamRSFinalizer
      = true) as -> by (apply ContainsFinalizer_spec, AddFinalizer_spec; by left).
    cbn. repeat case_match; lia.
Qed.

(** A run on a record set that is programmed asks PowerDNS for nothing. *)
Definition silent (_ : list kevent) (ev : kevent) : Prop := isDns ev = false.

Lemma reconcileProgram_silent hasResolver rs w :
  recordSetProgrammedAtGeneration rs = true →
  guarded silent (reconcileProgram json_zone json_error K hasResolver zone rs) w.
Proof.
  intros Hp. unfold reconcileProgram. rewrite Hp. apply checkALIASTargets_guarded; [by intros tr []|done].
Qed.

Lemma reconcileLive_silent hasResolver rs w :
  stage rs = 5 → guarded silent (reconcileLive json_zone json_error K hasResolver zone rs) w.
Proof.
  intros Hs. pose proof (patchCondition_accepted rs w) as Hp. cbn zeta in Hp. unfold reconcileLive.
  unfold stage in Hs. destruct (ContainsFinalizer _ _); [|done]. destruct (IsControlledBy _ _); [done|].
  destruct (HasOwnerReference _ _) as [[]|]; [|done..]. destruct (isAccepted rs); [|done].
  destruct (recordSetProgrammedAtGeneration rs) eqn:Hprog; [|done].
  apply guarded_bind; [by exists [KTick]; rewrite Hp|]. rewrite Hp. by apply reconcileProgram_silent.
Qed.

Lemma Reconcile_silent className hasAPIReader hasResolver req w :
  z_Visibility zone ≠ DNSZoneVisibilityPrivate → z_DNSZoneClassName zone = className → className ≠ [] →
  rs_DeletionTimestamp rs0 = None → live (stored rs0 (w_trace w)) → stage (stored rs0 (w_trace w)) = 5 →
  ∃ evs, w_trace (Reconcile json_zone json_error K className hasAPIReader hasResolver req w).2 = w_trace w ++ evs
    ∧ Forall (λ ev, isDns ev = false) evs.
Proof.
  intros Hv Hcl Hne Hdel Hl Hs.
  assert (guarded silent (Reconcile json_zone json_error K className hasAPIReader hasResolver req) w)
    as (evs & E & Hev)%guarded_at.
  2:{ exists evs. split; [done|]. apply Forall_forall. intros ev Hin.
    apply list_elem_of_split in Hin as (evs1 & evs2 & ->). by apply (Hev evs1 ev evs2). }
  unfold Reconcile, getRecordSet, getZone. apply guarded_bind; [by apply guarded_ask|].
  cbn [ask fst snd note w_trace]. rewrite (co_get Hco). set (rs := stored rs0 (w_trace w)) in *.
  apply guarded_bind; [by apply guarded_ask|]. cbn [ask fst snd note w_trace].
  rewrite (co_zone Hco), decide_False, decide_False by (naive_solver).
  assert (rs_DeletionTimestamp rs = None) as Hd by (by destruct Hl as [(_ & _ & _ & <- & _) _]).
  rewrite Hd, decide_False by tauto.
  destruct (ContainsFinalizer (rs_Finalizers rs) downstreamRSFinalizer) eqn:Hf; cbn [negb].
  - by apply reconcileLive_silent.
  - unfold stage in Hs. by rewrite Hf in Hs.
Qed.
End Cooperative.

(** The reconciler, run [n] times. *)
Definition runTimes (className : gostring) (hasAPIReader hasResolver : bool) (req : NamespacedName)
    (n : nat) (w : world) : world :=
  Nat.iter n (λ w, (Reconcile json_zone json_error K className hasAPIReader hasResolver req w).2) w.

Lemma runTimes_stage className hasAPIReader hasResolver req n checks :
  cooperative →
  z_Visibility zone ≠ DNSZoneVisibilityPrivate → z_DNSZoneClassName zone = className → className ≠ [] →
  rs_DeletionTimestamp rs0 = None → Forall written (rs_RecordSets rs0) → 5 ≤ n →
  let rs := stored rs0 (w_trace (runTimes className hasAPIReader hasResolver req n
    {| w_trace := []; w_aliasChecks := checks |})) in
  live rs ∧ stage rs = 5.
Proof.
  intros Hco Hv Hcl Hne Hdel Hw Hn rs. pose proof (stage_le rs).
  assert (live rs ∧ n `min` 5 ≤ stage rs) as [? Hs]; [|split; [done|lia]].
  unfold rs. clear dependent rs. clear Hn. induction n as [|n [Hl IH]]; [split; [by split|cbn; lia]|].
  change (runTimes ?c ?a ?r ?q (S n) ?x) with
    (Reconcile json_zone json_error K c a r q (runTimes c a r q n x)).2.
  set (w := runTimes _ _ _ _ n _) in *.
  destruct (Reconcile_stage Hco className hasAPIReader hasResolver req w) as [Hl' Hs]; [done..|].
  split; [exact Hl'|]. lia.
Qed.

(** C14. A record set is programmed in the end.  In a cluster that stores what the
    reconciler writes, with a zone of its class, and with a PowerDNS that accepts its
    patches, five runs are enough from any state of the record set (its finalizer, owner
    references and conditions set or not): from then on its status says that it is
    programmed at its generation, and the finalizer that makes sure it is cleaned up is
    there.  The patches PowerDNS has to accept are those that write records. *)
Theorem Reconcile_converges className hasAPIReader hasResolver req n checks :
  cooperative →
  z_Visibility zone ≠ DNSZoneVisibilityPrivate → z_DNSZoneClassName zone = className → className ≠ [] →
  rs_DeletionTimestamp rs0 = None → Forall written (rs_RecordSets rs0) → 5 ≤ n →
  let w := runTimes className hasAPIReader hasResolver req n
    {| w_trace := []; w_aliasChecks := checks |} in
  recordSetProgrammedAtGeneration (stored rs0 (w_trace w)) = true ∧
  downstreamRSFinalizer ∈ rs_Finalizers (stored rs0 (w_trace w)).
Proof. intros Hco Hv Hcl Hne Hdel Hw Hn w. apply stage_full. by apply runTimes_stage. Qed.

(** C39. A delete that fails is not tried again.  In a cluster that stores what the
    reconciler writes, with a zone of its class, and with a PowerDNS that accepts the
    patches that write records but may answer every patch that only deletes with an error,
    from the fifth run on the record set is reported as programmed at its generation, and
    no further run asks PowerDNS for anything, not even to read the zone: a name that the
    record set has stopped listing and whose delete failed is left in the zone.  The zone
    is not private, the record set is not being deleted, its status entries are ones the
    client writes, and PowerDNS can be read and shows no RRset of the record set that
    differs from one it lists in case only. *)
Theorem Reconcile_forgets_delete className hasAPIReader hasResolver req n m checks :
  cooperative →
  z_Visibility zone ≠ DNSZoneVisibilityPrivate → z_DNSZoneClassName zone = className → className ≠ [] →
  rs_DeletionTimestamp rs0 = None → Forall written (rs_RecordSets rs0) → 5 ≤ n →
  let run k := runTimes className hasAPIReader hasResolver req k {| w_trace := []; w_aliasChecks := checks |} in
  recordSetProgrammedAtGeneration (stored rs0 (w_trace (run n))) = true ∧
  ∃ evs, w_trace (run (n + m)) = w_trace (run n) ++ evs ∧ Forall (λ ev, isDns ev = false) evs.
Proof.
  intros Hco Hv Hcl Hne Hdel Hw Hn run. split.
  { apply stage_full. by apply runTimes_stage. }
  induction m as [|m (evs & E & HF)].
  { exists []. by rewrite Nat.add_0_r, app_nil_r. }
  destruct (runTimes_stage className hasAPIReader hasResolver req (n + m) checks) as [Hl Hs]; [done..|lia|].
  destruct (Reconcile_silent Hco className hasAPIReader hasResolver req (run (n + m)))
    as (evs' & E' & HF'); [done..|].
  exists (evs ++ evs'). rewrite Nat.add_succ_r. split; [|by apply Forall_app].
  rewrite app_assoc, <- E. exact E'.
Qed.

(** * Coming back *)

(** C33. Nothing is left behind silently: a run that called [EnsureRecordSet] and got an
    error, or a name that is not programmed, ends in an error (which is retried with
    backoff) or asks to be run again after a delay of five seconds to five minutes. *)
Theorem reconcileProgram_retries hasResolver rs w :
  recordSetProgrammedAtGeneration rs = false →
  let '(statuses, err, _) := EnsureRecordSet (k_pdns K (w_trace w)) json_zone json_error
    (k_clock K (w_trace w)) (z_DomainName zone) rs [] in
  err ≠ None ∨ forallb (λ st, isProgrammed (rss_Conditions st)) statuses = false →
  match (reconcileProgram json_zone json_error K hasResolver zone rs w).1 with
  | Err _ => True
  | Ok r => (5 * second ≤ RequeueAfter r ≤ 300 * second)%Z
  end.
Proof.
  intros Hp. unfold reconcileProgram. rewrite Hp, Ctl_bind_eq. unfold dns.
  destruct (EnsureRecordSet _ _ _ _ _ _ []) as [[statuses err] evs]. cbn [fst snd]. intros Hbad.
  rewrite Ctl_bind_eq. destruct (updateStatus K rs err statuses _) as [[rs'|e] w1]; cbn [fst snd]; [|done].
  destruct err as [e|].
  - destruct (IsTransient e); [done|]. rewrite !Ctl_bind_eq. cbn. apply retryDelaySince_bounds.
  - rewrite Ctl_bind_eq. cbn [ask Now fst snd]. set (now := k_now K _).
    pose proof (unprogrammedRetryDelay_spec statuses now) as Hd.
    destruct (unprogrammedRetryDelay statuses now) as [d|]; [by destruct Hd|].
    rewrite Hd in Hbad. by destruct Hbad.
Qed.
End Liveness.

(** * Examples *)

#[local] Existing Instance reference_runtime.
#[local] Existing Instance reference_apimeta.
#[local] Existing Instance reference_controllerutil.

Definition exampleZone : DNSZone :=
  {| z_Namespace := "ns"; z_Name := "z"; z_UID := "uz"; z_Generation := 1;
     z_DeletionTimestamp := None; z_Finalizers := []; z_DomainName := "example.com";
     z_DNSZoneClassName := "pdns"; z_Visibility := "Public"; z_Nameservers := [];
     z_RecordCount := 0; z_Conditions := []; z_DomainRef := None |}.

(** A cluster with one record set and one zone, and a PowerDNS that is [server]. *)
Definition exampleCluster (rs0 : DNSRecordSet) (server : list event → response) : Cluster :=
  {| k_recordSet := λ tr, KFound (stored rs0 tr); k_zone := λ _, KFound exampleZone;
     k_class := λ _, KNotFound []; k_list := λ _, Ok []; k_deleted := λ _, None;
     k_lookup := λ _, NoSuchName; k_now := λ _, 7%Z; k_pdns := λ _, server;
     k_clock := λ _, exampleClock |}.

Lemma example_cooperative :
  cooperative (λ _, Ok []) (exampleCluster exampleRecordSet exampleServer) exampleRecordSet exampleZone.
Proof.
  split; cbn; intros; try done; try by eexists.
  - by rewrite stored_snoc.
  - by rewrite stored_snoc.
  - by rewrite stored_snoc.
  - intros tr' rrsets. unfold accepted, exampleServer. by rewrite last_snoc.
Qed.

Lemma Reconcile_converges_witness :
  let w := runTimes (λ _, Ok []) (λ _, None) (exampleCluster exampleRecordSet exampleServer)
    "pdns" true true ("ns", "a") 5 {| w_trace := []; w_aliasChecks := ∅ |} in
  recordSetProgrammedAtGeneration (stored exampleRecordSet (w_trace w)) = true.
Proof.
  refine (proj1 (Reconcile_converges (λ _, Ok []) (λ _, None)
    (exampleCluster exampleRecordSet exampleServer) exampleRecordSet exampleZone
    "pdns" true true ("ns", "a") 5 ∅ example_cooperative _ eq_refl _ eq_refl _ _)).
  - discriminate.
  - discriminate.
  - constructor.
  - lia.
Defined.

(** A PowerDNS that answers 503 to patches it does not like. *)
Definition refusingServer (refused : list wireRRSet → bool) (evs : list event) : response :=
  match last evs with
  | Some (Sent (PatchZoneRequest _ rrsets)) => if refused rrsets then Response 503 [] else Response 204 []
  | _ => Response 200 []
  end.

Lemma reconcileProgram_retries_witness :
  let K := exampleCluster exampleRecordSet (refusingServer (λ _, true)) in
  match (reconcileProgram (λ _, Ok []) (λ _, None) K true exampleZone exampleRecordSet
    {| w_trace := []; w_aliasChecks := ∅ |}).1 with
  | Err _ => True
  | Ok r => (5 * second ≤ RequeueAfter r ≤ 300 * second)%Z
  end.
Proof.
  intros K. pose proof (reconcileProgram_retries (λ _, Ok []) (λ _, None) K exampleZone true
    exampleRecordSet {| w_trace := []; w_aliasChecks := ∅ |} eq_refl) as W.
  destruct (EnsureRecordSet _ _ _ _ _ _ []) as [[statuses err] evs] eqn:E.
  vm_compute in E. injection E as <- <- <-. apply W. by left.
Defined.

(** ** A removed name can be forgotten *)

(** The record set of the example, further on: it used to list [old], its fourth
    generation does not; and it is accepted and owned by the zone. *)
Definition shrunkRecordSet : DNSRecordSet :=
  {| rs_Namespace := "ns"; rs_Name := "a"; rs_UID := "u1"; rs_Generation := 4;
     rs_CreationTimestamp := 0; rs_DeletionTimestamp := None;
     rs_Finalizers := [downstreamRSFinalizer]; rs_OwnerReferences := [zoneReference exampleZone];
     rs_DNSZoneRef := "z"; rs_RecordType := RRTypeA; rs_Records := [exampleEntry];
     rs_Conditions := [{| c_Type := CondAccepted; c_Status := ConditionTrue; c_ObservedGeneration := 4;
       c_LastTransitionTime := 0; c_Reason := ReasonAccepted;
       c_Message := "RecordSet is accepted for processing" |}];
     rs_RecordSets := [] |}.

(** The RRset of the removed name, as the third generation wrote it. *)
Definition oldRRset : zoneRRset :=
  {| zr_Name := "old.example.com."; zr_Type := "A"; zr_TTL := 300;
     zr_Records := [liveRecord "192.0.2.9"];
     zr_Comments := Some (stampComments (ownerComments "ns:a" 3 "u1") [] 7) |}.

(** PowerDNS answers 503 to every patch that writes no records. *)
Definition keepingServer : list event → response := refusingServer (negb ∘ writesRecords).

Lemma keeping_cooperative :
  cooperative (λ _, Ok [oldRRset]) (exampleCluster shrunkRecordSet keepingServer) shrunkRecordSet exampleZone.
Proof.
  split; cbn; intros; try done; try by eexists.
  - by rewrite stored_snoc.
  - by rewrite stored_snoc.
  - by rewrite stored_snoc.
  - intros tr' rrsets Hw. unfold accepted, keepingServer, refusingServer. rewrite last_snoc. cbn. by rewrite Hw.
  - eexists. split; [reflexivity|]. intros key current e Hk _ He%list_elem_of_singleton. subst e.
    change (indexRRSets [oldRRset]) with ({[ ("old.example.com." : gostring, "A" : gostring) := oldRRset ]} : gmap rrsetKey zoneRRset) in Hk.
    apply lookup_singleton_Some in Hk as [<- <-]. intros Hn. vm_compute in Hn. discriminate.
Qed.

(** An event that asks PowerDNS to delete the RRset of the removed name. *)
Definition asksForOld (ev : kevent) : bool :=
  match ev with
  | KDns (Sent (PatchZoneRequest _ rrsets)) => existsb (λ rr, bool_decide (w_name rr = "old.example.com.")) rrsets
  | _ => false
  end.

Lemma Reconcile_forgets_delete_witness :
  let run k := runTimes (λ _, Ok [oldRRset]) (λ _, None) (exampleCluster shrunkRecordSet keepingServer)
    "pdns" true true ("ns", "a") k {| w_trace := []; w_aliasChecks := ∅ |} in
  existsb asksForOld (w_trace (run 5)) = true ∧
  ∃ evs, w_trace (run (5 + 7)) = w_trace (run 5) ++ evs ∧ Forall (λ ev, isDns ev = false) evs.
Proof.
  intros run. split; [vm_compute; reflexivity|].
  refine (proj2 (Reconcile_forgets_delete (λ _, Ok [oldRRset]) (λ _, None)
    (exampleCluster shrunkRecordSet keepingServer) shrunkRecordSet exampleZone
    "pdns" true true ("ns", "a") 5 7 ∅ keeping_cooperative _ eq_refl _ eq_refl _ _)).
  - discriminate.
  - discriminate.
  - constructor.
  - lia.
Defined.
