(* ===== verification/CtlWatch.v ===== *)
(** Package [internal/controller], file [dnsrecordset_downstream_controller.go]: which
    record sets an event wakes.  A record set whose name another one holds is not
    programmed; when the holder changes or goes, it has to be run again. *)

From S2P Require Import Prelude GoStrings Api ApiMeta Ownername PdnsClient CtlConditions Cluster CtlRecordSet.

Section Watch.
Context `{GoRuntime} `{ApiMeta}.
Context (K : Cluster).

Definition waitsOnAny (rs : DNSRecordSet) (domain : gostring) (names : gset gostring) : bool :=
  existsb (λ st, negb (isProgrammed (rss_Conditions st))
                 && bool_decide (Qualify (rss_Name st) domain ∈ names)) (rs_RecordSets rs).

(** The names a record set holds, or held. *)
Definition heldNames (rs : DNSRecordSet) : list gostring :=
  (re_Name <$> rs_Records rs) ++ (rss_Name <$> rs_RecordSets rs).

(** [holders] are the versions of one object in the event: the old and the new one, or the
    deleted one. *)
Definition recordSetsWaitingOn (holders : list DNSRecordSet) : Ctl (list NamespacedName) :=
  let held := holders ≫= heldNames in
  match last holders, held with
  | Some holder, _ :: _ =>
      r ← ask (KListUnprogrammed (rs_Namespace holder) (rs_DNSZoneRef holder)) (k_list K);
      match r with
      | Err _ | Ok [] => mret []
      | Ok items =>
          z ← getZone K (rs_Namespace holder, rs_DNSZoneRef holder);
          match z with
          | KNotFound _ => mret []
          | KFailed _ => mret (rsKey <$> filter (λ rs, rs_Name rs ≠ rs_Name holder) items)
          | KFound zone =>
              let names : gset gostring :=
                list_to_set ((λ name, Qualify name (z_DomainName zone)) <$> held) in
              mret (rsKey <$> filter (λ rs, rs_Name rs ≠ rs_Name holder ∧
                                            waitsOnAny rs (z_DomainName zone) names = true) items)
          end
      end
  | _, _ => mret []
  end.

Definition zoneProgrammed (zone : DNSZone) : bool := isProgrammed (z_Conditions zone).

(** The events of a zone that wake its record sets. *)
Inductive ZoneEvent :=
| ZoneCreated (zone : DNSZone)
| ZoneUpdated (old new : DNSZone)
| ZoneDeleted (zone : DNSZone)
| ZoneGeneric (zone : DNSZone).

Definition zoneBecameProgrammed (e : ZoneEvent) : bool :=
  match e with
  | ZoneCreated zone => zoneProgrammed zone
  | ZoneUpdated old new => negb (zoneProgrammed old) && zoneProgrammed new
  | ZoneDeleted _ | ZoneGeneric _ => false
  end.

(** The record sets of the zone that are queued. *)
Definition recordSetsOfZone (zone : DNSZone) : Ctl (list NamespacedName) :=
  r ← listRecordSets K (z_Namespace zone) (z_Name zone);
  mret (match r with Err _ => [] | Ok items => rsKey <$> items end).

(** * No lost wake-up *)

(** The index lists the record sets that [unprogrammedRecordSetZone] files under the zone. *)
Definition indexed (all : list DNSRecordSet) (ns zone : gostring) : list DNSRecordSet :=
  filter (λ rs, rs_Namespace rs = ns ∧ zone ∈ unprogrammedRecordSetZone rs) all.

Lemma unprogrammed_indexed rs st :
  st ∈ rs_RecordSets rs → isProgrammed (rss_Conditions st) = false →
  rs_DNSZoneRef rs ∈ unprogrammedRecordSetZone rs.
Proof.
  intros Hin Hst. unfold unprogrammedRecordSetZone. destruct (forallb _ _) eqn:E.
  - rewrite forallb_forall in E. apply list_elem_of_In, E in Hin. congruence.
  - by apply list_elem_of_singleton.
Qed.

(** C32. No record set waits for nothing.  Let a record set report a name that is not
    programmed, and let another one of the zone, which lists or reported that name in some
    spelling, be updated or deleted.  If the index of waiting record sets answers with what
    it files and the zone can be read or fails to be read, the waiting record set is
    queued. *)
Theorem recordSetsWaitingOn_complete holders holder all rs st name w :
  let key := (rs_Namespace holder, rs_DNSZoneRef holder) in
  let listed := w_trace w ++ [KListUnprogrammed key.1 key.2] in
  last holders = Some holder → name ∈ holders ≫= heldNames →
  k_list K listed = Ok (indexed all key.1 key.2) →
  rs ∈ all → rs_Namespace rs = rs_Namespace holder → rs_DNSZoneRef rs = rs_DNSZoneRef holder →
  rs_Name rs ≠ rs_Name holder →
  st ∈ rs_RecordSets rs → isProgrammed (rss_Conditions st) = false →
  match k_zone K (listed ++ [KGetZone key]) with
  | KNotFound _ => True
  | KFailed _ => rsKey rs ∈ (recordSetsWaitingOn holders w).1
  | KFound zone => Qualify (rss_Name st) (z_DomainName zone) = Qualify name (z_DomainName zone) →
                   rsKey rs ∈ (recordSetsWaitingOn holders w).1
  end.
Proof.
  intros key listed Hlast Hname Hlist Hall Hns Hz Hne Hst Hp.
  unfold listed, key in *. cbn [fst snd] in *. clear key listed.
  assert (rs ∈ indexed all (rs_Namespace holder) (rs_DNSZoneRef holder)) as Hin.
  { apply list_elem_of_filter. split; [|done]. split; [done|]. cbn. rewrite <- Hz. by eapply unprogrammed_indexed. }
  unfold recordSetsWaitingOn. cbn zeta. rewrite Hlast.
  destruct (holders ≫= heldNames) as [|n0 held] eqn:Eheld; [by apply not_elem_of_nil in Hname|].
  rewrite <- Eheld in *. unfold getZone, mbind, Ctl_bind, ask. cbn. rewrite Hlist.
  destruct (indexed all _ _) as [|rs1 items] eqn:Eidx; [by apply not_elem_of_nil in Hin|].
  rewrite <- Eidx in *. cbn. destruct (k_zone K _) as [zone|e|e]; [|done|].
  - intros Hq. cbn. apply list_elem_of_fmap_2, list_elem_of_filter. split; [|done]. split; [done|].
    unfold waitsOnAny. apply existsb_exists. exists st. rewrite <- list_elem_of_In. split; [done|].
    rewrite Hp. cbn. apply bool_decide_eq_true, elem_of_list_to_set. rewrite Hq.
    apply list_elem_of_fmap. by exists name.
  - cbn. by apply list_elem_of_fmap_2, list_elem_of_filter.
Qed.
End Watch.

(** * Witness: one record set waits for the name of another, spelled in another way *)

#[local] Existing Instance reference_runtime.
#[local] Existing Instance reference_apimeta.

Definition waitingStatus : RecordSetStatus :=
  {| rss_Name := "www.example.com.";
     rss_Conditions := [{| c_Type := CondProgrammed; c_Status := ConditionFalse; c_ObservedGeneration := 1;
       c_LastTransitionTime := 0; c_Reason := "Conflict"; c_Message := [] |}] |}.

Definition exampleWaiting (object : gostring) (records : list RecordEntry)
    (statuses : list RecordSetStatus) : DNSRecordSet :=
  {| rs_Namespace := "ns"; rs_Name := object; rs_UID := object; rs_Generation := 1;
     rs_CreationTimestamp := 0; rs_DeletionTimestamp := None; rs_Finalizers := [];
     rs_OwnerReferences := []; rs_DNSZoneRef := "z"; rs_RecordType := RRTypeA;
     rs_Records := records; rs_Conditions := []; rs_RecordSets := statuses |}.

Definition exampleHolder : DNSRecordSet := exampleWaiting "a" [set_Name "WWW" emptyEntry] [].
Definition exampleWaiter : DNSRecordSet := exampleWaiting "b" [] [waitingStatus].

Definition exampleIndex : Cluster :=
  {| k_recordSet := λ _, KNotFound [];
     k_zone := λ _, KFound {| z_Namespace := "ns"; z_Name := "z"; z_UID := "uz"; z_Generation := 1;
       z_DeletionTimestamp := None; z_Finalizers := []; z_DomainName := "example.com";
       z_DNSZoneClassName := "pdns"; z_Visibility := "Public"; z_Nameservers := [];
       z_RecordCount := 0; z_Conditions := []; z_DomainRef := None |};
     k_class := λ _, KNotFound []; k_list := λ _, Ok (indexed [exampleWaiter] "ns" "z");
     k_deleted := λ _, None; k_lookup := λ _, NoSuchName; k_now := λ _, 7%Z;
     k_pdns := λ _ _, NoResponse [];
     k_clock := λ _, {| metaNow := λ _ _, 7%Z; unixNow := λ _, 7%Z; today := λ _, [] |} |}.

Lemma recordSetsWaitingOn_complete_witness :
  rsKey exampleWaiter ∈
    (recordSetsWaitingOn exampleIndex [exampleHolder] {| w_trace := []; w_aliasChecks := ∅ |}).1.
Proof.
  refine (recordSetsWaitingOn_complete exampleIndex [exampleHolder] exampleHolder [exampleWaiter]
    exampleWaiter waitingStatus "WWW" {| w_trace := []; w_aliasChecks := ∅ |}
    eq_refl _ eq_refl _ eq_refl eq_refl _ _ eq_refl eq_refl).
  - by apply list_elem_of_singleton.
  - by apply list_elem_of_singleton.
  - discriminate.
  - by apply list_elem_of_singleton.
Defined.
