(* ===== verification/CtlZone.v ===== *)
(** Package [internal/controller], file [dnszone_downstream_controller.go], with the
    nameservers of package [internal/dns/utils]: the reconciler that creates a zone at
    PowerDNS, reports it and removes it. *)

From S2P Require Import Prelude GoStrings Api ApiMeta PdnsEncode PdnsErrors PdnsPatch PdnsClient PdnsSafety.
From S2P Require Import CtlConditions Cluster.

(** * Nameservers *)

(** The loop of [NormalizeStringSlice]: [seen] and [out]. *)
Definition normalizeStep (acc : gset gostring * list gostring) (v : gostring) :
    gset gostring * list gostring :=
  if decide (v ∈ acc.1) then acc else ({[v]} ∪ acc.1, acc.2 ++ [v]).

Definition NormalizeStringSlice (l : list gostring) : list gostring :=
  match l with
  | [] => []
  | _ => sortStrings (foldl normalizeStep (∅, []) l).2
  end.

Definition NameServerPolicyModeStatic : gostring := "Static".

Definition ClassNameservers (class : DNSZoneClass) : list gostring :=
  match zc_NameServerPolicy class with
  | None => []
  | Some policy =>
      if decide (nsp_Mode policy ≠ NameServerPolicyModeStatic) then []
      else match nsp_Static policy with None => [] | Some servers => NormalizeStringSlice servers end
  end.

(** The result lists each string once, in order, whatever the order and repetitions. *)
Lemma normalizeStep_foldl l seen out :
  let r := foldl normalizeStep (seen, out) l in
  (∀ v, v ∈ out → v ∈ seen) → (∀ v, v ∈ seen → v ∈ out) → NoDup out →
  NoDup r.2 ∧ ∀ v, v ∈ r.2 ↔ v ∈ out ∨ v ∈ l.
Proof.
  revert seen out. induction l as [|x l IH]; intros seen out; cbn.
  { intros _ _ Hnd. split; [done|]. intros v. rewrite elem_of_nil. tauto. }
  intros H1 H2 Hnd. unfold normalizeStep at 2 4. cbn. case_decide as Hx.
  - destruct (IH seen out H1 H2 Hnd) as [? Hin]. split; [done|]. intros v. rewrite Hin, elem_of_cons.
    split; [tauto|]. intros [?|[->|?]]; auto.
  - destruct (IH ({[x]} ∪ seen) (out ++ [x])) as [? Hin].
    + intros v [?| ->%list_elem_of_singleton]%elem_of_app; set_solver.
    + intros v [->%elem_of_singleton|?]%elem_of_union; apply elem_of_app;
        [right; by apply list_elem_of_singleton|auto].
    + apply NoDup_app. split_and!; [done| |apply NoDup_singleton].
      intros v Hv ->%list_elem_of_singleton. auto.
    + split; [done|]. intros v. rewrite Hin, elem_of_app, list_elem_of_singleton, elem_of_cons. tauto.
Qed.

Lemma NormalizeStringSlice_spec l :
  NoDup (NormalizeStringSlice l) ∧ StronglySorted str_le (NormalizeStringSlice l) ∧
  ∀ v, v ∈ NormalizeStringSlice l ↔ v ∈ l.
Proof.
  destruct l as [|x l]; [split_and!; [constructor..|done]|].
  unfold NormalizeStringSlice.
  destruct (normalizeStep_foldl (x :: l) ∅ []) as [Hnd Hin]; [set_solver..|constructor|].
  split_and!; [by rewrite sortStrings_perm|apply sortStrings_sorted|].
  intros v. rewrite sortStrings_perm, Hin, elem_of_nil. tauto.
Qed.

(** * The reconciler *)

Definition downstreamZoneFinalizer : gostring :=
  "dns.networking.miloapis.com/finalize-dnszone-downstream".

Section Reconciler.
Context `{GoRuntime} `{ApiMeta} `{ControllerUtil}.
Context (json_zone : gostring → result gostring (list zoneRRset)).
Context (json_name : gostring → result gostring gostring).
Context (K : Cluster).

(** [r.Delete] for each record set; an error is only logged. *)
Fixpoint deleteAll (items : list DNSRecordSet) : Ctl unit :=
  match items with
  | [] => mret tt
  | rs :: items' => _ ← ask (KDeleteRecordSet rs) (k_deleted K); deleteAll items'
  end.

(** [Reconcile] while the zone is being deleted.  The object does not change between the
    two checks of its finalizer. *)
Definition reconcileZoneDeletion (zone : DNSZone) : Ctl (result CtlError Result) :=
  if negb (ContainsFinalizer (z_Finalizers zone) downstreamZoneFinalizer) then mret (Ok emptyResult)
  else
    rrs ← listRecordSets K (z_Namespace zone) (z_Name zone);
    match rrs with
    | Err e => mret (Err (KubeError e))
    | Ok (rs :: items) =>
        _ ← deleteAll (rs :: items);
        mret (Ok {| RequeueAfter := 0; Requeue := true |})
    | Ok [] =>
        err ← dns K (λ server _, DeleteZone server json_zone (z_DomainName zone));
        match err with
        | Some e => mret (Err (DnsError e))
        | None =>
            r ← patchZone K zone
                  (set_z_Finalizers (RemoveFinalizer (z_Finalizers zone) downstreamZoneFinalizer) zone);
            mret (returnErr (errOf r))
        end
    end.

(** Set a condition of the zone; [base] is what the patch is computed from. *)
Definition setZoneCondition (zone : DNSZone) (type reason message : gostring) :
    Ctl (list Condition * bool) :=
  now ← Now K;
  mret (SetStatusCondition (z_Conditions zone)
    {| c_Type := type; c_Status := ConditionTrue; c_ObservedGeneration := z_Generation zone;
       c_LastTransitionTime := now; c_Reason := reason; c_Message := message |}).

(** The last step of [Reconcile]. *)
Definition reportProgrammed (base zone : DNSZone) : Ctl (result CtlError Result) :=
  '(conds, changed) ← setZoneCondition zone CondProgrammed ReasonProgrammed "Zone Programmed";
  if (changed : bool) then
    r ← patchZoneStatus K base (set_z_Status (z_Nameservers zone) conds zone);
    mret (returnErr (errOf r))
  else mret (Ok emptyResult).

(** [Reconcile] from the conditions on. *)
Definition reconcileZoneLive (class : DNSZoneClass) (base : DNSZone) : Ctl (result CtlError Result) :=
  '(conds, changed) ← setZoneCondition base CondAccepted ReasonAccepted "Zone Accepted";
  let zone := set_z_Status (z_Nameservers base) conds base in
  if (changed : bool) then r ← patchZoneStatus K base zone; mret (returnErr (errOf r))
  else
    let desiredNS := ClassNameservers class in
    err ← dns K (λ server _, EnsureZone server json_name (z_DomainName zone) desiredNS);
    match err with
    | Some e => mret (Err (DnsError e))
    | None =>
        let currentNS := NormalizeStringSlice (z_Nameservers zone) in
        if decide (desiredNS ≠ [] ∧ currentNS ≠ desiredNS) then
          r ← patchZoneStatus K base (set_z_Status desiredNS conds zone);
          match r with
          | KFound zone => reportProgrammed base zone
          | KNotFound e | KFailed e => mret (Err (KubeError e))
          end
        else reportProgrammed base zone
    end.

(** [className] is [r.DNSHandler.Client.Name]. *)
Definition Reconcile (className : gostring) (req : NamespacedName) : Ctl (result CtlError Result) :=
  r ← getZone K req;
  match r with
  | KNotFound _ => mret (Ok emptyResult)
  | KFailed e => mret (Err (KubeError e))
  | KFound zone =>
      if decide (z_Visibility zone = DNSZoneVisibilityPrivate) then mret (Ok emptyResult)
      else if decide (z_DNSZoneClassName zone = [] ∨ z_DNSZoneClassName zone ≠ className)
      then mret (Ok emptyResult)
      else
        zc ← getClass K (z_DNSZoneClassName zone);
        match zc with
        | KNotFound _ => mret (Ok emptyResult)
        | KFailed e => mret (Err (KubeError e))
        | KFound class =>
            if decide (z_DeletionTimestamp zone ≠ None) then reconcileZoneDeletion zone
            else if negb (ContainsFinalizer (z_Finalizers zone) downstreamZoneFinalizer) then
              r ← patchZone K zone
                    (set_z_Finalizers (AddFinalizer (z_Finalizers zone) downstreamZoneFinalizer) zone);
              mret (returnErr (errOf r))
            else reconcileZoneLive class zone
        end
  end.

(** * When a zone is removed *)

(** PowerDNS is asked to delete the zone, in a run that began after [start], only when the
    object is being deleted and the list of its record sets came back empty. *)
Definition emptied (req : NamespacedName) (start tr : list kevent) (zone : DNSZone)
    (evs : list event) : Prop :=
  k_zone K (start ++ [KGetZone req]) = KFound zone ∧ z_DeletionTimestamp zone ≠ None ∧
  let seen := start ++ [KGetZone req; KGetClass (z_DNSZoneClassName zone);
                        KListRecordSets (z_Namespace zone) (z_Name zone)] in
  k_list K seen = Ok [] ∧ tr = seen ++ (KDns <$> evs).

(** PowerDNS has deleted the zone, or does not have it. *)
Definition zoneGone (req : NamespacedName) (start tr : list kevent) : Prop :=
  ∃ zone evs, emptied req start tr zone evs ∧
    (z_DomainName zone = [] ∨
     ∃ evs' status body, evs = evs' ++ [Sent (DeleteZoneRequest (z_DomainName zone))] ∧
       k_pdns K (start ++ [KGetZone req; KGetClass (z_DNSZoneClassName zone);
         KListRecordSets (z_Namespace zone) (z_Name zone)]) evs = Response status body ∧
       status ∈ [404; 204; 200]%Z).

Lemma DeleteZone_None server domain :
  (DeleteZone server json_zone domain []).1 = None →
  domain = [] ∨ ∃ evs status body,
    (DeleteZone server json_zone domain []).2 = evs ++ [Sent (DeleteZoneRequest domain)] ∧
    server (evs ++ [Sent (DeleteZoneRequest domain)]) = Response status body ∧
    status ∈ [404; 204; 200]%Z.
Proof.
  unfold DeleteZone. case_decide; [by left|]. unfold mbind, Io_bind, Do, freshId. intros Hr. right.
  destruct (clearZoneComments _ _ _ _) as [[e|] evs]; [done|]. cbn in Hr |- *.
  destruct (server _) as [|status body] eqn:E; [done|]. exists evs, status, body.
  split_and!; [by case_match|done|]. destruct (_ || _) eqn:Hs in Hr; [|done].
  rewrite !orb_true_iff, !Z.eqb_eq in Hs. rewrite !elem_of_cons. tauto.
Qed.

Lemma EnsureZone_emits server domain nss :
  emits (λ ev, ∀ d, ev ≠ Sent (DeleteZoneRequest d)) (EnsureZone server json_name domain nss).
Proof.
  assert (∀ r, (∀ d, r ≠ DeleteZoneRequest d) →
    emits (λ ev, ∀ d, ev ≠ Sent (DeleteZoneRequest d)) (Do server r)) as Hdo.
  { intros r Hr tr. exists [Sent r]. split; [done|]. apply Forall_singleton. intros d [= ->]. by destruct (Hr d). }
  assert (emits (λ ev, ∀ d, ev ≠ Sent (DeleteZoneRequest d)) freshId) as Hfresh.
  { intros tr. exists []. by rewrite app_nil_r. }
  unfold EnsureZone, GetZone, CreateZone.
  repeat first [ apply emits_bind; [first [by apply Hdo|apply Hfresh|idtac]|intros ?] | case_match ];
    auto with iodb.
Qed.

Definition zoneGuard (req : NamespacedName) (start tr : list kevent) (ev : kevent) : Prop :=
  match ev with
  | KDns (Sent (DeleteZoneRequest _)) => ∃ zone evs, emptied req start tr zone evs
  | KPatchZone base zone =>
      downstreamZoneFinalizer ∈ z_Finalizers base → downstreamZoneFinalizer ∉ z_Finalizers zone →
      zoneGone req start tr
  | _ => True
  end.

Lemma deleteAll_guarded req start items w : guarded (zoneGuard req start) (deleteAll items) w.
Proof.
  revert w. induction items as [|rs items IH]; intros w; cbn [deleteAll]; [by apply guarded_quiet|].
  apply guarded_bind; [by apply guarded_ask|apply IH].
Qed.

Lemma reconcileZoneDeletion_guarded req start zone w :
  w_trace w = start ++ [KGetZone req; KGetClass (z_DNSZoneClassName zone)] →
  k_zone K (start ++ [KGetZone req]) = KFound zone → z_DeletionTimestamp zone ≠ None →
  guarded (zoneGuard req start) (reconcileZoneDeletion zone) w.
Proof.
  intros Hw Hz Hd. unfold reconcileZoneDeletion, listRecordSets, patchZone.
  destruct (ContainsFinalizer _ _); [|by apply guarded_quiet]. cbn [negb].
  apply guarded_bind; [by apply guarded_ask|]. cbn [ask fst snd].
  set (w1 := note _ w).
  assert (w_trace w1 = start ++ [KGetZone req; KGetClass (z_DNSZoneClassName zone);
    KListRecordSets (z_Namespace zone) (z_Name zone)]) as Hw1 by (cbn; by rewrite Hw, <- app_assoc).
  destruct (k_list K (w_trace w1)) as [[|rs items]|e] eqn:Hl; [| |by apply guarded_quiet].
  2:{ apply guarded_bind; [apply deleteAll_guarded|by apply guarded_quiet]. }
  rewrite Hw1 in Hl.
  apply guarded_bind.
  { apply guarded_dns_calls. intros evs1 e evs2 _. destruct e as [[]|]; try done.
    exists zone, evs1. by rewrite Hw1. }
  unfold dns. rewrite Hw1. set (seen := start ++ [_; _; _]) in *.
  pose proof (DeleteZone_None (k_pdns K seen) (z_DomainName zone)) as Hgone.
  destruct (DeleteZone _ _ _ []) as [[e|] evs]; cbn [fst snd] in *; [by apply guarded_quiet|].
  apply guarded_bind; [|by apply guarded_quiet]. apply guarded_ask. intros _ _. exists zone, evs.
  split; [done|]. destruct (Hgone eq_refl) as [|(evs' & status & body & -> & Hs & Hin)]; [by left|right].
  by exists evs', status, body.
Qed.

Lemma reconcileZoneLive_guarded req start class zone w :
  guarded (zoneGuard req start) (reconcileZoneLive class zone) w.
Proof.
  unfold reconcileZoneLive, reportProgrammed, setZoneCondition, Now, patchZoneStatus.
  repeat guard_step; try done.
  apply guarded_dns_calls. intros evs1 e evs2 Hev.
  match type of Hev with (EnsureZone ?srv _ ?d ?nss []).2 = _ =>
    destruct (EnsureZone_emits srv d nss []) as (evs & E & HF) end.
  rewrite Hev in E. cbn in E. subst evs. apply Forall_app in HF as [_ [He _]%Forall_cons].
  destruct e as [[]|]; try done. by destruct (He zone0).
Qed.

(** C15. A zone is removed from PowerDNS only once its record sets are gone, and the object
    only once PowerDNS has removed the zone.  In every run of the reconciler, PowerDNS is
    asked to delete the zone only when the object is being deleted and the list of its
    record sets, made in that run, is empty; and a patch that drops the finalizer comes
    only after, in that run, PowerDNS answered that delete with success or that it has no
    such zone. *)
Theorem Reconcile_zone_removal className req w :
  ∃ evs, w_trace (Reconcile className req w).2 = w_trace w ++ evs ∧
    (∀ evs1 d evs2, evs = evs1 ++ KDns (Sent (DeleteZoneRequest d)) :: evs2 →
       ∃ zone calls, emptied req (w_trace w) (w_trace w ++ evs1) zone calls) ∧
    (∀ evs1 base zone evs2, evs = evs1 ++ KPatchZone base zone :: evs2 →
       downstreamZoneFinalizer ∈ z_Finalizers base → downstreamZoneFinalizer ∉ z_Finalizers zone →
       zoneGone req (w_trace w) (w_trace w ++ evs1)).
Proof.
  destruct (guarded_at (zoneGuard req (w_trace w)) (Reconcile className req) w) as (evs & E & HG).
  2:{ exists evs. split_and!; [done|..].
      - intros evs1 d evs2 Hev. exact (HG evs1 (KDns (Sent (DeleteZoneRequest d))) evs2 Hev).
      - intros evs1 base zone evs2 Hev. exact (HG evs1 (KPatchZone base zone) evs2 Hev). }
  unfold Reconcile, getZone, getClass, patchZone.
  repeat first [ apply reconcileZoneLive_guarded
               | apply reconcileZoneDeletion_guarded; [cbn; by rewrite <- app_assoc|done|done]
               | guard_step ]; try done.
  intros Hin []. apply AddFinalizer_spec. by left.
Qed.
End Reconciler.
