(* ===== verification/Admission.v ===== *)
(** Package [internal/webhook], files [dnsrecordset_validating.go] and
    [dnsrecordset_mutating.go]: what is refused when a record set is created or updated,
    and the annotations it gets.

    The client of the project is the one [clusterClient] picks; here it is the cluster of
    the model.  A refusal is the list of its field errors: which record, and for a claimed
    name the name and its holder. *)

From S2P Require Import Prelude GoStrings Api Ownername Display PdnsClient Cluster.

(** * Wildcards *)

Definition isWildcardName (name : gostring) : bool :=
  bool_decide (name = "*") || HasPrefix name "*.".

(** The indices of the records that are refused. *)
Definition refuseWildcardAlias (oldRS : option DNSRecordSet) (rs : DNSRecordSet) : list nat :=
  if decide (rs_RecordType rs ≠ RRTypeALIAS) then []
  else
    let stored : gset gostring :=
      match oldRS with
      | Some old => if decide (rs_RecordType old = RRTypeALIAS)
                    then list_to_set (re_Name <$> rs_Records old) else ∅
      | None => ∅
      end in
    omap (λ '(i, rec),
      if negb (isWildcardName (re_Name rec)) then None
      else if decide (re_Name rec ∈ stored) then None
      else Some i) (imap pair (rs_Records rs)).

(** * Claimed names *)

Definition typesShareName (a b : RRType) : bool :=
  bool_decide (a = b ∨ a = RRTypeCNAME ∨ b = RRTypeCNAME).

Record ownerClaim := { oc_recordIndex : nat; oc_ownerName : gostring }.

(** The earlier of two record sets, by creation and then by name. *)
Definition firstClaimant (a b : DNSRecordSet) : DNSRecordSet :=
  if (rs_CreationTimestamp a =? rs_CreationTimestamp b)%Z
  then if str_ltb (rs_Name b) (rs_Name a) then b else a
  else if (rs_CreationTimestamp a <? rs_CreationTimestamp b)%Z then a else b.

(** A field error: the record, the name it claims and who holds it. *)
Record ClaimError := { ce_claim : ownerClaim; ce_name : gostring; ce_holder : DNSRecordSet }.

Section Validator.
Context `{GoRuntime}.

Definition claimStep (zoneDomainName : gostring) (claims : gmap gostring ownerClaim)
    (p : nat * RecordEntry) : gmap gostring ownerClaim :=
  let '(i, rec) := p in
  if decide (re_Name rec = []) then claims
  else
    let k := Qualify (re_Name rec) zoneDomainName in
    if claims !! k is Some _ then claims
    else <[k := {| oc_recordIndex := i; oc_ownerName := re_Name rec |}]> claims.

Definition newOwnerClaims (rs : DNSRecordSet) (zoneDomainName : gostring) : gmap gostring ownerClaim :=
  foldl (claimStep zoneDomainName) ∅ (imap pair (rs_Records rs)).

(** The claims that are checked: those the stored object does not make already. *)
Definition newClaims (oldRS : option DNSRecordSet) (rs : DNSRecordSet) (domain : gostring) :
    gmap gostring ownerClaim :=
  let claims := newOwnerClaims rs domain in
  match oldRS with
  | Some old =>
      if decide (rs_RecordType old = rs_RecordType rs ∧ rs_DNSZoneRef old = rs_DNSZoneRef rs)
      then foldl (λ claims rec, delete (Qualify (re_Name rec) domain) claims) claims (rs_Records old)
      else claims
  | None => claims
  end.

(** Another record set that contends for the names of [rs]. *)
Definition contends (rs other : DNSRecordSet) : bool :=
  negb (bool_decide (rs_Name other = rs_Name rs)) && bool_decide (rs_DeletionTimestamp other = None)
  && bool_decide (rs_DNSZoneRef other = rs_DNSZoneRef rs)
  && typesShareName (rs_RecordType other) (rs_RecordType rs).

Definition holdStep (claims : gmap gostring ownerClaim) (domain : gostring) (other : DNSRecordSet)
    (holders : gmap gostring DNSRecordSet) (rec : RecordEntry) : gmap gostring DNSRecordSet :=
  let k := Qualify (re_Name rec) domain in
  if claims !! k is None then holders
  else match holders !! k with
       | None => <[k := other]> holders
       | Some held => <[k := firstClaimant held other]> holders
       end.

Definition claimHolders (rs : DNSRecordSet) (claims : gmap gostring ownerClaim) (domain : gostring)
    (items : list DNSRecordSet) : gmap gostring DNSRecordSet :=
  foldl (λ holders other,
      if contends rs other then foldl (holdStep claims domain other) holders (rs_Records other)
      else holders) ∅ items.

(** The errors, in the order of the records. *)
Definition claimErrors (claims : gmap gostring ownerClaim) (holders : gmap gostring DNSRecordSet) :
    list ClaimError :=
  let index k := default 0 (oc_recordIndex <$> claims !! k) in
  let contested := sort_slice (λ a b, index a <? index b) (map_range holders).*1 in
  omap (λ k, claim ← claims !! k; holder ← holders !! k;
             Some {| ce_claim := claim; ce_name := k; ce_holder := holder |}) contested.

Context (K : Cluster).

(** The list is of the whole namespace. *)
Definition refuseClaimedOwnerNames (oldRS : option DNSRecordSet) (rs : DNSRecordSet) :
    Ctl (list ClaimError) :=
  if decide (rs_DNSZoneRef rs = [] ∨ rs_Records rs = []) then mret []
  else
    z ← getZone K (rs_Namespace rs, rs_DNSZoneRef rs);
    match z with
    | KNotFound _ | KFailed _ => mret []
    | KFound zone =>
        let domain := z_DomainName zone in
        let claims := newClaims oldRS rs domain in
        if decide (size claims = 0) then mret []
        else
          r ← listRecordSets K (rs_Namespace rs) [];
          match r with
          | Err _ => mret []
          | Ok items => mret (claimErrors claims (claimHolders rs claims domain items))
          end
    end.

(** [ValidateCreate] and [ValidateUpdate]: the indices of wildcard ALIAS records, or the
    claimed names. *)
Definition validateRecordSet (oldRS : option DNSRecordSet) (rs : DNSRecordSet) :
    Ctl (result (list nat) (list ClaimError)) :=
  match refuseWildcardAlias oldRS rs with
  | [] => errs ← refuseClaimedOwnerNames oldRS rs; mret (Ok errs)
  | idxs => mret (Err idxs)
  end.

(** * The mutating webhook *)

(** The stored object of the request: [None] when there is none, [Some None] when it does
    not decode. *)
Definition stampActivityAnnotations (old : option (option DNSRecordSet)) (annotations : Annotations)
    (rs : DNSRecordSet) (zoneDomainName : gostring) : Annotations :=
  match old with
  | Some (Some oldRS) =>
      (EnsureActivityAnnotations annotations rs (Some oldRS) zoneDomainName).1
  | _ => (ClearActivityAnnotations annotations).1
  end.

Definition Default (old : option (option DNSRecordSet)) (annotations : Annotations) (rs : DNSRecordSet) :
    Ctl (result gostring Annotations) :=
  if decide (rs_DNSZoneRef rs = []) then mret (Ok annotations)
  else
    z ← getZone K (rs_Namespace rs, rs_DNSZoneRef rs);
    match z with
    | KNotFound _ => mret (Ok annotations)
    | KFailed e =>
        mret (Err ("getting DNSZone " ++ rs_Namespace rs ++ "/" ++ rs_DNSZoneRef rs ++ ": " ++ e))
    | KFound zone =>
        let annotations := (EnsureAnnotations annotations rs (z_DomainName zone)).1 in
        mret (Ok (stampActivityAnnotations old annotations rs (z_DomainName zone)))
    end.

(** * What is admitted *)

(** The record set lists a record at the name [k]. *)
Definition lists (rs : DNSRecordSet) (domain k : gostring) : Prop :=
  ∃ e, e ∈ rs_Records rs ∧ k = Qualify (re_Name e) domain.

Definition named (rs : DNSRecordSet) : Prop := Forall (λ e, re_Name e ≠ []) (rs_Records rs).

Lemma elem_of_imap_pair {A} (l : list A) i x : (i, x) ∈ imap pair l ↔ l !! i = Some x.
Proof.
  rewrite list_elem_of_lookup. split.
  - intros (j & Hj). rewrite list_lookup_imap in Hj. apply fmap_Some in Hj as (y & Hy & [= -> ->]). done.
  - intros Hi. exists i. by rewrite list_lookup_imap, Hi.
Qed.

Lemma claimStep_Some domain l k :
  is_Some (foldl (claimStep domain) ∅ l !! k) ↔
  ∃ p, p ∈ l ∧ re_Name p.2 ≠ [] ∧ k = Qualify (re_Name p.2) domain.
Proof.
  induction l as [|[i rec] l IH] using rev_ind.
  { cbn. rewrite lookup_empty. split; [by intros []|]. by intros (? & ?%not_elem_of_nil & _). }
  rewrite foldl_snoc. unfold claimStep at 1. setoid_rewrite elem_of_app.
  setoid_rewrite list_elem_of_singleton. case_decide as Hn; [naive_solver|].
  destruct (foldl _ ∅ l !! Qualify (re_Name rec) domain) as [c|] eqn:E.
  - rewrite IH. split; [naive_solver|]. intros (p & [?| ->] & ?); [eauto|].
    cbn in *. apply IH. destruct_and!. subst k. rewrite E. by eexists.
  - rewrite lookup_insert_is_Some. destruct (decide (Qualify (re_Name rec) domain = k)) as [<-|Hne].
    + split; [|by left]. intros _. exists (i, rec). auto.
    + split.
      * intros [?|[_ Hk]]; [done|]. apply IH in Hk. naive_solver.
      * intros (p & [?| ->] & ? & ?); [|by cbn in *]. right. split; [done|]. apply IH. eauto.
Qed.

Lemma newOwnerClaims_Some rs domain k :
  named rs → is_Some (newOwnerClaims rs domain !! k) ↔ lists rs domain k.
Proof.
  intros Hn. unfold newOwnerClaims, lists. rewrite claimStep_Some. unfold named in Hn. rewrite Forall_forall in Hn.
  split.
  - intros ([i e] & Hin%elem_of_imap_pair & _ & ->). exists e. split; [by eapply list_elem_of_lookup_2|done].
  - intros (e & He & ->). pose proof (Hn e He). apply list_elem_of_lookup in He as (i & Hi).
    exists (i, e). by rewrite elem_of_imap_pair.
Qed.

(** The stored object makes the claim already. *)
Definition keeps (oldRS : option DNSRecordSet) (rs : DNSRecordSet) (domain k : gostring) : Prop :=
  match oldRS with
  | Some old => rs_RecordType old = rs_RecordType rs ∧ rs_DNSZoneRef old = rs_DNSZoneRef rs ∧
                lists old domain k
  | None => False
  end.

Lemma newClaims_Some oldRS rs domain k :
  named rs → is_Some (newClaims oldRS rs domain !! k) ↔ lists rs domain k ∧ ¬ keeps oldRS rs domain k.
Proof.
  intros Hn. unfold newClaims, keeps. destruct oldRS as [old|]; [|rewrite newOwnerClaims_Some by done; tauto].
  case_decide as Hsame; [|rewrite newOwnerClaims_Some by done; tauto].
  transitivity (is_Some (newOwnerClaims rs domain !! k) ∧ ¬ lists old domain k);
    [|rewrite newOwnerClaims_Some by done; tauto].
  unfold lists. generalize (newOwnerClaims rs domain) as m.
  induction (rs_Records old) as [|e l IH]; intros m; cbn [foldl].
  { setoid_rewrite elem_of_nil. naive_solver. }
  rewrite IH. setoid_rewrite elem_of_cons.
  destruct (decide (Qualify (re_Name e) domain = k)) as [<-|Hne].
  - rewrite lookup_delete_eq. split; [by intros [[] _]|]. intros [_ []]. exists e. auto.
  - rewrite lookup_delete_ne by done. naive_solver.
Qed.

(** Who holds a contested name. *)
Lemma holdStep_Some claims domain other l holders k :
  is_Some (foldl (holdStep claims domain other) holders l !! k) ↔
  is_Some (holders !! k) ∨ is_Some (claims !! k) ∧ ∃ e, e ∈ l ∧ k = Qualify (re_Name e) domain.
Proof.
  revert holders. induction l as [|e l IH]; intros holders; cbn [foldl].
  { setoid_rewrite elem_of_nil. naive_solver. }
  rewrite IH. setoid_rewrite elem_of_cons. unfold holdStep.
  destruct (claims !! Qualify (re_Name e) domain) as [c|] eqn:Ec.
  - assert (is_Some (match holders !! Qualify (re_Name e) domain with
        | Some held => <[Qualify (re_Name e) domain := firstClaimant held other]> holders
        | None => <[Qualify (re_Name e) domain := other]> holders end !! k) ↔
      is_Some (holders !! k) ∨ k = Qualify (re_Name e) domain) as ->.
    { destruct (decide (k = Qualify (re_Name e) domain)) as [->|Hne].
      - case_match; rewrite lookup_insert_eq; split; eauto.
      - case_match; rewrite lookup_insert_ne by done; tauto. }
    split; [|naive_solver]. intros [[?| ->]|?]; [by left|right|naive_solver]. split; [by eexists|eauto].
  - split; [naive_solver|]. intros [?|[Hk (e' & [-> | ?] & ->)]]; [by left| |naive_solver].
    by rewrite Ec in Hk; destruct Hk.
Qed.

Lemma claimHolders_Some rs claims domain items k :
  is_Some (claimHolders rs claims domain items !! k) ↔
  is_Some (claims !! k) ∧ ∃ other, other ∈ items ∧ contends rs other = true ∧ lists other domain k.
Proof.
  unfold claimHolders. induction items as [|other items IH] using rev_ind.
  { cbn. rewrite lookup_empty. setoid_rewrite elem_of_nil. split; [by intros []|naive_solver]. }
  rewrite foldl_snoc. setoid_rewrite elem_of_app. setoid_rewrite list_elem_of_singleton.
  destruct (contends rs other) eqn:Hc.
  - rewrite holdStep_Some, IH. split.
    + intros [[? (o & ? & ? & ?)]|[? (e & ? & ?)]]; [by eauto 10|]. split; [done|]. exists other.
      split_and!; [by right|done|by exists e].
    + intros [? (o & [?| ->] & ? & Hl)]; [by left; eauto|]. right. by split.
  - rewrite IH. split; [naive_solver|]. intros [? (o & [?| ->] & ? & ?)]; [eauto|congruence].
Qed.

Lemma claimErrors_nil rs claims domain items k :
  claimErrors claims (claimHolders rs claims domain items) = [] →
  claimHolders rs claims domain items !! k = None.
Proof.
  intros Hnil. apply eq_None_not_Some. intros Hk. pose proof Hk as [Hcl _]%claimHolders_Some.
  destruct Hk as [holder Hh], Hcl as [claim Hc].
  assert ({| ce_claim := claim; ce_name := k; ce_holder := holder |} ∈
    claimErrors claims (claimHolders rs claims domain items)) as Hin; [|by rewrite Hnil in Hin; apply not_elem_of_nil in Hin].
  unfold claimErrors. apply list_elem_of_omap. exists k. rewrite sort_slice_perm, map_range_perm.
  split; [|by rewrite Hc, Hh]. apply list_elem_of_fmap. exists (k, holder).
  split; [done|by apply elem_of_map_to_list].
Qed.

(** No two record sets in use of one zone contend for a name. *)
Definition exclusive (zoneRef domain : gostring) (items : list DNSRecordSet) : Prop :=
  ∀ a b k, a ∈ items → b ∈ items → rs_DNSZoneRef a = zoneRef → rs_DeletionTimestamp a = None →
    contends a b = true → lists a domain k → lists b domain k → False.

(** The list with [rs] in place of the object of its name. *)
Definition replaceIn (rs : DNSRecordSet) (items : list DNSRecordSet) : list DNSRecordSet :=
  rs :: filter (λ o, rs_Name o ≠ rs_Name rs) items.

Lemma contends_spec a b :
  contends a b = true ↔ rs_Name b ≠ rs_Name a ∧ rs_DeletionTimestamp b = None ∧
    rs_DNSZoneRef b = rs_DNSZoneRef a ∧ typesShareName (rs_RecordType b) (rs_RecordType a) = true.
Proof.
  unfold contends. rewrite !andb_true_iff, negb_true_iff, bool_decide_eq_false, !bool_decide_eq_true. tauto.
Qed.

Lemma typesShareName_sym a b : typesShareName a b = typesShareName b a.
Proof. unfold typesShareName. apply bool_decide_ext. naive_solver. Qed.

Lemma contends_sym a b :
  rs_DeletionTimestamp a = None → contends a b = true → contends b a = true.
Proof. rewrite !contends_spec, typesShareName_sym. naive_solver. Qed.

(** An admitted record set contends only for names the stored object has. *)
Lemma admitted_free oldRS rs domain items other k :
  named rs → claimErrors (newClaims oldRS rs domain)
    (claimHolders rs (newClaims oldRS rs domain) domain items) = [] →
  other ∈ items → contends rs other = true → lists rs domain k → lists other domain k →
  ¬ keeps oldRS rs domain k → False.
Proof.
  intros Hn Hnil Hin Hc Hl Ho Hk. apply (claimErrors_nil _ _ _ _ k) in Hnil.
  assert (is_Some (claimHolders rs (newClaims oldRS rs domain) domain items !! k)) as [? E]; [|congruence].
  apply claimHolders_Some. split; [by apply newClaims_Some|eauto].
Qed.

Lemma replaceIn_exclusive zoneRef domain rs items :
  exclusive zoneRef domain items → rs_DNSZoneRef rs = zoneRef →
  (∀ other k, other ∈ items → rs_DeletionTimestamp rs = None → contends rs other = true →
     lists rs domain k → lists other domain k → False) →
  exclusive zoneRef domain (replaceIn rs items).
Proof.
  intros Hex Hz Hfree a b k Ha Hb Hza Hda Hc Hla Hlb. unfold replaceIn in *.
  pose proof (proj1 (contends_spec a b) Hc) as (Hn & Hdb & Hzb & _).
  apply elem_of_cons in Ha as [-> |[_ Ha]%list_elem_of_filter], Hb as [-> |[_ Hb]%list_elem_of_filter].
  - done.
  - by eapply (Hfree b).
  - eapply (Hfree a); [done|done|by apply contends_sym|done|done].
  - exact (Hex a b k Ha Hb Hza Hda Hc Hla Hlb).
Qed.

(** What the webhook sees: the zone and the record sets of the namespace. *)
Definition sees (rs : DNSRecordSet) (zone : DNSZone) (items : list DNSRecordSet) (w : world) : Prop :=
  let get := KGetZone (rs_Namespace rs, rs_DNSZoneRef rs) in
  k_zone K (w_trace w ++ [get]) = KFound zone ∧
  k_list K (w_trace w ++ [get; KListRecordSets (rs_Namespace rs) []]) = Ok items.

Lemma validateRecordSet_errors oldRS rs zone items w :
  rs_DNSZoneRef rs ≠ [] → rs_Records rs ≠ [] → sees rs zone items w →
  (validateRecordSet oldRS rs w).1 = Ok [] →
  let claims := newClaims oldRS rs (z_DomainName zone) in
  claimErrors claims (claimHolders rs claims (z_DomainName zone) items) = [] ∨ claims = ∅.
Proof.
  intros Hz Hr [Hzone Hlist]. unfold validateRecordSet. destruct (refuseWildcardAlias oldRS rs); [|done].
  unfold refuseClaimedOwnerNames, getZone, listRecordSets, mbind, Ctl_bind, ask.
  rewrite decide_False by tauto. cbn. rewrite Hzone. case_decide as Hs; cbn.
  - intros _. right. by apply map_size_empty_inv.
  - rewrite <- app_assoc. cbn. rewrite Hlist. cbn. intros [= E]. by left.
Qed.

(** C16. Admission keeps names exclusive.  If the record sets in use in a zone contend for
    no name, the webhook sees the zone and the record sets as they are, and it admits a new
    record set or the update of one, then they still contend for no name: no two of one
    type, and no CNAME with another, list records at the same name. *)
Theorem validateRecordSet_exclusive oldRS rs zone items w :
  sees rs zone items w → named rs → rs_DNSZoneRef rs ≠ [] →
  (∀ old, oldRS = Some old → old ∈ items ∧ rs_Name old = rs_Name rs ∧
     rs_DeletionTimestamp old = rs_DeletionTimestamp rs) →
  exclusive (rs_DNSZoneRef rs) (z_DomainName zone) items →
  (validateRecordSet oldRS rs w).1 = Ok [] →
  exclusive (rs_DNSZoneRef rs) (z_DomainName zone) (replaceIn rs items).
Proof.
  intros Hsees Hn Hz Hold Hex Hok. apply replaceIn_exclusive; [done..|].
  intros other k Hin Hd Hc Hl Ho.
  assert (rs_Records rs ≠ []) as Hr.
  { destruct Hl as (e & He & _). intros E. rewrite E in He. by apply not_elem_of_nil in He. }
  assert (¬ keeps oldRS rs (z_DomainName zone) k) as Hk.
  { intros Hk. destruct oldRS as [old|]; [|done]. destruct Hk as (Ht & Hzo & Hlo).
    destruct (Hold old eq_refl) as (Hino & Hno & Hdo).
    eapply (Hex old other k Hino Hin Hzo); [congruence| |done|done].
    apply contends_spec in Hc as (? & ? & ? & ?). apply contends_spec. by rewrite Hno, Hzo, Ht. }
  destruct (validateRecordSet_errors oldRS rs zone items w Hz Hr Hsees Hok) as [Hnil|Hempty].
  - by eapply (admitted_free oldRS rs _ items other k).
  - assert (is_Some (newClaims oldRS rs (z_DomainName zone) !! k)) as [? E] by by apply newClaims_Some.
    by rewrite Hempty, lookup_empty in E.
Qed.
End Validator.

(** * Witness: one record set in the zone, and another with another name *)

#[local] Existing Instance reference_runtime.

Definition exampleNamed (object name : gostring) : DNSRecordSet :=
  {| rs_Namespace := "ns"; rs_Name := object; rs_UID := object; rs_Generation := 1;
     rs_CreationTimestamp := 0; rs_DeletionTimestamp := None; rs_Finalizers := [];
     rs_OwnerReferences := []; rs_DNSZoneRef := "z"; rs_RecordType := RRTypeCNAME;
     rs_Records := [set_Name name emptyEntry]; rs_Conditions := []; rs_RecordSets := [] |}.

Definition exampleSeenZone : DNSZone :=
  {| z_Namespace := "ns"; z_Name := "z"; z_UID := "uz"; z_Generation := 1;
     z_DeletionTimestamp := None; z_Finalizers := []; z_DomainName := "example.com";
     z_DNSZoneClassName := "pdns"; z_Visibility := "Public"; z_Nameservers := [];
     z_RecordCount := 0; z_Conditions := []; z_DomainRef := None |}.

Definition exampleSeen : Cluster :=
  {| k_recordSet := λ _, KNotFound []; k_zone := λ _, KFound exampleSeenZone;
     k_class := λ _, KNotFound []; k_list := λ _, Ok [exampleNamed "a" "www"]; k_deleted := λ _, None;
     k_lookup := λ _, NoSuchName; k_now := λ _, 7%Z; k_pdns := λ _ _, NoResponse [];
     k_clock := λ _, {| metaNow := λ _ _, 7%Z; unixNow := λ _, 7%Z; today := λ _, [] |} |}.

Lemma validateRecordSet_exclusive_witness :
  exclusive "z" "example.com" (replaceIn (exampleNamed "b" "api") [exampleNamed "a" "www"]).
Proof.
  apply (validateRecordSet_exclusive exampleSeen None (exampleNamed "b" "api") exampleSeenZone
    [exampleNamed "a" "www"] {| w_trace := []; w_aliasChecks := ∅ |}).
  - split; reflexivity.
  - constructor; [discriminate|constructor].
  - discriminate.
  - intros old [=].
  - intros a b k ->%list_elem_of_singleton ->%list_elem_of_singleton _ _ Hc. by vm_compute in Hc.
  - vm_compute. reflexivity.
Defined.
