(* ===== verification/GoCrypto.v ===== *)
(** What the internal DNS code uses of Go's packages [crypto/sha256] and
    [encoding/hex]: [sha256.Sum256], [hex.EncodeToString] and [hex.DecodeString].

    The digest is the one of FIPS 180-4, on 32-bit words kept as [Z], so that the
    hashes the code compares are computed and not assumed. *)

From S2P Require Import Prelude GoStrings.

Section words.
Local Open Scope Z_scope.

Definition word32 (z : Z) : Z := Z.land z (2 ^ 32 - 1).
Definition rotr (n x : Z) : Z :=
  Z.lor (Z.shiftr x n) (word32 (Z.shiftl x (32 - n))).
Definition not32 (x : Z) : Z := 2 ^ 32 - 1 - x.

Definition bigSigma0 (x : Z) : Z := Z.lxor (Z.lxor (rotr 2 x) (rotr 13 x)) (rotr 22 x).
Definition bigSigma1 (x : Z) : Z := Z.lxor (Z.lxor (rotr 6 x) (rotr 11 x)) (rotr 25 x).
Definition smallSigma0 (x : Z) : Z := Z.lxor (Z.lxor (rotr 7 x) (rotr 18 x)) (Z.shiftr x 3).
Definition smallSigma1 (x : Z) : Z := Z.lxor (Z.lxor (rotr 17 x) (rotr 19 x)) (Z.shiftr x 10).
Definition choose (x y z : Z) : Z := Z.lxor (Z.land x y) (Z.land (not32 x) z).
Definition majority (x y z : Z) : Z :=
  Z.lxor (Z.lxor (Z.land x y) (Z.land x z)) (Z.land y z).

(** The constants of the standard: the first 32 bits of the fractional parts of the cube
    roots of the first 64 primes, and of the square roots of the first eight. *)
Definition isPrime (n : Z) : bool :=
  forallb (λ d, negb (n mod d =? 0)) (seqZ 2 (Z.sqrt n - 1)).
Definition primes : list Z := List.filter isPrime (seqZ 2 310).

(** The largest [r] below [lo + 2 ^ k] with [r ^ 3 <= n], by bisection. *)
Fixpoint cubeRoot (k : nat) (n lo : Z) : Z :=
  match k with
  | O => lo
  | S k' =>
      let mid := lo + 2 ^ Z.of_nat k' in
      cubeRoot k' n (if mid ^ 3 <=? n then mid else lo)
  end.

Definition roundConstants : list Z :=
  Eval vm_compute in (λ p, word32 (cubeRoot 36 (p * 2 ^ 96) 0)) <$> take 64 primes.
Definition initialState : list Z :=
  Eval vm_compute in (λ p, word32 (Z.sqrt (p * 2 ^ 64))) <$> take 8 primes.

(** The message schedule, the newest word first. *)
Fixpoint schedule (n : nat) (w : list Z) : list Z :=
  match n with
  | O => w
  | S n' =>
      let next := word32 (smallSigma1 (nth 1 w 0) + nth 6 w 0
                          + smallSigma0 (nth 14 w 0) + nth 15 w 0) in
      schedule n' (next :: w)
  end.

Definition round (s : list Z) (kw : Z * Z) : list Z :=
  match s with
  | [a; b; c; d; e; f; g; h] =>
      let t1 := h + bigSigma1 e + choose e f g + kw.1 + kw.2 in
      let t2 := bigSigma0 a + majority a b c in
      [word32 (t1 + t2); a; b; c; word32 (d + t1); e; f; g]
  | _ => s
  end.

Definition compress (s block : list Z) : list Z :=
  let w := rev (schedule 48 (rev block)) in
  zip_with (λ x y, word32 (x + y)) s (foldl round s (zip roundConstants w)).

(** Big-endian words of a byte string, and back. *)
Fixpoint bigEndianWords (b : list Z) : list Z :=
  match b with
  | x :: y :: z :: t :: b' =>
      Z.lor (Z.shiftl x 24) (Z.lor (Z.shiftl y 16) (Z.lor (Z.shiftl z 8) t))
        :: bigEndianWords b'
  | _ => []
  end.
Fixpoint bigEndianBytes (n : nat) (x : Z) : list Z :=
  match n with
  | O => []
  | S n' => Z.land (Z.shiftr x (8 * Z.of_nat n')) 255 :: bigEndianBytes n' x
  end.

(** The padding: a one bit, zeros up to eight bytes short of a block, and the length
    in bits. *)
Definition padded (b : list Z) : list Z :=
  let n := Z.of_nat (length b) in
  b ++ 128 :: replicate (Z.to_nat ((55 - n) mod 64)) 0 ++ bigEndianBytes 8 (Z.land (8 * n) (2 ^ 64 - 1)).

Fixpoint blocks (n : nat) (w : list Z) : list (list Z) :=
  match n with O => [] | S n' => take 16 w :: blocks n' (drop 16 w) end.

(** [sha256.Sum256]. *)
Definition Sum256 (s : gostring) : list Z :=
  let w := bigEndianWords (padded (bval <$> s)) in
  foldl compress initialState (blocks (length w / 16)%nat w) ≫= bigEndianBytes 4.
End words.

(** [hex.EncodeToString]. *)
Definition EncodeToString (b : list Z) : gostring :=
  b ≫= λ x, [lowerHex (Z.shiftr x 4); lowerHex (Z.land x 15)].

(** Whether [hex.DecodeString] succeeds. *)
Definition isHexDigit (c : ascii) : bool :=
  isDigit c || (97 <=? bval c)%Z && (bval c <=? 102)%Z
  || (65 <=? bval c)%Z && (bval c <=? 70)%Z.
Definition hexDecodable (s : gostring) : bool := forallb isHexDigit s && Nat.even (length s).

(** The digest has 32 bytes whatever it digests. *)
Lemma length_schedule n w : length (schedule n w) = n + length w.
Proof. revert w. induction n as [|n IH]; intros w; cbn; [done|]. rewrite IH. cbn. lia. Qed.

Lemma length_round s kw : length (round s kw) = length s.
Proof. unfold round. by do 9 (destruct s as [|? s]; [done|]). Qed.

Lemma length_rounds s kws : length (foldl round s kws) = length s.
Proof.
  revert s. induction kws as [|kw kws IH]; intros s; cbn; [done|]. by rewrite IH, length_round.
Qed.

Lemma length_compress s block : length (compress s block) = length s.
Proof. unfold compress. rewrite length_zip_with, length_rounds. lia. Qed.

Lemma length_Sum256 s : length (Sum256 s) = 32.
Proof.
  unfold Sum256.
  assert (∀ bs st, length st = 8 → length (foldl compress st bs) = 8) as Hfold.
  { induction bs as [|b bs IH]; intros st Hst; cbn; [done|]. apply IH. by rewrite length_compress. }
  set (st := foldl compress _ _).
  assert (length st = 8) as Hst by by apply Hfold.
  clearbody st. by do 9 (destruct st as [|? st]; try done).
Qed.

Lemma length_EncodeToString b : length (EncodeToString b) = 2 * length b.
Proof. induction b as [|x b IH]; [done|]. unfold EncodeToString in *. cbn. rewrite IH. lia. Qed.

Lemma lowerHex_hex d : (0 ≤ d < 16)%Z → isHexDigit (lowerHex d) = true.
Proof.
  intros Hd. assert (∃ n, (n < 16)%nat ∧ d = Z.of_nat n) as (n & Hn & ->).
  { exists (Z.to_nat d). lia. }
  do 16 (destruct n as [|n]; [reflexivity|]). lia.
Qed.

Lemma bigEndianBytes_range n x : Forall (λ b, 0 ≤ b < 256)%Z (bigEndianBytes n x).
Proof.
  induction n as [|n IH]; constructor; [|done].
  change 255%Z with (Z.ones 8). rewrite Z.land_ones by lia. apply Z.mod_pos_bound. lia.
Qed.

Lemma Sum256_range s : Forall (λ b, 0 ≤ b < 256)%Z (Sum256 s).
Proof.
  unfold Sum256. apply Forall_bind, Forall_true. intros x. apply bigEndianBytes_range.
Qed.

Lemma EncodeToString_hex b :
  Forall (λ x, 0 ≤ x < 256)%Z b → forallb isHexDigit (EncodeToString b) = true.
Proof.
  induction 1 as [|x b Hx _ IH]; [done|]. unfold EncodeToString in *. cbn. rewrite IH.
  change 15%Z with (Z.ones 4). rewrite Z.land_ones, Z.shiftr_div_pow2 by lia.
  rewrite !lowerHex_hex; [done|apply Z.mod_pos_bound; lia|].
  split; [apply Z.div_pos; lia|apply Z.div_lt_upper_bound; lia].
Qed.

(** The digest of the empty string and of "abc", as FIPS 180-4 gives them. *)
Example Sum256_empty :
  EncodeToString (Sum256 []) =
  "e3b0c44298fc1c149afbf4c8996fb92427ae41e4649b934ca495991b7852b855".
Proof. vm_compute. reflexivity. Qed.

Example Sum256_abc :
  EncodeToString (Sum256 "abc") =
  "ba7816bf8f01cfea414140de5dae2223b00361a396177a9cb410ff61f20015ad".
Proof. vm_compute. reflexivity. Qed.

(** Digests are computed by evaluation, never by unification. *)
#[global] Opaque Sum256.
