(* ===== verification/GoJson.v ===== *)
(** What the internal DNS code uses of Go's package [encoding/json], and of
    [time.Time.MarshalJSON].

    [json.Marshal] writes a value without blanks, a struct's fields in order, and
    escapes quotes, backslashes, control bytes, the bytes HTML treats specially, the
    line separators U+2028 and U+2029, and bytes that are not UTF-8.  A type's encoding
    is a function to the tree [json] (its fields in order, those [omitempty] drops left
    out), and [encode] prints a tree.

    A number is an integer, or the text of a literal that is not the decimal form of one
    (only a decoder meets those).  A [json.RawMessage] is modelled by what a reader of it sees: the value it is the text
    of, or a text that is no JSON. *)

From S2P Require Import Prelude GoStrings GoCrypto.

#[local] Unset Elimination Schemes.
Inductive json :=
| JNull
| JBool (b : bool)
| JNum (n : Z)
| JLit (text : gostring)
| JStr (s : gostring)
| JArr (l : list json)
| JObj (fields : list (gostring * json)).
#[local] Set Elimination Schemes.

Inductive RawMessage :=
| Encoded (j : json)
| NotJson (s : gostring).

(** [json.Valid]. *)
Definition json_Valid (m : RawMessage) : bool :=
  match m with Encoded _ => true | NotJson _ => false end.

(** * Strings *)

(** A byte [appendString] copies: ASCII, printable or DEL, and not one of the five
    bytes it escapes. *)
Definition htmlSafe (c : ascii) : bool :=
  isASCII c && (32 <=? bval c)%Z && negb (ContainsByte [dquote; backslash; "<"%char; ">"%char; "&"%char] c).

Definition hex2 (z : Z) : gostring := [lowerHex (z / 16); lowerHex (z mod 16)].

Definition escapeByte (c : ascii) : gostring :=
  if Ascii.eqb c dquote || Ascii.eqb c backslash then [backslash; c]
  else if (bval c =? 8)%Z then [backslash; "b"%char]
  else if (bval c =? 12)%Z then [backslash; "f"%char]
  else if (bval c =? 10)%Z then [backslash; "n"%char]
  else if (bval c =? 13)%Z then [backslash; "r"%char]
  else if (bval c =? 9)%Z then [backslash; "t"%char]
  else backslash :: "u"%char :: "0"%char :: "0"%char :: hex2 (bval c).

(** [utf8.DecodeRuneInString] on a non-ASCII byte: the length of the encoding that
    starts here, 1 where it is not one. *)
Definition continuation (c : ascii) : bool := (128 <=? bval c)%Z && (bval c <=? 191)%Z.
Definition within (lo hi : Z) (c : ascii) : bool := (lo <=? bval c)%Z && (bval c <=? hi)%Z.
Definition runeWidth (a : ascii) (s : gostring) : nat :=
  match s with
  | b :: s1 =>
      if within 194 223 a && continuation b then 2
      else
        match s1 with
        | c :: s2 =>
            if continuation c
               && (within 224 224 a && within 160 191 b || within 225 236 a && continuation b
                   || within 237 237 a && within 128 159 b || within 238 239 a && continuation b)
            then 3
            else
              match s2 with
              | d :: _ =>
                  if continuation c && continuation d
                     && (within 240 240 a && within 144 191 b
                         || within 241 243 a && continuation b
                         || within 244 244 a && within 128 143 b)
                  then 4 else 1
              | [] => 1
              end
        | [] => 1
        end
  | [] => 1
  end.

(** The loop of [appendString], [skip] bytes of the current rune still to be copied. *)
Fixpoint escapeFrom (skip : nat) (s : gostring) : gostring :=
  match s with
  | [] => []
  | c :: s' =>
      match skip with
      | S skip' => c :: escapeFrom skip' s'
      | O =>
          if isASCII c then
            (if htmlSafe c then [c] else escapeByte c) ++ escapeFrom 0 s'
          else
            match runeWidth c s' with
            | 1 => backslash :: "ufffd" ++ escapeFrom 0 s'
            | 3 =>
                match s' with
                | b :: d :: s'' =>
                    if (bval c =? 226)%Z && (bval b =? 128)%Z
                       && ((bval d =? 168)%Z || (bval d =? 169)%Z)
                    then backslash :: "u202" ++ lowerHex (bval d - 160) :: escapeFrom 0 s''
                    else c :: escapeFrom 2 s'
                | _ => c :: escapeFrom 2 s'
                end
            | n => c :: escapeFrom (pred n) s'
            end
      end
  end.
Definition quoteJson (s : gostring) : gostring := dquote :: escapeFrom 0 s ++ [dquote].

(** * Values *)

Fixpoint encode (j : json) : gostring :=
  match j with
  | JNull => "null"
  | JBool true => "true"
  | JBool false => "false"
  | JNum n => FormatInt n
  | JLit text => text
  | JStr s => quoteJson s
  | JArr l => "[" ++ Join ((fix go (l : list json) : list gostring :=
                              match l with [] => [] | x :: l' => encode x :: go l' end) l) ","
                  ++ "]"
  | JObj fs => "{" ++ Join ((fix go (fs : list (gostring * json)) : list gostring :=
                               match fs with
                               | [] => []
                               | (k, x) :: fs' => (quoteJson k ++ ":" ++ encode x) :: go fs'
                               end) fs) ","
                   ++ "}"
  end.

(** A slice, [None] for [nil]: [nil] is written [null], an empty one as brackets. *)
Abbreviation slice A := (option (list A)).
Definition elems {A} (l : slice A) : list A := default [] l.
Definition JSlice {A} (f : A → json) (l : slice A) : json :=
  match l with None => JNull | Some l => JArr (f <$> l) end.

(** A field with [omitempty]. *)
Definition omitempty (empty : bool) (k : gostring) (j : json) : list (gostring * json) :=
  if empty then [] else [(k, j)].

(** * Time *)

(** A [time.Time] in UTC, as nanoseconds since 1970; [time.Time{}] is the start of year
    one. *)
Definition nanosPerSecond : Z := 1000000000.
Definition zeroTime : Z := (-62135596800 * 1000000000)%Z.
Definition IsZero (t : Z) : bool := (t =? zeroTime)%Z.
Definition Unix (t : Z) : Z := (t / nanosPerSecond)%Z.

Section civil.
Local Open Scope Z_scope.

(** The proleptic Gregorian date of a day since 1970, counted in eras of 400 years that
    start on the first of March. *)
Definition civil (days : Z) : Z * Z * Z :=
  let z := days + 719468 in
  let era := z / 146097 in
  let doe := z mod 146097 in
  let yoe := (doe - doe / 1460 + doe / 36524 - doe / 146096) / 365 in
  let doy := doe - (365 * yoe + yoe / 4 - yoe / 100) in
  let mp := (5 * doy + 2) / 153 in
  let d := doy - (153 * mp + 2) / 5 + 1 in
  let m := if mp <? 10 then mp + 3 else mp - 9 in
  (yoe + era * 400 + (if m <=? 2 then 1 else 0), m, d).

Definition Year (t : Z) : Z := (civil (t / (86400 * nanosPerSecond))).1.1.

Definition digit (n : Z) : ascii := byte (48 + n mod 10).
Definition digits2 (n : Z) : gostring := [digit (n / 10); digit n].
Definition digits4 (n : Z) : gostring :=
  [digit (n / 1000); digit (n / 100); digit (n / 10); digit n].
Definition digits9 (n : Z) : gostring :=
  [digit (n / 100000000); digit (n / 10000000); digit (n / 1000000); digit (n / 100000);
   digit (n / 10000); digit (n / 1000); digit (n / 100); digit (n / 10); digit n].

(** The fraction of a second, its trailing zeros dropped. *)
Definition fraction (nanos : Z) : gostring :=
  if nanos =? 0 then [] else "." ++ TrimRightByte (digits9 nanos) "0".

(** The layout [time.RFC3339Nano], for a year of four digits. *)
Definition formatRFC3339Nano (t : Z) : gostring :=
  let secs := Unix t in
  let '(y, m, d) := civil (secs / 86400) in
  let s := secs mod 86400 in
  digits4 y ++ "-" ++ digits2 m ++ "-" ++ digits2 d ++ "T" ++ digits2 (s / 3600) ++ ":"
    ++ digits2 (s / 60 mod 60) ++ ":" ++ digits2 (s mod 60)
    ++ fraction (t mod nanosPerSecond) ++ "Z".
End civil.

(** [MarshalJSON] refuses a year that has not four digits. *)
Definition marshalable (t : Z) : bool := (0 <=? Year t)%Z && (Year t <? 10000)%Z.
Definition JTime (t : Z) : json := JStr (formatRFC3339Nano t).

(** * Lemmas *)

Lemma json_ind (P : json → Prop) :
  P JNull → (∀ b, P (JBool b)) → (∀ n, P (JNum n)) → (∀ s, P (JLit s)) → (∀ s, P (JStr s)) →
  (∀ l, Forall P l → P (JArr l)) → (∀ fs, Forall (λ f, P f.2) fs → P (JObj fs)) →
  ∀ j, P j.
Proof.
  intros ? ? ? ? ? Harr Hobj. fix IH 1. intros [| | | | |l|fs]; [auto..| |].
  - apply Harr. induction l; constructor; [apply IH|done].
  - apply Hobj. induction fs as [|[k x] fs IHfs]; constructor; [apply IH|done].
Qed.

Lemma encode_JArr l : encode (JArr l) = "[" ++ Join (encode <$> l) "," ++ "]".
Proof. reflexivity. Qed.

Definition encodeField (f : gostring * json) : gostring := quoteJson f.1 ++ ":" ++ encode f.2.

Lemma encode_JObj fs : encode (JObj fs) = "{" ++ Join (encodeField <$> fs) "," ++ "}".
Proof.
  cbn. do 3 f_equal. induction fs as [|[k x] fs IH]; [done|]. cbn. by f_equal.
Qed.

(** The number of bytes a value takes. *)
Definition size (j : json) : Z := Z.of_nat (length (encode j)).

(** The bytes of a list of encodings with their separators. *)
Lemma length_Join (ls : list gostring) (sep : ascii) :
  Z.of_nat (length (Join ls [sep])) = Z.max 0 (Z.of_nat (sum_list (length <$> ls) + length ls) - 1).
Proof.
  induction ls as [|l [|l' ls] IH]; [done|cbn; lia|].
  rewrite Join_cons by done. rewrite !length_app, !Nat2Z.inj_add, IH. cbn. lia.
Qed.

Lemma size_nonneg j : (0 ≤ size j)%Z.
Proof. unfold size. lia. Qed.

(** An array element costs its own bytes and, but for the first, a comma. *)
Definition sizes (l : list json) : Z := foldr (λ j n, size j + n)%Z 0%Z l.
Lemma size_JArr l : size (JArr l) = (2 + sizes l + Z.max 0 (Z.of_nat (length l) - 1))%Z.
Proof.
  unfold size. rewrite encode_JArr, !length_app, !Nat2Z.inj_add, length_Join. cbn [length].
  assert (sizes l = Z.of_nat (sum_list (length <$> (encode <$> l)))) as ->.
  { induction l as [|x l IH]; [done|].
    change (sizes (x :: l)) with (size x + sizes l)%Z. rewrite IH. unfold size. cbn. lia. }
  rewrite length_fmap. destruct l; cbn; lia.
Qed.

Lemma sizes_cons j l : sizes (j :: l) = (size j + sizes l)%Z.
Proof. done. Qed.

Lemma sizes_app l l' : sizes (l ++ l') = (sizes l + sizes l')%Z.
Proof. induction l as [|x l IH]; [done|]. cbn [app]. rewrite !sizes_cons. lia. Qed.

Lemma sizes_perm l l' : l ≡ₚ l' → sizes l = sizes l'.
Proof. induction 1; rewrite ?sizes_cons; lia. Qed.

Lemma size_JObj fs :
  size (JObj fs) =
  (2 + foldr (λ f n, Z.of_nat (length (quoteJson f.1)) + 1 + size f.2 + n) 0 fs
   + Z.max 0 (Z.of_nat (length fs) - 1))%Z.
Proof.
  unfold size. rewrite encode_JObj, !length_app, !Nat2Z.inj_add, length_Join. cbn [length].
  assert (foldr (λ f n, Z.of_nat (length (quoteJson f.1)) + 1 + Z.of_nat (length (encode f.2)) + n)%Z 0%Z fs
          = Z.of_nat (sum_list (length <$> (encodeField <$> fs)))) as ->.
  { induction fs as [|[k x] fs IH]; [done|]. cbn [foldr fmap list_fmap sum_list].
    rewrite IH. unfold encodeField at 2. rewrite !length_app. cbn [length fst snd id]. lia. }
  rewrite length_fmap. destruct fs; cbn; lia.
Qed.

(** Printable text without the bytes JSON escapes costs one byte per byte. *)
Lemma escapeFrom_safe s : forallb htmlSafe s = true → escapeFrom 0 s = s.
Proof.
  induction s as [|c s IH]; [done|]. cbn. intros [Hc Hs]%andb_true_iff. rewrite IH by done.
  rewrite Hc. unfold htmlSafe in Hc. apply andb_true_iff in Hc as [Hc _].
  apply andb_true_iff in Hc as [-> _]. done.
Qed.

Lemma size_JStr_safe s : forallb htmlSafe s = true → size (JStr s) = (2 + Z.of_nat (length s))%Z.
Proof.
  intros Hs. unfold size, quoteJson. cbn. rewrite escapeFrom_safe by done.
  rewrite length_app. cbn. lia.
Qed.

Lemma digit_safe n : htmlSafe (digit n) = true.
Proof.
  unfold digit. assert (0 ≤ n mod 10 < 10)%Z as Hn by (apply Z.mod_pos_bound; lia).
  set (k := (n mod 10)%Z) in *. clearbody k.
  assert (∃ i, (i < 10)%nat ∧ k = Z.of_nat i) as (i & Hi & ->) by (exists (Z.to_nat k); lia).
  do 10 (destruct i as [|i]; [reflexivity|]). lia.
Qed.

(** A decimal number below a power of ten has at most that many digits, and digits are
    never escaped. *)
Lemma length_decimalDigits fuel n acc k :
  (0 ≤ n < 10 ^ Z.of_nat k)%Z → 0 < k → length (decimalDigits fuel n acc) ≤ k + length acc.
Proof.
  revert n acc k. induction fuel as [|fuel IH]; intros n acc k Hn Hk; cbn; [lia|].
  destruct (Z.ltb_spec n 10); [cbn; lia|].
  destruct k as [|[|k]]; [lia|cbn in Hn; lia|].
  rewrite Nat2Z.inj_succ, Z.pow_succ_r in Hn by lia.
  etrans; [apply (IH _ _ (S k)); [|lia]|cbn; lia].
  split; [apply Z.div_pos; lia|apply Z.div_lt_upper_bound; lia].
Qed.

Lemma length_FormatUint n : (0 ≤ n < 2 ^ 64)%Z → length (FormatUint n) ≤ 20.
Proof.
  intros Hn. unfold FormatUint. etrans; [apply (length_decimalDigits _ _ _ 20); [|lia]|cbn; lia].
  split; [lia|]. etrans; [apply Hn|]. vm_compute. done.
Qed.

Lemma isDigit_safe c : isDigit c = true → htmlSafe c = true.
Proof. apply byte_impl. vm_compute. reflexivity. Qed.

Lemma isHexDigit_safe c : isHexDigit c = true → htmlSafe c = true.
Proof. apply byte_impl. vm_compute. reflexivity. Qed.

Lemma FormatUint_safe n : (0 ≤ n)%Z → forallb htmlSafe (FormatUint n) = true.
Proof.
  intros Hn. eapply forallb_impl; [apply isDigit_safe|]. by apply FormatUint_spec.
Qed.

(** ** Times *)

Lemma trimLeftByte_suffix c s : ∃ t, s = t ++ trimLeftByte c s.
Proof.
  induction s as [|d s [t IH]]; [by exists []|]. cbn. case_match; [|by exists []].
  exists (d :: t). cbn. by f_equal.
Qed.

Lemma TrimRightByte_prefix s c : ∃ t, s = TrimRightByte s c ++ t.
Proof.
  destruct (trimLeftByte_suffix c (rev s)) as [t Ht]. exists (rev t). unfold TrimRightByte.
  by rewrite <- rev_app_distr, <- Ht, rev_involutive.
Qed.

Lemma fraction_safe n :
  forallb htmlSafe (fraction n) = true ∧ length (fraction n) ≤ 10.
Proof.
  unfold fraction. case_match; [cbn; split; [done|lia]|].
  destruct (TrimRightByte_prefix (digits9 n) "0") as [t Ht].
  assert (forallb htmlSafe (digits9 n) = true) as Hs.
  { unfold digits9. cbn. by rewrite !digit_safe. }
  assert (length (digits9 n) = 9) as Hl by done.
  rewrite Ht, forallb_app, andb_true_iff in Hs. rewrite Ht, length_app in Hl.
  destruct Hs as [Hs _]. revert Hs Hl. generalize (TrimRightByte (digits9 n) "0").
  intros f Hs Hl. cbn. rewrite Hs. split; [done|lia].
Qed.

Lemma formatRFC3339Nano_safe t :
  forallb htmlSafe (formatRFC3339Nano t) = true ∧ length (formatRFC3339Nano t) ≤ 30.
Proof.
  unfold formatRFC3339Nano. destruct (civil _) as [[y m] d].
  destruct (fraction_safe (t mod nanosPerSecond)) as [Hs Hl].
  rewrite !forallb_app, !length_app. unfold digits4, digits2. cbn.
  rewrite !digit_safe, Hs. split; [done|lia].
Qed.

Lemma size_JTime t : (size (JTime t) ≤ 32)%Z.
Proof.
  destruct (formatRFC3339Nano_safe t) as [Hs Hl]. unfold JTime. rewrite size_JStr_safe by done. lia.
Qed.

(** The digits and the date of a known instant. *)
Example formatRFC3339Nano_example :
  formatRFC3339Nano 1709210096123450000 = "2024-02-29T12:34:56.12345Z".
Proof. vm_compute. reflexivity. Qed.
