(* ===== verification/GoJsonDecode.v ===== *)
(** What the internal DNS code uses of [json.Unmarshal]: the decoder from text to the tree
    [json] and from the tree to Go values, and [time.Time.UnmarshalJSON].

    [decode_encode] says that text [json.Marshal] writes is read back, with bytes that are
    no UTF-8 replaced.  [struct_decoder] reads a struct: a key names the field it equals
    but for case, an unknown key is skipped, [null] leaves a field as it is. *)

From S2P Require Import Prelude GoStrings GoCrypto GoJson.

(** * Strings *)

(** The value of a hexadecimal digit. *)
Definition hexValue (c : ascii) : option Z :=
  if isDigit c then Some (bval c - 48)%Z
  else if within 97 102 c then Some (bval c - 87)%Z
  else if within 65 70 c then Some (bval c - 55)%Z else None.

(** [getu4], the digits of an escape. *)
Definition hex4 (a b c d : ascii) : option Z :=
  x ← hexValue a; y ← hexValue b; z ← hexValue c; t ← hexValue d;
  Some (((x * 16 + y) * 16 + z) * 16 + t)%Z.

(** [utf8.AppendRune] of a code point that is no surrogate. *)
Definition appendRune (r : Z) : gostring :=
  (if r <? 128 then [byte r]
   else if r <? 2048 then [byte (192 + r / 64); byte (128 + r mod 64)]
   else if r <? 65536 then [byte (224 + r / 4096); byte (128 + r / 64 mod 64); byte (128 + r mod 64)]
   else [byte (240 + r / 262144); byte (128 + r / 4096 mod 64); byte (128 + r / 64 mod 64);
         byte (128 + r mod 64)])%Z.
Definition replacement : gostring := appendRune 65533.

(** [utf16.IsSurrogate] and [utf16.DecodeRune]. *)
Definition IsSurrogate (r : Z) : bool := ((55296 <=? r) && (r <? 57344))%Z.
Definition DecodeRune (r1 r2 : Z) : option Z :=
  if ((55296 <=? r1) && (r1 <? 56320) && (56320 <=? r2) && (r2 <? 57344))%Z
  then Some ((r1 - 55296) * 1024 + (r2 - 56320) + 65536)%Z else None.

Definition simpleEscape (c : ascii) : option ascii :=
  if Ascii.eqb c dquote || Ascii.eqb c backslash || Ascii.eqb c "/" then Some c
  else if Ascii.eqb c "b" then Some (byte 8)
  else if Ascii.eqb c "f" then Some (byte 12)
  else if Ascii.eqb c "n" then Some (byte 10)
  else if Ascii.eqb c "r" then Some (byte 13)
  else if Ascii.eqb c "t" then Some (byte 9) else None.

Definition push (p : gostring) (r : option (gostring * gostring)) : option (gostring * gostring) :=
  prod_map (app p) id <$> r.

(** [unquoteBytes] from after the opening quote: the string and what follows the closing
    quote; [skip] bytes of the current rune are still to be copied. *)
Fixpoint unquoteFrom (skip : nat) (s : gostring) : option (gostring * gostring) :=
  match s with
  | [] => None
  | c :: s' =>
      match skip with
      | S skip' => push [c] (unquoteFrom skip' s')
      | O =>
          if Ascii.eqb c dquote then Some ([], s')
          else if Ascii.eqb c backslash then
            match s' with
            | e :: s2 =>
                if Ascii.eqb e "u" then
                  match s2 with
                  | h1 :: h2 :: h3 :: h4 :: s3 =>
                      r ← hex4 h1 h2 h3 h4;
                      if IsSurrogate r then
                        match s3 with
                        | b' :: u' :: g1 :: g2 :: g3 :: g4 :: s4 =>
                            match (if Ascii.eqb b' backslash && Ascii.eqb u' "u"
                                   then hex4 g1 g2 g3 g4 ≫= DecodeRune r else None) with
                            | Some p => push (appendRune p) (unquoteFrom 0 s4)
                            | None => push replacement (unquoteFrom 0 s3)
                            end
                        | _ => push replacement (unquoteFrom 0 s3)
                        end
                      else push (appendRune r) (unquoteFrom 0 s3)
                  | _ => None
                  end
                else x ← simpleEscape e; push [x] (unquoteFrom 0 s2)
            | [] => None
            end
          else if (bval c <? 32)%Z then None
          else if isASCII c then push [c] (unquoteFrom 0 s')
          else
            match runeWidth c s' with
            | 1 => push replacement (unquoteFrom 0 s')
            | n => push [c] (unquoteFrom (pred n) s')
            end
      end
  end.

(** * Values *)

Definition isBlank (c : ascii) : bool := ContainsByte [" "%char; tab; cr; newline] c.
Fixpoint skipBlanks (s : gostring) : gostring :=
  match s with c :: s' => if isBlank c then skipBlanks s' else s | [] => [] end.

Fixpoint spanDigits (s : gostring) : gostring * gostring :=
  match s with
  | c :: s' => if isDigit c then let '(ds, r) := spanDigits s' in (c :: ds, r) else ([], s)
  | [] => ([], [])
  end.

(** The fraction and the exponent of a number: what follows them. *)
Definition skipFraction (s : gostring) : option gostring :=
  match s with
  | c :: s' =>
      if Ascii.eqb c "." then
        match spanDigits s' with ([], _) => None | (_, r) => Some r end
      else Some s
  | [] => Some []
  end.
Definition skipSign (s : gostring) : gostring :=
  match s with c :: s' => if Ascii.eqb c "+" || Ascii.eqb c "-" then s' else s | [] => [] end.
Definition skipExponent (s : gostring) : option gostring :=
  match s with
  | c :: s' =>
      if Ascii.eqb c "e" || Ascii.eqb c "E" then
        match spanDigits (skipSign s') with ([], _) => None | (_, r) => Some r end
      else Some s
  | [] => Some []
  end.

Definition decodeNumber (s : gostring) : option (json * gostring) :=
  let '(neg, s1) :=
    match s with c :: s' => if Ascii.eqb c "-" then (true, s') else (false, s) | [] => (false, s) end in
  let '(ds, s2) := spanDigits s1 in
  match ds with
  | [] => None
  | d :: ds' =>
      if Ascii.eqb d "0" && bool_decide (ds' ≠ []) then None
      else
        s3 ← skipFraction s2;
        rest ← skipExponent s3;
        if bool_decide (rest = s2) && negb (neg && (decimalVal ds =? 0)%Z)
        then Some (JNum (if neg then - decimalVal ds else decimalVal ds)%Z, rest)
        else Some (JLit (take (length s - length rest) s), rest)
  end.

Section lists.
Variable dec : gostring → option (json * gostring).

(** The elements of an array from its first, and the members of an object. *)
Fixpoint elements (fuel : nat) (s : gostring) : option (list json * gostring) :=
  match fuel with
  | O => None
  | S fuel' =>
      '(x, r) ← dec s;
      match skipBlanks r with
      | c :: r' =>
          if Ascii.eqb c "," then prod_map (cons x) id <$> elements fuel' r'
          else if Ascii.eqb c "]" then Some ([x], r') else None
      | [] => None
      end
  end.

Fixpoint members (fuel : nat) (s : gostring) : option (list (gostring * json) * gostring) :=
  match fuel with
  | O => None
  | S fuel' =>
      match skipBlanks s with
      | q :: s1 =>
          if Ascii.eqb q dquote then
            '(k, r) ← unquoteFrom 0 s1;
            match skipBlanks r with
            | c :: r1 =>
                if Ascii.eqb c ":" then
                  '(x, r2) ← dec r1;
                  match skipBlanks r2 with
                  | c' :: r' =>
                      if Ascii.eqb c' "," then prod_map (cons (k, x)) id <$> members fuel' r'
                      else if Ascii.eqb c' "}" then Some ([(k, x)], r') else None
                  | [] => None
                  end
                else None
            | [] => None
            end
          else None
      | [] => None
      end
  end.
End lists.

Definition literal (s : gostring) : option (json * gostring) :=
  if HasPrefix s "null" then Some (JNull, drop 4 s)
  else if HasPrefix s "true" then Some (JBool true, drop 4 s)
  else if HasPrefix s "false" then Some (JBool false, drop 5 s) else decodeNumber s.

(** A value and what follows it; [depth] is one more than the arrays and objects that may
    still be opened. *)
Fixpoint decodeValue (depth : nat) (s : gostring) : option (json * gostring) :=
  match depth with
  | O => None
  | S depth' =>
      match skipBlanks s with
      | [] => None
      | c :: s' =>
          if Ascii.eqb c dquote then prod_map JStr id <$> unquoteFrom 0 s'
          else if Ascii.eqb c "[" || Ascii.eqb c "{" then
            match depth', skipBlanks s' with
            | O, _ => None
            | _, d :: r =>
                if Ascii.eqb c "[" then
                  if Ascii.eqb d "]" then Some (JArr [], r)
                  else prod_map JArr id <$> elements (decodeValue depth') (length s') s'
                else
                  if Ascii.eqb d "}" then Some (JObj [], r)
                  else prod_map JObj id <$> members (decodeValue depth') (length s') s'
            | _, [] => None
            end
          else literal (c :: s')
      end
  end.

(** [maxNestingDepth]. *)
Definition maxNestingDepth : nat := Z.to_nat 10000.
Definition decode (s : gostring) : option json :=
  '(j, r) ← decodeValue (S maxNestingDepth) s;
  match skipBlanks r with [] => Some j | _ => None end.

(** * What reading back changes *)

(** A string with every byte that is no part of a rune replaced by U+FFFD. *)
Fixpoint cleanFrom (skip : nat) (s : gostring) : gostring :=
  match s with
  | [] => []
  | c :: s' =>
      match skip with
      | S skip' => c :: cleanFrom skip' s'
      | O =>
          if isASCII c then c :: cleanFrom 0 s'
          else match runeWidth c s' with
               | 1 => replacement ++ cleanFrom 0 s'
               | n => c :: cleanFrom (pred n) s'
               end
      end
  end.
Definition clean (s : gostring) : gostring := cleanFrom 0 s.
Definition utf8 (s : gostring) : Prop := clean s = s.
#[global] Instance utf8_dec s : Decision (utf8 s) := decide (clean s = s).

Fixpoint cleanJson (j : json) : json :=
  match j with
  | JStr s => JStr (clean s)
  | JArr l => JArr (cleanJson <$> l)
  | JObj fs => JObj ((λ f, (clean f.1, cleanJson f.2)) <$> fs)
  | _ => j
  end.

(** Integers only, as [json.Marshal] writes the values of this program. *)
Fixpoint plain (j : json) : bool :=
  match j with
  | JLit _ => false
  | JArr l => forallb plain l
  | JObj fs => forallb (λ f, plain f.2) fs
  | _ => true
  end.
Fixpoint depth (j : json) : nat :=
  match j with
  | JArr l => S (max_list (depth <$> l))
  | JObj fs => S (max_list ((λ f, depth f.2) <$> fs))
  | _ => 0
  end.

(** * Reading back what was written *)

(** ** Strings *)

Lemma push_Some p a r : push p (Some (a, r)) = Some (p ++ a, r).
Proof. done. Qed.

(** A rune is recognised by its own bytes. *)
Lemma runeWidth_copy c s t n :
  runeWidth c s = S (S n) → take (S n) t = take (S n) s → runeWidth c t = S (S n).
Proof.
  unfold runeWidth. destruct s as [|b s]; [done|].
  destruct t as [|b' t]; [done|]. cbn [take]. intros Hw Ht. injection Ht as -> Ht.
  destruct (within 194 223 c && continuation b); [done|].
  destruct s as [|d s]; [done|]. destruct n as [|n].
  { exfalso. destruct (_ && _); [done|]. destruct s; [done|]. destruct (_ && _); done. }
  destruct t as [|d' t]; [done|]. cbn [take] in Ht. injection Ht as -> Ht.
  destruct (_ && _); [done|]. destruct s as [|e s]; [done|].
  destruct n as [|n]; [destruct (_ && _) in Hw; done|].
  destruct t as [|e' t]; [done|]. cbn [take] in Ht. injection Ht as -> Ht. done.
Qed.

Lemma runeWidth_length c s n : runeWidth c s = S n → n ≤ length s.
Proof.
  unfold runeWidth. repeat case_match; cbn; lia.
Qed.

Lemma runeWidth_pos c s : runeWidth c s ≠ 0.
Proof. unfold runeWidth. repeat case_match; lia. Qed.

Lemma escapeFrom_take k s t : k ≤ length s → take k (escapeFrom k s ++ t) = take k s.
Proof.
  revert k. induction s as [|c s IH]; intros [|k] Hk; cbn in *; [done|lia|done|].
  f_equal. apply IH. lia.
Qed.

(** The escape of an ASCII byte. *)
Lemma unquote_ascii c s :
  isASCII c = true →
  unquoteFrom 0 ((if htmlSafe c then [c] else escapeByte c) ++ s) = push [c] (unquoteFrom 0 s).
Proof. intros Hc. bytecases c; first [done|discriminate Hc]. Qed.

Lemma unquote_skip c k s : unquoteFrom (S k) (c :: s) = push [c] (unquoteFrom k s).
Proof. done. Qed.

Lemma unquote_rune c s n :
  isASCII c = false → runeWidth c s = S (S n) →
  unquoteFrom 0 (c :: s) = push [c] (unquoteFrom (S n) s).
Proof.
  intros Hc Hw. cbn [unquoteFrom].
  replace (Ascii.eqb c dquote) with false by (bytecases c; done || discriminate Hc).
  replace (Ascii.eqb c backslash) with false by (bytecases c; done || discriminate Hc).
  replace (bval c <? 32)%Z with false by (bytecases c; done || discriminate Hc).
  by rewrite Hc, Hw.
Qed.

Lemma unquote_replacement s :
  unquoteFrom 0 (backslash :: "ufffd" ++ s) = push replacement (unquoteFrom 0 s).
Proof. done. Qed.

Lemma unquote_separator d s :
  bval d = 168%Z ∨ bval d = 169%Z →
  unquoteFrom 0 (backslash :: "u202" ++ lowerHex (bval d - 160) :: s)
  = push [byte 226; byte 128; d] (unquoteFrom 0 s).
Proof. intros Hd. bytecases d; destruct Hd as [Hd|Hd]; discriminate Hd || done. Qed.

Lemma unquote_escape_bounded m : ∀ s k rest,
  length s ≤ m → k ≤ length s →
  unquoteFrom k (escapeFrom k s ++ dquote :: rest) = Some (cleanFrom k s, rest).
Proof.
  induction m as [|m IH]; intros [|c s] [|k] rest Hm Hk; try (cbn in *; done || lia).
  2:{ cbn in Hm. cbn [escapeFrom app]. rewrite unquote_skip.
      rewrite IH; [done|lia|cbn in Hk; lia]. }
  cbn in Hm. cbn [escapeFrom cleanFrom]. destruct (isASCII c) eqn:Hc.
  { rewrite <- app_assoc, unquote_ascii by done.
    rewrite IH; [done|cbn in *; lia|lia]. }
  assert (∀ n, runeWidth c s = S (S n) →
    unquoteFrom 0 ((c :: escapeFrom (S n) s) ++ dquote :: rest) = Some (c :: cleanFrom (S n) s, rest))
    as Hcopy.
  { intros n Hw. pose proof (runeWidth_length _ _ _ Hw) as Hl. cbn [app].
    rewrite (unquote_rune _ _ n Hc).
    - rewrite IH; [done|lia|done].
    - eapply runeWidth_copy; [done|]. by apply escapeFrom_take. }
  destruct (runeWidth c s) as [|[|[|[|n]]]] eqn:Hw.
  - by destruct (runeWidth_pos c s).
  - change (unquoteFrom 0 (backslash :: "ufffd" ++ (escapeFrom 0 s ++ dquote :: rest))
            = Some (replacement ++ cleanFrom 0 s, rest)).
    rewrite unquote_replacement, IH; [done|lia|lia].
  - by apply Hcopy.
  - destruct s as [|b [|d s]]; [by apply Hcopy..|].
    destruct (_ && _ && _) eqn:Hsep; [|by apply Hcopy].
    apply andb_true_iff in Hsep as [[H1 H2]%andb_true_iff H3%orb_true_iff].
    apply Z.eqb_eq in H1, H2. rewrite !Z.eqb_eq in H3.
    assert (c = byte 226) as -> by (by rewrite <- H1, byte_bval).
    assert (b = byte 128) as -> by (by rewrite <- H2, byte_bval).
    change (unquoteFrom 0 (backslash :: "u202" ++ lowerHex (bval d - 160) :: (escapeFrom 0 s ++ dquote :: rest))
            = Some (byte 226 :: byte 128 :: d :: cleanFrom 0 s, rest)).
    rewrite unquote_separator by done. rewrite IH; [done|cbn in *; lia|lia].
  - by apply Hcopy.
Qed.

Lemma unquote_quoted s rest :
  unquoteFrom 0 (escapeFrom 0 s ++ dquote :: rest) = Some (clean s, rest).
Proof. apply (unquote_escape_bounded (length s)); lia. Qed.

(** ** Numbers *)

Lemma decimalDigits_lead fuel n d ds :
  (0 < n < 2 ^ Z.of_nat fuel)%Z → decimalDigits fuel n [] = d :: ds → d ≠ "0"%char.
Proof.
  revert n ds. induction fuel as [|fuel IH]; intros n ds Hn; cbn [decimalDigits]; [done|].
  destruct (Z.ltb_spec n 10).
  - intros [= <- _] Hd. apply (f_equal bval) in Hd. rewrite bval_byte in Hd.
    + rewrite Z.mod_small in Hd by lia. change (bval "0") with 48%Z in Hd. lia.
    + pose proof (Z.mod_pos_bound n 10). lia.
  - rewrite decimalDigits_acc.
    rewrite Nat2Z.inj_succ, Z.pow_succ_r in Hn by lia.
    assert (0 < n / 10 < 2 ^ Z.of_nat fuel)%Z as Hn'.
    { split; [apply Z.div_str_pos; lia|apply Z.div_lt_upper_bound; lia]. }
    destruct (decimalDigits fuel (n / 10) []) as [|d' ds'] eqn:E.
    + destruct fuel; [change (2 ^ Z.of_nat 0)%Z with 1%Z in Hn'; lia|].
      destruct (decimalDigits_spec (S fuel) (n / 10)) as (_ & ? & _); [lia|lia|done].
    + intros [= <- _]. eapply IH; done.
Qed.

Lemma FormatUint_lead n d ds :
  (0 ≤ n)%Z → FormatUint n = d :: ds → d = "0"%char → ds = [] ∧ n = 0%Z.
Proof.
  intros Hn HF Hd. destruct (decide (n = 0)%Z) as [->|].
  { by injection HF as _ <-. }
  exfalso. revert Hd. eapply decimalDigits_lead, HF. split; [lia|].
  rewrite Nat2Z.inj_succ, Z2Nat.id by apply Z.log2_nonneg. apply Z.log2_spec. lia.
Qed.

(** What may follow a number. *)
Definition stops (s : gostring) : bool :=
  match s with [] => true | c :: _ => negb (isDigit c || ContainsByte ".eE" c) end.

Lemma spanDigits_app ds rest :
  forallb isDigit ds = true → stops rest = true → spanDigits (ds ++ rest) = (ds, rest).
Proof.
  intros Hd Hs. induction ds as [|d ds IH]; cbn in *.
  - destruct rest as [|c rest]; [done|]. cbn in *. by destruct (isDigit c).
  - apply andb_true_iff in Hd as [-> Hd]. by rewrite IH.
Qed.

Lemma skip_stops rest :
  stops rest = true → skipFraction rest = Some rest ∧ skipExponent rest = Some rest.
Proof.
  destruct rest as [|c rest]; [done|]. cbn. rewrite !(Ascii.eqb_sym c).
  destruct (isDigit c), (Ascii.eqb "." c), (Ascii.eqb "e" c), (Ascii.eqb "E" c); done.
Qed.

Lemma decodeNumber_FormatInt n rest :
  stops rest = true → decodeNumber (FormatInt n ++ rest) = Some (JNum n, rest).
Proof.
  intros Hr. destruct (skip_stops _ Hr) as [Hf He].
  destruct (FormatUint_spec (Z.abs n)) as (Hd & Hne & Hv); [lia|].
  assert (decodeNumber (FormatInt n ++ rest)
          = let '(ds, s2) := spanDigits (FormatUint (Z.abs n) ++ rest) in
            match ds with
            | [] => None
            | d :: ds' =>
                if Ascii.eqb d "0" && bool_decide (ds' ≠ []) then None
                else Some (JNum n, rest)
            end) as ->.
  { unfold decodeNumber, FormatInt. destruct (Z.ltb_spec n 0).
    - replace (- n)%Z with (Z.abs n) by lia. cbn [app Ascii.eqb Bool.eqb].
      rewrite spanDigits_app by done. destruct (FormatUint (Z.abs n)); [done|].
      destruct (_ && _); [done|]. rewrite Hf. cbn [mbind option_bind]. rewrite He.
      cbn [mbind option_bind]. rewrite Hv, bool_decide_eq_true_2 by done. cbn.
      replace (Z.abs n =? 0)%Z with false by lia. cbn. do 3 f_equal. lia.
    - replace (Z.abs n) with n in * by lia.
      rewrite spanDigits_app by done.
      destruct (FormatUint n) as [|d ds] eqn:E; [done|].
      assert (Ascii.eqb d "-" = false) as Hm.
      { cbn in Hd. apply andb_true_iff in Hd as [Hd _]. revert Hd. bytecases d; done. }
      cbn [app]. rewrite Hm. change (d :: ds ++ rest) with ((d :: ds) ++ rest).
      rewrite spanDigits_app by done. destruct (_ && _); [done|].
      rewrite Hf. cbn [mbind option_bind]. rewrite He. cbn [mbind option_bind].
      rewrite Hv, bool_decide_eq_true_2 by done. done. }
  rewrite spanDigits_app by done. destruct (FormatUint (Z.abs n)) as [|d ds] eqn:E; [done|].
  destruct (Ascii.eqb_spec d "0"); [|done].
  destruct (FormatUint_lead _ _ _ (Z.abs_nonneg n) E) as [-> _]; done.
Qed.

(** ** Values *)

Lemma FormatInt_head n : ∃ c t, FormatInt n = c :: t ∧ (isDigit c || Ascii.eqb c "-") = true.
Proof.
  unfold FormatInt. case_match; [by eexists _, _|].
  destruct (FormatUint_spec n) as (Hd & Hne & _); [lia|].
  destruct (FormatUint n) as [|c t]; [done|]. exists c, t.
  cbn in Hd. apply andb_true_iff in Hd as [-> _]. done.
Qed.

(** How the encoding of a value starts. *)
Definition opens (c : ascii) : bool := negb (isBlank c || ContainsByte "]},:" c).
Lemma encode_head j : plain j = true → ∃ c t, encode j = c :: t ∧ opens c = true.
Proof.
  destruct j as [|[]|n| |s|l|fs]; intros Hp; try discriminate Hp; try (by eexists _, _).
  destruct (FormatInt_head n) as (c & t & Hn & Hc). exists c, t. split; [done|].
  revert Hc. bytecases c; done.
Qed.

Lemma skipBlanks_opens c s : opens c = true → skipBlanks (c :: s) = c :: s.
Proof. unfold opens. cbn [skipBlanks]. destruct (isBlank c); done. Qed.

Lemma literal_FormatInt n rest :
  stops rest = true → literal (FormatInt n ++ rest) = Some (JNum n, rest).
Proof.
  intros Hr. rewrite <- (decodeNumber_FormatInt n rest) by done.
  destruct (FormatInt_head n) as (c & t & -> & Hc). cbn [app].
  unfold literal. generalize (t ++ rest). intros s.
  assert (∀ p ps, Ascii.eqb c p = false → HasPrefix (c :: s) (p :: ps) = false) as Hp.
  { intros p ps Hne. unfold HasPrefix. apply bool_decide_eq_false_2. cbn. intros [= -> _].
    by rewrite Ascii.eqb_refl in Hne. }
  rewrite !Hp; [done|revert Hc; bytecases c; done..].
Qed.

Definition reads (d : nat) (j : json) : Prop := ∀ rest,
  stops rest = true → decodeValue d (encode j ++ rest) = Some (cleanJson j, rest).

Lemma elements_last dec fuel s x r :
  dec s = Some (x, "]" ++ r) → elements dec (S fuel) s = Some ([x], r).
Proof. intros Hs. cbn [elements]. by rewrite Hs. Qed.

Lemma elements_cons dec fuel s x r l r' :
  dec s = Some (x, "," ++ r) → elements dec fuel r = Some (l, r') →
  elements dec (S fuel) s = Some (x :: l, r').
Proof.
  intros Hs Hr. cbn [elements]. rewrite Hs.
  change (prod_map (cons x) id <$> elements dec fuel r = Some (x :: l, r')). by rewrite Hr.
Qed.

Lemma elements_Join d l x rest fuel :
  Forall (reads d) (x :: l) → length l < fuel →
  elements (decodeValue d) fuel (Join (encode <$> x :: l) "," ++ "]" ++ rest)
  = Some (cleanJson <$> x :: l, rest).
Proof.
  revert x fuel. induction l as [|y l IH]; intros x [|fuel] Hl Hf; try (cbn in Hf; lia).
  - apply Forall_cons in Hl as [Hx _]. apply elements_last, Hx. done.
  - apply Forall_cons in Hl as [Hx Hl]. cbn in Hf. rewrite !fmap_cons, Join_cons by done.
    rewrite <- !app_assoc. eapply elements_cons; [by apply Hx|].
    rewrite <- !fmap_cons. apply IH; [done|lia].
Qed.

(** A member, with its value still to be read. *)
Lemma members_field dec fuel k x s y r :
  dec (encode x ++ s) = Some (y, r) →
  members dec (S fuel) (encodeField (k, x) ++ s)
  = match skipBlanks r with
    | c :: r' =>
        if Ascii.eqb c "," then prod_map (cons (clean k, y)) id <$> members dec fuel r'
        else if Ascii.eqb c "}" then Some ([(clean k, y)], r') else None
    | [] => None
    end.
Proof.
  intros Hs. unfold encodeField, quoteJson. cbn [fst snd app]. rewrite <- !app_assoc.
  cbn [members]. rewrite skipBlanks_opens by done. cbn [app Ascii.eqb Bool.eqb].
  rewrite unquote_quoted. cbn [mbind option_bind].
  change (skipBlanks (":"%char :: ?t)) with (":"%char :: t). cbn [Ascii.eqb Bool.eqb].
  by rewrite Hs.
Qed.

Lemma members_last dec fuel k x s y r :
  dec (encode x ++ s) = Some (y, "}" ++ r) →
  members dec (S fuel) (encodeField (k, x) ++ s) = Some ([(clean k, y)], r).
Proof. intros Hs. by rewrite (members_field _ _ _ _ _ _ _ Hs). Qed.

Lemma members_cons dec fuel k x s y r l r' :
  dec (encode x ++ s) = Some (y, "," ++ r) → members dec fuel r = Some (l, r') →
  members dec (S fuel) (encodeField (k, x) ++ s) = Some ((clean k, y) :: l, r').
Proof.
  intros Hs Hr. rewrite (members_field _ _ _ _ _ _ _ Hs).
  change (prod_map (cons (clean k, y)) id <$> members dec fuel r = Some ((clean k, y) :: l, r')).
  by rewrite Hr.
Qed.

Lemma members_Join d l f rest fuel :
  Forall (λ f, reads d f.2) (f :: l) → length l < fuel →
  members (decodeValue d) fuel (Join (encodeField <$> f :: l) "," ++ "}" ++ rest)
  = Some ((λ f, (clean f.1, cleanJson f.2)) <$> f :: l, rest).
Proof.
  revert f fuel. induction l as [|g l IH]; intros [k x] [|fuel] Hl Hf; try (cbn in Hf; lia).
  - apply Forall_cons in Hl as [Hx _]. by eapply members_last, Hx.
  - apply Forall_cons in Hl as [Hx Hl]. cbn in Hf. rewrite !fmap_cons, Join_cons by done.
    rewrite <- !app_assoc. eapply members_cons; [by apply Hx|].
    rewrite <- !fmap_cons. apply IH; [done|lia].
Qed.

Lemma length_Join_ge (ls : list gostring) sep :
  Forall (λ s, s ≠ []) ls → length ls ≤ length (Join ls sep).
Proof.
  induction 1 as [|s [|s' ls] Hs _ IH]; [done| |].
  - destruct s; cbn in *; [done|lia].
  - rewrite Join_cons by done. rewrite !length_app. destruct s; [done|]. cbn in *. lia.
Qed.

Lemma decodeValue_array d c s r l :
  opens c = true → elements (decodeValue (S d)) (S (length s)) (c :: s) = Some (l, r) →
  decodeValue (S (S d)) ("[" ++ c :: s) = Some (JArr l, r).
Proof.
  intros Hc Hs. remember (S d) as d'. cbn [decodeValue]. cbn [app].
  rewrite skipBlanks_opens by done. cbn [Ascii.eqb Bool.eqb orb]. rewrite Heqd' at 1.
  rewrite skipBlanks_opens by done.
  replace (Ascii.eqb c "]") with false by (revert Hc; bytecases c; done).
  cbn [length]. by rewrite Hs.
Qed.

Lemma decodeValue_object d c s r fs :
  opens c = true → members (decodeValue (S d)) (S (length s)) (c :: s) = Some (fs, r) →
  decodeValue (S (S d)) ("{" ++ c :: s) = Some (JObj fs, r).
Proof.
  intros Hc Hs. remember (S d) as d'. cbn [decodeValue]. cbn [app].
  rewrite skipBlanks_opens by done. cbn [Ascii.eqb Bool.eqb orb]. rewrite Heqd' at 1.
  rewrite skipBlanks_opens by done.
  replace (Ascii.eqb c "}") with false by (revert Hc; bytecases c; done).
  cbn [length]. by rewrite Hs.
Qed.

Lemma Join_head (l : list gostring) sep c t : ∃ t', Join ((c :: t) :: l) sep = c :: t'.
Proof. destruct l; [by exists t|]. by eexists. Qed.

Lemma decodeValue_JArr d l rest :
  forallb plain l = true → Forall (reads (S d)) l →
  decodeValue (S (S d)) (encode (JArr l) ++ rest) = Some (cleanJson (JArr l), rest).
Proof.
  intros Hp Hl. rewrite encode_JArr. destruct l as [|x l]; [done|].
  assert (length (x :: l) ≤ length (Join (encode <$> x :: l) ",")) as Hlen.
  { rewrite <- (length_fmap encode). apply length_Join_ge, Forall_fmap.
    apply forallb_Forall in Hp. eapply Forall_impl; [exact Hp|]. intros y Hy.
    destruct (encode_head y Hy) as (? & ? & Hh & _). cbn. by rewrite Hh. }
  pose proof (λ fuel, elements_Join (S d) l x rest fuel Hl) as He.
  cbn in Hp. apply andb_true_iff in Hp as [Hx _].
  destruct (encode_head x Hx) as (c & t & Hh & Hc).
  rewrite fmap_cons, Hh in Hlen, He. rewrite fmap_cons, Hh.
  destruct (Join_head (encode <$> l) "," c t) as [t' Ht']. rewrite Ht' in Hlen, He. rewrite Ht'.
  rewrite <- !app_assoc. apply decodeValue_array; [done|]. apply He.
  cbn in Hlen. rewrite length_app. lia.
Qed.

Lemma decodeValue_JObj d fs rest :
  Forall (λ f, reads (S d) f.2) fs →
  decodeValue (S (S d)) (encode (JObj fs) ++ rest) = Some (cleanJson (JObj fs), rest).
Proof.
  intros Hl. rewrite encode_JObj. destruct fs as [|f l]; [done|].
  assert (length (f :: l) ≤ length (Join (encodeField <$> f :: l) ",")) as Hlen.
  { rewrite <- (length_fmap encodeField). apply length_Join_ge, Forall_fmap.
    apply Forall_true. done. }
  pose proof (λ fuel, members_Join (S d) l f rest fuel Hl) as He.
  assert (∃ t, encodeField f = dquote :: t) as [t Hh] by by eexists.
  rewrite fmap_cons, Hh in Hlen, He. rewrite fmap_cons, Hh.
  destruct (Join_head (encodeField <$> l) "," dquote t) as [t' Ht']. rewrite Ht' in Hlen, He.
  rewrite Ht', <- !app_assoc. apply decodeValue_object; [done|]. apply He.
  cbn in Hlen. rewrite length_app. lia.
Qed.

Lemma decodeValue_encode j d : plain j = true → depth j < d → reads d j.
Proof.
  revert d. induction j as [| | | |s|l IH|fs IH] using json_ind;
    intros [|d] Hp Hd rest Hr; try (cbn in Hd; lia); try done.
  - by destruct b.
  - destruct (FormatInt_head n) as (c & t & Hn & Hc). cbn [encode cleanJson].
    rewrite <- (literal_FormatInt n rest) by done. rewrite Hn. cbn [app decodeValue].
    rewrite skipBlanks_opens by (revert Hc; bytecases c; done).
    revert Hc. clear. bytecases c; done.
  - cbn [encode]. unfold quoteJson. cbn [app decodeValue]. rewrite skipBlanks_opens by done.
    cbn [Ascii.eqb Bool.eqb]. rewrite <- app_assoc. cbn [app]. by rewrite unquote_quoted.
  - cbn [depth] in Hd. destruct d as [|d]; [lia|]. apply decodeValue_JArr; [done|].
    cbn [plain] in Hp. rewrite forallb_Forall in Hp. rewrite Forall_forall in *.
    intros x Hx. apply IH; [done|by apply Hp|].
    enough (depth x ≤ max_list (depth <$> l)) by lia.
    by apply max_list_elem_of_le, list_elem_of_fmap_2.
  - cbn [depth] in Hd. destruct d as [|d]; [lia|]. apply decodeValue_JObj.
    cbn [plain] in Hp. rewrite forallb_Forall in Hp. rewrite Forall_forall in *.
    intros f Hf. apply IH; [done|by apply Hp|].
    enough (depth f.2 ≤ max_list ((λ f, depth f.2) <$> fs)) by lia.
    apply max_list_elem_of_le, list_elem_of_fmap. by exists f.
Qed.

Lemma decode_encode j :
  plain j = true → depth j ≤ maxNestingDepth → decode (encode j) = Some (cleanJson j).
Proof.
  intros Hp Hd. unfold decode.
  pose proof (decodeValue_encode j (S maxNestingDepth) Hp) as Hj.
  specialize (Hj ltac:(lia) [] eq_refl). rewrite app_nil_r in Hj. by rewrite Hj.
Qed.

(** * Time *)

Section time.
Local Open Scope Z_scope.

Definition isLeap (y : Z) : bool := (y mod 4 =? 0) && (negb (y mod 100 =? 0) || (y mod 400 =? 0)).
Definition daysIn (m y : Z) : Z :=
  if m =? 2 then (if isLeap y then 29 else 28)
  else if existsb (Z.eqb m) [4; 6; 9; 11] then 30 else 31.

(** The day since 1970 of a date. *)
Definition daysOf (y m d : Z) : Z :=
  let y' := if m <=? 2 then y - 1 else y in
  let yoe := y' mod 400 in
  let doy := (153 * ((m + 9) mod 12) + 2) / 5 + d - 1 in
  y' / 400 * 146097 + (365 * yoe + yoe / 4 - yoe / 100 + doy) - 719468.

Definition parseField (s : gostring) (lo hi : Z) : option Z :=
  if forallb isDigit s && (lo <=? decimalVal s) && (decimalVal s <=? hi)
  then Some (decimalVal s) else None.

(** [parseNanoseconds] of the digits after the point. *)
Definition parseNanos (ds : gostring) : Z :=
  decimalVal (take 9 ds) * 10 ^ (9 - Z.of_nat (length (take 9 ds))).

Definition parseFraction (s : gostring) : Z * gostring :=
  match s with
  | c :: s' =>
      if Ascii.eqb c "." then
        match spanDigits s' with ([], _) => (0, s) | (ds, r) => (parseNanos ds, r) end
      else (0, s)
  | [] => (0, [])
  end.

Definition parseZone (s : gostring) : option Z :=
  match s with
  | [z] => if Ascii.eqb z "Z" then Some 0 else None
  | [sign; h1; h2; colon; m1; m2] =>
      h ← parseField [h1; h2] 0 23;
      m ← parseField [m1; m2] 0 59;
      if negb (Ascii.eqb colon ":") then None
      else if Ascii.eqb sign "+" then Some ((h * 60 + m) * 60)
      else if Ascii.eqb sign "-" then Some (- ((h * 60 + m) * 60)) else None
  | _ => None
  end.

(** [parseStrictRFC3339], as nanoseconds since 1970. *)
Definition parseRFC3339 (s : gostring) : option Z :=
  let sub i n := take n (drop i s) in
  if (length s <? 19)%nat then None
  else
    year ← parseField (sub 0%nat 4%nat) 0 9999;
    month ← parseField (sub 5%nat 2%nat) 1 12;
    day ← parseField (sub 8%nat 2%nat) 1 (daysIn month year);
    hour ← parseField (sub 11%nat 2%nat) 0 23;
    min ← parseField (sub 14%nat 2%nat) 0 59;
    sec ← parseField (sub 17%nat 2%nat) 0 59;
    if bool_decide (sub 4%nat 1%nat = "-" ∧ sub 7%nat 1%nat = "-" ∧ sub 10%nat 1%nat = "T"
                    ∧ sub 13%nat 1%nat = ":" ∧ sub 16%nat 1%nat = ":")
    then
      let '(nsec, z) := parseFraction (drop 19 s) in
      offset ← parseZone z;
      Some ((daysOf year month day * 86400 + hour * 3600 + min * 60 + sec - offset)
            * nanosPerSecond + nsec)
    else None.

(** ** Dates *)

Definition yearOfEra (doe : Z) : Z := (doe - doe / 1460 + doe / 36524 - doe / 146096) / 365.
Definition yearStart (yoe : Z) : Z := 365 * yoe + yoe / 4 - yoe / 100.

Lemma yearOfEra_spec doe :
  0 ≤ doe < 146097 →
  0 ≤ yearOfEra doe < 400 ∧ yearStart (yearOfEra doe) ≤ doe
  ∧ (doe - yearStart (yearOfEra doe) < 365
     ∨ doe - yearStart (yearOfEra doe) = 365 ∧ isLeap (yearOfEra doe + 1) = true).
Proof.
  intros H. unfold isLeap.
  enough (let y := yearOfEra doe in
          0 ≤ y < 400 ∧ yearStart y ≤ doe
          ∧ (doe - yearStart y < 365
             ∨ doe - yearStart y = 365
               ∧ ((y + 1) mod 4 = 0 ∧ ((y + 1) mod 100 ≠ 0 ∨ (y + 1) mod 400 = 0)))).
  { cbv zeta in *. destruct H0 as (? & ? & [?|(? & ? & ?)]); split_and!; try lia. }
  cbv zeta. unfold yearOfEra, yearStart. Z.to_euclidean_division_equations. lia.
Qed.

(** The month and day of the days of a year that starts in March. *)
Definition monthDay (doy : Z) : Z * Z :=
  let mp := (5 * doy + 2) / 153 in
  (if mp <? 10 then mp + 3 else mp - 9, doy - (153 * mp + 2) / 5 + 1).

Lemma monthDay_spec doy :
  0 ≤ doy < 366 →
  let '(m, d) := monthDay doy in
  1 ≤ m ≤ 12 ∧ 1 ≤ d ∧ (153 * ((m + 9) mod 12) + 2) / 5 + d - 1 = doy
  ∧ ∀ y, (doy = 365 → isLeap y = true) → d ≤ daysIn m y.
Proof.
  intros H.
  assert (forallb (λ doy, let '(m, d) := monthDay doy in
    (1 <=? m) && (m <=? 12) && (1 <=? d) && ((153 * ((m + 9) mod 12) + 2) / 5 + d - 1 =? doy)
    && ((if m =? 2 then 28 + (if doy =? 365 then 1 else 0)
         else if existsb (Z.eqb m) [4; 6; 9; 11] then 30 else 31) >=? d)) (seqZ 0 366) = true) as Hall
    by (vm_compute; reflexivity).
  rewrite forallb_Forall, Forall_forall in Hall. specialize (Hall doy).
  destruct (monthDay doy) as [m d]. apply Is_true_true in Hall; [|apply elem_of_seqZ; lia].
  rewrite !andb_True in Hall. destruct Hall as ((((H1 & H2) & H3) & H4) & H5).
  apply Is_true_true in H1, H2, H3, H4, H5. split_and!; [lia..|].
  intros y Hy. unfold daysIn. destruct (m =? 2); [|case_match; lia].
  destruct (Z.eqb_spec doy 365); [rewrite Hy by done|]; [lia|]. destruct (isLeap y); lia.
Qed.

Lemma isLeap_period y k : isLeap (y + k * 400) = isLeap y.
Proof.
  unfold isLeap. rewrite Z.mod_add by lia.
  replace (k * 400) with (k * 4 * 100) by lia. rewrite Z.mod_add by lia.
  replace (k * 4 * 100) with (k * 100 * 4) by lia. by rewrite Z.mod_add by lia.
Qed.

Lemma civil_spec days :
  let '(y, m, d) := civil days in
  1 ≤ m ≤ 12 ∧ 1 ≤ d ≤ daysIn m y ∧ daysOf y m d = days.
Proof.
  unfold civil. set (z := days + 719468).
  pose proof (Z.mod_pos_bound z 146097 ltac:(lia)) as Hdoe.
  pose proof (Z.div_mod z 146097 ltac:(lia)) as Hz.
  set (era := z / 146097) in *. set (doe := z mod 146097) in *.
  destruct (yearOfEra_spec doe Hdoe) as (Hy & Hs & Hleap).
  fold (yearOfEra doe). set (yoe := yearOfEra doe) in *. fold (yearStart yoe).
  set (doy := doe - yearStart yoe) in *.
  pose proof (monthDay_spec doy ltac:(lia)) as Hmd. unfold monthDay in Hmd.
  set (m := if (5 * doy + 2) / 153 <? 10 then _ else _) in *.
  set (d := doy - _ + 1) in *. destruct Hmd as (Hm & Hd & Hdoy & Hdays). split_and!; try lia.
  - apply Hdays. intros Heq. assert (m = 2) as -> by (unfold m; by rewrite Heq).
    change (2 <=? 2) with true. cbn match.
    replace (yoe + era * 400 + 1) with (yoe + 1 + era * 400) by lia.
    rewrite isLeap_period. destruct Hleap as [?|[_ ?]]; [lia|done].
  - unfold daysOf.
    assert ((if m <=? 2 then yoe + era * 400 + (if m <=? 2 then 1 else 0) - 1
             else yoe + era * 400 + (if m <=? 2 then 1 else 0)) = yoe + era * 400) as ->
      by (destruct (m <=? 2); lia).
    rewrite Hdoy, Z.mod_add, Z.div_add by lia. rewrite (Z.mod_small yoe), (Z.div_small yoe) by lia.
    fold (yearStart yoe). unfold doy. lia.
Qed.

(** ** Digits *)

Lemma digitVal_digit n : digitVal (digit n) = n mod 10.
Proof.
  unfold digitVal, digit. pose proof (Z.mod_pos_bound n 10). rewrite bval_byte; lia.
Qed.
Lemma isDigit_digit n : isDigit (digit n) = true.
Proof. apply isDigit_byte, Z.mod_pos_bound. lia. Qed.

Lemma parseField_digits2 n lo hi :
  0 ≤ n < 100 → lo ≤ n ≤ hi → parseField (digits2 n) lo hi = Some n.
Proof.
  intros H Hr. unfold parseField, digits2.
  assert (decimalVal [digit (n / 10); digit n] = n) as ->.
  { unfold decimalVal. cbn. rewrite !digitVal_digit. Z.to_euclidean_division_equations. lia. }
  cbn [forallb]. rewrite !isDigit_digit. cbn. replace (lo <=? n) with true by lia.
  by replace (n <=? hi) with true by lia.
Qed.

Lemma parseField_digits4 n : 0 ≤ n ≤ 9999 → parseField (digits4 n) 0 9999 = Some n.
Proof.
  intros H. unfold parseField, digits4.
  assert (decimalVal [digit (n / 1000); digit (n / 100); digit (n / 10); digit n] = n) as ->.
  { unfold decimalVal. cbn. rewrite !digitVal_digit. Z.to_euclidean_division_equations. lia. }
  cbn [forallb]. rewrite !isDigit_digit. cbn. replace (0 <=? n) with true by lia.
  by replace (n <=? 9999) with true by lia.
Qed.

Lemma decimalVal_digits9 n : 0 ≤ n < nanosPerSecond → decimalVal (digits9 n) = n.
Proof.
  unfold nanosPerSecond. intros H. unfold decimalVal, digits9. cbn. rewrite !digitVal_digit.
  replace (n / 100000000) with (n / 10 / 10 / 10 / 10 / 10 / 10 / 10 / 10) by (rewrite !Z.div_div by lia; done).
  replace (n / 10000000) with (n / 10 / 10 / 10 / 10 / 10 / 10 / 10) by (rewrite !Z.div_div by lia; done).
  replace (n / 1000000) with (n / 10 / 10 / 10 / 10 / 10 / 10) by (rewrite !Z.div_div by lia; done).
  replace (n / 100000) with (n / 10 / 10 / 10 / 10 / 10) by (rewrite !Z.div_div by lia; done).
  replace (n / 10000) with (n / 10 / 10 / 10 / 10) by (rewrite !Z.div_div by lia; done).
  replace (n / 1000) with (n / 10 / 10 / 10) by (rewrite !Z.div_div by lia; done).
  replace (n / 100) with (n / 10 / 10) by (rewrite !Z.div_div by lia; done).
  Z.to_euclidean_division_equations. lia.
Qed.

Lemma TrimRightByte_replicate s c : ∃ k, s = TrimRightByte s c ++ replicate k c.
Proof.
  assert (∀ t, ∃ k, t = replicate k c ++ trimLeftByte c t) as Hleft.
  { induction t as [|d t [k IH]]; [by exists 0%nat|]. cbn.
    destruct (Ascii.eqb_spec d c) as [->|]; [|by exists 0%nat]. exists (S k). cbn. by f_equal. }
  destruct (Hleft (rev s)) as [k Hk]. exists k. unfold TrimRightByte.
  apply (f_equal (@rev ascii)) in Hk. rewrite rev_involutive, rev_app_distr in Hk.
  assert (rev (replicate k c) = replicate k c) as Hr by (rewrite rev_alt; apply reverse_replicate).
  by rewrite Hr in Hk.
Qed.

Lemma decimalVal_zeros s k : decimalVal (s ++ replicate k "0"%char) = decimalVal s * 10 ^ Z.of_nat k.
Proof.
  induction k as [|k IH] in s |- *; [rewrite app_nil_r; lia|].
  cbn [replicate]. rewrite cons_middle, app_assoc, IH, decimalVal_app. cbn [fold_left].
  change (digitVal "0") with 0. rewrite Nat2Z.inj_succ, Z.pow_succ_r by lia. lia.
Qed.

Lemma parseFraction_fraction n :
  0 ≤ n < nanosPerSecond → parseFraction (fraction n ++ "Z") = (n, "Z").
Proof.
  intros Hn. unfold fraction. destruct (Z.eqb_spec n 0) as [->|Hne]; [done|].
  destruct (TrimRightByte_replicate (digits9 n) "0") as [k Hk].
  pose proof (decimalVal_digits9 n Hn) as Hv.
  assert (forallb isDigit (digits9 n) = true) as Hd by (cbn; by rewrite !isDigit_digit).
  assert (length (digits9 n) = 9%nat) as Hl by done.
  rewrite Hk in Hv, Hd, Hl. revert Hv Hd Hl. generalize (TrimRightByte (digits9 n) "0").
  intros ds Hv Hd Hl. rewrite decimalVal_zeros in Hv. rewrite length_app, length_replicate in Hl.
  rewrite forallb_app in Hd. apply andb_true_iff in Hd as [Hd _].
  cbn [app parseFraction Ascii.eqb Bool.eqb]. rewrite spanDigits_app by done.
  destruct ds as [|d ds]; [cbn in Hv; lia|]. unfold parseNanos.
  rewrite take_ge by (cbn in *; lia). do 2 f_equal. rewrite <- Hv. do 2 f_equal. lia.
Qed.

(** [time.Time.MarshalJSON] and [UnmarshalJSON] are inverse. *)
Lemma parseRFC3339_format t :
  marshalable t = true → parseRFC3339 (formatRFC3339Nano t) = Some t.
Proof.
  intros Ht. unfold marshalable, Year in Ht. unfold formatRFC3339Nano, Unix.
  replace (t / (86400 * nanosPerSecond)) with (t / nanosPerSecond / 86400) in Ht
    by (rewrite Z.div_div by (unfold nanosPerSecond; lia); f_equal; lia).
  pose proof (civil_spec (t / nanosPerSecond / 86400)) as Hc.
  destruct (civil _) as [[y m] d]. cbn in Ht. destruct Hc as (Hm & Hd & Hdays).
  assert (daysIn m y ≤ 31) as H31 by (unfold daysIn; repeat case_match; lia).
  pose proof (Z.mod_pos_bound t nanosPerSecond ltac:(done)) as Hn.
  pose proof (Z.div_mod t nanosPerSecond ltac:(done)) as Ht'.
  set (secs := t / nanosPerSecond) in *. set (nanos := t mod nanosPerSecond) in *.
  pose proof (Z.div_mod secs 86400 ltac:(lia)) as Hsecs.
  pose proof (Z.mod_pos_bound secs 86400 ltac:(lia)) as Hs.
  set (s := secs mod 86400) in *.
  assert (s = s / 3600 * 3600 + s / 60 mod 60 * 60 + s mod 60
          ∧ 0 ≤ s / 3600 ≤ 23 ∧ 0 ≤ s / 60 mod 60 ≤ 59 ∧ 0 ≤ s mod 60 ≤ 59) as (Hsum & Hh & Hmin & Hsec)
    by (Z.to_euclidean_division_equations; lia).
  unfold parseRFC3339, digits4, digits2. cbn [app length take drop Nat.ltb Nat.leb].
  fold (digits4 y) (digits2 m) (digits2 d) (digits2 (s / 3600)) (digits2 (s / 60 mod 60)) (digits2 (s mod 60)).
  rewrite parseField_digits4 by lia. cbn [mbind option_bind].
  rewrite (parseField_digits2 m) by lia. cbn [mbind option_bind].
  rewrite (parseField_digits2 d) by lia. cbn [mbind option_bind].
  rewrite (parseField_digits2 (s / 3600)) by lia. cbn [mbind option_bind].
  rewrite (parseField_digits2 (s / 60 mod 60)) by lia. cbn [mbind option_bind].
  rewrite (parseField_digits2 (s mod 60)) by lia. cbn [mbind option_bind].
  rewrite bool_decide_eq_true_2 by done. rewrite drop_0, parseFraction_fraction by done.
  cbn [parseZone Ascii.eqb Bool.eqb mbind option_bind]. f_equal. rewrite Hdays. lia.
Qed.
End time.

(** * Go values

    A decoder reads a value into a variable that has one already. *)

Definition decoder (A : Type) : Type := A → json → option A.

Definition dString : decoder gostring := λ old j,
  match j with JStr s => Some s | JNull => Some old | _ => None end.
Definition dBool : decoder bool := λ old j,
  match j with JBool b => Some b | JNull => Some old | _ => None end.
(** An integer of a type that holds [lo] to [hi]. *)
Definition dInt (lo hi : Z) : decoder Z := λ old j,
  match j with
  | JNum n => if ((lo <=? n) && (n <=? hi))%Z then Some n else None
  | JLit text => if bool_decide (text = "-0") && (lo <? 0)%Z then Some 0%Z else None
  | JNull => Some old
  | _ => None
  end.
Definition dUint64 : decoder Z := dInt 0 (2 ^ 64 - 1).
Definition dUint16 : decoder Z := dInt 0 (2 ^ 16 - 1).
Definition dInt64 : decoder Z := dInt (- 2 ^ 63) (2 ^ 63 - 1).
Definition dTime : decoder Z := λ old j,
  match j with JStr s => parseRFC3339 s | JNull => Some old | _ => None end.
Definition dSlice {A} (d : decoder A) (zero : A) : decoder (slice A) := λ _ j,
  match j with JArr l => Some <$> mapM (d zero) l | JNull => Some None | _ => None end.
(** The same where the code does not tell [nil] from an empty slice. *)
Definition dList {A} (d : decoder A) (zero : A) : decoder (list A) := λ _ j,
  match j with JArr l => mapM (d zero) l | JNull => Some [] | _ => None end.
Definition dRaw : decoder RawMessage := λ _ j, Some (Encoded j).

(** [foldName]: keys are compared without case; two characters outside ASCII fold to
    letters. *)
Fixpoint foldName (s : gostring) : gostring :=
  match s with
  | [] => []
  | a :: s1 =>
      match s1 with
      | b :: s2 =>
          if (bval a =? 197)%Z && (bval b =? 191)%Z then "S"%char :: foldName s2
          else
            match s2 with
            | c :: s3 =>
                if (bval a =? 226)%Z && (bval b =? 132)%Z && (bval c =? 170)%Z
                then "K"%char :: foldName s3 else upperByte a :: foldName s1
            | [] => upperByte a :: foldName s1
            end
      | [] => [upperByte a]
      end
  end.

(** A field: what the keys that name it make of its value, in order. *)
Definition field {A} (d : decoder A) (name : gostring) (old : A) (fs : list (gostring * json)) :
    option A :=
  foldl (λ acc f, acc ≫= λ a, if decide (foldName f.1 = foldName name) then d a f.2 else Some a)
    (Some old) fs.

Definition struct_decoder {A} (body : A → list (gostring * json) → option A) : decoder A := λ old j,
  match j with JObj fs => body old fs | JNull => Some old | _ => None end.

(** [json.Unmarshal]. *)
Definition Unmarshal {A} (d : decoder A) (zero : A) (text : gostring) : option A :=
  decode text ≫= d zero.

Lemma field_nil {A} (d : decoder A) name old : field d name old [] = Some old.
Proof. done. Qed.

Lemma field_take {A} (d : decoder A) name old k j fs a :
  foldName k = foldName name → d old j = Some a →
  field d name old ((k, j) :: fs) = field d name a fs.
Proof. intros Hk Hd. unfold field. cbn. by rewrite decide_True, Hd. Qed.

Lemma field_skip {A} (d : decoder A) name old k j fs :
  bool_decide (foldName k = foldName name) = false →
  field d name old ((k, j) :: fs) = field d name old fs.
Proof. intros Hk%bool_decide_eq_false. unfold field. cbn. by rewrite decide_False. Qed.

Lemma dInt_JNum lo hi old n : (lo ≤ n ≤ hi)%Z → dInt lo hi old (JNum n) = Some n.
Proof. intros Hn. cbn. replace (lo <=? n)%Z with true by lia. by replace (n <=? hi)%Z with true by lia. Qed.

Lemma dTime_JTime old t : marshalable t = true → dTime old (JTime t) = Some t.
Proof. apply parseRFC3339_format. Qed.

Lemma mapM_fmap {A B} (f : B → A) (g : A → option B) (l : list B) :
  Forall (λ x, g (f x) = Some x) l → mapM g (f <$> l) = Some l.
Proof. induction 1 as [|x l Hx _ IH]; [done|]. rewrite fmap_cons. cbn. by rewrite Hx, IH. Qed.

Lemma dSlice_JSlice {A} (d : decoder A) zero (f : A → json) old (l : slice A) :
  Forall (λ x, d zero (f x) = Some x) (elems l) → dSlice d zero old (JSlice f l) = Some l.
Proof. destruct l as [l|]; [|done]. intros Hl. cbn. by rewrite mapM_fmap. Qed.

Lemma dList_JArr {A} (d : decoder A) zero (f : A → json) old (l : list A) :
  Forall (λ x, d zero (f x) = Some x) l → dList d zero old (JArr (f <$> l)) = Some l.
Proof. apply mapM_fmap. Qed.

(** A tree that is read back as it is: integers, text that is UTF-8, and no deeper than
    [d]. *)
Record faithful (d : nat) (j : json) : Prop := {
  faithful_plain : plain j = true;
  faithful_depth : depth j ≤ d;
  faithful_clean : cleanJson j = j;
}.

Lemma Unmarshal_encode {A} (dec : decoder A) zero d j a :
  faithful d j → d ≤ maxNestingDepth → dec zero j = Some a →
  Unmarshal dec zero (encode j) = Some a.
Proof.
  intros [Hp Hd Hc] Hmax Ha. unfold Unmarshal. rewrite decode_encode by (done || lia).
  by rewrite Hc.
Qed.

Lemma faithful_JStr d s : utf8 s → faithful d (JStr s).
Proof. intros Hs. split; [done|cbn; lia|]. cbn. by rewrite Hs. Qed.
Lemma faithful_JNum d n : faithful d (JNum n).
Proof. split; [done|cbn; lia|done]. Qed.
Lemma faithful_JBool d b : faithful d (JBool b).
Proof. split; [done|cbn; lia|done]. Qed.

Lemma clean_ascii s : ascii_string s = true → utf8 s.
Proof.
  unfold utf8, clean. induction s as [|c s IH]; [done|]. cbn.
  intros [Hc Hs]%andb_true_iff. by rewrite Hc, IH.
Qed.

Lemma htmlSafe_utf8 s : forallb htmlSafe s = true → utf8 s.
Proof.
  intros Hs. apply clean_ascii. unfold ascii_string. eapply forallb_impl; [|exact Hs].
  intros c Hc. unfold htmlSafe in Hc. by apply andb_true_iff in Hc as [[??]%andb_true_iff _].
Qed.

Lemma faithful_JTime d t : faithful d (JTime t).
Proof. apply faithful_JStr, htmlSafe_utf8, formatRFC3339Nano_safe. Qed.

Lemma max_list_le (l : list nat) d : Forall (λ n, n ≤ d) l → max_list l ≤ d.
Proof. induction 1; cbn; lia. Qed.

Lemma faithful_JArr {A} (f : A → json) d (l : list A) :
  Forall (λ x, faithful d (f x)) l → faithful (S d) (JArr (f <$> l)).
Proof.
  intros Hl. split; cbn [plain depth cleanJson].
  - apply forallb_Forall, Forall_fmap. eapply Forall_impl; [exact Hl|]. by intros x [].
  - apply le_n_S, max_list_le. rewrite <- list_fmap_compose. apply Forall_fmap.
    eapply Forall_impl; [exact Hl|]. by intros x [].
  - f_equal. rewrite <- list_fmap_compose. apply list_fmap_ext. intros i x Hx. cbn.
    rewrite Forall_lookup in Hl. by destruct (Hl i x Hx).
Qed.

Lemma faithful_JSlice {A} (f : A → json) d (l : slice A) :
  Forall (λ x, faithful d (f x)) (elems l) → faithful (S d) (JSlice f l).
Proof. destruct l; [apply faithful_JArr|]. intros _. split; [done|cbn; lia|done]. Qed.

Lemma faithful_JObj d fs :
  Forall (λ f : gostring * json, utf8 f.1 ∧ faithful d f.2) fs → faithful (S d) (JObj fs).
Proof.
  intros Hl. split; cbn [plain depth cleanJson].
  - apply forallb_Forall. eapply Forall_impl; [exact Hl|]. by intros x [_ []].
  - apply le_n_S, max_list_le, Forall_fmap. eapply Forall_impl; [exact Hl|]. by intros x [_ []].
  - f_equal. rewrite <- (list_fmap_id fs) at 2. apply list_fmap_ext. intros i [k x] Hx.
    rewrite Forall_lookup in Hl. destruct (Hl i _ Hx) as [Hk [_ _ Hc]].
    cbn [fst snd id] in *. unfold utf8 in Hk. by rewrite Hk, Hc.
Qed.

Lemma Forall_omitempty (P : gostring * json → Prop) b k j :
  (b = false → P (k, j)) → Forall P (omitempty b k j).
Proof. destruct b; [done|]. intros Hp. constructor; [by apply Hp|done]. Qed.

(** Walk through a struct's members; what is left says that its strings are UTF-8. *)
Ltac faithful_struct :=
  apply faithful_JObj;
  repeat first [ apply Forall_nil_2 | apply Forall_cons_2 | apply Forall_app_2
               | apply Forall_omitempty; intros _ ];
  (split; [vm_compute; reflexivity|]); cbn [snd];
  try first [ apply faithful_JNum | apply faithful_JBool | apply faithful_JTime
            | apply faithful_JStr; by eauto ].

Lemma bind_field {A B} (o : option A) (k : A → option B) a b :
  o = Some a → k a = Some b → o ≫= k = Some b.
Proof. by intros ->. Qed.

(** Read the fields of a struct from the members that were written for it.  Members that
    may be left out must have been decided; [value] reads back a single value. *)
Ltac read_field value :=
  repeat first
    [ rewrite field_skip by (vm_compute; reflexivity)
    | erewrite field_take; [|vm_compute; reflexivity|value] ];
  apply field_nil.
Ltac read_struct value :=
  lazymatch goal with
  | |- ?dec ?zero (?enc ?x) = _ =>
      let j := eval unfold enc in (enc x) in
      let j := eval cbn in j in
      change (enc x) with j; unfold dec; cbn [struct_decoder]
  end;
  repeat (eapply bind_field; [read_field value|]); reflexivity.

#[global] Arguments JTime : simpl never.
#[global] Arguments JSlice : simpl never.
