(* ===== verification/WireModel.v ===== *)
(** The wire contract of the internal DNS service: package
    [internal/internaldns/model].

    The control plane and every regional serving replica exchange the types below as JSON
    in an [Envelope].  Each type has its validation, one [WireError] constructor per
    refusal of the source, and [VerifyManifest] puts a publication together from its
    chunks.  Slices that are written without [omitempty] are [slice]s, so that a [nil]
    one is told from an empty one.

    miekg/dns is a library outside the sources: the four functions the code calls are the
    class [MiekgDNS]. *)

From S2P Require Import Prelude GoStrings GoNetip GoCrypto GoJson.

(** * Names and hashes *)

Definition APIVersion : gostring := "internal.dns.networking.miloapis.com/v1alpha6".

(** [DestinationKey]. *)
Definition DestinationKey (region address : gostring) : gostring :=
  region ++ "000"%char :: address.

Definition KindServingSnapshot : gostring := "ServingSnapshot".
Definition KindPublicationChunk : gostring := "PublicationChunk".
Definition KindPublicationManifest : gostring := "PublicationManifest".
Definition KindMemberAck : gostring := "MemberAck".

Definition Hash (b : gostring) : gostring := EncodeToString (Sum256 b).
Definition EmptyContentHash : gostring := Hash [].

(** [OpaqueToken]: the first twelve bytes of the digest. *)
Definition OpaqueToken (uid : gostring) : gostring := EncodeToString (take 12 (Sum256 uid)).

Definition validHash (s : gostring) : bool := (length s =? 64)%nat && hexDecodable s.

(** [SafeToken]: a run of bytes outside the class of [unsafeToken] becomes one
    underscore. *)
Definition safeByte (c : ascii) : bool :=
  isLower c || isDigit c || Ascii.eqb c "_" || Ascii.eqb c "-".
Fixpoint replaceUnsafe (inRun : bool) (s : gostring) : gostring :=
  match s with
  | [] => []
  | c :: s' =>
      if safeByte c then c :: replaceUnsafe false s'
      else if inRun then replaceUnsafe true s' else "_"%char :: replaceUnsafe true s'
  end.
Definition TrimByte (s : gostring) (c : ascii) : gostring := TrimRightByte (trimLeftByte c s) c.
Definition SafeToken `{GoRuntime} (s : gostring) : gostring :=
  let s := TrimByte (replaceUnsafe false (ToLower s)) "_" in
  if decide (s = []) then "unknown" else s.

Definition AbsoluteName `{GoRuntime} (s : gostring) : gostring :=
  let s := ToLower (TrimSpace s) in
  if decide (s = []) then "." else if HasSuffix s "." then s else s ++ ".".

(** ** Writer order *)

(** [NextWriterEpoch]: the increment wraps around at 64 bits. *)
Definition NextWriterEpoch (stored : Z) (now : Z) : Z :=
  Z.max ((stored + 1) mod 2 ^ 64) (Z.max (Unix now) 0).

Definition Compare (epoch revision currentEpoch currentRevision : Z) : Z :=
  if (epoch <? currentEpoch)%Z || (epoch =? currentEpoch)%Z && (revision <? currentRevision)%Z
  then -1
  else if (epoch =? currentEpoch)%Z && (revision =? currentRevision)%Z then 0 else 1.

(** * Types *)

Record Envelope := {
  e_APIVersion : gostring;
  e_Kind : gostring;
  e_EventID : gostring;
  e_Region : gostring;
  e_Shard : gostring;
  e_ResourceUID : gostring;
  e_Epoch : Z;
  e_Revision : Z;
  e_PublishedAt : Z;
  e_Payload : RawMessage;
}.

Record AccessVersion := { v_Epoch : Z; v_Sequence : Z }.
#[global] Instance AccessVersion_eq_dec : EqDecision AccessVersion.
Proof. solve_decision. Defined.

Record Backend := { be_MemberID : gostring; be_Address : gostring; be_Port : Z }.

Record ZoneAttachment := {
  za_Pending : bool;
  za_ZoneUID : gostring;
  za_Apex : gostring;
  za_RequiredPublicationEpoch : Z;
  za_RequiredPublicationRevision : Z;
}.

Definition TransportUDP : gostring := "UDP".
Definition TransportTCP : gostring := "TCP".

Record Binding := {
  b_BindingUID : gostring;
  b_ProjectUID : gostring;
  b_ContextUID : gostring;
  b_BindingGeneration : Z;
  b_ConfigurationRevision : Z;
  b_ConsumerAddress : gostring;
  b_ClusterAddress : gostring;
  b_Port : Z;
  b_Transports : slice gostring;
  b_Zones : slice ZoneAttachment;
  b_NodeBackends : slice Backend;
  b_ClusterBackends : slice Backend;
  b_Version : AccessVersion;
  b_Tombstone : bool;
  b_ConfigurationPending : bool;
}.

Record Member := { m_MemberID : gostring; m_ReplicaID : gostring; m_Role : gostring }.
Record MemberPattern := { mp_Role : gostring; mp_IDPrefix : gostring }.
Record PublicationRequirement := { pr_ZoneUID : gostring; pr_Epoch : Z; pr_Revision : Z }.

Record ServingSnapshot := {
  s_Region : gostring;
  s_Shard : gostring;
  s_ConfigurationEpoch : Z;
  s_ConfigurationRevision : Z;
  s_Bindings : slice Binding;
  s_Members : slice Member;
  s_MemberPatterns : list MemberPattern;
  s_RequiredPublications : list PublicationRequirement;
  s_GeneratedAt : Z;
}.

Record ChunkRef := { cr_Index : Z; cr_SHA256 : gostring; cr_Size : Z }.

Record PublicationManifest := {
  pm_ManifestUID : gostring;
  pm_ZoneUID : gostring;
  pm_Apex : gostring;
  pm_WriterEpoch : Z;
  pm_Revision : Z;
  pm_PreviousRevision : Z;
  pm_Tombstone : bool;
  pm_Chunks : list ChunkRef;
  pm_ContentHash : gostring;
  pm_GeneratedAt : Z;
}.

Record PublicationChunk := {
  pc_ManifestUID : gostring;
  pc_ZoneUID : gostring;
  pc_WriterEpoch : Z;
  pc_Revision : Z;
  pc_Index : Z;
  pc_SHA256 : gostring;
  pc_Payload : gostring;
}.

Record RRRecord := {
  rec_Content : gostring;
  rec_ContributionUID : gostring;
  rec_Generation : Z;
  rec_Sequence : Z;
  rec_Eligible : bool;
}.
Record WireRRSet := {
  rr_Name : gostring;
  rr_Type : gostring;
  rr_TTL : Z;
  rr_Records : list RRRecord;
}.
Record RegistrationFence := { rf_UID : gostring; rf_Generation : Z }.
Record ObservationFence := {
  of_ContributionUID : gostring;
  of_Generation : Z;
  of_Sequence : Z;
  of_Retired : bool;
  of_SourceName : gostring;
}.
Record PublicationPlan := {
  pl_ZoneUID : gostring;
  pl_Apex : gostring;
  pl_Registrations : list RegistrationFence;
  pl_ObservationFences : list ObservationFence;
  pl_Owners : list gostring;
  pl_RRSets : list WireRRSet;
}.

(** ** Members *)

Definition IsOrdinal (s : gostring) : bool :=
  match s with
  | [] => false
  | [c] => isDigit c
  | c :: _ => negb (Ascii.eqb c "0") && forallb isDigit s
  end.

(** [MemberPattern.Matches]. *)
Definition Matches (p : MemberPattern) (memberID : gostring) : bool :=
  bool_decide (mp_IDPrefix p ≠ []) && HasPrefix memberID (mp_IDPrefix p)
  && IsOrdinal (drop (length (mp_IDPrefix p)) memberID).

(** [LookupMember]; the boolean result is the [option]. *)
Definition LookupMember (members : list Member) (patterns : list MemberPattern)
    (memberID : gostring) : option Member :=
  match filter (λ m, m_MemberID m = memberID) members with
  | m :: _ => Some m
  | [] =>
      match filter (λ p, Matches p memberID = true) patterns with
      | p :: _ => Some {| m_MemberID := memberID; m_ReplicaID := memberID; m_Role := mp_Role p |}
      | [] => None
      end
  end.

(** [Binding.ViewName]. *)
Definition ViewName (b : Binding) : gostring :=
  "context_" ++ OpaqueToken (b_ProjectUID b ++ "/" ++ b_ContextUID b) ++ "_g"
    ++ FormatUint (b_BindingGeneration b).

(** ** Subjects and keys ([subjects.go], [snapshot_keys.go]) *)

Section subjects.
Context `{GoRuntime}.

Definition ServingSubject (region shard : gostring) : gostring :=
  "dns.private.serving." ++ SafeToken region ++ "." ++ SafeToken shard.
Definition RecordChunkSubject (region shard zoneUID : gostring) : gostring :=
  "dns.private.records." ++ SafeToken region ++ "." ++ SafeToken shard ++ "."
    ++ OpaqueToken zoneUID ++ ".chunk".
Definition RecordManifestSubject (region shard zoneUID : gostring) : gostring :=
  "dns.private.records." ++ SafeToken region ++ "." ++ SafeToken shard ++ "."
    ++ OpaqueToken zoneUID ++ ".manifest".
Definition RecordConsumerFilter (region shard : gostring) : gostring :=
  "dns.private.records." ++ SafeToken region ++ "." ++ SafeToken shard ++ ".>".
Definition AckSubject (region shard memberID : gostring) : gostring :=
  "dns.private.acks." ++ SafeToken region ++ "." ++ SafeToken shard ++ "."
    ++ OpaqueToken memberID.
Definition SnapshotPrefix (region shard : gostring) : gostring :=
  SafeToken region ++ "." ++ SafeToken shard ++ ".".

(** [PublicationActivationName]: a long name keeps its head and a digest of the whole. *)
Definition PublicationActivationName (manifest region shard : gostring) : gostring :=
  let name := manifest ++ "-" ++ SafeToken region ++ "-" ++ SafeToken shard ++ "-activate" in
  if (length name <=? 63)%nat then TrimByte name "-"
  else TrimByte (take 50 name) "-" ++ "-" ++ EncodeToString (take 6 (Sum256 name)).

(** [SnapshotKey], the index being that of the decoded chunk; [None] for an event that is
    no bootstrap state. *)
Definition SnapshotKey (env : Envelope) (index : Z) : option gostring :=
  let prefix := SnapshotPrefix (e_Region env) (e_Shard env) in
  let uid := OpaqueToken (e_ResourceUID env) in
  if decide (e_Kind env = KindPublicationChunk) then
    Some (prefix ++ "chunk." ++ uid ++ ".e" ++ FormatUint (e_Epoch env) ++ ".r"
          ++ FormatUint (e_Revision env) ++ ".i" ++ FormatInt index)
  else if decide (e_Kind env = KindPublicationManifest) then Some (prefix ++ "manifest." ++ uid)
  else if decide (e_Kind env = KindServingSnapshot) then Some (prefix ++ "serving." ++ uid)
  else None.
End subjects.

(** * Validation *)

(** miekg/dns, as the code calls it: [IsDomainName]'s verdict, [IsSubDomain], membership
    in [StringToType], and whether [NewRR] reads a record. *)
Class MiekgDNS := {
  dns_IsDomainName : gostring → bool;
  dns_IsSubDomain : gostring → gostring → bool;
  dns_StringToType : gostring → bool;
  dns_NewRR : gostring → bool;
}.

Inductive WireError :=
| EMarshal
| EEnvelopeIncomplete
| EUnsafeToken
| EUnsupportedAPIVersion
| EUnsupportedKind
| EPatternRole
| EPatternPrefix
| ESnapshotIncomplete
| EMemberInvalid
| EMemberDuplicate
| ERequirementIncomplete
| ERequirementDuplicate
| EBindingIncomplete
| EBindingDuplicate
| EAddressInvalid
| EAddressTaken
| EBindingTransport
| EPendingZones
| ETransportUnsupported
| ETransportDuplicate
| EBackendIncomplete
| EBackendAddress
| EBackendEndpoints
| EBackendMembers
| EZoneIncomplete
| EZoneApex
| EZoneTwice
| EManifestIncomplete
| EManifestPrevious
| EManifestApex
| EManifestTombstone
| EManifestContent
| EChunkRef
| EChunkIncomplete
| EChunkHash
| EChunkCount
| EChunkIdentity
| EChunkDuplicate
| EChunkMissing
| EContentHash
| EPlanIncomplete
| EPlanApex
| ERegistrationIncomplete
| ERegistrationOrder
| EObservationIncomplete
| EObservationOrder
| EOwnerOutside
| EPrivateOwner
| ECNAMECoexists
| ECNAMETargets
| ERRSetIncomplete
| ERRSetOutside
| ERRSetType
| ERRSetDuplicate
| ERecordEmpty
| ERecordStaticFence
| ERecordFence
| ERecordData.

Definition refuse {E} (c : bool) (e : E) : result E unit := if c then Err e else Ok tt.

Section validate.
Context `{GoRuntime} `{MiekgDNS}.

(** [Envelope.Validate]. *)
Definition Envelope_Validate (e : Envelope) : result WireError unit :=
  _ ← refuse (bool_decide (e_APIVersion e = []) || bool_decide (e_Kind e = [])
              || bool_decide (e_EventID e = []) || bool_decide (e_Region e = [])
              || bool_decide (e_Shard e = []) || bool_decide (e_ResourceUID e = [])
              || (e_Epoch e =? 0)%Z || (e_Revision e =? 0)%Z || IsZero (e_PublishedAt e)
              || negb (json_Valid (e_Payload e))) EEnvelopeIncomplete;
  _ ← refuse (bool_decide (SafeToken (e_Region e) ≠ e_Region e)
              || bool_decide (SafeToken (e_Shard e) ≠ e_Shard e)) EUnsafeToken;
  _ ← refuse (bool_decide (e_APIVersion e ≠ APIVersion)) EUnsupportedAPIVersion;
  refuse (bool_decide (e_Kind e ∉ [KindServingSnapshot; KindPublicationChunk;
                                   KindPublicationManifest; KindMemberAck])) EUnsupportedKind.

(** [NewEnvelope].  The payload is given as what [json.Marshal] makes of it, [None] if it
    fails. *)
Definition envelopeOf (kind eventID region shard uid : gostring) (epoch revision at_ : Z)
    (payload : json) : Envelope :=
  {| e_APIVersion := APIVersion; e_Kind := kind; e_EventID := eventID; e_Region := region;
     e_Shard := shard; e_ResourceUID := uid; e_Epoch := epoch; e_Revision := revision;
     e_PublishedAt := at_; e_Payload := Encoded payload |}.
Definition NewEnvelope (kind eventID region shard uid : gostring) (epoch revision at_ : Z)
    (payload : option json) : result WireError Envelope :=
  match payload with
  | None => Err EMarshal
  | Some j =>
      let e := envelopeOf kind eventID region shard uid epoch revision at_ j in
      _ ← Envelope_Validate e; Ok e
  end.

(** [MemberPattern.Validate]. *)
Definition MemberPattern_Validate (p : MemberPattern) : result WireError unit :=
  _ ← refuse (bool_decide (mp_Role p ≠ "node")) EPatternRole;
  refuse (bool_decide (mp_IDPrefix p = [])) EPatternPrefix.

(** A loop that refuses a key it has seen. *)
Definition once {A} (key : A → gostring) (dup : WireError) (seen : gset gostring) (x : A) :
    result WireError (gset gostring) :=
  if decide (key x ∈ seen) then Err dup else Ok ({[ key x ]} ∪ seen).

Definition memberKey (m : Member) : gostring := m_MemberID m ++ "000"%char :: m_ReplicaID m.
Definition validateMember (seen : gset gostring) (m : Member) :
    result WireError (gset gostring) :=
  _ ← refuse (bool_decide (m_MemberID m = [])
              || bool_decide (m_Role m ∉ ["resolver"; "node"; "cluster"; "regional"] ))
        EMemberInvalid;
  once memberKey EMemberDuplicate seen m.

Definition validateRequirement (seen : gset gostring) (r : PublicationRequirement) :
    result WireError (gset gostring) :=
  _ ← refuse (bool_decide (pr_ZoneUID r = []) || (pr_Epoch r =? 0)%Z || (pr_Revision r =? 0)%Z)
        ERequirementIncomplete;
  once pr_ZoneUID ERequirementDuplicate seen r.

(** [netip.ParseAddr] and [Addr.IsUnspecified]. *)
Definition IsUnspecified (a : Addr) : bool :=
  match a with
  | Addr4 o => bool_decide (o = [0; 0; 0; 0]%Z)
  | Addr6 g z => bool_decide (g = replicate 8 0%Z) && bool_decide (z = [])
  end.
Definition usableAddr (raw : gostring) : bool :=
  match ParseAddr raw with Some a => negb (IsUnspecified a) | None => false end.

(** The addresses of a binding; a taken one is shared only by withdrawn bindings. *)
Definition validateAddress (b : Binding) (seenVIP : gmap gostring Binding)
    (address : gostring * gostring) : result WireError (gmap gostring Binding) :=
  let raw := address.2 in
  _ ← refuse (negb (usableAddr raw)) EAddressInvalid;
  _ ← match seenVIP !! raw with
      | Some old =>
          refuse (bool_decide (b_BindingUID old ≠ b_BindingUID b)
                  && (negb (b_Tombstone old) || negb (b_Tombstone b))) EAddressTaken
      | None => Ok tt
      end;
  Ok (<[raw := b]> seenVIP).
Definition bindingAddresses (b : Binding) : gmap gostring gostring :=
  <["consumerAddress" := b_ConsumerAddress b]> {[ "clusterAddress" := b_ClusterAddress b ]}.

Definition validateTransport (seen : gset gostring) (t : gostring) :
    result WireError (gset gostring) :=
  _ ← refuse (bool_decide (t ≠ TransportUDP) && bool_decide (t ≠ TransportTCP))
        ETransportUnsupported;
  once id ETransportDuplicate seen t.
Definition validateTransports (ts : list gostring) : result WireError unit :=
  (λ _, tt) <$> result_fold validateTransport ∅ ts.

(** The backends of a group: a member has one endpoint and an endpoint one member. *)
Definition endpoint (be : Backend) : gostring :=
  match ParseAddr (be_Address be) with Some a => AddrString a | None => [] end
    ++ ":" ++ FormatUint (be_Port be).
Definition validateBackend (maps : gmap gostring gostring * gmap gostring gostring)
    (be : Backend) : result WireError (gmap gostring gostring * gmap gostring gostring) :=
  let '(members, addresses) := maps in
  _ ← refuse (bool_decide (be_MemberID be = []) || (be_Port be =? 0)%Z) EBackendIncomplete;
  _ ← refuse (negb (usableAddr (be_Address be))) EBackendAddress;
  _ ← match members !! be_MemberID be with
      | Some old => refuse (bool_decide (old ≠ endpoint be)) EBackendEndpoints
      | None => Ok tt
      end;
  _ ← match addresses !! endpoint be with
      | Some old => refuse (bool_decide (old ≠ be_MemberID be)) EBackendMembers
      | None => Ok tt
      end;
  Ok (<[be_MemberID be := endpoint be]> members, <[endpoint be := be_MemberID be]> addresses).

(** The zones of a binding: an apex has one zone. *)
Definition validateZone (zoneApex : gmap gostring gostring) (z : ZoneAttachment) :
    result WireError (gmap gostring gostring) :=
  _ ← refuse (bool_decide (za_ZoneUID z = []) || (za_RequiredPublicationEpoch z =? 0)%Z
              || (za_RequiredPublicationRevision z =? 0)%Z) EZoneIncomplete;
  let apex := AbsoluteName (za_Apex z) in
  _ ← refuse (bool_decide (apex = ".") || negb (dns_IsDomainName apex)) EZoneApex;
  _ ← match zoneApex !! apex with
      | Some old => refuse (bool_decide (old ≠ za_ZoneUID z)) EZoneTwice
      | None => Ok tt
      end;
  Ok (<[apex := za_ZoneUID z]> zoneApex).

(** What the body of the loop over the bindings checks of one binding by itself, after
    its identity, UID and addresses. *)
Definition validateConfiguration (b : Binding) : result WireError unit :=
  _ ← refuse ((b_Port b =? 0)%Z || (length (elems (b_Transports b)) =? 0)%nat
              || (v_Epoch (b_Version b) =? 0)%Z || (v_Sequence (b_Version b) =? 0)%Z)
        EBindingTransport;
  _ ← refuse (b_ConfigurationPending b && negb (length (elems (b_Zones b)) =? 0)%nat)
        EPendingZones;
  _ ← validateTransports (elems (b_Transports b));
  _ ← result_iter (λ group, (λ _, tt) <$> result_fold validateBackend (∅, ∅) (elems group))
        [b_NodeBackends b; b_ClusterBackends b];
  (λ _, tt) <$> result_fold validateZone ∅ (elems (b_Zones b)).

Definition validateBinding (seen : gset gostring * gmap gostring Binding) (b : Binding) :
    result WireError (gset gostring * gmap gostring Binding) :=
  let '(seenUID, seenVIP) := seen in
  _ ← refuse (bool_decide (b_BindingUID b = []) || bool_decide (b_ProjectUID b = [])
              || bool_decide (b_ContextUID b = []) || (b_BindingGeneration b =? 0)%Z
              || (b_ConfigurationRevision b =? 0)%Z) EBindingIncomplete;
  seenUID ← once b_BindingUID EBindingDuplicate seenUID b;
  seenVIP ← result_fold (validateAddress b) seenVIP (map_range (bindingAddresses b));
  _ ← validateConfiguration b;
  Ok (seenUID, seenVIP).

(** [ServingSnapshot.Validate]. *)
Definition ServingSnapshot_Validate (s : ServingSnapshot) : result WireError unit :=
  _ ← refuse (bool_decide (s_Region s = []) || bool_decide (s_Shard s = [])
              || (s_ConfigurationEpoch s =? 0)%Z || (s_ConfigurationRevision s =? 0)%Z
              || IsZero (s_GeneratedAt s)) ESnapshotIncomplete;
  _ ← result_fold validateMember ∅ (elems (s_Members s));
  _ ← result_iter MemberPattern_Validate (s_MemberPatterns s);
  _ ← result_fold validateRequirement ∅ (s_RequiredPublications s);
  (λ _, tt) <$> result_fold validateBinding (∅, ∅) (elems (s_Bindings s)).

(** ** Publications *)

(** [PublicationManifest.Validate]. *)
Definition validateChunkRefs (refs : list ChunkRef) : result WireError unit :=
  result_iter (λ r : nat * ChunkRef,
    refuse (negb (cr_Index r.2 =? Z.of_nat r.1)%Z || (cr_Size r.2 <=? 0)%Z
            || negb (validHash (cr_SHA256 r.2))) EChunkRef)
    (imap pair refs).
Definition PublicationManifest_Validate (m : PublicationManifest) : result WireError unit :=
  _ ← refuse (bool_decide (pm_ManifestUID m = []) || bool_decide (pm_ZoneUID m = [])
              || bool_decide (AbsoluteName (pm_Apex m) = ".") || (pm_WriterEpoch m =? 0)%Z
              || (pm_Revision m =? 0)%Z || IsZero (pm_GeneratedAt m)) EManifestIncomplete;
  _ ← refuse ((pm_Revision m <=? pm_PreviousRevision m)%Z && negb (pm_PreviousRevision m =? 0)%Z)
        EManifestPrevious;
  _ ← refuse (negb (dns_IsDomainName (AbsoluteName (pm_Apex m)))) EManifestApex;
  if pm_Tombstone m then
    refuse (negb (length (pm_Chunks m) =? 0)%nat
            || bool_decide (pm_ContentHash m ≠ EmptyContentHash)) EManifestTombstone
  else
    _ ← refuse ((length (pm_Chunks m) =? 0)%nat || negb (validHash (pm_ContentHash m)))
          EManifestContent;
    validateChunkRefs (sort_slice (λ r r', (cr_Index r <? cr_Index r')%Z) (pm_Chunks m)).

(** [PublicationChunk.Validate]. *)
Definition PublicationChunk_Validate (c : PublicationChunk) : result WireError unit :=
  _ ← refuse (bool_decide (pc_ManifestUID c = []) || bool_decide (pc_ZoneUID c = [])
              || (pc_WriterEpoch c =? 0)%Z || (pc_Revision c =? 0)%Z || (pc_Index c <? 0)%Z
              || (length (pc_Payload c) =? 0)%nat || negb (validHash (pc_SHA256 c)))
        EChunkIncomplete;
  refuse (bool_decide (Hash (pc_Payload c) ≠ pc_SHA256 c)) EChunkHash.

(** [VerifyManifest]: the chunks by index, then their payloads in the order of the
    manifest. *)
Definition verifyChunk (m : PublicationManifest) (byIndex : gmap Z PublicationChunk)
    (c : PublicationChunk) : result WireError (gmap Z PublicationChunk) :=
  _ ← PublicationChunk_Validate c;
  _ ← refuse (bool_decide (pc_ManifestUID c ≠ pm_ManifestUID m)
              || bool_decide (pc_ZoneUID c ≠ pm_ZoneUID m)
              || negb (pc_WriterEpoch c =? pm_WriterEpoch m)%Z
              || negb (pc_Revision c =? pm_Revision m)%Z) EChunkIdentity;
  match byIndex !! pc_Index c with
  | Some _ => Err EChunkDuplicate
  | None => Ok (<[pc_Index c := c]> byIndex)
  end.
Definition appendChunk (byIndex : gmap Z PublicationChunk) (payload : gostring)
    (ref : ChunkRef) : result WireError gostring :=
  match byIndex !! cr_Index ref with
  | Some c =>
      if negb (Z.of_nat (length (pc_Payload c)) =? cr_Size ref)%Z
         || bool_decide (pc_SHA256 c ≠ cr_SHA256 ref)
      then Err EChunkMissing
      else Ok (payload ++ pc_Payload c)
  | None => Err EChunkMissing
  end.
Definition VerifyManifest (m : PublicationManifest) (chunks : list PublicationChunk) :
    result WireError gostring :=
  _ ← PublicationManifest_Validate m;
  if pm_Tombstone m then Ok []
  else
    _ ← refuse (negb (length chunks =? length (pm_Chunks m))%nat) EChunkCount;
    byIndex ← result_fold (verifyChunk m) ∅ chunks;
    payload ← result_fold (appendChunk byIndex) [] (pm_Chunks m);
    _ ← refuse (bool_decide (Hash payload ≠ pm_ContentHash m)) EContentHash;
    Ok payload.

(** ** Plans *)

Definition OwnershipMarkerType : gostring := "TYPE65280".
Definition recordTypeCNAME : gostring := "CNAME".

(** [ValidatePrivateRecordOwner]. *)
Definition ValidatePrivateRecordOwner (owner apex recordType : gostring) :
    result WireError unit :=
  let owner := TrimSpace owner in
  _ ← refuse (EqualFold recordType OwnershipMarkerType) EPrivateOwner;
  _ ← refuse (EqualFold recordType "ALIAS") EPrivateOwner;
  _ ← refuse (EqualFold recordType "SOA") EPrivateOwner;
  refuse (EqualFold recordType recordTypeCNAME
          && (bool_decide (owner = []) || bool_decide (owner = "@")
              || bool_decide (AbsoluteName owner = AbsoluteName apex))) EPrivateOwner.

(** Fences are in strictly rising order; the empty string stands for none before. *)
Definition validateRegistration (previous : gostring) (r : RegistrationFence) :
    result WireError gostring :=
  _ ← refuse (bool_decide (rf_UID r = []) || (rf_Generation r =? 0)%Z) ERegistrationIncomplete;
  _ ← refuse (bool_decide (previous ≠ []) && negb (str_ltb previous (rf_UID r)))
        ERegistrationOrder;
  Ok (rf_UID r).
Definition validateObservation (st : gmap gostring ObservationFence * gostring)
    (o : ObservationFence) : result WireError (gmap gostring ObservationFence * gostring) :=
  let '(byUID, previous) := st in
  _ ← refuse (bool_decide (of_ContributionUID o = []) || (of_Generation o =? 0)%Z
              || (of_Sequence o =? 0)%Z) EObservationIncomplete;
  _ ← refuse (bool_decide (previous ≠ []) && negb (str_ltb previous (of_ContributionUID o)))
        EObservationOrder;
  Ok (<[of_ContributionUID o := o]> byUID, of_ContributionUID o).

Definition inZone (apex owner : gostring) : bool :=
  dns_IsDomainName owner && dns_IsSubDomain apex owner.

Definition validateRecord (observations : gmap gostring ObservationFence)
    (owner rrType : gostring) (ttl : Z) (r : RRRecord) : result WireError unit :=
  _ ← refuse (bool_decide (rec_Content r = [])) ERecordEmpty;
  _ ← (if decide (rec_ContributionUID r = []) then
         refuse (negb (rec_Generation r =? 0)%Z || negb (rec_Sequence r =? 0)%Z)
           ERecordStaticFence
       else
         match observations !! rec_ContributionUID r with
         | Some o =>
             refuse (of_Retired o || negb (rec_Generation r =? of_Generation o)%Z
                     || negb (rec_Sequence r =? of_Sequence o)%Z) ERecordFence
         | None => Err ERecordFence
         end);
  refuse (negb (dns_NewRR (owner ++ " " ++ FormatUint ttl ++ " IN " ++ rrType ++ " "
                           ++ rec_Content r))) ERecordData.

Definition validateRRSet (apex : gostring) (observations : gmap gostring ObservationFence)
    (st : gset gostring * gmap gostring gostring) (rr : WireRRSet) :
    result WireError (gset gostring * gmap gostring gostring) :=
  let '(seen, ownerTypes) := st in
  let owner := ToLower (AbsoluteName (rr_Name rr)) in
  let rrType := ToUpper (rr_Type rr) in
  let key := owner ++ "000"%char :: rrType in
  _ ← ValidatePrivateRecordOwner owner apex rrType;
  let other := default [] (ownerTypes !! owner) in
  _ ← refuse (bool_decide (other ≠ [])
              && (bool_decide (other = recordTypeCNAME) || bool_decide (rrType = recordTypeCNAME)))
        ECNAMECoexists;
  let ownerTypes := <[owner := rrType]> ownerTypes in
  _ ← refuse (bool_decide (rrType = recordTypeCNAME) && negb (length (rr_Records rr) =? 1)%nat)
        ECNAMETargets;
  _ ← refuse ((length (rr_Records rr) =? 0)%nat || bool_decide (rr_Type rr = [])) ERRSetIncomplete;
  _ ← refuse (negb (inZone apex owner)) ERRSetOutside;
  _ ← refuse (negb (dns_StringToType rrType)) ERRSetType;
  _ ← refuse (bool_decide (key ∈ seen)) ERRSetDuplicate;
  _ ← result_iter (validateRecord observations owner rrType (rr_TTL rr)) (rr_Records rr);
  Ok ({[ key ]} ∪ seen, ownerTypes).

(** [PublicationPlan.Validate]. *)
Definition PublicationPlan_Validate (p : PublicationPlan) : result WireError unit :=
  _ ← refuse (bool_decide (pl_ZoneUID p = []) || bool_decide (AbsoluteName (pl_Apex p) = "."))
        EPlanIncomplete;
  let apex := AbsoluteName (pl_Apex p) in
  _ ← refuse (negb (dns_IsDomainName apex)) EPlanApex;
  _ ← result_fold validateRegistration [] (pl_Registrations p);
  '(observations, _) ← result_fold validateObservation (∅, []) (pl_ObservationFences p);
  _ ← result_iter (λ owner, refuse (negb (inZone apex (AbsoluteName owner))) EOwnerOutside)
        (pl_Owners p);
  (λ _, tt) <$> result_fold (validateRRSet apex observations) (∅, ∅) (pl_RRSets p).
End validate.

(** ** JSON

    [json.Marshal] fails on an envelope whose payload is no JSON; the encoding is that of
    the others. *)

Definition Envelope_json (e : Envelope) : json := JObj
  [("apiVersion", JStr (e_APIVersion e)); ("kind", JStr (e_Kind e));
   ("eventID", JStr (e_EventID e)); ("region", JStr (e_Region e)); ("shard", JStr (e_Shard e));
   ("resourceUID", JStr (e_ResourceUID e)); ("epoch", JNum (e_Epoch e));
   ("revision", JNum (e_Revision e)); ("publishedAt", JTime (e_PublishedAt e));
   ("payload", match e_Payload e with Encoded j => j | NotJson _ => JNull end)].
Definition AccessVersion_json (v : AccessVersion) : json :=
  JObj [("epoch", JNum (v_Epoch v)); ("sequence", JNum (v_Sequence v))].
Definition Backend_json (b : Backend) : json :=
  JObj [("memberID", JStr (be_MemberID b)); ("address", JStr (be_Address b));
        ("port", JNum (be_Port b))].
Definition ZoneAttachment_json (z : ZoneAttachment) : json :=
  JObj (omitempty (negb (za_Pending z)) "pending" (JBool true)
        ++ [("zoneUID", JStr (za_ZoneUID z)); ("apex", JStr (za_Apex z));
            ("requiredPublicationEpoch", JNum (za_RequiredPublicationEpoch z));
            ("requiredPublicationRevision", JNum (za_RequiredPublicationRevision z))]).
Definition Binding_json (b : Binding) : json :=
  JObj ([("bindingUID", JStr (b_BindingUID b)); ("projectUID", JStr (b_ProjectUID b));
         ("contextUID", JStr (b_ContextUID b));
         ("bindingGeneration", JNum (b_BindingGeneration b));
         ("configurationRevision", JNum (b_ConfigurationRevision b));
         ("consumerAddress", JStr (b_ConsumerAddress b));
         ("clusterAddress", JStr (b_ClusterAddress b)); ("port", JNum (b_Port b));
         ("transports", JSlice JStr (b_Transports b));
         ("zones", JSlice ZoneAttachment_json (b_Zones b));
         ("nodeBackends", JSlice Backend_json (b_NodeBackends b));
         ("clusterBackends", JSlice Backend_json (b_ClusterBackends b));
         ("version", AccessVersion_json (b_Version b))]
        ++ omitempty (negb (b_Tombstone b)) "tombstone" (JBool true)
        ++ omitempty (negb (b_ConfigurationPending b)) "configurationPending" (JBool true)).
Definition Member_json (m : Member) : json :=
  JObj (("memberID", JStr (m_MemberID m))
        :: omitempty (bool_decide (m_ReplicaID m = [])) "replicaID" (JStr (m_ReplicaID m))
        ++ [("role", JStr (m_Role m))]).
Definition MemberPattern_json (p : MemberPattern) : json :=
  JObj [("role", JStr (mp_Role p)); ("idPrefix", JStr (mp_IDPrefix p))].
Definition PublicationRequirement_json (r : PublicationRequirement) : json :=
  JObj [("zoneUID", JStr (pr_ZoneUID r)); ("epoch", JNum (pr_Epoch r));
        ("revision", JNum (pr_Revision r))].
Definition ServingSnapshot_json (s : ServingSnapshot) : json :=
  JObj ([("region", JStr (s_Region s)); ("shard", JStr (s_Shard s));
         ("configurationEpoch", JNum (s_ConfigurationEpoch s));
         ("configurationRevision", JNum (s_ConfigurationRevision s));
         ("bindings", JSlice Binding_json (s_Bindings s));
         ("members", JSlice Member_json (s_Members s))]
        ++ omitempty (length (s_MemberPatterns s) =? 0)%nat "memberPatterns"
             (JArr (MemberPattern_json <$> s_MemberPatterns s))
        ++ omitempty (length (s_RequiredPublications s) =? 0)%nat "requiredPublications"
             (JArr (PublicationRequirement_json <$> s_RequiredPublications s))
        ++ [("generatedAt", JTime (s_GeneratedAt s))]).

(** [json.Marshal] of a snapshot: only its time can be refused. *)
Definition ServingSnapshot_marshal (s : ServingSnapshot) : option json :=
  if marshalable (s_GeneratedAt s) then Some (ServingSnapshot_json s) else None.

(** * Lemmas *)

Lemma refuse_Ok {E} c (e : E) x : refuse c e = Ok x ↔ c = false.
Proof. destruct c, x; cbn; split; congruence. Qed.

Lemma refuse_bind {E A} c (e : E) (k : unit → result E A) a :
  refuse c e ≫= k = Ok a ↔ c = false ∧ k tt = Ok a.
Proof. destruct c; cbn; split; intuition congruence. Qed.

Lemma fmap_unit_Ok {E A} (m : result E A) : (λ _, tt) <$> m = Ok tt ↔ is_Ok m.
Proof.
  rewrite fmap_Ok. unfold is_Ok. split; [intros (a & -> & _)|intros [a ->]]; eauto.
Qed.

Lemma Compare_lt e r e' r' : Compare e r e' r' = (-1)%Z ↔ (e < e' ∨ e = e' ∧ r < r')%Z.
Proof. unfold Compare. repeat case_match; lia. Qed.

Lemma Compare_eq e r e' r' : Compare e r e' r' = 0%Z ↔ e = e' ∧ r = r'.
Proof. unfold Compare. repeat case_match; lia. Qed.

Lemma Compare_gt e r e' r' : (0 < Compare e r e' r')%Z ↔ (e' < e ∨ e = e' ∧ r' < r)%Z.
Proof. unfold Compare. repeat case_match; lia. Qed.

(** ** Digests *)

Lemma validHash_Hash s : validHash (Hash s) = true.
Proof.
  unfold validHash, Hash, hexDecodable. rewrite length_EncodeToString, length_Sum256.
  cbn. rewrite EncodeToString_hex by apply Sum256_range. done.
Qed.

(** An instance of the library: names are the non-empty ones, a zone holds the names that
    end in it, and records are not looked into. *)
Definition reference_miekg : MiekgDNS := {|
  dns_IsDomainName := λ s, bool_decide (s ≠ []);
  dns_IsSubDomain := λ parent child, HasSuffix child parent;
  dns_StringToType := λ t, bool_decide (t ∈ ["A"; "AAAA"; "CNAME"; "MX"; "NS"; "SRV"; "TXT"]);
  dns_NewRR := λ _, true;
|}.
