(* ===== verification/Publication.v ===== *)
(** A publication on its way from the control plane to a serving replica.

    The control plane cuts the encoded plan of a zone into chunks and writes a manifest
    that lists them ([chunk] and [persistPublication] of
    [internal/internaldns/controlplane/publication_reconciler.go]).  A replica puts the
    chunks together again ([VerifyManifest] of [model.go]).  The theorems say that the
    replica gets the plan the control plane cut, in whatever order the chunks arrive, and
    that what it accepts is made of exactly the chunks the manifest lists. *)

From S2P Require Import Prelude GoStrings GoCrypto GoJson WireModel.

(** [chunk]: pieces of [size] bytes.  Every round takes at least one byte when [size] is
    positive, so the length is enough fuel. *)
Fixpoint chunkFrom (fuel : nat) (b : gostring) (size : Z) : list gostring :=
  match fuel with
  | O => []
  | S fuel' =>
      match b with
      | [] => []
      | _ =>
          let n := if (Z.of_nat (length b) <? size)%Z then Z.of_nat (length b) else size in
          take (Z.to_nat n) b :: chunkFrom fuel' (drop (Z.to_nat n) b) size
      end
  end.
Definition chunk (b : gostring) (size : Z) : list gostring := chunkFrom (length b) b size.

(** What identifies a publication: its manifest's name, its zone and apex, and its place
    in the order of the zone's writers. *)
Record PublicationIdentity := {
  pi_name : gostring;
  pi_zoneUID : gostring;
  pi_apex : gostring;
  pi_epoch : Z;
  pi_revision : Z;
  pi_previous : Z;
  pi_now : Z;
}.

(** The chunk and the reference [persistPublication] makes of the [i]-th part. *)
Definition wireChunk (id : PublicationIdentity) (i : nat) (p : gostring) : PublicationChunk :=
  {| pc_ManifestUID := pi_name id; pc_ZoneUID := pi_zoneUID id; pc_WriterEpoch := pi_epoch id;
     pc_Revision := pi_revision id; pc_Index := Z.of_nat i; pc_SHA256 := Hash p;
     pc_Payload := p |}.
Definition wireRef (i : nat) (p : gostring) : ChunkRef :=
  {| cr_Index := Z.of_nat i; cr_SHA256 := Hash p; cr_Size := Z.of_nat (length p) |}.

(** The manifest it writes, and the one it sends to a shard the zone leaves. *)
Definition wireManifest (id : PublicationIdentity) (tombstone : bool) (refs : list ChunkRef)
    (hash : gostring) : PublicationManifest :=
  {| pm_ManifestUID := pi_name id; pm_ZoneUID := pi_zoneUID id; pm_Apex := pi_apex id;
     pm_WriterEpoch := pi_epoch id; pm_Revision := pi_revision id;
     pm_PreviousRevision := pi_previous id; pm_Tombstone := tombstone; pm_Chunks := refs;
     pm_ContentHash := hash; pm_GeneratedAt := pi_now id |}.
Definition withdrawalManifest (m : PublicationManifest) : PublicationManifest :=
  {| pm_ManifestUID := pm_ManifestUID m; pm_ZoneUID := pm_ZoneUID m; pm_Apex := pm_Apex m;
     pm_WriterEpoch := pm_WriterEpoch m; pm_Revision := pm_Revision m;
     pm_PreviousRevision := pm_PreviousRevision m; pm_Tombstone := true; pm_Chunks := [];
     pm_ContentHash := EmptyContentHash; pm_GeneratedAt := pm_GeneratedAt m |}.

Definition wirePublication (id : PublicationIdentity) (tombstone : bool) (payload hash : gostring)
    (chunkSize : Z) : PublicationManifest * list PublicationChunk :=
  let parts := chunk payload chunkSize in
  (wireManifest id tombstone (imap wireRef parts) hash, imap (wireChunk id) parts).

(** * Cutting *)

Lemma chunkFrom_join fuel b size :
  (0 < size)%Z → length b ≤ fuel → mjoin (chunkFrom fuel b size) = b.
Proof.
  intros Hsize. revert b. induction fuel as [|fuel IH]; intros [|c b] Hb; cbn in Hb |- *; try done.
  { lia. }
  set (n := Z.to_nat _). rewrite IH, take_drop; [done|].
  rewrite length_drop. assert (0 < n); [|cbn; lia].
  subst n. destruct (Z.ltb_spec (Z.of_nat (S (length b))) size); lia.
Qed.

Lemma chunkFrom_size fuel b size :
  (0 < size)%Z → Forall (λ p, 0 < Z.of_nat (length p) ≤ size)%Z (chunkFrom fuel b size).
Proof.
  intros Hsize. revert b. induction fuel as [|fuel IH]; intros [|c b]; cbn; [done..|].
  constructor; [|by apply IH]. rewrite length_take. cbn [length].
  destruct (Z.ltb_spec (Z.of_nat (S (length b))) size); lia.
Qed.

(** * Reading *)

Section verify.
Context `{GoRuntime} `{MiekgDNS}.

(** A chunk that belongs to the manifest. *)
Definition chunkOf (m : PublicationManifest) (c : PublicationChunk) : Prop :=
  PublicationChunk_Validate c = Ok tt ∧ pc_ManifestUID c = pm_ManifestUID m
  ∧ pc_ZoneUID c = pm_ZoneUID m ∧ pc_WriterEpoch c = pm_WriterEpoch m
  ∧ pc_Revision c = pm_Revision m.

Lemma verifyChunk_Ok m M c M' :
  verifyChunk m M c = Ok M' ↔
  chunkOf m c ∧ M !! pc_Index c = None ∧ M' = <[pc_Index c := c]> M.
Proof.
  unfold verifyChunk, chunkOf. destruct (PublicationChunk_Validate c) as [[]|]; [|naive_solver].
  cbn. rewrite refuse_bind. destruct (M !! pc_Index c) eqn:E.
  { naive_solver. }
  rewrite !orb_false_iff, !negb_false_iff, !bool_decide_eq_false, !Z.eqb_eq.
  split; intros Hx.
  - destruct Hx as ((((Hm%dec_stable & Hz%dec_stable) & ?) & ?) & [= <-]). by split_and!.
  - naive_solver.
Qed.

Abbreviation indexed cs := ((λ c, (pc_Index c, c)) <$> cs).

Lemma verifyChunks_Ok m cs M M' :
  result_fold (verifyChunk m) M cs = Ok M' ↔
  Forall (chunkOf m) cs ∧ NoDup (pc_Index <$> cs) ∧ (∀ c, c ∈ cs → M !! pc_Index c = None)
  ∧ M' = list_to_map (indexed cs) ∪ M.
Proof.
  revert M. induction cs as [|c cs IH]; intros M; cbn.
  { rewrite (left_id_L ∅ (∪)). split; [intros [= <-]|by intros (_ & _ & _ & ->)].
    split_and!; try constructor; try done. by intros c ?%elem_of_nil. }
  transitivity (∃ M1, verifyChunk m M c = Ok M1 ∧ result_fold (verifyChunk m) M1 cs = Ok M').
  { destruct (verifyChunk m M c); naive_solver. }
  setoid_rewrite verifyChunk_Ok. setoid_rewrite IH. rewrite Forall_cons, NoDup_cons.
  setoid_rewrite elem_of_cons. split.
  - intros (M1 & (Hc & Hnone & ->) & Hcs & Hnd & Hfresh & ->).
    assert (∀ d, d ∈ cs → pc_Index d ≠ pc_Index c ∧ M !! pc_Index d = None) as Hd.
    { intros d Hd. specialize (Hfresh d Hd). by apply lookup_insert_None in Hfresh as [? ?]. }
    split_and!; try done.
    + intros (d & Heq & Hin)%list_elem_of_fmap. by destruct (Hd d Hin).
    + intros d [->|Hin]; [done|]. by apply Hd.
    + rewrite <- insert_union_l, insert_union_r; [done|].
      apply not_elem_of_list_to_map. rewrite <- list_fmap_compose.
      intros (d & Heq & Hin)%list_elem_of_fmap. by destruct (Hd d Hin).
  - intros ((Hc & Hcs) & (Hnin & Hnd) & Hfresh & ->). eexists. split.
    { split_and!; [done|by apply Hfresh; left|done]. }
    split_and!; try done.
    + intros d Hin. rewrite lookup_insert_ne; [apply Hfresh; by right|].
      intros Heq. apply Hnin. rewrite Heq. by apply list_elem_of_fmap_2.
    + rewrite <- insert_union_l, insert_union_r; [done|].
      apply not_elem_of_list_to_map. rewrite <- list_fmap_compose. done.
Qed.

(** The chunk a reference names, with the size and digest it states. *)
Definition named (M : gmap Z PublicationChunk) (ref : ChunkRef) (c : PublicationChunk) : Prop :=
  M !! cr_Index ref = Some c ∧ Z.of_nat (length (pc_Payload c)) = cr_Size ref
  ∧ pc_SHA256 c = cr_SHA256 ref.

Lemma appendChunks_Ok M refs p p' :
  result_fold (appendChunk M) p refs = Ok p' ↔
  ∃ cs, Forall2 (named M) refs cs ∧ p' = p ++ mjoin (pc_Payload <$> cs).
Proof.
  revert p. induction refs as [|r refs IH]; intros p; cbn.
  { split.
    - intros [= ->]. exists []. split; [constructor|]. cbn. by rewrite app_nil_r.
    - intros (cs & ->%Forall2_nil_inv_l & ->). cbn. by rewrite app_nil_r. }
  unfold appendChunk at 1. destruct (M !! cr_Index r) as [c|] eqn:Hr.
  2:{ split; [done|]. intros (cs & Hcs & _). apply Forall2_cons_inv_l in Hcs as (c & ? & (? & _) & _).
      congruence. }
  destruct (negb _ || _) eqn:Hbad.
  - split; [done|]. intros (cs & Hcs & _).
    apply Forall2_cons_inv_l in Hcs as (c' & ? & (Hc' & Hlen & Hsum) & _). simplify_eq.
    apply orb_true_iff in Hbad as [Hb|Hb].
    + apply negb_true_iff, Z.eqb_neq in Hb. lia.
    + by apply bool_decide_eq_true in Hb.
  - apply orb_false_iff in Hbad as [Hlen%negb_false_iff%Z.eqb_eq Hsum%bool_decide_eq_false].
    apply dec_stable in Hsum. rewrite IH. split.
    + intros (cs & Hcs & ->). exists (c :: cs). cbn. rewrite <- app_assoc. split; [|done].
      by constructor.
    + intros (cs & Hcs & ->). apply Forall2_cons_inv_l in Hcs as (c' & cs' & (? & _) & Hcs' & ->).
      simplify_eq. exists cs'. cbn. by rewrite app_assoc.
Qed.

Lemma validateChunkRefs_Ok refs :
  validateChunkRefs refs = Ok tt ↔
  ∀ i r, refs !! i = Some r →
    cr_Index r = Z.of_nat i ∧ (0 < cr_Size r)%Z ∧ validHash (cr_SHA256 r) = true.
Proof.
  unfold validateChunkRefs. rewrite result_iter_Ok, Forall_lookup.
  setoid_rewrite list_lookup_imap. setoid_rewrite fmap_Some. setoid_rewrite refuse_Ok.
  split; intros Hrefs i.
  - intros r Hr. specialize (Hrefs i (i, r) (ex_intro _ r (conj Hr eq_refl))). cbn in Hrefs.
    apply orb_false_iff in Hrefs as [[? ?]%orb_false_iff Hh%negb_false_iff].
    split_and!; [lia..|done].
  - intros [j r] (r' & Hr & [= -> ->]). cbn. destruct (Hrefs i r' Hr) as (-> & ? & ->).
    rewrite Z.eqb_refl. cbn. lia.
Qed.

(** The indices of a valid manifest are the numbers below the number of its chunks. *)
Lemma manifest_indices m :
  PublicationManifest_Validate m = Ok tt → pm_Tombstone m = false →
  NoDup (cr_Index <$> pm_Chunks m).
Proof.
  intros Hm Htomb. unfold PublicationManifest_Validate in Hm. rewrite Htomb, !refuse_bind in Hm.
  destruct Hm as (_ & _ & _ & _ & Hrefs). rewrite validateChunkRefs_Ok in Hrefs.
  revert Hrefs. set (less := λ r r', (cr_Index r <? cr_Index r')%Z).
  rewrite <- (sort_slice_perm less (pm_Chunks m)). generalize (sort_slice less (pm_Chunks m)).
  intros refs Hrefs. apply NoDup_alt. intros i j k Hi Hj.
  rewrite list_lookup_fmap, fmap_Some in Hi, Hj.
  destruct Hi as (r & Hr & ->), Hj as (r' & Hr' & Heq).
  destruct (Hrefs _ _ Hr) as [? _], (Hrefs _ _ Hr') as [? _]. lia.
Qed.

(** What [VerifyManifest] promises of the chunk at a reference. *)
Definition delivers (m : PublicationManifest) (ref : ChunkRef) (c : PublicationChunk) : Prop :=
  chunkOf m c ∧ pc_Index c = cr_Index ref ∧ Hash (pc_Payload c) = cr_SHA256 ref
  ∧ Z.of_nat (length (pc_Payload c)) = cr_Size ref.

Lemma chunkOf_hash m c : chunkOf m c → Hash (pc_Payload c) = pc_SHA256 c.
Proof.
  intros [Hc _]. unfold PublicationChunk_Validate in Hc.
  rewrite refuse_bind, refuse_Ok, bool_decide_eq_false in Hc. destruct Hc as [_ Hc].
  by apply dec_stable.
Qed.

Lemma lookup_indexed cs i c :
  NoDup (pc_Index <$> cs) →
  (list_to_map (indexed cs) : gmap Z PublicationChunk) !! i = Some c ↔ c ∈ cs ∧ pc_Index c = i.
Proof.
  intros Hnd. rewrite <- elem_of_list_to_map.
  2:{ by rewrite <- list_fmap_compose. }
  rewrite list_elem_of_fmap. split.
  - by intros (d & [= -> ->] & ?).
  - intros [? <-]. by exists c.
Qed.

(** The chunks behind an accepted payload, in the order of the manifest. *)
Lemma verified_chunks m chunks payload :
  VerifyManifest m chunks = Ok payload →
  if pm_Tombstone m then payload = []
  else ∃ cs, cs ≡ₚ chunks ∧ Forall2 (delivers m) (pm_Chunks m) cs
       ∧ payload = mjoin (pc_Payload <$> cs) ∧ Hash payload = pm_ContentHash m.
Proof.
  unfold VerifyManifest. rewrite bind_Ok. intros ([] & Hm & Hv).
  destruct (pm_Tombstone m) eqn:Htomb; [by simplify_eq|].
  rewrite refuse_bind, bind_Ok in Hv.
  destruct Hv as (Hlen%negb_false_iff%Nat.eqb_eq & M & HM & Hv).
  rewrite bind_Ok in Hv. destruct Hv as (p & Hp & Hv). rewrite refuse_bind in Hv.
  destruct Hv as [Hhash%bool_decide_eq_false%dec_stable [= <-]].
  apply verifyChunks_Ok in HM as (Hof & Hnd & _ & ->).
  rewrite (right_id_L ∅ (∪)) in Hp. apply appendChunks_Ok in Hp as (cs & Hcs & ->).
  assert (Forall2 (λ r c, delivers m r c ∧ c ∈ chunks) (pm_Chunks m) cs) as Hall.
  { eapply Forall2_impl; [done|]. intros r c ([Hin Hidx]%lookup_indexed & Hsize & Hsum); [|done].
    rewrite Forall_forall in Hof. specialize (Hof c Hin). split; [|done].
    split_and!; try done. rewrite <- Hsum. by eapply chunkOf_hash. }
  exists cs. split_and!; [|by eapply Forall2_impl; [done|]; intros ??[]|done|done].
  assert (cr_Index <$> pm_Chunks m = pc_Index <$> cs) as Hidx.
  { clear -Hall. induction Hall as [|r c refs cs [(_ & ? & _) _] _ IH]; [done|]. cbn. by f_equal. }
  apply submseteq_length_Permutation.
  - apply NoDup_submseteq.
    + apply (NoDup_fmap_1 pc_Index). rewrite <- Hidx. by apply manifest_indices.
    + intros c Hc. apply Forall2_flip in Hall.
      apply list_elem_of_lookup in Hc as [i Hi].
      by destruct (Forall2_lookup_l _ _ _ _ _ Hall Hi) as (r & _ & [_ ?]).
  - rewrite Hlen. by rewrite (Forall2_length _ _ _ Hall).
Qed.

(** C22. A publication a replica accepts is made of exactly the chunks its manifest lists:
    the payload is the chunks' payloads in the order of the manifest, every chunk that was
    supplied is used once, each has the identity of the manifest and the size and digest
    its reference states, and the whole has the digest of the manifest. *)
Theorem VerifyManifest_sound m chunks payload :
  VerifyManifest m chunks = Ok payload →
  if pm_Tombstone m then payload = []
  else ∃ cs, cs ≡ₚ chunks ∧ Forall2 (delivers m) (pm_Chunks m) cs
       ∧ payload = mjoin (pc_Payload <$> cs) ∧ Hash payload = pm_ContentHash m.
Proof. apply verified_chunks. Qed.

(** * The round trip *)

(** An identity a manifest can carry. *)
Definition identified (id : PublicationIdentity) : bool :=
  bool_decide (pi_name id ≠ []) && bool_decide (pi_zoneUID id ≠ [])
  && bool_decide (AbsoluteName (pi_apex id) ≠ ".") && dns_IsDomainName (AbsoluteName (pi_apex id))
  && negb (pi_epoch id =? 0)%Z && negb (pi_revision id =? 0)%Z && negb (IsZero (pi_now id))
  && ((pi_previous id =? 0)%Z || (pi_previous id <? pi_revision id)%Z).

Lemma wireRefs_sorted parts :
  sort_slice (λ r r', (cr_Index r <? cr_Index r')%Z) (imap wireRef parts) = imap wireRef parts.
Proof.
  apply (sort_slice_keyed cr_Index Z.ltb); [apply Zltb_StrictWeak|apply Zltb_total| |done|].
  - apply NoDup_alt. intros i j k. rewrite !list_lookup_fmap, !list_lookup_imap.
    destruct (parts !! i), (parts !! j); cbn; intros; by simplify_eq.
  - assert (∀ n, StronglySorted (λ x y, (cr_Index y <? cr_Index x)%Z = false)
                   (imap (λ i, wireRef (n + i)) parts)) as Hs; [|apply (Hs 0)].
    induction parts as [|p parts IH]; intros n; cbn; constructor.
    + specialize (IH (S n)). erewrite imap_ext; [exact IH|]. intros i x _. cbn. by rewrite Nat.add_succ_r.
    + apply Forall_lookup. intros i r. rewrite list_lookup_imap.
      destruct (parts !! i); cbn; intros [= <-]. apply Z.ltb_ge. cbn. lia.
Qed.

Lemma wireManifest_valid id parts hash :
  identified id = true → validHash hash = true → parts ≠ [] → Forall (λ p, 0 < length p) parts →
  PublicationManifest_Validate (wireManifest id false (imap wireRef parts) hash) = Ok tt.
Proof.
  intros Hid Hhash Hne Hpos. unfold identified in Hid. rewrite !andb_true_iff in Hid.
  rewrite !bool_decide_eq_true, !negb_true_iff in Hid.
  destruct Hid as (((((((Hn & Hz) & Ha) & Hd) & He) & Hr) & Hnow) & Hprev).
  unfold PublicationManifest_Validate. cbn [wireManifest pm_ManifestUID pm_ZoneUID pm_Apex
    pm_WriterEpoch pm_Revision pm_PreviousRevision pm_Tombstone pm_Chunks pm_ContentHash
    pm_GeneratedAt].
  rewrite !bool_decide_eq_false_2 by done. rewrite He, Hr, Hnow, Hd. cbn [orb negb].
  rewrite !refuse_bind. split_and!; [done| |done| |].
  - apply orb_true_iff in Hprev. destruct (Z.eqb_spec (pi_previous id) 0); [by rewrite andb_false_r|].
    destruct (Z.leb_spec (pi_revision id) (pi_previous id)); [|done]. lia.
  - rewrite Hhash, length_imap. by destruct parts.
  - rewrite wireRefs_sorted. apply validateChunkRefs_Ok. intros i r. rewrite list_lookup_imap.
    destruct (parts !! i) as [p|] eqn:Hp; cbn; intros [= <-]. cbn.
    rewrite Forall_lookup in Hpos. specialize (Hpos i p Hp). split_and!; [done|lia|].
    apply validHash_Hash.
Qed.

Lemma wireChunk_of id parts hash i p :
  identified id = true → 0 < length p →
  chunkOf (wireManifest id false (imap wireRef parts) hash) (wireChunk id i p).
Proof.
  intros Hid Hp. unfold identified in Hid. rewrite !andb_true_iff in Hid.
  rewrite !bool_decide_eq_true, !negb_true_iff in Hid.
  destruct Hid as (((((((Hn & Hz) & _) & _) & He) & Hr) & _) & _).
  unfold chunkOf. split_and!; try done. unfold PublicationChunk_Validate.
  cbn [wireChunk pc_ManifestUID pc_ZoneUID pc_WriterEpoch pc_Revision pc_Index pc_SHA256 pc_Payload].
  rewrite !bool_decide_eq_false_2 by tauto. rewrite He, Hr, validHash_Hash.
  destruct p as [|c p]; [cbn in Hp; lia|]. cbn.
  by rewrite (proj2 (Z.ltb_ge (Z.of_nat i) 0)) by lia.
Qed.

Lemma wireChunks_of id parts hash :
  identified id = true → Forall (λ p, 0 < length p) parts →
  Forall (chunkOf (wireManifest id false (imap wireRef parts) hash)) (imap (wireChunk id) parts).
Proof.
  intros Hid Hpos. apply Forall_lookup. intros i c. rewrite list_lookup_imap.
  destruct (parts !! i) as [p|] eqn:Hp; cbn; intros [= <-].
  rewrite Forall_lookup in Hpos. by apply wireChunk_of, (Hpos i).
Qed.

Lemma wireChunks_indices id parts : NoDup (pc_Index <$> imap (wireChunk id) parts).
Proof.
  apply NoDup_alt. intros i j k. rewrite !list_lookup_fmap, !list_lookup_imap.
  destruct (parts !! i), (parts !! j); cbn; intros; by simplify_eq.
Qed.

Lemma wireChunks_payloads id parts : pc_Payload <$> imap (wireChunk id) parts = parts.
Proof.
  apply list_eq. intros i. rewrite list_lookup_fmap, list_lookup_imap. by destruct (parts !! i).
Qed.

Lemma identified_valid id tombstone refs hash :
  PublicationManifest_Validate (wireManifest id tombstone refs hash) = Ok tt → identified id = true.
Proof.
  unfold PublicationManifest_Validate. cbn [wireManifest pm_ManifestUID pm_ZoneUID pm_Apex
    pm_WriterEpoch pm_Revision pm_PreviousRevision pm_GeneratedAt]. rewrite !refuse_bind.
  intros (H1 & H2 & H3 & _). rewrite !orb_false_iff, !bool_decide_eq_false in H1.
  destruct H1 as (((((Hn & Hz) & Ha) & He) & Hr) & Hnow). unfold identified.
  rewrite !bool_decide_eq_true_2, He, Hr, Hnow by done. apply negb_false_iff in H3. rewrite H3. cbn.
  destruct (Z.eqb_spec (pi_previous id) 0) as [|Hp]; [done|]. cbn.
  destruct (Z.ltb_spec (pi_previous id) (pi_revision id)); [done|]. exfalso.
  rewrite andb_false_iff in H2. destruct H2; lia.
Qed.

(** The chunks of a publication, in any order, verify against its manifest. *)
Lemma wire_verified id payload size chunks :
  let m := (wirePublication id false payload (Hash payload) size).1 in
  PublicationManifest_Validate m = Ok tt → payload ≠ [] → (0 < size)%Z →
  chunks ≡ₚ (wirePublication id false payload (Hash payload) size).2 →
  VerifyManifest m chunks = Ok payload.
Proof.
  intros m Hm Hne Hsize Hchunks. pose proof (identified_valid _ _ _ _ Hm) as Hid.
  unfold wirePublication in *. cbn [fst snd] in *.
  set (parts := chunk payload size) in *.
  assert (mjoin parts = payload) as Hjoin by by apply chunkFrom_join.
  assert (Forall (λ p, 0 < length p) parts) as Hpos.
  { eapply Forall_impl; [by apply chunkFrom_size|]. cbn. lia. }
  assert (NoDup (pc_Index <$> chunks)) as Hnd by (rewrite Hchunks; apply wireChunks_indices).
  unfold VerifyManifest. rewrite Hm. cbn [mbind result_bind pm_Tombstone m wireManifest].
  rewrite refuse_bind, bind_Ok. split.
  { change (pm_Chunks m) with (imap wireRef parts). by rewrite Hchunks, !length_imap, Nat.eqb_refl. }
  exists (list_to_map (indexed chunks)). split.
  { apply verifyChunks_Ok. rewrite (right_id_L ∅ (∪)). split_and!; [|done| |done].
    { rewrite Hchunks. by apply wireChunks_of. }
    intros c _. apply lookup_empty. }
  rewrite bind_Ok. exists payload. split.
  - apply appendChunks_Ok. exists (imap (wireChunk id) parts). split.
    + change (pm_Chunks m) with (imap wireRef parts).
      apply Forall2_same_length_lookup_2; [by rewrite !length_imap|]. intros i r c.
      rewrite !list_lookup_imap. destruct (parts !! i) as [p|] eqn:Hp; [|done].
      cbn. intros [= <-] [= <-]. unfold named. rewrite lookup_indexed by done.
      split_and!; try done. rewrite Hchunks. apply list_elem_of_lookup. exists i.
      by rewrite list_lookup_imap, Hp.
    + by rewrite wireChunks_payloads, Hjoin.
  - by rewrite bool_decide_eq_false_2 by tauto.
Qed.

(** C23. A publication arrives as it was cut: for every identity a manifest can carry and
    every chunk size, a replica that has the chunks of a plan, in any order, gets the plan
    back; and a shard the zone leaves is told to serve nothing. *)
Theorem VerifyManifest_wire id payload size chunks :
  identified id = true → payload ≠ [] → (0 < size)%Z →
  chunks ≡ₚ (wirePublication id false payload (Hash payload) size).2 →
  let m := (wirePublication id false payload (Hash payload) size).1 in
  VerifyManifest m chunks = Ok payload ∧ VerifyManifest (withdrawalManifest m) [] = Ok [].
Proof.
  intros Hid Hne Hsize Hchunks m.
  assert (PublicationManifest_Validate m = Ok tt) as Hm.
  { assert (mjoin (chunk payload size) = payload) as Hjoin by by apply chunkFrom_join.
    apply wireManifest_valid; [done|apply validHash_Hash| |].
    - intros Hnil. by rewrite Hnil in Hjoin.
    - eapply Forall_impl; [by apply chunkFrom_size|]. cbn. lia. }
  split; [by apply wire_verified|].
  revert Hm. unfold VerifyManifest, PublicationManifest_Validate. cbn. rewrite !refuse_bind.
  intros (-> & -> & -> & _). cbn. by rewrite bool_decide_eq_false_2 by tauto.
Qed.
End verify.

(** * Witnesses *)

#[local] Existing Instance reference_runtime.
#[local] Existing Instance reference_miekg.

Definition exampleIdentity : PublicationIdentity :=
  {| pi_name := "pub-zone-e7-r3"; pi_zoneUID := "zone-uid"; pi_apex := "corp.example";
     pi_epoch := 7; pi_revision := 3; pi_previous := 2; pi_now := 1700000000000000000 |}.

Lemma VerifyManifest_wire_witness :
  let w := wirePublication exampleIdentity false "some plan" (Hash "some plan") 4 in
  length w.2 = 3 ∧ VerifyManifest w.1 (rev w.2) = Ok "some plan".
Proof.
  split; [vm_compute; reflexivity|].
  refine (proj1 (VerifyManifest_wire exampleIdentity "some plan" 4 _ _ _ _ _)).
  - vm_compute. reflexivity.
  - discriminate.
  - lia.
  - symmetry. apply Permutation_rev.
Defined.

Lemma VerifyManifest_sound_witness :
  let w := wirePublication exampleIdentity false "plan" (Hash "plan") 2 in
  ∃ cs, cs ≡ₚ w.2 ∧ "plan" = mjoin (pc_Payload <$> cs).
Proof.
  cbv zeta.
  destruct (VerifyManifest_sound
              (wirePublication exampleIdentity false "plan" (Hash "plan") 2).1
              (wirePublication exampleIdentity false "plan" (Hash "plan") 2).2 "plan")
    as (cs & Hcs & _ & Hp & _).
  - vm_compute. reflexivity.
  - exists cs. split; assumption.
Defined.
