(* ===== verification/Capacity.v ===== *)
(** What fits into a shard's snapshot: [internal/internaldns/platform/capacity.go] and
    [publicationDependencies] of [planner.go].

    A shard serves a bounded number of bindings in an envelope of bounded size.
    [fitSnapshot] admits the bindings one by one, those the shard already serves first,
    and charges each for its encoding and for the publication requirements it adds later.
    The theorems say that the charge covers the envelope that is published, that an
    established binding is never dropped for want of room, and that what is left is valid
    when what was wanted is. *)

From S2P Require Import Prelude GoStrings GoCrypto GoJson WireModel.

(** * The code *)

(** The time an envelope is sized with. *)
Definition envelopeSizingTime : Z := 946684800999999999.

Definition byUID (bindings : list Binding) : gmap gostring Binding :=
  foldl (λ m b, <[b_BindingUID b := b]> m) ∅ bindings.

(** [safeExpansion]. *)
Definition safeExpansion (old candidate : Binding) : bool :=
  negb (b_Tombstone old || b_Tombstone candidate || b_ConfigurationPending old
        || b_ConfigurationPending candidate
        || bool_decide (b_Version old ≠ b_Version candidate)
        || bool_decide (b_ProjectUID old ≠ b_ProjectUID candidate)
        || bool_decide (b_ContextUID old ≠ b_ContextUID candidate)
        || bool_decide (b_ConsumerAddress old ≠ b_ConsumerAddress candidate)
        || bool_decide (b_ClusterAddress old ≠ b_ClusterAddress candidate))
  && forallb (λ zone, existsb (λ next,
       bool_decide (za_ZoneUID zone = za_ZoneUID next) && bool_decide (za_Apex zone = za_Apex next)
       && negb (za_Pending next)) (elems (b_Zones candidate))) (elems (b_Zones old)).

(** The requirement an attached zone makes, and the order of two. *)
Definition requirementOf (z : ZoneAttachment) : PublicationRequirement :=
  {| pr_ZoneUID := za_ZoneUID z; pr_Epoch := za_RequiredPublicationEpoch z;
     pr_Revision := za_RequiredPublicationRevision z |}.
Definition above (r old : PublicationRequirement) : bool :=
  (0 <? Compare (pr_Epoch r) (pr_Revision r) (pr_Epoch old) (pr_Revision old))%Z.
Definition encoded (r : PublicationRequirement) : Z := size (PublicationRequirement_json r).

Abbreviation requirements := (gmap gostring PublicationRequirement).

(** The loop of [fits] over a binding's zones: the size so far and the requirements the
    binding would add. *)
Definition chargeZone (required : requirements) (st : Z * requirements) (zone : ZoneAttachment) :
    Z * requirements :=
  let '(sz, next) := st in
  if za_Pending zone then st
  else
    let r := requirementOf zone in
    let old := match next !! za_ZoneUID zone with
               | Some o => Some o
               | None => required !! za_ZoneUID zone
               end in
    match old with
    | None =>
        let sep := if bool_decide (required = ∅) && bool_decide (next = ∅)
                   then Z.of_nat (length (["044"%char; dquote] ++ "requiredPublications"
                                          ++ [dquote] ++ ":[]"))
                   else 1%Z in
        (sz + sep + encoded r, <[za_ZoneUID zone := r]> next)%Z
    | Some o =>
        if above r o
        then (sz + Z.max 0 (encoded r - encoded o), <[za_ZoneUID zone := r]> next)%Z
        else st
    end.

(** What the closure [fits] reads and writes: the bindings admitted, the bytes used and
    the requirements charged for. *)
Record Fitting := {
  f_bindings : list Binding;
  f_used : Z;
  f_required : requirements;
}.

(** [fits], with the binding appended on success as its callers do. *)
Definition fits (maxBindings maxBytes : Z) (st : Fitting) (b : Binding) : option Fitting :=
  if (maxBindings <=? Z.of_nat (length (f_bindings st)))%Z then None
  else
    let sz := (size (Binding_json b) + (if f_bindings st is [] then 0 else 1))%Z in
    let '(sz, next) := foldl (chargeZone (f_required st)) (sz, ∅) (elems (b_Zones b)) in
    if (maxBytes <? f_used st + sz)%Z then None
    else Some {| f_bindings := f_bindings st ++ [b]; f_used := f_used st + sz;
                 f_required := next ∪ f_required st |}.

Inductive CapacityError :=
| CWire (e : WireError)
| CEstablished (uid : gostring).

(** The loop over the candidates. *)
Fixpoint fitLoop (maxBindings maxBytes : Z) (previous : gmap gostring Binding)
    (st : Fitting) (rejected : gset gostring) (candidates : list Binding) :
    Fitting * gset gostring * option gostring :=
  match candidates with
  | [] => (st, rejected, None)
  | b :: rest =>
      match fits maxBindings maxBytes st b with
      | Some st' => fitLoop maxBindings maxBytes previous st' rejected rest
      | None =>
          let rejected := {[ b_BindingUID b ]} ∪ rejected in
          match previous !! b_BindingUID b with
          | None => fitLoop maxBindings maxBytes previous st rejected rest
          | Some old =>
              match (if safeExpansion old b then fits maxBindings maxBytes st old else None) with
              | Some st' => fitLoop maxBindings maxBytes previous st' rejected rest
              | None => (st, rejected, Some (b_BindingUID b))
              end
          end
      end
  end.

Section fit.
Context `{GoRuntime}.

Definition uidLess (a b : Binding) : bool := str_ltb (b_BindingUID a) (b_BindingUID b).

(** Established bindings first, then by UID. *)
Definition candidateLess (previous : gmap gostring Binding) (a b : Binding) : bool :=
  let first := bool_decide (is_Some (previous !! b_BindingUID a)) in
  let second := bool_decide (is_Some (previous !! b_BindingUID b)) in
  if negb (Bool.eqb first second) then first else uidLess a b.

Definition servingPrefix (region shard : gostring) : gostring :=
  "dns-serving-" ++ OpaqueToken (region ++ "/" ++ shard).

(** The name of a published snapshot, as [Step] of [planner.go] forms it. *)
Definition servingName (region shard : gostring) (epoch revision : Z) : gostring :=
  servingPrefix region shard ++ "-e" ++ FormatUint epoch ++ "-r" ++ FormatUint revision.

Definition withBindings (s : ServingSnapshot) (bs : slice Binding) : ServingSnapshot :=
  {| s_Region := s_Region s; s_Shard := s_Shard s;
     s_ConfigurationEpoch := s_ConfigurationEpoch s;
     s_ConfigurationRevision := s_ConfigurationRevision s; s_Bindings := bs;
     s_Members := s_Members s; s_MemberPatterns := s_MemberPatterns s;
     s_RequiredPublications := s_RequiredPublications s; s_GeneratedAt := s_GeneratedAt s |}.

(** The envelope the empty snapshot is sized in. *)
Definition sizingEnvelope (s : ServingSnapshot) : result WireError Envelope :=
  NewEnvelope KindServingSnapshot
    (servingPrefix (s_Region s) (s_Shard s) ++ "-e18446744073709551615-r18446744073709551615")
    (s_Region s) (s_Shard s) "00000000-0000-0000-0000-000000000000"
    (s_ConfigurationEpoch s) (s_ConfigurationRevision s) envelopeSizingTime
    (ServingSnapshot_marshal s).

(** [fitSnapshot]. *)
Definition fitSnapshot (snapshot prior : ServingSnapshot) (maxBindings maxBytes : Z) :
    ServingSnapshot * gset gostring * option CapacityError :=
  let previous := byUID (elems (s_Bindings prior)) in
  let candidates := sort_slice (candidateLess previous) (elems (s_Bindings snapshot)) in
  let empty := withBindings snapshot (Some []) in
  match sizingEnvelope empty with
  | Err e => (empty, ∅, Some (CWire e))
  | Ok envelope =>
      let st := {| f_bindings := []; f_used := size (Envelope_json envelope);
                   f_required := ∅ |} in
      match fitLoop maxBindings maxBytes previous st ∅ candidates with
      | (st, rejected, None) =>
          (withBindings snapshot (Some (sort_slice uidLess (f_bindings st))), rejected, None)
      | (st, rejected, Some uid) =>
          let newcomers := list_to_set (b_BindingUID <$>
            filter (λ c, previous !! b_BindingUID c = None) candidates) in
          (prior, rejected ∪ newcomers, Some (CEstablished uid))
      end
  end.

(** [publicationDependencies]. *)
Definition dependZone (activations : gmap gostring gostring)
    (st : gset gostring * requirements) (zone : ZoneAttachment) :
    result gostring (gset gostring * requirements) :=
  let '(deps, reqs) := st in
  if za_Pending zone then Ok st
  else
    let activation := default [] (activations !! za_ZoneUID zone) in
    if decide (activation = []) then Err (za_ZoneUID zone)
    else
      let r := requirementOf zone in
      let old := default {| pr_ZoneUID := []; pr_Epoch := 0; pr_Revision := 0 |}
                   (reqs !! za_ZoneUID zone) in
      Ok ({[ activation ]} ∪ deps, if above r old then <[za_ZoneUID zone := r]> reqs else reqs).
Definition publicationDependencies (snapshot : ServingSnapshot)
    (activations : gmap gostring gostring) : result gostring (list gostring * ServingSnapshot) :=
  '(deps, reqs) ← result_fold (dependZone activations) (∅, ∅)
                    (elems (s_Bindings snapshot) ≫= λ b, elems (b_Zones b));
  Ok (sortStrings (elements deps),
      {| s_Region := s_Region snapshot; s_Shard := s_Shard snapshot;
         s_ConfigurationEpoch := s_ConfigurationEpoch snapshot;
         s_ConfigurationRevision := s_ConfigurationRevision snapshot;
         s_Bindings := s_Bindings snapshot; s_Members := s_Members snapshot;
         s_MemberPatterns := s_MemberPatterns snapshot;
         s_RequiredPublications :=
           sort_slice (λ r r', str_ltb (pr_ZoneUID r) (pr_ZoneUID r'))
             (s_RequiredPublications snapshot ++ (map_range reqs).*2);
         s_GeneratedAt := s_GeneratedAt snapshot |}).
End fit.

(** * The requirements of a list of zones *)

(** The highest requirement per zone, as [fits] accumulates it. *)
Definition raise (m : requirements) (z : ZoneAttachment) : requirements :=
  if za_Pending z then m
  else match m !! za_ZoneUID z with
       | None => <[za_ZoneUID z := requirementOf z]> m
       | Some old => if above (requirementOf z) old then <[za_ZoneUID z := requirementOf z]> m else m
       end.
Definition raised (zs : list ZoneAttachment) : requirements := foldl raise ∅ zs.

(** [r] is the highest requirement the zones make of zone [uid]. *)
Definition highest (zs : list ZoneAttachment) (uid : gostring) (r : PublicationRequirement) : Prop :=
  (∃ z, z ∈ zs ∧ za_Pending z = false ∧ za_ZoneUID z = uid ∧ requirementOf z = r)
  ∧ ∀ z, z ∈ zs → za_Pending z = false → za_ZoneUID z = uid → above (requirementOf z) r = false.

Lemma above_spec r old :
  above r old = true ↔
  (pr_Epoch old < pr_Epoch r ∨ pr_Epoch r = pr_Epoch old ∧ pr_Revision old < pr_Revision r)%Z.
Proof. unfold above. rewrite Z.ltb_lt, Compare_gt. done. Qed.

Lemma above_false r old :
  above r old = false ↔
  (pr_Epoch r < pr_Epoch old ∨ pr_Epoch r = pr_Epoch old ∧ pr_Revision r ≤ pr_Revision old)%Z.
Proof. rewrite <- not_true_iff_false, above_spec. lia. Qed.

Lemma highest_unique zs uid r r' : highest zs uid r → highest zs uid r' → r = r'.
Proof.
  intros [(z & Hz & Hp & Hu & <-) Hle] [(z' & Hz' & Hp' & Hu' & <-) Hle'].
  specialize (Hle z' Hz' Hp' Hu'). specialize (Hle' z Hz Hp Hu).
  rewrite above_false in Hle, Hle'. unfold requirementOf in *. cbn in *. subst. f_equal; [congruence|lia..].
Qed.

Lemma highest_perm zs zs' uid r : zs ≡ₚ zs' → highest zs uid r → highest zs' uid r.
Proof. intros Hp. unfold highest. by setoid_rewrite Hp. Qed.

Lemma highest_snoc zs z uid r :
  za_Pending z = true ∨ za_ZoneUID z ≠ uid → highest (zs ++ [z]) uid r ↔ highest zs uid r.
Proof.
  intros Hz. unfold highest. setoid_rewrite elem_of_app. setoid_rewrite list_elem_of_singleton.
  split; intros [(y & Hy & Hp & Hu & <-) Hle].
  - destruct Hy as [Hy| ->]; [|destruct Hz; congruence]. split; [by exists y|auto].
  - split; [exists y; auto|]. intros x [Hx| ->] Hxp Hxu; [by apply Hle|destruct Hz; congruence].
Qed.

Lemma highest_above zs z r :
  za_Pending z = false → highest zs (za_ZoneUID z) r → above (requirementOf z) r = true →
  highest (zs ++ [z]) (za_ZoneUID z) (requirementOf z).
Proof.
  intros Hp [(y & Hy & Hyp & Hyu & <-) Hle] Habove. split.
  - exists z. rewrite elem_of_app, list_elem_of_singleton. auto.
  - intros x [Hx| ->%list_elem_of_singleton]%elem_of_app Hxp Hxu.
    + specialize (Hle x Hx Hxp Hxu). rewrite above_spec in Habove. rewrite above_false in *. lia.
    + rewrite above_false. lia.
Qed.

Lemma highest_below zs z r :
  za_Pending z = false → highest zs (za_ZoneUID z) r → above (requirementOf z) r = false →
  highest (zs ++ [z]) (za_ZoneUID z) r.
Proof.
  intros Hp [(y & Hy & Hyp & Hyu & <-) Hle] Habove. split.
  - exists y. rewrite elem_of_app. auto.
  - by intros x [Hx| ->%list_elem_of_singleton]%elem_of_app Hxp Hxu; [apply Hle|].
Qed.

Lemma highest_first zs z :
  za_Pending z = false → (∀ y, y ∈ zs → za_Pending y = false → za_ZoneUID y ≠ za_ZoneUID z) →
  highest (zs ++ [z]) (za_ZoneUID z) (requirementOf z).
Proof.
  intros Hp Hnone. split.
  - exists z. rewrite elem_of_app, list_elem_of_singleton. auto.
  - intros x [Hx| ->%list_elem_of_singleton]%elem_of_app Hxp Hxu; [by destruct (Hnone x)|].
    rewrite above_false. lia.
Qed.

Lemma raised_spec zs uid :
  match raised zs !! uid with
  | Some r => highest zs uid r
  | None => ∀ z, z ∈ zs → za_Pending z = false → za_ZoneUID z ≠ uid
  end.
Proof.
  revert uid. induction zs as [|z zs IH] using rev_ind; intros uid.
  { unfold raised. cbn. rewrite lookup_empty. by intros z ?%elem_of_nil. }
  unfold raised in *. rewrite foldl_snoc. unfold raise at 1.
  destruct (za_Pending z) eqn:Hp.
  { specialize (IH uid). destruct (_ !! uid); [by apply highest_snoc; auto|].
    intros y [Hy| ->%list_elem_of_singleton]%elem_of_app; [by apply IH|congruence]. }
  pose proof (IH (za_ZoneUID z)) as IHz. specialize (IH uid).
  destruct (decide (za_ZoneUID z = uid)) as [<-|Hne].
  - destruct (foldl raise ∅ zs !! za_ZoneUID z) as [old|] eqn:Hold.
    + destruct (above _ old) eqn:Ha.
      * rewrite lookup_insert_eq. by eapply highest_above.
      * rewrite Hold. by apply highest_below.
    + rewrite lookup_insert_eq. by apply highest_first.
  - assert (∀ m' : requirements, m' = foldl raise ∅ zs ∨ m' = <[za_ZoneUID z := requirementOf z]> (foldl raise ∅ zs)
            → m' !! uid = foldl raise ∅ zs !! uid) as Hsame.
    { intros m' [->| ->]; [done|]. by rewrite lookup_insert_ne. }
    rewrite Hsame by (repeat case_match; auto).
    destruct (foldl raise ∅ zs !! uid); [by apply highest_snoc; auto|].
    intros y [Hy| ->%list_elem_of_singleton]%elem_of_app; [by apply IH|done].
Qed.

(** * The charge *)

(** What a set of requirements adds to the encoded snapshot: the field's name and
    brackets, and the requirements with a comma between each two. *)
Definition weight (m : requirements) : Z :=
  foldr (λ kv n, encoded kv.2 + 1 + n)%Z 0%Z (map_to_list m).
Definition cost (m : requirements) : Z := if decide (m = ∅) then 0 else 25 + weight m.

Lemma weights_perm (l l' : list (gostring * PublicationRequirement)) :
  l ≡ₚ l' →
  foldr (λ kv n, encoded kv.2 + 1 + n)%Z 0%Z l = foldr (λ kv n, encoded kv.2 + 1 + n)%Z 0%Z l'.
Proof. induction 1; cbn; lia. Qed.

Lemma weights_nonneg (l : list (gostring * PublicationRequirement)) :
  (0 ≤ foldr (λ kv n, encoded kv.2 + 1 + n) 0 l)%Z.
Proof.
  induction l as [|[k r] l IH]; cbn [foldr snd]; [lia|].
  pose proof (size_nonneg (PublicationRequirement_json r) : 0 ≤ encoded r)%Z. lia.
Qed.

Lemma weight_insert m k r : m !! k = None → weight (<[k := r]> m) = (encoded r + 1 + weight m)%Z.
Proof. intros Hk. unfold weight. by rewrite (weights_perm _ _ (map_to_list_insert m k r Hk)). Qed.

Lemma weight_update m k r o :
  m !! k = Some o → weight (<[k := r]> m) = (weight m - encoded o + encoded r)%Z.
Proof.
  intros Hk. rewrite <- (insert_delete_id m k o Hk) at 2. rewrite <- (insert_delete_eq m k r).
  rewrite !weight_insert by apply lookup_delete_eq. lia.
Qed.

Lemma weight_mono m m' : m ⊆ m' → (weight m ≤ weight m')%Z.
Proof.
  intros Hm. unfold weight. apply map_to_list_submseteq in Hm.
  apply submseteq_Permutation in Hm as [l Hl]. rewrite (weights_perm _ _ Hl).
  clear Hl. induction (map_to_list m) as [|kv l' IH]; cbn [foldr app]; [apply weights_nonneg|lia].
Qed.

Lemma cost_mono m m' : m ⊆ m' → (cost m ≤ cost m')%Z.
Proof.
  intros Hm. pose proof (weight_mono _ _ Hm). unfold cost. pose proof (weights_nonneg (map_to_list m')) as Hw.
  change (0 ≤ weight m')%Z in Hw. repeat case_decide; try lia. subst.
  match goal with Hne : m ≠ ∅ |- _ => destruct Hne end.
  apply map_eq. intros k. rewrite lookup_empty. destruct (m !! k) eqn:Hk; [|done].
  eapply lookup_weaken in Hk; [|done]. by rewrite lookup_empty in Hk.
Qed.

Lemma cost_insert m k r :
  m !! k = None →
  cost (<[k := r]> m) = (cost m + (if decide (m = ∅) then 26 else 1) + encoded r)%Z.
Proof.
  intros Hk. unfold cost. rewrite weight_insert by done.
  rewrite decide_False by apply insert_non_empty. case_decide as Hm; [|lia]. subst.
  change (weight ∅) with 0%Z. lia.
Qed.

Lemma cost_update m k r o :
  m !! k = Some o → (cost (<[k := r]> m) ≤ cost m + Z.max 0 (encoded r - encoded o))%Z.
Proof.
  intros Hk. unfold cost. rewrite (weight_update m k r o) by done.
  rewrite decide_False by apply insert_non_empty. rewrite decide_False; [lia|].
  intros ->. by rewrite lookup_empty in Hk.
Qed.

(** Charging for a zone raises the requirements as the reference does and pays for it. *)
Lemma chargeZone_pays required sz next z :
  let st := chargeZone required (sz, next) z in
  st.2 ∪ required = raise (next ∪ required) z
  ∧ (cost (st.2 ∪ required) - cost (next ∪ required) ≤ st.1 - sz)%Z.
Proof.
  unfold chargeZone, raise. destruct (za_Pending z); [cbn; split; [done|lia]|].
  rewrite lookup_union. set (uid := za_ZoneUID z). set (r := requirementOf z).
  assert (∀ old, (next ∪ required) !! uid = Some old →
            <[uid := r]> next ∪ required = <[uid := r]> (next ∪ required)
            ∧ (cost (<[uid := r]> next ∪ required) - cost (next ∪ required)
               ≤ Z.max 0 (encoded r - encoded old))%Z) as Hupdate.
  { intros old Hold. rewrite <- insert_union_l. split; [done|].
    pose proof (cost_update _ _ r _ Hold). lia. }
  rewrite lookup_union in Hupdate.
  destruct (next !! uid) as [old|] eqn:Hn.
  { replace (Some old ∪ required !! uid) with (Some old) in * by by destruct (required !! uid).
    destruct (above r old); cbn [fst snd]; [|split; [done|lia]].
    destruct (Hupdate old eq_refl) as [Heq Hcost]. split; [done|lia]. }
  rewrite (left_id_L None (∪)) in *.
  destruct (required !! uid) as [old|] eqn:Hr.
  { destruct (above r old); cbn [fst snd]; [|split; [done|lia]].
    destruct (Hupdate old eq_refl) as [Heq Hcost]. split; [done|lia]. }
  cbn [fst snd]. rewrite <- insert_union_l. split; [done|].
  rewrite cost_insert by by rewrite lookup_union, Hn, Hr.
  case_decide as Hempty.
  - assert (next = ∅ ∧ required = ∅) as [-> ->].
    { split; [by eapply map_positive_l|]. eapply map_positive_l. rewrite map_union_comm; [done|].
      apply map_disjoint_spec. intros k x y Hx _.
      assert ((next ∪ required) !! k = None) as Hk by by rewrite Hempty.
      rewrite lookup_union, Hx in Hk. by destruct (next !! k). }
    rewrite !bool_decide_eq_true_2 by done. cbn [andb]. change (Z.of_nat _) with 26%Z. lia.
  - destruct (bool_decide (required = ∅) && bool_decide (next = ∅)) eqn:Hb; [|lia].
    apply andb_true_iff in Hb as [->%bool_decide_eq_true ->%bool_decide_eq_true]. done.
Qed.

Lemma chargeZones_pay required zs sz next :
  let st := foldl (chargeZone required) (sz, next) zs in
  st.2 ∪ required = foldl raise (next ∪ required) zs
  ∧ (cost (st.2 ∪ required) - cost (next ∪ required) ≤ st.1 - sz)%Z.
Proof.
  revert sz next. induction zs as [|z zs IH]; intros sz next; cbn [foldl]; [cbn; split; [done|lia]|].
  pose proof (chargeZone_pays required sz next z) as [Heq Hpay].
  destruct (chargeZone required (sz, next) z) as [sz' next']. cbn [fst snd] in *.
  specialize (IH sz' next'). rewrite <- Heq. split; [apply IH|]. destruct IH as [_ IH]. lia.
Qed.

(** * The loop *)

Section loop.
Context (maxBindings maxBytes : Z) (previous : gmap gostring Binding).
Implicit Types st : Fitting.

Definition zonesOf (bs : list Binding) : list ZoneAttachment := bs ≫= λ b, elems (b_Zones b).

(** The bytes used cover the base, the bindings admitted with their commas and the
    requirements they make. *)
Record charged (base : Z) (st : Fitting) : Prop := {
  ch_required : f_required st = raised (zonesOf (f_bindings st));
  ch_used : (base + sizes (Binding_json <$> f_bindings st)
             + Z.max 0 (Z.of_nat (length (f_bindings st)) - 1) + cost (f_required st)
             ≤ f_used st)%Z;
  ch_bytes : f_bindings st ≠ [] → (f_used st ≤ maxBytes)%Z;
  ch_count : (Z.of_nat (length (f_bindings st)) ≤ Z.max 0 maxBindings)%Z;
}.

Lemma fits_charged base st b st' :
  charged base st → fits maxBindings maxBytes st b = Some st' →
  charged base st' ∧ f_bindings st' = f_bindings st ++ [b].
Proof.
  intros [Hreq Hused _ Hcount]. unfold fits.
  destruct (Z.leb_spec maxBindings (Z.of_nat (length (f_bindings st)))); [done|].
  set (sz := (size (Binding_json b) + _)%Z).
  pose proof (chargeZones_pay (f_required st) (elems (b_Zones b)) sz ∅) as [Hunion Hpay].
  destruct (foldl _ (sz, ∅) _) as [sz' next]. cbn [fst snd] in *.
  rewrite !(left_id_L ∅ (∪)) in *. destruct (Z.ltb_spec maxBytes (f_used st + sz')); [done|].
  intros [= <-]. split; [|done]. split; cbn [f_bindings f_used f_required].
  - rewrite Hunion, Hreq. unfold raised, zonesOf. rewrite bind_app, foldl_app. cbn.
    by rewrite app_nil_r.
  - rewrite fmap_app, sizes_app, length_app. cbn [fmap list_fmap length]. rewrite sizes_cons.
    change (sizes []) with 0%Z. subst sz.
    destruct (f_bindings st) as [|b0 bs]; cbn [length] in *; lia.
  - lia.
  - rewrite length_app. cbn. lia.
Qed.

(** What becomes of a candidate: it is admitted, refused, or its established version is
    kept. *)
Inductive outcome (b : Binding) : option Binding * bool → Prop :=
| AsWanted : outcome b (Some b, false)
| Refused : previous !! b_BindingUID b = None → outcome b (None, true)
| Kept old : previous !! b_BindingUID b = Some old → safeExpansion old b = true →
    outcome b (Some old, true).

Lemma fitLoop_outcomes base candidates st rejected st' rejected' :
  charged base st →
  fitLoop maxBindings maxBytes previous st rejected candidates = (st', rejected', None) →
  charged base st' ∧
  ∃ os, Forall2 outcome candidates os ∧ f_bindings st' = f_bindings st ++ omap fst os
    ∧ ∀ uid, uid ∈ rejected' ↔
        uid ∈ rejected ∨ ∃ b o, (b, (o, true)) ∈ zip candidates os ∧ b_BindingUID b = uid.
Proof.
  revert st rejected. induction candidates as [|b rest IH]; intros st rejected Hst; cbn.
  { intros [= <- <-]. split; [done|]. exists []. cbn. rewrite app_nil_r.
    split_and!; [constructor|done|]. intros uid. split; [auto|].
    intros [?|(b & o & Hin & _)]; [done|by apply elem_of_nil in Hin]. }
  assert (∀ o st1 rej1, outcome b o → charged base st1 →
    f_bindings st1 = f_bindings st ++ omap fst [o] →
    rej1 = (if o.2 then {[ b_BindingUID b ]} ∪ rejected else rejected) →
    fitLoop maxBindings maxBytes previous st1 rej1 rest = (st', rejected', None) →
    charged base st' ∧
    ∃ os, Forall2 outcome (b :: rest) os ∧ f_bindings st' = f_bindings st ++ omap fst os
      ∧ ∀ uid, uid ∈ rejected' ↔
          uid ∈ rejected ∨ ∃ b' o', (b', (o', true)) ∈ zip (b :: rest) os ∧ b_BindingUID b' = uid)
    as Hnext.
  { intros o st1 rej1 Ho Hst1 Hb1 -> Hloop. apply IH in Hloop as (Hst' & os & Hos & Hb & Hrej); [|done].
    split; [done|]. exists (o :: os). split_and!; [by constructor| |].
    - rewrite Hb, Hb1, <- app_assoc. f_equal. destruct o as [[?|] ?]; done.
    - intros uid. rewrite Hrej. cbn. setoid_rewrite elem_of_cons. destruct o as [o []]; cbn.
      + rewrite elem_of_union, elem_of_singleton. naive_solver.
      + naive_solver. }
  destruct (fits _ _ st b) as [st1|] eqn:Hfit.
  { apply (fits_charged base) in Hfit as [Hst1 Hb1]; [|done].
    by apply (Hnext (Some b, false)); [constructor|..]. }
  destruct (previous !! b_BindingUID b) as [old|] eqn:Hprev.
  - destruct (safeExpansion old b) eqn:Hsafe; [|done].
    destruct (fits _ _ st old) as [st1|] eqn:Hfit'; [|done].
    apply (fits_charged base) in Hfit' as [Hst1 Hb1]; [|done].
    by apply (Hnext (Some old, true)); [constructor|..].
  - apply (Hnext (None, true)); [by constructor|done| |done]. cbn. by rewrite app_nil_r.
Qed.
End loop.

Lemma byUID_lookup bs uid b : byUID bs !! uid = Some b → b ∈ bs ∧ b_BindingUID b = uid.
Proof.
  unfold byUID. revert b. induction bs as [|x bs IH] using rev_ind; intros b.
  { cbn. by rewrite lookup_empty. }
  rewrite foldl_snoc, lookup_insert_Some, elem_of_app, list_elem_of_singleton.
  intros [[<- <-]|[_ [? ?]%IH]]; auto.
Qed.

Lemma byUID_None bs uid : byUID bs !! uid = None ↔ ∀ b, b ∈ bs → b_BindingUID b ≠ uid.
Proof.
  unfold byUID. induction bs as [|x bs IH] using rev_ind.
  { cbn. rewrite lookup_empty. split; [|done]. by intros _ b ?%elem_of_nil. }
  rewrite foldl_snoc, lookup_insert_None, IH. setoid_rewrite elem_of_app.
  setoid_rewrite list_elem_of_singleton. naive_solver.
Qed.

(** * The published envelope fits *)

Section budget.
Context `{GoRuntime}.

Definition nothing : PublicationRequirement := {| pr_ZoneUID := []; pr_Epoch := 0; pr_Revision := 0 |}.

(** The requirements written are the highest of each zone. *)
Lemma dependZones_highest activations zs deps reqs :
  result_fold (dependZone activations) (∅, ∅) zs = Ok (deps, reqs) →
  ∀ uid, match reqs !! uid with
         | Some r => highest zs uid r
         | None => ∀ z, z ∈ zs → za_Pending z = false → za_ZoneUID z = uid →
                        above (requirementOf z) nothing = false
         end.
Proof.
  revert deps reqs. induction zs as [|z zs IH] using rev_ind; intros deps reqs.
  { cbn. intros [= <- <-] uid. rewrite lookup_empty. by intros z ?%elem_of_nil. }
  rewrite result_fold_app, bind_Ok. intros ([d m] & Hfold & Hz) uid. specialize (IH _ _ Hfold).
  cbn in Hz. unfold dependZone in Hz. destruct (za_Pending z) eqn:Hp.
  { simplify_eq. specialize (IH uid). destruct (reqs !! uid); [by apply highest_snoc; auto|].
    intros y [Hy| ->%list_elem_of_singleton]%elem_of_app; [by apply IH|congruence]. }
  case_decide; [done|]. fold nothing in Hz. injection Hz as _ <-.
  destruct (decide (za_ZoneUID z = uid)) as [<-|Hne].
  - specialize (IH (za_ZoneUID z)). destruct (m !! za_ZoneUID z) as [old|] eqn:Hold; cbn [from_option id].
    + destruct (above _ old) eqn:Ha.
      * rewrite lookup_insert_eq. by eapply highest_above.
      * rewrite Hold. by apply highest_below.
    + destruct (above _ nothing) eqn:Ha; cbn.
      * rewrite lookup_insert_eq. split.
        { exists z. rewrite elem_of_app, list_elem_of_singleton. auto. }
        intros y [Hy| ->%list_elem_of_singleton]%elem_of_app Hyp Hyu; [|rewrite above_false; lia].
        specialize (IH y Hy Hyp Hyu). rewrite above_spec in Ha. rewrite above_false in *.
        cbn in *. lia.
      * rewrite Hold. by intros y [Hy| ->%list_elem_of_singleton]%elem_of_app Hyp Hyu; [apply IH|].
  - specialize (IH uid).
    assert ((if above (requirementOf z) (default nothing (m !! za_ZoneUID z))
             then <[za_ZoneUID z := requirementOf z]> m else m) !! uid = m !! uid) as ->.
    { destruct (above _ _); [by rewrite lookup_insert_ne|done]. }
    destruct (m !! uid); [by apply highest_snoc; auto|].
    intros y [Hy| ->%list_elem_of_singleton]%elem_of_app; [by apply IH|done].
Qed.

(** The bytes of a snapshot by its bindings and requirements. *)
Definition requirementBytes (rs : list PublicationRequirement) : Z :=
  match rs with
  | [] => 0
  | _ => 26 + sizes (PublicationRequirement_json <$> rs) + Z.of_nat (length rs - 1)
  end.

Lemma size_snapshot s bs rs :
  size (ServingSnapshot_json {|
    s_Region := s_Region s; s_Shard := s_Shard s;
    s_ConfigurationEpoch := s_ConfigurationEpoch s;
    s_ConfigurationRevision := s_ConfigurationRevision s; s_Bindings := Some bs;
    s_Members := s_Members s; s_MemberPatterns := s_MemberPatterns s;
    s_RequiredPublications := rs; s_GeneratedAt := s_GeneratedAt s |})
  = (size (ServingSnapshot_json {|
    s_Region := s_Region s; s_Shard := s_Shard s;
    s_ConfigurationEpoch := s_ConfigurationEpoch s;
    s_ConfigurationRevision := s_ConfigurationRevision s; s_Bindings := Some [];
    s_Members := s_Members s; s_MemberPatterns := s_MemberPatterns s;
    s_RequiredPublications := []; s_GeneratedAt := s_GeneratedAt s |})
     + sizes (Binding_json <$> bs) + Z.max 0 (Z.of_nat (length bs) - 1) + requirementBytes rs)%Z.
Proof.
  unfold ServingSnapshot_json. cbn [s_Region s_Shard s_ConfigurationEpoch s_ConfigurationRevision
    s_Bindings s_Members s_MemberPatterns s_RequiredPublications s_GeneratedAt].
  rewrite !size_JObj. unfold omitempty, JSlice. cbn [length Nat.eqb app].
  destruct (length (s_MemberPatterns s) =? 0); destruct rs as [|r rs];
    cbn [foldr fst snd app length Nat.eqb requirementBytes fmap list_fmap];
    rewrite ?size_JArr; cbn [length]; rewrite ?length_fmap, ?sizes_cons;
    change (sizes []) with 0%Z;
    change (length (quoteJson "requiredPublications")) with 22; lia.
Qed.

Lemma requirementBytes_cost (m : requirements) rs :
  rs ≡ₚ (map_to_list m).*2 → requirementBytes rs = cost m.
Proof.
  intros Hrs. unfold cost, weight.
  assert (foldr (λ kv n, encoded kv.2 + 1 + n)%Z 0%Z (map_to_list m)
          = sizes (PublicationRequirement_json <$> (map_to_list m).*2)
            + Z.of_nat (length (map_to_list m)))%Z as ->.
  { clear Hrs. induction (map_to_list m) as [|[k r] l IH]; [done|].
    cbn [foldr fmap list_fmap snd length]. rewrite sizes_cons, IH. unfold encoded. lia. }
  assert (sizes (PublicationRequirement_json <$> rs)
          = sizes (PublicationRequirement_json <$> (map_to_list m).*2)) as Hsizes.
  { apply sizes_perm. by rewrite Hrs. }
  assert (length rs = length (map_to_list m)) as Hlen by by rewrite Hrs, length_fmap.
  destruct rs as [|r rs]; cbn [requirementBytes].
  - destruct (map_to_list m) eqn:Hm; [|done]. apply map_to_list_empty_iff in Hm.
    by rewrite decide_True by done.
  - rewrite decide_False; [cbn [length] in *; lia|]. intros ->. by rewrite map_to_list_empty in Hlen.
Qed.

Lemma OpaqueToken_safe s : forallb htmlSafe (OpaqueToken s) = true.
Proof.
  eapply forallb_impl; [apply isHexDigit_safe|]. apply EncodeToString_hex.
  apply Forall_take, Sum256_range.
Qed.

Lemma size_servingName region shard epoch revision :
  (0 ≤ epoch < 2 ^ 64)%Z → (0 ≤ revision < 2 ^ 64)%Z →
  (size (JStr (servingName region shard epoch revision))
   ≤ size (JStr (servingPrefix region shard ++ "-e18446744073709551615-r18446744073709551615")))%Z.
Proof.
  intros He Hr. pose proof (length_FormatUint _ He). pose proof (length_FormatUint _ Hr).
  unfold servingName, servingPrefix.
  rewrite !size_JStr_safe;
    rewrite ?forallb_app, ?OpaqueToken_safe, ?FormatUint_safe by lia; [|done..].
  rewrite !length_app. cbn [length]. lia.
Qed.

Lemma size_envelope kind name name' region shard uid uid' epoch revision at_ at_' j j' :
  (size (JStr name) ≤ size (JStr name'))%Z → (size (JStr uid) ≤ size (JStr uid'))%Z →
  (size (JTime at_) ≤ size (JTime at_'))%Z →
  (size (Envelope_json (envelopeOf kind name region shard uid epoch revision at_ j))
   ≤ size (Envelope_json (envelopeOf kind name' region shard uid' epoch revision at_' j'))
     - size j' + size j)%Z.
Proof.
  intros Hname Huid Hat. unfold Envelope_json. rewrite !size_JObj.
  cbn [foldr fst snd length envelopeOf e_APIVersion e_Kind e_EventID e_Region e_Shard e_ResourceUID
       e_Epoch e_Revision e_PublishedAt e_Payload]. lia.
Qed.

(** The snapshot after [publicationDependencies] costs what its requirements cost, and they
    are among the highest. *)
Lemma dependencies_size s bs activations deps s' :
  s_RequiredPublications s = [] →
  publicationDependencies (withBindings s (Some bs)) activations = Ok (deps, s') →
  (size (ServingSnapshot_json s') ≤
   size (ServingSnapshot_json (withBindings s (Some []))) + sizes (Binding_json <$> bs)
   + Z.max 0 (Z.of_nat (length bs) - 1) + cost (raised (zonesOf bs)))%Z.
Proof.
  intros Hnil. unfold publicationDependencies. rewrite bind_Ok.
  intros ([d reqs] & Hfold & [= <- <-]). unfold withBindings. cbn in Hfold |- *.
  rewrite size_snapshot, Hnil. cbn [app].
  rewrite (requirementBytes_cost reqs) by by rewrite sort_slice_perm, map_range_perm.
  enough (cost reqs ≤ cost (raised (zonesOf bs)))%Z by lia.
  apply cost_mono. apply map_subseteq_spec. intros uid r Hr.
  pose proof (dependZones_highest _ _ _ _ Hfold uid) as Hhigh. rewrite Hr in Hhigh.
  pose proof (raised_spec (zonesOf bs) uid) as Hraised.
  destruct (raised (zonesOf bs) !! uid) as [r'|].
  - f_equal. by eapply highest_unique.
  - destruct Hhigh as [(z & Hz & Hp & Hu & _) _]. by destruct (Hraised z).
Qed.

Lemma fitSnapshot_Ok snapshot prior maxBindings maxBytes s' rejected :
  fitSnapshot snapshot prior maxBindings maxBytes = (s', rejected, None) →
  ∃ envelope st,
    sizingEnvelope (withBindings snapshot (Some [])) = Ok envelope
    ∧ fitLoop maxBindings maxBytes (byUID (elems (s_Bindings prior)))
        {| f_bindings := []; f_used := size (Envelope_json envelope); f_required := ∅ |} ∅
        (sort_slice (candidateLess (byUID (elems (s_Bindings prior))))
           (elems (s_Bindings snapshot))) = (st, rejected, None)
    ∧ s' = withBindings snapshot (Some (sort_slice uidLess (f_bindings st))).
Proof.
  unfold fitSnapshot. destruct (sizingEnvelope _) as [envelope|]; [|done].
  destruct (fitLoop _ _ _ _ _ _) as [[st rej] [uid|]] eqn:Hloop; [done|].
  intros [= <- <-]. by exists envelope, st.
Qed.

Lemma charged_start maxBindings maxBytes base :
  charged maxBindings maxBytes base {| f_bindings := []; f_used := base; f_required := ∅ |}.
Proof. split; cbn; [done| |done|lia]. change (sizes []) with 0%Z. change (cost ∅) with 0%Z. lia. Qed.

Lemma sizingEnvelope_Ok s envelope :
  sizingEnvelope s = Ok envelope →
  envelope = envelopeOf KindServingSnapshot
    (servingPrefix (s_Region s) (s_Shard s) ++ "-e18446744073709551615-r18446744073709551615")
    (s_Region s) (s_Shard s) "00000000-0000-0000-0000-000000000000"
    (s_ConfigurationEpoch s) (s_ConfigurationRevision s) envelopeSizingTime
    (ServingSnapshot_json s).
Proof.
  unfold sizingEnvelope, NewEnvelope, ServingSnapshot_marshal. destruct (marshalable _); [|done].
  rewrite bind_Ok. by intros (? & _ & [= <-]).
Qed.

Lemma raised_perm zs zs' : zs ≡ₚ zs' → raised zs = raised zs'.
Proof.
  intros Hz. apply map_eq. intros k. pose proof (raised_spec zs k) as H1.
  pose proof (raised_spec zs' k) as H2. destruct (raised zs !! k), (raised zs' !! k).
  - f_equal. eapply highest_unique; [|done]. by eapply highest_perm.
  - destruct H1 as [(z & Hin & ? & ? & _) _]. rewrite Hz in Hin. by destruct (H2 z).
  - destruct H2 as [(z & Hin & ? & ? & _) _]. rewrite <- Hz in Hin. by destruct (H1 z).
  - done.
Qed.

(** C24. The envelope that is published fits the budget: whatever bindings were wanted and
    whatever was served before, a snapshot [fitSnapshot] leaves with a binding in it,
    completed by [publicationDependencies], takes at most [maxBytes] bytes in its envelope,
    under the name, UID, epoch, revision and time it is published with.  The size is charged
    before the requirements, the name and the time are known. *)
Theorem fitSnapshot_budget snapshot prior maxBindings maxBytes s rejected activations deps s' uid now :
  s_RequiredPublications snapshot = [] →
  fitSnapshot snapshot prior maxBindings maxBytes = (s, rejected, None) →
  publicationDependencies s activations = Ok (deps, s') → elems (s_Bindings s) ≠ [] →
  (0 ≤ s_ConfigurationEpoch snapshot < 2 ^ 64)%Z →
  (0 ≤ s_ConfigurationRevision snapshot < 2 ^ 64)%Z →
  forallb htmlSafe uid = true → length uid ≤ 36 →
  (size (Envelope_json (envelopeOf KindServingSnapshot
     (servingName (s_Region snapshot) (s_Shard snapshot) (s_ConfigurationEpoch snapshot)
        (s_ConfigurationRevision snapshot))
     (s_Region snapshot) (s_Shard snapshot) uid (s_ConfigurationEpoch snapshot)
     (s_ConfigurationRevision snapshot) now (ServingSnapshot_json s'))) ≤ maxBytes)%Z.
Proof.
  intros Hnil Hfit Hdeps Hne He Hr Hsafe Hlen.
  apply fitSnapshot_Ok in Hfit as (envelope & st & Henv & Hloop & ->).
  apply (fitLoop_outcomes _ _ _ _ _ _ _ _ _ (charged_start _ _ _)) in Hloop as [Hst _].
  pose proof (dependencies_size _ _ _ _ _ Hnil Hdeps) as Hsize. clear Hdeps.
  set (bs := sort_slice uidLess (f_bindings st)) in *.
  assert (bs ≡ₚ f_bindings st) as Hbs by apply sort_slice_perm.
  apply sizingEnvelope_Ok in Henv as ->. destruct Hst as [Hreq Hused Hbytes _].
  etrans; [apply (size_envelope _ _
    (servingPrefix (s_Region snapshot) (s_Shard snapshot)
       ++ "-e18446744073709551615-r18446744073709551615") _ _ _
    "00000000-0000-0000-0000-000000000000" _ _ _ envelopeSizingTime _
    (ServingSnapshot_json (withBindings snapshot (Some []))))|].
  - by apply size_servingName.
  - rewrite (size_JStr_safe uid) by done. change (size (JStr "00000000-0000-0000-0000-000000000000")) with 38%Z. lia.
  - apply size_JTime.
  - rewrite (raised_perm _ (zonesOf (f_bindings st))), <- Hreq,
      (sizes_perm _ (Binding_json <$> f_bindings st)), (Permutation_length Hbs) in Hsize
      by (unfold zonesOf; by rewrite Hbs).
    assert (f_bindings st ≠ []) as Hne'.
    { intros Hn. apply Hne. cbn. apply Permutation_nil_r. by rewrite Hbs, Hn. }
    specialize (Hbytes Hne'). cbn [s_Region s_Shard s_ConfigurationEpoch s_ConfigurationRevision
      withBindings] in Hused. lia.
Qed.
End budget.

(** * Nobody is dropped *)

Section established.
Context `{GoRuntime}.

Lemma outcome_uid previous b o old :
  (∀ uid x, previous !! uid = Some x → b_BindingUID x = uid) →
  outcome previous b (Some old, o) → b_BindingUID old = b_BindingUID b.
Proof. intros Hprev Ho. inversion Ho; subst; [done|]. by apply Hprev. Qed.

Lemma served_in {A} (bs : list Binding) (os : list (option Binding * A)) b' :
  length bs = length os → b' ∈ omap fst os → ∃ b o, (b, (Some b', o)) ∈ zip bs os.
Proof.
  intros Hlen. rewrite list_elem_of_omap. intros ([o a] & Hin & Ho). cbn in Ho. subst.
  apply list_elem_of_lookup in Hin as [i Hi].
  destruct (lookup_lt_is_Some_2 bs i) as [b Hb]; [rewrite Hlen; by eapply lookup_lt_Some|].
  exists b, a. apply list_elem_of_lookup. exists i. by rewrite lookup_zip_with, Hb, Hi.
Qed.

Lemma zip_outcome previous bs os b o :
  Forall2 (outcome previous) bs os → (b, o) ∈ zip bs os → outcome previous b o ∧ b ∈ bs.
Proof.
  induction 1 as [|x y bs os Hxy _ IH]; cbn; [by intros ?%elem_of_nil|].
  rewrite !elem_of_cons. intros [[= -> ->]|[? ?]%IH]; auto.
Qed.

Lemma zip_total previous bs os b :
  Forall2 (outcome previous) bs os → b ∈ bs → ∃ o, (b, o) ∈ zip bs os.
Proof.
  induction 1 as [|x y bs os _ _ IH]; cbn; [by intros ?%elem_of_nil|].
  setoid_rewrite elem_of_cons. intros [->|[o Ho]%IH]; eauto.
Qed.

Lemma zip_functional {A} (bs : list Binding) (os : list A) b o x y :
  NoDup (b_BindingUID <$> bs) → (b, o) ∈ zip bs os → (x, y) ∈ zip bs os →
  b_BindingUID x = b_BindingUID b → y = o.
Proof.
  intros Hnd (i & Hi)%list_elem_of_lookup (j & Hj)%list_elem_of_lookup Heq.
  rewrite lookup_zip_with_Some in Hi, Hj.
  destruct Hi as (b1 & o1 & [= -> ->] & Hbi & Hoi), Hj as (x1 & y1 & [= -> ->] & Hxj & Hyj).
  rewrite NoDup_alt in Hnd. rewrite (Hnd i j (b_BindingUID b1)) in Hoi; [congruence|..].
  - by rewrite list_lookup_fmap, Hbi.
  - rewrite list_lookup_fmap, Hxj. cbn. by rewrite Heq.
Qed.

Lemma fitLoop_failed maxBindings maxBytes previous candidates st rejected st' rejected' uid :
  fitLoop maxBindings maxBytes previous st rejected candidates = (st', rejected', Some uid) →
  is_Some (previous !! uid) ∧ uid ∈ rejected'.
Proof.
  revert st rejected. induction candidates as [|b rest IH]; intros st rejected; cbn; [done|].
  destruct (fits _ _ st b); [apply IH|].
  destruct (previous !! b_BindingUID b) as [old|] eqn:Hprev; [|apply IH].
  destruct (if safeExpansion old b then _ else _); [apply IH|].
  intros [= <- <- <-]. rewrite Hprev. split; [done|]. set_solver.
Qed.

(** What the outcomes of the candidates mean for one of them. *)
Lemma outcomes_served (previous : gmap gostring Binding) (cands : list Binding) (os : list (option Binding * bool))
    (rejected : gset gostring) (b : Binding) :
  (∀ uid x, previous !! uid = Some x → b_BindingUID x = uid) →
  NoDup (b_BindingUID <$> cands) → Forall2 (outcome previous) cands os →
  (∀ uid, uid ∈ rejected ↔ ∃ b o, (b, (o, true)) ∈ zip cands os ∧ b_BindingUID b = uid) →
  b ∈ cands →
  b ∈ omap fst os ∧ b_BindingUID b ∉ rejected
  ∨ b_BindingUID b ∈ rejected
    ∧ match previous !! b_BindingUID b with
      | Some old => old ∈ omap fst os ∧ safeExpansion old b = true
      | None => ∀ b', b' ∈ omap fst os → b_BindingUID b' ≠ b_BindingUID b
      end.
Proof.
  intros Hprev Hnd Hos Hrej Hwanted.
  destruct (zip_total _ _ _ _ Hos Hwanted) as [[o rej] Hin].
  destruct (zip_outcome _ _ _ _ _ Hos Hin) as [Ho _].
  assert (∀ x, o = Some x → x ∈ omap fst os) as Hserved.
  { intros x ->. apply list_elem_of_omap. exists (Some x, rej). split; [|done].
    by apply elem_of_zip_r in Hin. }
  rewrite Hrej. inversion Ho as [|Hnone|old Hold Hsafe]; subst o rej.
  - left. split; [auto|]. intros (x & y & Hx & Hu).
    by specialize (zip_functional _ _ _ _ _ _ Hnd Hin Hx Hu).
  - right. split; [by exists b, None|]. rewrite Hnone. intros b' Hb' Hu.
    apply (served_in cands) in Hb' as (x & y & Hx); [|by apply Forall2_length in Hos].
    destruct (zip_outcome _ _ _ _ _ Hos Hx) as [Hox _].
    rewrite (outcome_uid _ _ _ _ Hprev Hox) in Hu.
    by specialize (zip_functional _ _ _ _ _ _ Hnd Hin Hx Hu).
  - right. split; [by exists b, (Some old)|]. rewrite Hold. auto.
Qed.

(** C25. Want of room never ends what a shard serves.  When [fitSnapshot] succeeds, at most
    [maxBindings] bindings are served, each one wanted; a wanted binding is served as wanted,
    or reported as rejected, and then the version served before stays, which must be one the
    wanted version only extends, or the shard never served it.  When an established binding
    can be kept in neither version, the whole prior snapshot stays and the call fails. *)
Theorem fitSnapshot_established snapshot prior maxBindings maxBytes :
  NoDup (b_BindingUID <$> elems (s_Bindings snapshot)) →
  let previous := byUID (elems (s_Bindings prior)) in
  match fitSnapshot snapshot prior maxBindings maxBytes with
  | (s, rejected, None) =>
      let served := elems (s_Bindings s) in
      (Z.of_nat (length served) ≤ Z.max 0 maxBindings)%Z
      ∧ (∀ b', b' ∈ served → ∃ b, b ∈ elems (s_Bindings snapshot) ∧ b_BindingUID b = b_BindingUID b')
      ∧ (∀ b, b ∈ elems (s_Bindings snapshot) →
           b ∈ served ∧ b_BindingUID b ∉ rejected
           ∨ b_BindingUID b ∈ rejected
             ∧ match previous !! b_BindingUID b with
               | Some old => old ∈ served ∧ safeExpansion old b = true
               | None => ∀ b', b' ∈ served → b_BindingUID b' ≠ b_BindingUID b
               end)
  | (s, rejected, Some (CEstablished uid)) =>
      s = prior ∧ is_Some (previous !! uid) ∧ uid ∈ rejected
  | (s, rejected, Some (CWire _)) => elems (s_Bindings s) = [] ∧ rejected = ∅
  end.
Proof.
  intros Hnd previous. destruct (fitSnapshot _ _ _ _) as [[s rejected] [[e|uid]|]] eqn:Hfit.
  - unfold fitSnapshot in Hfit. destruct (sizingEnvelope _); [|by simplify_eq/=].
    by destruct (fitLoop _ _ _ _ _ _) as [[? ?] []].
  - unfold fitSnapshot in Hfit. destruct (sizingEnvelope _); [|done].
    destruct (fitLoop _ _ _ _ _ _) as [[st rej] [u|]] eqn:Hloop; [|done].
    injection Hfit as <- <- ->. apply fitLoop_failed in Hloop as [? ?].
    split_and!; [done..|]. apply elem_of_union. by left.
  - apply fitSnapshot_Ok in Hfit as (envelope & st & _ & Hloop & ->).
    fold previous in Hloop. set (cands := sort_slice _ _) in Hloop.
    assert (cands ≡ₚ elems (s_Bindings snapshot)) as Hcands by apply sort_slice_perm.
    apply (fitLoop_outcomes _ _ _ _ _ _ _ _ _ (charged_start _ _ _))
      in Hloop as ([_ _ _ Hcount] & os & Hos & Hb & Hrej). cbn in Hb. rewrite Hb in Hcount.
    assert (∀ uid x, previous !! uid = Some x → b_BindingUID x = uid) as Hprev
      by (intros ?? [_ ?]%byUID_lookup; done).
    cbn [withBindings s_Bindings elems default from_option id]. rewrite Hb.
    setoid_rewrite (sort_slice_perm uidLess (omap fst os)).
    setoid_rewrite <- Hcands. rewrite <- Hcands in Hnd. split_and!; [done| |].
    + intros b' Hb'. apply (served_in cands) in Hb' as (b & o & Hin); [|by apply Forall2_length in Hos].
      destruct (zip_outcome _ _ _ _ _ Hos Hin) as [Ho ?]. exists b. split; [done|].
      symmetry. by eapply outcome_uid.
    + intros b Hwanted.
      pose proof (outcomes_served previous cands os rejected b Hprev Hnd Hos) as Hb'.
      destruct (previous !! b_BindingUID b); setoid_rewrite (sort_slice_perm uidLess (omap fst os));
        (apply Hb'; [|done]; intros uid; rewrite Hrej; split; [by intros [?%elem_of_empty|?]|auto]).
Qed.
End established.

(** * Witnesses *)

#[local] Existing Instance reference_runtime.

Definition exampleBinding (uid : gostring) (zones : list ZoneAttachment) : Binding :=
  {| b_BindingUID := uid; b_ProjectUID := "project"; b_ContextUID := "context";
     b_BindingGeneration := 1; b_ConfigurationRevision := 1;
     b_ConsumerAddress := "192.0.2.1"; b_ClusterAddress := "fd54::1"; b_Port := 53;
     b_Transports := Some [TransportUDP; TransportTCP]; b_Zones := Some zones;
     b_NodeBackends := None; b_ClusterBackends := None;
     b_Version := {| v_Epoch := 1; v_Sequence := 1 |}; b_Tombstone := false;
     b_ConfigurationPending := false |}.
Definition exampleZone (uid : gostring) (epoch revision : Z) : ZoneAttachment :=
  {| za_Pending := false; za_ZoneUID := uid; za_Apex := "corp.example";
     za_RequiredPublicationEpoch := epoch; za_RequiredPublicationRevision := revision |}.
Definition exampleSnapshot (bs : list Binding) : ServingSnapshot :=
  {| s_Region := "east"; s_Shard := "a"; s_ConfigurationEpoch := 1700000000;
     s_ConfigurationRevision := 12; s_Bindings := Some bs; s_Members := None;
     s_MemberPatterns := []; s_RequiredPublications := [];
     s_GeneratedAt := 1700000000000000000 |}.
Definition exampleWanted : ServingSnapshot :=
  exampleSnapshot [exampleBinding "b1" [exampleZone "z1" 7 2; exampleZone "z2" 7 1];
                   exampleBinding "b2" [exampleZone "z1" 7 3]].
Definition examplePrior : ServingSnapshot :=
  exampleSnapshot [exampleBinding "b1" [exampleZone "z1" 7 1]].

(** There is room for one binding: the established one is served, the other rejected. *)
Lemma fitSnapshot_established_witness :
  fitSnapshot exampleWanted examplePrior 1 4096 =
    (exampleSnapshot [exampleBinding "b1" [exampleZone "z1" 7 2; exampleZone "z2" 7 1]],
     {[ "b2" ]}, None) ∧
  NoDup (b_BindingUID <$> elems (s_Bindings exampleWanted)) ∧
  "b2" ∈ (fitSnapshot exampleWanted examplePrior 1 4096).1.2.
Proof.
  assert (NoDup (b_BindingUID <$> elems (s_Bindings exampleWanted))) as Hnd.
  { apply NoDup_ListNoDup. repeat constructor; cbn; intuition discriminate. }
  assert (fitSnapshot exampleWanted examplePrior 1 4096 =
    (exampleSnapshot [exampleBinding "b1" [exampleZone "z1" 7 2; exampleZone "z2" 7 1]],
     {[ "b2" ]}, None)) as Hfit by (vm_compute; reflexivity).
  split; [exact Hfit|]. split; [exact Hnd|].
  pose proof (fitSnapshot_established exampleWanted examplePrior 1 4096 Hnd) as Hres.
  rewrite Hfit in Hres. destruct Hres as (_ & _ & Hres).
  destruct (Hres (exampleBinding "b2" [exampleZone "z1" 7 3])) as [[Hin _]|[Hrej _]].
  - apply list_elem_of_In. right. left. reflexivity.
  - exfalso. apply list_elem_of_singleton in Hin. discriminate Hin.
  - rewrite Hfit. exact Hrej.
Defined.

(** With room for both, the envelope of the pair takes no more than its budget. *)
Definition examplePublished : ServingSnapshot :=
  match publicationDependencies (fitSnapshot exampleWanted examplePrior 2 1700).1.1
          {[ "z1" := "act-1"; "z2" := "act-2" ]} with
  | Ok (_, s) => s
  | Err _ => exampleWanted
  end.
Lemma fitSnapshot_budget_witness :
  (size (Envelope_json (envelopeOf KindServingSnapshot
     (servingName "east" "a" 1700000000 12) "east" "a" "0f8fad5b-d9cb-469f-a165-70867728950e"
     1700000000 12 1700000001234567890 (ServingSnapshot_json examplePublished))) ≤ 1700)%Z.
Proof.
  apply (fitSnapshot_budget exampleWanted examplePrior 2 1700
           (fitSnapshot exampleWanted examplePrior 2 1700).1.1 ∅
           {[ "z1" := "act-1"; "z2" := "act-2" ]} ["act-1"; "act-2"] examplePublished
           "0f8fad5b-d9cb-469f-a165-70867728950e" 1700000001234567890).
  - reflexivity.
  - vm_compute. reflexivity.
  - vm_compute. reflexivity.
  - vm_compute. discriminate.
  - cbn. lia.
  - cbn. lia.
  - vm_compute. reflexivity.
  - cbn. lia.
Defined.
