(* ===== verification/SnapshotValid.v ===== *)
(** Which snapshots [ServingSnapshot.Validate] of [internal/internaldns/model/model.go]
    accepts, and that [fitSnapshot] of [platform/capacity.go] keeps them accepted.

    [Validate] reads the bindings in order and keeps what it has seen in maps.  Its verdict
    is shown to be a property of the set of bindings alone: no two share a UID, and two
    share an address only when both are withdrawn. *)

From S2P Require Import Prelude GoStrings GoCrypto GoJson WireModel Capacity.

Section valid.
Context `{GoRuntime} `{MiekgDNS}.
Implicit Types (b : Binding) (bs : list Binding).

Definition addressesOf b : list gostring := [b_ConsumerAddress b; b_ClusterAddress b].

(** What a binding must be by itself. *)
Definition wf_Binding b : Prop :=
  b_BindingUID b ≠ [] ∧ b_ProjectUID b ≠ [] ∧ b_ContextUID b ≠ []
  ∧ b_BindingGeneration b ≠ 0%Z ∧ b_ConfigurationRevision b ≠ 0%Z
  ∧ Forall (λ a, usableAddr a = true) (addressesOf b) ∧ validateConfiguration b = Ok tt.

(** Two bindings may have an address in common only if both are withdrawn. *)
Definition apart b b' : Prop :=
  ∀ a, a ∈ addressesOf b → a ∈ addressesOf b' → b_Tombstone b = true ∧ b_Tombstone b' = true.

(** What the bindings of a snapshot must be together. *)
Record wf_Bindings bs : Prop := {
  wb_uids : NoDup (b_BindingUID <$> bs);
  wb_each : Forall wf_Binding bs;
  wb_apart : ∀ b b', b ∈ bs → b' ∈ bs → b_BindingUID b ≠ b_BindingUID b' → apart b b';
}.

Lemma apart_sym b b' : apart b b' → apart b' b.
Proof. intros Hab a Ha Hb. destruct (Hab a Hb Ha). done. Qed.

Lemma wf_Bindings_perm bs bs' : bs ≡ₚ bs' → wf_Bindings bs → wf_Bindings bs'.
Proof.
  intros Hbs [Hu He Ha]. split; [by rewrite <- Hbs..|].
  intros b b' Hb Hb'. rewrite <- Hbs in Hb, Hb'. by apply Ha.
Qed.

Lemma wf_Bindings_snoc bs b :
  wf_Bindings (bs ++ [b]) ↔
  wf_Bindings bs ∧ (b_BindingUID b ∉ (b_BindingUID <$> bs)) ∧ wf_Binding b
  ∧ (∀ b0, b0 ∈ bs → apart b0 b).
Proof.
  split.
  - intros [Hu He Ha]. rewrite fmap_app, NoDup_app in Hu. destruct Hu as (Hu & Hnew & _).
    rewrite Forall_app, Forall_singleton in He. destruct He as [He Hb].
    assert (b_BindingUID b ∉ (b_BindingUID <$> bs)) as Hnin.
    { intros Hin. apply (Hnew _ Hin). by apply list_elem_of_singleton. }
    split_and!; [split; [done|done|]|done|done|].
    + intros x y Hx Hy. apply Ha; apply elem_of_app; by left.
    + intros b0 Hb0. apply Ha; rewrite ?elem_of_app, ?list_elem_of_singleton; auto.
      intros Heq. apply Hnin. rewrite <- Heq. by apply list_elem_of_fmap_2.
  - intros ([Hu He Ha] & Hnin & Hb & Hapart). split.
    + rewrite fmap_app, NoDup_app. split_and!; [done| |apply NoDup_singleton].
      intros u Hin ->%list_elem_of_singleton. done.
    + by rewrite Forall_app, Forall_singleton.
    + intros x y. rewrite !elem_of_app, !list_elem_of_singleton.
      intros [Hx| ->] [Hy| ->] Hne; [by apply Ha|by apply Hapart|by apply apart_sym, Hapart|done].
Qed.

(** The loop over a binding's addresses. *)
Lemma validateAddresses_Ok b M (l : list (gostring * gostring)) M' :
  result_fold (validateAddress b) M l = Ok M' ↔
  (∀ a, a ∈ l.*2 → usableAddr a = true ∧
     ∀ old, M !! a = Some old → b_BindingUID old ≠ b_BindingUID b →
       b_Tombstone old = true ∧ b_Tombstone b = true)
  ∧ M' = foldl (λ m a, <[a := b]> m) M l.*2.
Proof.
  revert M. induction l as [|[k a] l IH]; intros M.
  { cbn. split; [intros [= <-]|by intros [_ ->]]. split; [by intros a ?%elem_of_nil|done]. }
  cbn [result_fold fmap list_fmap snd foldl]. setoid_rewrite elem_of_cons.
  transitivity ((usableAddr a = true ∧ ∀ old, M !! a = Some old → b_BindingUID old ≠ b_BindingUID b →
       b_Tombstone old = true ∧ b_Tombstone b = true)
     ∧ result_fold (validateAddress b) (<[a := b]> M) l = Ok M').
  { unfold validateAddress at 1. cbn [snd]. destruct (usableAddr a); cbn; [|by split; [|intros [[? _] _]]].
    destruct (M !! a) as [old|]; cbn; [|by split; [intros Hok|intros [_ Hok]]].
    destruct (decide (b_BindingUID old = b_BindingUID b)) as [Heq|Hne].
    - rewrite bool_decide_eq_false_2 by tauto. cbn. split; [|by intros []].
      intros Hok. split; [|done]. split; [done|]. by intros ? [= <-].
    - rewrite bool_decide_eq_true_2 by done. destruct (b_Tombstone old) eqn:Ho, (b_Tombstone b) eqn:Hb;
        cbn; (split; [intros Hok; first [done|split; [split; [done|by intros ? [= <-]]|done]]|];
        intros [[_ Hold] Hok]; destruct (Hold old eq_refl Hne); congruence). }
  rewrite IH. split.
  - intros (Ha & Hl & ->). split; [|done]. intros a' [->|Ha']; [done|].
    destruct (Hl a' Ha') as [? Hold]. split; [done|]. intros old Hlook Hne.
    destruct (decide (a' = a)) as [->|Hne']; [by apply Ha|].
    apply Hold; [by rewrite lookup_insert_ne|done].
  - intros [Hl ->]. split_and!; [apply Hl; by left|apply Hl; by left| |done].
    intros a' Ha'. destruct (Hl a' (or_intror Ha')) as [? Hold]. split; [done|].
    intros old [[-> <-]|[_ ?]]%lookup_insert_Some Hne; [done|by apply Hold].
Qed.

Lemma range_addresses b : (map_range (bindingAddresses b)).*2 ≡ₚ addressesOf b.
Proof.
  rewrite map_range_perm. unfold bindingAddresses.
  rewrite map_to_list_insert by by rewrite lookup_singleton_ne.
  by rewrite map_to_list_singleton.
Qed.

Lemma elem_range b a : a ∈ (map_range (bindingAddresses b)).*2 ↔ a ∈ addressesOf b.
Proof. by rewrite range_addresses. Qed.

Lemma foldl_insert_lookup b (M : gmap gostring Binding) (l : list gostring) a :
  foldl (λ m a, <[a := b]> m) M l !! a = if decide (a ∈ l) then Some b else M !! a.
Proof.
  revert M. induction l as [|x l IH]; intros M; cbn; [done|]. rewrite IH.
  destruct (decide (a ∈ l)) as [Hin|Hnin].
  - rewrite decide_True; [done|]. apply elem_of_cons. by right.
  - destruct (decide (a = x)) as [->|Hne].
    + rewrite lookup_insert_eq, decide_True; [done|]. apply elem_of_cons. by left.
    + rewrite lookup_insert_ne by done. rewrite decide_False; [done|].
      rewrite elem_of_cons. tauto.
Qed.

(** What [seenVIP] holds after the bindings: one of those that have the address. *)
Definition vipHolders bs (M : gmap gostring Binding) : Prop :=
  ∀ a, match M !! a with
       | Some b => b ∈ bs ∧ a ∈ addressesOf b
       | None => ∀ b, b ∈ bs → a ∉ addressesOf b
       end.

Lemma vipHolders_snoc bs b M :
  vipHolders bs M → vipHolders (bs ++ [b]) (foldl (λ m a, <[a := b]> m) M (addressesOf b)).
Proof.
  intros HM a. rewrite foldl_insert_lookup. specialize (HM a). case_decide as Ha.
  - rewrite elem_of_app, list_elem_of_singleton. auto.
  - destruct (M !! a).
    + rewrite elem_of_app. naive_solver.
    + intros b0 [Hb0| ->%list_elem_of_singleton]%elem_of_app; auto.
Qed.

(** A binding is apart from all before it when it is apart from the holders. *)
Lemma vipHolders_apart bs b M :
  wf_Bindings bs → vipHolders bs M → b_BindingUID b ∉ (b_BindingUID <$> bs) →
  (∀ a, a ∈ addressesOf b → ∀ old, M !! a = Some old → b_BindingUID old ≠ b_BindingUID b →
     b_Tombstone old = true ∧ b_Tombstone b = true) ↔ ∀ b0, b0 ∈ bs → apart b0 b.
Proof.
  intros [Hu _ Ha] HM Hnin. assert (∀ b0, b0 ∈ bs → b_BindingUID b0 ≠ b_BindingUID b) as Hne.
  { intros b0 Hb0 Heq. apply Hnin. rewrite <- Heq. by apply list_elem_of_fmap_2. }
  split.
  - intros Hold b0 Hb0 a Ha0 Hab. specialize (HM a). destruct (M !! a) as [old|] eqn:Hlook.
    2:{ by destruct (HM b0 Hb0). }
    destruct HM as [Hin Hao]. destruct (Hold a Hab old Hlook (Hne old Hin)) as [Hto Htb].
    split; [|done]. destruct (decide (b_BindingUID b0 = b_BindingUID old)) as [Heq|Hdiff].
    + by rewrite (NoDup_fmap_eq b_BindingUID bs b0 old).
    + by destruct (Ha b0 old Hb0 Hin Hdiff a Ha0 Hao).
  - intros Hapart a Hab old Hlook _. specialize (HM a). rewrite Hlook in HM.
    destruct HM as [Hin Hao]. by apply (Hapart old Hin a).
Qed.

(** What the loop over the bindings accepts. *)
Lemma validateBinding_Ok seen M b st :
  validateBinding (seen, M) b = Ok st ↔
  (b_BindingUID b ∉ seen) ∧ wf_Binding b
  ∧ (∀ a, a ∈ addressesOf b → ∀ old, M !! a = Some old → b_BindingUID old ≠ b_BindingUID b →
       b_Tombstone old = true ∧ b_Tombstone b = true)
  ∧ st = ({[ b_BindingUID b ]} ∪ seen,
          foldl (λ m a, <[a := b]> m) M (map_range (bindingAddresses b)).*2).
Proof.
  unfold validateBinding. rewrite refuse_bind, bind_Ok. unfold once.
  setoid_rewrite bind_Ok. setoid_rewrite bind_Ok. setoid_rewrite validateAddresses_Ok.
  setoid_rewrite elem_range.
  rewrite !orb_false_iff, !bool_decide_eq_false, !Z.eqb_neq. unfold wf_Binding.
  setoid_rewrite Forall_forall. split.
  - intros (((((? & ?) & ?) & ?) & ?) & seen' & Hseen & M1 & [Ha ->] & [] & Hconf & [= <-]).
    case_decide; [done|]. simplify_eq. split_and!; try done.
    + intros a Hin. apply (Ha a Hin).
    + intros a Hin. apply (Ha a Hin).
  - intros (Hnew & (? & ? & ? & ? & ? & Hus & Hconf) & Hold & ->). split; [by split_and!|].
    rewrite decide_False by done. eexists. split; [done|]. eexists. split.
    { split; [|reflexivity]. intros a Ha. split; [by apply Hus|by apply Hold]. }
    by exists tt.
Qed.

Lemma validateBindings_fold bs :
  (∀ st, result_fold validateBinding (∅, ∅) bs = Ok st →
     wf_Bindings bs ∧ st.1 = list_to_set (b_BindingUID <$> bs) ∧ vipHolders bs st.2)
  ∧ (wf_Bindings bs → is_Ok (result_fold validateBinding (∅, ∅) bs)).
Proof.
  induction bs as [|b bs [IHok IHwf]] using rev_ind.
  { split; [|by eexists]. cbn. intros st [= <-]. split_and!; [|done|].
    - split; [constructor..|]. by intros b b' ?%elem_of_nil.
    - intros a. cbn. rewrite lookup_empty. by intros b ?%elem_of_nil. }
  assert (∀ st st', result_fold validateBinding (∅, ∅) bs = Ok st →
    validateBinding st b = Ok st' ↔
    wf_Bindings (bs ++ [b]) ∧
    st' = ({[ b_BindingUID b ]} ∪ st.1,
           foldl (λ m a, <[a := b]> m) st.2 (map_range (bindingAddresses b)).*2)) as Hstep.
  { intros [seen M] st' Hst. destruct (IHok _ Hst) as (Hwf & Hseen & HM). cbn in Hseen, HM. subst seen.
    rewrite validateBinding_Ok, wf_Bindings_snoc, elem_of_list_to_set. cbn [fst snd].
    split.
    - intros (Hnew & Hb & Hold & ->). split_and!; try done. by apply (vipHolders_apart _ _ M).
    - intros [(_ & Hnew & Hb & Hapart) ->]. split_and!; try done. by eapply vipHolders_apart. }
  rewrite result_fold_app. split.
  - intros st'. rewrite bind_Ok. intros (st & Hst & Hb). cbn in Hb.
    destruct (validateBinding st b) as [st1|] eqn:Hv; [|done]. simplify_eq.
    apply Hstep in Hv as [Hwf ->]; [|done]. destruct (IHok _ Hst) as (_ & Hseen & HM).
    split_and!; [done| |].
    + cbn [fst]. rewrite Hseen, fmap_app, list_to_set_app_L. set_solver.
    + cbn [snd]. intros a. rewrite foldl_insert_lookup.
      pose proof (vipHolders_snoc _ b _ HM a) as Ha. rewrite foldl_insert_lookup in Ha.
      by rewrite (decide_ext _ (a ∈ addressesOf b)) by apply elem_range.
  - intros Hwf. destruct (proj1 (wf_Bindings_snoc _ _) Hwf) as [Hbs _].
    destruct (IHwf Hbs) as [st Hst]. rewrite Hst. cbn.
    rewrite (proj2 (Hstep st _ Hst) (conj Hwf eq_refl)). by eexists.
Qed.

Lemma validateBindings_Ok bs : is_Ok (result_fold validateBinding (∅, ∅) bs) ↔ wf_Bindings bs.
Proof.
  destruct (validateBindings_fold bs) as [Hok Hwf]. split; [|done]. intros [st Hst]. by apply (Hok st).
Qed.

(** What the rest of the snapshot must be. *)
Definition wf_Header (s : ServingSnapshot) : Prop :=
  s_Region s ≠ [] ∧ s_Shard s ≠ [] ∧ s_ConfigurationEpoch s ≠ 0%Z
  ∧ s_ConfigurationRevision s ≠ 0%Z ∧ s_GeneratedAt s ≠ zeroTime
  ∧ is_Ok (result_fold validateMember ∅ (elems (s_Members s)))
  ∧ Forall (λ p, MemberPattern_Validate p = Ok tt) (s_MemberPatterns s)
  ∧ is_Ok (result_fold validateRequirement ∅ (s_RequiredPublications s)).

Lemma Validate_wf s :
  ServingSnapshot_Validate s = Ok tt ↔ wf_Header s ∧ wf_Bindings (elems (s_Bindings s)).
Proof.
  unfold ServingSnapshot_Validate, wf_Header, IsZero.
  rewrite refuse_bind, !orb_false_iff, !bool_decide_eq_false, !Z.eqb_neq. split.
  - intros [Hh (ms & Hms & ([] & Hps & (rs & Hrs & Hbs)%bind_Ok)%bind_Ok)%bind_Ok].
    rewrite fmap_unit_Ok, validateBindings_Ok in Hbs. rewrite result_iter_Ok in Hps.
    destruct_and!. split_and!; try done; by eexists.
  - intros [(? & ? & ? & ? & ? & [ms Hms] & Hps & [rs Hrs]) Hbs]. split; [by split_and!|].
    rewrite Hms. cbn. rewrite (proj2 (result_iter_Ok _ _) Hps). cbn. rewrite Hrs.
    cbn. by rewrite fmap_unit_Ok, validateBindings_Ok.
Qed.

(** ** Fitting *)

Definition alike b b' : Prop :=
  b_BindingUID b' = b_BindingUID b ∧ addressesOf b' = addressesOf b ∧ b_Tombstone b' = b_Tombstone b.

(** The version that is kept differs from the wanted one in neither identity nor address. *)
Lemma outcome_alike previous b b' r :
  (∀ uid x, previous !! uid = Some x → b_BindingUID x = uid) →
  outcome previous b (Some b', r) → alike b b'.
Proof.
  intros Hprev Ho. inversion Ho as [| |old Hold Hsafe]; subst; [done|].
  unfold safeExpansion in Hsafe. apply andb_true_iff in Hsafe as [Hsafe _].
  rewrite negb_true_iff, !orb_false_iff, !bool_decide_eq_false in Hsafe.
  destruct Hsafe as ((((((((Ht & Ht') & _) & _) & _) & _) & _) & Hc%dec_stable) & Hk%dec_stable).
  split_and!; [by apply Hprev| |congruence]. unfold addressesOf. by rewrite Hc, Hk.
Qed.

Lemma served_wf previous cands os prior :
  (∀ uid x, previous !! uid = Some x → b_BindingUID x = uid ∧ x ∈ prior) →
  wf_Bindings cands → wf_Bindings prior → Forall2 (outcome previous) cands os →
  wf_Bindings (omap fst os).
Proof.
  intros Hprev [Hu He Ha] [_ Hep _] Hos.
  assert (∀ uid x, previous !! uid = Some x → b_BindingUID x = uid) as Hkey by naive_solver.
  assert (∀ b', b' ∈ omap fst os → ∃ b, b ∈ cands ∧ alike b b' ∧ (b' = b ∨ b' ∈ prior)) as Hfrom.
  { intros b' Hb'. apply (served_in cands) in Hb' as (b & r & Hin); [|by apply Forall2_length in Hos].
    destruct (zip_outcome _ _ _ _ _ Hos Hin) as [Ho Hb]. exists b.
    split_and!; [done|by eapply outcome_alike|]. inversion Ho; subst; [by left|right]. naive_solver. }
  split.
  - eapply sublist_NoDup; [exact Hu|]. clear -Hos Hkey. induction Hos as [|b [[b'|] r] bs os Ho _ IH]; cbn.
    + constructor.
    + destruct (outcome_alike _ _ _ _ Hkey Ho) as [-> _]. by constructor.
    + by constructor.
  - apply Forall_forall. intros b' Hb'. rewrite Forall_forall in He, Hep.
    destruct (Hfrom b' Hb') as (b & Hb & _ & [->|?]); auto.
  - intros b1' b2' H1 H2 Hne.
    destruct (Hfrom _ H1) as (b1 & Hb1 & (Hu1 & Ha1 & Ht1) & _).
    destruct (Hfrom _ H2) as (b2 & Hb2 & (Hu2 & Ha2 & Ht2) & _).
    unfold apart. rewrite Ha1, Ha2, Ht1, Ht2. apply Ha; congruence.
Qed.

Lemma withBindings_Header s (bs : slice Binding) : wf_Header (withBindings s bs) ↔ wf_Header s.
Proof. done. Qed.

(** C26. Fitting keeps a snapshot valid: when the snapshot that was wanted and the one served
    before pass [Validate], so does what [fitSnapshot] returns, on success and on failure,
    although it may hold some bindings as wanted and some as they were. *)
Theorem fitSnapshot_valid snapshot prior maxBindings maxBytes :
  ServingSnapshot_Validate snapshot = Ok tt → ServingSnapshot_Validate prior = Ok tt →
  ServingSnapshot_Validate (fitSnapshot snapshot prior maxBindings maxBytes).1.1 = Ok tt.
Proof.
  intros Hsnap Hpriorv. pose proof Hsnap as Hs. pose proof Hpriorv as Hp.
  rewrite Validate_wf in Hs, Hp. destruct Hs as [Hhead Hwant], Hp as [_ Hprior].
  destruct (fitSnapshot _ _ _ _) as [[s rejected] [e|]] eqn:Hfit; cbn [fst].
  - unfold fitSnapshot in Hfit. destruct (sizingEnvelope _).
    { by destruct (fitLoop _ _ _ _ _ _) as [[? ?] []]; simplify_eq. }
    simplify_eq. apply Validate_wf. split; [done|]. split; cbn; [constructor..|].
    by intros b b' ?%elem_of_nil.
  - apply fitSnapshot_Ok in Hfit as (envelope & st & _ & Hloop & ->). apply Validate_wf.
    rewrite withBindings_Header. split; [done|]. cbn.
    apply (fitLoop_outcomes _ _ _ _ _ _ _ _ _ (charged_start _ _ _)) in Hloop as (_ & os & Hos & Hb & _).
    eapply wf_Bindings_perm; [symmetry; apply sort_slice_perm|]. rewrite Hb. cbn.
    eapply served_wf; [| |exact Hprior|done].
    + by intros uid x [? ?]%byUID_lookup.
    + eapply wf_Bindings_perm; [symmetry; apply sort_slice_perm|done].
Qed.
End valid.

(** * Witness *)

#[local] Existing Instance reference_runtime.
#[local] Existing Instance reference_miekg.

Lemma fitSnapshot_valid_witness :
  let wanted := exampleSnapshot [exampleBinding "b1" [exampleZone "z1" 7 2]] in
  ServingSnapshot_Validate (fitSnapshot wanted examplePrior 1 4096).1.1 = Ok tt.
Proof.
  apply (fitSnapshot_valid (exampleSnapshot [exampleBinding "b1" [exampleZone "z1" 7 2]])
           examplePrior 1 4096); vm_compute; reflexivity.
Defined.
