(* ===== verification/ServingFences.v ===== *)
(** What a serving replica remembers so that nothing old comes back:
    [internal/internaldns/serving/binding_fences.go], and the contribution fences of
    [serving/agent.go].

    A replica sees snapshots and plans late, twice or out of order.  For every binding and
    every contribution it keeps the highest version it accepted, also after it is gone, and
    refuses what is older. *)

From S2P Require Import Prelude GoStrings GoCrypto GoJson WireModel.

(** * Bindings *)

Record bindingFence := {
  bf_Identity : gostring;
  bf_ConfigurationGeneration : Z;
  bf_ConfigurationRevision : Z;
  bf_Version : AccessVersion;
  bf_Tombstone : bool;
}.

Abbreviation fences := (gmap gostring bindingFence).

Inductive FenceError :=
| FIdentity (uid : gostring)
| FConfiguration (uid : gostring)
| FVersion (uid : gostring)
| FReactivation (uid : gostring)
| FTransition (uid : gostring)
| FRetired (uid : gostring)
| FObservation (uid : gostring).

Section bindings.
Context `{GoRuntime}.

(** [bindingIdentity]: the digest of the binding's source and listeners, the transports in
    order. *)
Definition identity_json (b : Binding) : json := JObj
  [("Project", JStr (b_ProjectUID b)); ("Context", JStr (b_ContextUID b));
   ("Node", JStr (b_ConsumerAddress b)); ("Regional", JStr (b_ClusterAddress b));
   ("Port", JNum (b_Port b));
   ("Transports", match elems (b_Transports b) with
                  | [] => JNull
                  | ts => JArr (JStr <$> sort_slice str_ltb ts)
                  end)].
Definition bindingIdentity (b : Binding) : gostring := Hash (encode (identity_json b)).

Definition bindingFenceFor (b : Binding) : bindingFence :=
  {| bf_Identity := bindingIdentity b; bf_ConfigurationGeneration := b_BindingGeneration b;
     bf_ConfigurationRevision := b_ConfigurationRevision b; bf_Version := b_Version b;
     bf_Tombstone := b_Tombstone b |}.

Definition compareVersions (v v' : AccessVersion) : Z :=
  Compare (v_Epoch v) (v_Sequence v) (v_Epoch v') (v_Sequence v').

Definition withdrawn (f : bindingFence) : bindingFence :=
  {| bf_Identity := bf_Identity f; bf_ConfigurationGeneration := bf_ConfigurationGeneration f;
     bf_ConfigurationRevision := bf_ConfigurationRevision f; bf_Version := bf_Version f;
     bf_Tombstone := true |}.

(** The checks of the loop on a binding that has a fence. *)
Definition advanceFence (uid : gostring) (old candidate : bindingFence) : result FenceError unit :=
  _ ← refuse (bool_decide (bf_Identity candidate ≠ bf_Identity old)) (FIdentity uid);
  _ ← refuse ((bf_ConfigurationGeneration candidate <? bf_ConfigurationGeneration old)%Z
              || (bf_ConfigurationRevision candidate <? bf_ConfigurationRevision old)%Z)
        (FConfiguration uid);
  let cmp := compareVersions (bf_Version candidate) (bf_Version old) in
  _ ← refuse (cmp <? 0)%Z (FVersion uid);
  _ ← refuse (bf_Tombstone old && negb (bf_Tombstone candidate) && (cmp <=? 0)%Z)
        (FReactivation uid);
  refuse (negb (Bool.eqb (bf_Tombstone old) (bf_Tombstone candidate))
          && (bf_ConfigurationRevision candidate <=? bf_ConfigurationRevision old)%Z)
    (FTransition uid).

Definition advanceBinding (prior : fences) (next : fences) (b : Binding) : result FenceError fences :=
  let candidate := bindingFenceFor b in
  _ ← match prior !! b_BindingUID b with
      | Some old => advanceFence (b_BindingUID b) old candidate
      | None => Ok tt
      end;
  Ok (<[b_BindingUID b := candidate]> next).

(** [advanceBindingFences]. *)
Definition advanceBindingFences (prior : fences) (snapshot : ServingSnapshot) :
    result FenceError fences :=
  result_fold (advanceBinding prior) (withdrawn <$> prior) (elems (s_Bindings snapshot)).

(** ** History *)

(** A fence never goes back; a live one after a withdrawn one has a newer version and a
    newer configuration revision. *)
Definition fence_le (old new : bindingFence) : Prop :=
  bf_Identity new = bf_Identity old
  ∧ (bf_ConfigurationGeneration old ≤ bf_ConfigurationGeneration new)%Z
  ∧ (bf_ConfigurationRevision old ≤ bf_ConfigurationRevision new)%Z
  ∧ (0 ≤ compareVersions (bf_Version new) (bf_Version old))%Z
  ∧ (bf_Tombstone old = true → bf_Tombstone new = false →
     (0 < compareVersions (bf_Version new) (bf_Version old))%Z
     ∧ (bf_ConfigurationRevision old < bf_ConfigurationRevision new)%Z).

Lemma compare_trans v1 v2 v3 :
  (0 ≤ compareVersions v2 v1)%Z → (0 ≤ compareVersions v3 v2)%Z →
  (0 ≤ compareVersions v3 v1)%Z
  ∧ ((0 < compareVersions v2 v1)%Z ∨ (0 < compareVersions v3 v2)%Z → (0 < compareVersions v3 v1)%Z).
Proof. unfold compareVersions, Compare. repeat case_match; lia. Qed.

#[global] Instance fence_le_trans : Transitive fence_le.
Proof.
  intros f1 f2 f3 (Hi & Hg & Hr & Hv & Ht) (Hi' & Hg' & Hr' & Hv' & Ht').
  destruct (compare_trans _ _ _ Hv Hv') as [Hle Hlt].
  split_and!; [congruence|lia|lia|done|]. intros H1 H3.
  destruct (bf_Tombstone f2); [destruct (Ht' eq_refl H3)|destruct (Ht H1 eq_refl)];
    (split; [apply Hlt; auto|lia]).
Qed.

Lemma compare_refl v : compareVersions v v = 0%Z.
Proof. unfold compareVersions. by apply Compare_eq. Qed.

#[global] Instance fence_le_refl : Reflexive fence_le.
Proof. intros f. unfold fence_le. rewrite compare_refl. split_and!; [done|lia..|congruence]. Qed.

Lemma withdrawn_le f : fence_le f (withdrawn f).
Proof. unfold fence_le. cbn. rewrite compare_refl. split_and!; [done|lia..|done]. Qed.

Lemma advanceFence_le uid old new : advanceFence uid old new = Ok tt → fence_le old new.
Proof.
  unfold advanceFence. rewrite !refuse_bind, refuse_Ok.
  intros (Hi%bool_decide_eq_false%dec_stable & [Hg Hr]%orb_false_iff & Hv & Ha & Hb).
  split_and!; [done|lia..|]. intros H1 H2. rewrite H1, H2 in Ha, Hb. cbn in Ha, Hb. lia.
Qed.

Lemma advanceBindings_le prior bs next next' :
  result_fold (advanceBinding prior) next bs = Ok next' →
  ∀ uid, next' !! uid =
    match filter (λ b, b_BindingUID b = uid) (rev bs) with
    | b :: _ => Some (bindingFenceFor b)
    | [] => next !! uid
    end
    ∧ (∀ b old, b ∈ bs → b_BindingUID b = uid → prior !! uid = Some old →
         fence_le old (bindingFenceFor b)).
Proof.
  revert next'. induction bs as [|b bs IH] using rev_ind; intros next'.
  { cbn. intros [= <-] uid. split; [done|]. by intros b old ?%elem_of_nil. }
  rewrite result_fold_app, bind_Ok. intros (mid & Hmid & Hb) uid. specialize (IH _ Hmid uid) as [Hlook Hle].
  cbn in Hb. destruct (advanceBinding prior mid b) as [n|] eqn:Hadv; [|done]. injection Hb as ->.
  unfold advanceBinding in Hadv. apply bind_Ok in Hadv as ([] & Hold & [= <-]).
  rewrite rev_unit, filter_cons. case_decide as Hu.
  - subst uid. rewrite lookup_insert_eq. split; [done|].
    intros b' old [Hb'| ->%list_elem_of_singleton]%elem_of_app Hu' Hp; [by eapply Hle|].
    rewrite Hp in Hold. by eapply advanceFence_le.
  - rewrite lookup_insert_ne by done. split; [done|].
    intros b' old [Hb'| ->%list_elem_of_singleton]%elem_of_app Hu' Hp; [by eapply Hle|done].
Qed.

Lemma advance_step prior snapshot next uid old :
  advanceBindingFences prior snapshot = Ok next → prior !! uid = Some old →
  ∃ new, next !! uid = Some new ∧ fence_le old new.
Proof.
  intros Hadv Hold. destruct (advanceBindings_le _ _ _ _ Hadv uid) as [-> Hle].
  destruct (filter _ _) as [|b l] eqn:Hf.
  - rewrite lookup_fmap, Hold. eexists. split; [done|]. apply withdrawn_le.
  - eexists. split; [done|]. assert (b ∈ filter (λ b, b_BindingUID b = uid) (rev (elems (s_Bindings snapshot)))) as Hb.
    { rewrite Hf. apply elem_of_cons. by left. }
    apply list_elem_of_filter in Hb as [Hu Hb]. rewrite <- (Permutation_rev (elems _)) in Hb.
    by apply (Hle b).
Qed.

(** The replica accepts a snapshot. *)
Definition accepts (f f' : fences) : Prop := ∃ snapshot, advanceBindingFences f snapshot = Ok f'.

(** C36. Whatever snapshots a replica is offered, in whatever order and however often, what it
    has accepted for a binding never goes back: over any number of accepted snapshots a
    binding is never forgotten, its source and listeners stay the same, its configuration
    and access version never fall, and once withdrawn, by a tombstone or by being left out, it
    is live again only with a newer access version and a newer configuration revision. *)
Theorem advanceBindingFences_history f f' uid old :
  rtc accepts f f' → f !! uid = Some old → ∃ new, f' !! uid = Some new ∧ fence_le old new.
Proof.
  intros Hrtc. revert old. induction Hrtc as [f|f g h [snapshot Hstep] _ IH]; intros old Hold.
  { by exists old. }
  destruct (advance_step _ _ _ _ _ Hstep Hold) as (mid & Hmid & Hle).
  destruct (IH mid Hmid) as (new & Hnew & Hle'). exists new. split; [done|]. by etrans.
Qed.

(** What is live after a snapshot is what the snapshot lists as live. *)
Lemma advance_live prior snapshot next uid f :
  advanceBindingFences prior snapshot = Ok next → next !! uid = Some f → bf_Tombstone f = false →
  ∃ b, b ∈ elems (s_Bindings snapshot) ∧ b_BindingUID b = uid ∧ f = bindingFenceFor b.
Proof.
  intros Hadv Hf Hlive. destruct (advanceBindings_le _ _ _ _ Hadv uid) as [Hlook _].
  rewrite Hf in Hlook. destruct (filter _ _) as [|b l] eqn:Hl.
  - rewrite lookup_fmap in Hlook. destruct (prior !! uid); cbn in Hlook; simplify_eq.
  - assert (b ∈ filter (λ b, b_BindingUID b = uid) (rev (elems (s_Bindings snapshot)))) as Hb.
    { rewrite Hl. apply elem_of_cons. by left. }
    apply list_elem_of_filter in Hb as [Hu Hb]. rewrite <- (Permutation_rev (elems _)) in Hb.
    exists b. by simplify_eq.
Qed.
End bindings.

(** * Contributions *)

Record contributionFence := { cf_Generation : Z; cf_Sequence : Z; cf_Retired : bool }.

Abbreviation contributionFences := (gmap gostring contributionFence).

Definition compareFence (o : ObservationFence) (c : contributionFence) : Z :=
  Compare (of_Generation o) (of_Sequence o) (cf_Generation c) (cf_Sequence c).

(** [validateContributionFences]. *)
Definition validateContribution (current : contributionFences) (o : ObservationFence) :
    result FenceError unit :=
  match current !! of_ContributionUID o with
  | None => Ok tt
  | Some c =>
      _ ← refuse (cf_Retired c && negb (of_Retired o)) (FRetired (of_ContributionUID o));
      refuse (compareFence o c <? 0)%Z (FObservation (of_ContributionUID o))
  end.
Definition validateContributionFences (current : contributionFences) (plan : PublicationPlan) :
    result FenceError unit :=
  result_iter (validateContribution current) (pl_ObservationFences plan).

(** [commitContributionFences]. *)
Definition commitContribution (fences : contributionFences) (o : ObservationFence) :
    contributionFences :=
  let next := {| cf_Generation := of_Generation o; cf_Sequence := of_Sequence o;
                 cf_Retired := of_Retired o |} in
  let current := default {| cf_Generation := 0; cf_Sequence := 0; cf_Retired := false |}
                   (fences !! of_ContributionUID o) in
  let comparison := compareFence o current in
  if (0 <? comparison)%Z || (comparison =? 0)%Z && of_Retired o && negb (cf_Retired current)
  then <[of_ContributionUID o := next]> fences else fences.
Definition commitContributionFences (fences : contributionFences) (plan : PublicationPlan) :
    contributionFences :=
  foldl commitContribution fences (pl_ObservationFences plan).

Section contributions.
Context `{GoRuntime} `{MiekgDNS}.

(** A valid plan names a contribution once. *)
Lemma observations_sorted m previous os st :
  result_fold validateObservation (m, previous) os = Ok st →
  (previous ≠ [] → Forall (λ o, str_ltb previous (of_ContributionUID o) = true) os)
  ∧ NoDup (of_ContributionUID <$> os).
Proof.
  revert m previous. induction os as [|o os IH]; intros m previous; cbn [result_fold].
  { split; constructor. }
  destruct (validateObservation (m, previous) o) as [st1|] eqn:Ho; [|done].
  unfold validateObservation in Ho. rewrite !refuse_bind in Ho.
  destruct Ho as ([[Hne _]%orb_false_iff _]%orb_false_iff & Hord & [= <-]).
  apply bool_decide_eq_false in Hne. intros [Hall Hnd]%IH. specialize (Hall Hne). split.
  - intros Hp. rewrite bool_decide_eq_true_2 in Hord by done. apply negb_false_iff in Hord.
    constructor; [done|]. eapply Forall_impl; [done|]. intros o' Ho'. by eapply str_ltb_trans.
  - cbn. constructor; [|done]. intros (o' & Heq & Hin)%list_elem_of_fmap.
    rewrite Forall_forall in Hall. specialize (Hall o' Hin). rewrite Heq in Hall.
    by rewrite str_ltb_irrefl in Hall.
Qed.

Lemma plan_contributions plan :
  PublicationPlan_Validate plan = Ok tt → NoDup (of_ContributionUID <$> pl_ObservationFences plan).
Proof.
  unfold PublicationPlan_Validate. rewrite !refuse_bind.
  intros (_ & _ & (? & _ & ([m p] & Hos & _)%bind_Ok)%bind_Ok). by eapply observations_sorted.
Qed.

(** The replica accepts a plan, as [handleManifest] does. *)
Definition acceptsPlan (f f' : contributionFences) : Prop :=
  ∃ plan, PublicationPlan_Validate plan = Ok tt ∧ validateContributionFences f plan = Ok tt
          ∧ f' = commitContributionFences f plan.

Definition contribution_le (old new : contributionFence) : Prop :=
  (0 ≤ Compare (cf_Generation new) (cf_Sequence new) (cf_Generation old) (cf_Sequence old))%Z
  ∧ (cf_Retired old = true → cf_Retired new = true).

Lemma commit_other f os uid :
  uid ∉ (of_ContributionUID <$> os) → foldl commitContribution f os !! uid = f !! uid.
Proof.
  revert f. induction os as [|o os IH]; intros f; cbn; [done|].
  rewrite not_elem_of_cons. intros [Hne Hnin]. rewrite IH by done. unfold commitContribution.
  case_match; [by rewrite lookup_insert_ne|done].
Qed.

Lemma commit_le f os uid old :
  NoDup (of_ContributionUID <$> os) → Forall (λ o, validateContribution f o = Ok tt) os →
  f !! uid = Some old →
  ∃ new, foldl commitContribution f os !! uid = Some new ∧ contribution_le old new.
Proof.
  assert (∀ c, contribution_le c c) as Hrefl.
  { intros c. split; [|done]. rewrite (proj2 (Compare_eq _ _ _ _)); [lia|done]. }
  revert f. induction os as [|o os IH]; intros f Hnd Hval Hold; cbn in *; [by exists old|].
  apply NoDup_cons in Hnd as [Hnin Hnd]. apply Forall_cons in Hval as [Ho Hval].
  assert (Forall (λ o', validateContribution (commitContribution f o) o' = Ok tt) os) as Hval'.
  { rewrite Forall_forall in *. intros o' Ho'. unfold validateContribution.
    assert (commitContribution f o !! of_ContributionUID o' = f !! of_ContributionUID o') as ->.
    { apply (commit_other f [o]). intros Heq%list_elem_of_singleton.
      apply Hnin. rewrite <- Heq. by apply list_elem_of_fmap_2. }
    by apply Hval. }
  destruct (decide (of_ContributionUID o = uid)) as [<-|Hne].
  - rewrite commit_other by done. unfold commitContribution. rewrite Hold. cbn [from_option id].
    unfold validateContribution in Ho. rewrite Hold, refuse_bind, refuse_Ok in Ho.
    destruct Ho as [Hret Hcmp]. case_match; [|by exists old].
    rewrite lookup_insert_eq. eexists. split; [done|]. unfold contribution_le. cbn.
    split; [unfold compareFence in *; lia|]. intros Hr. rewrite Hr in Hret. by apply negb_false_iff in Hret.
  - apply IH; [done|done|]. rewrite (commit_other f [o]); [done|].
    by intros Heq%list_elem_of_singleton.
Qed.

End contributions.

(** * Witnesses *)

#[local] Existing Instance reference_runtime.
#[local] Existing Instance reference_miekg.

Definition fencedBinding (generation revision epoch sequence : Z) : Binding :=
  {| b_BindingUID := "b1"; b_ProjectUID := "project"; b_ContextUID := "context";
     b_BindingGeneration := generation; b_ConfigurationRevision := revision;
     b_ConsumerAddress := "192.0.2.1"; b_ClusterAddress := "fd54::1"; b_Port := 53;
     b_Transports := Some [TransportUDP]; b_Zones := None; b_NodeBackends := None;
     b_ClusterBackends := None; b_Version := {| v_Epoch := epoch; v_Sequence := sequence |};
     b_Tombstone := false; b_ConfigurationPending := false |}.
Definition fencedSnapshot (revision : Z) (bs : list Binding) : ServingSnapshot :=
  {| s_Region := "east"; s_Shard := "a"; s_ConfigurationEpoch := 1;
     s_ConfigurationRevision := revision; s_Bindings := Some bs; s_Members := None;
     s_MemberPatterns := []; s_RequiredPublications := [];
     s_GeneratedAt := 1700000000000000000 |}.
Definition advanced (f : fences) (s : ServingSnapshot) : fences :=
  match advanceBindingFences f s with Ok f' => f' | Err _ => f end.

(** A binding is served, left out, and served again with a newer version. *)
Definition exampleFences1 : fences := advanced ∅ (fencedSnapshot 1 [fencedBinding 1 1 1 1]).
Definition exampleFences2 : fences := advanced exampleFences1 (fencedSnapshot 2 []).
Definition exampleFences3 : fences :=
  advanced exampleFences2 (fencedSnapshot 3 [fencedBinding 1 2 1 2]).

Lemma advanceBindingFences_history_witness :
  ∃ new, exampleFences3 !! "b1" = Some new
         ∧ fence_le (withdrawn (bindingFenceFor (fencedBinding 1 1 1 1))) new.
Proof.
  apply (advanceBindingFences_history exampleFences2 exampleFences3 "b1").
  - apply rtc_once. exists (fencedSnapshot 3 [fencedBinding 1 2 1 2]). vm_compute. reflexivity.
  - vm_compute. reflexivity.
Defined.

Definition observedPlan (sequence : Z) (retired : bool) : PublicationPlan :=
  {| pl_ZoneUID := "zone"; pl_Apex := "corp.example"; pl_Registrations := [];
     pl_ObservationFences :=
       [{| of_ContributionUID := "c1"; of_Generation := 1; of_Sequence := sequence;
           of_Retired := retired; of_SourceName := "web" |}];
     pl_Owners := []; pl_RRSets := [] |}.

