(* ===== verification/ReservedScopes.v ===== *)
(** Which names of a private zone belong to whom:
    [internal/internaldns/model/reserved_scopes.go] and [private_records.go].

    A registration owns its name and may reserve subtrees below the apex of a managed zone.
    The scopes of a zone are all subtrees its registrations declare, and [Owner] lets a
    registration publish only if no other registration's scope meets its name or its own
    subtrees.  The theorem says that this is exclusive: a name under the subtrees of two
    registrations belongs to neither. *)

From S2P Require Import Prelude GoStrings GoCrypto GoJson Api WireModel.

(** [DNSRegistration], as the internal DNS code reads it. *)
Record DNSRegistration := {
  reg_Name : gostring;
  reg_UID : gostring;
  reg_Generation : Z;
  reg_CreationTimestamp : Z;
  reg_DeletionTimestamp : option Z;
  reg_DNSZoneRef : gostring;
  reg_OwnerName : gostring;
  reg_RecordTypes : list RRType;
  reg_TTLSeconds : Z;
  reg_ReservedDescendants : list gostring;
}.

(** What [metav1.GetControllerOf] finds on a zone. *)
Record ControllerRef := {
  ctl_APIVersion : gostring; ctl_Kind : gostring; ctl_UID : gostring }.
Record PrivateZone := { pz_Zone : DNSZone; pz_Controller : option ControllerRef }.

(** [DNSResolverContext]: the fields that name its managed namespace. *)
Record DNSResolverContext := {
  rc_UID : gostring;
  rc_ManagedEnabled : bool;
  rc_DomainSuffix : gostring;
  rc_StatusSuffix : gostring;
}.

(** The name check of apimachinery's package [validation]. *)
Class K8sValidation := { IsDNS1123Subdomain : gostring → bool }.

(** ** Managed zones *)

Definition ManagedZoneName (contextUID : gostring) : gostring :=
  "managed-" ++ take 12 (OpaqueToken contextUID).

Definition IsManagedZone (zone : PrivateZone) : bool :=
  match pz_Controller zone with
  | None => false
  | Some owner =>
      bool_decide (ctl_Kind owner = "DNSResolverContext")
      && HasPrefix (ctl_APIVersion owner) "dns.networking.miloapis.com/"
      && bool_decide (z_Name (pz_Zone zone) = ManagedZoneName (ctl_UID owner))
  end.

Section scopes.
Context `{GoRuntime} `{K8sValidation}.

(** ** Names *)

Definition scopeName (s : gostring) : gostring := ToLower (TrimSuffix (TrimSpace s) ".").

Definition Within (name subtree : gostring) : bool :=
  let name := scopeName name in
  let subtree := scopeName subtree in
  bool_decide (name = subtree) || HasSuffix name ("." ++ subtree).

Definition ZoneRelativeOwner (owner apex : gostring) : gostring :=
  let n := scopeName owner in
  let a := scopeName apex in
  if bool_decide (n = []) || bool_decide (n = "@") || bool_decide (n = a) then "@"
  else TrimSuffix n ("." ++ a).

(** ** Scopes *)

Record ReservedScope := { sc_Name : gostring; sc_RegistrationUID : gostring }.

(** [ValidateReservation]; the error names the descendant. *)
Definition ValidateReservation (reg : DNSRegistration) (apex : gostring) : result gostring unit :=
  result_iter (λ name, refuse (negb (IsDNS1123Subdomain (ZoneRelativeOwner name apex))) name)
    (reg_ReservedDescendants reg).

Definition scopeLess (a b : ReservedScope) : bool :=
  if decide (sc_Name a ≠ sc_Name b) then str_ltb (sc_Name a) (sc_Name b)
  else str_ltb (sc_RegistrationUID a) (sc_RegistrationUID b).

(** The scopes one registration of the zone declares. *)
Definition declaredScopes (zoneName apex : gostring) (reg : DNSRegistration) : list ReservedScope :=
  if bool_decide (reg_DNSZoneRef reg ≠ zoneName) || bool_decide (reg_UID reg = []) then []
  else
    (λ name, {| sc_Name := ZoneRelativeOwner name apex; sc_RegistrationUID := reg_UID reg |}) <$>
      filter (λ name, IsDNS1123Subdomain (ZoneRelativeOwner name apex) = true)
        (reg_ReservedDescendants reg).

(** [RegistrationScopes]. *)
Definition RegistrationScopes (zoneName apex : gostring) (regs : list DNSRegistration) :
    list ReservedScope :=
  sort_slice scopeLess (regs ≫= declaredScopes zoneName apex).

(** [ReservedScopes.Match]. *)
Definition Match (scopes : list ReservedScope) (owner apex : gostring) : bool :=
  let name := ZoneRelativeOwner owner apex in
  existsb (λ scope, Within name (sc_Name scope)) scopes.

(** [ReservedScopes.Owner]. *)
Definition Owner (scopes : list ReservedScope) (reg : DNSRegistration) (apex : gostring) : bool :=
  forallb (λ scope,
    bool_decide (sc_RegistrationUID scope = reg_UID reg)
    || negb (Within (ZoneRelativeOwner (reg_OwnerName reg) apex) (sc_Name scope))
       && forallb (λ name,
            let relative := ZoneRelativeOwner name apex in
            negb (Within relative (sc_Name scope) || Within (sc_Name scope) relative))
            (reg_ReservedDescendants reg)) scopes.

(** [ReservedScopes.Shadows]. *)
Definition Shadows (scopes : list ReservedScope) (domain apex : gostring) : bool :=
  existsb (λ scope,
    let root := sc_Name scope ++ "." ++ apex in
    Within domain root || Within root domain && Within domain apex) scopes.

(** [ShadowsContext]. *)
Definition ShadowsContext (zone : PrivateZone) (resolver : DNSResolverContext)
    (regs : list DNSRegistration) : bool :=
  if bool_decide (z_Visibility (pz_Zone zone) ≠ DNSZoneVisibilityPrivate)
     || negb (rc_ManagedEnabled resolver) then false
  else
    let managedName := ManagedZoneName (rc_UID resolver) in
    if bool_decide (z_Name (pz_Zone zone) = managedName) && IsManagedZone zone then false
    else existsb (λ apex, bool_decide (apex ≠ [])
           && Shadows (RegistrationScopes managedName apex regs) (z_DomainName (pz_Zone zone)) apex)
           [rc_DomainSuffix resolver; rc_StatusSuffix resolver].

(** * Exclusive ownership *)

Definition under (x subtree : gostring) : Prop := x = subtree ∨ ∃ p, x = p ++ "." ++ subtree.

Lemma Within_spec name subtree :
  Within name subtree = true ↔ under (scopeName name) (scopeName subtree).
Proof.
  unfold Within, under. rewrite orb_true_iff, bool_decide_eq_true, HasSuffix_spec. done.
Qed.

(** Two subtrees that hold the same name are nested. *)
Lemma under_nested x a b : under x a → under x b → under a b ∨ under b a.
Proof.
  assert (∀ (p q : gostring) (a b : gostring), p ++ "." ++ a = q ++ "." ++ b → length a ≤ length b →
            under b a) as Hsuffix.
  { intros p q a' b' Heq Hlen. apply (app_eq_inv p) in Heq as [(k & -> & Hk)|(k & -> & Hk)].
    - destruct k as [|c k]; cbn in Hk; simplify_eq.
      + by left.
      + right. exists k. done.
    - destruct k as [|c k]; cbn in Hk; simplify_eq; [by left|].
      rewrite length_app in Hlen. cbn in Hlen. lia. }
  intros [->|[p Hp]] [->|[q Hq]].
  - left. by left.
  - left. right. by exists q.
  - right. right. by exists p.
  - subst x. destruct (decide (length a ≤ length b)); [right|left].
    + by eapply Hsuffix.
    + eapply Hsuffix; [by symmetry|lia].
Qed.

Lemma RegistrationScopes_elem zoneName apex regs reg name :
  reg ∈ regs → reg_DNSZoneRef reg = zoneName → reg_UID reg ≠ [] →
  name ∈ reg_ReservedDescendants reg → IsDNS1123Subdomain (ZoneRelativeOwner name apex) = true →
  {| sc_Name := ZoneRelativeOwner name apex; sc_RegistrationUID := reg_UID reg |}
    ∈ RegistrationScopes zoneName apex regs.
Proof.
  intros Hreg Hzone Huid Hname Hvalid. unfold RegistrationScopes.
  rewrite sort_slice_perm, list_elem_of_bind. exists reg. split; [|done].
  unfold declaredScopes. rewrite !bool_decide_eq_false_2 by (tauto || congruence). cbn.
  apply list_elem_of_fmap. exists name. split; [done|]. by apply list_elem_of_filter.
Qed.

(** The names a registration may publish under the scopes it declared. *)
Definition reserves (reg : DNSRegistration) (apex x : gostring) : Prop :=
  ∃ name, name ∈ reg_ReservedDescendants reg
          ∧ IsDNS1123Subdomain (ZoneRelativeOwner name apex) = true
          ∧ Within x (ZoneRelativeOwner name apex) = true.

(** C27. Reserved subtrees are exclusive, and fail closed: for any two registrations of a zone
    and any name under a subtree each of them reserves, [Owner] refuses them both; and a
    registration whose own name lies under a subtree of another is refused.  It does not
    matter in which order they were created or listed. *)
Theorem Owner_exclusive zoneName apex regs r1 r2 x :
  r1 ∈ regs → r2 ∈ regs → reg_UID r1 ≠ reg_UID r2 →
  reg_DNSZoneRef r1 = zoneName → reg_DNSZoneRef r2 = zoneName →
  reg_UID r1 ≠ [] → reg_UID r2 ≠ [] →
  let scopes := RegistrationScopes zoneName apex regs in
  (reserves r1 apex x → reserves r2 apex x →
     Owner scopes r1 apex = false ∧ Owner scopes r2 apex = false)
  ∧ (reserves r2 apex (ZoneRelativeOwner (reg_OwnerName r1) apex) → Owner scopes r1 apex = false).
Proof.
  intros H1 H2 Hne Hz1 Hz2 Hu1 Hu2 scopes.
  assert (∀ r r' n, r' ∈ regs → reg_DNSZoneRef r' = zoneName → reg_UID r' ≠ [] →
    reg_UID r' ≠ reg_UID r → n ∈ reg_ReservedDescendants r' →
    IsDNS1123Subdomain (ZoneRelativeOwner n apex) = true →
    (Within (ZoneRelativeOwner (reg_OwnerName r) apex) (ZoneRelativeOwner n apex) = true
     ∨ ∃ m, m ∈ reg_ReservedDescendants r ∧
         (Within (ZoneRelativeOwner m apex) (ZoneRelativeOwner n apex) = true
          ∨ Within (ZoneRelativeOwner n apex) (ZoneRelativeOwner m apex) = true)) →
    Owner scopes r apex = false) as Hrefused.
  { intros r r' n Hr' Hz' Hu' Hdiff Hn Hvalid Hmeet. apply not_true_iff_false. unfold Owner.
    rewrite forallb_forall. intros Hall.
    specialize (Hall _ (proj1 (list_elem_of_In _ _) (RegistrationScopes_elem _ _ _ _ _ Hr' Hz' Hu' Hn Hvalid))).
    cbn in Hall. rewrite bool_decide_eq_false_2 in Hall by done. cbn in Hall.
    apply andb_true_iff in Hall as [Hname%negb_true_iff Hdesc].
    destruct Hmeet as [Hm|(m & Hm & Hov)]; [congruence|].
    rewrite forallb_forall in Hdesc. specialize (Hdesc m (proj1 (list_elem_of_In _ _) Hm)).
    apply negb_true_iff, orb_false_iff in Hdesc as [? ?]. destruct Hov; congruence. }
  split.
  - intros (n1 & Hn1 & Hv1 & Hx1) (n2 & Hn2 & Hv2 & Hx2). rewrite Within_spec in Hx1, Hx2.
    assert (Within (ZoneRelativeOwner n1 apex) (ZoneRelativeOwner n2 apex) = true
            ∨ Within (ZoneRelativeOwner n2 apex) (ZoneRelativeOwner n1 apex) = true) as Hnest.
    { rewrite !Within_spec. by eapply under_nested. }
    split; [apply (Hrefused r1 r2 n2)|apply (Hrefused r2 r1 n1)]; auto; right; [exists n1|exists n2];
      (split; [done|tauto]).
  - intros (n2 & Hn2 & Hv2 & Hx). apply (Hrefused r1 r2 n2); auto.
Qed.
End scopes.

(** * Witness *)

#[local] Existing Instance reference_runtime.

Definition reference_validation : K8sValidation := {|
  IsDNS1123Subdomain := λ s,
    forallb (λ c, isLower c || isDigit c || Ascii.eqb c "-" || Ascii.eqb c ".") s
    && negb (bool_decide (s = [])) |}.
#[local] Existing Instance reference_validation.

Definition exampleRegistration (uid name : gostring) (reserved : list gostring) : DNSRegistration :=
  {| reg_Name := uid; reg_UID := uid; reg_Generation := 1; reg_CreationTimestamp := 0;
     reg_DeletionTimestamp := None; reg_DNSZoneRef := "managed"; reg_OwnerName := name;
     reg_RecordTypes := [RRTypeA]; reg_TTLSeconds := 30; reg_ReservedDescendants := reserved |}.

(** One service reserves a subtree, the other a subtree of it. *)
Lemma Owner_exclusive_witness :
  let regs := [exampleRegistration "r1" "gw" ["svc.cluster"];
               exampleRegistration "r2" "web" ["db.svc.cluster.corp.example"]] in
  let scopes := RegistrationScopes "managed" "corp.example" regs in
  Owner scopes (exampleRegistration "r1" "gw" ["svc.cluster"]) "corp.example" = false
  ∧ Owner scopes (exampleRegistration "r2" "web" ["db.svc.cluster.corp.example"]) "corp.example"
    = false.
Proof.
  cbv zeta.
  apply (Owner_exclusive "managed" "corp.example"
           [exampleRegistration "r1" "gw" ["svc.cluster"];
            exampleRegistration "r2" "web" ["db.svc.cluster.corp.example"]]
           (exampleRegistration "r1" "gw" ["svc.cluster"])
           (exampleRegistration "r2" "web" ["db.svc.cluster.corp.example"])
           "a.db.svc.cluster"); try discriminate; try reflexivity.
  - apply list_elem_of_In. left. reflexivity.
  - apply list_elem_of_In. right. left. reflexivity.
  - exists "svc.cluster". split; [apply list_elem_of_In; left; reflexivity|].
    split; vm_compute; reflexivity.
  - exists "db.svc.cluster.corp.example". split; [apply list_elem_of_In; left; reflexivity|].
    split; vm_compute; reflexivity.
Defined.
