(* ===== verification/Compile.v ===== *)
(** The compiler of private zones: [internal/internaldns/controlplane/compiler.go],
    [wire.go] and [references.go].

    [Compile] takes the registrations, contributions and record sets of a zone and the plan
    published before, decides which of them hold which names, and builds the plan to publish:
    the owned names, the RRsets and the fences of registrations and contributions.  [WirePlan]
    turns it into the plan of [WireModel].  Reasons are the strings the code reports. *)

From S2P Require Import Prelude GoStrings Api ApiMeta RdataRender GoJson WireModel ReservedScopes.

#[global] Program Instance RRType_countable : Countable RRType :=
  inj_countable RRTypeString
    (λ s, snd <$> list_find (λ t, RRTypeString t = s)
       [RRTypeA; RRTypeAAAA; RRTypeALIAS; RRTypeCNAME; RRTypeTXT; RRTypeMX; RRTypeSRV;
        RRTypeCAA; RRTypeNS; RRTypeSOA; RRTypePTR; RRTypeTLSA; RRTypeHTTPS; RRTypeSVCB]) _.
Next Obligation. by intros []. Qed.

(** ** Objects *)

Record DNSObjectReference := { or_Name : gostring; or_UID : gostring; or_Generation : Z }.
Definition zeroReference : DNSObjectReference :=
  {| or_Name := []; or_UID := []; or_Generation := 0 |}.

Record DNSContributionRecordSet := {
  crs_RecordType : RRType; crs_Records : list RecordEntry }.

(** [DNSRecordContribution]: the fields the compiler reads. *)
Record DNSRecordContribution := {
  con_Name : gostring;
  con_UID : gostring;
  con_Generation : Z;
  con_DeletionTimestamp : option Z;
  con_RegistrationRef : DNSObjectReference;
  con_RecordSets : list DNSContributionRecordSet;
  con_Eligible : bool;
}.

Record DNSZoneAssociation := {
  assoc_UID : gostring;
  assoc_Generation : Z;
  assoc_DeletionTimestamp : option Z;
  assoc_Conditions : list Condition;
}.

Record associationReferences := { ar_Zone : DNSObjectReference; ar_Context : DNSObjectReference }.

(** ** The plan *)

Record PublicationOwner := {
  po_Name : gostring;
  po_RecordTypes : list RRType;
  po_RegistrationUID : gostring;
  po_StaticRecordUID : gostring;
}.

Record PublicationRRSet := {
  ps_Name : gostring;
  ps_RecordType : RRType;
  ps_TTLSeconds : Z;
  ps_Records : list RecordEntry;
  ps_ContributionUIDs : list gostring;
}.

Record ContributionFence := {
  fe_UID : gostring;
  fe_Generation : Z;
  fe_Sequence : Z;
  fe_Retired : bool;
  fe_SourceName : gostring;
}.
Definition zeroFence : ContributionFence :=
  {| fe_UID := []; fe_Generation := 0; fe_Sequence := 0; fe_Retired := false;
     fe_SourceName := [] |}.

Record RegistrationFence := { rgf_UID : gostring; rgf_Generation : Z }.

Record PublicationPlan := {
  pp_ZoneUID : gostring;
  pp_ZoneApex : gostring;
  pp_ContextUIDs : list gostring;
  pp_Owners : list PublicationOwner;
  pp_RRsets : list PublicationRRSet;
  pp_Contributions : list ContributionFence;
  pp_Registrations : list RegistrationFence;
}.

Record CompileInput := {
  in_Zone : option PrivateZone;
  in_Associations : list DNSZoneAssociation;
  in_AssociationReferences : gmap gostring associationReferences;
  in_RegistrationZoneReferences : gmap gostring DNSObjectReference;
  in_Registrations : list DNSRegistration;
  in_Contributions : list DNSRecordContribution;
  in_StaticRecords : list DNSRecordSet;
  in_Previous : option PublicationPlan;
}.

(** [Accepted] holds [true] only; a reason that is absent reads as the empty string. *)
Abbreviation reasonMap := (gmap gostring gostring).
Definition reasonOf (m : reasonMap) (uid : gostring) : gostring := default [] (m !! uid).

Record CompileResult := {
  res_Plan : PublicationPlan;
  res_Accepted : gset gostring;
  res_Reasons : reasonMap;
}.

Inductive CompileError := EMissingZone | ENotPrivate (name : gostring).

Abbreviation ownershipKey := (gostring * RRType)%type.
Abbreviation claimMap := (gmap ownershipKey gostring).

(** The records of one name and type, and the contributions they come from. *)
Record aggregate := { ag_ttl : Z; ag_records : list RecordEntry; ag_uids : list gostring }.
Abbreviation aggregateMap := (gmap ownershipKey aggregate).

Definition isErr {E A} (r : result E A) : bool := match r with Ok _ => false | Err _ => true end.

(** ** Names *)

Section names.
Context `{GoRuntime}.

Definition canonicalName (s : gostring) : gostring := ToLower (TrimSuffix (TrimSpace s) ".").

Definition refMatches (ref : DNSObjectReference) (name uid : gostring) (generation : Z) : bool :=
  bool_decide (or_Name ref = name) && (bool_decide (or_UID ref ≠ []) && bool_decide (or_UID ref = uid))
  && ((or_Generation ref =? 0)%Z || (or_Generation ref =? generation)%Z).

Definition zoneOwner (s apex : gostring) : gostring :=
  let n := canonicalName s in
  let a := canonicalName apex in
  if decide (n = a) then "@"
  else if HasSuffix n ("." ++ a) then TrimSuffix n ("." ++ a)
  else n.

Definition absoluteOwner (name apex : gostring) : gostring :=
  let name := canonicalName name in
  let apex := canonicalName apex in
  if decide (name = "@") then apex
  else if bool_decide (name = apex) || HasSuffix name ("." ++ apex) then name
  else name ++ "." ++ apex.

Definition srvTargetOwner (name apex : gostring) : gostring :=
  if HasSuffix (TrimSpace name) "." then canonicalName name else absoluteOwner name apex.

(** ** Claims *)

Definition conflictingClaim (claims : claimMap) (key : ownershipKey) : option gostring :=
  match claims !! key with
  | Some uid => Some uid
  | None =>
      if decide (key.2 = RRTypeCNAME)
      then snd <$> head (filter (λ kv, kv.1.1 = key.1) (map_range claims))
      else claims !! (key.1, RRTypeCNAME)
  end.

(** [old, ok := conflictingClaim(claims, key); ok && old != uid]. *)
Definition heldByOther (claims : claimMap) (key : ownershipKey) (uid : gostring) : bool :=
  match conflictingClaim claims key with Some old => bool_decide (old ≠ uid) | None => false end.

(** The loop over the reserved descendants in [registrationOwns] and [recordAllowed]. *)
Definition descendantOf (reg : DNSRegistration) (name apex : gostring) : bool :=
  existsb (λ scope, let s := zoneOwner scope apex in
             bool_decide (name = s) || HasSuffix name ("." ++ s)) (reg_ReservedDescendants reg).

Definition registrationOwns (reg : DNSRegistration) (key : ownershipKey) (apex : gostring)
    (claims : claimMap) : bool :=
  if heldByOther claims key (reg_UID reg) then false
  else if decide (key.1 = zoneOwner (reg_OwnerName reg) apex) then true
  else descendantOf reg key.1 apex.

Definition containsType (xs : list RRType) (x : RRType) : bool :=
  existsb (λ v, bool_decide (v = x)) xs.

Definition recordAllowed (reg : DNSRegistration) (key : ownershipKey) (apex : gostring) : bool :=
  if negb (containsType (reg_RecordTypes reg) key.2) then false
  else bool_decide (key.1 = zoneOwner (reg_OwnerName reg) apex) || descendantOf reg key.1 apex.

Definition typeLess (a b : RRType) : bool := str_ltb (RRTypeString a) (RRTypeString b).
Definition uniqueTypes (xs : list RRType) : list RRType :=
  sort_slice typeLess
    (foldl (λ out x, if decide (x ∈ out) then out else out ++ [x]) [] xs).

(** ** Associations and the zone *)

Context `{ApiMeta}.

Definition associationAccepted (a : DNSZoneAssociation) : bool :=
  bool_decide (assoc_DeletionTimestamp a = None)
  && match FindStatusCondition (assoc_Conditions a) "Accepted" with
     | None => false
     | Some c => bool_decide (c_Status c = ConditionTrue)
                 && (c_ObservedGeneration c =? assoc_Generation a)%Z
     end.
Definition associationMatchesZone (a : DNSZoneAssociation) (z : DNSZone)
    (refs : associationReferences) : bool :=
  associationAccepted a && refMatches (ar_Zone refs) (z_Name z) (z_UID z) (z_Generation z).

Definition associatedContextUIDs (zone : DNSZone) (associations : list DNSZoneAssociation)
    (references : gmap gostring associationReferences) : list gostring :=
  let contexts : gset gostring :=
    foldl (λ contexts a,
      let refs := default {| ar_Zone := zeroReference; ar_Context := zeroReference |}
                    (references !! assoc_UID a) in
      let consumerUID := or_UID (ar_Context refs) in
      if associationMatchesZone a zone refs && bool_decide (consumerUID ≠ [])
      then {[consumerUID]} ∪ contexts else contexts) ∅ associations in
  sort_slice str_ltb (elements contexts).

Definition validatePrivateZone (zone : option PrivateZone) : result CompileError PrivateZone :=
  match zone with
  | None => Err EMissingZone
  | Some z =>
      if decide (z_UID (pz_Zone z) = []) then Err EMissingZone
      else if decide (z_Visibility (pz_Zone z) ≠ DNSZoneVisibilityPrivate) then Err (ENotPrivate (z_Name (pz_Zone z)))
      else Ok z
  end.
End names.

(** ** Encoding of record entries, by which an RRset is sorted *)

Section entries.
Context `{GoRuntime}.

Definition ContentSpec_json (s : ContentSpec) : json := JObj [("content", JStr (Content s))].
Definition HTTPSRecordSpec_json (s : HTTPSRecordSpec) : json := JObj
  ([("priority", JNum (https_Priority s)); ("target", JStr (https_Target s))]
   ++ omitempty (bool_decide (https_Params s = ∅)) "params"
        (JObj ((λ k, (k, JStr (default [] (https_Params s !! k))))
               <$> sortStrings (elements (dom (https_Params s)))))).
Definition SOARecordSpec_json (s : SOARecordSpec) : json := JObj
  ([("mname", JStr (soa_MName s)); ("rname", JStr (soa_RName s))]
   ++ omitempty (soa_Serial s =? 0)%Z "serial" (JNum (soa_Serial s))
   ++ omitempty (soa_Refresh s =? 0)%Z "refresh" (JNum (soa_Refresh s))
   ++ omitempty (soa_Retry s =? 0)%Z "retry" (JNum (soa_Retry s))
   ++ omitempty (soa_Expire s =? 0)%Z "expire" (JNum (soa_Expire s))
   ++ omitempty (soa_TTL s =? 0)%Z "ttl" (JNum (soa_TTL s))).

(** A pointer field with [omitempty]. *)
Definition optionalField {A} (k : gostring) (f : A → json) (o : option A) : list (gostring * json) :=
  match o with None => [] | Some a => [(k, f a)] end.

Definition RecordEntry_json (e : RecordEntry) : json := JObj
  ([("name", JStr (re_Name e))]
   ++ optionalField "ttl" JNum (re_TTL e)
   ++ optionalField "a" ContentSpec_json (re_A e)
   ++ optionalField "aaaa" ContentSpec_json (re_AAAA e)
   ++ optionalField "cname" ContentSpec_json (re_CNAME e)
   ++ optionalField "alias" ContentSpec_json (re_ALIAS e)
   ++ optionalField "ns" ContentSpec_json (re_NS e)
   ++ optionalField "txt" ContentSpec_json (re_TXT e)
   ++ optionalField "soa" SOARecordSpec_json (re_SOA e)
   ++ optionalField "caa" (λ s, JObj [("flag", JNum (caa_Flag s)); ("tag", JStr (caa_Tag s));
                                      ("value", JStr (caa_Value s))]) (re_CAA e)
   ++ optionalField "mx" (λ s, JObj [("preference", JNum (mx_Preference s));
                                     ("exchange", JStr (mx_Exchange s))]) (re_MX e)
   ++ optionalField "srv" (λ s, JObj [("priority", JNum (srv_Priority s));
                                      ("weight", JNum (srv_Weight s)); ("port", JNum (srv_Port s));
                                      ("target", JStr (srv_Target s))]) (re_SRV e)
   ++ optionalField "tlsa" (λ s, JObj [("usage", JNum (tlsa_Usage s));
                                       ("selector", JNum (tlsa_Selector s));
                                       ("matchingType", JNum (tlsa_MatchingType s));
                                       ("certData", JStr (tlsa_CertData s))]) (re_TLSA e)
   ++ optionalField "https" HTTPSRecordSpec_json (re_HTTPS e)
   ++ optionalField "svcb" HTTPSRecordSpec_json (re_SVCB e)
   ++ optionalField "ptr" ContentSpec_json (re_PTR e)).

Definition entryText (e : RecordEntry) : gostring := encode (RecordEntry_json e).

Definition sortRecords (records : list RecordEntry) : list RecordEntry :=
  sort_slice (λ a b, str_ltb (entryText a) (entryText b)) records.
Definition sortAggregate (records : list RecordEntry) (uids : list gostring) :
    list RecordEntry * list gostring :=
  if (length uids =? length records)%nat
  then
    let key p := entryText p.1 ++ "000"%char :: p.2 in
    let pairs := sort_slice (λ a b, str_ltb (key a) (key b)) (zip records uids) in
    (pairs.*1, pairs.*2)
  else (sortRecords records, uids).
End entries.

(** ** Static records *)

Section compile.
Context `{GoRuntime, ApiMeta, K8sValidation}.
(** The day [rdata.Render] writes into an SOA without a serial. *)
Variable today : gostring.

Definition recordContent (t : RRType) (e : RecordEntry) : result unit gostring :=
  let content := Render today t e in
  if decide (content = []) then Err tt else Ok content.

(** The variables [collectStaticClaims] reads and writes. *)
Record StaticState := {
  ss_claims : claimMap;
  ss_staticClaim : claimMap;
  ss_reasons : reasonMap;
  ss_valid : gset gostring;
  ss_ttls : gmap ownershipKey Z;
}.

(** One record of a record set: the reason it is refused for, or its claim added to the
    pending ones. *)
Definition claimStatic (zone : DNSZone) (scopes : list ReservedScope) (apex : gostring)
    (claims : claimMap) (rs : DNSRecordSet) (pending : gmap ownershipKey Z) (record : RecordEntry) :
    result gostring (gmap ownershipKey Z) :=
  let key := (zoneOwner (re_Name record) apex, rs_RecordType rs) in
  _ ← refuse (isErr (ValidatePrivateRecordOwner key.1 apex (RRTypeString key.2)))
        "UnsupportedPrivateRecord";
  _ ← refuse (Match scopes (re_Name record) (z_DomainName zone)) "ReservedScope";
  _ ← refuse (isErr (recordContent (rs_RecordType rs) record)) "InvalidRecord";
  let ttl := default 300%Z (re_TTL record) in
  _ ← refuse ((ttl <? 0)%Z || (2147483647 <? ttl)%Z) "InvalidTTL";
  _ ← refuse (match pending !! key with Some previous => negb (previous =? ttl)%Z | None => false end)
        "ConflictingTTL";
  _ ← refuse (heldByOther claims key (rs_UID rs)) "NameConflict";
  Ok (<[key := ttl]> pending).

Definition addStatic (zone : DNSZone) (scopes : list ReservedScope) (apex : gostring)
    (st : StaticState) (rs : DNSRecordSet) : StaticState :=
  if bool_decide (rs_DNSZoneRef rs ≠ z_Name zone) || bool_decide (rs_DeletionTimestamp rs ≠ None)
     || bool_decide (reasonOf (ss_reasons st) (rs_UID rs) ≠ [])
  then st
  else
    match result_fold (claimStatic zone scopes apex (ss_claims st) rs) ∅ (rs_Records rs) with
    | Err reason =>
        {| ss_claims := ss_claims st; ss_staticClaim := ss_staticClaim st;
           ss_reasons := <[rs_UID rs := reason]> (ss_reasons st); ss_valid := ss_valid st;
           ss_ttls := ss_ttls st |}
    | Ok pending =>
        let mine : claimMap := (λ _, rs_UID rs) <$> pending in
        {| ss_claims := mine ∪ ss_claims st; ss_staticClaim := mine ∪ ss_staticClaim st;
           ss_reasons := ss_reasons st; ss_valid := {[rs_UID rs]} ∪ ss_valid st;
           ss_ttls := pending ∪ ss_ttls st |}
    end.

(** Oldest first, then by UID. *)
Definition staticLess : DNSRecordSet → DNSRecordSet → bool :=
  lexLess rs_CreationTimestamp Z.ltb (λ a b, str_ltb (rs_UID a) (rs_UID b)).

(** The reserved scopes, of managed zones only. *)
Definition zoneScopes (inp : CompileInput) (zone : PrivateZone) : list ReservedScope :=
  if IsManagedZone zone
  then RegistrationScopes (z_Name (pz_Zone zone)) (z_DomainName (pz_Zone zone)) (in_Registrations inp)
  else [].

Definition collectStaticClaims (inp : CompileInput) (zone : PrivateZone) (apex : gostring)
    (rejected : reasonMap) : StaticState :=
  foldl (addStatic (pz_Zone zone) (zoneScopes inp zone) apex)
    {| ss_claims := ∅; ss_staticClaim := ∅; ss_reasons := rejected; ss_valid := ∅; ss_ttls := ∅ |}
    (sort_slice staticLess (in_StaticRecords inp)).

(** ** Registrations *)

(** [DNSRegistrationMaxTTLSeconds]. *)
Definition DNSRegistrationMaxTTLSeconds : Z := 30.

Record RegistrationState := {
  gs_claims : claimMap;
  gs_regs : gmap gostring DNSRegistration;
  gs_accepted : gset gostring;
  gs_reasons : reasonMap;
  gs_fences : list RegistrationFence;
}.

Definition refuseRegistration (st : RegistrationState) (reg : DNSRegistration) (reason : gostring) :
    RegistrationState :=
  {| gs_claims := gs_claims st; gs_regs := gs_regs st; gs_accepted := gs_accepted st;
     gs_reasons := <[reg_UID reg := reason]> (gs_reasons st); gs_fences := gs_fences st |}.

Definition acceptRegistration (st : RegistrationState) (reg : DNSRegistration) (name : gostring) :
    RegistrationState :=
  {| gs_claims := foldl (λ claims rt, <[(name, rt) := reg_UID reg]> claims) (gs_claims st)
                    (uniqueTypes (reg_RecordTypes reg));
     gs_regs := <[reg_UID reg := reg]> (gs_regs st);
     gs_accepted := {[reg_UID reg]} ∪ gs_accepted st;
     gs_reasons := gs_reasons st;
     gs_fences := gs_fences st ++ [{| rgf_UID := reg_UID reg; rgf_Generation := reg_Generation reg |}] |}.

(** The checks on a registration before its claims: [None] is the silent [continue] on a
    registration of another zone. *)
Definition registrationFault (inp : CompileInput) (zone : PrivateZone) (apex : gostring)
    (reg : DNSRegistration) : option gostring :=
  let z := pz_Zone zone in
  if decide (reg_DeletionTimestamp reg ≠ None) then Some "Terminating"
  else if (reg_TTLSeconds reg <? 1)%Z || (DNSRegistrationMaxTTLSeconds <? reg_TTLSeconds reg)%Z
  then Some "InvalidTTL"
  else if decide (reg_DNSZoneRef reg ≠ z_Name z) then None
  else if decide (reg_UID reg = []) then Some "MissingUID"
  else if negb (refMatches (default zeroReference (in_RegistrationZoneReferences inp !! reg_UID reg))
                  (z_Name z) (z_UID z) (z_Generation z)) then Some "InvalidReference"
  else if negb (Owner (zoneScopes inp zone) reg apex) then Some "ReservedScope"
  else if IsManagedZone zone && isErr (ValidateReservation reg apex) then Some "InvalidReservation"
  else if existsb (λ rt, isErr (ValidatePrivateRecordOwner (zoneOwner (reg_OwnerName reg) apex) apex
                                  (RRTypeString rt))) (reg_RecordTypes reg)
  then Some "UnsupportedPrivateRecord"
  else Some [].

Definition addRegistration (inp : CompileInput) (zone : PrivateZone) (apex : gostring)
    (st : RegistrationState) (reg : DNSRegistration) : RegistrationState :=
  match registrationFault inp zone apex reg with
  | None => st
  | Some [] =>
      let name := zoneOwner (reg_OwnerName reg) apex in
      let st := if existsb (λ rt, heldByOther (gs_claims st) (name, rt) (reg_UID reg))
                     (uniqueTypes (reg_RecordTypes reg))
                then refuseRegistration st reg "NameConflict" else st in
      if decide (reasonOf (gs_reasons st) (reg_UID reg) = []) then acceptRegistration st reg name
      else st
  | Some reason => refuseRegistration st reg reason
  end.

Definition registrationLess : DNSRegistration → DNSRegistration → bool :=
  lexLess reg_CreationTimestamp Z.ltb (λ a b, str_ltb (reg_UID a) (reg_UID b)).

Definition claimRegistrations (inp : CompileInput) (zone : PrivateZone) (apex : gostring)
    (static : StaticState) : RegistrationState :=
  foldl (addRegistration inp zone apex)
    {| gs_claims := ss_claims static; gs_regs := ∅; gs_accepted := ss_valid static;
       gs_reasons := ss_reasons static; gs_fences := [] |}
    (sort_slice registrationLess (in_Registrations inp)).

(** The owned names, in order. *)
Definition keyLess : ownershipKey → ownershipKey → bool :=
  lexLess fst str_ltb (λ a b, typeLess a.2 b.2).
Definition ownerOf (claims staticClaim : claimMap) (key : ownershipKey) : PublicationOwner :=
  match staticClaim !! key with
  | Some uid => {| po_Name := key.1; po_RecordTypes := [key.2]; po_RegistrationUID := [];
                   po_StaticRecordUID := uid |}
  | None => {| po_Name := key.1; po_RecordTypes := [key.2];
               po_RegistrationUID := default [] (claims !! key); po_StaticRecordUID := [] |}
  end.
Definition ownersOf (claims staticClaim : claimMap) : list PublicationOwner :=
  ownerOf claims staticClaim <$> sort_slice keyLess (map_range claims).*1.

(** ** Contributions *)

Definition validateContribution (c : DNSRecordContribution) (reg : option DNSRegistration)
    (previous : ContributionFence) : gostring :=
  match reg with
  | None => "StaleRegistrationGeneration"
  | Some reg =>
      if decide (or_Name (con_RegistrationRef c) ≠ reg_Name reg)
      then "StaleRegistrationGeneration"
      else if negb (or_Generation (con_RegistrationRef c) =? reg_Generation reg)%Z
      then "StaleRegistrationGeneration"
      else if fe_Retired previous then "RetiredContribution"
      else if (con_Generation c <? 1)%Z then "InvalidContributionGeneration"
      else if bool_decide (fe_UID previous ≠ []) && (con_Generation c <? fe_Generation previous)%Z
      then "StaleContributionGeneration"
      else []
  end.

(** [previousSeq], and the fences a publication starts from: an absent contribution is
    retired. *)
Definition previousFences (previous : option PublicationPlan) : gmap gostring ContributionFence :=
  match previous with
  | None => ∅
  | Some plan => foldl (λ m f, <[fe_UID f := f]> m) ∅ (pp_Contributions plan)
  end.
Definition retire (f : ContributionFence) : ContributionFence :=
  {| fe_UID := fe_UID f; fe_Generation := fe_Generation f; fe_Sequence := fe_Sequence f;
     fe_Retired := true; fe_SourceName := fe_SourceName f |}.
Definition carriedFences (previousSeq : gmap gostring ContributionFence)
    (contributions : list DNSRecordContribution) : gmap gostring ContributionFence :=
  map_imap (λ uid f, Some (if decide (uid ∈ con_UID <$> contributions) then f else retire f))
    previousSeq.

Definition currentFence (c : DNSRecordContribution) : ContributionFence :=
  {| fe_UID := con_UID c; fe_Generation := con_Generation c; fe_Sequence := con_Generation c;
     fe_Retired := bool_decide (con_DeletionTimestamp c ≠ None); fe_SourceName := con_Name c |}.

(** The record added to the aggregate of its name and type, which it makes if there is none. *)
Definition addRecord (apex : gostring) (rt : RRType) (ttl : ownershipKey → Z) (uid : option gostring)
    (aggs : aggregateMap) (record : RecordEntry) : aggregateMap :=
  let key := (zoneOwner (re_Name record) apex, rt) in
  let a := default {| ag_ttl := ttl key; ag_records := []; ag_uids := [] |} (aggs !! key) in
  <[key := {| ag_ttl := ag_ttl a; ag_records := ag_records a ++ [set_Name key.1 record];
              ag_uids := ag_uids a ++ option_list uid |}]> aggs.

Definition validRecord (reg : DNSRegistration) (apex : gostring) (claims : claimMap) (rt : RRType)
    (record : RecordEntry) : bool :=
  let key := (zoneOwner (re_Name record) apex, rt) in
  negb (isErr (ValidatePrivateRecordOwner key.1 apex (RRTypeString rt)))
  && registrationOwns reg key apex claims && recordAllowed reg key apex
  && negb (isErr (recordContent rt record)).
Definition validBundle (reg : DNSRegistration) (apex : gostring) (claims : claimMap)
    (c : DNSRecordContribution) : bool :=
  forallb (λ set, bool_decide (crs_Records set ≠ []) && containsType (reg_RecordTypes reg) (crs_RecordType set)
                  && forallb (validRecord reg apex claims (crs_RecordType set)) (crs_Records set))
    (con_RecordSets c).

Record ContributionState := {
  cs_fences : gmap gostring ContributionFence;
  cs_accepted : gset gostring;
  cs_reasons : reasonMap;
  cs_aggregates : aggregateMap;
}.

Definition refuseContribution (st : ContributionState) (c : DNSRecordContribution)
    (reason : gostring) : ContributionState :=
  {| cs_fences := cs_fences st; cs_accepted := cs_accepted st;
     cs_reasons := <[con_UID c := reason]> (cs_reasons st); cs_aggregates := cs_aggregates st |}.

(** The fence of a contribution that passed [validateContribution]. *)
Definition advanceContribution (previousSeq : gmap gostring ContributionFence)
    (st : ContributionState) (c : DNSRecordContribution) : ContributionState :=
  let previousFence := default zeroFence (previousSeq !! con_UID c) in
  let fence := currentFence c in
  {| cs_fences :=
       if bool_decide (fe_UID previousFence = [])
          || (fe_Generation previousFence <? fe_Generation fence)%Z || fe_Retired fence
       then <[con_UID c := fence]> (cs_fences st) else cs_fences st;
     cs_accepted := cs_accepted st; cs_reasons := cs_reasons st;
     cs_aggregates := cs_aggregates st |}.

Definition acceptContribution (apex : gostring) (st : ContributionState) (reg : DNSRegistration)
    (c : DNSRecordContribution) : ContributionState :=
  {| cs_fences := cs_fences st; cs_accepted := {[con_UID c]} ∪ cs_accepted st;
     cs_reasons := cs_reasons st;
     cs_aggregates :=
       foldl (λ aggs set,
         foldl (addRecord apex (crs_RecordType set) (λ _, reg_TTLSeconds reg) (Some (con_UID c)))
           aggs (crs_Records set)) (cs_aggregates st) (con_RecordSets c) |}.

Definition addContribution (apex : gostring) (claims : claimMap) (regs : gmap gostring DNSRegistration)
    (previousSeq : gmap gostring ContributionFence) (rejected : reasonMap)
    (st : ContributionState) (c : DNSRecordContribution) : ContributionState :=
  let reg := regs !! or_UID (con_RegistrationRef c) in
  match validateContribution c reg (default zeroFence (previousSeq !! con_UID c)), reg with
  | [], Some reg =>
      let st := advanceContribution previousSeq st c in
      if decide (reasonOf rejected (con_UID c) ≠ []) then st
      else if decide (con_DeletionTimestamp c ≠ None) then refuseContribution st c "Terminating"
      else if negb (con_Eligible c) then refuseContribution st c "Ineligible"
      else if negb (validBundle reg apex claims c)
      then refuseContribution st c "NameOrTypeOutsideRegistration"
      else acceptContribution apex st reg c
  | reason, _ => refuseContribution st c reason
  end.

(** ** The plan *)

(** The records of the accepted record sets, added after the contributions. *)
Definition addStaticRecords (zone : DNSZone) (apex : gostring) (static : StaticState)
    (aggs : aggregateMap) (rs : DNSRecordSet) : aggregateMap :=
  if bool_decide (rs_DNSZoneRef rs ≠ z_Name zone) || bool_decide (rs_UID rs ∉ ss_valid static)
  then aggs
  else foldl (addRecord apex (rs_RecordType rs) (λ key, default 0%Z (ss_ttls static !! key)) None)
         aggs (rs_Records rs).

Definition rrsetOf (kv : ownershipKey * aggregate) : PublicationRRSet :=
  let '(key, a) := kv in
  let '(records, uids) := sortAggregate (ag_records a) (ag_uids a) in
  {| ps_Name := key.1; ps_RecordType := key.2; ps_TTLSeconds := ag_ttl a; ps_Records := records;
     ps_ContributionUIDs := uids |}.
Definition publicationLess (a b : PublicationRRSet) : bool :=
  keyLess (ps_Name a, ps_RecordType a) (ps_Name b, ps_RecordType b).

Definition claimContributions (inp : CompileInput) (apex : gostring) (regs : RegistrationState)
    (rejected : reasonMap) : ContributionState :=
  let previousSeq := previousFences (in_Previous inp) in
  foldl (addContribution apex (gs_claims regs) (gs_regs regs) previousSeq rejected)
    {| cs_fences := carriedFences previousSeq (in_Contributions inp); cs_accepted := gs_accepted regs;
       cs_reasons := gs_reasons regs; cs_aggregates := ∅ |}
    (in_Contributions inp).

Definition compileInputs (inp : CompileInput) (rejected : reasonMap) : result CompileError CompileResult :=
  zone ← validatePrivateZone (in_Zone inp);
  let z := pz_Zone zone in
  let apex := canonicalName (z_DomainName z) in
  let static := collectStaticClaims inp zone apex rejected in
  let regs := claimRegistrations inp zone apex static in
  let cons := claimContributions inp apex regs rejected in
  let aggs := foldl (addStaticRecords z apex static) (cs_aggregates cons) (in_StaticRecords inp) in
  Ok {| res_Plan := {|
          pp_ZoneUID := z_UID z; pp_ZoneApex := apex;
          pp_ContextUIDs := associatedContextUIDs z (in_Associations inp) (in_AssociationReferences inp);
          pp_Owners := ownersOf (gs_claims regs) (ss_staticClaim static);
          pp_RRsets := sort_slice publicationLess (rrsetOf <$> map_range aggs);
          pp_Contributions := sort_slice (λ a b, str_ltb (fe_UID a) (fe_UID b))
                                (map_range (cs_fences cons)).*2;
          pp_Registrations := sort_slice (λ a b, str_ltb (rgf_UID a) (rgf_UID b)) (gs_fences regs) |};
        res_Accepted := cs_accepted cons; res_Reasons := cs_reasons cons |}.

(** ** SRV targets *)

Definition isAddressType (t : RRType) : bool :=
  bool_decide (t = RRTypeA) || bool_decide (t = RRTypeAAAA).
Definition planAddresses (plan : PublicationPlan) : gset gostring :=
  list_to_set ((λ set, absoluteOwner (ps_Name set) (pp_ZoneApex plan))
               <$> filter (λ set, isAddressType (ps_RecordType set) = true) (pp_RRsets plan)).

(** Whom an SRV entry without an address for its target is charged to. *)
Definition srvSources (plan : PublicationPlan) (set : PublicationRRSet) (i : nat)
    (entry : RecordEntry) : list gostring :=
  match re_SRV entry with
  | None => []
  | Some srv =>
      if decide (srvTargetOwner (srv_Target srv) (pp_ZoneApex plan) ∈ planAddresses plan) then []
      else
        match ps_ContributionUIDs set !! i with
        | Some uid => [uid]
        | None =>
            po_StaticRecordUID <$>
              filter (λ o, po_Name o = ps_Name set ∧ po_StaticRecordUID o ≠ []) (pp_Owners plan)
        end
  end.
Definition invalidSRVSources (plan : PublicationPlan) : gset gostring :=
  list_to_set (pp_RRsets plan ≫= λ set,
    if decide (ps_RecordType set = RRTypeSRV)
    then mjoin (imap (srvSources plan set) (ps_Records set)) else []).

(** The loop of [Compile]; it ends within one round per source. *)
Fixpoint compileLoop (fuel : nat) (inp : CompileInput) (rejected : reasonMap) :
    option (result CompileError CompileResult) :=
  match fuel with
  | O => None
  | S fuel' =>
      match compileInputs inp rejected with
      | Err e => Some (Err e)
      | Ok r =>
          let invalid := invalidSRVSources (res_Plan r) in
          if decide (invalid = ∅) then Some (Ok r)
          else compileLoop fuel' inp
                 (set_fold (λ uid m, <[uid := ("MissingSRVTargetAddress" : gostring)]> m) rejected invalid)
      end
  end.
Definition Compile (inp : CompileInput) : option (result CompileError CompileResult) :=
  compileLoop (S (length (in_Contributions inp) + length (in_StaticRecords inp))) inp ∅.

(** ** The wire plan *)

Context `{MiekgDNS}.

Inductive WirePlanError := ENegativeTTL | ENoValue | EPlan (e : WireError).

Definition uint64 (z : Z) : Z := (z mod 2 ^ 64)%Z.

Definition wireRecord (plan : PublicationPlan) (set : PublicationRRSet) (i : nat)
    (entry : RecordEntry) : result WirePlanError RRRecord :=
  content ← match recordContent (ps_RecordType set) entry with
            | Ok s => Ok s
            | Err _ => Err ENoValue
            end;
  let record uid g s := {| rec_Content := content; rec_ContributionUID := uid; rec_Generation := g;
                           rec_Sequence := s; rec_Eligible := true |} in
  Ok match ps_ContributionUIDs set !! i with
     | None => record [] 0%Z 0%Z
     | Some uid =>
         match snd <$> list_find (λ f, fe_UID f = uid) (pp_Contributions plan) with
         | Some f => record uid (uint64 (fe_Generation f)) (uint64 (fe_Sequence f))
         | None => record uid 0%Z 0%Z
         end
     end.

Definition wireRRSet (plan : PublicationPlan) (set : PublicationRRSet) : result WirePlanError WireRRSet :=
  _ ← refuse (ps_TTLSeconds set <? 0)%Z ENegativeTTL;
  records ← mapM id (imap (wireRecord plan set) (ps_Records set));
  Ok {| rr_Name := absoluteOwner (ps_Name set) (pp_ZoneApex plan);
        rr_Type := RRTypeString (ps_RecordType set); rr_TTL := ps_TTLSeconds set;
        rr_Records := records |}.

Definition wireFence (f : ContributionFence) : ObservationFence :=
  {| of_ContributionUID := fe_UID f; of_Generation := uint64 (fe_Generation f);
     of_Sequence := uint64 (fe_Sequence f); of_Retired := fe_Retired f;
     of_SourceName := fe_SourceName f |}.
Definition wireRegistration (f : RegistrationFence) : WireModel.RegistrationFence :=
  {| rf_UID := rgf_UID f; rf_Generation := uint64 (rgf_Generation f) |}.

Definition WirePlan (plan : PublicationPlan) : result WirePlanError WireModel.PublicationPlan :=
  sets ← mapM (wireRRSet plan) (pp_RRsets plan);
  let out := {|
    pl_ZoneUID := pp_ZoneUID plan; pl_Apex := pp_ZoneApex plan;
    pl_Registrations := wireRegistration <$> pp_Registrations plan;
    pl_ObservationFences :=
      sort_slice (λ a b, str_ltb (of_ContributionUID a) (of_ContributionUID b))
        (wireFence <$> pp_Contributions plan);
    pl_Owners :=
      sortStrings (foldl (λ owners o, let name := absoluteOwner (po_Name o) (pp_ZoneApex plan) in
                     if decide (name ∈ owners) then owners else owners ++ [name]) [] (pp_Owners plan));
    pl_RRSets := sets |} in
  match PublicationPlan_Validate out with
  | Ok _ => Ok out
  | Err e => Err (EPlan e)
  end.
End compile.
