(* ===== verification/CompileClaims.v ===== *)
(** Who holds which name in a compiled zone.

    Record sets claim their names first, then registrations, oldest first.  A claim conflicts
    with one of the same name and type, and a CNAME with every type at its name.  The theorems
    say that the plan never has two holders in conflict, that a registration loses only to a
    record set or to an older registration that is in the plan, and that a contribution's
    records lie at names its registration holds. *)

From S2P Require Import Prelude GoStrings Api ApiMeta RdataRender GoJson WireModel ReservedScopes.
From S2P Require Import Compile.

(** ** Conflicts *)

Definition contending (k k' : ownershipKey) : Prop :=
  k.1 = k'.1 ∧ (k.2 = k'.2 ∨ k.2 = RRTypeCNAME ∨ k'.2 = RRTypeCNAME).

Lemma contending_sym k k' : contending k k' → contending k' k.
Proof. intros [? [? | [? | ?]]]; split; auto. Qed.
Lemma contending_refl k : contending k k.
Proof. split; auto. Qed.

(** No two claims of different holders are in conflict. *)
Definition exclusive (claims : claimMap) : Prop :=
  ∀ k k' u u', claims !! k = Some u → claims !! k' = Some u' → contending k k' → u = u'.

(** No claim is in conflict with [key]. *)
Definition free (claims : claimMap) (key : ownershipKey) : Prop :=
  ∀ k u, claims !! k = Some u → ¬ contending key k.

Section claims.
Context `{GoRuntime}.

Lemma conflictingClaim_None (claims : claimMap) key : conflictingClaim claims key = None ↔ free claims key.
Proof.
  unfold conflictingClaim, free. destruct (claims !! key) as [u|] eqn:Hkey.
  { split; [done|]. intros Hfree. destruct (Hfree _ _ Hkey). apply contending_refl. }
  case_decide as Hc.
  - destruct (filter _ _) as [|kv l] eqn:Hl; cbn.
    + split; [|done]. intros _ k u Hk [Hname _].
      assert ((k, u) ∈ filter (λ kv : ownershipKey * gostring, kv.1.1 = key.1) (map_range claims)) as Hin.
      { apply list_elem_of_filter. split; [done|]. by rewrite map_range_perm, elem_of_map_to_list. }
      rewrite Hl in Hin. by apply elem_of_nil in Hin.
    + split; [done|]. intros Hfree.
      assert (kv ∈ filter (λ kv : ownershipKey * gostring, kv.1.1 = key.1) (map_range claims)) as Hin
        by (rewrite Hl; left).
      apply list_elem_of_filter in Hin as [Hname Hin].
      rewrite map_range_perm in Hin. destruct kv as [k u]. rewrite elem_of_map_to_list in Hin.
      destruct (Hfree _ _ Hin). split; auto.
  - split.
    + intros Hn k u Hk [Hname [Ht | [Ht | Ht]]]; [|done|].
      * destruct key, k; cbn in *; congruence.
      * destruct key, k; cbn in *; congruence.
    + intros Hfree. destruct (claims !! (key.1, RRTypeCNAME)) as [u|] eqn:Hk; [|done].
      destruct (Hfree _ _ Hk). split; auto.
Qed.

Lemma conflictingClaim_Some (claims : claimMap) key u :
  conflictingClaim claims key = Some u → ∃ k, claims !! k = Some u ∧ contending key k.
Proof.
  unfold conflictingClaim. destruct (claims !! key) as [u'|] eqn:Hkey.
  { intros [= ->]. exists key. split; [done|]. apply contending_refl. }
  case_decide as Hc.
  - intros Hh. destruct (filter _ _) as [|[k u'] l] eqn:Hl; [done|]. cbn in Hh. simplify_eq.
    assert ((k, u) ∈ filter (λ kv : ownershipKey * gostring, kv.1.1 = key.1) (map_range claims)) as Hin
      by (rewrite Hl; left).
    apply list_elem_of_filter in Hin as [Hname Hin]. cbn in Hname.
    rewrite map_range_perm, elem_of_map_to_list in Hin. exists k. split; [done|]. split; auto.
  - intros Hk. exists (key.1, RRTypeCNAME). split; [done|]. split; auto.
Qed.

(** A holder without claims finds a name held by another unless it is free. *)
Lemma heldByOther_free (claims : claimMap) key uid :
  (∀ k u, claims !! k = Some u → u ≠ uid) →
  heldByOther claims key uid = false ↔ free claims key.
Proof.
  intros Hnew. rewrite <- conflictingClaim_None. unfold heldByOther.
  destruct (conflictingClaim claims key) as [u|] eqn:Hc; [|done].
  apply conflictingClaim_Some in Hc as (k & Hk & _). rewrite bool_decide_eq_false.
  split; [|done]. intros []. by apply (Hnew k).
Qed.

(** Adding the claims of one holder at free names. *)
Lemma exclusive_extend (claims claims' : claimMap) uid :
  exclusive claims →
  (∀ k u, claims' !! k = Some u → claims !! k = Some u ∨ u = uid ∧ free claims k) →
  exclusive claims'.
Proof.
  intros Hex Hnew k k' u u' Hk Hk' Hkk.
  apply Hnew in Hk as [Hk|[-> Hfree]], Hk' as [Hk'|[-> Hfree']]; [by apply (Hex k k')| | |done].
  - destruct (Hfree' _ _ Hk). by apply contending_sym.
  - by destruct (Hfree _ _ Hk').
Qed.

Lemma elem_of_uniqueTypes rt xs : rt ∈ uniqueTypes xs ↔ rt ∈ xs.
Proof.
  unfold uniqueTypes. rewrite sort_slice_perm.
  apply (foldl_prefix (λ l out, rt ∈ out ↔ rt ∈ l)); [done|].
  intros l1 x l2 out _ IH. rewrite elem_of_app, list_elem_of_singleton.
  case_decide as Hx; [|by rewrite elem_of_app, list_elem_of_singleton, IH].
  rewrite IH. split; [auto|]. intros [?|Heq]; [done|]. subst. by apply IH.
Qed.

Lemma lookup_claims (name uid : gostring) (types : list RRType) (claims : claimMap) (k : ownershipKey) :
  foldl (λ claims rt, <[(name, rt) := uid]> claims) claims types !! k
  = if decide (k.1 = name ∧ k.2 ∈ types) then Some uid else claims !! k.
Proof.
  revert claims. induction types as [|rt types IH]; intros claims; cbn.
  { rewrite decide_False; [done|]. by intros [_ ?%elem_of_nil]. }
  rewrite IH. destruct (decide (k = (name, rt))) as [->|Hk]; cbn.
  - rewrite lookup_insert_eq, (decide_True (P := name = name ∧ rt ∈ rt :: types)) by set_solver.
    by destruct (decide _).
  - rewrite lookup_insert_ne by done. apply decide_ext. destruct k as [n t]; cbn.
    assert (n = name → t ≠ rt) by (by intros -> ->). set_solver.
Qed.
End claims.

(** ** Record sets *)

Section static.
Context `{GoRuntime, ApiMeta, K8sValidation}.
Variables (today : gostring) (zone : DNSZone) (scopes : list ReservedScope) (apex : gostring).

Definition recordKey (rs : DNSRecordSet) (record : RecordEntry) : ownershipKey :=
  (zoneOwner (re_Name record) apex, rs_RecordType rs).

Lemma claimStatic_Ok claims rs pending record pending' :
  claimStatic today zone scopes apex claims rs pending record = Ok pending' →
  heldByOther claims (recordKey rs record) (rs_UID rs) = false
  ∧ ∃ ttl, pending' = <[recordKey rs record := ttl]> pending.
Proof.
  unfold claimStatic. rewrite !refuse_bind. intros (_ & _ & _ & _ & _ & Hheld & Hok).
  injection Hok as <-. eauto.
Qed.

Lemma claimStatics_Ok claims rs records pending pending' :
  result_fold (claimStatic today zone scopes apex claims rs) pending records = Ok pending' →
  (∀ k, is_Some (pending' !! k) ↔ is_Some (pending !! k) ∨ ∃ r, r ∈ records ∧ k = recordKey rs r)
  ∧ Forall (λ r, heldByOther claims (recordKey rs r) (rs_UID rs) = false) records.
Proof.
  revert pending. induction records as [|r records IH]; intros pending; cbn.
  { intros [= ->]. split; [|constructor]. intros k. split; [auto|].
    intros [?|(r & Hr & _)]; [done|]. by apply elem_of_nil in Hr. }
  destruct (claimStatic _ _ _ _ _ _ _ _) as [p|] eqn:Hp; [|done]. intros Hrest.
  apply claimStatic_Ok in Hp as [Hheld [ttl ->]]. apply IH in Hrest as [Hk Hall].
  split; [|by constructor]. intros k. rewrite Hk, lookup_insert_is_Some.
  setoid_rewrite elem_of_cons. destruct (decide (recordKey rs r = k)); naive_solver.
Qed.

(** What the loop over the record sets has done with the ones it has seen. *)
Record staticsOf (rejected : reasonMap) (seen : list DNSRecordSet) (st : StaticState) : Prop := {
  so_same : ss_staticClaim st = ss_claims st;
  so_exclusive : exclusive (ss_claims st);
  so_reasons : ∀ uid, reasonOf rejected uid ≠ [] → reasonOf (ss_reasons st) uid ≠ [];
  so_origin : ∀ uid, reasonOf (ss_reasons st) uid ≠ [] →
    reasonOf rejected uid ≠ [] ∨ uid ∈ (rs_UID <$> seen);
  so_holder : ∀ k uid, ss_claims st !! k = Some uid →
    reasonOf rejected uid = [] ∧ uid ∈ (rs_UID <$> seen);
  so_valid : ∀ uid, uid ∈ ss_valid st → uid ∈ (rs_UID <$> seen);
  so_claimed : ∀ rs record, rs ∈ seen → rs_UID rs ∈ ss_valid st → record ∈ rs_Records rs →
    ss_claims st !! recordKey rs record = Some (rs_UID rs);
}.

(** A record set that is passed over or refused leaves the claims as they are. *)
Lemma staticsOf_refused rejected seen st rs rsn :
  staticsOf rejected seen st → rs_UID rs ∉ (rs_UID <$> seen) →
  (∀ uid, reasonOf (ss_reasons st) uid ≠ [] → reasonOf rsn uid ≠ []) →
  (∀ uid, reasonOf rsn uid ≠ [] → reasonOf (ss_reasons st) uid ≠ [] ∨ uid = rs_UID rs) →
  staticsOf rejected (seen ++ [rs])
    {| ss_claims := ss_claims st; ss_staticClaim := ss_staticClaim st; ss_reasons := rsn;
       ss_valid := ss_valid st; ss_ttls := ss_ttls st |}.
Proof.
  intros [Hsame Hex Hreas Horig Hhold Hvalid Hclaimed] Hnew Hkeep Hfrom.
  split; cbn; [done..| | | | |]; try setoid_rewrite fmap_app; auto.
  - intros uid [Hr|Hr]%Hfrom; [apply Horig in Hr|]; set_solver.
  - intros k uid [? ?]%Hhold. set_solver.
  - set_solver.
  - intros rs' record Hin Hv Hr.
    apply elem_of_app in Hin as [Hin| ->%list_elem_of_singleton]; [auto|by apply Hvalid in Hv].
Qed.

Lemma staticsOf_accepted rejected seen st rs pending :
  staticsOf rejected seen st → rs_UID rs ∉ (rs_UID <$> seen) →
  reasonOf (ss_reasons st) (rs_UID rs) = [] →
  result_fold (claimStatic today zone scopes apex (ss_claims st) rs) ∅ (rs_Records rs) = Ok pending →
  let mine : claimMap := (λ _, rs_UID rs) <$> pending in
  staticsOf rejected (seen ++ [rs])
    {| ss_claims := mine ∪ ss_claims st; ss_staticClaim := mine ∪ ss_staticClaim st;
       ss_reasons := ss_reasons st; ss_valid := {[rs_UID rs]} ∪ ss_valid st;
       ss_ttls := pending ∪ ss_ttls st |}.
Proof.
  intros [Hsame Hex Hreas Horig Hhold Hvalid Hclaimed] Hnew Hreason Hp mine.
  assert (∀ k u, ss_claims st !! k = Some u → u ≠ rs_UID rs) as Hother.
  { intros k u [_ Hk]%Hhold ->. done. }
  apply claimStatics_Ok in Hp as [Hdom Hheld]. rewrite Forall_forall in Hheld.
  assert (∀ k u, mine !! k = Some u →
    u = rs_UID rs ∧ (∃ r, r ∈ rs_Records rs ∧ k = recordKey rs r) ∧ free (ss_claims st) k) as Hmine.
  { intros k u Hk. apply lookup_fmap_Some in Hk as (ttl & <- & Hk).
    assert (is_Some (pending !! k)) as [[? ?]|(r & Hr & ->)]%Hdom by eauto; [simplify_map_eq|].
    split_and!; [done|by eauto|]. by apply (heldByOther_free _ _ (rs_UID rs)), Hheld. }
  split; cbn; try setoid_rewrite fmap_app; auto.
  - by rewrite Hsame.
  - apply (exclusive_extend (ss_claims st) _ (rs_UID rs)); [done|]. intros k u Hk.
    apply lookup_union_Some_raw in Hk as [Hk|[_ Hk]]; [right|by left]. naive_solver.
  - intros uid [?|?]%Horig; [by left|right]. apply elem_of_app. by left.
  - intros k uid Hk. apply lookup_union_Some_raw in Hk as [(-> & _)%Hmine|[_ [? ?]%Hhold]]; [|set_solver].
    split; [|set_solver]. apply dec_stable. intros Hrej. by destruct (Hreas _ Hrej).
  - set_solver.
  - intros rs' record Hin Hv Hr. apply elem_of_app in Hin as [Hin| ->%list_elem_of_singleton].
    + assert (rs_UID rs' ≠ rs_UID rs).
      { intros Heq. apply Hnew. rewrite <- Heq. by apply list_elem_of_fmap_2. }
      pose proof (Hclaimed _ _ Hin ltac:(set_solver) Hr) as Hk. rewrite lookup_union_r; [done|].
      destruct (mine !! _) as [u|] eqn:Hm; [|done]. apply Hmine in Hm as (_ & _ & Hfree).
      by destruct (Hfree _ _ Hk (contending_refl _)).
    + apply lookup_union_Some_raw. left. unfold mine. rewrite lookup_fmap.
      destruct (Hdom (recordKey rs record)) as [_ [ttl ->]]; eauto.
Qed.

Lemma addStatic_staticsOf rejected seen st rs :
  staticsOf rejected seen st → rs_UID rs ∉ (rs_UID <$> seen) →
  staticsOf rejected (seen ++ [rs]) (addStatic today zone scopes apex st rs).
Proof.
  intros Hst Hnew. unfold addStatic. destruct (_ || _ || _) eqn:Hskip.
  { assert (staticsOf rejected (seen ++ [rs]) {| ss_claims := ss_claims st;
      ss_staticClaim := ss_staticClaim st; ss_reasons := ss_reasons st; ss_valid := ss_valid st;
      ss_ttls := ss_ttls st |}) by (apply staticsOf_refused; auto). by destruct st. }
  rewrite !orb_false_iff, !bool_decide_eq_false in Hskip. destruct Hskip as [_ Hreason].
  apply dec_stable in Hreason. destruct (result_fold _ _ _) as [pending|reason] eqn:Hp.
  - by apply staticsOf_accepted.
  - assert (∀ uid, uid ≠ rs_UID rs →
      reasonOf (<[rs_UID rs := reason]> (ss_reasons st)) uid = reasonOf (ss_reasons st) uid) as Hother.
    { intros uid Hu. unfold reasonOf. by rewrite lookup_insert_ne. }
    apply staticsOf_refused; [done..| |].
    + intros uid Hr. rewrite Hother; [done|]. by intros ->.
    + intros uid Hr. destruct (decide (uid = rs_UID rs)); [by right|left]. by rewrite Hother in Hr.
Qed.
End static.

Lemma collectStaticClaims_spec `{GoRuntime, ApiMeta, K8sValidation} today inp zone apex rejected :
  NoDup (rs_UID <$> in_StaticRecords inp) →
  staticsOf apex rejected (sort_slice staticLess (in_StaticRecords inp))
    (collectStaticClaims today inp zone apex rejected).
Proof.
  intros Hnd. unfold collectStaticClaims.
  apply (foldl_prefix (λ seen st, staticsOf apex rejected seen st)).
  - split; cbn; auto; try set_solver. intros k k' u u' Hk. by rewrite lookup_empty in Hk.
  - intros l1 rs l2 st Hl Hst. apply addStatic_staticsOf; [done|].
    rewrite <- (sort_slice_perm staticLess), Hl, fmap_app, fmap_cons in Hnd.
    apply NoDup_app in Hnd as (_ & Hnot & _). intros Hin. apply (Hnot _ Hin). left.
Qed.

(** ** Registrations *)

Section registrations.
Context `{GoRuntime, ApiMeta, K8sValidation}.
Variables (today : gostring) (inp : CompileInput) (zone : PrivateZone) (apex : gostring).
Variable static : StaticState.

Definition registrationName (reg : DNSRegistration) : gostring := zoneOwner (reg_OwnerName reg) apex.

(** A registration that passed every check but the one on its claims. *)
Definition claimant (reg : DNSRegistration) : Prop := registrationFault inp zone apex reg = Some [].

(** What holds back a registration: a claim in conflict with one of its own, of a record set or
    of an older registration. *)
Definition outranked (st : RegistrationState) (reg : DNSRegistration) : Prop :=
  ∃ rt k u, rt ∈ reg_RecordTypes reg ∧ gs_claims st !! k = Some u
    ∧ contending (registrationName reg, rt) k
    ∧ (ss_claims static !! k = Some u ∨ ∃ reg', gs_regs st !! u = Some reg' ∧ registrationLess reg' reg = true).

Record registrationsOf (seen : list DNSRegistration) (st : RegistrationState) : Prop := {
  ro_exclusive : exclusive (gs_claims st);
  ro_static : ss_claims static ⊆ gs_claims st;
  ro_holder : ∀ k uid, gs_claims st !! k = Some uid →
    ss_claims static !! k = Some uid
    ∨ ∃ reg, gs_regs st !! uid = Some reg ∧ k.1 = registrationName reg ∧ k.2 ∈ reg_RecordTypes reg;
  ro_regs : ∀ uid reg, gs_regs st !! uid = Some reg →
    reg ∈ seen ∧ reg_UID reg = uid ∧ claimant reg ∧ uid ∈ gs_accepted st
    ∧ ∀ rt, rt ∈ reg_RecordTypes reg → gs_claims st !! (registrationName reg, rt) = Some uid;
  ro_reasons : ∀ uid, reasonOf (gs_reasons st) uid ≠ [] →
    reasonOf (ss_reasons static) uid ≠ [] ∨ uid ∈ (reg_UID <$> seen);
  ro_refused : ∀ reg, reg ∈ seen → claimant reg → gs_regs st !! reg_UID reg = None →
    reasonOf (gs_reasons st) (reg_UID reg) = "NameConflict" ∧ outranked st reg;
  ro_fences : ∀ f, f ∈ gs_fences st ↔
    ∃ reg, gs_regs st !! rgf_UID f = Some reg ∧ rgf_Generation f = reg_Generation reg;
}.

Lemma outranked_mono st st' reg :
  outranked st reg → gs_claims st ⊆ gs_claims st' → gs_regs st ⊆ gs_regs st' → outranked st' reg.
Proof.
  intros (rt & k & u & Hrt & Hk & Hc & Hu) Hcl Hre. exists rt, k, u. split_and!; [done| |done|].
  - by apply (lookup_weaken _ _ _ _ Hk).
  - destruct Hu as [Hu|(reg' & Hu & Hless)]; [by left|right]. exists reg'. split; [|done].
    by apply (lookup_weaken _ _ _ _ Hu).
Qed.

(** A registration that does not get its claims. *)
Lemma registrationsOf_refused seen st reg rsn :
  registrationsOf seen st → reg_UID reg ∉ (reg_UID <$> seen) →
  (∀ uid, uid ≠ reg_UID reg → reasonOf rsn uid = reasonOf (gs_reasons st) uid) →
  (claimant reg → reasonOf rsn (reg_UID reg) = "NameConflict" ∧ outranked st reg) →
  registrationsOf (seen ++ [reg])
    {| gs_claims := gs_claims st; gs_regs := gs_regs st; gs_accepted := gs_accepted st;
       gs_reasons := rsn; gs_fences := gs_fences st |}.
Proof.
  intros [Hex Hst Hhold Hregs Hreas Href Hfen] Hnew Hother Hmine. split; cbn; [done..| | | |done].
  - intros uid r (? & ? & ? & ? & ?)%Hregs. set_solver.
  - intros uid Hr. rewrite fmap_app, elem_of_app. destruct (decide (uid = reg_UID reg)) as [->|Hu].
    { right. right. cbn. left. }
    rewrite Hother in Hr by done. destruct (Hreas _ Hr); auto.
  - assert (∀ reg', outranked st reg' → outranked {| gs_claims := gs_claims st; gs_regs := gs_regs st;
      gs_accepted := gs_accepted st; gs_reasons := rsn; gs_fences := gs_fences st |} reg') as Hmono
      by (intros reg' Ho; by apply (outranked_mono _ _ _ Ho)).
    intros reg' [Hin| ->%list_elem_of_singleton]%elem_of_app Hc Hnone; [|naive_solver].
    assert (reg_UID reg' ≠ reg_UID reg).
    { intros Heq. apply Hnew. rewrite <- Heq. by apply list_elem_of_fmap_2. }
    rewrite Hother by done. naive_solver.
Qed.

(** The claims after a registration got its own. *)
Lemma lookup_accepted st reg k :
  gs_claims (acceptRegistration st reg (registrationName reg)) !! k
  = if decide (k.1 = registrationName reg ∧ k.2 ∈ reg_RecordTypes reg) then Some (reg_UID reg)
    else gs_claims st !! k.
Proof.
  cbn. rewrite lookup_claims. apply decide_ext. by rewrite elem_of_uniqueTypes.
Qed.

Lemma accepted_claims st reg :
  (∀ rt, rt ∈ reg_RecordTypes reg → free (gs_claims st) (registrationName reg, rt)) →
  gs_claims st ⊆ gs_claims (acceptRegistration st reg (registrationName reg)).
Proof.
  intros Hfree. apply map_subseteq_spec. intros k u Hk. rewrite lookup_accepted.
  case_decide as Hd; [|done]. destruct Hd as [Hn Ht]. destruct (Hfree _ Ht _ _ Hk).
  split; auto.
Qed.

Lemma registrationsOf_accepted seen st reg :
  registrationsOf seen st → reg_UID reg ∉ (reg_UID <$> seen) → claimant reg →
  (∀ rt, rt ∈ reg_RecordTypes reg → free (gs_claims st) (registrationName reg, rt)) →
  registrationsOf (seen ++ [reg]) (acceptRegistration st reg (registrationName reg)).
Proof.
  intros [Hex Hst Hhold Hregs Hreas Href Hfen] Hnew Hc Hfree.
  pose proof (accepted_claims _ _ Hfree) as Hgrow.
  assert (gs_regs st !! reg_UID reg = None) as Hnone.
  { apply eq_None_not_Some. intros [r (Hin & Heq & _)%Hregs]. apply Hnew. rewrite <- Heq.
    by apply list_elem_of_fmap_2. }
  assert (gs_regs st ⊆ gs_regs (acceptRegistration st reg (registrationName reg))) as Hrgrow
    by by apply insert_subseteq.
  split.
  - apply (exclusive_extend (gs_claims st) _ (reg_UID reg)); [done|]. intros k u.
    rewrite lookup_accepted. case_decide as Hd; [|by left]. destruct Hd as [Hn Ht], k; cbn in *.
    intros [= <-]. subst. right. auto.
  - by etrans.
  - intros k uid. rewrite lookup_accepted. case_decide as Hd.
    + intros [= <-]. right. exists reg. cbn. by rewrite lookup_insert_eq.
    + intros [?|(r & Hr & ?)]%Hhold; [by left|right]. exists r. split; [|done].
      by apply (lookup_weaken _ _ _ _ Hr).
  - intros uid r Hr. cbn in Hr. apply lookup_insert_Some in Hr as [[<- <-]|[Hne Hr]].
    + split_and!; [set_solver|done..|cbn; set_solver|]. intros rt Hrt. rewrite lookup_accepted.
      by rewrite decide_True.
    + apply Hregs in Hr as (? & ? & ? & ? & Hcl). split_and!; [set_solver|done..|cbn; set_solver|].
      intros rt Hrt. apply (lookup_weaken _ _ _ _ (Hcl _ Hrt) Hgrow).
  - intros uid [?|?]%Hreas; [by left|right]. rewrite fmap_app, elem_of_app. by left.
  - intros r [Hin| ->%list_elem_of_singleton]%elem_of_app Hcl Hno; cbn in Hno.
    + apply lookup_insert_None in Hno as [Hno _]. destruct (Href _ Hin Hcl Hno) as [? Ho].
      split; [done|]. by apply (outranked_mono _ _ _ Ho).
    + by rewrite lookup_insert_eq in Hno.
  - intros f. cbn. rewrite elem_of_app, list_elem_of_singleton, Hfen.
    destruct (decide (rgf_UID f = reg_UID reg)) as [Heq|Hne].
    + rewrite Heq, Hnone, lookup_insert_eq. split; [intros [(? & [=] & _)| ->]; eauto|].
      intros (? & [= <-] & Hg). right. by destruct f; cbn in *; subst.
    + rewrite lookup_insert_ne by done. split; [intros [?| ->]; [done|done]|auto].
Qed.

Lemma addRegistration_registrationsOf seen st reg :
  registrationsOf seen st → reg_UID reg ∉ (reg_UID <$> seen) →
  (∀ k u, ss_claims static !! k = Some u → u ≠ reg_UID reg) →
  reasonOf (ss_reasons static) (reg_UID reg) = [] →
  (∀ r, r ∈ seen → registrationLess r reg = true) →
  registrationsOf (seen ++ [reg]) (addRegistration inp zone apex st reg).
Proof.
  intros Hst Hnew Hstatic Hreason Holder. pose proof Hst as [_ _ Hhold Hregs Hreas _ _].
  assert (∀ k u, gs_claims st !! k = Some u → u ≠ reg_UID reg) as Hother.
  { intros k u [Hk|(r & Hr & _)]%Hhold; [by apply (Hstatic k)|].
    apply Hregs in Hr as (Hin & <- & _). intros Heq. apply Hnew. rewrite <- Heq.
    by apply list_elem_of_fmap_2. }
  assert (∀ reason, reasonOf (<[reg_UID reg := reason]> (gs_reasons st)) (reg_UID reg) = reason) as Hself.
  { intros reason. unfold reasonOf. by rewrite lookup_insert_eq. }
  assert (∀ reason uid, uid ≠ reg_UID reg →
    reasonOf (<[reg_UID reg := reason]> (gs_reasons st)) uid = reasonOf (gs_reasons st) uid) as Hrest.
  { intros reason uid Hu. unfold reasonOf. by rewrite lookup_insert_ne. }
  unfold addRegistration. destruct (registrationFault _ _ _ _) as [[|c reason]|] eqn:Hfault.
  - fold (registrationName reg). destruct (existsb _ _) eqn:Hconf.
    + cbn [gs_reasons refuseRegistration]. rewrite Hself. cbn.
      apply registrationsOf_refused; [done..|by apply Hrest|]. intros _. rewrite Hself. split; [done|].
      apply existsb_exists in Hconf as (rt & Hrt & Hheld).
      rewrite <- list_elem_of_In, elem_of_uniqueTypes in Hrt. unfold heldByOther in Hheld.
      destruct (conflictingClaim _ _) as [u|] eqn:Hu; [|done].
      apply conflictingClaim_Some in Hu as (k & Hk & Hc). exists rt, k, u. split_and!; [done..|].
      destruct (Hhold _ _ Hk) as [?|(r & Hr & _)]; [by left|right]. exists r.
      split; [done|]. by apply Holder, (Hregs u).
    + rewrite decide_True.
      * apply registrationsOf_accepted; [done..|]. intros rt Hrt.
        apply (heldByOther_free _ _ (reg_UID reg)); [done|].
        apply not_true_iff_false. intros Hheld. apply not_true_iff_false in Hconf. apply Hconf.
        apply existsb_exists. exists rt. by rewrite <- list_elem_of_In, elem_of_uniqueTypes.
      * apply dec_stable. by intros [?|?]%Hreas.
  - apply registrationsOf_refused; [done..|by apply Hrest|]. intros Hc. unfold claimant in Hc. congruence.
  - assert (registrationsOf (seen ++ [reg]) {| gs_claims := gs_claims st; gs_regs := gs_regs st;
      gs_accepted := gs_accepted st; gs_reasons := gs_reasons st; gs_fences := gs_fences st |});
      [|by destruct st].
    apply registrationsOf_refused; [done..|]. intros Hc. unfold claimant in Hc. congruence.
Qed.
End registrations.

(** Registrations are ordered by age and UID. *)
Lemma registrationLess_StrictWeak : StrictWeak registrationLess.
Proof.
  apply lexLess_StrictWeak; [apply Zltb_StrictWeak|apply Zltb_total|].
  destruct str_ltb_StrictWeak. split; eauto.
Qed.
Lemma registrationLess_total a b :
  registrationLess b a = false → reg_UID a ≠ reg_UID b → registrationLess a b = true.
Proof.
  intros Hba Hne. destruct (registrationLess a b) eqn:Hab; [done|].
  destruct (lexLess_total _ _ _ Zltb_total _ _ Hab Hba) as (_ & ? & ?).
  destruct Hne. by apply str_ltb_total.
Qed.

Lemma claimRegistrations_spec `{GoRuntime, ApiMeta, K8sValidation} inp zone apex static :
  NoDup (reg_UID <$> in_Registrations inp) → exclusive (ss_claims static) →
  (∀ reg k u, reg ∈ in_Registrations inp → ss_claims static !! k = Some u → u ≠ reg_UID reg) →
  (∀ reg, reg ∈ in_Registrations inp → reasonOf (ss_reasons static) (reg_UID reg) = []) →
  registrationsOf inp zone apex static (sort_slice registrationLess (in_Registrations inp))
    (claimRegistrations inp zone apex static).
Proof.
  intros Hnd Hex Hclaims Hreasons. unfold claimRegistrations.
  apply (foldl_prefix (λ seen st, registrationsOf inp zone apex static seen st)).
  - split; cbn; auto; [by intros ? ? ?%lookup_empty_Some|by intros reg ?%elem_of_nil|].
    intros f. split; [by intros ?%elem_of_nil|]. intros (? & Hf & _). by rewrite lookup_empty in Hf.
  - intros l1 reg l2 st Hl Hst.
    assert (reg ∈ in_Registrations inp) as Hin.
    { rewrite <- (sort_slice_perm registrationLess), Hl. set_solver. }
    rewrite <- (sort_slice_perm registrationLess), Hl, fmap_app, fmap_cons in Hnd.
    apply NoDup_app in Hnd as (_ & Hnot & _).
    assert (reg_UID reg ∉ (reg_UID <$> l1)) as Hnew by (intros Hl1; apply (Hnot _ Hl1); left).
    apply addRegistration_registrationsOf; [done|done|by eauto|by eauto|]. intros r Hr.
    pose proof (sort_slice_sorted registrationLess (in_Registrations inp) registrationLess_StrictWeak) as Hs.
    rewrite Hl in Hs. apply registrationLess_total.
    { apply (StronglySorted_app_1_elem_of _ _ _ r reg Hs); [done|left]. }
    intros Heq. apply Hnew. rewrite <- Heq. by apply list_elem_of_fmap_2.
Qed.
