(* ===== verification/CompileSafety.v ===== *)
(** What a compiled plan contains: every record lies at a name its source holds, every SRV
    record points to a name with an address, and the loop that ensures this ends.

    An input is well-formed when its objects have the distinct, non-empty UIDs the API server
    assigns. *)

From S2P Require Import Prelude GoStrings Api ApiMeta RdataRender GoJson WireModel ReservedScopes.
From S2P Require Import Compile CompileClaims.

(** The objects an RRset can come from. *)
Definition sources (inp : CompileInput) : list gostring :=
  (con_UID <$> in_Contributions inp) ++ (rs_UID <$> in_StaticRecords inp).

Record wf_Input (inp : CompileInput) : Prop := {
  wi_distinct : NoDup (sources inp ++ (reg_UID <$> in_Registrations inp));
  wi_nonempty : Forall (λ uid, uid ≠ []) (sources inp);
}.

(** ** Aggregates *)

(** The contributions of an aggregate satisfy [E]; if it has other records, its key satisfies
    [S]. *)
Definition aggregated (E : gostring → ownershipKey → Prop) (S : ownershipKey → Prop)
    (aggs : aggregateMap) : Prop :=
  ∀ key a, aggs !! key = Some a →
    length (ag_uids a) ≤ length (ag_records a) ∧ Forall (λ uid, E uid key) (ag_uids a)
    ∧ (length (ag_uids a) < length (ag_records a) → S key).

Section aggregates.
Context `{GoRuntime}.

Lemma aggregated_add E S apex rt ttl uid aggs record :
  let key := (zoneOwner (re_Name record) apex, rt) in
  aggregated E S aggs → match uid with Some u => E u key | None => S key end →
  aggregated E S (addRecord apex rt ttl uid aggs record).
Proof.
  intros key Haggs Hnew key' a'. unfold addRecord. fold key. set (a := default _ _).
  assert (length (ag_uids a) ≤ length (ag_records a) ∧ Forall (λ uid, E uid key) (ag_uids a)
    ∧ (length (ag_uids a) < length (ag_records a) → S key)) as (Hlen & Hall & Hs).
  { unfold a. destruct (aggs !! key) eqn:Ha; [by apply Haggs|]. cbn. split_and!; [lia|done|lia]. }
  rewrite lookup_insert_Some. intros [[<- <-]|[_ Ha']]; [|by apply Haggs]. cbn.
  rewrite !length_app, Forall_app. destruct uid as [u|]; cbn.
  - split_and!; [lia|done|by repeat constructor|]. intros ?. apply Hs. lia.
  - split_and!; [lia|done|constructor|done].
Qed.

Lemma aggregated_adds E S apex rt ttl uid aggs records :
  aggregated E S aggs →
  Forall (λ r, let key := (zoneOwner (re_Name r) apex, rt) in
               match uid with Some u => E u key | None => S key end) records →
  aggregated E S (foldl (addRecord apex rt ttl uid) aggs records).
Proof.
  intros Haggs Hall. rewrite Forall_forall in Hall. apply foldl_inv; [done|].
  intros aggs' r Hr Haggs'. apply aggregated_add; [done|]. by apply Hall.
Qed.

Lemma aggregated_mono (E E' : gostring → ownershipKey → Prop) S aggs :
  aggregated E S aggs → (∀ uid key, E uid key → E' uid key) → aggregated E' S aggs.
Proof.
  intros Haggs HE key a Ha. destruct (Haggs _ _ Ha) as (? & Hall & ?). split_and!; [done| |done].
  eapply Forall_impl; [exact Hall|]. cbn. auto.
Qed.

Lemma sortAggregate_perm records uids :
  (sortAggregate records uids).1 ≡ₚ records ∧ (sortAggregate records uids).2 ≡ₚ uids.
Proof.
  unfold sortAggregate. case_match eqn:Hlen; cbn.
  - apply Nat.eqb_eq in Hlen. rewrite !sort_slice_perm. by rewrite fst_zip, snd_zip by lia.
  - split; [|done]. apply sort_slice_perm.
Qed.

(** The RRset an aggregate becomes. *)
Lemma rrsetOf_spec key a :
  ps_Name (rrsetOf (key, a)) = key.1 ∧ ps_RecordType (rrsetOf (key, a)) = key.2
  ∧ ps_Records (rrsetOf (key, a)) ≡ₚ ag_records a
  ∧ ps_ContributionUIDs (rrsetOf (key, a)) ≡ₚ ag_uids a.
Proof.
  unfold rrsetOf. pose proof (sortAggregate_perm (ag_records a) (ag_uids a)) as [? ?].
  by destruct (sortAggregate _ _).
Qed.
End aggregates.

(** ** Contributions *)

Section contributions.
Context `{GoRuntime, ApiMeta, K8sValidation}.
Variables (today apex : gostring) (inp : CompileInput) (rejected : reasonMap).
Variables (claims : claimMap) (regs : gmap gostring DNSRegistration).

(** The contribution [uid] may have records at [key]. *)
Definition entitled (uid : gostring) (key : ownershipKey) : Prop :=
  ∃ c reg, c ∈ in_Contributions inp ∧ con_UID c = uid ∧ reasonOf rejected uid = []
    ∧ regs !! or_UID (con_RegistrationRef c) = Some reg
    ∧ or_Generation (con_RegistrationRef c) = reg_Generation reg
    ∧ con_DeletionTimestamp c = None ∧ con_Eligible c = true
    ∧ registrationOwns reg key apex claims = true ∧ recordAllowed reg key apex = true.

Lemma validateContribution_nil c reg previous :
  validateContribution c reg previous = [] →
  ∃ reg', reg = Some reg' ∧ or_Generation (con_RegistrationRef c) = reg_Generation reg'
    ∧ fe_Retired previous = false ∧ (1 ≤ con_Generation c)%Z
    ∧ (fe_UID previous = [] ∨ (fe_Generation previous ≤ con_Generation c)%Z).
Proof.
  unfold validateContribution. destruct reg as [reg'|]; [|done]. repeat case_decide; [done|].
  destruct (_ =? _)%Z eqn:Hg; [|done]. cbn. destruct (fe_Retired _); [done|].
  destruct (_ <? 1)%Z eqn:Hone; [done|]. destruct (_ && _) eqn:Hp; [done|]. intros _. exists reg'.
  apply andb_false_iff in Hp. rewrite bool_decide_eq_false in Hp.
  split_and!; [done|lia|done|lia|]. destruct Hp as [Hp|Hp]; [left; by apply dec_stable|right; lia].
Qed.

Lemma validBundle_spec reg c set record :
  validBundle today reg apex claims c = true → set ∈ con_RecordSets c → record ∈ crs_Records set →
  let key := (zoneOwner (re_Name record) apex, crs_RecordType set) in
  registrationOwns reg key apex claims = true ∧ recordAllowed reg key apex = true.
Proof.
  intros Hb Hset Hr key. unfold validBundle in Hb. rewrite forallb_Forall, Forall_forall in Hb.
  specialize (Hb _ Hset). rewrite !andb_true_iff, forallb_Forall, Forall_forall in Hb.
  destruct Hb as [_ Hb]. specialize (Hb _ Hr). unfold validRecord in Hb. fold key in Hb.
  rewrite !andb_true_iff in Hb. tauto.
Qed.

(** A step of the loop either leaves the aggregates and the accepted objects alone, or adds the
    records of a contribution that is entitled to them. *)
Lemma addContribution_cases previousSeq st c :
  let st' := addContribution today apex claims regs previousSeq rejected st c in
  cs_aggregates st' = cs_aggregates st ∧ cs_accepted st' = cs_accepted st
  ∨ ∃ reg st0, regs !! or_UID (con_RegistrationRef c) = Some reg
    ∧ or_Generation (con_RegistrationRef c) = reg_Generation reg
    ∧ reasonOf rejected (con_UID c) = [] ∧ con_DeletionTimestamp c = None ∧ con_Eligible c = true
    ∧ validBundle today reg apex claims c = true
    ∧ cs_aggregates st0 = cs_aggregates st ∧ cs_accepted st0 = cs_accepted st
    ∧ st' = acceptContribution apex st0 reg c.
Proof.
  cbn zeta. unfold addContribution.
  destruct (validateContribution _ _ _) as [|? ?] eqn:Hv; [|by left].
  apply validateContribution_nil in Hv as (reg & Hreg & Hg & _). rewrite Hreg.
  repeat case_decide; [by left..|]. destruct (con_Eligible c) eqn:?; [|by left].
  destruct (validBundle _ _ _ _ _) eqn:?; [|by left]. right. cbn.
  by exists reg, (advanceContribution previousSeq st c).
Qed.

Lemma addContribution_aggregated S previousSeq st c :
  c ∈ in_Contributions inp →
  aggregated (λ uid key, entitled uid key ∧ uid ∈ cs_accepted st) S (cs_aggregates st) →
  let st' := addContribution today apex claims regs previousSeq rejected st c in
  cs_accepted st ⊆ cs_accepted st' ∧
  aggregated (λ uid key, entitled uid key ∧ uid ∈ cs_accepted st') S (cs_aggregates st').
Proof.
  intros Hc Haggs st'. pose proof (addContribution_cases previousSeq st c) as Hst. fold st' in Hst.
  destruct Hst as [[-> ->]|(reg & st0 & Hreg & Hgen & Hrej & Hdel & Hel & Hb & Ha0 & Hacc0 & ->)];
    [done|]. cbn. rewrite Ha0, Hacc0. split; [set_solver|].
  apply foldl_inv; [apply (aggregated_mono _ _ _ _ Haggs); set_solver|].
  intros aggs' set Hset Haggs'. apply aggregated_adds; [done|]. apply Forall_forall. intros r Hr.
  split; [|set_solver]. exists c, reg. pose proof (validBundle_spec _ _ _ _ Hb Hset Hr) as [? ?].
  done.
Qed.
End contributions.

Lemma claimContributions_aggregated `{GoRuntime, ApiMeta, K8sValidation} today apex inp rejected regs S :
  let cons := claimContributions today inp apex regs rejected in
  gs_accepted regs ⊆ cs_accepted cons ∧
  aggregated (λ uid key, entitled apex inp rejected (gs_claims regs) (gs_regs regs) uid key
                         ∧ uid ∈ cs_accepted cons) S (cs_aggregates cons).
Proof.
  apply (foldl_inv (λ st, gs_accepted regs ⊆ cs_accepted st ∧
    aggregated (λ uid key, entitled apex inp rejected (gs_claims regs) (gs_regs regs) uid key
                           ∧ uid ∈ cs_accepted st) S (cs_aggregates st))).
  - split; [done|]. intros key a Ha. cbn in Ha. by rewrite lookup_empty in Ha.
  - intros st c Hc [Hsub Haggs].
    apply (addContribution_aggregated today apex inp rejected (gs_claims regs) (gs_regs regs) S
             (previousFences (in_Previous inp)) st c Hc) in Haggs as [Hmono Haggs].
    split; [by etrans|done].
Qed.

Lemma claimContributions_reasons `{GoRuntime, ApiMeta, K8sValidation} today apex inp rejected regs uid :
  uid ∉ (con_UID <$> in_Contributions inp) →
  reasonOf (cs_reasons (claimContributions today inp apex regs rejected)) uid
  = reasonOf (gs_reasons regs) uid.
Proof.
  intros Huid. apply (foldl_inv (λ st, reasonOf (cs_reasons st) uid = reasonOf (gs_reasons regs) uid)); [done|].
  intros st c Hc Hst. assert (con_UID c ≠ uid) as Hne.
  { intros <-. apply Huid. by apply list_elem_of_fmap_2. }
  assert (∀ reason, reasonOf (<[con_UID c := reason]> (cs_reasons st)) uid
                    = reasonOf (cs_reasons st) uid) as Hkeep.
  { intros reason. unfold reasonOf. by rewrite lookup_insert_ne. }
  unfold addContribution. destruct (validateContribution _ _ _); [|by cbn; rewrite Hkeep].
  destruct (gs_regs regs !! _); [|by cbn; rewrite Hkeep].
  repeat case_match; cbn; by rewrite ?Hkeep.
Qed.

(** ** Plans *)

Section plans.
Context `{GoRuntime, ApiMeta, K8sValidation}.
Variables (today : gostring) (inp : CompileInput).
Hypothesis Hinput : wf_Input inp.

Lemma static_distinct : NoDup (rs_UID <$> in_StaticRecords inp).
Proof. destruct Hinput as [Hnd _]. apply NoDup_app in Hnd as [Hnd _]. by apply NoDup_app in Hnd as (_ & _ & ?). Qed.

Lemma registrations_distinct : NoDup (reg_UID <$> in_Registrations inp).
Proof. destruct Hinput as [Hnd _]. by apply NoDup_app in Hnd as (_ & _ & ?). Qed.

Lemma source_not_registration uid :
  uid ∈ sources inp → uid ∉ (reg_UID <$> in_Registrations inp).
Proof. destruct Hinput as [Hnd _]. apply NoDup_app in Hnd as (_ & Hnot & _). apply Hnot. Qed.

(** Rejections name sources. *)
Definition rejecting (rejected : reasonMap) : Prop :=
  ∀ uid, reasonOf rejected uid ≠ [] → uid ∈ sources inp.

(** The stages of a compilation and what is known of them. *)
Record stages (rejected : reasonMap) (r : CompileResult) (zone : PrivateZone) (apex : gostring)
    (static : StaticState) (regs : RegistrationState) (cons : ContributionState)
    (aggs : aggregateMap) : Prop := {
  sg_static : staticsOf apex rejected (sort_slice staticLess (in_StaticRecords inp)) static;
  sg_regs : registrationsOf inp zone apex static (sort_slice registrationLess (in_Registrations inp)) regs;
  sg_cons : cons = claimContributions today inp apex regs rejected;
  sg_aggs : aggregated (λ uid key, entitled apex inp rejected (gs_claims regs) (gs_regs regs) uid key
                                   ∧ uid ∈ cs_accepted cons)
              (λ key, ∃ uid, uid ≠ [] ∧ ss_staticClaim static !! key = Some uid) aggs;
  sg_accepted : gs_accepted regs ⊆ cs_accepted cons;
  sg_result : res_Accepted r = cs_accepted cons;
  sg_owners : pp_Owners (res_Plan r) = ownersOf (gs_claims regs) (ss_staticClaim static);
  sg_rrsets : pp_RRsets (res_Plan r) ≡ₚ rrsetOf <$> map_to_list aggs;
  sg_fences : pp_Contributions (res_Plan r) ≡ₚ (map_to_list (cs_fences cons)).*2;
  sg_registrations : pp_Registrations (res_Plan r) ≡ₚ gs_fences regs;
  sg_apex : pp_ZoneApex (res_Plan r) = apex;
  sg_reasons : res_Reasons r = cs_reasons cons;
  sg_zone : validatePrivateZone (in_Zone inp) = Ok zone;
}.

Lemma static_aggregated E (static : StaticState) z apex rejected aggs :
  staticsOf apex rejected (sort_slice staticLess (in_StaticRecords inp)) static →
  let S key := ∃ uid, uid ≠ [] ∧ ss_staticClaim static !! key = Some uid in
  aggregated E S aggs →
  aggregated E S (foldl (addStaticRecords z apex static) aggs (in_StaticRecords inp)).
Proof.
  intros Hst S Haggs. apply foldl_inv; [done|]. intros aggs' rs Hrs Haggs'. unfold addStaticRecords.
  destruct (_ || _) eqn:Hskip; [done|]. rewrite orb_false_iff, !bool_decide_eq_false in Hskip.
  destruct Hskip as [_ Hv%dec_stable]. apply aggregated_adds; [done|].
  apply Forall_forall. intros record Hr. exists (rs_UID rs). split.
  - pose proof (wi_nonempty _ Hinput) as Hne. rewrite Forall_forall in Hne. apply Hne.
    apply elem_of_app. right. by apply list_elem_of_fmap_2.
  - rewrite (so_same _ _ _ _ Hst). apply (so_claimed _ _ _ _ Hst); [|done..].
    by rewrite sort_slice_perm.
Qed.

Lemma compileInputs_stages rejected r :
  rejecting rejected → compileInputs today inp rejected = Ok r →
  ∃ zone apex static regs cons aggs, stages rejected r zone apex static regs cons aggs.
Proof.
  intros Hrej. unfold compileInputs. destruct (validatePrivateZone _) as [zone|] eqn:Hz; [|done]. cbn.
  set (apex := canonicalName _). set (static := collectStaticClaims _ _ _ _ _).
  set (regs := claimRegistrations _ _ _ _). set (cons := claimContributions _ _ _ _ _).
  set (aggs := foldl _ _ _). intros [= <-]. exists zone, apex, static, regs, cons, aggs.
  pose proof (collectStaticClaims_spec today inp zone apex rejected static_distinct) as Hst.
  fold static in Hst.
  assert (∀ uid, uid ∈ (rs_UID <$> sort_slice staticLess (in_StaticRecords inp)) →
    uid ∉ (reg_UID <$> in_Registrations inp)) as Hstatic.
  { intros uid Hin. apply source_not_registration, elem_of_app. right.
    by rewrite sort_slice_perm in Hin. }
  assert (registrationsOf inp zone apex static (sort_slice registrationLess (in_Registrations inp)) regs)
    as Hregs.
  { apply claimRegistrations_spec; [apply registrations_distinct|by apply Hst| |].
    - intros reg k u Hreg Hk ->. apply (so_holder _ _ _ _ Hst) in Hk as [_ Hk%Hstatic].
      destruct Hk. by apply list_elem_of_fmap_2.
    - intros reg Hreg. apply dec_stable. intros Hr.
      apply (so_origin _ _ _ _ Hst) in Hr as [Hr%Hrej%source_not_registration|Hr%Hstatic];
        destruct Hr; by apply list_elem_of_fmap_2. }
  destruct (claimContributions_aggregated today apex inp rejected regs
    (λ key, ∃ uid, uid ≠ [] ∧ ss_staticClaim static !! key = Some uid)) as [Hacc Hcons].
  split; try done.
  - by apply (static_aggregated _ _ _ _ rejected).
  - cbn. by rewrite sort_slice_perm, map_range_perm.
  - cbn. by rewrite sort_slice_perm, map_range_perm.
  - cbn. by rewrite sort_slice_perm.
Qed.

(** ** Owners *)

Lemma elem_of_ownersOf (claims static : claimMap) o :
  o ∈ ownersOf claims static ↔ ∃ k, is_Some (claims !! k) ∧ o = ownerOf claims static k.
Proof.
  unfold ownersOf. rewrite list_elem_of_fmap. split.
  - intros (k & -> & Hk). exists k. split; [|done]. rewrite sort_slice_perm, map_range_perm in Hk.
    apply list_elem_of_fmap in Hk as ([k' u] & -> & Hk). rewrite elem_of_map_to_list in Hk. by exists u.
  - intros (k & [u Hk] & ->). exists k. split; [done|]. rewrite sort_slice_perm, map_range_perm.
    apply list_elem_of_fmap. exists (k, u). split; [done|]. by apply elem_of_map_to_list.
Qed.

Lemma ownerOf_name (claims static : claimMap) k :
  po_Name (ownerOf claims static k) = k.1 ∧ po_RecordTypes (ownerOf claims static k) = [k.2].
Proof. unfold ownerOf. by destruct (static !! k). Qed.

(** The key an owner entry stands for. *)
Definition ownerKey (o : PublicationOwner) : ownershipKey :=
  (po_Name o, default RRTypeA (head (po_RecordTypes o))).
Lemma ownerKey_ownerOf claims static k : ownerKey (ownerOf claims static k) = k.
Proof. unfold ownerKey. destruct (ownerOf_name claims static k) as [-> ->]. by destruct k. Qed.

(** An owner entry names the holder of the claim, as a record set or as a registration. *)
Lemma owner_holder rejected r zone apex static regs cons aggs k u :
  stages rejected r zone apex static regs cons aggs → gs_claims regs !! k = Some u →
  let o := ownerOf (gs_claims regs) (ss_staticClaim static) k in
  ss_claims static !! k = Some u ∧ po_StaticRecordUID o = u ∧ po_RegistrationUID o = []
    ∧ u ∈ (rs_UID <$> in_StaticRecords inp)
  ∨ ss_claims static !! k = None ∧ po_StaticRecordUID o = [] ∧ po_RegistrationUID o = u
    ∧ ∃ reg, gs_regs regs !! u = Some reg ∧ k.1 = registrationName apex reg
             ∧ k.2 ∈ reg_RecordTypes reg.
Proof.
  intros Hsg Hk. pose proof (sg_static _ _ _ _ _ _ _ _ Hsg) as Hst.
  pose proof (sg_regs _ _ _ _ _ _ _ _ Hsg) as Hregs. unfold ownerOf. rewrite (so_same _ _ _ _ Hst).
  destruct (ss_claims static !! k) as [u'|] eqn:Hs; cbn.
  - left. pose proof (lookup_weaken _ _ _ _ Hs (ro_static _ _ _ _ _ _ Hregs)). simplify_eq.
    split_and!; try done. apply (so_holder _ _ _ _ Hst) in Hs as [_ Hs]. by rewrite sort_slice_perm in Hs.
  - right. rewrite Hk. split_and!; try done.
    destruct (ro_holder _ _ _ _ _ _ Hregs _ _ Hk) as [?|?]; [congruence|done].
Qed.

Lemma static_no_registration rejected r zone apex static regs cons aggs u :
  stages rejected r zone apex static regs cons aggs → u ∈ (rs_UID <$> in_StaticRecords inp) →
  gs_regs regs !! u = None.
Proof.
  intros Hsg Hu. apply eq_None_not_Some. intros [reg Hreg].
  apply (ro_regs _ _ _ _ _ _ (sg_regs _ _ _ _ _ _ _ _ Hsg)) in Hreg as (Hin & <- & _).
  rewrite sort_slice_perm in Hin. apply (source_not_registration (reg_UID reg)).
  - apply elem_of_app. by right.
  - by apply list_elem_of_fmap_2.
Qed.

(** A registration in the plan holds its own name, and at its name for its types nobody else
    does. *)
Lemma owns_exclusively rejected r zone apex static regs cons aggs reg key k u :
  stages rejected r zone apex static regs cons aggs → gs_regs regs !! reg_UID reg = Some reg →
  registrationOwns reg key apex (gs_claims regs) = true → recordAllowed reg key apex = true →
  gs_claims regs !! k = Some u → contending key k → u = reg_UID reg.
Proof.
  intros Hsg Hreg Howns Hallow Hk Hc. pose proof (sg_regs _ _ _ _ _ _ _ _ Hsg) as Hregs.
  unfold registrationOwns, heldByOther in Howns.
  destruct (conflictingClaim _ _) as [old|] eqn:Hold.
  2:{ apply conflictingClaim_None in Hold. by destruct (Hold _ _ Hk). }
  destruct (bool_decide _) eqn:Hne; [done|]. apply bool_decide_eq_false, dec_stable in Hne. subst old.
  apply conflictingClaim_Some in Hold as (k' & Hk' & Hc').
  destruct (owner_holder _ _ _ _ _ _ _ _ _ _ Hsg Hk') as [(_ & _ & _ & Hin)|(_ & _ & _ & reg' & Hreg' & Hn & _)].
  { by rewrite (static_no_registration _ _ _ _ _ _ _ _ _ Hsg Hin) in Hreg. }
  rewrite Hreg in Hreg'. injection Hreg' as <-.
  unfold recordAllowed in Hallow. destruct (containsType _ _) eqn:Ht; [|done].
  apply existsb_exists in Ht as (rt & Hrt & ->%bool_decide_eq_true). rewrite <- list_elem_of_In in Hrt.
  apply (ro_regs _ _ _ _ _ _ Hregs) in Hreg as (_ & _ & _ & _ & Hcl). specialize (Hcl _ Hrt).
  destruct Hc' as [Hname _]. rewrite <- Hn, <- Hname in Hcl.
  symmetry. apply (ro_exclusive _ _ _ _ _ _ Hregs _ _ _ _ Hcl Hk). by destruct key.
Qed.

(** ** SRV targets *)

Lemma elem_of_invalid plan uid :
  uid ∈ invalidSRVSources plan ↔ ∃ set i entry, set ∈ pp_RRsets plan ∧ ps_RecordType set = RRTypeSRV
    ∧ ps_Records set !! i = Some entry ∧ uid ∈ srvSources plan set i entry.
Proof.
  unfold invalidSRVSources. rewrite elem_of_list_to_set, list_elem_of_bind. split.
  - intros (set & Hu & Hset). case_decide as Ht; [|by apply elem_of_nil in Hu].
    apply list_elem_of_join in Hu as (l & Hu & Hl). apply elem_of_lookup_imap in Hl as (i & entry & -> & Hi).
    by exists set, i, entry.
  - intros (set & i & entry & Hset & Ht & Hi & Hu). exists set. split; [|done].
    rewrite decide_True by done. apply list_elem_of_join. exists (srvSources plan set i entry).
    split; [done|]. apply elem_of_lookup_imap. eauto.
Qed.

Lemma rrset_aggregate rejected r zone apex static regs cons aggs set :
  stages rejected r zone apex static regs cons aggs → set ∈ pp_RRsets (res_Plan r) →
  ∃ a, aggs !! (ps_Name set, ps_RecordType set) = Some a ∧ ps_Records set ≡ₚ ag_records a
       ∧ ps_ContributionUIDs set ≡ₚ ag_uids a.
Proof.
  intros Hsg Hset. rewrite (sg_rrsets _ _ _ _ _ _ _ _ Hsg) in Hset.
  apply list_elem_of_fmap in Hset as ([key a] & -> & Ha). apply elem_of_map_to_list in Ha.
  destruct (rrsetOf_spec key a) as (-> & -> & Hr & Hu). exists a. by destruct key.
Qed.

(** An RRset with records that no contribution made is claimed by a record set. *)
Lemma static_owner rejected r zone apex static regs cons aggs set :
  stages rejected r zone apex static regs cons aggs → set ∈ pp_RRsets (res_Plan r) →
  length (ps_ContributionUIDs set) < length (ps_Records set) →
  ∃ o, o ∈ pp_Owners (res_Plan r) ∧ ownerKey o = (ps_Name set, ps_RecordType set)
       ∧ po_StaticRecordUID o ≠ [].
Proof.
  intros Hsg Hset Hlen. destruct (rrset_aggregate _ _ _ _ _ _ _ _ _ Hsg Hset) as (a & Ha & Hr & Hu).
  rewrite Hr, Hu in Hlen. destruct (sg_aggs _ _ _ _ _ _ _ _ Hsg _ _ Ha) as (_ & _ & Hs).
  destruct (Hs Hlen) as (uid & Huid & Hclaim). pose proof (sg_static _ _ _ _ _ _ _ _ Hsg) as Hst.
  rewrite (so_same _ _ _ _ Hst) in Hclaim. set (k := (ps_Name set, ps_RecordType set)) in *.
  pose proof (lookup_weaken _ _ _ _ Hclaim (ro_static _ _ _ _ _ _ (sg_regs _ _ _ _ _ _ _ _ Hsg))) as Hk.
  exists (ownerOf (gs_claims regs) (ss_staticClaim static) k). rewrite ownerKey_ownerOf. split_and!; [|done|].
  - rewrite (sg_owners _ _ _ _ _ _ _ _ Hsg). apply elem_of_ownersOf. eauto.
  - destruct (owner_holder _ _ _ _ _ _ _ _ _ _ Hsg Hk) as [(_ & -> & _)|(Hno & _)]; congruence.
Qed.

Lemma invalid_source rejected r zone apex static regs cons aggs uid :
  stages rejected r zone apex static regs cons aggs → uid ∈ invalidSRVSources (res_Plan r) →
  uid ∈ sources inp ∧ reasonOf rejected uid = [].
Proof.
  intros Hsg Hu. apply elem_of_invalid in Hu as (set & i & entry & Hset & _ & _ & Hu).
  unfold srvSources in Hu. destruct (re_SRV entry); [|by apply elem_of_nil in Hu].
  case_decide; [by apply elem_of_nil in Hu|].
  destruct (ps_ContributionUIDs set !! i) as [uid'|] eqn:Hi.
  - apply list_elem_of_singleton in Hu as ->. apply list_elem_of_lookup_2 in Hi.
    destruct (rrset_aggregate _ _ _ _ _ _ _ _ _ Hsg Hset) as (a & Ha & _ & Huids). rewrite Huids in Hi.
    destruct (sg_aggs _ _ _ _ _ _ _ _ Hsg _ _ Ha) as (_ & Hall & _). rewrite Forall_forall in Hall.
    destruct (Hall _ Hi) as [(c & reg & Hc & <- & Hrej & _) _]. split; [|done].
    apply elem_of_app. left. by apply list_elem_of_fmap_2.
  - apply list_elem_of_fmap in Hu as (o & -> & Ho). apply list_elem_of_filter in Ho as [[_ Hne] Ho].
    rewrite (sg_owners _ _ _ _ _ _ _ _ Hsg) in Ho. apply elem_of_ownersOf in Ho as (k & [u Hk] & ->).
    destruct (owner_holder _ _ _ _ _ _ _ _ _ _ Hsg Hk) as [(Hs & -> & _ & Hin)|(_ & Hnil & _)]; [|done].
    split; [apply elem_of_app; by right|].
    by destruct (so_holder _ _ _ _ (sg_static _ _ _ _ _ _ _ _ Hsg) _ _ Hs) as [? _].
Qed.

(** Without invalid sources every SRV record points to an address of the plan. *)
Definition srvClosed (plan : PublicationPlan) : Prop :=
  ∀ set entry srv, set ∈ pp_RRsets plan → ps_RecordType set = RRTypeSRV →
    entry ∈ ps_Records set → re_SRV entry = Some srv →
    ∃ target, target ∈ pp_RRsets plan ∧ isAddressType (ps_RecordType target) = true
      ∧ absoluteOwner (ps_Name target) (pp_ZoneApex plan) = srvTargetOwner (srv_Target srv) (pp_ZoneApex plan).

Lemma invalid_closed rejected r zone apex static regs cons aggs :
  stages rejected r zone apex static regs cons aggs → invalidSRVSources (res_Plan r) = ∅ →
  srvClosed (res_Plan r).
Proof.
  intros Hsg Hnone set entry srv Hset Ht Hentry Hsrv. apply list_elem_of_lookup in Hentry as [i Hi].
  destruct (decide (srvTargetOwner (srv_Target srv) (pp_ZoneApex (res_Plan r)) ∈ planAddresses (res_Plan r)))
    as [Hin|Hout].
  - unfold planAddresses in Hin. apply elem_of_list_to_set, list_elem_of_fmap in Hin as (t & Heq & Hin).
    apply list_elem_of_filter in Hin as [? ?]. by exists t.
  - exfalso. assert (∃ uid, uid ∈ srvSources (res_Plan r) set i entry) as [uid Hu].
    { unfold srvSources. rewrite Hsrv, decide_False by done.
      destruct (ps_ContributionUIDs set !! i) as [uid|] eqn:Hlen; [exists uid; set_solver|].
      apply lookup_ge_None in Hlen. apply lookup_lt_Some in Hi.
      destruct (static_owner _ _ _ _ _ _ _ _ _ Hsg Hset) as (o & Ho & Hkey & Hne); [lia|].
      exists (po_StaticRecordUID o). apply list_elem_of_fmap_2, list_elem_of_filter.
      split; [|done]. by injection Hkey. }
    assert (uid ∈ invalidSRVSources (res_Plan r)) as Hinv by (apply elem_of_invalid; naive_solver).
    rewrite Hnone in Hinv. by apply elem_of_empty in Hinv.
Qed.

(** ** Holders *)

Lemma elem_of_plan_owners rejected r zone apex static regs cons aggs o :
  stages rejected r zone apex static regs cons aggs → o ∈ pp_Owners (res_Plan r) →
  ∃ u, gs_claims regs !! ownerKey o = Some u
       ∧ o = ownerOf (gs_claims regs) (ss_staticClaim static) (ownerKey o).
Proof.
  intros Hsg. rewrite (sg_owners _ _ _ _ _ _ _ _ Hsg), elem_of_ownersOf.
  intros (k & [u Hk] & ->). rewrite ownerKey_ownerOf. eauto.
Qed.

Lemma owners_exclusive rejected r zone apex static regs cons aggs o o' :
  stages rejected r zone apex static regs cons aggs →
  o ∈ pp_Owners (res_Plan r) → o' ∈ pp_Owners (res_Plan r) → contending (ownerKey o) (ownerKey o') →
  po_RegistrationUID o = po_RegistrationUID o' ∧ po_StaticRecordUID o = po_StaticRecordUID o'.
Proof.
  intros Hsg Hin Hin' Hk. pose proof (sg_regs _ _ _ _ _ _ _ _ Hsg) as Hregs.
  apply (elem_of_plan_owners _ _ _ _ _ _ _ _ _ Hsg) in Hin as (u & Hu & Ho), Hin' as (u' & Hu' & Ho').
  pose proof (ro_exclusive _ _ _ _ _ _ Hregs _ _ _ _ Hu Hu' Hk) as <-. rewrite Ho, Ho'.
  pose proof (static_no_registration _ _ _ _ _ _ _ _ u Hsg) as Hno.
  destruct (owner_holder _ _ _ _ _ _ _ _ _ _ Hsg Hu) as [(_ & -> & -> & Hs)|(_ & -> & -> & reg & Hreg & _)],
    (owner_holder _ _ _ _ _ _ _ _ _ _ Hsg Hu') as [(_ & -> & -> & Hs')|(_ & -> & -> & reg' & Hreg' & _)];
    [done| | |done].
  - by rewrite Hno in Hreg'.
  - by rewrite Hno in Hreg.
Qed.

(** What the plan must show for a contribution [uid] with records in [set]: the contribution is
    live and eligible and follows the current generation of an accepted registration; the name
    is that of the registration or under a subtree it reserves, the type one it lists; and
    every owner entry of the plan that is in conflict with the RRset is the registration's. *)
Definition contributes (r : CompileResult) (set : PublicationRRSet)
    (uid : gostring) : Prop :=
  ∃ c reg, c ∈ in_Contributions inp ∧ con_UID c = uid ∧ uid ∈ res_Accepted r
    ∧ con_DeletionTimestamp c = None ∧ con_Eligible c = true
    ∧ reg ∈ in_Registrations inp ∧ reg_UID reg = or_UID (con_RegistrationRef c)
    ∧ reg_UID reg ∈ res_Accepted r ∧ or_Generation (con_RegistrationRef c) = reg_Generation reg
    ∧ containsType (reg_RecordTypes reg) (ps_RecordType set) = true
    ∧ (ps_Name set = zoneOwner (reg_OwnerName reg) (pp_ZoneApex (res_Plan r))
       ∨ descendantOf reg (ps_Name set) (pp_ZoneApex (res_Plan r)) = true)
    ∧ ∀ o, o ∈ pp_Owners (res_Plan r) → contending (ps_Name set, ps_RecordType set) (ownerKey o) →
        po_RegistrationUID o = reg_UID reg ∧ po_StaticRecordUID o = [].

Lemma rrset_contributes rejected r zone apex static regs cons aggs set uid :
  stages rejected r zone apex static regs cons aggs →
  set ∈ pp_RRsets (res_Plan r) → uid ∈ ps_ContributionUIDs set → contributes r set uid.
Proof.
  intros Hsg Hset Hu. pose proof (sg_regs _ _ _ _ _ _ _ _ Hsg) as Hregs.
  destruct (rrset_aggregate _ _ _ _ _ _ _ _ _ Hsg Hset) as (a & Ha & _ & Huids).
  rewrite Huids in Hu. destruct (sg_aggs _ _ _ _ _ _ _ _ Hsg _ _ Ha) as (_ & Hall & _).
  rewrite Forall_forall in Hall.
  destruct (Hall _ Hu) as [(c & reg & Hin & Hcu & _ & Hreg & Hgen & Hdel & Hel & Howns & Hallow) Hacc].
  pose proof (ro_regs _ _ _ _ _ _ Hregs _ _ Hreg) as (Hrin & Hruid & _ & Hracc & _).
  rewrite sort_slice_perm in Hrin. pose proof Hallow as Hal. unfold recordAllowed in Hal.
  destruct (containsType _ _) eqn:Htype; [|done]. cbn in Hal. apply orb_true_iff in Hal.
  rewrite bool_decide_eq_true in Hal. pose proof (sg_accepted _ _ _ _ _ _ _ _ Hsg) as Hsub.
  exists c, reg. rewrite (sg_result _ _ _ _ _ _ _ _ Hsg), (sg_apex _ _ _ _ _ _ _ _ Hsg).
  rewrite <- Hruid in Hracc, Hreg. split_and!; try done; [by apply Hsub|].
  intros o (u & Hk & Ho)%(elem_of_plan_owners _ _ _ _ _ _ _ _ _ Hsg) Hcon.
  pose proof (owns_exclusively _ _ _ _ _ _ _ _ _ _ _ _ Hsg Hreg Howns Hallow Hk Hcon) as ->.
  rewrite Ho. destruct (owner_holder _ _ _ _ _ _ _ _ _ _ Hsg Hk) as [(_ & _ & _ & Hs)|(_ & -> & -> & _)]; [|done].
  by rewrite (static_no_registration _ _ _ _ _ _ _ _ _ Hsg Hs) in Hreg.
Qed.

(** A registration in the plan has its fence and its entries. *)
Lemma registration_held rejected r zone apex static regs cons aggs reg :
  stages rejected r zone apex static regs cons aggs → reg ∈ in_Registrations inp →
  is_Some (gs_regs regs !! reg_UID reg) →
  (∃ f, f ∈ pp_Registrations (res_Plan r) ∧ rgf_UID f = reg_UID reg
        ∧ rgf_Generation f = reg_Generation reg)
  ∧ (∀ rt, rt ∈ reg_RecordTypes reg → ∃ o, o ∈ pp_Owners (res_Plan r)
       ∧ ownerKey o = (registrationName apex reg, rt) ∧ po_RegistrationUID o = reg_UID reg).
Proof.
  intros Hsg Hin [reg' Hreg]. pose proof (sg_regs _ _ _ _ _ _ _ _ Hsg) as Hregs.
  pose proof (ro_regs _ _ _ _ _ _ Hregs _ _ Hreg) as (Hin' & Huid & _ & _ & Hcl).
  rewrite sort_slice_perm in Hin'.
  pose proof (NoDup_fmap_eq reg_UID _ _ _ registrations_distinct Hin' Hin Huid) as ->. split.
  - exists {| rgf_UID := reg_UID reg; rgf_Generation := reg_Generation reg |}. split; [|done].
    rewrite (sg_registrations _ _ _ _ _ _ _ _ Hsg), (ro_fences _ _ _ _ _ _ Hregs). by exists reg.
  - intros rt Hrt. specialize (Hcl _ Hrt).
    exists (ownerOf (gs_claims regs) (ss_staticClaim static) (registrationName apex reg, rt)).
    rewrite (sg_owners _ _ _ _ _ _ _ _ Hsg), elem_of_ownersOf, ownerKey_ownerOf.
    split_and!; [by eauto|done|].
    destruct (owner_holder _ _ _ _ _ _ _ _ _ _ Hsg Hcl) as [(_ & _ & _ & Hs)|(_ & _ & -> & _)]; [|done].
    by rewrite (static_no_registration _ _ _ _ _ _ _ _ _ Hsg Hs) in Hreg.
Qed.

Lemma registration_outranked rejected r zone apex static regs cons aggs reg :
  stages rejected r zone apex static regs cons aggs → outranked apex static regs reg →
  ∃ rt o, rt ∈ reg_RecordTypes reg ∧ o ∈ pp_Owners (res_Plan r)
    ∧ contending (registrationName apex reg, rt) (ownerKey o)
    ∧ (po_StaticRecordUID o ≠ []
       ∨ ∃ reg', reg' ∈ in_Registrations inp ∧ reg_UID reg' = po_RegistrationUID o
                 ∧ registrationLess reg' reg = true).
Proof.
  intros Hsg (rt & k & u & Hrt & Hk & Hc & Hu). pose proof (sg_regs _ _ _ _ _ _ _ _ Hsg) as Hregs.
  exists rt, (ownerOf (gs_claims regs) (ss_staticClaim static) k).
  rewrite (sg_owners _ _ _ _ _ _ _ _ Hsg), elem_of_ownersOf, ownerKey_ownerOf.
  split_and!; [done|by eauto|done|].
  destruct (owner_holder _ _ _ _ _ _ _ _ _ _ Hsg Hk) as [(Hs & -> & _ & Hin)|(Hs & _ & -> & _)].
  - left. pose proof (wi_nonempty _ Hinput) as Hne. rewrite Forall_forall in Hne. apply Hne.
    apply elem_of_app. by right.
  - right. destruct Hu as [Hu|(reg' & Hreg' & Hless)]; [congruence|]. exists reg'.
    apply (ro_regs _ _ _ _ _ _ Hregs) in Hreg' as (Hin & <- & _). by rewrite sort_slice_perm in Hin.
Qed.

(** ** The loop *)

Lemma reasonOf_rejections (rejected : reasonMap) (invalid : gset gostring) uid :
  let m := set_fold (λ uid m, <[uid := ("MissingSRVTargetAddress" : gostring)]> m) rejected invalid in
  reasonOf m uid ≠ [] ↔ uid ∈ invalid ∨ reasonOf rejected uid ≠ [].
Proof.
  cbn zeta. apply (set_fold_ind_L (λ (m : reasonMap) (X : gset gostring), reasonOf m uid ≠ [] ↔ uid ∈ X ∨ reasonOf rejected uid ≠ [])).
  - set_solver.
  - intros x X m Hx IH. unfold reasonOf at 1. destruct (decide (uid = x)) as [->|Hne].
    + rewrite lookup_insert_eq. set_solver.
    + rewrite lookup_insert_ne by done. fold (reasonOf m uid). set_solver.
Qed.

Lemma compileLoop_spec (fuel : nat) (rejected : reasonMap) (X : gset gostring) :
  (∀ uid, reasonOf rejected uid ≠ [] ↔ uid ∈ X) → X ⊆ list_to_set (sources inp) →
  base.size (list_to_set (sources inp) ∖ X) < fuel →
  match compileLoop today fuel inp rejected with
  | None => False
  | Some (Err e) => validatePrivateZone (in_Zone inp) = Err e
  | Some (Ok r) => invalidSRVSources (res_Plan r) = ∅
      ∧ ∃ rejected', rejecting rejected' ∧ compileInputs today inp rejected' = Ok r
  end.
Proof.
  revert rejected X. induction fuel as [|fuel IH]; intros rejected X HX Hsub Hsize; [lia|]. cbn.
  assert (rejecting rejected) as Hrej.
  { intros uid Hr%HX%Hsub. by apply elem_of_list_to_set in Hr. }
  destruct (compileInputs today inp rejected) as [r|e] eqn:Hc.
  2:{ unfold compileInputs in Hc. destruct (validatePrivateZone _); [done|]. cbn in Hc. congruence. }
  case_decide as Hnone; [by eauto|].
  destruct (compileInputs_stages _ _ Hrej Hc) as (zone & apex & static & regs & cons & aggs & Hsg).
  assert (∀ uid, uid ∈ invalidSRVSources (res_Plan r) → uid ∈ sources inp ∧ uid ∉ X) as Hinv.
  { intros uid Hu. apply (invalid_source _ _ _ _ _ _ _ _ _ Hsg) in Hu as [? Hnil]. split; [done|].
    intros Hin%HX. done. }
  apply (IH _ (invalidSRVSources (res_Plan r) ∪ X)).
  - intros uid. rewrite reasonOf_rejections, elem_of_union, HX. done.
  - intros uid [[? _]%Hinv|?]%elem_of_union; [by apply elem_of_list_to_set|auto].
  - apply set_choose_L in Hnone as [uid Hu]. destruct (Hinv _ Hu) as [Hin Hnot].
    eapply Nat.lt_le_trans; [|apply Nat.lt_succ_r, Hsize]. apply subset_size. split; [set_solver|].
    intros Hbad. specialize (Hbad uid). set_solver.
Qed.

Lemma sources_size : base.size (list_to_set (sources inp) ∖ ∅ : gset gostring)
  < S (length (in_Contributions inp) + length (in_StaticRecords inp)).
Proof.
  rewrite difference_empty_L. destruct Hinput as [Hnd _]. apply NoDup_app in Hnd as [Hnd _].
  rewrite size_list_to_set by done. unfold sources. rewrite length_app, !length_fmap. lia.
Qed.

Lemma Compile_stages :
  match Compile today inp with
  | None => False
  | Some (Err e) => validatePrivateZone (in_Zone inp) = Err e
  | Some (Ok r) => invalidSRVSources (res_Plan r) = ∅
      ∧ ∃ rejected zone apex static regs cons aggs, rejecting rejected
        ∧ stages rejected r zone apex static regs cons aggs
  end.
Proof.
  pose proof (compileLoop_spec _ ∅ ∅ ltac:(set_solver) ltac:(set_solver) sources_size) as Hloop.
  unfold Compile. destruct (compileLoop _ _ _ _) as [[r|e]|]; [|done..].
  destruct Hloop as [Hnone (rejected & Hrej & Hc)]. split; [done|].
  destruct (compileInputs_stages _ _ Hrej Hc) as (zone & apex & static & regs & cons & aggs & Hsg).
  by exists rejected, zone, apex, static, regs, cons, aggs.
Qed.
End plans.

(** ** Theorems *)

(** C20. [Compile] always ends, within one round per contribution and record set.  It fails only
    on a zone that is missing or not private; otherwise every SRV record of the plan points to
    a name for which the plan itself has an A or AAAA RRset. *)
Theorem Compile_closed `{GoRuntime, ApiMeta, K8sValidation} today inp :
  wf_Input inp →
  match Compile today inp with
  | None => False
  | Some (Err e) => validatePrivateZone (in_Zone inp) = Err e
  | Some (Ok r) => srvClosed (res_Plan r)
  end.
Proof.
  intros Hinput. pose proof (Compile_stages today inp Hinput) as Hc.
  destruct (Compile today inp) as [[r|e]|]; [|done..].
  destruct Hc as (Hnone & rejected & zone & apex & static & regs & cons & aggs & _ & Hsg).
  by apply (invalid_closed _ _ Hinput _ _ _ _ _ _ _ _ Hsg).
Qed.

(** C19. In a compiled plan every name has one holder per type, a CNAME one for all types, and
    records come only from holders: a contribution's RRset lies at a name its registration may
    write and that nobody else holds, and an RRset with records of no contribution is at a
    name and type a record set holds. *)
Theorem Compile_ownership `{GoRuntime, ApiMeta, K8sValidation} today inp r :
  wf_Input inp → Compile today inp = Some (Ok r) →
  (∀ o o', o ∈ pp_Owners (res_Plan r) → o' ∈ pp_Owners (res_Plan r) →
     contending (ownerKey o) (ownerKey o') →
     po_RegistrationUID o = po_RegistrationUID o' ∧ po_StaticRecordUID o = po_StaticRecordUID o')
  ∧ (∀ set uid, set ∈ pp_RRsets (res_Plan r) → uid ∈ ps_ContributionUIDs set →
       contributes inp r set uid)
  ∧ (∀ set, set ∈ pp_RRsets (res_Plan r) →
       length (ps_ContributionUIDs set) < length (ps_Records set) →
       ∃ o, o ∈ pp_Owners (res_Plan r) ∧ ownerKey o = (ps_Name set, ps_RecordType set)
            ∧ po_StaticRecordUID o ≠ []).
Proof.
  intros Hinput Hc. pose proof (Compile_stages today inp Hinput) as Hst. rewrite Hc in Hst.
  destruct Hst as (_ & rejected & zone & apex & static & regs & cons & aggs & _ & Hsg). split_and!.
  - intros o o' Ho Ho'. by apply (owners_exclusive _ _ Hinput _ _ _ _ _ _ _ _ _ _ Hsg).
  - intros set uid Hset Hu. by apply (rrset_contributes _ _ Hinput _ _ _ _ _ _ _ _ _ _ Hsg).
  - intros set Hset Hlen. by apply (static_owner _ _ _ _ _ _ _ _ _ _ _ Hsg).
Qed.

(** C21. Registrations compete by age.  One that passes the checks on itself is either in the
    plan, with its generation and an owner entry for each of its types; or it is refused for
    [NameConflict], and then the plan has an owner entry in conflict with one of its types that
    belongs to a record set or to a registration that is older, or as old with a smaller
    UID. *)
Theorem registrations_precedence `{GoRuntime, ApiMeta, K8sValidation} today inp r zone reg :
  wf_Input inp → Compile today inp = Some (Ok r) → in_Zone inp = Some zone →
  reg ∈ in_Registrations inp →
  let apex := pp_ZoneApex (res_Plan r) in
  registrationFault inp zone apex reg = Some [] →
  (∃ f, f ∈ pp_Registrations (res_Plan r) ∧ rgf_UID f = reg_UID reg
        ∧ rgf_Generation f = reg_Generation reg)
  ∧ (∀ rt, rt ∈ reg_RecordTypes reg → ∃ o, o ∈ pp_Owners (res_Plan r)
       ∧ ownerKey o = (zoneOwner (reg_OwnerName reg) apex, rt) ∧ po_RegistrationUID o = reg_UID reg)
  ∨ (∀ f, f ∈ pp_Registrations (res_Plan r) → rgf_UID f ≠ reg_UID reg)
    ∧ reasonOf (res_Reasons r) (reg_UID reg) = "NameConflict"
    ∧ ∃ rt o, rt ∈ reg_RecordTypes reg ∧ o ∈ pp_Owners (res_Plan r)
      ∧ contending (zoneOwner (reg_OwnerName reg) apex, rt) (ownerKey o)
      ∧ (po_StaticRecordUID o ≠ []
         ∨ ∃ reg', reg' ∈ in_Registrations inp ∧ reg_UID reg' = po_RegistrationUID o
                   ∧ registrationLess reg' reg = true).
Proof.
  intros Hinput Hc Hzone Hin apex Hfault. pose proof (Compile_stages today inp Hinput) as Hst.
  rewrite Hc in Hst.
  destruct Hst as (_ & rejected & zone' & apex' & static & regs & cons & aggs & _ & Hsg).
  pose proof (sg_regs _ _ _ _ _ _ _ _ _ _ Hsg) as Hregs.
  assert (zone' = zone) as ->.
  { pose proof (sg_zone _ _ _ _ _ _ _ _ _ _ Hsg) as Hz. rewrite Hzone in Hz. cbn in Hz.
    by repeat case_decide; simplify_eq. }
  assert (apex' = apex) as -> by (symmetry; apply (sg_apex _ _ _ _ _ _ _ _ _ _ Hsg)).
  assert (reg ∈ sort_slice registrationLess (in_Registrations inp)) as Hseen by by rewrite sort_slice_perm.
  destruct (gs_regs regs !! reg_UID reg) as [reg'|] eqn:Hreg; [left|right].
  - by apply (registration_held _ _ Hinput _ _ _ _ _ _ _ _ _ Hsg).
  - destruct (ro_refused _ _ _ _ _ _ Hregs _ Hseen Hfault Hreg) as [Hreason Hout]. split_and!.
    + intros f. rewrite (sg_registrations _ _ _ _ _ _ _ _ _ _ Hsg), (ro_fences _ _ _ _ _ _ Hregs).
      intros (r' & Hr' & _) Heq. congruence.
    + rewrite (sg_reasons _ _ _ _ _ _ _ _ _ _ Hsg), (sg_cons _ _ _ _ _ _ _ _ _ _ Hsg).
      rewrite claimContributions_reasons; [done|]. intros Hcon.
      apply (source_not_registration inp Hinput (reg_UID reg)); [apply elem_of_app; by left|].
      by apply list_elem_of_fmap_2.
    + by apply (registration_outranked _ _ Hinput _ _ _ _ _ _ _ _ _ Hsg).
Qed.

(** ** Witnesses *)

#[local] Existing Instance reference_runtime.
#[local] Existing Instance reference_apimeta.
#[local] Existing Instance reference_validation.

Definition exampleZone : PrivateZone := {|
  pz_Zone := {| z_Namespace := "ns"; z_Name := "corp"; z_UID := "z"; z_Generation := 1;
                z_DeletionTimestamp := None; z_Finalizers := []; z_DomainName := "corp.internal";
                z_DNSZoneClassName := []; z_Visibility := "Private"; z_Nameservers := [];
                z_RecordCount := 0; z_Conditions := []; z_DomainRef := None |};
  pz_Controller := None |}.

Definition exampleRecordSet (uid : gostring) (t : RRType) (records : list RecordEntry) : DNSRecordSet := {|
  rs_Namespace := "ns"; rs_Name := uid; rs_UID := uid; rs_Generation := 1; rs_CreationTimestamp := 1;
  rs_DeletionTimestamp := None; rs_Finalizers := []; rs_OwnerReferences := []; rs_DNSZoneRef := "corp";
  rs_RecordType := t; rs_Records := records; rs_Conditions := []; rs_RecordSets := [] |}.

Definition exampleClaim (uid name : gostring) (types : list RRType) (created : Z) : DNSRegistration := {|
  reg_Name := uid; reg_UID := uid; reg_Generation := 2; reg_CreationTimestamp := created;
  reg_DeletionTimestamp := None; reg_DNSZoneRef := "corp"; reg_OwnerName := name;
  reg_RecordTypes := types; reg_TTLSeconds := 30; reg_ReservedDescendants := [] |}.

Definition exampleContribution (uid registration : gostring) (t : RRType) (record : RecordEntry) :
    DNSRecordContribution := {|
  con_Name := uid; con_UID := uid; con_Generation := 3; con_DeletionTimestamp := None;
  con_RegistrationRef := {| or_Name := registration; or_UID := registration; or_Generation := 2 |};
  con_RecordSets := [{| crs_RecordType := t; crs_Records := [record] |}]; con_Eligible := true |}.

Definition exampleInput (regs : list DNSRegistration) (cs : list DNSRecordContribution)
    (records : list DNSRecordSet) (previous : option PublicationPlan) : CompileInput := {|
  in_Zone := Some exampleZone; in_Associations := []; in_AssociationReferences := ∅;
  in_RegistrationZoneReferences :=
    list_to_map ((λ r, (reg_UID r, {| or_Name := "corp"; or_UID := "z"; or_Generation := 1 |})) <$> regs);
  in_Registrations := regs; in_Contributions := cs; in_StaticRecords := records;
  in_Previous := previous |}.

Definition entryA (name : gostring) : RecordEntry :=
  assign (FA {| Content := "10.0.0.1" |}) (set_Name name emptyEntry).
Definition entrySRV (name target : gostring) : RecordEntry :=
  assign (FSRV {| srv_Priority := 0; srv_Weight := 0; srv_Port := 80; srv_Target := target |})
    (set_Name name emptyEntry).

(** Two registrations of one name, a contribution to each, and an SRV record set that points to
    the name. *)
Definition exampleContest : CompileInput :=
  exampleInput [exampleClaim "young" "web" [RRTypeA] 7; exampleClaim "old" "web" [RRTypeA] 5]
    [exampleContribution "c1" "old" RRTypeA (entryA "WEB.corp.internal.");
     exampleContribution "c2" "young" RRTypeA (entryA "web")]
    [exampleRecordSet "srv" RRTypeSRV [entrySRV "_http._tcp" "web.corp.internal."]] None.

Definition resultOf (inp : CompileInput) : CompileResult :=
  match Compile [] inp with
  | Some (Ok r) => r
  | _ => {| res_Plan := {| pp_ZoneUID := []; pp_ZoneApex := []; pp_ContextUIDs := []; pp_Owners := [];
                           pp_RRsets := []; pp_Contributions := []; pp_Registrations := [] |};
            res_Accepted := ∅; res_Reasons := ∅ |}
  end.

Lemma exampleContest_wf : wf_Input exampleContest.
Proof. split; apply (bool_decide_eq_true_1 _); vm_compute; reflexivity. Defined.

Lemma exampleContest_compiles : Compile [] exampleContest = Some (Ok (resultOf exampleContest)).
Proof. vm_compute. reflexivity. Defined.

Lemma Compile_closed_witness :
  srvClosed (res_Plan (resultOf exampleContest))
  ∧ (ps_RecordType <$> pp_RRsets (res_Plan (resultOf exampleContest))) = [RRTypeSRV; RRTypeA].
Proof.
  split; [|vm_compute; reflexivity]. pose proof (Compile_closed [] exampleContest exampleContest_wf) as Hc.
  by rewrite exampleContest_compiles in Hc.
Defined.

Lemma Compile_ownership_witness :
  ∃ set, set ∈ pp_RRsets (res_Plan (resultOf exampleContest)) ∧ ps_ContributionUIDs set = ["c1" : gostring]
    ∧ contributes exampleContest (resultOf exampleContest) set "c1".
Proof.
  pose proof (Compile_ownership [] exampleContest _ exampleContest_wf exampleContest_compiles) as (_ & Hcon & _).
  set (set := {| ps_Name := "web"; ps_RecordType := RRTypeA; ps_TTLSeconds := 30;
                 ps_Records := [entryA "web"]; ps_ContributionUIDs := ["c1" : gostring] |}).
  assert (set ∈ pp_RRsets (res_Plan (resultOf exampleContest))) as Hset.
  { apply list_elem_of_lookup. exists 1. vm_compute. reflexivity. }
  exists set. split_and!; [done|done|]. apply Hcon; [done|]. left.
Defined.

Lemma registrations_precedence_witness :
  reasonOf (res_Reasons (resultOf exampleContest)) "young" = "NameConflict".
Proof.
  destruct (registrations_precedence [] exampleContest (resultOf exampleContest) exampleZone
              (exampleClaim "young" "web" [RRTypeA] 7)) as [[(f & Hf & Hu & _) _]|(_ & Hreason & _)];
    [exact exampleContest_wf|exact exampleContest_compiles|done|left|vm_compute; reflexivity| |exact Hreason].
  exfalso. assert (pp_Registrations (res_Plan (resultOf exampleContest))
    = [{| rgf_UID := "old"; rgf_Generation := 2 |}]) as Heq by (vm_compute; reflexivity).
  rewrite Heq in Hf. apply list_elem_of_singleton in Hf as ->. cbn in Hu. discriminate Hu.
Defined.
