(* ===== verification/CompileHistory.v ===== *)
(** The fences of a zone over its publications, from the compiler to the replica.

    Each compilation starts from the fences of the plan published before ([loadPrevious] in
    [publication_reconciler.go]) and carries them on; a replica keeps the fences of what it has
    applied and refuses a plan that goes back ([ServingFences]).  The two never meet: whatever
    the inputs of the compilations, a replica that receives any of the published plans, in
    order, accepts every one. *)

From S2P Require Import Prelude GoStrings Api ApiMeta RdataRender GoJson WireModel ReservedScopes.
From S2P Require Import ServingFences.
From S2P Require Import Compile CompileClaims CompileSafety.

(** ** The plan a compilation starts from *)

Definition int64 (z : Z) : Z := ((z + 2 ^ 63) mod 2 ^ 64 - 2 ^ 63)%Z.

Definition previousOf (wire : WireModel.PublicationPlan) : PublicationPlan := {|
  pp_ZoneUID := pl_ZoneUID wire; pp_ZoneApex := pl_Apex wire; pp_ContextUIDs := []; pp_Owners := [];
  pp_RRsets := [];
  pp_Contributions := (λ f, {| fe_UID := of_ContributionUID f; fe_Generation := int64 (of_Generation f);
                               fe_Sequence := int64 (of_Sequence f); fe_Retired := of_Retired f;
                               fe_SourceName := of_SourceName f |}) <$> pl_ObservationFences wire;
  pp_Registrations := (λ f, {| rgf_UID := rf_UID f; rgf_Generation := int64 (rf_Generation f) |})
                      <$> pl_Registrations wire |}.

(** ** Fences of one compilation *)

Definition wf_Fence (f : ContributionFence) : Prop :=
  fe_UID f ≠ [] ∧ (1 ≤ fe_Generation f < 2 ^ 63)%Z ∧ fe_Sequence f = fe_Generation f.
Definition fence_upTo (f f' : ContributionFence) : Prop :=
  (fe_Generation f ≤ fe_Generation f')%Z ∧ (fe_Retired f = true → fe_Retired f' = true).

(** A fence is kept under its UID. *)
Definition keyed (m : gmap gostring ContributionFence) : Prop :=
  ∀ uid f, m !! uid = Some f → fe_UID f = uid ∧ wf_Fence f.

Lemma previousFences_spec (plan : PublicationPlan) :
  NoDup (fe_UID <$> pp_Contributions plan) → Forall wf_Fence (pp_Contributions plan) →
  keyed (previousFences (Some plan))
  ∧ ∀ f, f ∈ pp_Contributions plan → previousFences (Some plan) !! fe_UID f = Some f.
Proof.
  intros Hnd Hwf. rewrite Forall_forall in Hwf.
  assert ((∀ uid f, previousFences (Some plan) !! uid = Some f → f ∈ pp_Contributions plan ∧ fe_UID f = uid)
    ∧ ∀ f, f ∈ pp_Contributions plan → previousFences (Some plan) !! fe_UID f = Some f) as [Hin Hlook].
  { cbn. revert Hnd. generalize (pp_Contributions plan). intros l Hnd.
    apply (foldl_prefix (λ seen (m : gmap gostring ContributionFence),
      (∀ uid f, m !! uid = Some f → f ∈ seen ∧ fe_UID f = uid) ∧ ∀ f, f ∈ seen → m !! fe_UID f = Some f)).
    - split; [by intros ? ? ?%lookup_empty_Some|by intros ? ?%elem_of_nil].
    - intros l1 f l2 m -> [IH1 IH2]. rewrite fmap_app in Hnd. apply NoDup_app in Hnd as (_ & Hnot & _).
      split.
      + intros uid g Hg. apply lookup_insert_Some in Hg as [[<- <-]|[_ Hg]]; [set_solver|].
        apply IH1 in Hg as [? ?]. set_solver.
      + intros g [Hg| ->%list_elem_of_singleton]%elem_of_app; [|by rewrite lookup_insert_eq].
        rewrite lookup_insert_ne; [by apply IH2|]. intros Heq.
        apply (Hnot (fe_UID g)); [by apply list_elem_of_fmap_2|]. rewrite <- Heq. left. }
  split; [|done]. intros uid f Hf. destruct (Hin _ _ Hf). auto.
Qed.

Section fences.
Context `{GoRuntime, ApiMeta, K8sValidation}.
Variables (today apex : gostring) (inp : CompileInput) (rejected : reasonMap) (regs : RegistrationState).
Variable previous : gmap gostring ContributionFence.
Hypothesis Hprevious : keyed previous.

Definition advanced_from (fences : gmap gostring ContributionFence) : Prop :=
  keyed fences ∧ ∀ uid f, previous !! uid = Some f → ∃ f', fences !! uid = Some f' ∧ fence_upTo f f'.

Lemma carriedFences_advanced cs : advanced_from (carriedFences previous cs).
Proof.
  unfold carriedFences. split.
  - intros uid f. rewrite map_lookup_imap. destruct (previous !! uid) as [g|] eqn:Hg; [|done]. cbn.
    intros [= <-]. apply Hprevious in Hg. by case_decide.
  - intros uid f Hf. rewrite map_lookup_imap, Hf. cbn. eexists. split; [done|].
    case_decide; split; cbn; done || lia.
Qed.

Lemma addContribution_advanced st c :
  con_UID c ≠ [] → (con_Generation c < 2 ^ 63)%Z → advanced_from (cs_fences st) →
  advanced_from (cs_fences (addContribution today apex (gs_claims regs) (gs_regs regs) previous rejected st c)).
Proof.
  intros Hne Hgen [Hkey Hle].
  assert (∀ reg, validateContribution c reg (default zeroFence (previous !! con_UID c)) = [] →
    advanced_from (cs_fences (advanceContribution previous st c))) as Hadv.
  { intros reg (_ & _ & _ & Hret & Hone & Hup)%validateContribution_nil. unfold advanceContribution.
    cbn. case_match; [|done]. split.
    - intros uid f. rewrite lookup_insert_Some. intros [[<- <-]|[_ Hf]]; [|by apply Hkey].
      split; [done|]. split_and!; cbn; [done|lia|lia|done].
    - intros uid f Hf. destruct (decide (uid = con_UID c)) as [->|Hother].
      + rewrite lookup_insert_eq. eexists. split; [done|]. rewrite Hf in Hret, Hup. cbn in Hret, Hup.
        destruct (Hprevious _ _ Hf) as [Huid _]. split; [|congruence].
        destruct Hup as [Hup|Hup]; [congruence|]. cbn. lia.
      + rewrite lookup_insert_ne by done. by apply Hle. }
  unfold addContribution. destruct (validateContribution _ _ _) eqn:Hv; [|done].
  pose proof (validateContribution_nil _ _ _ Hv) as (reg & Hreg & _). rewrite Hreg in Hv |- *.
  specialize (Hadv _ Hv). by repeat case_match.
Qed.
End fences.

Lemma claimContributions_advanced `{GoRuntime, ApiMeta, K8sValidation} today apex inp rejected regs :
  keyed (previousFences (in_Previous inp)) →
  Forall (λ c, con_UID c ≠ [] ∧ (con_Generation c < 2 ^ 63)%Z) (in_Contributions inp) →
  advanced_from (previousFences (in_Previous inp))
    (cs_fences (claimContributions today inp apex regs rejected)).
Proof.
  intros Hkey Hcs. rewrite Forall_forall in Hcs. unfold claimContributions.
  apply (foldl_inv (λ st, advanced_from _ (cs_fences st))).
  - by apply carriedFences_advanced.
  - intros st c [? ?]%Hcs Hst. by apply addContribution_advanced.
Qed.

(** ** Fences on the wire *)

Definition wf_Observation (o : ObservationFence) : Prop :=
  of_ContributionUID o ≠ [] ∧ (1 ≤ of_Generation o < 2 ^ 63)%Z ∧ of_Sequence o = of_Generation o.
Definition observation_upTo (o o' : ObservationFence) : Prop :=
  of_ContributionUID o' = of_ContributionUID o ∧ (of_Generation o ≤ of_Generation o')%Z
  ∧ (of_Retired o = true → of_Retired o' = true).

Definition wf_Observations (w : WireModel.PublicationPlan) : Prop :=
  NoDup (of_ContributionUID <$> pl_ObservationFences w) ∧ Forall wf_Observation (pl_ObservationFences w).

Definition carries (w w' : WireModel.PublicationPlan) : Prop :=
  ∀ o, o ∈ pl_ObservationFences w → ∃ o', o' ∈ pl_ObservationFences w' ∧ observation_upTo o o'.

Lemma int64_small z : (0 ≤ z < 2 ^ 63)%Z → int64 z = z.
Proof. intros Hz. unfold int64. rewrite Z.mod_small; lia. Qed.
Lemma uint64_small z : (0 ≤ z < 2 ^ 63)%Z → uint64 z = z.
Proof. intros Hz. unfold uint64. apply Z.mod_small. lia. Qed.

Lemma wireFence_wf f :
  wf_Fence f → wf_Observation (wireFence f) ∧ of_Generation (wireFence f) = fe_Generation f.
Proof.
  intros (Hu & Hg & Hs). unfold wf_Observation, wireFence. cbn. rewrite Hs, !uint64_small by lia. done.
Qed.

(** What a compilation starts from is what the plan before says. *)
Lemma previousOf_fences w :
  wf_Observations w →
  keyed (previousFences (Some (previousOf w))) ∧
  ∀ o, o ∈ pl_ObservationFences w → ∃ f, previousFences (Some (previousOf w)) !! of_ContributionUID o = Some f
       ∧ fe_Generation f = of_Generation o ∧ fe_Retired f = of_Retired o.
Proof.
  intros [Hnd Hwf]. rewrite Forall_forall in Hwf.
  destruct (previousFences_spec (previousOf w)) as [Hkey Hin].
  - cbn. by rewrite <- list_fmap_compose.
  - cbn. apply Forall_fmap, Forall_forall. intros o' (Hu & Hg & Hs)%Hwf. unfold wf_Fence.
    cbn. rewrite Hs, int64_small by lia. done.
  - split; [done|]. intros o Ho. eexists. split.
    { apply (Hin {| fe_UID := of_ContributionUID o; fe_Generation := int64 (of_Generation o);
        fe_Sequence := int64 (of_Sequence o); fe_Retired := of_Retired o;
        fe_SourceName := of_SourceName o |}). cbn. apply list_elem_of_fmap. by exists o. }
    cbn. split; [|done]. apply Hwf in Ho as (_ & Hg & _). apply int64_small. lia.
Qed.

(** ** Publications of a zone *)

Section history.
Context `{GoRuntime, ApiMeta, K8sValidation, MiekgDNS}.

(** [w] is published after [previous], [None] for the first publication: the compiler ran on
    some input of API objects with the fences of [previous], and the wire plan is valid. *)
Definition publishes (previous : option WireModel.PublicationPlan) (w : WireModel.PublicationPlan) : Prop :=
  ∃ today inp r, wf_Input inp ∧ Forall (λ c, (con_Generation c < 2 ^ 63)%Z) (in_Contributions inp)
    ∧ in_Previous inp = previousOf <$> previous
    ∧ Compile today inp = Some (Ok r) ∧ WirePlan today (res_Plan r) = Ok w.

Lemma WirePlan_Ok today plan w :
  WirePlan today plan = Ok w →
  PublicationPlan_Validate w = Ok tt
  ∧ pl_ObservationFences w ≡ₚ wireFence <$> pp_Contributions plan.
Proof.
  unfold WirePlan. destruct (mapM _ _) as [sets|]; [|done]. cbn.
  destruct (PublicationPlan_Validate _) as [[]|] eqn:Hv; [|done]. intros [= <-]. split; [done|].
  cbn. apply sort_slice_perm.
Qed.

Lemma publishes_spec previous w :
  (∀ w0, previous = Some w0 → wf_Observations w0) → publishes previous w →
  wf_Observations w ∧ ∀ w0, previous = Some w0 → carries w0 w.
Proof.
  intros Hprev (today & inp & r & Hinput & Hgen & Hin & Hc & Hw).
  pose proof (Compile_stages today inp Hinput) as Hst. rewrite Hc in Hst.
  destruct Hst as (_ & rejected & zone & apex & static & regs & cons & aggs & _ & Hsg).
  apply WirePlan_Ok in Hw as [Hvalid Hw]. rewrite (sg_fences _ _ _ _ _ _ _ _ _ _ Hsg) in Hw.
  assert (keyed (previousFences (in_Previous inp))) as Hkey.
  { rewrite Hin. destruct previous as [w0|]; cbn [fmap option_fmap option_map].
    - by apply previousOf_fences, Hprev.
    - intros uid f Hf. cbn in Hf. by rewrite lookup_empty in Hf. }
  assert (Forall (λ c, con_UID c ≠ [] ∧ (con_Generation c < 2 ^ 63)%Z) (in_Contributions inp)) as Hcs.
  { apply Forall_and. split; [|done]. pose proof (wi_nonempty _ Hinput) as Hne.
    apply Forall_app in Hne as [Hne _]. by rewrite Forall_fmap in Hne. }
  destruct (claimContributions_advanced today apex inp rejected regs Hkey Hcs) as [Hfin Hle].
  rewrite <- (sg_cons _ _ _ _ _ _ _ _ _ _ Hsg) in Hfin, Hle.
  assert (∀ o, o ∈ pl_ObservationFences w ↔ ∃ uid f, cs_fences cons !! uid = Some f ∧ o = wireFence f) as Helem.
  { intros o. rewrite Hw, list_elem_of_fmap. setoid_rewrite list_elem_of_fmap. split.
    - intros (f & -> & [uid g] & -> & Hg). rewrite elem_of_map_to_list in Hg. by exists uid, g.
    - intros (uid & f & Hf & ->). exists f. split; [done|]. exists (uid, f). by rewrite elem_of_map_to_list. }
  split; [split; [by apply plan_contributions|]|].
  - apply Forall_forall. intros o (uid & f & Hf & ->)%Helem. by apply wireFence_wf, (Hfin uid).
  - intros w0 -> o Ho. destruct (previousOf_fences w0 (Hprev _ eq_refl)) as [_ Hf].
    apply Hf in Ho as (f & Hlook & Hg & Hr). clear Hf. rename Hlook into Hf.
    rewrite Hin in Hle. destruct (Hle _ _ Hf) as (f' & Hf' & Hup & Hret).
    exists (wireFence f'). split; [by apply Helem; eauto|].
    destruct (Hfin _ _ Hf') as [Huid Hwf]. destruct (wireFence_wf _ Hwf) as [_ Hgen'].
    split_and!; [done|lia|]. intros Ho'. apply Hret. congruence.
Qed.

(** The publications of a zone, oldest first. *)
Inductive published : list WireModel.PublicationPlan → Prop :=
| published_nil : published []
| published_snoc ws w : published ws → publishes (last ws) w → published (ws ++ [w]).

Lemma published_wf ws w : published ws → last ws = Some w → wf_Observations w.
Proof.
  intros Hws. revert w. induction Hws as [|ws w _ IH Hp]; [done|]. intros w'. rewrite last_snoc.
  intros [= <-]. by apply (publishes_spec (last ws)).
Qed.

(** ** The replica *)

(** A replica takes a plan: the checks and the commit of [ServingFences]. *)
Definition deliver (F : contributionFences) (w : WireModel.PublicationPlan) :
    result FenceError contributionFences :=
  _ ← validateContributionFences F w;
  Ok (commitContributionFences F w).

(** The replica's fences are behind a plan. *)
Definition behind (F : contributionFences) (w : WireModel.PublicationPlan) : Prop :=
  ∀ uid c, F !! uid = Some c → ∃ o, o ∈ pl_ObservationFences w ∧ of_ContributionUID o = uid
    ∧ cf_Sequence c = cf_Generation c ∧ (cf_Generation c ≤ of_Generation o)%Z
    ∧ (cf_Retired c = true → of_Retired o = true).

Lemma behind_carries F w w' : behind F w → carries w w' → behind F w'.
Proof.
  intros HF Hw uid c Hc. destruct (HF _ _ Hc) as (o & Ho & <- & Hs & Hg & Hr).
  destruct (Hw _ Ho) as (o' & Ho' & Hu & Hg' & Hr'). exists o'. split_and!; [done..|lia|auto].
Qed.

Lemma commit_behind F w :
  wf_Observations w → behind F w → behind (commitContributionFences F w) w.
Proof.
  intros [_ Hwf] HF. rewrite Forall_forall in Hwf. unfold commitContributionFences.
  apply (foldl_inv (λ F', behind F' w)); [done|]. intros F' o Ho HF' uid c.
  unfold commitContribution. case_match; [|by apply HF'].
  rewrite lookup_insert_Some. intros [[<- <-]|[_ Hc]]; [|by apply HF'].
  exists o. apply Hwf in Ho as Hw. destruct Hw as (_ & _ & Hs). by split_and!.
Qed.

Lemma deliver_behind F w :
  wf_Observations w → behind F w → ∃ F', deliver F w = Ok F' ∧ behind F' w.
Proof.
  intros Hwf HF. exists (commitContributionFences F w). split; [|by apply commit_behind].
  unfold deliver. enough (validateContributionFences F w = Ok tt) as -> by done.
  apply result_iter_Ok, Forall_forall. intros o Ho. unfold ServingFences.validateContribution.
  destruct (F !! of_ContributionUID o) as [c|] eqn:Hc; [|done].
  destruct (HF _ _ Hc) as (o' & Ho' & Hu & Hs & Hg & Hr). destruct Hwf as [Hnd Hwf].
  pose proof (NoDup_fmap_eq of_ContributionUID _ _ _ Hnd Ho' Ho Hu) as ->.
  rewrite Forall_forall in Hwf. destruct (Hwf _ Ho) as (_ & _ & Hso).
  rewrite refuse_bind, refuse_Ok. split.
  - destruct (cf_Retired c); [|done]. by rewrite Hr.
  - apply Z.ltb_ge. unfold compareFence, Compare. rewrite Hs, Hso. repeat case_match; lia.
Qed.

(** C18. The fences of compiler and replica agree over a zone's whole life: whatever objects come
    and go between the compilations, a replica that receives any of the published plans, in the
    order of their publication and possibly with gaps, accepts each of them. *)
Theorem publications_accepted ws received :
  published ws → sublist received ws → is_Ok (result_fold deliver ∅ received).
Proof.
  intros Hws Hsub.
  enough (∃ F, result_fold deliver ∅ received = Ok F ∧ (∀ w, last ws = Some w → behind F w)
    ∧ (ws = [] → F = ∅)) as (F & HF & _) by by exists F.
  revert received Hsub. induction Hws as [|ws w Hws IH Hp]; intros received Hsub.
  { apply sublist_nil_r in Hsub as ->. by exists ∅. }
  destruct (publishes_spec _ _ (λ w0, published_wf ws w0 Hws) Hp) as [Hw Hcar].
  apply sublist_app_r in Hsub as (r1 & r2 & -> & Hr1 & Hr2).
  destruct (IH r1 Hr1) as (F & HF & Hbeh & Hnil). rewrite result_fold_app, HF. cbn.
  assert (behind F w) as HFw.
  { destruct (last ws) as [w0|] eqn:Hlast.
    - by apply (behind_carries F w0); auto.
    - apply last_None in Hlast. rewrite Hnil by done. by intros ? ? ?%lookup_empty_Some. }
  assert (∀ w', last (ws ++ [w]) = Some w' → w' = w) as Hl by (intros w'; rewrite last_snoc; congruence).
  assert (ws ++ [w] ≠ []) by by destruct ws.
  apply sublist_cons_r in Hr2 as [Hr2|(r2' & -> & Hr2)]; apply sublist_nil_r in Hr2 as ->; cbn.
  - exists F. split_and!; [done|by intros w' ->%Hl|done].
  - destruct (deliver_behind F w Hw HFw) as (F' & -> & HF'). cbn.
    exists F'. split_and!; [done|by intros w' ->%Hl|done].
Qed.
End history.

(** ** Witnesses *)

#[local] Existing Instance reference_runtime.
#[local] Existing Instance reference_apimeta.
#[local] Existing Instance reference_validation.
#[local] Existing Instance reference_miekg.

Definition wireOf (inp : CompileInput) : WireModel.PublicationPlan :=
  match WirePlan [] (res_Plan (resultOf inp)) with
  | Ok w => w
  | Err _ => {| pl_ZoneUID := []; pl_Apex := []; pl_Registrations := []; pl_ObservationFences := [];
                pl_Owners := []; pl_RRSets := [] |}
  end.

(** The contested zone of [CompileSafety], and the same zone after the contributions are gone. *)
Definition exampleFirst : WireModel.PublicationPlan := wireOf exampleContest.
Definition exampleAfter : CompileInput := exampleInput [] [] [] (Some (previousOf exampleFirst)).
Definition exampleSecond : WireModel.PublicationPlan := wireOf exampleAfter.

Lemma example_published : published [exampleFirst; exampleSecond].
Proof.
  change (published (([] ++ [exampleFirst]) ++ [exampleSecond])).
  repeat apply published_snoc; [exact published_nil| |].
  - exists [], exampleContest, (resultOf exampleContest). split_and!; [exact exampleContest_wf| | | |].
    + apply (bool_decide_eq_true_1 _). vm_compute. reflexivity.
    + reflexivity.
    + exact exampleContest_compiles.
    + vm_compute. reflexivity.
  - exists [], exampleAfter, (resultOf exampleAfter). split_and!.
    + split; apply (bool_decide_eq_true_1 _); vm_compute; reflexivity.
    + constructor.
    + reflexivity.
    + vm_compute. reflexivity.
    + vm_compute. reflexivity.
Defined.

Lemma publications_accepted_witness :
  (of_Retired <$> pl_ObservationFences exampleSecond) = [true]
  ∧ is_Ok (result_fold deliver ∅ [exampleFirst; exampleSecond])
  ∧ is_Ok (result_fold deliver ∅ [exampleSecond]).
Proof.
  split_and!; [vm_compute; reflexivity| |].
  - apply (publications_accepted _ _ example_published). reflexivity.
  - apply (publications_accepted _ _ example_published). apply sublist_cons. reflexivity.
Defined.
