(* ===== verification/WireDecode.v ===== *)
(** Decoding of the wire types of [model/model.go] and the encodings [WireModel] leaves
    out.

    Envelopes, snapshots, manifests, chunks, plans and acknowledgements travel as JSON.
    Each type has the encoding of its struct tags, a decoder and a lemma that the decoder
    reads back a value whose integers fit their types and whose strings are UTF-8. *)

From S2P Require Import Prelude GoStrings GoCrypto GoJson GoJsonDecode WireModel Publication.

(** * Base64

    [json.Marshal] writes a [[]byte] in base64 ([base64.StdEncoding]). *)

Section base64.
Local Open Scope Z_scope.

Definition base64Alphabet : gostring :=
  "ABCDEFGHIJKLMNOPQRSTUVWXYZabcdefghijklmnopqrstuvwxyz0123456789+/".
Definition base64Char (n : Z) : ascii := default "="%char (base64Alphabet !! Z.to_nat n).
Definition base64Val (c : ascii) : option Z :=
  if within 65 90 c then Some (bval c - 65)
  else if within 97 122 c then Some (bval c - 71)
  else if isDigit c then Some (bval c + 4)
  else if Ascii.eqb c "+" then Some 62 else if Ascii.eqb c "/" then Some 63 else None.

Definition base64Group (a b c : Z) : list Z :=
  [a / 4; a mod 4 * 16 + b / 16; b mod 16 * 4 + c / 64; c mod 64].
Definition base64Bytes (p q r s : Z) : list Z :=
  [p * 4 + q / 16; q mod 16 * 16 + r / 4; r mod 4 * 64 + s].

Fixpoint base64Encode (s : gostring) : gostring :=
  match s with
  | a :: b :: c :: s' =>
      (base64Char <$> base64Group (bval a) (bval b) (bval c)) ++ base64Encode s'
  | [a; b] => (base64Char <$> take 3 (base64Group (bval a) (bval b) 0)) ++ "="
  | [a] => (base64Char <$> take 2 (base64Group (bval a) 0 0)) ++ "=="
  | [] => []
  end.

(** Line breaks are skipped by the caller; the last group may be padded. *)
Fixpoint base64Decode (s : gostring) : option gostring :=
  match s with
  | [] => Some []
  | p :: q :: r :: t :: s' =>
      x ← base64Val p;
      y ← base64Val q;
      match s', Ascii.eqb r "=", Ascii.eqb t "=" with
      | [], true, true => Some (byte <$> take 1 (base64Bytes x y 0 0))
      | [], false, true => z ← base64Val r; Some (byte <$> take 2 (base64Bytes x y z 0))
      | _, _, _ =>
          z ← base64Val r;
          w ← base64Val t;
          rest ← base64Decode s';
          Some ((byte <$> base64Bytes x y z w) ++ rest)
      end
  | _ => None
  end.

Lemma base64_table n :
  0 ≤ n < 64 →
  base64Val (base64Char n) = Some n ∧ Ascii.eqb (base64Char n) "=" = false ∧
  isASCII (base64Char n) = true ∧ negb (Ascii.eqb (base64Char n) cr || Ascii.eqb (base64Char n) newline) = true.
Proof.
  intros Hn.
  assert (forallb (λ n, bool_decide (base64Val (base64Char n) = Some n)
    && negb (Ascii.eqb (base64Char n) "=") && isASCII (base64Char n)
    && negb (Ascii.eqb (base64Char n) cr || Ascii.eqb (base64Char n) newline)) (seqZ 0 64) = true) as Hall
    by (vm_compute; reflexivity).
  rewrite forallb_Forall, Forall_forall in Hall. specialize (Hall n).
  rewrite !andb_true_iff, bool_decide_eq_true, negb_true_iff in Hall.
  destruct Hall as (((? & ?) & ?) & ?); [apply elem_of_seqZ; lia|done].
Qed.

Lemma base64Group_range a b c :
  0 ≤ a < 256 → 0 ≤ b < 256 → 0 ≤ c < 256 → Forall (λ n, 0 ≤ n < 64) (base64Group a b c).
Proof. intros. unfold base64Group. repeat constructor; Z.to_euclidean_division_equations; lia. Qed.

Lemma base64Bytes_Group a b c :
  0 ≤ a < 256 → 0 ≤ b < 256 → 0 ≤ c < 256 →
  base64Bytes (a / 4) (a mod 4 * 16 + b / 16) (b mod 16 * 4 + c / 64) (c mod 64) = [a; b; c].
Proof. intros. unfold base64Bytes. repeat f_equal; Z.to_euclidean_division_equations; lia. Qed.

Lemma base64_roundtrip s : base64Decode (base64Encode s) = Some s.
Proof.
  assert (∀ n s, (length s ≤ n)%nat → base64Decode (base64Encode s) = Some s) as Hn.
  2:{ by apply (Hn (length s)). }
  clear s. induction n as [|n IH]; intros s Hl; [by destruct s; [|cbn in Hl; lia]|].
  destruct s as [|a s]; [done|]. pose proof (bval_range a) as Ha.
  assert (∀ b c, 0 ≤ b < 256 → 0 ≤ c < 256 → Forall (λ n, 0 ≤ n < 64) (base64Group (bval a) b c)) as Hg
    by (intros; by apply base64Group_range).
  destruct s as [|b s].
  { specialize (Hg 0 0 ltac:(lia) ltac:(lia)). unfold base64Group in Hg.
    apply Forall_cons in Hg as [Hp Hg]. apply Forall_cons in Hg as [Hq _].
    unfold base64Encode, base64Group. cbn [take fmap list_fmap app base64Decode].
    rewrite (proj1 (base64_table _ Hp)), (proj1 (base64_table _ Hq)). cbn [mbind option_bind].
    pose proof (base64Bytes_Group (bval a) 0 0 Ha ltac:(lia) ltac:(lia)) as Hb.
    change (0 mod 16 * 4 + 0 / 64) with 0 in Hb. change (0 mod 64) with 0 in Hb.
    cbn match. rewrite Hb. cbn [take fmap list_fmap]. by rewrite byte_bval. }
  pose proof (bval_range b) as Hb. destruct s as [|c s].
  { specialize (Hg (bval b) 0 ltac:(lia) ltac:(lia)). unfold base64Group in Hg.
    apply Forall_cons in Hg as [Hp Hg]. apply Forall_cons in Hg as [Hq Hg].
    apply Forall_cons in Hg as [Hr _].
    destruct (base64_table _ Hp) as (Vp & _), (base64_table _ Hq) as (Vq & _), (base64_table _ Hr) as (Vr & Er & _).
    unfold base64Encode, base64Group. cbn [take fmap list_fmap app base64Decode].
    rewrite Vp, Vq, Er. cbn [mbind option_bind]. change (Ascii.eqb "=" "=") with true. cbn match.
    rewrite Vr. cbn [mbind option_bind].
    pose proof (base64Bytes_Group (bval a) (bval b) 0 Ha Hb ltac:(lia)) as Hbs.
    change (0 mod 64) with 0 in Hbs. rewrite Hbs. cbn [take fmap list_fmap].
    by rewrite !byte_bval. }
  pose proof (bval_range c) as Hc. specialize (Hg (bval b) (bval c) Hb Hc). unfold base64Group in Hg.
  apply Forall_cons in Hg as [Hp Hg]. apply Forall_cons in Hg as [Hq Hg].
  apply Forall_cons in Hg as [Hr Hg]. apply Forall_cons in Hg as [Ht _].
  destruct (base64_table _ Hp) as (Vp & _), (base64_table _ Hq) as (Vq & _),
    (base64_table _ Hr) as (Vr & Er & _), (base64_table _ Ht) as (Vt & Et & _).
  cbn [base64Encode]. unfold base64Group. cbn [fmap list_fmap app base64Decode].
  rewrite Vp, Vq, Er, Et. cbn [mbind option_bind].
  assert (∀ (o : option gostring) x, o = Some x →
    match base64Encode s with
    | [] => o
    | _ :: _ => o
    end = Some x) as Hm by (intros; by destruct (base64Encode s)).
  apply Hm. rewrite Vr, Vt. cbn [mbind option_bind]. rewrite IH by (cbn in Hl; lia).
  cbn [mbind option_bind]. rewrite base64Bytes_Group by done.
  cbn [fmap list_fmap app]. by rewrite !byte_bval.
Qed.
End base64.

(** * Encodings *)

Definition JBytes (b : gostring) : json := JStr (base64Encode b).
Definition dBytes : decoder gostring := λ _ j,
  match j with
  | JStr s => base64Decode (filter (λ c, c ≠ cr ∧ c ≠ newline) s)
  | JNull => Some []
  | _ => None
  end.

(** A slice that was built with [append]: [nil] when nothing was. *)
Definition JAppended {A} (f : A → json) (l : list A) : json :=
  match l with [] => JNull | _ => JArr (f <$> l) end.

Definition RRRecord_json (r : RRRecord) : json :=
  JObj (("content", JStr (rec_Content r))
        :: omitempty (bool_decide (rec_ContributionUID r = [])) "contributionUID"
             (JStr (rec_ContributionUID r))
        ++ omitempty (rec_Generation r =? 0)%Z "generation" (JNum (rec_Generation r))
        ++ omitempty (rec_Sequence r =? 0)%Z "sequence" (JNum (rec_Sequence r))
        ++ [("eligible", JBool (rec_Eligible r))]).
Definition WireRRSet_json (s : WireRRSet) : json :=
  JObj [("name", JStr (rr_Name s)); ("type", JStr (rr_Type s)); ("ttl", JNum (rr_TTL s));
        ("records", JAppended RRRecord_json (rr_Records s))].
Definition RegistrationFence_json (f : RegistrationFence) : json :=
  JObj [("uid", JStr (rf_UID f)); ("generation", JNum (rf_Generation f))].
Definition ObservationFence_json (f : ObservationFence) : json :=
  JObj ([("contributionUID", JStr (of_ContributionUID f));
         ("generation", JNum (of_Generation f)); ("sequence", JNum (of_Sequence f))]
        ++ omitempty (negb (of_Retired f)) "retired" (JBool true)
        ++ omitempty (bool_decide (of_SourceName f = [])) "sourceName" (JStr (of_SourceName f))).
Definition PublicationPlan_json (p : PublicationPlan) : json :=
  JObj ([("zoneUID", JStr (pl_ZoneUID p)); ("apex", JStr (pl_Apex p))]
        ++ omitempty (length (pl_Registrations p) =? 0)%nat "registrations"
             (JArr (RegistrationFence_json <$> pl_Registrations p))
        ++ omitempty (length (pl_ObservationFences p) =? 0)%nat "observationFences"
             (JArr (ObservationFence_json <$> pl_ObservationFences p))
        ++ omitempty (length (pl_Owners p) =? 0)%nat "owners" (JArr (JStr <$> pl_Owners p))
        ++ [("rrsets", JAppended WireRRSet_json (pl_RRSets p))]).
Definition ChunkRef_json (r : ChunkRef) : json :=
  JObj [("index", JNum (cr_Index r)); ("sha256", JStr (cr_SHA256 r)); ("size", JNum (cr_Size r))].
Definition PublicationManifest_json (m : PublicationManifest) : json :=
  JObj ([("manifestUID", JStr (pm_ManifestUID m)); ("zoneUID", JStr (pm_ZoneUID m));
         ("apex", JStr (pm_Apex m)); ("writerEpoch", JNum (pm_WriterEpoch m));
         ("revision", JNum (pm_Revision m))]
        ++ omitempty (pm_PreviousRevision m =? 0)%Z "previousRevision" (JNum (pm_PreviousRevision m))
        ++ omitempty (negb (pm_Tombstone m)) "tombstone" (JBool true)
        ++ [("chunks", JArr (ChunkRef_json <$> pm_Chunks m));
            ("contentHash", JStr (pm_ContentHash m)); ("generatedAt", JTime (pm_GeneratedAt m))]).
Definition PublicationChunk_json (c : PublicationChunk) : json :=
  JObj [("manifestUID", JStr (pc_ManifestUID c)); ("zoneUID", JStr (pc_ZoneUID c));
        ("writerEpoch", JNum (pc_WriterEpoch c)); ("revision", JNum (pc_Revision c));
        ("index", JNum (pc_Index c)); ("sha256", JStr (pc_SHA256 c));
        ("payload", JBytes (pc_Payload c))].

(** * Decoders *)

Definition dUint32 : decoder Z := dInt 0 (2 ^ 32 - 1).

Definition zeroEnvelope : Envelope := {|
  e_APIVersion := []; e_Kind := []; e_EventID := []; e_Region := []; e_Shard := [];
  e_ResourceUID := []; e_Epoch := 0; e_Revision := 0; e_PublishedAt := zeroTime;
  e_Payload := NotJson [] |}.
Definition dEnvelope : decoder Envelope := struct_decoder (λ old fs,
  apiVersion ← field dString "apiVersion" (e_APIVersion old) fs;
  kind ← field dString "kind" (e_Kind old) fs;
  eventID ← field dString "eventID" (e_EventID old) fs;
  region ← field dString "region" (e_Region old) fs;
  shard ← field dString "shard" (e_Shard old) fs;
  resourceUID ← field dString "resourceUID" (e_ResourceUID old) fs;
  epoch ← field dUint64 "epoch" (e_Epoch old) fs;
  revision ← field dUint64 "revision" (e_Revision old) fs;
  publishedAt ← field dTime "publishedAt" (e_PublishedAt old) fs;
  payload ← field dRaw "payload" (e_Payload old) fs;
  Some {| e_APIVersion := apiVersion; e_Kind := kind; e_EventID := eventID; e_Region := region;
          e_Shard := shard; e_ResourceUID := resourceUID; e_Epoch := epoch;
          e_Revision := revision; e_PublishedAt := publishedAt; e_Payload := payload |}).

Definition zeroVersion : AccessVersion := {| v_Epoch := 0; v_Sequence := 0 |}.
Definition dAccessVersion : decoder AccessVersion := struct_decoder (λ old fs,
  epoch ← field dUint64 "epoch" (v_Epoch old) fs;
  sequence ← field dUint64 "sequence" (v_Sequence old) fs;
  Some {| v_Epoch := epoch; v_Sequence := sequence |}).

Definition zeroBackend : Backend := {| be_MemberID := []; be_Address := []; be_Port := 0 |}.
Definition dBackend : decoder Backend := struct_decoder (λ old fs,
  memberID ← field dString "memberID" (be_MemberID old) fs;
  address ← field dString "address" (be_Address old) fs;
  port ← field dUint16 "port" (be_Port old) fs;
  Some {| be_MemberID := memberID; be_Address := address; be_Port := port |}).

Definition zeroAttachment : ZoneAttachment := {|
  za_Pending := false; za_ZoneUID := []; za_Apex := []; za_RequiredPublicationEpoch := 0;
  za_RequiredPublicationRevision := 0 |}.
Definition dZoneAttachment : decoder ZoneAttachment := struct_decoder (λ old fs,
  pending ← field dBool "pending" (za_Pending old) fs;
  zoneUID ← field dString "zoneUID" (za_ZoneUID old) fs;
  apex ← field dString "apex" (za_Apex old) fs;
  epoch ← field dUint64 "requiredPublicationEpoch" (za_RequiredPublicationEpoch old) fs;
  revision ← field dUint64 "requiredPublicationRevision" (za_RequiredPublicationRevision old) fs;
  Some {| za_Pending := pending; za_ZoneUID := zoneUID; za_Apex := apex;
          za_RequiredPublicationEpoch := epoch; za_RequiredPublicationRevision := revision |}).

Definition zeroBinding : Binding := {|
  b_BindingUID := []; b_ProjectUID := []; b_ContextUID := []; b_BindingGeneration := 0;
  b_ConfigurationRevision := 0; b_ConsumerAddress := []; b_ClusterAddress := []; b_Port := 0;
  b_Transports := None; b_Zones := None; b_NodeBackends := None; b_ClusterBackends := None;
  b_Version := zeroVersion; b_Tombstone := false; b_ConfigurationPending := false |}.
Definition dBinding : decoder Binding := struct_decoder (λ old fs,
  bindingUID ← field dString "bindingUID" (b_BindingUID old) fs;
  projectUID ← field dString "projectUID" (b_ProjectUID old) fs;
  contextUID ← field dString "contextUID" (b_ContextUID old) fs;
  generation ← field dUint64 "bindingGeneration" (b_BindingGeneration old) fs;
  revision ← field dUint64 "configurationRevision" (b_ConfigurationRevision old) fs;
  consumer ← field dString "consumerAddress" (b_ConsumerAddress old) fs;
  cluster ← field dString "clusterAddress" (b_ClusterAddress old) fs;
  port ← field dUint16 "port" (b_Port old) fs;
  transports ← field (dSlice dString []) "transports" (b_Transports old) fs;
  zones ← field (dSlice dZoneAttachment zeroAttachment) "zones" (b_Zones old) fs;
  node ← field (dSlice dBackend zeroBackend) "nodeBackends" (b_NodeBackends old) fs;
  clusterBackends ← field (dSlice dBackend zeroBackend) "clusterBackends" (b_ClusterBackends old) fs;
  version ← field dAccessVersion "version" (b_Version old) fs;
  tombstone ← field dBool "tombstone" (b_Tombstone old) fs;
  pending ← field dBool "configurationPending" (b_ConfigurationPending old) fs;
  Some {| b_BindingUID := bindingUID; b_ProjectUID := projectUID; b_ContextUID := contextUID;
          b_BindingGeneration := generation; b_ConfigurationRevision := revision;
          b_ConsumerAddress := consumer; b_ClusterAddress := cluster; b_Port := port;
          b_Transports := transports; b_Zones := zones; b_NodeBackends := node;
          b_ClusterBackends := clusterBackends; b_Version := version; b_Tombstone := tombstone;
          b_ConfigurationPending := pending |}).

Definition zeroMember : Member := {| m_MemberID := []; m_ReplicaID := []; m_Role := [] |}.
Definition dMember : decoder Member := struct_decoder (λ old fs,
  memberID ← field dString "memberID" (m_MemberID old) fs;
  replicaID ← field dString "replicaID" (m_ReplicaID old) fs;
  role ← field dString "role" (m_Role old) fs;
  Some {| m_MemberID := memberID; m_ReplicaID := replicaID; m_Role := role |}).

Definition zeroPattern : MemberPattern := {| mp_Role := []; mp_IDPrefix := [] |}.
Definition dMemberPattern : decoder MemberPattern := struct_decoder (λ old fs,
  role ← field dString "role" (mp_Role old) fs;
  idPrefix ← field dString "idPrefix" (mp_IDPrefix old) fs;
  Some {| mp_Role := role; mp_IDPrefix := idPrefix |}).

Definition zeroRequirement : PublicationRequirement :=
  {| pr_ZoneUID := []; pr_Epoch := 0; pr_Revision := 0 |}.
Definition dRequirement : decoder PublicationRequirement := struct_decoder (λ old fs,
  zoneUID ← field dString "zoneUID" (pr_ZoneUID old) fs;
  epoch ← field dUint64 "epoch" (pr_Epoch old) fs;
  revision ← field dUint64 "revision" (pr_Revision old) fs;
  Some {| pr_ZoneUID := zoneUID; pr_Epoch := epoch; pr_Revision := revision |}).

Definition zeroSnapshot : ServingSnapshot := {|
  s_Region := []; s_Shard := []; s_ConfigurationEpoch := 0; s_ConfigurationRevision := 0;
  s_Bindings := None; s_Members := None; s_MemberPatterns := []; s_RequiredPublications := [];
  s_GeneratedAt := zeroTime |}.
Definition dSnapshot : decoder ServingSnapshot := struct_decoder (λ old fs,
  region ← field dString "region" (s_Region old) fs;
  shard ← field dString "shard" (s_Shard old) fs;
  epoch ← field dUint64 "configurationEpoch" (s_ConfigurationEpoch old) fs;
  revision ← field dUint64 "configurationRevision" (s_ConfigurationRevision old) fs;
  bindings ← field (dSlice dBinding zeroBinding) "bindings" (s_Bindings old) fs;
  members ← field (dSlice dMember zeroMember) "members" (s_Members old) fs;
  patterns ← field (dList dMemberPattern zeroPattern) "memberPatterns" (s_MemberPatterns old) fs;
  required ← field (dList dRequirement zeroRequirement) "requiredPublications"
               (s_RequiredPublications old) fs;
  generatedAt ← field dTime "generatedAt" (s_GeneratedAt old) fs;
  Some {| s_Region := region; s_Shard := shard; s_ConfigurationEpoch := epoch;
          s_ConfigurationRevision := revision; s_Bindings := bindings; s_Members := members;
          s_MemberPatterns := patterns; s_RequiredPublications := required;
          s_GeneratedAt := generatedAt |}).

Definition zeroChunkRef : ChunkRef := {| cr_Index := 0; cr_SHA256 := []; cr_Size := 0 |}.
Definition dChunkRef : decoder ChunkRef := struct_decoder (λ old fs,
  index ← field dInt64 "index" (cr_Index old) fs;
  sha ← field dString "sha256" (cr_SHA256 old) fs;
  size ← field dInt64 "size" (cr_Size old) fs;
  Some {| cr_Index := index; cr_SHA256 := sha; cr_Size := size |}).

Definition zeroManifest : PublicationManifest := {|
  pm_ManifestUID := []; pm_ZoneUID := []; pm_Apex := []; pm_WriterEpoch := 0; pm_Revision := 0;
  pm_PreviousRevision := 0; pm_Tombstone := false; pm_Chunks := []; pm_ContentHash := [];
  pm_GeneratedAt := zeroTime |}.
Definition dManifest : decoder PublicationManifest := struct_decoder (λ old fs,
  manifestUID ← field dString "manifestUID" (pm_ManifestUID old) fs;
  zoneUID ← field dString "zoneUID" (pm_ZoneUID old) fs;
  apex ← field dString "apex" (pm_Apex old) fs;
  epoch ← field dUint64 "writerEpoch" (pm_WriterEpoch old) fs;
  revision ← field dUint64 "revision" (pm_Revision old) fs;
  previous ← field dUint64 "previousRevision" (pm_PreviousRevision old) fs;
  tombstone ← field dBool "tombstone" (pm_Tombstone old) fs;
  chunks ← field (dList dChunkRef zeroChunkRef) "chunks" (pm_Chunks old) fs;
  hash ← field dString "contentHash" (pm_ContentHash old) fs;
  generatedAt ← field dTime "generatedAt" (pm_GeneratedAt old) fs;
  Some {| pm_ManifestUID := manifestUID; pm_ZoneUID := zoneUID; pm_Apex := apex;
          pm_WriterEpoch := epoch; pm_Revision := revision; pm_PreviousRevision := previous;
          pm_Tombstone := tombstone; pm_Chunks := chunks; pm_ContentHash := hash;
          pm_GeneratedAt := generatedAt |}).

Definition zeroChunk : PublicationChunk := {|
  pc_ManifestUID := []; pc_ZoneUID := []; pc_WriterEpoch := 0; pc_Revision := 0; pc_Index := 0;
  pc_SHA256 := []; pc_Payload := [] |}.
Definition dChunk : decoder PublicationChunk := struct_decoder (λ old fs,
  manifestUID ← field dString "manifestUID" (pc_ManifestUID old) fs;
  zoneUID ← field dString "zoneUID" (pc_ZoneUID old) fs;
  epoch ← field dUint64 "writerEpoch" (pc_WriterEpoch old) fs;
  revision ← field dUint64 "revision" (pc_Revision old) fs;
  index ← field dInt64 "index" (pc_Index old) fs;
  sha ← field dString "sha256" (pc_SHA256 old) fs;
  payload ← field dBytes "payload" (pc_Payload old) fs;
  Some {| pc_ManifestUID := manifestUID; pc_ZoneUID := zoneUID; pc_WriterEpoch := epoch;
          pc_Revision := revision; pc_Index := index; pc_SHA256 := sha; pc_Payload := payload |}).

Definition zeroRRRecord : RRRecord := {|
  rec_Content := []; rec_ContributionUID := []; rec_Generation := 0; rec_Sequence := 0;
  rec_Eligible := false |}.
Definition dRRRecord : decoder RRRecord := struct_decoder (λ old fs,
  content ← field dString "content" (rec_Content old) fs;
  uid ← field dString "contributionUID" (rec_ContributionUID old) fs;
  generation ← field dUint64 "generation" (rec_Generation old) fs;
  sequence ← field dUint64 "sequence" (rec_Sequence old) fs;
  eligible ← field dBool "eligible" (rec_Eligible old) fs;
  Some {| rec_Content := content; rec_ContributionUID := uid; rec_Generation := generation;
          rec_Sequence := sequence; rec_Eligible := eligible |}).

Definition zeroRRSet : WireRRSet := {| rr_Name := []; rr_Type := []; rr_TTL := 0; rr_Records := [] |}.
Definition dRRSet : decoder WireRRSet := struct_decoder (λ old fs,
  name ← field dString "name" (rr_Name old) fs;
  type ← field dString "type" (rr_Type old) fs;
  ttl ← field dUint32 "ttl" (rr_TTL old) fs;
  records ← field (dList dRRRecord zeroRRRecord) "records" (rr_Records old) fs;
  Some {| rr_Name := name; rr_Type := type; rr_TTL := ttl; rr_Records := records |}).

Definition zeroRegistrationFence : RegistrationFence := {| rf_UID := []; rf_Generation := 0 |}.
Definition dRegistrationFence : decoder RegistrationFence := struct_decoder (λ old fs,
  uid ← field dString "uid" (rf_UID old) fs;
  generation ← field dUint64 "generation" (rf_Generation old) fs;
  Some {| rf_UID := uid; rf_Generation := generation |}).

Definition zeroObservation : ObservationFence := {|
  of_ContributionUID := []; of_Generation := 0; of_Sequence := 0; of_Retired := false;
  of_SourceName := [] |}.
Definition dObservation : decoder ObservationFence := struct_decoder (λ old fs,
  uid ← field dString "contributionUID" (of_ContributionUID old) fs;
  generation ← field dUint64 "generation" (of_Generation old) fs;
  sequence ← field dUint64 "sequence" (of_Sequence old) fs;
  retired ← field dBool "retired" (of_Retired old) fs;
  source ← field dString "sourceName" (of_SourceName old) fs;
  Some {| of_ContributionUID := uid; of_Generation := generation; of_Sequence := sequence;
          of_Retired := retired; of_SourceName := source |}).

Definition zeroPlan : PublicationPlan := {|
  pl_ZoneUID := []; pl_Apex := []; pl_Registrations := []; pl_ObservationFences := [];
  pl_Owners := []; pl_RRSets := [] |}.
Definition dPlan : decoder PublicationPlan := struct_decoder (λ old fs,
  zoneUID ← field dString "zoneUID" (pl_ZoneUID old) fs;
  apex ← field dString "apex" (pl_Apex old) fs;
  registrations ← field (dList dRegistrationFence zeroRegistrationFence) "registrations"
                    (pl_Registrations old) fs;
  observations ← field (dList dObservation zeroObservation) "observationFences"
                   (pl_ObservationFences old) fs;
  owners ← field (dList dString []) "owners" (pl_Owners old) fs;
  rrsets ← field (dList dRRSet zeroRRSet) "rrsets" (pl_RRSets old) fs;
  Some {| pl_ZoneUID := zoneUID; pl_Apex := apex; pl_Registrations := registrations;
          pl_ObservationFences := observations; pl_Owners := owners; pl_RRSets := rrsets |}).

(** * Values that travel unchanged

    Their integers fit the types of the fields and their strings are UTF-8. *)

Definition fits (bits n : Z) : bool := (0 <=? n)%Z && (n <? 2 ^ bits)%Z.
Definition text (s : gostring) : bool := bool_decide (utf8 s).

Definition wf_Attachment (z : ZoneAttachment) : bool :=
  text (za_ZoneUID z) && text (za_Apex z) && fits 64 (za_RequiredPublicationEpoch z)
  && fits 64 (za_RequiredPublicationRevision z).
Definition wf_Backend (b : Backend) : bool :=
  text (be_MemberID b) && text (be_Address b) && fits 16 (be_Port b).
Definition wf_Version (v : AccessVersion) : bool := fits 64 (v_Epoch v) && fits 64 (v_Sequence v).
Definition wf_Binding (b : Binding) : bool :=
  text (b_BindingUID b) && text (b_ProjectUID b) && text (b_ContextUID b)
  && fits 64 (b_BindingGeneration b) && fits 64 (b_ConfigurationRevision b)
  && text (b_ConsumerAddress b) && text (b_ClusterAddress b) && fits 16 (b_Port b)
  && forallb text (elems (b_Transports b)) && forallb wf_Attachment (elems (b_Zones b))
  && forallb wf_Backend (elems (b_NodeBackends b)) && forallb wf_Backend (elems (b_ClusterBackends b))
  && wf_Version (b_Version b).
Definition wf_Member (m : Member) : bool :=
  text (m_MemberID m) && text (m_ReplicaID m) && text (m_Role m).
Definition wf_Pattern (p : MemberPattern) : bool := text (mp_Role p) && text (mp_IDPrefix p).
Definition wf_Requirement (r : PublicationRequirement) : bool :=
  text (pr_ZoneUID r) && fits 64 (pr_Epoch r) && fits 64 (pr_Revision r).
Definition wf_Snapshot (s : ServingSnapshot) : bool :=
  text (s_Region s) && text (s_Shard s) && fits 64 (s_ConfigurationEpoch s)
  && fits 64 (s_ConfigurationRevision s) && forallb wf_Binding (elems (s_Bindings s))
  && forallb wf_Member (elems (s_Members s)) && forallb wf_Pattern (s_MemberPatterns s)
  && forallb wf_Requirement (s_RequiredPublications s) && marshalable (s_GeneratedAt s).

Lemma fits_range bits n : fits bits n = true → (0 ≤ n ≤ 2 ^ bits - 1)%Z.
Proof. unfold fits. lia. Qed.
Lemma text_utf8 s : text s = true → utf8 s.
Proof. apply bool_decide_eq_true_1. Qed.

(** A decoder reads back what the encoding of a well-formed value writes. *)
Definition travels {A} (dec : decoder A) (zero : A) (enc : A → json) (d : nat) (a : A) : Prop :=
  dec zero (enc a) = Some a ∧ faithful d (enc a).

Lemma travels_Unmarshal {A} (dec : decoder A) zero enc d a :
  travels dec zero enc d a → d ≤ 10 → Unmarshal dec zero (encode (enc a)) = Some a.
Proof.
  intros [Hr Hf] Hd. eapply Unmarshal_encode; [done| |done].
  assert (Z.of_nat maxNestingDepth = 10000%Z) by done. lia.
Qed.

Lemma travels_all {A} (wf : A → bool) (dec : decoder A) zero enc d (l : list A) :
  (∀ a, wf a = true → travels dec zero enc d a) → forallb wf l = true →
  Forall (λ a, dec zero (enc a) = Some a) l ∧ Forall (λ a, faithful d (enc a)) l.
Proof.
  intros Hwf Hl%forallb_Forall. split; (eapply Forall_impl; [exact Hl|]); intros a Ha; by apply Hwf.
Qed.

Ltac wf_split :=
  repeat match goal with
  | H : (_ && _) = true |- _ => apply andb_true_iff in H as [? ?]
  | H : fits _ _ = true |- _ => apply fits_range in H
  | H : text _ = true |- _ => apply text_utf8 in H
  end.

Ltac wire_value :=
  first [ reflexivity | apply dInt_JNum; cbn; lia | by apply dTime_JTime
        | by apply dSlice_JSlice | by apply dList_JArr | done ].
#[local] Arguments fmap : simpl never.
#[local] Arguments ZoneAttachment_json : simpl never.
#[local] Arguments Backend_json : simpl never.
#[local] Arguments AccessVersion_json : simpl never.
#[local] Arguments Binding_json : simpl never.
#[local] Arguments Member_json : simpl never.
#[local] Arguments MemberPattern_json : simpl never.
#[local] Arguments PublicationRequirement_json : simpl never.
#[local] Arguments RRRecord_json : simpl never.
#[local] Arguments WireRRSet_json : simpl never.
#[local] Arguments RegistrationFence_json : simpl never.
#[local] Arguments ObservationFence_json : simpl never.
#[local] Arguments ChunkRef_json : simpl never.
#[local] Arguments JBytes : simpl never.
#[local] Arguments JAppended : simpl never.

Lemma travels_Attachment z :
  wf_Attachment z = true → travels dZoneAttachment zeroAttachment ZoneAttachment_json 1 z.
Proof.
  destruct z as [p u a e r]. unfold wf_Attachment. cbn. intros Hwf. wf_split. split.
  - destruct p; read_struct wire_value.
  - faithful_struct.
Qed.

Lemma travels_Backend b : wf_Backend b = true → travels dBackend zeroBackend Backend_json 1 b.
Proof.
  destruct b. unfold wf_Backend. cbn. intros Hwf. wf_split. split.
  - read_struct wire_value.
  - faithful_struct.
Qed.

Lemma travels_Version v : wf_Version v = true → travels dAccessVersion zeroVersion AccessVersion_json 1 v.
Proof.
  destruct v. unfold wf_Version. cbn. intros Hwf. wf_split. split.
  - read_struct wire_value.
  - faithful_struct.
Qed.

Lemma travels_text s : text s = true → travels dString [] JStr 0 s.
Proof. intros Hs%text_utf8. split; [done|by apply faithful_JStr]. Qed.

Lemma faithful_weaken d d' j : faithful d j → d ≤ d' → faithful d' j.
Proof. intros [Hp Hd Hc] Hle. split; [done|lia|done]. Qed.

(** Lists in a struct: each is read back and no deeper than the struct allows. *)
Ltac wire_list wf lem l :=
  match goal with
  | H : forallb wf l = true |- _ =>
      let H1 := fresh "Hread" in let H2 := fresh "Hdeep" in
      destruct (travels_all wf _ _ _ _ l lem H) as [H1 H2]
  end.
Ltac wire_deep :=
  first [ by apply faithful_JSlice | by apply faithful_JArr | done
        | eapply faithful_weaken; [first [by apply faithful_JSlice | by apply faithful_JArr | done]|lia] ].

Lemma travels_Binding b : wf_Binding b = true → travels dBinding zeroBinding Binding_json 3 b.
Proof.
  destruct b as [bu pu cu g r ca cl po ts zs nb cb v to cp]. unfold wf_Binding. cbn [b_BindingUID b_ProjectUID b_ContextUID b_BindingGeneration
    b_ConfigurationRevision b_ConsumerAddress b_ClusterAddress b_Port b_Transports b_Zones
    b_NodeBackends b_ClusterBackends b_Version]. intros Hwf. wf_split.
  wire_list text travels_text (elems ts).
  wire_list wf_Attachment travels_Attachment (elems zs).
  wire_list wf_Backend travels_Backend (elems nb).
  wire_list wf_Backend travels_Backend (elems cb).
  match goal with H : wf_Version _ = true |- _ => apply travels_Version in H as [Hv Hvd] end.
  split.
  - destruct to, cp; read_struct wire_value.
  - faithful_struct; wire_deep.
Qed.

Lemma travels_Member m : wf_Member m = true → travels dMember zeroMember Member_json 1 m.
Proof.
  destruct m as [i r o]. unfold wf_Member. cbn. intros Hwf. wf_split. split.
  - destruct r; read_struct wire_value.
  - faithful_struct.
Qed.

Lemma travels_Pattern p : wf_Pattern p = true → travels dMemberPattern zeroPattern MemberPattern_json 1 p.
Proof.
  destruct p. unfold wf_Pattern. cbn. intros Hwf. wf_split. split.
  - read_struct wire_value.
  - faithful_struct.
Qed.

Lemma travels_Requirement r :
  wf_Requirement r = true → travels dRequirement zeroRequirement PublicationRequirement_json 1 r.
Proof.
  destruct r. unfold wf_Requirement. cbn. intros Hwf. wf_split. split.
  - read_struct wire_value.
  - faithful_struct.
Qed.

Lemma travels_Snapshot s : wf_Snapshot s = true → travels dSnapshot zeroSnapshot ServingSnapshot_json 5 s.
Proof.
  destruct s as [rg sh e r bs ms ps rs g]. unfold wf_Snapshot. cbn [s_Region s_Shard
    s_ConfigurationEpoch s_ConfigurationRevision s_Bindings s_Members s_MemberPatterns
    s_RequiredPublications s_GeneratedAt]. intros Hwf. wf_split.
  wire_list wf_Binding travels_Binding (elems bs). wire_list wf_Member travels_Member (elems ms).
  wire_list wf_Pattern travels_Pattern ps. wire_list wf_Requirement travels_Requirement rs.
  split.
  - destruct ps, rs; read_struct wire_value.
  - faithful_struct; wire_deep.
Qed.

(** An envelope whose payload is the tree [j]. *)
Definition wf_Envelope (e : Envelope) : bool :=
  text (e_APIVersion e) && text (e_Kind e) && text (e_EventID e) && text (e_Region e)
  && text (e_Shard e) && text (e_ResourceUID e) && fits 64 (e_Epoch e) && fits 64 (e_Revision e)
  && marshalable (e_PublishedAt e).

Lemma travels_Envelope e j d :
  wf_Envelope e = true → e_Payload e = Encoded j → faithful d j →
  travels dEnvelope zeroEnvelope Envelope_json (S d) e.
Proof.
  destruct e as [av k ev rg sh u ep re at_ pl]. unfold wf_Envelope. cbn [e_APIVersion e_Kind e_EventID e_Region e_Shard
    e_ResourceUID e_Epoch e_Revision e_PublishedAt e_Payload]. intros Hwf -> Hj. wf_split. split.
  - read_struct wire_value.
  - faithful_struct. done.
Qed.

Definition wf_RRRecord (r : RRRecord) : bool :=
  text (rec_Content r) && text (rec_ContributionUID r) && fits 64 (rec_Generation r)
  && fits 64 (rec_Sequence r).
Definition wf_RRSet (s : WireRRSet) : bool :=
  text (rr_Name s) && text (rr_Type s) && fits 32 (rr_TTL s) && forallb wf_RRRecord (rr_Records s).
Definition wf_RegistrationFence (f : RegistrationFence) : bool :=
  text (rf_UID f) && fits 64 (rf_Generation f).
Definition wf_Observation (f : ObservationFence) : bool :=
  text (of_ContributionUID f) && fits 64 (of_Generation f) && fits 64 (of_Sequence f)
  && text (of_SourceName f).
Definition wf_Plan (p : PublicationPlan) : bool :=
  text (pl_ZoneUID p) && text (pl_Apex p) && forallb wf_RegistrationFence (pl_Registrations p)
  && forallb wf_Observation (pl_ObservationFences p) && forallb text (pl_Owners p)
  && forallb wf_RRSet (pl_RRSets p).
Definition fitsInt (n : Z) : bool := (- 2 ^ 63 <=? n)%Z && (n <? 2 ^ 63)%Z.
Definition wf_ChunkRef (r : ChunkRef) : bool :=
  fitsInt (cr_Index r) && text (cr_SHA256 r) && fitsInt (cr_Size r).
Definition wf_Manifest (m : PublicationManifest) : bool :=
  text (pm_ManifestUID m) && text (pm_ZoneUID m) && text (pm_Apex m) && fits 64 (pm_WriterEpoch m)
  && fits 64 (pm_Revision m) && fits 64 (pm_PreviousRevision m) && forallb wf_ChunkRef (pm_Chunks m)
  && text (pm_ContentHash m) && marshalable (pm_GeneratedAt m).
Definition wf_Chunk (c : PublicationChunk) : bool :=
  text (pc_ManifestUID c) && text (pc_ZoneUID c) && fits 64 (pc_WriterEpoch c)
  && fits 64 (pc_Revision c) && fitsInt (pc_Index c) && text (pc_SHA256 c).

Lemma fitsInt_range n : fitsInt n = true → (- 2 ^ 63 ≤ n ≤ 2 ^ 63 - 1)%Z.
Proof. unfold fitsInt. lia. Qed.
Ltac int_split :=
  repeat match goal with H : fitsInt _ = true |- _ => apply fitsInt_range in H end.

Lemma dList_JAppended {A} (d : decoder A) zero (f : A → json) old (l : list A) :
  Forall (λ x, d zero (f x) = Some x) l → dList d zero old (JAppended f l) = Some l.
Proof. destruct l as [|x l]; [done|]. intros Hl. by apply dList_JArr. Qed.
Lemma faithful_JAppended {A} (f : A → json) d (l : list A) :
  Forall (λ x, faithful d (f x)) l → faithful (S d) (JAppended f l).
Proof. destruct l as [|x l]; [split; [done|apply Nat.le_0_l|done]|]. apply faithful_JArr. Qed.

Lemma base64Encode_safe s : forallb (λ c, isASCII c && negb (Ascii.eqb c cr || Ascii.eqb c newline)) (base64Encode s) = true.
Proof.
  assert (∀ l, Forall (λ n, 0 ≤ n < 64)%Z l →
    forallb (λ c, isASCII c && negb (Ascii.eqb c cr || Ascii.eqb c newline)) (base64Char <$> l) = true) as Hg.
  { intros l Hl. apply forallb_Forall, Forall_fmap. eapply Forall_impl; [exact Hl|]. intros n Hn.
    cbn. destruct (base64_table n Hn) as (_ & _ & -> & ->). done. }
  assert (∀ n s, length s ≤ n → forallb (λ c, isASCII c && negb (Ascii.eqb c cr || Ascii.eqb c newline))
                                  (base64Encode s) = true) as Hn.
  2:{ by apply (Hn (length s)). }
  clear s. induction n as [|n IH]; intros s Hl; [by destruct s; [|cbn in Hl; lia]|].
  pose proof bval_range as Hb. destruct s as [|a [|b [|c s]]]; [done| | |]; cbn [base64Encode];
    rewrite forallb_app; apply andb_true_iff; split; try done;
    try (apply Hg; try apply Forall_take; apply base64Group_range; auto; lia).
  apply IH. cbn in Hl. lia.
Qed.

Lemma dBytes_JBytes old b : dBytes old (JBytes b) = Some b.
Proof.
  unfold dBytes, JBytes. rewrite filter_id; [apply base64_roundtrip|].
  pose proof (base64Encode_safe b) as Hb. apply forallb_Forall in Hb.
  eapply Forall_impl; [exact Hb|]. cbn. intros c Hc.
  rewrite andb_true_iff, negb_true_iff, orb_false_iff, !Ascii.eqb_neq in Hc. tauto.
Qed.

Lemma faithful_JBytes d b : faithful d (JBytes b).
Proof.
  apply faithful_JStr, clean_ascii. unfold ascii_string.
  eapply forallb_impl; [|apply base64Encode_safe]. cbn. intros c Hc.
  by apply andb_true_iff in Hc as [? _].
Qed.

Ltac plan_value := first [ wire_value | by apply dList_JAppended | apply dBytes_JBytes ].
Ltac plan_deep :=
  first [ wire_deep | by apply faithful_JAppended | apply faithful_JBytes
        | eapply faithful_weaken; [by apply faithful_JAppended|lia] ].

Lemma travels_RRRecord r : wf_RRRecord r = true → travels dRRRecord zeroRRRecord RRRecord_json 1 r.
Proof.
  destruct r as [c u g s e]. unfold wf_RRRecord. cbn [rec_Content rec_ContributionUID rec_Generation
    rec_Sequence]. intros Hwf. wf_split. split.
  - unfold RRRecord_json. cbn [rec_Content rec_ContributionUID rec_Generation rec_Sequence rec_Eligible].
    case_bool_decide; [subst u|]; destruct (Z.eqb_spec g 0) as [->|], (Z.eqb_spec s 0) as [->|];
      cbn [omitempty app]; unfold dRRRecord; cbn [struct_decoder];
      repeat (eapply bind_field; [read_field plan_value|]); reflexivity.
  - faithful_struct.
Qed.

Lemma travels_RRSet s : wf_RRSet s = true → travels dRRSet zeroRRSet WireRRSet_json 3 s.
Proof.
  destruct s as [n t l rs]. unfold wf_RRSet. cbn [rr_Name rr_Type rr_TTL rr_Records]. intros Hwf.
  wf_split. wire_list wf_RRRecord travels_RRRecord rs. split.
  - read_struct plan_value.
  - faithful_struct; plan_deep.
Qed.

Lemma travels_RegistrationFence f :
  wf_RegistrationFence f = true → travels dRegistrationFence zeroRegistrationFence RegistrationFence_json 1 f.
Proof.
  destruct f. unfold wf_RegistrationFence. cbn. intros Hwf. wf_split. split.
  - read_struct plan_value.
  - faithful_struct.
Qed.

Lemma travels_Observation f :
  wf_Observation f = true → travels dObservation zeroObservation ObservationFence_json 1 f.
Proof.
  destruct f as [u g s r n]. unfold wf_Observation. cbn. intros Hwf. wf_split. split.
  - destruct r, n; read_struct plan_value.
  - faithful_struct.
Qed.

Lemma travels_Plan p : wf_Plan p = true → travels dPlan zeroPlan PublicationPlan_json 5 p.
Proof.
  destruct p as [u a rs os ns ss]. unfold wf_Plan. cbn [pl_ZoneUID pl_Apex pl_Registrations
    pl_ObservationFences pl_Owners pl_RRSets]. intros Hwf. wf_split.
  wire_list wf_RegistrationFence travels_RegistrationFence rs.
  wire_list wf_Observation travels_Observation os. wire_list text travels_text ns.
  wire_list wf_RRSet travels_RRSet ss. split.
  - destruct rs, os, ns; read_struct plan_value.
  - faithful_struct; plan_deep.
Qed.

Lemma travels_ChunkRef r : wf_ChunkRef r = true → travels dChunkRef zeroChunkRef ChunkRef_json 1 r.
Proof.
  destruct r as [i h z]. unfold wf_ChunkRef. cbn [cr_Index cr_SHA256 cr_Size]. intros Hwf. wf_split. int_split. split.
  - read_struct plan_value.
  - faithful_struct.
Qed.

Lemma travels_Manifest m : wf_Manifest m = true → travels dManifest zeroManifest PublicationManifest_json 3 m.
Proof.
  destruct m as [mu zu a e r p t cs h g]. unfold wf_Manifest. cbn [pm_ManifestUID pm_ZoneUID pm_Apex
    pm_WriterEpoch pm_Revision pm_PreviousRevision pm_Chunks pm_ContentHash pm_GeneratedAt].
  intros Hwf. wf_split. wire_list wf_ChunkRef travels_ChunkRef cs. split.
  - unfold PublicationManifest_json. cbn [pm_ManifestUID pm_ZoneUID pm_Apex pm_WriterEpoch
      pm_Revision pm_PreviousRevision pm_Tombstone pm_Chunks pm_ContentHash pm_GeneratedAt].
    destruct (Z.eqb_spec p 0) as [->|], t; cbn [omitempty app negb]; unfold dManifest;
      cbn [struct_decoder]; repeat (eapply bind_field; [read_field plan_value|]); reflexivity.
  - faithful_struct; plan_deep.
Qed.

Lemma travels_Chunk c : wf_Chunk c = true → travels dChunk zeroChunk PublicationChunk_json 1 c.
Proof.
  destruct c as [mu zu e r i h p]. unfold wf_Chunk. cbn [pc_ManifestUID pc_ZoneUID pc_WriterEpoch pc_Revision pc_Index
    pc_SHA256 pc_Payload]. intros Hwf. wf_split. int_split. split.
  - read_struct plan_value.
  - faithful_struct. plan_deep.
Qed.
