(* ===== verification/ApiStore.v ===== *)
(** The platform API server as the control plane of the internal DNS service sees it, and
    a logic for the processes that share it.

    Several processes (planners, allocators, outboxes, on several machines) call one
    server, which keeps objects by kind, namespace and name, gives each object a UID and
    each write a new resource version, and refuses a write whose resource version is not
    the current one.  A call may fail before it is applied or after; a process may stop at
    any call.  A process is a program: a tree of calls and what follows each answer.  The
    calls of different processes interleave.

    This is the Kubernetes API server, where [run.go] keeps the publication records unless
    [publicationStore] is configured.  A list, too, shows the objects of one moment.  The
    JetStream store of [pubstore/store.go], which keeps the same compare-and-swap contract
    but lists from an index its watches feed, possibly behind and without the payload of
    settled entries, is not modelled.

    [wp] is a rely-guarantee logic for such programs and [adequacy] says what it proves of
    every interleaving. *)

From S2P Require Import Prelude GoStrings GoCrypto GoJson Api ApiMeta WireModel.

(** * The kinds of objects ([internaldns_service_types.go]) *)

Inductive Kind := ConfigMap | ResolverBinding | Ownership | Manifest | ChunkObject | TransportOutbox.
#[global] Instance Kind_eq_dec : EqDecision Kind.
Proof. solve_decision. Defined.

Abbreviation labelMap := (gmap gostring gostring).

Record ObjectRef := { ref_Name : gostring; ref_UID : gostring }.
#[global] Instance ObjectRef_eq_dec : EqDecision ObjectRef.
Proof. solve_decision. Defined.

Record DNSResolverBindingSpec := {
  bs_ProjectUID : gostring;
  bs_ResolverContextRef : ObjectRef;
  bs_AccessBindingRef : ObjectRef;
  bs_Region : gostring;
  bs_Shard : gostring;
  bs_Generation : Z;
  bs_Revision : Z;
  bs_NodeAddress : gostring;
  bs_RegionalAddress : gostring;
  bs_ZoneRefs : list ObjectRef;
  bs_ZoneApices : gmap gostring gostring;
  bs_Epoch : Z;
  bs_Sequence : Z;
  bs_Tombstone : bool;
}.

Record DNSResolverBindingStatus := {
  bst_ObservedConfigurationRevision : Z;
  bst_Phase : gostring;
  bst_Conditions : list Condition;
}.

Record DNSPublicationTarget := { pt_Region : gostring; pt_Shard : gostring }.
#[global] Instance DNSPublicationTarget_eq_dec : EqDecision DNSPublicationTarget.
Proof. solve_decision. Defined.

Record DNSPublicationChunkReference := { kr_Name : gostring; kr_SHA256 : gostring; kr_Size : Z }.
#[global] Instance DNSPublicationChunkReference_eq_dec : EqDecision DNSPublicationChunkReference.
Proof. solve_decision. Defined.
Record DNSRegistrationFence := { drf_UID : gostring; drf_Generation : Z }.
#[global] Instance DNSRegistrationFence_eq_dec : EqDecision DNSRegistrationFence.
Proof. solve_decision. Defined.
Record DNSContributionFence := {
  dcf_UID : gostring;
  dcf_Generation : Z;
  dcf_Sequence : Z;
  dcf_Retired : bool;
  dcf_SourceName : gostring;
}.
#[global] Instance DNSContributionFence_eq_dec : EqDecision DNSContributionFence.
Proof. solve_decision. Defined.

Record DNSPublicationManifestSpec := {
  ms_ZoneRef : ObjectRef;
  ms_ZoneApex : gostring;
  ms_ContextUIDs : list gostring;
  ms_WriterEpoch : Z;
  ms_Revision : Z;
  ms_PreviousRevision : Z;
  ms_Tombstone : bool;
  ms_Chunks : list DNSPublicationChunkReference;
  ms_ContentHash : gostring;
  ms_GeneratedAt : Z;
  ms_ContributionFences : list DNSContributionFence;
  ms_RegistrationFences : list DNSRegistrationFence;
  ms_ServingTargets : list DNSPublicationTarget;
  ms_WithdrawnTargets : list DNSPublicationTarget;
  ms_ExpectedRegions : list gostring;
}.
#[global] Instance DNSPublicationManifestSpec_eq_dec : EqDecision DNSPublicationManifestSpec.
Proof. solve_decision. Defined.
Definition ms_ZoneUID (m : DNSPublicationManifestSpec) : gostring := ref_UID (ms_ZoneRef m).

(** The acknowledgements of the replicas are not modelled. *)
Record DNSPublicationManifestStatus := {
  mst_ExportState : gostring;
  mst_ExportedAt : option Z;
  mst_Conditions : list Condition;
}.

Record DNSPublicationChunkSpec := {
  pcs_WriterEpoch : Z;
  pcs_Revision : Z;
  pcs_Index : Z;
  pcs_SHA256 : gostring;
  pcs_Payload : gostring;
}.
#[global] Instance DNSPublicationChunkSpec_eq_dec : EqDecision DNSPublicationChunkSpec.
Proof. solve_decision. Defined.

Record DNSPublicationOwnershipSpec := {
  os_ZoneUID : gostring;
  os_HolderIdentity : gostring;
  os_WriterEpoch : Z;
  os_NextRevision : Z;
  os_LeaseUntil : Z;
  os_LastContentHash : gostring;
  os_ActiveManifestName : gostring;
}.

Record DNSTransportOutboxSpec := {
  ob_Subject : gostring;
  ob_ResourceUID : gostring;
  ob_WriterEpoch : Z;
  ob_Revision : Z;
  ob_ManifestRef : gostring;
  ob_OwnershipRef : gostring;
  ob_PayloadHash : gostring;
  ob_Payload : gostring;
  ob_Activation : bool;
  ob_DependsOn : list gostring;
}.
#[global] Instance DNSTransportOutboxSpec_eq_dec : EqDecision DNSTransportOutboxSpec.
Proof. solve_decision. Defined.

Record DNSTransportOutboxStatus := {
  obs_State : gostring;
  obs_Attempts : Z;
  obs_AcknowledgedAt : option Z;
  obs_StreamSequence : Z;
  obs_Failed : bool;
}.

(** What an object holds besides its metadata. *)
Definition Body (k : Kind) : Type :=
  match k with
  | ConfigMap => gmap gostring gostring
  | ResolverBinding => DNSResolverBindingSpec * DNSResolverBindingStatus
  | Ownership => DNSPublicationOwnershipSpec
  | Manifest => DNSPublicationManifestSpec * DNSPublicationManifestStatus
  | ChunkObject => DNSPublicationChunkSpec
  | TransportOutbox => DNSTransportOutboxSpec * DNSTransportOutboxStatus
  end.

Record Object (k : Kind) := {
  o_UID : gostring;
  o_ResourceVersion : Z;
  o_Labels : labelMap;
  o_Generation : Z;
  o_DeletionTimestamp : option Z;
  o_Body : Body k;
}.
Arguments o_UID {k} _.
Arguments o_ResourceVersion {k} _.
Arguments o_Labels {k} _.
Arguments o_Generation {k} _.
Arguments o_DeletionTimestamp {k} _.
Arguments o_Body {k} _.

(** Namespace and name. *)
Abbreviation Name := (gostring * gostring)%type.

(** * The server *)

(** What has happened: a write of an object ([None] for its deletion), an event that was
    published to the stream, and one that was put into the bootstrap bucket. *)
Inductive event :=
| Wrote (k : Kind) (n : Name) (o : option (Object k))
| Published (subject : gostring) (env : Envelope)
| Kept (key : gostring) (env : Envelope).

Record store := {
  st_table : ∀ k, gmap Name (Object k);
  st_version : Z;             (* the last resource version *)
  st_uids : gset gostring;    (* the UIDs given so far *)
  st_log : list (nat * event);  (* what happened, with the process that did it *)
}.

(** The table of one kind replaced. *)
Definition set_table (k : Kind) (m : gmap Name (Object k)) (t : ∀ k, gmap Name (Object k)) :
    ∀ k, gmap Name (Object k) := λ k',
  match decide (k = k') with
  | left e => eq_rect k (λ k, gmap Name (Object k)) m k' e
  | right _ => t k'
  end.

Definition write (i : nat) (k : Kind) (n : Name) (o : Object k) (s : store) : store :=
  {| st_table := set_table k (<[n := o]> (st_table s k)) (st_table s);
     st_version := o_ResourceVersion o;
     st_uids := {[o_UID o]} ∪ st_uids s;
     st_log := st_log s ++ [(i, Wrote k n (Some o))] |}.

Definition remove (i : nat) (k : Kind) (n : Name) (s : store) : store :=
  {| st_table := set_table k (delete n (st_table s k)) (st_table s);
     st_version := st_version s;
     st_uids := st_uids s;
     st_log := st_log s ++ [(i, Wrote k n None)] |}.

Definition note (i : nat) (ev : event) (s : store) : store :=
  {| st_table := st_table s; st_version := st_version s; st_uids := st_uids s;
     st_log := st_log s ++ [(i, ev)] |}.

(** An answer: the object or the error the callers tell apart. *)
Inductive Reply (A : Type) :=
| Found (a : A)
| NotFound
| AlreadyExists
| Conflict
| Failed.
Arguments Found {A} _.
Arguments NotFound {A}.
Arguments AlreadyExists {A}.
Arguments Conflict {A}.
Arguments Failed {A}.

(** The calls.  An update replaces the body of the object at the given resource version; a
    patch without a lock changes whatever labels and body are current. *)
Inductive Call : Type → Type :=
| Get (k : Kind) (n : Name) : Call (Reply (Object k))
| List_ (k : Kind) (ns : gostring) (labels : labelMap) : Call (Reply (list (Name * Object k)))
| Create (k : Kind) (n : Name) (labels : labelMap) (body : Body k) : Call (Reply (Object k))
| Update (k : Kind) (n : Name) (version : Z) (labels : labelMap) (body : Body k) :
    Call (Reply (Object k))
| Patch (k : Kind) (n : Name) (g : labelMap → labelMap) (f : Body k → Body k) : Call (Reply (Object k))
| Delete (k : Kind) (n : Name) (uid : gostring) (version : Z) : Call (Reply unit)
| Publish (subject : gostring) (env : Envelope) : Call (option Z)
| Keep (key : gostring) (env : Envelope) : Call (option Z)
| Clock : Call Z.

(** [client.InNamespace] and [client.MatchingLabels]. *)
Definition selected {k : Kind} (ns : gostring) (labels : labelMap) (x : Name * Object k) : Prop :=
  x.1.1 = ns ∧ labels ⊆ o_Labels x.2.
#[global] Instance selected_dec {k : Kind} (ns : gostring) (labels : labelMap) (x : Name * Object k) : Decision (selected ns labels x) :=
  _.

(** A write gives the object a higher version than any before. *)
Definition successor {k : Kind} (s : store) (old : Object k) (labels : labelMap) (body : Body k)
    (o : Object k) : Prop :=
  o_UID o = o_UID old ∧ (st_version s < o_ResourceVersion o)%Z ∧ o_Labels o = labels
  ∧ o_Generation o = o_Generation old ∧ o_DeletionTimestamp o = o_DeletionTimestamp old
  ∧ o_Body o = body.

(** The years 1970 to 9000. *)
Definition clockRange (t : Z) : Prop := (0 ≤ t < 221845392000000000000)%Z.

(** [serve i c s x s']: the call [c] of process [i] at [s] is answered [x] and leaves
    [s'].  Every call may fail, and a write that fails may have been applied. *)
Definition serve (i : nat) {R} (c : Call R) (s : store) : R → store → Prop :=
  match c in Call R return R → store → Prop with
  | Get k n => λ x s',
      s' = s ∧ (x = Failed ∨ x = match st_table s k !! n with Some o => Found o | None => NotFound end)
  | List_ k ns labels => λ x s',
      s' = s ∧ (x = Failed
                ∨ (∃ l, x = Found l ∧ l ≡ₚ filter (selected ns labels) (map_to_list (st_table s k))))
  | Create k n labels body => λ x s',
      match st_table s k !! n with
      | Some _ => s' = s ∧ (x = AlreadyExists ∨ x = Failed)
      | None =>
          s' = s ∧ x = Failed
          ∨ (∃ o, (o_UID o ∉ st_uids s) ∧ o_UID o ≠ [] ∧ ascii_string (o_UID o) = true ∧ (st_version s < o_ResourceVersion o)%Z
               ∧ o_Labels o = labels ∧ o_Body o = body ∧ o_DeletionTimestamp o = None
               ∧ s' = write i k n o s ∧ (x = Found o ∨ x = Failed))
      end
  | Update k n version labels body => λ x s',
      match st_table s k !! n with
      | None => s' = s ∧ (x = NotFound ∨ x = Failed)
      | Some old =>
          s' = s ∧ x = Failed
          ∨ o_ResourceVersion old ≠ version ∧ s' = s ∧ x = Conflict
          ∨ o_ResourceVersion old = version
            ∧ (∃ o, successor s old labels body o ∧ s' = write i k n o s ∧ (x = Found o ∨ x = Failed))
      end
  | Patch k n g f => λ x s',
      match st_table s k !! n with
      | None => s' = s ∧ (x = NotFound ∨ x = Failed)
      | Some old =>
          s' = s ∧ x = Failed
          ∨ (∃ o, successor s old (g (o_Labels old)) (f (o_Body old)) o ∧ s' = write i k n o s
               ∧ (x = Found o ∨ x = Failed))
      end
  | Delete k n uid version => λ x s',
      match st_table s k !! n with
      | None => s' = s ∧ (x = NotFound ∨ x = Failed)
      | Some old =>
          s' = s ∧ x = Failed
          ∨ (o_UID old ≠ uid ∨ o_ResourceVersion old ≠ version) ∧ s' = s ∧ x = Conflict
          ∨ (o_UID old = uid ∧ o_ResourceVersion old = version)
            ∧ s' = remove i k n s ∧ (x = Found tt ∨ x = Failed)
      end
  | Publish subject env => λ x s',
      s' = s ∧ x = None ∨ s' = note i (Published subject env) s
  | Keep key env => λ x s',
      s' = s ∧ x = None ∨ s' = note i (Kept key env) s
  | Clock => λ x s', s' = s ∧ clockRange x
  end.

(** * Programs *)

Inductive prog (A : Type) :=
| Ret (a : A)
| Ask {R} (c : Call R) (f : R → prog A).
Arguments Ret {A} _.
Arguments Ask {A R} _ _.

Fixpoint prog_bind {A B} (g : A → prog B) (p : prog A) : prog B :=
  match p with
  | Ret a => g a
  | Ask c f => Ask c (λ x, prog_bind g (f x))
  end.
#[global] Instance prog_mbind : MBind prog := @prog_bind.
#[global] Instance prog_mret : MRet prog := @Ret.
Definition call {R} (c : Call R) : prog R := Ask c Ret.

(** * Tables *)

Lemma set_table_same (k : Kind) (m : gmap Name (Object k)) t : set_table k m t k = m.
Proof.
  unfold set_table. destruct (decide (k = k)) as [e|]; [|done].
  by rewrite (Eqdep_dec.UIP_dec Kind_eq_dec e eq_refl).
Qed.

Lemma set_table_other (k k' : Kind) (m : gmap Name (Object k)) t : k ≠ k' → set_table k m t k' = t k'.
Proof. intros Hk. unfold set_table. by destruct (decide (k = k')). Qed.

Lemma write_lookup i (k : Kind) (n : Name) (o : Object k) s : st_table (write i k n o s) k !! n = Some o.
Proof. cbn. rewrite set_table_same. apply lookup_insert_eq. Qed.

Lemma write_lookup_ne i (k : Kind) (n : Name) (o : Object k) s n' : n ≠ n' → st_table (write i k n o s) k !! n' = st_table s k !! n'.
Proof. intros Hn. cbn. rewrite set_table_same. by apply lookup_insert_ne. Qed.

Lemma write_other i (k : Kind) (n : Name) (o : Object k) s k' : k ≠ k' → st_table (write i k n o s) k' = st_table s k'.
Proof. apply set_table_other. Qed.

Lemma remove_lookup i (k : Kind) (n : Name) s : st_table (remove i k n s) k !! n = None.
Proof. cbn. rewrite set_table_same. apply lookup_delete_eq. Qed.

Lemma remove_lookup_ne i (k : Kind) (n : Name) s n' : n ≠ n' → st_table (remove i k n s) k !! n' = st_table s k !! n'.
Proof. intros Hn. cbn. rewrite set_table_same. by apply lookup_delete_ne. Qed.

Lemma remove_other i (k : Kind) (n : Name) s k' : k ≠ k' → st_table (remove i k n s) k' = st_table s k'.
Proof. apply set_table_other. Qed.

(** * The logic *)

Section logic.
(** What holds of the store at all times, and what process [i] relies on of the others. *)
Variable inv : store → Prop.
Variable rely : nat → store → store → Prop.
(** What is assumed of the whole run: a property of its last store that all before have. *)
Variable within : store → Prop.
Hypothesis rely_refl : ∀ i s, rely i s s.
Hypothesis rely_trans : ∀ i s1 s2 s3, rely i s1 s2 → rely i s2 s3 → rely i s1 s3.

(** The program keeps the invariant, does to the store only what the others rely on, and
    its result satisfies [Q]; the others may run between its calls. *)
Fixpoint wp {A} (i : nat) (p : prog A) (Q : A → store → Prop) (s : store) : Prop :=
  match p with
  | Ret a => Q a s
  | Ask c f => ∀ s1 x s2,
      rely i s s1 → inv s1 → serve i c s1 x s2 → within s2 →
      inv s2 ∧ (∀ j, j ≠ i → rely j s1 s2) ∧ wp i (f x) Q s2
  end.

Lemma wp_mono {A} i (p : prog A) (Q Q' : A → store → Prop) s :
  wp i p Q s → (∀ a s', Q a s' → Q' a s') → wp i p Q' s.
Proof.
  intros Hp HQ. induction p as [a|R c f IH] in s, Hp |- *; cbn in *; [by apply HQ|].
  intros s1 x s2 Hr Hi Hs Hw. destruct (Hp s1 x s2 Hr Hi Hs Hw) as (? & ? & ?). eauto.
Qed.

Lemma wp_bind {A B} i (p : prog A) (g : A → prog B) Q s :
  wp i p (λ a s', wp i (g a) Q s') s → wp i (p ≫= g) Q s.
Proof.
  intros Hp. induction p as [a|R c f IH] in s, Hp |- *; [done|].
  intros s1 x s2 Hr Hi Hs Hw. destruct (Hp s1 x s2 Hr Hi Hs Hw) as (? & ? & ?). eauto.
Qed.

Lemma wp_ret {A} i (a : A) (Q : A → store → Prop) s : Q a s → wp i (mret a) Q s.
Proof. done. Qed.

Lemma wp_call {A R} i (c : Call R) (f : R → prog A) Q s :
  (∀ s1 x s2, rely i s s1 → inv s1 → serve i c s1 x s2 → within s2 →
    inv s2 ∧ (∀ j, j ≠ i → rely j s1 s2) ∧ wp i (f x) Q s2) →
  wp i (call c ≫= f) Q s.
Proof. done. Qed.

(** A call that only reads. *)
Definition reads {R} (c : Call R) : Prop := ∀ i s x s', serve i c s x s' → s' = s.

Lemma wp_read {A R} i (c : Call R) (f : R → prog A) Q s :
  reads c →
  (∀ s1 x, rely i s s1 → inv s1 → serve i c s1 x s1 → wp i (f x) Q s1) →
  wp i (call c ≫= f) Q s.
Proof.
  intros Hc Hf. apply wp_call. intros s1 x s2 Hr Hi Hs _. pose proof (Hc i s1 x s2 Hs) as ->. eauto.
Qed.

(** A program that only reads. *)
Inductive readonly {A} : prog A → Prop :=
| readonly_ret a : readonly (Ret a)
| readonly_ask {R} (c : Call R) f : reads c → (∀ x, readonly (f x)) → readonly (Ask c f).

Lemma wp_readonly {A} i (p : prog A) s :
  inv s → readonly p → wp i p (λ _ s', inv s' ∧ rely i s s') s.
Proof.
  intros Hi Hp. induction Hp as [a|R c f Hc _ IH] in s, Hi |- *; [by split|].
  intros s1 x s2 Hr Hi1 Hs _. pose proof (Hc i s1 x s2 Hs) as ->. split_and!; [done|done|].
  eapply wp_mono; [by apply IH|]. cbn. intros a s' [? ?]. eauto.
Qed.

(** What holds before a call holds after the others have run. *)
Lemma wp_rely {A} i (p : prog A) (Q : A → store → Prop) s s' :
  (∀ a s s', Q a s → rely i s s' → Q a s') → rely i s s' → wp i p Q s → wp i p Q s'.
Proof.
  intros HQ Hr. destruct p as [a|R c f]; cbn; [by intros; eapply HQ|].
  intros Hp s1 x s2 Hr' Hi Hs Hw. eapply Hp; eauto.
Qed.

(** ** Interleavings *)

(** The processes; a step runs one call of one of them, or something outside of them. *)
Variable outside : store → store → Prop.
Hypothesis outside_ok : ∀ s s', inv s → outside s s' → within s' → inv s' ∧ ∀ i, rely i s s'.
Hypothesis within_served : ∀ i R (c : Call R) s x s', serve i c s x s' → within s' → within s.
Hypothesis within_outside : ∀ s s', outside s s' → within s' → within s.

Definition upd {A} (ps : nat → prog A) (i : nat) (p : prog A) : nat → prog A :=
  λ j, if decide (j = i) then p else ps j.

Inductive step {A} : store * (nat → prog A) → store * (nat → prog A) → Prop :=
| step_call s ps i R (c : Call R) f x s' :
    ps i = Ask c f → serve i c s x s' → step (s, ps) (s', upd ps i (f x))
| step_outside s ps s' : outside s s' → step (s, ps) (s', ps).

Lemma within_step {A} (c c' : store * (nat → prog A)) : step c c' → within c'.1 → within c.1.
Proof. destruct 1; cbn; eauto. Qed.

(** Every interleaving keeps the invariant, and a process that has ended has its
    postcondition. *)
Lemma adequacy {A} (Q : nat → A → store → Prop) s ps s' ps' :
  (∀ i a s s', Q i a s → rely i s s' → Q i a s') →
  inv s → (∀ i, wp i (ps i) (Q i) s) →
  rtc step (s, ps) (s', ps') → within s' →
  inv s' ∧ ∀ i a, ps' i = Ret a → Q i a s'.
Proof.
  intros HQ Hinv Hwp Hrtc Hw.
  enough (inv s' ∧ ∀ i, wp i (ps' i) (Q i) s') as [? Hall].
  { split; [done|]. intros i a Hret. specialize (Hall i). by rewrite Hret in Hall. }
  enough (∀ c c', rtc step c c' → within c'.1 → inv c.1 → (∀ i, wp i (c.2 i) (Q i) c.1) →
          inv c'.1 ∧ ∀ i, wp i (c'.2 i) (Q i) c'.1) as Hgen by by apply (Hgen (s, ps) (s', ps')).
  clear -HQ outside_ok rely_refl rely_trans within_served within_outside.
  induction 1 as [|c1 c2 c3 Hstep Hrest IH]; [done|]. intros Hw Hinv Hwp.
  assert (within c2.1) as Hw2.
  { clear -Hrest Hw within_served within_outside. induction Hrest; [done|]. eauto using within_step. }
  apply IH; [done|..]; destruct Hstep as [s ps i R c f x s2 Hi Hs|s ps s2 Ho]; cbn in *.
  - specialize (Hwp i). rewrite Hi in Hwp. by eapply (Hwp s x s2).
  - by eapply outside_ok.
  - intros j. pose proof (Hwp i) as Hwpi. rewrite Hi in Hwpi.
    destruct (Hwpi s x s2 (rely_refl i s) Hinv Hs Hw2) as (_ & Hg & Hnext).
    unfold upd. destruct (decide (j = i)) as [->|Hne]; [done|].
    eapply wp_rely; [by apply HQ|by apply Hg|apply Hwp].
  - intros j. destruct (outside_ok _ _ Hinv Ho Hw2) as [_ Hr].
    eapply wp_rely; [by apply HQ|by apply Hr|apply Hwp].
Qed.
End logic.

Lemma reads_Get k n : reads (Get k n).
Proof. by intros i s x s' [-> _]. Qed.
Lemma reads_List k ns labels : reads (List_ k ns labels).
Proof. by intros i s x s' [-> _]. Qed.
Lemma readonly_bind {A B} (p : prog A) (g : A → prog B) :
  readonly p → (∀ a, readonly (g a)) → readonly (p ≫= g).
Proof. intros Hp Hg. induction Hp as [a|R c f Hc _ IH]; [apply Hg|by constructor]. Qed.
Lemma reads_Clock : reads Clock.
Proof. by intros i s x s' [-> _]. Qed.

(** * A run of one process *)

(** A UID longer than all before. *)
Definition freshUID (s : store) : gostring :=
  replicate (S (foldr Nat.max 0 (length <$> elements (st_uids s)))) "u"%char.

Lemma freshUID_spec s : (freshUID s ∉ st_uids s) ∧ freshUID s ≠ [] ∧ ascii_string (freshUID s) = true.
Proof.
  split_and!; [|done|].
  - intros Hin%elem_of_elements. assert (∀ (l : list gostring) (u : gostring), u ∈ l → length u ≤ foldr Nat.max 0 (length <$> l)) as Hle.
    { clear. induction l as [|x l IH]; intros u; [by intros ?%not_elem_of_nil|].
      rewrite elem_of_cons. cbn. intros [-> |Hu%IH]; lia. }
    apply Hle in Hin. unfold freshUID in Hin at 1. rewrite length_replicate in Hin. lia.
  - unfold freshUID. generalize (S (foldr Nat.max 0 (length <$> elements (st_uids s)))).
    intros m. by induction m.
Qed.

(** A server that applies every call, and a clock. *)
Definition reply (i : nat) (clock : Z) {R} (c : Call R) (s : store) : R * store :=
  let version := (st_version s + 1)%Z in
  match c in Call R return R * store with
  | Get k n => (match st_table s k !! n with Some o => Found o | None => NotFound end, s)
  | List_ k ns labels => (Found (filter (selected ns labels) (map_to_list (st_table s k))), s)
  | Create k n labels body =>
      match st_table s k !! n with
      | Some _ => (AlreadyExists, s)
      | None =>
          let o := {| o_UID := freshUID s; o_ResourceVersion := version;
                      o_Generation := 1; o_Labels := labels; o_DeletionTimestamp := None;
                      o_Body := body |} in
          (Found o, write i k n o s)
      end
  | Update k n v labels body =>
      match st_table s k !! n with
      | None => (NotFound, s)
      | Some old =>
          if decide (o_ResourceVersion old = v) then
            let o := {| o_UID := o_UID old; o_ResourceVersion := version;
                        o_Generation := o_Generation old; o_Labels := labels;
                        o_DeletionTimestamp := o_DeletionTimestamp old; o_Body := body |} in
            (Found o, write i k n o s)
          else (Conflict, s)
      end
  | Patch k n g f =>
      match st_table s k !! n with
      | None => (NotFound, s)
      | Some old =>
          let o := {| o_UID := o_UID old; o_ResourceVersion := version;
                      o_Generation := o_Generation old; o_Labels := g (o_Labels old);
                      o_DeletionTimestamp := o_DeletionTimestamp old; o_Body := f (o_Body old) |} in
          (Found o, write i k n o s)
      end
  | Delete k n uid v =>
      match st_table s k !! n with
      | None => (NotFound, s)
      | Some old =>
          if decide (o_UID old = uid ∧ o_ResourceVersion old = v)
          then (Found tt, remove i k n s) else (Conflict, s)
      end
  | Publish subject env => (Some 1%Z, note i (Published subject env) s)
  | Keep key env => (Some 1%Z, note i (Kept key env) s)
  | Clock => (clock, s)
  end.

Lemma reply_serves i clock {R} (c : Call R) s :
  clockRange clock →
  serve i c s (reply i clock c s).1 (reply i clock c s).2.
Proof.
  intros Hclock. destruct c; cbn [reply serve]; try done; try (by split; [|right; eauto]); try by right.
  all: destruct (st_table s k !! n) as [old|] eqn:Hn; cbn; eauto.
  - destruct (freshUID_spec s) as (? & ? & ?). right. eexists.
    split_and!; [| | | | | | |reflexivity|by left]; cbn [o_UID o_ResourceVersion o_Labels
      o_Body o_DeletionTimestamp]; [done..|lia|done|done|done].
  - destruct (decide _); cbn; [right; right|right; left; done]. split; [done|].
    eexists. split_and!; [|reflexivity|by left]. unfold successor. cbn. split_and!; done || lia.
  - right. eexists. split_and!; [|reflexivity|by left]. unfold successor. cbn. split_and!; done || lia.
  - destruct (decide _) as [|Hno]; cbn; [right; right; eauto|right; left].
    split; [|done]. by apply not_and_l in Hno.
Qed.

(** The process runs alone to its end. *)
Fixpoint exec {A} (i : nat) (clock : Z) (p : prog A) (s : store) : A * store :=
  match p with
  | Ret a => (a, s)
  | Ask c f => let r := reply i clock c s in exec i clock (f r.1) r.2
  end.

Lemma exec_steps {A} outside i clock (ps : nat → prog A) s :
  clockRange clock →
  ∃ ps', rtc (step outside) (s, ps) ((exec i clock (ps i) s).2, ps')
    ∧ ps' i = Ret (exec i clock (ps i) s).1 ∧ ∀ j, j ≠ i → ps' j = ps j.
Proof.
  intros Hclock. remember (ps i) as p eqn:Hp. symmetry in Hp.
  induction p as [a|R c f IH] in ps, Hp, s |- *; cbn [exec]; [by exists ps|].
  set (r := reply i clock c s).
  destruct (IH r.1 (upd ps i (f r.1)) r.2) as (ps' & Hr & Hi & Hj).
  { unfold upd. by rewrite decide_True. }
  exists ps'. split_and!; [|done|].
  - eapply rtc_l; [|exact Hr]. by eapply step_call; [|apply reply_serves].
  - intros j Hne. rewrite (Hj j Hne). unfold upd. by rewrite decide_False.
Qed.

Definition emptyStore : store :=
  {| st_table := λ _, ∅; st_version := 0; st_uids := ∅; st_log := [] |}.
