(* ===== verification/ShardState.v ===== *)
(** The ownership record of a shard ([platform/planner.go], [type shardState]) and the
    snapshot it points to ([platform/acks.go], [LoadCommittedServingSnapshot]).

    The record is JSON in a ConfigMap.  It names the planner that holds the shard, the
    writer epoch, the next revision and the outbox entry of the snapshot in force. *)

From S2P Require Import Prelude GoStrings GoCrypto GoJson GoJsonDecode WireModel Publication.
From S2P Require Import WireDecode ApiStore.

Record shardState := {
  sh_Holder : gostring;
  sh_Epoch : Z;
  sh_NextRevision : Z;
  sh_LeaseUntil : Z;
  sh_ActiveOutbox : gostring;
  sh_ContentHash : gostring;
}.

Definition shardState_json (s : shardState) : json :=
  JObj ([("holder", JStr (sh_Holder s)); ("epoch", JNum (sh_Epoch s));
         ("nextRevision", JNum (sh_NextRevision s)); ("leaseUntil", JTime (sh_LeaseUntil s))]
        ++ omitempty (bool_decide (sh_ActiveOutbox s = [])) "activeOutbox" (JStr (sh_ActiveOutbox s))
        ++ omitempty (bool_decide (sh_ContentHash s = [])) "contentHash" (JStr (sh_ContentHash s))).

Definition zeroShardState : shardState := {|
  sh_Holder := []; sh_Epoch := 0; sh_NextRevision := 0; sh_LeaseUntil := zeroTime;
  sh_ActiveOutbox := []; sh_ContentHash := [] |}.
Definition dShardState : decoder shardState := struct_decoder (λ old fs,
  holder ← field dString "holder" (sh_Holder old) fs;
  epoch ← field dUint64 "epoch" (sh_Epoch old) fs;
  next ← field dUint64 "nextRevision" (sh_NextRevision old) fs;
  until ← field dTime "leaseUntil" (sh_LeaseUntil old) fs;
  active ← field dString "activeOutbox" (sh_ActiveOutbox old) fs;
  hash ← field dString "contentHash" (sh_ContentHash old) fs;
  Some {| sh_Holder := holder; sh_Epoch := epoch; sh_NextRevision := next;
          sh_LeaseUntil := until; sh_ActiveOutbox := active; sh_ContentHash := hash |}).

(** A map entry, [""] when there is none. *)
Definition entry (m : gmap gostring gostring) (k : gostring) : gostring := default [] (m !! k).

Definition dataOf (cm : Object ConfigMap) : gmap gostring gostring := o_Body cm.

Definition readShardState (cm : Object ConfigMap) : option shardState :=
  Unmarshal dShardState zeroShardState (entry (dataOf cm) "state").

(** [json.Marshal] fails on a time out of range; the callers ignore the error and write
    the empty string then. *)
Definition marshalShardState (s : shardState) : gostring :=
  if marshalable (sh_LeaseUntil s) then encode (shardState_json s) else [].

Definition shardOwnerName (namespace region shard : gostring) : Name :=
  (namespace, "dns-shard-owner-" ++ OpaqueToken (region ++ "/" ++ shard)).

(** [LoadCommittedServingSnapshot]: [Ok None] when nothing is committed. *)
Inductive LoadError := LKube | LCorrupt.

Definition decodeCommitted (region shard : gostring) (out : DNSTransportOutboxSpec) :
    option (Envelope * ServingSnapshot) :=
  if bool_decide (Hash (ob_Payload out) ≠ ob_PayloadHash out) then None
  else
    e ← Unmarshal dEnvelope zeroEnvelope (ob_Payload out);
    if bool_decide (e_Kind e ≠ KindServingSnapshot) || bool_decide (e_Region e ≠ region)
       || bool_decide (e_Shard e ≠ shard) || bool_decide (wrap64 (e_Epoch e) ≠ ob_WriterEpoch out)
       || bool_decide (wrap64 (e_Revision e) ≠ ob_Revision out)
    then None
    else
      match e_Payload e with
      | NotJson _ => None
      | Encoded j =>
          snapshot ← dSnapshot zeroSnapshot j;
          if bool_decide (s_Region snapshot ≠ region) || bool_decide (s_Shard snapshot ≠ shard)
             || bool_decide (s_ConfigurationEpoch snapshot ≠ e_Epoch e)
             || bool_decide (s_ConfigurationRevision snapshot ≠ e_Revision e)
          then None
          else Some (e, snapshot)
      end.

Definition LoadCommittedServingSnapshot (namespace region shard : gostring) :
    prog (result LoadError (option (Envelope * ServingSnapshot))) :=
  r ← call (Get ConfigMap (shardOwnerName namespace region shard));
  match r with
  | NotFound => mret (Ok None)
  | Found cm =>
      match readShardState cm with
      | None => mret (Err LCorrupt)
      | Some owner =>
          if decide (sh_ActiveOutbox owner = []) then mret (Ok None)
          else
            o ← call (Get TransportOutbox (namespace, sh_ActiveOutbox owner));
            match o with
            | Found out =>
                mret (match decodeCommitted region shard (o_Body out : Body TransportOutbox).1 with
                      | Some x => Ok (Some x)
                      | None => Err LCorrupt
                      end)
            | _ => mret (Err LKube)
            end
      end
  | _ => mret (Err LKube)
  end.

(** * The record is read back *)

Definition wf_ShardState (s : shardState) : bool :=
  text (sh_Holder s) && fits 64 (sh_Epoch s) && fits 64 (sh_NextRevision s)
  && marshalable (sh_LeaseUntil s) && text (sh_ActiveOutbox s) && text (sh_ContentHash s).

Lemma travels_ShardState s : wf_ShardState s = true → travels dShardState zeroShardState shardState_json 1 s.
Proof.
  destruct s as [h e n l a c]. unfold wf_ShardState. cbn [sh_Holder sh_Epoch sh_NextRevision
    sh_LeaseUntil sh_ActiveOutbox sh_ContentHash]. intros Hwf. wf_split. split.
  - destruct a, c; read_struct wire_value.
  - faithful_struct.
Qed.

Lemma unmarshal_ShardState s :
  wf_ShardState s = true →
  Unmarshal dShardState zeroShardState (marshalShardState s) = Some s.
Proof.
  intros Hwf. pose proof (travels_ShardState s Hwf) as Ht. unfold marshalShardState.
  assert (marshalable (sh_LeaseUntil s) = true) as ->
    by (unfold wf_ShardState in Hwf; rewrite !andb_true_iff in Hwf; tauto).
  by apply (travels_Unmarshal _ _ _ _ _ Ht ltac:(lia)).
Qed.
