(* ===== verification/Allocator.v ===== *)
(** The address allocator ([platform/allocator.go]).

    [Allocate] leases a resolver context an address of its region's pool: it claims an
    address by creating a ConfigMap named after it, checks that no service destination has
    the address, and records the lease in a second ConfigMap named after the owner.
    [ClaimDestination] claims an address outside the pools for a service, and
    [ReleaseDestinations] gives up the claims nothing routes to any more.

    Any number of control planes do this at once on one API server.  [allocations] says
    that, whatever the interleaving and wherever a process stops or a call fails, no
    address is leased twice, an owner always gets the same one, it lies in the pool, and
    no destination is claimed there. *)

From S2P Require Import Prelude GoStrings GoCrypto GoJson GoJsonDecode GoNetip GoNetipPrefix Api.
From S2P Require Import ApiMeta WireModel Publication WireDecode ApiStore ShardState.

Definition leaseLabel : gostring := "internal-dns.miloapis.com/address-lease".
Definition destinationProjectLabel : gostring := "internal-dns.miloapis.com/destination-project".

Record AddressLease := {
  al_Owner : gostring;
  al_ProjectUID : gostring;
  al_ContextUID : gostring;
  al_ClusterAddress : gostring;
  al_CreatedAt : Z;
}.
Definition AddressLease_json (l : AddressLease) : json :=
  JObj [("owner", JStr (al_Owner l)); ("projectUID", JStr (al_ProjectUID l));
        ("contextUID", JStr (al_ContextUID l)); ("clusterAddress", JStr (al_ClusterAddress l));
        ("createdAt", JTime (al_CreatedAt l))].
Definition zeroLease : AddressLease := {|
  al_Owner := []; al_ProjectUID := []; al_ContextUID := []; al_ClusterAddress := [];
  al_CreatedAt := zeroTime |}.
Definition dAddressLease : decoder AddressLease := struct_decoder (λ old fs,
  owner ← field dString "owner" (al_Owner old) fs;
  project ← field dString "projectUID" (al_ProjectUID old) fs;
  context ← field dString "contextUID" (al_ContextUID old) fs;
  cluster ← field dString "clusterAddress" (al_ClusterAddress old) fs;
  created ← field dTime "createdAt" (al_CreatedAt old) fs;
  Some {| al_Owner := owner; al_ProjectUID := project; al_ContextUID := context;
          al_ClusterAddress := cluster; al_CreatedAt := created |}).

Record Allocator := {
  a_Namespace : gostring;
  a_ClusterPrefix : gostring;
  a_RegionalPrefixes : gmap gostring gostring;
  a_Regions : list gostring;
}.

(** [EInvalid]: the allocator or the call is not configured for this; [ERefused]:
    [model.ErrDestinationRefused]; [ECorrupt]: the stored lease is not the owner's;
    [EExhausted]: every candidate was taken; [EMoved]: the lease lies outside the pool. *)
Inductive AllocatorError := EInvalid | ERefused | EKube | ECorrupt | EExhausted | EMoved.

(** * Pools *)

Definition ParseRegionalPrefix (prefix : gostring) : option Prefix :=
  let prefix := if decide (prefix = []) then "fd54::/64" else prefix in
  p ← ParsePrefix prefix;
  if Is4 (px_Addr p) || (112 <? px_Bits p)%nat then None else Some (Masked p).

Definition prefixFor (a : Allocator) (region : gostring) : option Prefix :=
  match a_RegionalPrefixes a !! region with
  | Some prefix => ParseRegionalPrefix prefix
  | None => ParseRegionalPrefix (a_ClusterPrefix a)
  end.

(** [pools], over the regional prefixes in the order the map gives them. *)
Definition pools `{GoRuntime} (a : Allocator) : option (list Prefix) :=
  shared ← ParseRegionalPrefix (a_ClusterPrefix a);
  rest ← mapM (λ kv, ParseRegionalPrefix kv.2) (map_range (a_RegionalPrefixes a));
  Some (shared :: rest).

(** The address of an owner at a salt: the prefix, and bits of a digest below it. *)
Definition addressInPrefix (prefix : Prefix) (owner : gostring) (salt : nat) : gostring :=
  let base := match px_Addr prefix with Addr6 gs _ => As16 gs | Addr4 _ => [] end in
  let hash := Sum256 (owner ++ "/" ++ FormatInt (Z.of_nat salt)) in
  let base := setBits (px_Bits prefix) (bitAt hash) base in
  AddrString (AddrFrom16 (setBit base 127 true)).

(** * Names of the ConfigMaps *)

Definition ownerKey (a : Allocator) (owner : gostring) : Name :=
  (a_Namespace a, "dns-address-owner-" ++ OpaqueToken owner).
Definition claimKey (a : Allocator) (address : gostring) : Name :=
  (a_Namespace a, "dns-address-claim-" ++ OpaqueToken address).
Definition destinationClaimKey (a : Allocator) (region address : gostring) (port : Z) : Name :=
  (a_Namespace a, "dns-destination-claim-"
                  ++ OpaqueToken (region ++ "/" ++ address ++ "/" ++ FormatInt port)).

Definition leaseLabels : labelMap := {[leaseLabel := ("true" : gostring)]}.
Definition claimData (owner address : gostring) : gmap gostring gostring :=
  {["owner" := owner; "address" := address]}.

(** * Leases *)

Definition decodeLease (stored : Object ConfigMap) (owner : gostring) :
    result AllocatorError AddressLease :=
  match Unmarshal dAddressLease zeroLease (entry (dataOf stored) "lease") with
  | None => Err ECorrupt
  | Some lease =>
      if bool_decide (al_Owner lease ≠ owner) || bool_decide (al_ProjectUID lease = [])
         || bool_decide (al_ContextUID lease = [])
      then Err ECorrupt else Ok lease
  end.

Definition destinationClaimed (a : Allocator) (address : gostring) :
    prog (result AllocatorError bool) :=
  r ← call (List_ ConfigMap (a_Namespace a) leaseLabels);
  match r with
  | Found claims =>
      mret (Ok (existsb (λ c : Name * Object ConfigMap,
                  let data := dataOf c.2 in
                  bool_decide (entry data "region" ≠ []) && bool_decide (entry data "address" = address))
                claims))
  | _ => mret (Err EKube)
  end.

Definition deleteClaim (n : Name) (claim : Object ConfigMap) : prog (option AllocatorError) :=
  r ← call (Delete ConfigMap n (o_UID claim) (o_ResourceVersion claim));
  match r with
  | Found _ | NotFound => mret None
  | _ => mret (Some EKube)
  end.

(** The candidate's address is claimed: check that it is no destination and record the
    lease, or give the claim up and go on with [next]. *)
Definition recordLease (a : Allocator) (candidate : AddressLease) (claim : Object ConfigMap)
    (next : prog (result AllocatorError AddressLease)) : prog (result AllocatorError AddressLease) :=
  let owner := al_Owner candidate in
  c ← destinationClaimed a (al_ClusterAddress candidate);
  match c with
  | Err e => mret (Err e)
  | Ok true =>
      d ← deleteClaim (claimKey a (al_ClusterAddress candidate)) claim;
      match d with Some e => mret (Err e) | None => next end
  | Ok false =>
      if negb (marshalable (al_CreatedAt candidate)) then mret (Err ECorrupt)
      else
        r ← call (Create ConfigMap (ownerKey a owner) leaseLabels
                    ({["lease" := encode (AddressLease_json candidate)]} : gmap gostring gostring));
        match r with
        | Found _ => mret (Ok candidate)
        | AlreadyExists =>
            g ← call (Get ConfigMap (ownerKey a owner));
            match g with
            | Found stored => mret (decodeLease stored owner)
            | _ => mret (Err EKube)
            end
        | _ => mret (Err EKube)
        end
  end.

(** The loop of [reserve]. *)
Fixpoint reserveFrom (a : Allocator) (projectUID contextUID owner : gostring) (prefix : Prefix)
    (fuel salt : nat) : prog (result AllocatorError AddressLease) :=
  match fuel with
  | O => mret (Err EExhausted)
  | S fuel' =>
      now ← call Clock;
      let address := addressInPrefix prefix (owner ++ "/cluster") salt in
      let candidate := {| al_Owner := owner; al_ProjectUID := projectUID; al_ContextUID := contextUID;
                          al_ClusterAddress := address; al_CreatedAt := now |} in
      let next := reserveFrom a projectUID contextUID owner prefix fuel' (S salt) in
      r ← call (Create ConfigMap (claimKey a address) leaseLabels (claimData owner address));
      match r with
      | Found claim => recordLease a candidate claim next
      | AlreadyExists =>
          g ← call (Get ConfigMap (claimKey a address));
          match g with
          | Found claim =>
              let data := dataOf claim in
              if bool_decide (entry data "owner" ≠ owner) || bool_decide (entry data "address" ≠ address)
              then next else recordLease a candidate claim next
          | _ => mret (Err EKube)
          end
      | _ => mret (Err EKube)
      end
  end.

Definition reserve (a : Allocator) (projectUID contextUID owner : gostring) (parsed : Prefix) :
    prog (result AllocatorError AddressLease) :=
  if bool_decide (a_Namespace a = []) || bool_decide (projectUID = []) || bool_decide (contextUID = [])
  then mret (Err EInvalid)
  else
    r ← call (Get ConfigMap (ownerKey a owner));
    match r with
    | Found stored => mret (decodeLease stored owner)
    | NotFound => reserveFrom a projectUID contextUID owner parsed (Z.to_nat 1024) 0
    | _ => mret (Err EKube)
    end.

Definition leaseOwner (a : Allocator) (projectUID contextUID region : gostring) : gostring :=
  projectUID ++ "/" ++ contextUID
  ++ match a_RegionalPrefixes a !! region with Some _ => "/" ++ region | None => [] end.

Definition Allocate (a : Allocator) (projectUID contextUID region : gostring) :
    prog (result AllocatorError gostring) :=
  match prefixFor a region with
  | None => mret (Err EInvalid)
  | Some prefix =>
      r ← reserve a projectUID contextUID (leaseOwner a projectUID contextUID region) prefix;
      match r with
      | Err e => mret (Err e)
      | Ok lease =>
          let address := al_ClusterAddress lease in
          if bool_decide (is_Some (a_RegionalPrefixes a !! region))
             && negb (match ParseAddr address with
                      | Some ip => PrefixContains prefix ip
                      | None => false
                      end)
          then mret (Err EMoved)
          else mret (Ok address)
      end
  end.

(** * Destinations *)

Definition destinationLabels (projectUID : gostring) : labelMap :=
  {[leaseLabel := ("true" : gostring); destinationProjectLabel := OpaqueToken projectUID]}.
Definition destinationData (owner region address : gostring) (port : Z) : gmap gostring gostring :=
  {["owner" := owner; "region" := region; "address" := address; "port" := FormatInt port]}.

(** The claim of the binding of this context that was made when claims belonged to access
    bindings. *)
Definition formerClaim (projectUID contextUID region address : gostring) (port : Z)
    (existing : gmap gostring gostring) (b : DNSResolverBindingSpec) : bool :=
  bool_decide (bs_ProjectUID b = projectUID)
  && bool_decide (ref_UID (bs_ResolverContextRef b) = contextUID)
  && bool_decide (ref_UID (bs_AccessBindingRef b) ≠ [])
  && bool_decide (entry existing "owner" = projectUID ++ "/" ++ ref_UID (bs_AccessBindingRef b))
  && bool_decide (bs_Region b = region) && bool_decide (bs_NodeAddress b = address) && (port =? 53)%Z
  && bool_decide (entry existing "region" = region) && bool_decide (entry existing "address" = address)
  && bool_decide (entry existing "port" = FormatInt port).

Definition bindingSpec (b : Object ResolverBinding) : DNSResolverBindingSpec :=
  (o_Body b : Body ResolverBinding).1.
Definition bindingStatus (b : Object ResolverBinding) : DNSResolverBindingStatus :=
  (o_Body b : Body ResolverBinding).2.

(** [a.Client.Patch] with an optimistic lock. *)
Definition patchClaim (n : Name) (existing : Object ConfigMap) (labels : labelMap)
    (data : gmap gostring gostring) : prog (option AllocatorError) :=
  r ← call (Update ConfigMap n (o_ResourceVersion existing) labels data);
  match r with Found _ => mret None | _ => mret (Some EKube) end.

(** The branch of a claim that exists already. *)
Definition claimExisting (a : Allocator) (projectUID contextUID region address : gostring) (port : Z)
    (existing : Object ConfigMap) : prog (option AllocatorError) :=
  let owner := projectUID ++ "/" ++ contextUID in
  let n := destinationClaimKey a region address port in
  let data := dataOf existing in
  if bool_decide (entry data "owner" ≠ owner) || bool_decide (entry data "region" ≠ region)
     || bool_decide (entry data "address" ≠ address) || bool_decide (entry data "port" ≠ FormatInt port)
  then
    r ← call (List_ ResolverBinding (a_Namespace a) ∅);
    match r with
    | Found bindings =>
        if existsb (λ b, formerClaim projectUID contextUID region address port data (bindingSpec b.2)) bindings
        then patchClaim n existing (destinationLabels projectUID) (<["owner" := owner]> data)
        else mret (Some ERefused)
    | _ => mret (Some EKube)
    end
  else if bool_decide (entry (o_Labels existing) destinationProjectLabel ≠ OpaqueToken projectUID)
  then patchClaim n existing (destinationLabels projectUID) data
  else mret None.

Definition ClaimDestination `{GoRuntime} (a : Allocator) (projectUID contextUID region address : gostring)
    (port : Z) : prog (option AllocatorError) :=
  match ParseAddr address with
  | None => mret (Some ERefused)
  | Some parsed =>
      if bool_decide (Zone parsed ≠ []) || negb (IsGlobalUnicast parsed) || bool_decide (projectUID = [])
         || bool_decide (contextUID = []) || bool_decide (region = []) || negb (port =? 53)%Z
      then mret (Some ERefused)
      else
        let parsed := Unmap parsed in
        match pools a with
        | None => mret (Some EInvalid)
        | Some ps =>
            if existsb (λ p, PrefixContains p parsed) ps then mret (Some ERefused)
            else
              let address := AddrString parsed in
              let owner := projectUID ++ "/" ++ contextUID in
              let n := destinationClaimKey a region address port in
              let existing := claimExisting a projectUID contextUID region address port in
              r ← call (Get ConfigMap (claimKey a address));
              match r with
              | Found _ => mret (Some ERefused)
              | NotFound =>
                  g ← call (Get ConfigMap n);
                  match g with
                  | Found e => existing e
                  | NotFound =>
                      c ← call (Create ConfigMap n (destinationLabels projectUID)
                                  (destinationData owner region address port));
                      match c with
                      | Found claim =>
                          r' ← call (Get ConfigMap (claimKey a address));
                          match r' with
                          | Found _ =>
                              d ← deleteClaim n claim;
                              mret (Some (default ERefused d))
                          | NotFound => mret None
                          | _ => mret (Some EKube)
                          end
                      | AlreadyExists =>
                          g' ← call (Get ConfigMap n);
                          match g' with Found e => existing e | _ => mret (Some EKube) end
                      | _ => mret (Some EKube)
                      end
                  | _ => mret (Some EKube)
                  end
              | _ => mret (Some EKube)
              end
        end
  end.

(** ** Release *)

Definition sameAddress (a b : gostring) : bool :=
  match ParseAddr a with
  | None => bool_decide (a = b)
  | Some x =>
      match ParseAddr b with Some y => bool_decide (Unmap x = Unmap y) | None => false end
  end.

Definition dnsValueWithdrawn : gostring := "Withdrawn".

(** A binding of the region that holds the address: it routes it unless it is withdrawn
    and every member has said so. *)
Definition bindingRoutes `{ApiMeta} (address : gostring) (b : Object ResolverBinding) : bool :=
  let spec := bindingSpec b in
  let status := bindingStatus b in
  sameAddress (bs_NodeAddress spec) address
  && (negb (bs_Tombstone spec) && bool_decide (o_DeletionTimestamp b = None)
      || bs_Tombstone spec
         && (negb (bst_ObservedConfigurationRevision status =? bs_Revision spec)%Z
             || bool_decide (bst_Phase status ≠ dnsValueWithdrawn)
             || match FindStatusCondition (bst_Conditions status) "FullyReplicated" with
                | None => true
                | Some c =>
                    bool_decide (c_Status c ≠ ConditionTrue)
                    || negb (c_ObservedGeneration c =? o_Generation b)%Z
                end)).

Abbreviation snapshotCache := (gmap gostring (option ServingSnapshot)).

Definition snapshotRoutes (address : gostring) (s : option ServingSnapshot) : bool :=
  match s with
  | None => false
  | Some s => existsb (λ b, negb (b_Tombstone b) && sameAddress (b_ConsumerAddress b) address)
                (elems (s_Bindings s))
  end.

(** The loop over the shards of the region; the snapshots read are kept. *)
Fixpoint shardsRoute (a : Allocator) (region address : gostring) (snapshots : snapshotCache)
    (shards : list gostring) : prog (result LoadError bool * snapshotCache) :=
  match shards with
  | [] => mret (Ok false, snapshots)
  | shard :: shards' =>
      let key := region ++ "/" ++ shard in
      let found s snapshots :=
        if snapshotRoutes address s then mret (Ok true, snapshots)
        else shardsRoute a region address snapshots shards' in
      match snapshots !! key with
      | Some s => found s snapshots
      | None =>
          r ← LoadCommittedServingSnapshot (a_Namespace a) region shard;
          match r with
          | Err e => mret (Err e, snapshots)
          | Ok x => let s := snd <$> x in found s (<[key := s]> snapshots)
          end
      end
  end.

Section release.
Context `{GoRuntime} `{ApiMeta}.

Definition destinationRouted (a : Allocator) (bindings : list (Object ResolverBinding))
    (snapshots : snapshotCache) (region address : gostring) :
    prog (result LoadError bool * snapshotCache) :=
  let local := filter (λ b, bs_Region (bindingSpec b) = region) bindings in
  if existsb (bindingRoutes address) local then mret (Ok true, snapshots)
  else
    shardsRoute a region address snapshots
      (fst <$> map_range (list_to_map ((λ b, (bs_Shard (bindingSpec b), tt)) <$> local)
                          : gmap gostring unit)).

(** The claims this pass of the project may give up. *)
Definition releasable (a : Allocator) (projectUID : gostring) (held : gset gostring)
    (claim : Object ConfigMap) : bool :=
  let data := dataOf claim in
  let region := entry data "region" in
  negb (bool_decide (region = [])
        || negb (HasPrefix (entry data "owner") (projectUID ++ "/"))
        || bool_decide (DestinationKey region (entry data "address") ∈ held)
        || (0 <? length (a_Regions a))%nat && negb (bool_decide (region ∈ a_Regions a))).

(** The claim is given up unless its destination is routed or that cannot be told. *)
Definition releaseClaim (a : Allocator) (bindings : list (Object ResolverBinding))
    (snapshots : snapshotCache) (n : Name) (claim : Object ConfigMap)
    (next : snapshotCache → prog (option AllocatorError)) : prog (option AllocatorError) :=
  r ← destinationRouted a bindings snapshots (entry (dataOf claim) "region") (entry (dataOf claim) "address");
  match r with
  | (Ok false, snapshots) =>
      d ← deleteClaim n claim;
      match d with Some e => mret (Some e) | None => next snapshots end
  | (_, snapshots) => next snapshots
  end.

(** The loop of [ReleaseDestinations]; the bindings are listed once, when first needed. *)
Fixpoint releaseFrom (a : Allocator) (projectUID : gostring) (held : gset gostring)
    (bindings : option (list (Object ResolverBinding))) (snapshots : snapshotCache)
    (claims : list (Name * Object ConfigMap)) : prog (option AllocatorError) :=
  match claims with
  | [] => mret None
  | (n, claim) :: claims' =>
      if negb (releasable a projectUID held claim)
      then releaseFrom a projectUID held bindings snapshots claims'
      else
        let decideClaim bs :=
          releaseClaim a bs snapshots n claim
            (λ snapshots, releaseFrom a projectUID held (Some bs) snapshots claims') in
        match bindings with
        | Some bs => decideClaim bs
        | None =>
            r ← call (List_ ResolverBinding (a_Namespace a) ∅);
            match r with
            | Found bs => decideClaim (snd <$> bs)
            | _ => mret (Some EKube)
            end
        end
  end.

Definition ReleaseDestinations (a : Allocator) (projectUID : gostring) (held : gset gostring) :
    prog (option AllocatorError) :=
  if bool_decide (a_Namespace a = []) || bool_decide (projectUID = []) then mret (Some EInvalid)
  else
    r ← call (List_ ConfigMap (a_Namespace a) (destinationLabels projectUID));
    match r with
    | Found claims => releaseFrom a projectUID held None ∅ claims
    | _ => mret (Some EKube)
    end.
End release.
