(* ===== verification/AllocatorSafety.v ===== *)
(** What the allocator keeps, over every interleaving of its callers.

    The invariant [allocated] describes the ConfigMaps the allocator owns: a claim names
    its address and its owner, a lease stands on a claim of its owner, and a destination
    lies outside the pools.  Claims and leases are never changed or removed ([kept]),
    because an address of a pool is never a destination. *)

From S2P Require Import Prelude GoStrings GoCrypto GoJson GoJsonDecode GoNetip GoNetipPrefix Api.
From S2P Require Import ApiMeta WireModel Publication WireDecode ApiStore ShardState Allocator.

(** * Pools *)

Lemma ParseRegionalPrefix_spec s p :
  ParseRegionalPrefix s = Some p →
  ∃ gs, px_Addr p = Addr6 gs [] ∧ length gs = 8 ∧ Forall group gs ∧ px_Bits p ≤ 112.
Proof.
  unfold ParseRegionalPrefix. generalize (if decide (s = []) then "fd54::/64" else s). clear s.
  intros s (q & Hq & Hp)%bind_Some.
  destruct (Is4 (px_Addr q)) eqn:H4; [done|]. destruct (Nat.ltb_spec 112 (px_Bits q)); [done|].
  injection Hp as <-. unfold ParsePrefix in Hq. destruct (cutByte "/" (rev s)) as [[bits addr] []]; [|done].
  apply bind_Some in Hq as (ip & Hip & Hq). case_bool_decide as Hz; [done|].
  case_match; [done|]. apply bind_Some in Hq as (n & _ & Hq).
  case_match; [done|]. injection Hq as <-. cbn in H4, H. apply ParseAddr_wf in Hip; [|done].
  destruct ip as [os|gs z]; [done|]. destruct Hip as (Hl & Hg & _).
  destruct (As16_spec gs Hg) as [Ho Hlen]. rewrite Hl in Hlen.
  destruct (setBits_spec (Z.to_nat n) (λ _, false) (As16 gs) Hlen Ho) as (Hl' & Ho' & _).
  unfold Masked. cbn [px_Addr px_Bits AddrFrom16]. eexists. split; [done|].
  destruct (groupsOf_spec _ Hl' Ho'). split_and!; [done|done|exact H].
Qed.

(** A candidate lies in its prefix. *)
Lemma addressInPrefix_spec p owner salt gs :
  px_Addr p = Addr6 gs [] → length gs = 8 → Forall group gs → px_Bits p ≤ 112 →
  ∃ ip, addressInPrefix p owner salt = AddrString ip ∧ wf_Addr ip ∧ PrefixContains p ip = true.
Proof.
  intros Hp Hl Hg Hb. unfold addressInPrefix. rewrite Hp.
  destruct (As16_spec gs Hg) as [Ho Hlen]. rewrite Hl in Hlen.
  set (on := bitAt _). destruct (setBits_spec (px_Bits p) on (As16 gs) Hlen Ho) as (Hl' & Ho' & Hbits).
  set (bs := setBits (px_Bits p) on (As16 gs)) in *.
  exists (AddrFrom16 (setBit bs 127 true)).
  assert (length (setBit bs 127 true) = 16) as Hl2 by by rewrite length_setBit.
  assert (Forall octet (setBit bs 127 true)) as Ho2 by by apply setBit_octet.
  split_and!; [done|by apply AddrFrom16_wf|]. eapply PrefixContains_bits; [done|done|done|].
  intros bit Hbit. rewrite bitAt_setBit_ne by lia. by apply Hbits.
Qed.

Section allocator.
Context `{GoRuntime} `{ApiMeta} (a : Allocator) (ps : list Prefix).
Hypothesis Hpools : pools a = Some ps.

Definition inPools (address : gostring) : Prop :=
  ∃ ip, wf_Addr ip ∧ address = AddrString ip ∧ ∃ p, p ∈ ps ∧ PrefixContains p ip = true.
Definition outsidePools (address : gostring) : Prop :=
  ∃ ip, wf_Addr ip ∧ address = AddrString ip ∧ ∀ p, p ∈ ps → PrefixContains p ip = false.

Lemma pools_disjoint address : inPools address → outsidePools address → False.
Proof.
  intros (ip & Hw & -> & p & Hp & Hc) (ip' & Hw' & Heq & Hall).
  apply AddrString_inj in Heq as ->; [|done|done]. by rewrite (Hall p Hp) in Hc.
Qed.

Lemma prefixFor_pools region p :
  prefixFor a region = Some p → p ∈ ps ∧ ∃ s, ParseRegionalPrefix s = Some p.
Proof.
  unfold prefixFor. intros Hp. unfold pools in Hpools.
  apply bind_Some in Hpools as (shared & Hs & (rest & Hr & [= <-])%bind_Some).
  destruct (a_RegionalPrefixes a !! region) as [prefix|] eqn:Hl.
  - split; [|by eauto]. apply list_elem_of_further. apply mapM_Some in Hr.
    assert ((region, prefix) ∈ map_range (a_RegionalPrefixes a)) as Hin.
    { rewrite map_range_perm. by apply elem_of_map_to_list. }
    apply list_elem_of_lookup in Hin as [i Hi].
    destruct (Forall2_lookup_l _ _ _ _ _ Hr Hi) as (q & Hq & Hpq). cbn in Hpq.
    rewrite Hp in Hpq. injection Hpq as ->. by eapply list_elem_of_lookup_2.
  - rewrite Hs in Hp. injection Hp as ->. split; [apply list_elem_of_here|by eauto].
Qed.

Lemma candidate_inPools region p owner salt :
  prefixFor a region = Some p → inPools (addressInPrefix p owner salt).
Proof.
  intros Hp. destruct (prefixFor_pools region p Hp) as (Hin & s & Hs).
  destruct (ParseRegionalPrefix_spec s p Hs) as (gs & Hgs & Hl & Hg & Hb).
  destruct (addressInPrefix_spec p owner salt gs Hgs Hl Hg Hb) as (ip & -> & Hw & Hc).
  exists ip. eauto.
Qed.

(** * The invariant *)

Definition named (prefix : gostring) (n : Name) : Prop :=
  n.1 = a_Namespace a ∧ HasPrefix n.2 prefix = true.
Definition isOwner : Name → Prop := named "dns-address-owner-".
Definition isClaim : Name → Prop := named "dns-address-claim-".
Definition isDestination : Name → Prop := named "dns-destination-claim-".
Definition allocatorName (n : Name) : Prop := isOwner n ∨ isClaim n ∨ isDestination n.

Definition wf_Lease (l : AddressLease) : bool :=
  text (al_Owner l) && text (al_ProjectUID l) && text (al_ContextUID l) && text (al_ClusterAddress l)
  && marshalable (al_CreatedAt l).
Definition leaseData (l : AddressLease) : gmap gostring gostring :=
  {["lease" := encode (AddressLease_json l)]}.

Abbreviation configMaps s := (st_table s ConfigMap).

(** The address is claimed for the owner. *)
Definition claimed (s : store) (owner address : gostring) : Prop :=
  ∃ c, configMaps s !! claimKey a address = Some c ∧ dataOf c = claimData owner address.

Record object_ok (s : store) (n : Name) (o : Object ConfigMap) : Prop := {
  ok_owner : isOwner n →
    ∃ l, dataOf o = leaseData l ∧ wf_Lease l = true ∧ n = ownerKey a (al_Owner l)
      ∧ claimed s (al_Owner l) (al_ClusterAddress l);
  ok_claim : isClaim n →
    ∃ owner address, dataOf o = claimData owner address ∧ n = claimKey a address ∧ inPools address;
  ok_destination : isDestination n → outsidePools (entry (dataOf o) "address");
  ok_label : n.1 = a_Namespace a → o_Labels o !! leaseLabel = Some ("true" : gostring) → allocatorName n;
}.
Definition allocated (s : store) : Prop :=
  ∀ n o, configMaps s !! n = Some o → object_ok s n o.

(** What every process relies on: claims and leases stay. *)
Definition kept (_ : nat) (s s' : store) : Prop :=
  ∀ n o, isOwner n ∨ isClaim n → configMaps s !! n = Some o → configMaps s' !! n = Some o.

(** What others do to the store: nothing to the allocator's ConfigMaps, and they use
    neither its names nor its label. *)
Definition elsewhere (s s' : store) : Prop :=
  (∀ n, allocatorName n → configMaps s' !! n = configMaps s !! n) ∧
  (∀ n o, configMaps s' !! n = Some o → ¬ allocatorName n → n.1 = a_Namespace a →
    o_Labels o !! leaseLabel ≠ Some ("true" : gostring)).

Lemma named_distinct (p q : gostring) (n : Name) : HasPrefix n.2 p = true → HasPrefix n.2 q = true → length p = length q → p = q.
Proof.
  intros [t Ht]%HasPrefix_spec [t' Ht']%HasPrefix_spec Hl. rewrite Ht in Ht'.
  by apply app_inj_1 in Ht' as [-> _].
Qed.

Lemma owner_not_claim (n : Name) : isOwner n → isClaim n → False.
Proof. intros [_ H1] [_ H2]. by pose proof (named_distinct _ _ _ H1 H2 eq_refl). Qed.
Lemma owner_not_destination (n : Name) : isOwner n → isDestination n → False.
Proof.
  intros [_ [t Ht]%HasPrefix_spec] [_ [t' Ht']%HasPrefix_spec]. rewrite Ht in Ht'. discriminate Ht'.
Qed.
Lemma claim_not_destination (n : Name) : isClaim n → isDestination n → False.
Proof.
  intros [_ [t Ht]%HasPrefix_spec] [_ [t' Ht']%HasPrefix_spec]. rewrite Ht in Ht'. discriminate Ht'.
Qed.

Lemma named_key (p t : gostring) : named p (a_Namespace a, p ++ t).
Proof. split; [done|]. apply HasPrefix_spec. by exists t. Qed.
Lemma isOwner_key (owner : gostring) : isOwner (ownerKey a owner).
Proof. apply named_key. Qed.
Lemma isClaim_key (address : gostring) : isClaim (claimKey a address).
Proof. apply named_key. Qed.
Lemma isDestination_key (region address : gostring) (port : Z) : isDestination (destinationClaimKey a region address port).
Proof. apply named_key. Qed.

Lemma entry_claimData (owner address : gostring) :
  entry (claimData owner address) "owner" = owner ∧ entry (claimData owner address) "address" = address
  ∧ entry (claimData owner address) "region" = [].
Proof. done. Qed.

(** ** How the invariant is kept *)

Lemma kept_refl i s : kept i s s.
Proof. by intros n o. Qed.
Lemma kept_trans i s1 s2 s3 : kept i s1 s2 → kept i s2 s3 → kept i s1 s3.
Proof. intros H1 H2 n o Hn Ho. eauto. Qed.

Lemma claimed_kept i s s' (owner address : gostring) : kept i s s' → claimed s owner address → claimed s' owner address.
Proof. intros Hk (c & Hc & Hd). exists c. split; [|done]. apply Hk; [|done]. right. apply isClaim_key. Qed.

Lemma claimed_write i s n o (owner address : gostring) :
  n ≠ claimKey a address → claimed s owner address → claimed (write i ConfigMap n o s) owner address.
Proof. intros Hn (c & Hc & Hd). exists c. split; [|done]. by rewrite write_lookup_ne. Qed.

Lemma object_ok_kept i s s' (n : Name) (o : Object ConfigMap) : kept i s s' → object_ok s n o → object_ok s' n o.
Proof.
  intros Hk [H1 H2 H3 H4]. split; [|done..]. intros Hn. destruct (H1 Hn) as (l & ? & ? & ? & ?).
  exists l. split_and!; [done..|]. by eapply claimed_kept.
Qed.

Lemma allocated_frame i s s' :
  allocated s → kept i s s' →
  (∀ n o, configMaps s' !! n = Some o → configMaps s !! n = Some o ∨ object_ok s' n o) →
  allocated s'.
Proof.
  intros Ha Hk Hnew n o Ho. destruct (Hnew n o Ho) as [Hold|]; [|done].
  eapply object_ok_kept; [done|by apply Ha].
Qed.

Lemma elsewhere_ok s s' : allocated s → elsewhere s s' → allocated s' ∧ ∀ i, kept i s s'.
Proof.
  intros Ha [Hsame Hother].
  assert (∀ i, kept i s s') as Hk.
  { intros i n o Hn Ho. rewrite Hsame; [done|]. unfold allocatorName. tauto. }
  split; [|done]. apply (allocated_frame 0 s s' Ha (Hk 0)). intros n o Ho.
  destruct (decide (n.1 = a_Namespace a ∧ (HasPrefix n.2 "dns-address-owner-" = true
    ∨ HasPrefix n.2 "dns-address-claim-" = true ∨ HasPrefix n.2 "dns-destination-claim-" = true)))
    as [[Hns Hn]|Hn].
  - left. rewrite <- Hsame; [done|]. unfold allocatorName, isOwner, isClaim, isDestination, named. tauto.
  - right. assert (¬ allocatorName n) as Hno.
    { unfold allocatorName, isOwner, isClaim, isDestination, named. tauto. }
    split; try (intros Hx; exfalso; apply Hno; unfold allocatorName; tauto).
    intros Hns Hl. exfalso. by eapply Hother.
Qed.

(** A new object, and one that was not a claim or a lease. *)
Lemma allocated_write i s (n : Name) (o : Object ConfigMap) :
  allocated s → (isOwner n ∨ isClaim n → configMaps s !! n = None) →
  object_ok (write i ConfigMap n o s) n o →
  allocated (write i ConfigMap n o s) ∧ ∀ j, kept j s (write i ConfigMap n o s).
Proof.
  intros Ha Hnone Hok.
  assert (∀ j, kept j s (write i ConfigMap n o s)) as Hk.
  { intros j n' o' Hn' Ho'. rewrite write_lookup_ne; [done|]. intros <-. by rewrite Hnone in Ho'. }
  split; [|done]. apply (allocated_frame 0 s _ Ha (Hk 0)). intros n' o' Ho'.
  destruct (decide (n = n')) as [<-|Hne].
  - rewrite write_lookup in Ho'. injection Ho' as <-. by right.
  - rewrite write_lookup_ne in Ho' by done. by left.
Qed.

Lemma allocated_remove i s (n : Name) :
  allocated s → isDestination n →
  allocated (remove i ConfigMap n s) ∧ ∀ j, kept j s (remove i ConfigMap n s).
Proof.
  intros Ha Hd.
  assert (∀ j, kept j s (remove i ConfigMap n s)) as Hk.
  { intros j n' o' Hn' Ho'. rewrite remove_lookup_ne; [done|]. intros <-.
    destruct Hn'; [by eapply owner_not_destination|by eapply claim_not_destination]. }
  split; [|done]. apply (allocated_frame 0 s _ Ha (Hk 0)). intros n' o' Ho'.
  destruct (decide (n = n')) as [<-|Hne]; [by rewrite remove_lookup in Ho'|].
  rewrite remove_lookup_ne in Ho' by done. by left.
Qed.

(** * Leases *)

Lemma travels_Lease l : wf_Lease l = true → travels dAddressLease zeroLease AddressLease_json 1 l.
Proof.
  destruct l as [o p c x t]. unfold wf_Lease. cbn [al_Owner al_ProjectUID al_ContextUID
    al_ClusterAddress al_CreatedAt]. intros Hwf. wf_split. split.
  - read_struct wire_value.
  - faithful_struct.
Qed.

Lemma decodeLease_spec stored owner l lease :
  dataOf stored = leaseData l → wf_Lease l = true → decodeLease stored owner = Ok lease →
  lease = l ∧ al_Owner l = owner.
Proof.
  intros Hd Hwf. unfold decodeLease. rewrite Hd. change (entry (leaseData l) "lease") with (encode (AddressLease_json l)).
  rewrite (travels_Unmarshal _ _ _ _ _ (travels_Lease l Hwf) ltac:(lia)).
  destruct (bool_decide _ || _ || _) eqn:Hb; [done|]. intros [= <-].
  rewrite !orb_false_iff, bool_decide_eq_false in Hb. destruct Hb as [[Hb _] _].
  by split; [|apply dec_stable].
Qed.

(** The owner has the lease of the address. *)
Definition leased (s : store) (owner address : gostring) : Prop :=
  ∃ o l, configMaps s !! ownerKey a owner = Some o ∧ dataOf o = leaseData l
    ∧ wf_Lease l = true ∧ al_Owner l = owner ∧ al_ClusterAddress l = address.

Lemma leased_kept i s s' owner address : kept i s s' → leased s owner address → leased s' owner address.
Proof.
  intros Hk (o & l & Ho & ? & ? & ? & ?). exists o, l. split_and!; try done.
  apply Hk; [|done]. left. apply isOwner_key.
Qed.

(** What the allocator makes of a lease it finds. *)
Lemma decodeLease_leased s owner stored lease :
  allocated s → configMaps s !! ownerKey a owner = Some stored → decodeLease stored owner = Ok lease →
  leased s owner (al_ClusterAddress lease).
Proof.
  intros Ha Hs Hd. destruct (ok_owner _ _ _ (Ha _ _ Hs) (isOwner_key owner)) as (l & Hl & Hwf & _).
  destruct (decodeLease_spec _ _ _ _ Hl Hwf Hd) as [-> <-]. exists stored, l. done.
Qed.

(** An address of a pool is never found to be a destination. *)
Lemma not_a_destination s address l :
  allocated s → inPools address →
  l ≡ₚ filter (selected (a_Namespace a) leaseLabels) (map_to_list (configMaps s)) →
  existsb (λ c : Name * Object ConfigMap,
    bool_decide (entry (dataOf c.2) "region" ≠ []) && bool_decide (entry (dataOf c.2) "address" = address)) l = false.
Proof.
  intros Ha Hin Hl. apply not_true_is_false. rewrite existsb_exists. intros ([n o] & Hm & Hc).
  apply list_elem_of_In in Hm. rewrite Hl, list_elem_of_filter, elem_of_map_to_list in Hm.
  destruct Hm as [[Hns Hlab] Ho]. cbn in Hns, Hlab, Hc.
  rewrite andb_true_iff, !bool_decide_eq_true in Hc. destruct Hc as [Hr Hadr].
  pose proof (Ha n o Ho) as Hok.
  assert (allocatorName n) as [Hn|[Hn|Hn]].
  { apply (ok_label _ _ _ Hok Hns). by eapply lookup_weaken; [|exact Hlab]. }
  - destruct (ok_owner _ _ _ Hok Hn) as (lease & Hd & _). rewrite Hd in Hr. by apply Hr.
  - destruct (ok_claim _ _ _ Hok Hn) as (ow & ad & Hd & _). rewrite Hd in Hr. by apply Hr.
  - pose proof (ok_destination _ _ _ Hok Hn) as Hout. rewrite Hadr in Hout. by eapply pools_disjoint.
Qed.

Abbreviation safe := (wp allocated kept (λ _, True)).

Lemma safe_destinationClaimed i address s :
  inPools address →
  safe i (destinationClaimed a address)
    (λ r s', kept i s s' ∧ allocated s' ∧ r ≠ Ok true) s.
Proof.
  intros Hin. unfold destinationClaimed.
  apply (wp_read _ _ _ kept_refl); [apply reads_List|]. intros s1 x Hk Ha [_ Hx].
  destruct Hx as [-> |(l & -> & Hl)]; apply wp_ret; [done|].
  split_and!; [done|done|]. intros [= Hex]. erewrite not_a_destination in Hex; done.
Qed.

Lemma safe_Get {A} i n (f : Reply (Object ConfigMap) → prog A) Q s :
  (∀ s1 x, kept i s s1 → allocated s1 → (∀ o, x = Found o → configMaps s1 !! n = Some o) →
    safe i (f x) Q s1) →
  safe i (call (Get ConfigMap n) ≫= f) Q s.
Proof.
  intros Hf. apply (wp_read _ _ _ kept_refl); [apply reads_Get|]. intros s1 x Hk Ha [_ Hx].
  apply Hf; [done|done|]. intros o ->. destruct Hx as [?|Hx]; [done|].
  destruct (configMaps s1 !! n); [|done]. by injection Hx as ->.
Qed.

Lemma safe_Create {A} i n labels data (f : Reply (Object ConfigMap) → prog A) Q s :
  (∀ s1 o, kept i s s1 → allocated s1 → dataOf o = data → o_Labels o = labels →
    object_ok (write i ConfigMap n o s1) n o) →
  (∀ s2 x, kept i s s2 → allocated s2 →
    (∀ o, x = Found o → configMaps s2 !! n = Some o ∧ dataOf o = data) → safe i (f x) Q s2) →
  safe i (call (Create ConfigMap n labels data) ≫= f) Q s.
Proof.
  intros Hok Hf. apply wp_call. intros s1 x s2 Hk Ha Hs _. cbn [serve] in Hs.
  destruct (configMaps s1 !! n) as [old|] eqn:Hn.
  { destruct Hs as [-> Hx]. split_and!; [done|intros; apply kept_refl|].
    apply Hf; [done|done|]. intros o ->. by destruct Hx. }
  destruct Hs as [[-> ->]|(o & _ & _ & _ & _ & Hl & Hb & _ & -> & Hx)].
  { split_and!; [done|intros; apply kept_refl|]. by apply Hf. }
  destruct (allocated_write i s1 n o Ha (λ _, Hn) (Hok s1 o Hk Ha Hb Hl)) as [Ha2 Hk2].
  split_and!; [done|by intros; apply Hk2|]. apply Hf; [by eapply kept_trans|done|].
  intros o' ->. destruct Hx as [[= ->]|?]; [|done]. by rewrite write_lookup.
Qed.

Lemma destination_ok s n o :
  isDestination n → outsidePools (entry (dataOf o) "address") → object_ok s n o.
Proof.
  intros Hn Ho. split; [intros Hx; exfalso|intros Hx; exfalso|done|].
  - by eapply owner_not_destination.
  - by eapply claim_not_destination.
  - intros _ _. by right; right.
Qed.

Lemma safe_patchClaim i n existing labels data s :
  isDestination n → outsidePools (entry data "address") →
  safe i (patchClaim n existing labels data) (λ _ _, True) s.
Proof.
  intros Hn Hd. apply wp_call. intros s1 x s2 Hk Ha Hs _. cbn [serve] in Hs.
  assert (∀ x : Reply (Object ConfigMap), safe i (match x with Found _ => mret None | _ => mret (Some EKube) end)
    (λ (_ : option AllocatorError) _, True) s2) as Hend by by intros [].
  destruct (configMaps s1 !! n) as [old|] eqn:Ho.
  2:{ destruct Hs as [-> _]. split_and!; [done|intros; apply kept_refl|apply Hend]. }
  destruct Hs as [[-> _]|[(_ & -> & _)|(_ & o & (_ & _ & _ & _ & _ & Hb) & -> & _)]];
    try by (split_and!; [done|intros; apply kept_refl|apply Hend]).
  destruct (allocated_write i s1 n o Ha) as [Ha2 Hk2].
  { intros [?|?]; exfalso; [by eapply owner_not_destination|by eapply claim_not_destination]. }
  { apply destination_ok; [done|]. unfold dataOf. by rewrite Hb. }
  split_and!; [done|intros; apply Hk2|apply Hend].
Qed.

Lemma safe_deleteClaim i n claim s :
  isDestination n → safe i (deleteClaim n claim) (λ _ s', kept i s s' ∧ allocated s') s.
Proof.
  intros Hn. apply wp_call. intros s1 x s2 Hk Ha Hs _. cbn [serve] in Hs.
  assert (allocated s2 ∧ ∀ j, kept j s1 s2) as [Ha2 Hk2].
  { assert (s2 = s1 ∨ s2 = remove i ConfigMap n s1) as [-> | ->].
    { destruct (configMaps s1 !! n); naive_solver. }
    - split; [done|]. intros; apply kept_refl.
    - by apply allocated_remove. }
  split_and!; [done|by intros; apply Hk2|].
  assert (kept i s s2) by by eapply kept_trans. by destruct x.
Qed.

(** * Allocate *)

Definition holds (owner : gostring) (r : result AllocatorError AddressLease) (s : store) : Prop :=
  ∀ l, r = Ok l → leased s owner (al_ClusterAddress l).

Lemma safe_recordLease i candidate claim next s :
  text (al_Owner candidate) = true → text (al_ProjectUID candidate) = true →
  text (al_ContextUID candidate) = true → text (al_ClusterAddress candidate) = true →
  inPools (al_ClusterAddress candidate) →
  claimed s (al_Owner candidate) (al_ClusterAddress candidate) →
  safe i (recordLease a candidate claim next) (holds (al_Owner candidate)) s.
Proof.
  intros Ho Hp Hc Hx Hin Hcl. unfold recordLease. apply wp_bind.
  eapply wp_mono; [by apply safe_destinationClaimed|]. cbn beta. intros r s1 (Hk1 & Ha1 & Hr).
  destruct r as [[]|e]; [done| |by apply wp_ret].
  destruct (negb _) eqn:Hm; [by apply wp_ret|]. apply negb_false_iff in Hm.
  assert (wf_Lease candidate = true) as Hwf by (unfold wf_Lease; by rewrite Ho, Hp, Hc, Hx, Hm).
  apply safe_Create.
  - intros s2 o Hk2 _ Hd Hl. split.
    + intros _. exists candidate. split_and!; [done..|].
      apply claimed_write; [|by do 2 (eapply claimed_kept; [done|])].
      intros Heq. eapply owner_not_claim; [apply isOwner_key|rewrite Heq; apply isClaim_key].
    + intros Hn. exfalso. eapply owner_not_claim; [apply isOwner_key|done].
    + intros Hn. exfalso. eapply owner_not_destination; [apply isOwner_key|done].
    + intros _ _. left. apply isOwner_key.
  - intros s2 x Hk2 Ha2 Hx2. destruct x as [stored| | | |]; try by apply wp_ret.
    + apply wp_ret. intros l [= <-]. destruct (Hx2 stored eq_refl). by exists stored, candidate.
    + apply safe_Get. intros s3 [stored| | | |] Hk3 Ha3 Hg; try by apply wp_ret.
      apply wp_ret. intros l Hl. eapply decodeLease_leased; eauto.
Qed.

Lemma inPools_text address : inPools address → text address = true.
Proof.
  intros (ip & Hw & -> & _). apply bool_decide_eq_true. by apply clean_ascii, AddrString_ascii.
Qed.

Lemma claim_ok s n o owner address :
  n = claimKey a address → inPools address → dataOf o = claimData owner address → object_ok s n o.
Proof.
  intros -> Hin Hd. pose proof (isClaim_key address) as Hc. split.
  - intros Hx. exfalso. by eapply owner_not_claim.
  - intros _. by exists owner, address.
  - intros Hx. exfalso. by eapply claim_not_destination.
  - intros _ _. by right; left.
Qed.

Lemma safe_reserveFrom i region prefix project context owner fuel salt s :
  prefixFor a region = Some prefix →
  text owner = true → text project = true → text context = true →
  safe i (reserveFrom a project context owner prefix fuel salt) (holds owner) s.
Proof.
  intros Hp Ho Hpr Hc. induction fuel as [|fuel IH] in s, salt |- *; [by apply wp_ret|].
  cbn [reserveFrom]. apply (wp_read _ _ _ kept_refl); [apply reads_Clock|]. intros s1 now Hk1 Ha1 _.
  pose proof (candidate_inPools region prefix (owner ++ "/cluster") salt Hp) as Hin.
  set (address := addressInPrefix prefix (owner ++ "/cluster") salt) in *.
  pose proof (inPools_text _ Hin) as Hta.
  assert (∀ claim s, claimed s owner address → safe i
    (recordLease a {| al_Owner := owner; al_ProjectUID := project; al_ContextUID := context;
                      al_ClusterAddress := address; al_CreatedAt := now |} claim
       (reserveFrom a project context owner prefix fuel (S salt))) (holds owner) s) as Hrec.
  { intros claim s' Hcl. by apply safe_recordLease. }
  apply safe_Create; [intros s2 o _ _ Hd _; by eapply claim_ok|].
  intros s2 [claim| | | |] Hk2 Ha2 Hx; try by apply wp_ret.
  - apply Hrec. exists claim. by apply Hx.
  - apply safe_Get. intros s3 [claim| | | |] Hk3 Ha3 Hg; try by apply wp_ret.
    destruct (bool_decide _ || _) eqn:Hb; [apply IH|]. apply Hrec.
    rewrite orb_false_iff, !bool_decide_eq_false in Hb. destruct Hb as [Hb1 Hb2].
    apply dec_stable in Hb1, Hb2. exists claim. split; [by apply Hg|].
    destruct (ok_claim _ _ _ (Ha3 _ _ (Hg claim eq_refl)) (isClaim_key address)) as (ow & ad & Hd & _).
    destruct (entry_claimData ow ad) as (He1 & He2 & _). rewrite <- Hd in He1, He2. congruence.
Qed.

Lemma safe_reserve i region prefix project context owner s :
  prefixFor a region = Some prefix →
  text owner = true → text project = true → text context = true →
  safe i (reserve a project context owner prefix) (holds owner) s.
Proof.
  intros Hp Ho Hpr Hc. unfold reserve. destruct (bool_decide _ || _ || _); [by apply wp_ret|].
  apply safe_Get. intros s1 [stored| | | |] Hk Ha Hg; try by apply wp_ret.
  - apply wp_ret. intros l Hl. eapply decodeLease_leased; eauto.
  - by eapply safe_reserveFrom.
Qed.

(** What [Allocate] answers is leased, and lies in the region's own pool where it has one. *)
Definition granted (project context region : gostring) (r : result AllocatorError gostring) (s : store) : Prop :=
  ∀ address, r = Ok address →
    leased s (leaseOwner a project context region) address
    ∧ (is_Some (a_RegionalPrefixes a !! region) →
       ∃ p ip, prefixFor a region = Some p ∧ ParseAddr address = Some ip ∧ PrefixContains p ip = true).

Lemma safe_Allocate i project context region s :
  text (leaseOwner a project context region) = true → text project = true → text context = true →
  safe i (Allocate a project context region) (granted project context region) s.
Proof.
  intros Ho Hp Hc. unfold Allocate. destruct (prefixFor a region) as [prefix|] eqn:Hpre; [|by apply wp_ret].
  apply wp_bind. eapply wp_mono; [by eapply safe_reserve|]. cbn beta. intros [l|e] s1 Hl; [|by apply wp_ret].
  destruct (_ && _) eqn:Hb; apply wp_ret; [done|]. intros x [= <-]. split; [by apply Hl|].
  intros His. rewrite bool_decide_true in Hb by done. cbn in Hb. apply negb_false_iff in Hb.
  exists prefix. destruct (ParseAddr (al_ClusterAddress l)) as [ip|]; [|done]. by exists ip.
Qed.

(** * Destinations *)

Lemma safe_claimExisting i project context region address port existing s :
  outsidePools (entry (dataOf existing) "address") →
  safe i (claimExisting a project context region address port existing) (λ _ _, True) s.
Proof.
  intros Hout. unfold claimExisting.
  assert (isDestination (destinationClaimKey a region address port)) by apply isDestination_key.
  destruct (bool_decide _ || _ || _ || _).
  - apply (wp_read _ _ _ kept_refl); [apply reads_List|]. intros s1 [bs| | | |] Hk Ha _; try by apply wp_ret.
    destruct (existsb _ bs); [|by apply wp_ret]. apply safe_patchClaim; [done|].
    unfold entry. by rewrite lookup_insert_ne.
  - case_bool_decide; [|by apply wp_ret]. by apply safe_patchClaim.
Qed.

Lemma safe_ClaimDestination i project context region address port s :
  safe i (ClaimDestination a project context region address port) (λ _ _, True) s.
Proof.
  unfold ClaimDestination. destruct (ParseAddr address) as [parsed|] eqn:Hparse; [|by apply wp_ret].
  destruct (bool_decide _ || _ || _ || _ || _ || _) eqn:Hg; [by apply wp_ret|]. rewrite Hpools.
  destruct (existsb _ ps) eqn:Hex; [by apply wp_ret|].
  rewrite !orb_false_iff, bool_decide_eq_false in Hg. destruct Hg as [[[[[Hz _] _] _] _] _].
  apply dec_stable in Hz.
  assert (outsidePools (AddrString (Unmap parsed))) as Hout.
  { exists (Unmap parsed). split_and!; [by eapply Unmap_wf, ParseAddr_wf|done|].
    intros p Hp. apply not_true_is_false. intros Hc.
    rewrite <- not_true_iff_false in Hex. apply Hex, existsb_exists. exists p.
    by rewrite <- list_elem_of_In. }
  set (address' := AddrString (Unmap parsed)) in *. set (n := destinationClaimKey a region address' port).
  assert (isDestination n) as Hn by apply isDestination_key.
  assert (∀ s' o, allocated s' → configMaps s' !! n = Some o →
    safe i (claimExisting a project context region address' port o) (λ _ _, True) s') as Hexist.
  { intros s' o Ha Ho. apply safe_claimExisting. by apply (ok_destination _ _ _ (Ha _ _ Ho)). }
  apply safe_Get. intros s1 [?| | | |] Hk1 Ha1 _; try by apply wp_ret.
  apply safe_Get. intros s2 [e| | | |] Hk2 Ha2 Hx2; try by apply wp_ret.
  { by apply Hexist, Hx2. }
  apply safe_Create. { intros s3 o _ _ Hd _. apply destination_ok; [done|]. by rewrite Hd. }
  intros s3 [claim| | | |] Hk3 Ha3 Hx3; try by apply wp_ret.
  - apply safe_Get. intros s4 [?| | | |] _ _ _; try by apply wp_ret.
    apply wp_bind. eapply wp_mono; [by apply safe_deleteClaim|]. done.
  - apply safe_Get. intros s4 [e| | | |] Hk4 Ha4 Hx4; try by apply wp_ret. eauto.
Qed.

Lemma readonly_LoadCommitted ns region shard : readonly (LoadCommittedServingSnapshot ns region shard).
Proof.
  unfold LoadCommittedServingSnapshot.
  repeat first [ apply readonly_bind; [constructor; [apply reads_Get|constructor]|intros ?]
               | constructor | case_match ].
Qed.

Lemma readonly_shardsRoute region address snapshots shards :
  readonly (shardsRoute a region address snapshots shards).
Proof.
  induction shards as [|shard shards IH] in snapshots |- *; [constructor|]. cbn [shardsRoute].
  case_match.
  - case_match; [constructor|apply IH].
  - apply readonly_bind; [apply readonly_LoadCommitted|]. intros [x|e]; [|constructor].
    case_match; [constructor|apply IH].
Qed.

Lemma readonly_destinationRouted bindings snapshots region address :
  readonly (destinationRouted a bindings snapshots region address).
Proof. unfold destinationRouted. case_match; [constructor|apply readonly_shardsRoute]. Qed.

(** A claim that may be released is a destination. *)
Lemma releasable_destination s n claim project held :
  allocated s → configMaps s !! n = Some claim → n.1 = a_Namespace a →
  destinationLabels project ⊆ o_Labels claim → releasable a project held claim = true →
  isDestination n.
Proof.
  intros Ha Hn Hns Hl Hr. pose proof (Ha _ _ Hn) as Hok.
  unfold releasable in Hr. rewrite negb_true_iff, !orb_false_iff, bool_decide_eq_false in Hr.
  destruct Hr as [[[Hr _] _] _].
  assert (allocatorName n) as [Ho|[Hc|]]; [|exfalso..|done].
  { apply (ok_label _ _ _ Hok Hns). eapply lookup_weaken; [|exact Hl]. apply lookup_insert_eq. }
  - destruct (ok_owner _ _ _ Hok Ho) as (lease & Hd & _). rewrite Hd in Hr. by apply Hr.
  - destruct (ok_claim _ _ _ Hok Hc) as (ow & ad & Hd & _). rewrite Hd in Hr. by apply Hr.
Qed.

Lemma safe_releaseClaim i bindings snapshots n claim next s :
  allocated s → isDestination n →
  (∀ snapshots s', allocated s' → safe i (next snapshots) (λ _ _, True) s') →
  safe i (releaseClaim a bindings snapshots n claim next) (λ _ _, True) s.
Proof.
  intros Ha Hd Hnext. apply wp_bind. eapply wp_mono.
  { apply (wp_readonly _ _ _ kept_refl kept_trans); [done|apply readonly_destinationRouted]. }
  intros [[[]|] snaps] s2 [Ha2 _]; [by apply Hnext| |by apply Hnext].
  apply wp_bind. eapply wp_mono; [by apply safe_deleteClaim|].
  intros [e|] s3 [_ Ha3]; [done|by apply Hnext].
Qed.

Lemma safe_releaseFrom i project held claims bindings snapshots s :
  allocated s →
  Forall (λ c : Name * Object ConfigMap, releasable a project held c.2 = true → isDestination c.1) claims →
  safe i (releaseFrom a project held bindings snapshots claims) (λ _ _, True) s.
Proof.
  intros Ha Hcs. induction Hcs as [|[n claim] claims Hd _ IH] in s, Ha, bindings, snapshots |- *; [done|].
  cbn [releaseFrom]. destruct (releasable a project held claim) eqn:Hr; cbn [negb]; [|by apply IH].
  specialize (Hd Hr). cbn in Hd.
  assert (∀ bs s', allocated s' → safe i
    (releaseClaim a bs snapshots n claim
       (λ snapshots, releaseFrom a project held (Some bs) snapshots claims)) (λ _ _, True) s') as Hdecide.
  { intros bs s' Ha'. apply safe_releaseClaim; [done|done|]. intros. by apply IH. }
  destruct bindings as [bs|]; [by apply Hdecide|].
  apply (wp_read _ _ _ kept_refl); [apply reads_List|]. intros s1 [bs| | | |] Hk1 Ha1 _; try done.
  by apply Hdecide.
Qed.

Lemma safe_ReleaseDestinations i project held s :
  safe i (ReleaseDestinations a project held) (λ _ _, True) s.
Proof.
  unfold ReleaseDestinations. destruct (bool_decide _ || _); [done|].
  apply (wp_read _ _ _ kept_refl); [apply reads_List|]. intros s1 x Hk Ha [_ Hx].
  destruct Hx as [-> |(l & -> & Hl)]; [done|]. apply safe_releaseFrom; [done|].
  apply Forall_forall. intros [n o] Hm Hr. rewrite Hl, list_elem_of_filter, elem_of_map_to_list in Hm.
  destruct Hm as [[Hns Hlab] Ho]. by eapply releasable_destination.
Qed.

(** * Interleavings *)

Lemma leaseData_inj l l' : wf_Lease l = true → wf_Lease l' = true → leaseData l = leaseData l' → l = l'.
Proof.
  intros Hwf Hwf' Heq. assert (Some l = Some l') as [= ?]; [|done].
  rewrite <- (travels_Unmarshal _ _ _ _ _ (travels_Lease l Hwf) ltac:(lia)).
  rewrite <- (travels_Unmarshal _ _ _ _ _ (travels_Lease l' Hwf') ltac:(lia)).
  change (encode (AddressLease_json l)) with (entry (leaseData l) "lease").
  change (encode (AddressLease_json l')) with (entry (leaseData l') "lease"). by rewrite Heq.
Qed.

Lemma leased_claimed s owner address : allocated s → leased s owner address → claimed s owner address.
Proof.
  intros Ha (o & l & Ho & Hd & Hwf & <- & <-).
  destruct (ok_owner _ _ _ (Ha _ _ Ho) (isOwner_key _)) as (l' & Hd' & Hwf' & _ & Hc).
  assert (l' = l) as ->; [|done]. apply leaseData_inj; congruence.
Qed.

Lemma leased_unique s owner x y : leased s owner x → leased s owner y → x = y.
Proof.
  intros (o & l & Ho & Hd & Hwf & _ & <-) (o' & l' & Ho' & Hd' & Hwf' & _ & <-).
  rewrite Ho in Ho'. injection Ho' as <-.
  f_equal. apply leaseData_inj; congruence.
Qed.

Lemma claimed_unique s owner owner' address :
  claimed s owner address → claimed s owner' address → owner = owner'.
Proof.
  intros (c & Hc & Hd) (c' & Hc' & Hd'). rewrite Hc in Hc'. injection Hc' as <-. rewrite Hd in Hd'.
  destruct (entry_claimData owner address) as (<- & _), (entry_claimData owner' address) as (<- & _).
  by rewrite Hd'.
Qed.

Lemma claimed_inPools s owner address : allocated s → claimed s owner address → inPools address.
Proof.
  intros Ha (c & Hc & Hd). destruct (ok_claim _ _ _ (Ha _ _ Hc) (isClaim_key _)) as (ow & ad & Hd' & _ & Hin).
  destruct (entry_claimData owner address) as (_ & He & _), (entry_claimData ow ad) as (_ & He' & _).
  rewrite <- Hd in He. rewrite <- Hd' in He'. congruence.
Qed.

(** What a caller asks of the allocator. *)
Inductive Request :=
| RAllocate (project context region : gostring)
| RClaim (project context region address : gostring) (port : Z)
| RRelease (project : gostring) (held : gset gostring).

Definition run (q : Request) : prog (option gostring) :=
  match q with
  | RAllocate project context region =>
      r ← Allocate a project context region;
      mret (match r with Ok address => Some address | Err _ => None end)
  | RClaim project context region address port =>
      _ ← ClaimDestination a project context region address port; mret None
  | RRelease project held => _ ← ReleaseDestinations a project held; mret None
  end.

Definition request_text (q : Request) : Prop :=
  match q with
  | RAllocate project context region =>
      text (leaseOwner a project context region) = true ∧ text project = true ∧ text context = true
  | _ => True
  end.

Definition answered (q : Request) (r : option gostring) (s : store) : Prop :=
  match q with
  | RAllocate project context region =>
      granted project context region (match r with Some x => Ok x | None => Err EKube end) s
  | _ => True
  end.

Lemma safe_run i q s : request_text q → safe i (run q) (answered q) s.
Proof.
  destruct q as [p c r|p c r x port|p held]; intros Ht; cbn [run]; apply wp_bind.
  - eapply wp_mono; [by apply safe_Allocate; apply Ht|]. intros [x|e] s' Hg; by apply wp_ret.
  - eapply wp_mono; [apply safe_ClaimDestination|]. done.
  - eapply wp_mono; [apply safe_ReleaseDestinations|]. done.
Qed.

Lemma answered_kept q i r s s' : answered q r s → kept i s s' → answered q r s'.
Proof.
  destruct q; [|done..]. intros Ha Hk x Hx. destruct (Ha x Hx) as [Hl Hp].
  split; [by eapply leased_kept|done].
Qed.
End allocator.

(** C17. Whatever the callers of the allocator do, in whatever order their calls reach the
    API server, and wherever one of them stops: two allocations are answered the same
    address exactly when they are for the same owner (context and, where the region has a
    pool of its own, region); the address is one of a pool, of the region's own where it has
    one; it is claimed and leased for that owner in the store; and no customer destination
    is that address. *)
Theorem allocations `{GoRuntime} `{ApiMeta} (a : Allocator) (ps : list Prefix) (qs : nat → Request) s s' progs :
  pools a = Some ps → allocated a ps s → (∀ i, request_text a (qs i)) →
  rtc (step (elsewhere a)) (s, λ i, run a (qs i)) (s', progs) →
  ∀ i p c r x, qs i = RAllocate p c r → progs i = Ret (Some x) →
  (inPools ps x ∧ claimed a s' (leaseOwner a p c r) x ∧ leased a s' (leaseOwner a p c r) x)
  ∧ (is_Some (a_RegionalPrefixes a !! r) →
     ∃ q ip, prefixFor a r = Some q ∧ ParseAddr x = Some ip ∧ PrefixContains q ip = true)
  ∧ (∀ n o, st_table s' ConfigMap !! n = Some o → isDestination a n → entry (dataOf o) "address" ≠ x)
  ∧ (∀ j p' c' r' y, qs j = RAllocate p' c' r' → progs j = Ret (Some y) →
     leaseOwner a p c r = leaseOwner a p' c' r' ↔ x = y).
Proof.
  intros Hpools Ha Ht Hrun.
  destruct (adequacy (allocated a ps) (kept a) (λ _, True) (kept_refl a) (kept_trans a) (elsewhere a)
    (λ s s' Ha Ho _, elsewhere_ok a ps s s' Ha Ho) (λ _ _ _ _ _ _ _ _, I) (λ _ _ _ _, I)
    (λ i, answered a (qs i)) s (λ i, run a (qs i)) s' progs) as [Ha' HQ].
  { intros i r s1 s2. apply answered_kept. }
  { done. }
  { intros i. by apply safe_run. }
  { done. }
  { done. }
  assert (∀ i p c r x, qs i = RAllocate p c r → progs i = Ret (Some x) →
    granted a p c r (Ok x) s') as Hall.
  { intros i p c r x Hq Hret. specialize (HQ i _ Hret). by rewrite Hq in HQ. }
  intros i p c r x Hq Hret. destruct (Hall i p c r x Hq Hret x eq_refl) as [Hl Hreg].
  pose proof (leased_claimed _ _ _ _ _ Ha' Hl) as Hc. pose proof (claimed_inPools _ _ _ _ _ Ha' Hc) as Hin.
  split_and!; [done..| |].
  - intros n o Ho Hd <-. eapply pools_disjoint; [done|]. by apply (ok_destination _ _ _ _ _ (Ha' _ _ Ho)).
  - intros j p' c' r' y Hq' Hret'. destruct (Hall j p' c' r' y Hq' Hret' y eq_refl) as [Hl' _].
    split; [intros He; rewrite He in Hl; by eapply leased_unique|intros <-].
    eapply claimed_unique; [done|]. by eapply leased_claimed.
Qed.

(** ** An example *)

#[local] Existing Instance reference_runtime.
#[local] Existing Instance reference_apimeta.

(** Region [east] has a pool of its own. *)
Definition exampleAllocator : Allocator :=
  {| a_Namespace := "dns"; a_ClusterPrefix := "fd54::/64";
     a_RegionalPrefixes := {["east" := ("fd55::/64" : gostring)]}; a_Regions := ["east"; "west"] |}.
Definition examplePools : list Prefix := default [] (pools exampleAllocator).

(** Two contexts in the west, the first of them also in the east, and a destination. *)
Definition exampleRequests (i : nat) : Request :=
  match i with
  | 0 => RAllocate "p" "c" "west"
  | 1 => RAllocate "p" "d" "west"
  | 2 => RAllocate "p" "c" "east"
  | _ => RClaim "p" "c" "west" "203.0.113.9" 53
  end.

Definition exampleRun (i : nat) (s : store) : option gostring * store :=
  exec i 0 (run exampleAllocator (exampleRequests i)) s.

Lemma example_steps i progs s :
  progs i = run exampleAllocator (exampleRequests i) →
  ∃ progs', rtc (step (elsewhere exampleAllocator)) (s, progs) ((exampleRun i s).2, progs')
    ∧ progs' i = Ret (exampleRun i s).1 ∧ ∀ j, j ≠ i → progs' j = progs j.
Proof. intros Hi. unfold exampleRun. rewrite <- Hi. by apply exec_steps. Qed.

(** The three allocations run one after the other, then the claim. *)
Definition exampleStore1 : store := (exampleRun 0 emptyStore).2.
Definition exampleStore2 : store := (exampleRun 1 exampleStore1).2.
Definition exampleStore3 : store := (exampleRun 2 exampleStore2).2.
Definition exampleStore4 : store := (exampleRun 3 exampleStore3).2.

Lemma example_run : ∃ progs,
  rtc (step (elsewhere exampleAllocator)) (emptyStore, λ i, run exampleAllocator (exampleRequests i))
    (exampleStore4, progs)
  ∧ progs 0 = Ret (Some "fd54::b98:22da:b89d:f317") ∧ progs 1 = Ret (Some "fd54::f5d5:e8ca:5b55:fb63")
  ∧ progs 2 = Ret (Some "fd55::9819:f305:6893:6273").
Proof.
  destruct (example_steps 0 (λ i, run exampleAllocator (exampleRequests i)) emptyStore eq_refl)
    as (p1 & R1 & E1 & O1).
  destruct (example_steps 1 p1 exampleStore1) as (p2 & R2 & E2 & O2); [by rewrite O1|].
  destruct (example_steps 2 p2 exampleStore2) as (p3 & R3 & E3 & O3); [by rewrite O2, O1|].
  destruct (example_steps 3 p3 exampleStore3) as (p4 & R4 & E4 & O4); [by rewrite O3, O2, O1|].
  exists p4. split_and!.
  - etrans; [exact R1|]. etrans; [exact R2|]. etrans; [exact R3|]. exact R4.
  - rewrite O4, O3, O2, E1 by done. apply (f_equal Ret). by vm_compute.
  - rewrite O4, O3, E2 by done. apply (f_equal Ret). by vm_compute.
  - rewrite O4, E3 by done. apply (f_equal Ret). by vm_compute.
Qed.

Lemma allocations_witness :
  leased exampleAllocator exampleStore4 "p/c" "fd54::b98:22da:b89d:f317"
  ∧ leased exampleAllocator exampleStore4 "p/c/east" "fd55::9819:f305:6893:6273"
  ∧ ("p/c" : gostring) ≠ "p/d".
Proof.
  assert (∀ i, request_text exampleAllocator (exampleRequests i)) as Ht.
  { intros [|[|[|i]]]; vm_compute; done. }
  assert (allocated exampleAllocator examplePools emptyStore) as Ha by done.
  assert (pools exampleAllocator = Some examplePools) as Hp by (vm_compute; reflexivity).
  destruct example_run as (progs & Hrun & H0 & H1 & H2).
  destruct (allocations _ _ _ _ _ _ Hp Ha Ht Hrun 0 "p" "c" "west" _ eq_refl H0)
    as ((_ & _ & HL0) & _ & _ & Hsame).
  destruct (allocations _ _ _ _ _ _ Hp Ha Ht Hrun 2 "p" "c" "east" _ eq_refl H2)
    as ((_ & _ & HL2) & _).
  split; [exact HL0|]. split; [exact HL2|].
  intros Heq. discriminate (proj1 (Hsame 1 "p" "d" "west" _ eq_refl H1) Heq).
Defined.
