(* ===== verification/ApiHistory.v ===== *)
(** The history of the store: what has been written, in what order and by whom.

    Facts about the past stay true, so the protocols below are described by them: an
    object was written ([wrote]), an event was published ([happened]), a number was taken
    by a process ([took]).  Resource versions identify a write. *)

From S2P Require Import Prelude GoStrings GoJson Api ApiMeta WireModel ApiStore.

(** * Writes *)

(** The object of kind [k] an event writes. *)
Definition written (k : Kind) (ev : event) : option (Name * Object k) :=
  match ev with
  | Wrote k' n (Some o) =>
      match decide (k' = k) with
      | left e => Some (n, eq_rect k' Object o k e)
      | right _ => None
      end
  | _ => None
  end.

Lemma written_same (k : Kind) (n : Name) (o : Object k) : written k (Wrote k n (Some o)) = Some (n, o).
Proof.
  cbn. destruct (decide (k = k)) as [e|]; [|done]. by rewrite (Eqdep_dec.UIP_dec Kind_eq_dec e eq_refl).
Qed.
Lemma written_other (k k' : Kind) (n : Name) (o : option (Object k)) : k ≠ k' → written k' (Wrote k n o) = None.
Proof. intros Hk. cbn. destruct o; [|done]. by destruct (decide (k = k')). Qed.

Definition wroteIn (l : list (nat * event)) (k : Kind) (n : Name) (o : Object k) : Prop :=
  ∃ i ev, (i, ev) ∈ l ∧ written k ev = Some (n, o).
Definition wrote (s : store) (k : Kind) (n : Name) (o : Object k) : Prop := wroteIn (st_log s) k n o.
Definition happened (l : list (nat * event)) (subject : gostring) (env : Envelope) : Prop :=
  ∃ i, (i, Published subject env) ∈ l.

(** [s'] comes after [s]. *)
Definition later (s s' : store) : Prop := st_log s `prefix_of` st_log s'.
#[global] Instance later_preorder : PreOrder later.
Proof.
  split; [intros s; exists []; by rewrite app_nil_r|].
  intros s1 s2 s3 [l Hl] [l' Hl']. exists (l ++ l'). by rewrite Hl', Hl, (assoc_L (++)).
Qed.

Lemma later_write i (k : Kind) (n : Name) (o : Object k) s : later s (write i k n o s).
Proof. eexists. reflexivity. Qed.
Lemma later_remove i (k : Kind) (n : Name) s : later s (remove i k n s).
Proof. eexists. reflexivity. Qed.
Lemma later_note i ev s : later s (note i ev s).
Proof. eexists. reflexivity. Qed.
Create HintDb store.
#[export] Hint Resolve later_write later_remove later_note : store.

Lemma elem_of_later s s' x : later s s' → x ∈ st_log s → x ∈ st_log s'.
Proof. intros [l Hl] Hx. rewrite Hl. apply elem_of_app. by left. Qed.

Lemma wrote_later s s' (k : Kind) (n : Name) (o : Object k) : later s s' → wrote s k n o → wrote s' k n o.
Proof. intros Hl (i & ev & Hin & Hw). exists i, ev. split; [by eapply elem_of_later|done]. Qed.
Lemma happened_later s s' subject env :
  later s s' → happened (st_log s) subject env → happened (st_log s') subject env.
Proof. intros Hl [i Hin]. exists i. by eapply elem_of_later. Qed.

Lemma wrote_write i (k : Kind) (n : Name) (o : Object k) s (n' : Name) (o' : Object k) :
  wrote (write i k n o s) k n' o' ↔ wrote s k n' o' ∨ (n' = n ∧ o' = o).
Proof.
  unfold wrote, wroteIn. cbn [st_log write]. split.
  - intros (j & ev & Hin & Hw). apply elem_of_app in Hin as [Hin|Hin]; [left; eauto|].
    apply list_elem_of_singleton in Hin as [= -> ->]. rewrite written_same in Hw.
    injection Hw as <- <-. by right.
  - intros [(j & ev & Hin & Hw)|[-> ->]].
    + exists j, ev. split; [|done]. apply elem_of_app. by left.
    + exists i, (Wrote k n (Some o)). split; [|apply written_same]. apply elem_of_app. right.
      by apply list_elem_of_singleton.
Qed.

(** An event that writes no object of kind [k]. *)
Lemma wrote_silent s s' (k : Kind) (n : Name) (o : Object k) i ev :
  st_log s' = st_log s ++ [(i, ev)] → written k ev = None → wrote s' k n o ↔ wrote s k n o.
Proof.
  intros Hl Hev. unfold wrote, wroteIn. rewrite Hl. split.
  - intros (j & ev' & Hin & Hw). apply elem_of_app in Hin as [Hin|Hin]; [eauto|].
    apply list_elem_of_singleton in Hin as [= -> ->]. congruence.
  - intros (j & ev' & Hin & Hw). exists j, ev'. split; [|done]. apply elem_of_app. by left.
Qed.
Lemma wrote_write_other i (k : Kind) (n : Name) (o : Object k) s (k' : Kind) (n' : Name) (o' : Object k') :
  k ≠ k' → wrote (write i k n o s) k' n' o' ↔ wrote s k' n' o'.
Proof. intros Hk. eapply wrote_silent; [done|by apply written_other]. Qed.
Lemma wrote_remove i (k : Kind) (n : Name) s (k' : Kind) (n' : Name) (o' : Object k') :
  wrote (remove i k n s) k' n' o' ↔ wrote s k' n' o'.
Proof. eapply wrote_silent; [done|done]. Qed.
Lemma wrote_note i subject env s (k' : Kind) (n' : Name) (o' : Object k') :
  wrote (note i (Published subject env) s) k' n' o' ↔ wrote s k' n' o'.
Proof. eapply wrote_silent; [done|done]. Qed.
Lemma wrote_keep i key env s (k' : Kind) (n' : Name) (o' : Object k') :
  wrote (note i (Kept key env) s) k' n' o' ↔ wrote s k' n' o'.
Proof. eapply wrote_silent; [done|done]. Qed.

(** ** Versions *)

(** Versions grow, so a version names one write of its kind. *)
Record versioned (s : store) : Prop := {
  ver_last : ∀ k n (o : Object k), wrote s k n o → (o_ResourceVersion o ≤ st_version s)%Z;
  ver_unique : ∀ k n n' (o o' : Object k),
    wrote s k n o → wrote s k n' o' → o_ResourceVersion o = o_ResourceVersion o' → n = n' ∧ o = o';
}.

Lemma versioned_write i (k : Kind) (n : Name) (o : Object k) s :
  versioned s → (st_version s < o_ResourceVersion o)%Z → versioned (write i k n o s).
Proof.
  intros [Hlast Huniq] Hv. split.
  - intros k' n' o' Hw. cbn. destruct (decide (k = k')) as [<-|Hne].
    + apply wrote_write in Hw as [Hw|[-> ->]]; [|done]. apply Hlast in Hw. lia.
    + apply wrote_write_other in Hw; [|done]. apply Hlast in Hw. lia.
  - intros k' n1 n2 o1 o2 H1 H2 Heq. destruct (decide (k = k')) as [<-|Hne].
    + apply wrote_write in H1 as [H1|[-> ->]], H2 as [H2|[-> ->]]; [eauto| | |done].
      * apply Hlast in H1. lia.
      * apply Hlast in H2. lia.
    + apply wrote_write_other in H1, H2; [|done..]. eauto.
Qed.

Lemma versioned_silent s s' i ev :
  st_log s' = st_log s ++ [(i, ev)] → st_version s' = st_version s → (∀ k, written k ev = None) →
  versioned s → versioned s'.
Proof.
  intros Hl Hv Hev [Hlast Huniq]. split.
  - intros k n o Hw. rewrite (wrote_silent s s' k n o i ev) in Hw by done. rewrite Hv. eauto.
  - intros k n n' o o' H1 H2. rewrite (wrote_silent s s' k n o i ev) in H1 by done.
    rewrite (wrote_silent s s' k n' o' i ev) in H2 by done. eauto.
Qed.

(** * Taking numbers *)

(** Each object of kind [k] carries the next number that is free.  A process takes a number
    by the first write that puts the next number past it. *)
Section taking.
Context (k : Kind) (next : Object k → Z).

Definition took (s : store) (i : nat) (n : Name) (r : Z) : Prop :=
  ∃ before after ev o, st_log s = before ++ (i, ev) :: after ∧ written k ev = Some (n, o)
    ∧ (r < next o)%Z
    ∧ ∀ j ev' o', (j, ev') ∈ before → written k ev' = Some (n, o') → (next o' ≤ r)%Z.

Lemma took_later s s' i n r : later s s' → took s i n r → took s' i n r.
Proof.
  intros [l Hl] (before & after & ev & o & Hs & ?). exists before, (after ++ l), ev, o.
  split; [|done]. rewrite Hl, Hs, <- (assoc_L (++)). done.
Qed.

Lemma took_write s i n o r :
  (r < next o)%Z → (∀ o', wrote s k n o' → (next o' ≤ r)%Z) → took (write i k n o s) i n r.
Proof.
  intros Hr Hall. exists (st_log s), [], (Wrote k n (Some o)), o.
  split_and!; [done|apply written_same|done|]. intros j ev' o' Hin Hw. apply Hall. by exists j, ev'.
Qed.

Lemma took_unique s i j n r : took s i n r → took s j n r → i = j.
Proof.
  intros (b1 & a1 & e1 & o1 & H1 & Hw1 & Hr1 & Hb1) (b2 & a2 & e2 & o2 & H2 & Hw2 & Hr2 & Hb2).
  rewrite H1 in H2. destruct (app_eq_inv b1 ((i, e1) :: a1) b2 ((j, e2) :: a2) H2) as [(c & Hc & Hd)|(c & Hc & Hd)].
  - destruct c as [|x c]; [by injection Hd|]. exfalso. injection Hd as <- _.
    assert (next o2 ≤ r)%Z; [|lia]. eapply (Hb1 j e2); [|done]. rewrite Hc. apply elem_of_app. right. left.
  - destruct c as [|x c]; [by injection Hd|]. exfalso. injection Hd as <- _.
    assert (next o1 ≤ r)%Z; [|lia]. eapply (Hb2 i e1); [|done]. rewrite Hc. apply elem_of_app. right. left.
Qed.
End taking.
