(* ===== verification/Planner.v ===== *)
(** The shard planner: [internal/internaldns/platform/planner.go] and [reportCapacity] of
    [capacity.go].

    One planner at a time holds the shard's record.  [Step] collects the bindings of the
    shard with the publications their zones need, fits them into the budget, reserves a
    revision in the record, writes the snapshot into an outbox entry of that revision and
    then commits it by naming the entry in the record.  Every write of the record carries
    the resource version it was read at. *)

From S2P Require Import Prelude GoStrings GoCrypto GoJson GoJsonDecode Api ApiMeta WireModel.
From S2P Require Import Publication Capacity WireDecode ApiStore ShardState.

(** * Configuration and cache *)

Record PlannerConfig := {
  cfg_Namespace : gostring;
  cfg_Region : gostring;
  cfg_Shard : gostring;
  cfg_Identity : gostring;
  cfg_LeaseDuration : Z;
  cfg_NodeBackends : slice Backend;
  cfg_ClusterBackends : slice Backend;
  cfg_Members : list Member;
  cfg_MemberPatterns : list MemberPattern;
  cfg_MaxBindings : Z;
  cfg_MaxSnapshotBytes : Z;
}.

(** What a planner remembers between steps: the active entry read last and its payload. *)
Record PriorCache := { pr_Outbox : gostring; pr_Payload : RawMessage }.
Definition noPrior : PriorCache := {| pr_Outbox := []; pr_Payload := NotJson [] |}.

Inductive PlannerError :=
| PConfig
| PKube
| PCorrupt
| PFit (e : CapacityError)
| PNoActivation (zone : gostring)
| PInvalid (e : WireError)
| PLostLease
| PBudget
| PCollision.

(** [time.Time.Sub]: saturates. *)
Definition timeSub (a b : Z) : Z := Z.max (- 2 ^ 63) (Z.min (2 ^ 63 - 1) (a - b)).
(** [metav1.Time] is stored in seconds. *)
Definition metaTime (t : Z) : Z := (Unix t * 1000000000)%Z.
(** [uint64(x)] of an [int64]. *)
Definition toUint64 (z : Z) : Z := (z mod 2 ^ 64)%Z.
(** [append] to a [nil] slice. *)
Definition appended {A} (l : list A) : slice A := match l with [] => None | _ => Some l end.

Definition leaseOf (c : PlannerConfig) : Z :=
  if (cfg_LeaseDuration c <=? 0)%Z then 30000000000 else cfg_LeaseDuration c.
Definition maxBindingsOf (c : PlannerConfig) : Z :=
  if (cfg_MaxBindings c <=? 0)%Z then 256 else cfg_MaxBindings c.
Definition maxBytesOf (c : PlannerConfig) : Z :=
  if (cfg_MaxSnapshotBytes c <=? 0)%Z then 524288 else cfg_MaxSnapshotBytes c.

Definition plannerKey (c : PlannerConfig) : Name :=
  shardOwnerName (cfg_Namespace c) (cfg_Region c) (cfg_Shard c).

Definition regionLabel : gostring := "internal-dns.miloapis.com/region".
Definition shardLabel : gostring := "internal-dns.miloapis.com/shard".
Definition shardOwnerLabel : gostring := "internal-dns.miloapis.com/shard-owner".

Definition withState (owner : Object ConfigMap) (s : shardState) : gmap gostring gostring :=
  <["state" := marshalShardState s]> (dataOf owner).

Definition manifestSpec (m : Object Manifest) : DNSPublicationManifestSpec :=
  (o_Body m : Body Manifest).1.
Definition manifestStatus (m : Object Manifest) : DNSPublicationManifestStatus :=
  (o_Body m : Body Manifest).2.
Definition ownershipSpec (o : Object Ownership) : DNSPublicationOwnershipSpec := o_Body o.
Definition outboxSpec (o : Object TransportOutbox) : DNSTransportOutboxSpec :=
  (o_Body o : Body TransportOutbox).1.
Definition outboxStatus (o : Object TransportOutbox) : DNSTransportOutboxStatus :=
  (o_Body o : Body TransportOutbox).2.
Definition planBinding (b : Object ResolverBinding) : DNSResolverBindingSpec :=
  (o_Body b : Body ResolverBinding).1.
Definition planStatus (b : Object ResolverBinding) : DNSResolverBindingStatus :=
  (o_Body b : Body ResolverBinding).2.

(** The name of the ownership record of a zone. *)
Definition ownershipName (zone : gostring) : gostring := "owner-" ++ take 20 (OpaqueToken zone).

(** * Release *)

Definition Release (c : PlannerConfig) (now : Z) : prog (result PlannerError bool) :=
  r ← call (Get ConfigMap (plannerKey c));
  match r with
  | Found owner =>
      match readShardState owner with
      | None => mret (Err PCorrupt)
      | Some state =>
          if bool_decide (sh_Holder state ≠ cfg_Identity c) || negb (now <? sh_LeaseUntil state)%Z
          then mret (Ok false)
          else
            let state := {| sh_Holder := sh_Holder state; sh_Epoch := sh_Epoch state;
                            sh_NextRevision := sh_NextRevision state; sh_LeaseUntil := now;
                            sh_ActiveOutbox := sh_ActiveOutbox state;
                            sh_ContentHash := sh_ContentHash state |} in
            if negb (marshalable now) then mret (Err PCorrupt)
            else
              u ← call (Update ConfigMap (plannerKey c) (o_ResourceVersion owner) (o_Labels owner)
                          (withState owner state));
              match u with
              | Found _ => mret (Ok true)
              | Conflict | NotFound => mret (Ok false)
              | _ => mret (Err PKube)
              end
      end
  | NotFound => mret (Ok false)
  | _ => mret (Err PKube)
  end.

(** * Collecting the bindings *)

(** The ownership records of the zones the bindings attach. *)
Fixpoint ownersOfZones (ns : gostring) (uids : list gostring)
    (byZone : gmap gostring DNSPublicationOwnershipSpec) :
    prog (result PlannerError (gmap gostring DNSPublicationOwnershipSpec)) :=
  match uids with
  | [] => mret (Ok byZone)
  | uid :: uids' =>
      match byZone !! uid with
      | Some _ => ownersOfZones ns uids' byZone
      | None =>
          r ← call (Get Ownership (ns, ownershipName uid));
          match r with
          | NotFound => ownersOfZones ns uids' byZone
          | Found owner => ownersOfZones ns uids' (<[uid := ownershipSpec owner]> byZone)
          | _ => mret (Err PKube)
          end
      end
  end.

(** [loadPrior]. *)
Definition loadPrior (c : PlannerConfig) (cache : PriorCache) (name : gostring) :
    prog (result PlannerError ServingSnapshot * PriorCache) :=
  let decoded cache :=
    match pr_Payload cache with
    | NotJson _ => Err PCorrupt
    | Encoded j => match dSnapshot zeroSnapshot j with Some s => Ok s | None => Err PCorrupt end
    end in
  if decide (name = pr_Outbox cache) then mret (decoded cache, cache)
  else
    r ← call (Get TransportOutbox (cfg_Namespace c, name));
    match r with
    | Found out =>
        match Unmarshal dEnvelope zeroEnvelope (ob_Payload (outboxSpec out)) with
        | None => mret (Err PCorrupt, cache)
        | Some e =>
            let cache := {| pr_Outbox := name; pr_Payload := e_Payload e |} in
            mret (decoded cache, cache)
        end
    | _ => mret (Err PKube, cache)
    end.

(** [manifestReader.get]: each manifest is read once; [None] in the cache when it was not
    found. *)
Abbreviation manifestCache := (gmap gostring (option DNSPublicationManifestSpec)).
Definition readManifest (ns : gostring) (read : manifestCache) (name : gostring) :
    prog (result PlannerError (option DNSPublicationManifestSpec) * manifestCache) :=
  match read !! name with
  | Some m => mret (Ok m, read)
  | None =>
      r ← call (Get Manifest (ns, name));
      match r with
      | NotFound => mret (Ok None, <[name := None]> read)
      | Found m => mret (Ok (Some (manifestSpec m)), <[name := Some (manifestSpec m)]> read)
      | _ => mret (Err PKube, read)
      end
  end.

Section planner.
Context `{GoRuntime} `{ApiMeta} `{MiekgDNS}.

(** What the loop over a binding's zones carries: whether the view is complete, its zones,
    the activations so far and the manifests read. *)
Record Collecting := {
  co_complete : bool;
  co_zones : list ZoneAttachment;
  co_activations : gmap gostring gostring;
  co_read : manifestCache;
}.

(** The closure [pending]. *)
Definition pending (uid apex : gostring) (st : Collecting) : Collecting :=
  if decide (apex = []) then
    {| co_complete := false; co_zones := co_zones st; co_activations := co_activations st;
       co_read := co_read st |}
  else
    {| co_complete := co_complete st;
       co_zones := co_zones st ++
         [{| za_Pending := true; za_ZoneUID := uid; za_Apex := apex;
             za_RequiredPublicationEpoch := 1; za_RequiredPublicationRevision := 1 |}];
       co_activations := co_activations st; co_read := co_read st |}.

(** The attachment of a zone: the minimum of an unchanged view stays what it was. *)
Definition keepRequirement (a : ZoneAttachment) (z : ZoneAttachment) : ZoneAttachment :=
  if negb (za_Pending z) && bool_decide (za_ZoneUID z = za_ZoneUID a)
     && bool_decide (za_Apex z = za_Apex a)
  then {| za_Pending := za_Pending a; za_ZoneUID := za_ZoneUID a; za_Apex := za_Apex a;
          za_RequiredPublicationEpoch := za_RequiredPublicationEpoch z;
          za_RequiredPublicationRevision := za_RequiredPublicationRevision z |}
  else a.
Definition attachmentOf (generation : Z) (old : option Binding) (uid : gostring)
    (m : DNSPublicationManifestSpec) : ZoneAttachment :=
  let a := {| za_Pending := false; za_ZoneUID := uid; za_Apex := ms_ZoneApex m;
              za_RequiredPublicationEpoch := toUint64 (ms_WriterEpoch m);
              za_RequiredPublicationRevision := toUint64 (ms_Revision m) |} in
  match old with
  | Some old =>
      if (b_BindingGeneration old =? generation)%Z
      then foldl keepRequirement a (elems (b_Zones old)) else a
  | None => a
  end.

Definition targeted (c : PlannerConfig) (m : DNSPublicationManifestSpec) : bool :=
  existsb (λ t, bool_decide (pt_Region t = cfg_Region c) && bool_decide (pt_Shard t = cfg_Shard c))
    (ms_ServingTargets m).

(** The loop over the zones of a binding. *)
Fixpoint attachZones (c : PlannerConfig) (b : DNSResolverBindingSpec) (old : option Binding)
    (byZone : gmap gostring DNSPublicationOwnershipSpec) (uids : list gostring) (st : Collecting) :
    prog (result PlannerError Collecting) :=
  match uids with
  | [] => mret (Ok st)
  | uid :: uids' =>
      let next := attachZones c b old byZone uids' in
      let apex := entry (bs_ZoneApices b) uid in
      match byZone !! uid with
      | None => next (pending uid apex st)
      | Some o =>
          if decide (os_ActiveManifestName o = []) then next (pending uid apex st)
          else
            r ← readManifest (cfg_Namespace c) (co_read st) (os_ActiveManifestName o);
            let '(r, read) := r in
            let st := {| co_complete := co_complete st; co_zones := co_zones st;
                         co_activations := co_activations st; co_read := read |} in
            match r with
            | Err e => mret (Err e)
            | Ok None => next (pending uid apex st)
            | Ok (Some m) =>
                if bool_decide (ms_ZoneUID m ≠ uid) || ms_Tombstone m || negb (targeted c m)
                then next (pending uid apex st)
                else
                  next {| co_complete := co_complete st;
                          co_zones := co_zones st
                            ++ [attachmentOf (toUint64 (bs_Generation b)) old uid m];
                          co_activations := <[uid := PublicationActivationName
                                                (os_ActiveManifestName o) (cfg_Region c) (cfg_Shard c)]>
                                              (co_activations st);
                          co_read := read |}
            end
      end
  end.

(** The view of a binding before its zones. *)
Definition viewOf (c : PlannerConfig) (uid : gostring) (b : DNSResolverBindingSpec) : Binding :=
  {| b_BindingUID := uid; b_ProjectUID := bs_ProjectUID b;
     b_ContextUID := ref_UID (bs_ResolverContextRef b);
     b_BindingGeneration := toUint64 (bs_Generation b);
     b_ConfigurationRevision := toUint64 (bs_Revision b);
     b_ConsumerAddress := bs_NodeAddress b; b_ClusterAddress := bs_RegionalAddress b;
     b_Port := 53; b_Transports := Some [TransportUDP; TransportTCP]; b_Zones := None;
     b_NodeBackends := cfg_NodeBackends c; b_ClusterBackends := cfg_ClusterBackends c;
     b_Version := {| v_Epoch := toUint64 (bs_Epoch b); v_Sequence := toUint64 (bs_Sequence b) |};
     b_Tombstone := bs_Tombstone b; b_ConfigurationPending := false |}.

Definition withZones (v : Binding) (zones : slice ZoneAttachment) (configurationPending : bool) : Binding :=
  {| b_BindingUID := b_BindingUID v; b_ProjectUID := b_ProjectUID v; b_ContextUID := b_ContextUID v;
     b_BindingGeneration := b_BindingGeneration v; b_ConfigurationRevision := b_ConfigurationRevision v;
     b_ConsumerAddress := b_ConsumerAddress v; b_ClusterAddress := b_ClusterAddress v;
     b_Port := b_Port v; b_Transports := b_Transports v; b_Zones := zones;
     b_NodeBackends := b_NodeBackends v; b_ClusterBackends := b_ClusterBackends v;
     b_Version := b_Version v; b_Tombstone := b_Tombstone v;
     b_ConfigurationPending := configurationPending |}.

Definition zoneLess (a b : ZoneAttachment) : bool := str_ltb (za_ZoneUID a) (za_ZoneUID b).

(** The view of a binding, once its zones are collected. *)
Definition viewWith (v : Binding) (st : Collecting) : Binding :=
  if co_complete st then withZones v (sort_slice zoneLess <$> appended (co_zones st)) false
  else withZones v None true.

(** The loop over the bindings: the views so far, the activations and the manifests. *)
Fixpoint collectBindings (c : PlannerConfig) (prior : gmap gostring Binding)
    (byZone : gmap gostring DNSPublicationOwnershipSpec) (bindings : list (Object ResolverBinding))
    (views : list Binding) (activations : gmap gostring gostring) (read : manifestCache) :
    prog (result PlannerError (list Binding * gmap gostring gostring)) :=
  match bindings with
  | [] => mret (Ok (views, activations))
  | obj :: bindings' =>
      let b := planBinding obj in
      if bool_decide (bs_Region b ≠ cfg_Region c) || bool_decide (bs_Shard b ≠ cfg_Shard c)
         || negb (bool_decide (o_DeletionTimestamp obj = None))
      then collectBindings c prior byZone bindings' views activations read
      else
        let view := viewOf c (o_UID obj) b in
        if bs_Tombstone b
        then collectBindings c prior byZone bindings' (views ++ [view]) activations read
        else
          r ← attachZones c b (prior !! o_UID obj) byZone (ref_UID <$> bs_ZoneRefs b)
                {| co_complete := true; co_zones := []; co_activations := activations; co_read := read |};
          match r with
          | Err e => mret (Err e)
          | Ok st => collectBindings c prior byZone bindings' (views ++ [viewWith view st])
                       (co_activations st) (co_read st)
          end
  end.

(** * Capacity *)

(** [condition] of [acks.go]. *)
Definition condition (rows : list Condition) (name : gostring) (value : bool) (reason : gostring)
    (generation now : Z) : list Condition :=
  (SetStatusCondition rows
     {| c_Type := name; c_Status := if value then ConditionTrue else ConditionFalse;
        c_ObservedGeneration := generation; c_LastTransitionTime := now; c_Reason := reason;
        c_Message := reason |}).1.

(** [jsonEqualStatus]: times are written in seconds. *)
Definition statusText (s : DNSResolverBindingStatus) : Z * gostring * list Condition :=
  (bst_ObservedConfigurationRevision s, bst_Phase s,
   (λ c, {| c_Type := c_Type c; c_Status := c_Status c;
            c_ObservedGeneration := c_ObservedGeneration c;
            c_LastTransitionTime := Unix (c_LastTransitionTime c);
            c_Reason := c_Reason c; c_Message := c_Message c |}) <$> bst_Conditions s).
Definition jsonEqualStatus (a b : DNSResolverBindingStatus) : bool :=
  bool_decide (statusText a = statusText b).

Definition capacityStatus (rejected : gset gostring) (now : Z) (b : Object ResolverBinding) :
    DNSResolverBindingStatus :=
  {| bst_ObservedConfigurationRevision := bst_ObservedConfigurationRevision (planStatus b);
     bst_Phase := bst_Phase (planStatus b);
     bst_Conditions := condition (bst_Conditions (planStatus b)) "CapacityAvailable"
       (negb (bool_decide (o_UID b ∈ rejected))) "ShardCapacity" (o_Generation b) now |}.

(** [reportCapacity]; its error is only logged. *)
Fixpoint reportCapacity (c : PlannerConfig) (bindings : list (Name * Object ResolverBinding))
    (rejected : gset gostring) (now : Z) : prog unit :=
  match bindings with
  | [] => mret tt
  | (n, b) :: bindings' =>
      if bool_decide (bs_Region (planBinding b) ≠ cfg_Region c)
         || bool_decide (bs_Shard (planBinding b) ≠ cfg_Shard c)
      then reportCapacity c bindings' rejected now
      else
        let status := capacityStatus rejected now b in
        if jsonEqualStatus (planStatus b) status then reportCapacity c bindings' rejected now
        else
          _ ← call (Update ResolverBinding n (o_ResourceVersion b) (o_Labels b) (planBinding b, status));
          reportCapacity c bindings' rejected now
  end.

(** * Step *)

(** The snapshot before it is fitted. *)
Definition wantedSnapshot (c : PlannerConfig) (state : shardState) (now : Z) (views : list Binding) :
    ServingSnapshot :=
  {| s_Region := cfg_Region c; s_Shard := cfg_Shard c; s_ConfigurationEpoch := sh_Epoch state;
     s_ConfigurationRevision := sh_NextRevision state;
     s_Bindings := sort_slice uidLess <$> appended views;
     s_Members := sort_slice (λ a b, str_ltb (m_MemberID a) (m_MemberID b)) <$> appended (cfg_Members c);
     s_MemberPatterns := cfg_MemberPatterns c; s_RequiredPublications := [];
     s_GeneratedAt := now |}.

(** The hash of a snapshot without its revision and time. *)
Definition contentHash (s : ServingSnapshot) : gostring :=
  Hash (encode (ServingSnapshot_json
    {| s_Region := s_Region s; s_Shard := s_Shard s; s_ConfigurationEpoch := 0;
       s_ConfigurationRevision := 0; s_Bindings := s_Bindings s; s_Members := s_Members s;
       s_MemberPatterns := s_MemberPatterns s; s_RequiredPublications := s_RequiredPublications s;
       s_GeneratedAt := zeroTime |})).

Definition emptyStatus : DNSTransportOutboxStatus :=
  {| obs_State := []; obs_Attempts := 0; obs_AcknowledgedAt := None; obs_StreamSequence := 0;
     obs_Failed := false |}.

(** The outbox entry of a snapshot. *)
Definition servingOutbox (region shard uid : gostring) (epoch revision : Z)
    (payload : gostring) (dependsOn : list gostring) : DNSTransportOutboxSpec :=
  {| ob_Subject := ServingSubject region shard; ob_ResourceUID := uid;
     ob_WriterEpoch := wrap64 epoch; ob_Revision := wrap64 revision; ob_ManifestRef := [];
     ob_OwnershipRef := []; ob_PayloadHash := Hash payload; ob_Payload := payload;
     ob_Activation := true; ob_DependsOn := dependsOn |}.
Definition servingLabels (c : PlannerConfig) : labelMap :=
  {[ shardOwnerLabel := (plannerKey c).2; regionLabel := SafeToken (cfg_Region c);
     shardLabel := SafeToken (cfg_Shard c) ]}.
Definition shardLabels (c : PlannerConfig) : labelMap :=
  {[ regionLabel := SafeToken (cfg_Region c); shardLabel := SafeToken (cfg_Shard c) ]}.

Definition renewed (state : shardState) (until : Z) : shardState :=
  {| sh_Holder := sh_Holder state; sh_Epoch := sh_Epoch state;
     sh_NextRevision := sh_NextRevision state; sh_LeaseUntil := until;
     sh_ActiveOutbox := sh_ActiveOutbox state; sh_ContentHash := sh_ContentHash state |}.
Definition reserved (state : shardState) (until : Z) : shardState :=
  {| sh_Holder := sh_Holder state; sh_Epoch := sh_Epoch state;
     sh_NextRevision := toUint64 (sh_NextRevision state + 1); sh_LeaseUntil := until;
     sh_ActiveOutbox := sh_ActiveOutbox state; sh_ContentHash := sh_ContentHash state |}.
Definition committedState (state : shardState) (name hash : gostring) (until : Z) : shardState :=
  {| sh_Holder := sh_Holder state; sh_Epoch := sh_Epoch state;
     sh_NextRevision := sh_NextRevision state; sh_LeaseUntil := until;
     sh_ActiveOutbox := name; sh_ContentHash := hash |}.
Definition takenOver (c : PlannerConfig) (state : shardState) (now : Z) : shardState :=
  {| sh_Holder := cfg_Identity c; sh_Epoch := NextWriterEpoch (sh_Epoch state) now;
     sh_NextRevision := sh_NextRevision state; sh_LeaseUntil := now + leaseOf c;
     sh_ActiveOutbox := sh_ActiveOutbox state; sh_ContentHash := [] |}.

Definition writeRecord (c : PlannerConfig) (owner : Object ConfigMap) (state : shardState) :
    prog (Reply (Object ConfigMap)) :=
  call (Update ConfigMap (plannerKey c) (o_ResourceVersion owner) (o_Labels owner) (withState owner state)).

(** The last part of [Step]: reserve a revision, write the entry, commit it. *)
Definition publishSnapshot (c : PlannerConfig) (owner : Object ConfigMap) (state : shardState)
    (now : Z) (snapshot : ServingSnapshot) (dependsOn : list gostring) (hash : gostring)
    (report : prog unit) : prog (result PlannerError unit) :=
  let revision := sh_NextRevision state in
  let name := servingName (cfg_Region c) (cfg_Shard c) (sh_Epoch state) revision in
  match NewEnvelope KindServingSnapshot name (cfg_Region c) (cfg_Shard c) (o_UID owner)
          (sh_Epoch state) revision now (ServingSnapshot_marshal snapshot) with
  | Err e => mret (Err (PInvalid e))
  | Ok env =>
      let payload := encode (Envelope_json env) in
      if (maxBytesOf c <? Z.of_nat (length payload))%Z then mret (Err PBudget)
      else
        let state := reserved state (now + leaseOf c) in
        u ← writeRecord c owner state;
        match u with
        | Found owner =>
            let spec := servingOutbox (cfg_Region c) (cfg_Shard c) (o_UID owner) (sh_Epoch state) revision
                          payload dependsOn in
            let n := (cfg_Namespace c, name) in
            let commit :=
              u ← writeRecord c owner (committedState state name hash (now + leaseOf c));
              match u with
              | Found _ => _ ← report; mret (Ok tt)
              | _ => mret (Err PKube)
              end in
            r ← call (Create TransportOutbox n (servingLabels c) (spec, emptyStatus));
            match r with
            | Found _ => commit
            | AlreadyExists =>
                g ← call (Get TransportOutbox n);
                match g with
                | Found existing =>
                    if decide (outboxSpec existing = spec) then commit else mret (Err PCollision)
                | _ => mret (Err PKube)
                end
            | _ => mret (Err PKube)
            end
        | _ => mret (Err PKube)
        end
  end.

(** What follows the collection: fit, list the dependencies, compare, renew or publish. *)
Definition planSnapshot (c : PlannerConfig) (owner : Object ConfigMap) (state : shardState) (now : Z)
    (bindings : list (Name * Object ResolverBinding)) (prior : ServingSnapshot)
    (views : list Binding) (activations : gmap gostring gostring) : prog (result PlannerError unit) :=
  let '(snapshot, rejected, fitErr) :=
    fitSnapshot (wantedSnapshot c state now views) prior (maxBindingsOf c) (maxBytesOf c) in
  let report := reportCapacity c bindings rejected now in
  match fitErr with
  | Some e => _ ← report; mret (Err (PFit e))
  | None =>
      match publicationDependencies snapshot activations with
      | Err zone => mret (Err (PNoActivation zone))
      | Ok (dependsOn, snapshot) =>
          match ServingSnapshot_Validate snapshot with
          | Err e => mret (Err (PInvalid e))
          | Ok _ =>
              let hash := contentHash snapshot in
              if decide (sh_ContentHash state = hash) then
                if (leaseOf c `quot` 2 <? timeSub (sh_LeaseUntil state) now)%Z
                then _ ← report; mret (Ok tt)
                else
                  u ← writeRecord c owner (renewed state (now + leaseOf c));
                  match u with
                  | Found _ => _ ← report; mret (Ok tt)
                  | _ => mret (Err PKube)
                  end
              else if negb (now <? sh_LeaseUntil state)%Z then mret (Err PLostLease)
              else publishSnapshot c owner state now snapshot dependsOn hash report
          end
      end
  end.

(** The planner holds the record: collect what the shard serves. *)
Definition planHeld (c : PlannerConfig) (cache : PriorCache) (owner : Object ConfigMap)
    (state : shardState) (now : Z) : prog (result PlannerError unit * PriorCache) :=
  r ← call (List_ ResolverBinding (cfg_Namespace c) (shardLabels c));
  match r with
  | Found bindings =>
      o ← ownersOfZones (cfg_Namespace c)
            ((snd <$> bindings) ≫= λ b, ref_UID <$> bs_ZoneRefs (planBinding b)) ∅;
      match o with
      | Err e => mret (Err e, cache)
      | Ok byZone =>
          p ← (if decide (sh_ActiveOutbox state = []) then mret (Ok zeroSnapshot, cache)
               else loadPrior c cache (sh_ActiveOutbox state));
          let '(p, cache) := p in
          match p with
          | Err e => mret (Err e, cache)
          | Ok prior =>
              v ← collectBindings c (byUID (elems (s_Bindings prior))) byZone (snd <$> bindings) [] ∅ ∅;
              match v with
              | Err e => mret (Err e, cache)
              | Ok (views, activations) =>
                  r ← planSnapshot c owner state now bindings prior views activations;
                  mret (r, cache)
              end
          end
      end
  | _ => mret (Err PKube, cache)
  end.

Definition Step (c : PlannerConfig) (stopping : bool) (cache : PriorCache) :
    prog (result PlannerError unit * PriorCache) :=
  if bool_decide (cfg_Namespace c = []) || bool_decide (cfg_Region c = []) || bool_decide (cfg_Shard c = [])
     || bool_decide (cfg_Identity c = [])
  then mret (Err PConfig, cache)
  else if stopping then mret (Ok tt, cache)
  else
    now ← call Clock;
    r ← call (Get ConfigMap (plannerKey c));
    match r with
    | NotFound =>
        let state := {| sh_Holder := cfg_Identity c; sh_Epoch := NextWriterEpoch 0 now;
                        sh_NextRevision := 1; sh_LeaseUntil := now + leaseOf c;
                        sh_ActiveOutbox := []; sh_ContentHash := [] |} in
        u ← call (Create ConfigMap (plannerKey c) (shardLabels c)
                    ({["state" := marshalShardState state]} : gmap gostring gostring));
        match u with
        | Found _ | AlreadyExists => mret (Ok tt, cache)
        | _ => mret (Err PKube, cache)
        end
    | Found owner =>
        match readShardState owner with
        | None => mret (Err PCorrupt, cache)
        | Some state =>
            if decide (sh_Holder state = cfg_Identity c) then planHeld c cache owner state now
            else if (now <? sh_LeaseUntil state)%Z then mret (Ok tt, cache)
            else
              let state := takenOver c state now in
              u ← writeRecord c owner state;
              match u with
              | Found owner => planHeld c cache owner state now
              | _ => mret (Err PKube, cache)
              end
        end
    | _ => mret (Err PKube, cache)
    end.

(** A planner process: [n] steps one after the other. *)
Fixpoint plan (c : PlannerConfig) (n : nat) (cache : PriorCache) : prog unit :=
  match n with
  | O => mret tt
  | S n' => r ← Step c false cache; plan c n' r.2
  end.
End planner.
