(* ===== verification/Outbox.v ===== *)
(** The outbox: [internal/internaldns/platform/outbox.go].

    The control plane writes every event it means to publish into the store first.
    [Step] publishes those that are committed (the record or manifest they belong to is
    the active one) and whose dependencies have been acknowledged, and then marks them as
    acknowledged.  The stream and the bootstrap bucket are calls that may fail after they
    took effect. *)

From S2P Require Import Prelude GoStrings GoCrypto GoJson GoJsonDecode Api ApiMeta WireModel.
From S2P Require Import Publication Capacity WireDecode ApiStore ShardState Planner.

Record Outbox := {
  ox_Namespace : gostring;
  ox_Region : gostring;
  ox_Bootstrap : bool;     (* a bootstrap bucket is configured *)
  ox_PendingOnly : bool;
}.

Definition dnsValuePending : gostring := "Pending".
Definition dnsValueAcknowledged : gostring := "Acknowledged".
Definition dnsValueSuperseded : gostring := "Superseded".

(** [OStored]: an entry that contradicts itself; [OKube]: the API server; [OSend]: the
    stream or the bucket; [OLifetime]: the entry was replaced meanwhile. *)
Inductive OutboxError := OStored | OKube | OSend | OLifetime.

(** [if first == nil { first = err }]. *)
Definition note_first (first : option OutboxError) (e : OutboxError) : option OutboxError :=
  Some (default e first).

Definition isSettled (o : Object TransportOutbox) : bool :=
  bool_decide (obs_State (outboxStatus o) = dnsValueAcknowledged)
  || bool_decide (obs_State (outboxStatus o) = dnsValueSuperseded).

Section outbox.
Context `{GoRuntime}.

(** The order of a pass: activations last, then by name. *)
Definition outboxLess (a b : Name * Object TransportOutbox) : bool :=
  let x := ob_Activation (outboxSpec a.2) in
  let y := ob_Activation (outboxSpec b.2) in
  if negb (Bool.eqb x y) then negb x else str_ltb a.1.2 b.1.2.

Definition expectedSubject (env : Envelope) : gostring :=
  if decide (e_Kind env = KindServingSnapshot) then ServingSubject (e_Region env) (e_Shard env)
  else if decide (e_Kind env = KindPublicationChunk)
  then RecordChunkSubject (e_Region env) (e_Shard env) (e_ResourceUID env)
  else if decide (e_Kind env = KindPublicationManifest)
  then RecordManifestSubject (e_Region env) (e_Shard env) (e_ResourceUID env)
  else [].

(** The envelope of an entry, if the entry is consistent. *)
Definition entryEnvelope (spec : DNSTransportOutboxSpec) : option Envelope :=
  if bool_decide (Hash (ob_Payload spec) ≠ ob_PayloadHash spec) then None
  else
    env ← Unmarshal dEnvelope zeroEnvelope (ob_Payload spec);
    match Envelope_Validate env with
    | Err _ => None
    | Ok _ =>
        if bool_decide (e_ResourceUID env ≠ ob_ResourceUID spec)
           || negb (e_Epoch env =? toUint64 (ob_WriterEpoch spec))%Z
           || negb (e_Revision env =? toUint64 (ob_Revision spec))%Z
           || bool_decide (ob_Subject spec ≠ expectedSubject env)
        then None else Some env
    end.

(** [SnapshotKey], with the index decoded from a chunk. *)
Definition snapshotKeyOf (env : Envelope) : option gostring :=
  if decide (e_Kind env = KindPublicationChunk) then
    match e_Payload env with
    | NotJson _ => None
    | Encoded j => c ← dChunk zeroChunk j; SnapshotKey env (pc_Index c)
    end
  else SnapshotKey env 0.

(** [committed]. *)
Definition committed (ns : gostring) (n : Name) (out : Object TransportOutbox) (env : Envelope) :
    prog (result OutboxError bool) :=
  let spec := outboxSpec out in
  if decide (e_Kind env = KindServingSnapshot) then
    let name := entry (o_Labels out) shardOwnerLabel in
    if decide (name = []) then mret (Err OStored)
    else
      r ← call (Get ConfigMap (ns, name));
      match r with
      | Found cm =>
          mret (match readShardState cm with
                | None => Err OStored
                | Some s => Ok (bool_decide (o_UID cm = ob_ResourceUID spec)
                                && (sh_Epoch s =? e_Epoch env)%Z
                                && bool_decide (sh_ActiveOutbox s = n.2))
                end)
      | _ => mret (Err OKube)
      end
  else if decide (ob_ManifestRef spec = []) then mret (Err OStored)
  else
    r ← call (Get Manifest (ns, ob_ManifestRef spec));
    match r with
    | NotFound => mret (Ok false)
    | Found m =>
        r ← call (Get Ownership (ns, ownershipName (ms_ZoneUID (manifestSpec m))));
        match r with
        | NotFound => mret (Ok false)
        | Found own =>
            mret (Ok ((os_WriterEpoch (ownershipSpec own) =? wrap64 (e_Epoch env))%Z
                      && bool_decide (os_ActiveManifestName (ownershipSpec own) = ob_ManifestRef spec)
                      && (ms_WriterEpoch (manifestSpec m) =? wrap64 (e_Epoch env))%Z
                      && (ms_Revision (manifestSpec m) =? wrap64 (e_Revision env))%Z))
        | _ => mret (Err OKube)
        end
    | _ => mret (Err OKube)
    end.

Abbreviation stateMap := (gmap gostring gostring).

(** [dependencyReady]. *)
Definition dependencyReady (ns : gostring) (env : Envelope) (name : gostring) (states : stateMap) :
    prog (result OutboxError bool * stateMap) :=
  if decide (entry states name = dnsValueAcknowledged) then mret (Ok true, states)
  else
    r ← call (Get TransportOutbox (ns, name));
    match r with
    | NotFound => mret (Ok false, states)
    | Found dep =>
        if decide (obs_State (outboxStatus dep) = dnsValueAcknowledged)
        then mret (Ok true, <[name := dnsValueAcknowledged]> states)
        else if bool_decide (e_Kind env ≠ KindServingSnapshot)
                || bool_decide (ob_ManifestRef (outboxSpec dep) = [])
        then mret (Ok false, states)
        else
          r ← call (Get Manifest (ns, ob_ManifestRef (outboxSpec dep)));
          match r with
          | Found previous =>
              let previous := manifestSpec previous in
              r ← call (Get Ownership (ns, ownershipName (ms_ZoneUID previous)));
              match r with
              | Found owner =>
                  let active := os_ActiveManifestName (ownershipSpec owner) in
                  if decide (active = []) then mret (Ok false, states)
                  else
                    r ← call (Get Manifest (ns, active));
                    match r with
                    | Found current =>
                        let current := manifestSpec current in
                        if (Compare (toUint64 (ms_WriterEpoch current)) (toUint64 (ms_Revision current))
                              (toUint64 (ms_WriterEpoch previous)) (toUint64 (ms_Revision previous)) <? 0)%Z
                        then mret (Ok false, states)
                        else
                          r ← call (Get TransportOutbox
                                      (ns, PublicationActivationName active (e_Region env) (e_Shard env)));
                          match r with
                          | NotFound => mret (Ok false, states)
                          | Found activation =>
                              mret (Ok (bool_decide (obs_State (outboxStatus activation)
                                                     = dnsValueAcknowledged)), states)
                          | _ => mret (Err OKube, states)
                          end
                    | _ => mret (Err OKube, states)
                    end
              | _ => mret (Err OKube, states)
              end
          | _ => mret (Err OKube, states)
          end
    | _ => mret (Err OKube, states)
    end.

(** The loop over the dependencies: [Ok false] at the first that is not ready. *)
Fixpoint dependenciesReady (ns : gostring) (env : Envelope) (deps : list gostring) (states : stateMap) :
    prog (result OutboxError bool * stateMap) :=
  match deps with
  | [] => mret (Ok true, states)
  | dep :: deps' =>
      r ← dependencyReady ns env dep states;
      match r with
      | (Ok true, states) => dependenciesReady ns env deps' states
      | (r, states) => mret (r, states)
      end
  end.

(** [superseded]. *)
Definition superseded (ns : gostring) (out : Object TransportOutbox) (env : Envelope) :
    prog (result OutboxError bool) :=
  let above epoch revision :=
    (0 <? Compare (toUint64 epoch) (toUint64 revision) (e_Epoch env) (e_Revision env))%Z in
  if decide (e_Kind env = KindServingSnapshot) then
    r ← call (Get ConfigMap (ns, entry (o_Labels out) shardOwnerLabel));
    match r with
    | Found cm =>
        match readShardState cm with
        | None => mret (Err OStored)
        | Some owner =>
            if decide (o_UID cm ≠ ob_ResourceUID (outboxSpec out)) then mret (Ok true)
            else if decide (sh_ActiveOutbox owner = []) then mret (Ok false)
            else
              r ← call (Get TransportOutbox (ns, sh_ActiveOutbox owner));
              match r with
              | Found active =>
                  mret (Ok (above (ob_WriterEpoch (outboxSpec active)) (ob_Revision (outboxSpec active))))
              | _ => mret (Err OKube)
              end
        end
    | _ => mret (Err OKube)
    end
  else
    r ← call (Get Ownership (ns, ownershipName (e_ResourceUID env)));
    match r with
    | NotFound => mret (Ok false)
    | Found owner =>
        if decide (os_ActiveManifestName (ownershipSpec owner) = []) then mret (Ok false)
        else
          r ← call (Get Manifest (ns, os_ActiveManifestName (ownershipSpec owner)));
          match r with
          | Found active =>
              mret (Ok (above (ms_WriterEpoch (manifestSpec active)) (ms_Revision (manifestSpec active))))
          | _ => mret (Err OKube)
          end
    | _ => mret (Err OKube)
    end.

(** [markExported]; the patch carries no resource version. *)
Definition exported (now : Z) (b : Body Manifest) : Body Manifest :=
  (b.1, {| mst_ExportState := dnsValueAcknowledged; mst_ExportedAt := Some now;
           mst_Conditions := mst_Conditions b.2 |}).
Definition markExported (ns name : gostring) (now : Z) : prog (option OutboxError) :=
  r ← call (Get Manifest (ns, name));
  match r with
  | Found m =>
      if bool_decide (mst_ExportedAt (manifestStatus m) ≠ None) then mret None
      else
        u ← call (Patch Manifest (ns, name) id (exported (metaTime now)));
        match u with
        | Found _ | NotFound => mret None
        | _ => mret (Some OKube)
        end
  | NotFound => mret None
  | _ => mret (Some OKube)
  end.

Definition outboxState (s : DNSTransportOutboxStatus) (state : gostring) : DNSTransportOutboxStatus :=
  {| obs_State := state; obs_Attempts := obs_Attempts s; obs_AcknowledgedAt := obs_AcknowledgedAt s;
     obs_StreamSequence := obs_StreamSequence s; obs_Failed := obs_Failed s |}.
Definition wrap32 (z : Z) : Z := ((z + 2 ^ 31) mod 2 ^ 32 - 2 ^ 31)%Z.
Definition failedStatus (s : DNSTransportOutboxStatus) : DNSTransportOutboxStatus :=
  {| obs_State := dnsValuePending; obs_Attempts := wrap32 (obs_Attempts s + 1);
     obs_AcknowledgedAt := obs_AcknowledgedAt s; obs_StreamSequence := obs_StreamSequence s;
     obs_Failed := true |}.
Definition acknowledgedStatus (s : DNSTransportOutboxStatus) (now sequence : Z) : DNSTransportOutboxStatus :=
  {| obs_State := dnsValueAcknowledged; obs_Attempts := wrap32 (obs_Attempts s + 1);
     obs_AcknowledgedAt := Some now; obs_StreamSequence := sequence; obs_Failed := false |}.

(** The status of an entry is patched at the version it was read at. *)
Definition patchStatus (n : Name) (out : Object TransportOutbox) (status : DNSTransportOutboxStatus) :
    prog (option OutboxError) :=
  r ← call (Update TransportOutbox n (o_ResourceVersion out) (o_Labels out) (outboxSpec out, status));
  match r with Found _ => mret None | _ => mret (Some OKube) end.

(** Publish the event and put it into the bucket. *)
Definition send (o : Outbox) (spec : DNSTransportOutboxSpec) (env : Envelope) :
    prog (result OutboxError Z) :=
  ack ← call (Publish (ob_Subject spec) env);
  match ack with
  | None => mret (Err OSend)
  | Some sequence =>
      if ox_Bootstrap o then
        match snapshotKeyOf env with
        | None => mret (Err OStored)
        | Some key =>
            kept ← call (Keep key env);
            match kept with Some _ => mret (Ok sequence) | None => mret (Err OSend) end
        end
      else mret (Ok sequence)
  end.

(** What follows the publication of an entry: refetch it and record the outcome. *)
Definition settle (o : Outbox) (n : Name) (out : Object TransportOutbox) (env : Envelope)
    (sent : result OutboxError Z) (first : option OutboxError) (states : stateMap) :
    prog (option OutboxError * stateMap) :=
  g ← call (Get TransportOutbox n);
  match g with
  | Found current =>
      if bool_decide (o_UID current ≠ o_UID out)
         || bool_decide (ob_PayloadHash (outboxSpec current) ≠ ob_PayloadHash (outboxSpec out))
      then mret (note_first first OLifetime, states)
      else
        now ← call Clock;
        err ← match sent with
              | Ok _ =>
                  if decide (e_Kind env = KindPublicationManifest)
                  then markExported (ox_Namespace o) (ob_ManifestRef (outboxSpec out)) now
                  else mret None
              | Err e => mret (Some e)
              end;
        let '(status, first, states) :=
          match err, sent with
          | None, Ok sequence =>
              (acknowledgedStatus (outboxStatus current) (metaTime now) sequence, first,
               <[n.2 := dnsValueAcknowledged]> states)
          | _, _ => (failedStatus (outboxStatus current), note_first first (default OSend err), states)
          end in
        e ← patchStatus n current status;
        mret (match e with None => first | Some e => note_first first e end, states)
  | _ => mret (note_first first OKube, states)
  end.

(** The body of the loop for one entry. *)
Definition publishEntry (o : Outbox) (n : Name) (out : Object TransportOutbox)
    (first : option OutboxError) (states : stateMap) : prog (option OutboxError * stateMap) :=
  if isSettled out then mret (first, states)
  else
    match entryEnvelope (outboxSpec out) with
    | None => mret (note_first first OStored, states)
    | Some env =>
        c ← committed (ox_Namespace o) n out env;
        match c with
        | Err e => mret (note_first first e, states)
        | Ok false =>
            older ← superseded (ox_Namespace o) out env;
            match older with
            | Err e => mret (note_first first e, states)
            | Ok false => mret (first, states)
            | Ok true =>
                e ← patchStatus n out (outboxState (outboxStatus out) dnsValueSuperseded);
                mret (match e with None => first | Some e => note_first first e end,
                      <[n.2 := dnsValueSuperseded]> states)
            end
        | Ok true =>
            r ← dependenciesReady (ox_Namespace o) env (ob_DependsOn (outboxSpec out)) states;
            match r with
            | (Err e, states) => mret (note_first first e, states)
            | (Ok false, states) => mret (first, states)
            | (Ok true, states) =>
                sent ← send o (outboxSpec out) env;
                settle o n out env sent first states
            end
        end
    end.

Fixpoint publishAll (o : Outbox) (entries : list (Name * Object TransportOutbox))
    (first : option OutboxError) (states : stateMap) : prog (option OutboxError) :=
  match entries with
  | [] => mret first
  | (n, out) :: entries' =>
      r ← publishEntry o n out first states;
      publishAll o entries' r.1 r.2
  end.

Definition listLabels (o : Outbox) : labelMap :=
  if decide (ox_Region o = []) then ∅ else {[ regionLabel := SafeToken (ox_Region o) ]}.
Definition listed (o : Outbox) (entries : list (Name * Object TransportOutbox)) :
    list (Name * Object TransportOutbox) :=
  if ox_PendingOnly o then List.filter (λ e, negb (isSettled e.2)) entries else entries.

(** [Step] of the outbox. *)
Definition OutboxStep (o : Outbox) : prog (option OutboxError) :=
  if decide (ox_Namespace o = []) then mret (Some OKube)
  else
    r ← call (List_ TransportOutbox (ox_Namespace o) (listLabels o));
    match r with
    | Found entries =>
        let entries := sort_slice outboxLess (listed o entries) in
        publishAll o entries None
          (foldl (λ m e, <[e.1.2 := obs_State (outboxStatus e.2)]> m) ∅ entries)
    | _ => mret (Some OKube)
    end.

(** An outbox process: [k] passes one after the other. *)
Fixpoint export (o : Outbox) (k : nat) : prog unit :=
  match k with
  | O => mret tt
  | S k' => _ ← OutboxStep o; export o k'
  end.
End outbox.
