(* ===== verification/Publisher.v ===== *)
(** Publishing a zone: the ownership records and publications of
    [internal/internaldns/controlplane/publication_reconciler.go], and the shards a zone is
    published to.

    One control plane at a time owns a zone.  It compiles the zone against the plan it
    published last, reserves a revision in the ownership record, stores the chunks, the
    manifest and the outbox entries of that revision and then commits it by naming the
    manifest in the record.  The objects of the project come from other API servers: they
    are arguments. *)

From S2P Require Import Prelude GoStrings GoCrypto GoJson GoJsonDecode Api ApiMeta RdataTypes.
From S2P Require Import ReservedScopes WireModel Publication Capacity Compile CompileHistory.
From S2P Require Import WireDecode ApiStore ShardState Planner.

Record ServingRegion := { sr_Region : gostring; sr_Shard : gostring }.
#[global] Instance ServingRegion_eq_dec : EqDecision ServingRegion.
Proof. solve_decision. Defined.
Definition targetKey (t : ServingRegion) : gostring := sr_Region t ++ "000"%char :: sr_Shard t.
Definition targetOf (t : DNSPublicationTarget) : ServingRegion :=
  {| sr_Region := pt_Region t; sr_Shard := pt_Shard t |}.
Definition apiTarget (t : ServingRegion) : DNSPublicationTarget :=
  {| pt_Region := sr_Region t; pt_Shard := sr_Shard t |}.

Record ReconcilerOptions := {
  op_ProjectUID : gostring;
  op_PlatformNamespace : gostring;
  op_Region : gostring;
  op_Shard : gostring;
  op_Identity : gostring;
  op_ChunkSize : Z;
  op_LeaseDuration : Z;
  op_ServingRegions : list ServingRegion;
  op_Regions : list gostring;
}.
Definition servingRegions (o : ReconcilerOptions) : list ServingRegion :=
  match op_ServingRegions o with
  | [] => [{| sr_Region := op_Region o; sr_Shard := op_Shard o |}]
  | l => l
  end.
Definition regional (o : ReconcilerOptions) : bool := (0 <? length (op_Regions o))%nat.
Definition local (o : ReconcilerOptions) (region : gostring) : bool :=
  negb (regional o) || bool_decide (region ∈ op_Regions o).

Inductive PublisherError :=
| UKube
| UConflict
| UCollision
| UStored
| UCompile (e : CompileError)
| UPlan (e : WirePlanError)
| UWire (e : WireError)
| UImmutable.

(** What [json.Marshal] writes for a fence of the plan. *)
Definition ContributionFence_json (f : ContributionFence) : json :=
  JObj ([("uid", JStr (fe_UID f)); ("generation", JNum (fe_Generation f)); ("sequence", JNum (fe_Sequence f))]
        ++ omitempty (negb (fe_Retired f)) "retired" (JBool true)
        ++ omitempty (bool_decide (fe_SourceName f = [])) "sourceName" (JStr (fe_SourceName f))).
Definition ServingRegion_json (t : ServingRegion) : json :=
  JObj [("Region", JStr (sr_Region t)); ("Shard", JStr (sr_Shard t))].

Definition chunkSpec (c : Object ChunkObject) : DNSPublicationChunkSpec := o_Body c.
Definition PublicationManifest_marshal (m : PublicationManifest) : option json :=
  if marshalable (pm_GeneratedAt m) then Some (PublicationManifest_json m) else None.

(** ** Names *)

Definition artifactName (prefix uid : gostring) (epoch revision : Z) : gostring :=
  prefix ++ "-" ++ take 16 (OpaqueToken uid) ++ "-e" ++ FormatInt epoch ++ "-r" ++ FormatInt revision.
Definition boundedName (s : gostring) : gostring :=
  if (length s <=? 63)%nat then TrimByte s "-"
  else TrimByte (take 50 s) "-" ++ "-" ++ EncodeToString (take 6 (Sum256 s)).
(** [%03d] *)
Definition pad3 (i : nat) : gostring :=
  let d := FormatInt (Z.of_nat i) in replicate (3 - length d) "0"%char ++ d.
Definition chunkName (name : gostring) (i : nat) : gostring := name ++ "-" ++ pad3 i.

Definition withdrawalsTrackedLabel : gostring := "internal-dns.miloapis.com/withdrawals-tracked".
Definition managedObjectValue : gostring := "true".
Definition referenceProjectLabel : gostring := "internal-dns.miloapis.com/project-uid".

(** * Ownership *)

Definition withLease (o : DNSPublicationOwnershipSpec) (until : Z) : DNSPublicationOwnershipSpec :=
  {| os_ZoneUID := os_ZoneUID o; os_HolderIdentity := os_HolderIdentity o;
     os_WriterEpoch := os_WriterEpoch o; os_NextRevision := os_NextRevision o;
     os_LeaseUntil := metaTime until; os_LastContentHash := os_LastContentHash o;
     os_ActiveManifestName := os_ActiveManifestName o |}.
Definition withRevision (o : DNSPublicationOwnershipSpec) (next until : Z) : DNSPublicationOwnershipSpec :=
  {| os_ZoneUID := os_ZoneUID o; os_HolderIdentity := os_HolderIdentity o;
     os_WriterEpoch := os_WriterEpoch o; os_NextRevision := next;
     os_LeaseUntil := metaTime until; os_LastContentHash := os_LastContentHash o;
     os_ActiveManifestName := os_ActiveManifestName o |}.
Definition withActive (o : DNSPublicationOwnershipSpec) (hash manifest : gostring) (until : Z) :
    DNSPublicationOwnershipSpec :=
  {| os_ZoneUID := os_ZoneUID o; os_HolderIdentity := os_HolderIdentity o;
     os_WriterEpoch := os_WriterEpoch o; os_NextRevision := os_NextRevision o;
     os_LeaseUntil := metaTime until; os_LastContentHash := hash; os_ActiveManifestName := manifest |}.
Definition withHolder (o : DNSPublicationOwnershipSpec) (identity : gostring) (epoch until : Z) :
    DNSPublicationOwnershipSpec :=
  {| os_ZoneUID := os_ZoneUID o; os_HolderIdentity := identity; os_WriterEpoch := epoch;
     os_NextRevision := os_NextRevision o; os_LeaseUntil := metaTime until;
     os_LastContentHash := os_LastContentHash o; os_ActiveManifestName := os_ActiveManifestName o |}.

Section publisher.
Context `{GoRuntime} `{ApiMeta} `{K8sValidation} `{MiekgDNS} (o : ReconcilerOptions) (today : gostring).

Definition ownershipKeyOf (zone : gostring) : Name := (op_PlatformNamespace o, ownershipName zone).

(** [patchLease] and the other patches of an ownership carry the version it was read at. *)
Definition patchLease (n : Name) (own : Object Ownership) (spec : DNSPublicationOwnershipSpec) :
    prog (result PublisherError (Object Ownership)) :=
  r ← call (Update Ownership n (o_ResourceVersion own) (o_Labels own) spec);
  match r with
  | Found own => mret (Ok own)
  | Conflict => mret (Err UConflict)
  | _ => mret (Err UKube)
  end.

(** [acquireOwnership]: [Ok None] when another control plane holds the zone or the record
    has just been created.  The times to retry at are not part of the result. *)
Definition acquireOwnership (zone : gostring) (stopping : bool) (now : Z) :
    prog (result PublisherError (option (Object Ownership))) :=
  if stopping then mret (Ok None)
  else
    r ← call (Get Ownership (ownershipKeyOf zone));
    match r with
    | NotFound =>
        c ← call (Create Ownership (ownershipKeyOf zone) ∅
                    {| os_ZoneUID := zone; os_HolderIdentity := op_Identity o;
                       os_WriterEpoch := wrap64 (NextWriterEpoch 0 now); os_NextRevision := 1;
                       os_LeaseUntil := metaTime (now + op_LeaseDuration o); os_LastContentHash := [];
                       os_ActiveManifestName := [] |});
        match c with
        | Found _ | AlreadyExists => mret (Ok None)
        | _ => mret (Err UKube)
        end
    | Found own =>
        let spec := ownershipSpec own in
        if decide (os_ZoneUID spec ≠ zone) then mret (Err UCollision)
        else if decide (os_HolderIdentity spec = op_Identity o) then mret (Ok (Some own))
        else if (now <? os_LeaseUntil spec)%Z then mret (Ok None)
        else
          u ← patchLease (ownershipKeyOf zone) own
                (withHolder spec (op_Identity o)
                   (wrap64 (NextWriterEpoch (toUint64 (os_WriterEpoch spec)) now))
                   (now + op_LeaseDuration o));
          match u with Ok own => mret (Ok (Some own)) | Err e => mret (Err e) end
    | _ => mret (Err UKube)
    end.

(** [holdOwnership]: a lease of which a third has passed is renewed. *)
Definition holdOwnership (zone : gostring) (stopping : bool) :
    prog (result PublisherError (option (Object Ownership))) :=
  now ← call Clock;
  r ← acquireOwnership zone stopping now;
  match r with
  | Err e => mret (Err e)
  | Ok None => mret (Ok None)
  | Ok (Some own) =>
      renewedAt ← call Clock;
      if (renewedAt + (op_LeaseDuration o * 2) `quot` 3 <? os_LeaseUntil (ownershipSpec own))%Z
      then mret (Ok (Some own))
      else
        u ← patchLease (ownershipKeyOf zone) own
              (withLease (ownershipSpec own) (renewedAt + op_LeaseDuration o));
        match u with Ok own => mret (Ok (Some own)) | Err e => mret (Err e) end
  end.

(** The loop of [ReleaseOwnership]: how many leases were ended, how many had changed and
    how many failed. *)
Fixpoint releaseAll (identity : gostring) (now : Z) (owners : list (Name * Object Ownership))
    (released skipped failed : nat) : prog (nat * nat * nat) :=
  match owners with
  | [] => mret (released, skipped, failed)
  | (n, own) :: owners' =>
      let spec := ownershipSpec own in
      if bool_decide (os_HolderIdentity spec ≠ identity) || negb (now <? os_LeaseUntil spec)%Z
      then releaseAll identity now owners' released skipped failed
      else
        r ← call (Update Ownership n (o_ResourceVersion own) (o_Labels own) (withLease spec now));
        match r with
        | Found _ => releaseAll identity now owners' (S released) skipped failed
        | NotFound | Conflict => releaseAll identity now owners' released (S skipped) failed
        | _ => releaseAll identity now owners' released skipped (S failed)
        end
  end.
Definition ReleaseOwnership (ns identity : gostring) (now : Z) :
    prog (result PublisherError (nat * nat * nat)) :=
  r ← call (List_ Ownership ns ∅);
  match r with
  | Found owners => r ← releaseAll identity now owners 0 0 0; mret (Ok r)
  | _ => mret (Err UKube)
  end.

(** [activeRevision]: the revision of the active manifest if it is of this epoch. *)
Definition activeRevision (own : DNSPublicationOwnershipSpec) : prog (result PublisherError Z) :=
  if decide (os_ActiveManifestName own = []) then mret (Ok 0%Z)
  else
    r ← call (Get Manifest (op_PlatformNamespace o, os_ActiveManifestName own));
    match r with
    | Found m =>
        let m := manifestSpec m in
        if bool_decide (ms_ZoneUID m ≠ os_ZoneUID own) || (os_WriterEpoch own <? ms_WriterEpoch m)%Z
        then mret (Err UStored)
        else if (ms_WriterEpoch m <? os_WriterEpoch own)%Z then mret (Ok 0%Z)
        else mret (Ok (ms_Revision m))
    | _ => mret (Err UKube)
    end.

(** The chunks of a manifest, verified and joined. *)
Fixpoint loadChunks (m : DNSPublicationManifestSpec) (i : nat) (refs : list DNSPublicationChunkReference)
    (b : gostring) : prog (result PublisherError gostring) :=
  match refs with
  | [] => mret (Ok b)
  | ref :: refs' =>
      r ← call (Get ChunkObject (op_PlatformNamespace o, kr_Name ref));
      match r with
      | Found c =>
          let c := chunkSpec c in
          if negb (pcs_Index c =? Z.of_nat i)%Z || negb (pcs_WriterEpoch c =? ms_WriterEpoch m)%Z
             || negb (pcs_Revision c =? ms_Revision m)%Z || bool_decide (pcs_SHA256 c ≠ kr_SHA256 ref)
             || bool_decide (Hash (pcs_Payload c) ≠ kr_SHA256 ref)
             || negb (Z.of_nat (length (pcs_Payload c)) =? kr_Size ref)%Z
          then mret (Err UStored)
          else loadChunks m (S i) refs' (b ++ pcs_Payload c)
      | _ => mret (Err UKube)
      end
  end.

(** [loadPrevious], without the cache of plans. *)
Definition loadPrevious (own : DNSPublicationOwnershipSpec) :
    prog (result PublisherError (option PublicationPlan)) :=
  if decide (os_ActiveManifestName own = []) then mret (Ok None)
  else
    r ← call (Get Manifest (op_PlatformNamespace o, os_ActiveManifestName own));
    match r with
    | Found m =>
        let m := manifestSpec m in
        b ← loadChunks m 0 (ms_Chunks m) [];
        match b with
        | Err e => mret (Err e)
        | Ok b =>
            if decide (Hash b ≠ ms_ContentHash m) then mret (Err UStored)
            else if decide (b = []) then mret (if ms_Tombstone m then Ok None else Err UStored)
            else
              mret (match Unmarshal dPlan zeroPlan b with
                    | None => Err UStored
                    | Some wire =>
                        match PublicationPlan_Validate wire with
                        | Err e => Err (UWire e)
                        | Ok _ => Ok (Some (previousOf wire))
                        end
                    end)
        end
    | _ => mret (Err UKube)
    end.

(** * Targets *)

(** A live binding of the context. *)
Definition liveBinding (context : gostring) (b : Object ResolverBinding) : bool :=
  bool_decide (bs_ProjectUID (planBinding b) = op_ProjectUID o)
  && bool_decide (ref_UID (bs_ResolverContextRef (planBinding b)) = context)
  && negb (bs_Tombstone (planBinding b)) && bool_decide (o_DeletionTimestamp b = None).
Definition boundAt (context : gostring) (t : ServingRegion) (b : Object ResolverBinding) : bool :=
  liveBinding context b && bool_decide (bs_Region (planBinding b) = sr_Region t)
  && bool_decide (bs_Shard (planBinding b) = sr_Shard t).

Definition shardLess (a b : ServingRegion) : bool := str_ltb (sr_Shard a) (sr_Shard b).

(** The shard with the highest score. *)
Definition bestShard (context region : gostring) (candidates : list ServingRegion) : option ServingRegion :=
  fst <$> foldl (λ best c,
    let score := byte <$> Sum256 (op_ProjectUID o ++ "/" ++ context ++ "/" ++ region ++ "/" ++ sr_Shard c) in
    match best with
    | None => Some (c, score)
    | Some (_, old) => if str_ltb old score then Some (c, score) else best
    end) None candidates.

(** The assignment of a context in one region: the least shard with a live binding, or the
    one with the best score. *)
Definition selectShard (context region : gostring) (bindings : list (Object ResolverBinding))
    (candidates : list ServingRegion) : option ServingRegion :=
  let candidates := sort_slice shardLess candidates in
  match List.filter (λ t, existsb (boundAt context t) bindings) candidates with
  | t :: _ => Some t
  | [] => bestShard context region candidates
  end.

Definition selectServingTargets (context : gostring) (bindings : list (Object ResolverBinding)) :
    list ServingRegion :=
  let regions := sortStrings (remove_dups (sr_Region <$> servingRegions o)) in
  omap (λ region, selectShard context region bindings
                    (List.filter (λ t, bool_decide (sr_Region t = region)) (servingRegions o))) regions.

Definition boundTargets (context : gostring) (bindings : list (Object ResolverBinding)) : list ServingRegion :=
  List.filter (λ t, existsb (boundAt context t) bindings) (selectServingTargets context bindings).

(** Bindings found without the label of the project are given it. *)
Fixpoint labelBindings (legacy : list (Name * Object ResolverBinding)) : prog unit :=
  match legacy with
  | [] => mret tt
  | (n, _) :: legacy' =>
      _ ← call (Patch ResolverBinding n (insert referenceProjectLabel (op_ProjectUID o)) id);
      labelBindings legacy'
  end.
Definition listProjectBindings : prog (result PublisherError (list (Object ResolverBinding))) :=
  r ← call (List_ ResolverBinding (op_PlatformNamespace o) {[ referenceProjectLabel := op_ProjectUID o ]});
  match r with
  | Found labelled =>
      r ← call (List_ ResolverBinding (op_PlatformNamespace o) ∅);
      match r with
      | Found all =>
          let legacy := List.filter (λ b,
            bool_decide (o_Labels b.2 !! referenceProjectLabel = None)
            && bool_decide (bs_ProjectUID (planBinding b.2) = op_ProjectUID o)) all in
          _ ← labelBindings legacy;
          mret (Ok ((snd <$> labelled) ++ (snd <$> legacy)))
      | _ => mret (Err UKube)
      end
  | _ => mret (Err UKube)
  end.

Abbreviation targetMap := (gmap gostring ServingRegion).
Definition addTarget (m : targetMap) (t : ServingRegion) : targetMap := <[targetKey t := t]> m.

Definition targetLess (a b : ServingRegion) : bool :=
  if decide (sr_Region a = sr_Region b) then str_ltb (sr_Shard a) (sr_Shard b)
  else str_ltb (sr_Region a) (sr_Region b).
Definition sortedTargets (m : targetMap) : list ServingRegion :=
  sort_slice targetLess ((map_range m).*2).

(** [withdrawalDelivered]. *)
Definition withdrawalDelivered (manifest : gostring) (t : ServingRegion) : prog (result PublisherError bool) :=
  r ← call (Get TransportOutbox (op_PlatformNamespace o,
              PublicationActivationName manifest (sr_Region t) (sr_Shard t)));
  match r with
  | NotFound => mret (Ok false)
  | Found out => mret (Ok (bool_decide (obs_State (outboxStatus out) = "Acknowledged")))
  | _ => mret (Err UKube)
  end.

(** The shards the zone may still have to be withdrawn from. *)
Fixpoint addWithdrawals (manifest : gostring) (byKey : targetMap) (configured : gmap gostring bool)
    (prior : list ServingRegion) (withdrawn : targetMap) : prog (result PublisherError targetMap) :=
  match prior with
  | [] => mret (Ok withdrawn)
  | t :: prior' =>
      if bool_decide (is_Some (byKey !! targetKey t)) || negb (default false (configured !! targetKey t))
         || bool_decide (is_Some (withdrawn !! targetKey t))
      then addWithdrawals manifest byKey configured prior' withdrawn
      else
        d ← withdrawalDelivered manifest t;
        match d with
        | Err e => mret (Err e)
        | Ok true => addWithdrawals manifest byKey configured prior' withdrawn
        | Ok false => addWithdrawals manifest byKey configured prior' (addTarget withdrawn t)
        end
  end.

(** The shards of the previous manifest, as serving targets of a withdrawal of the zone or
    as shards to withdraw from. *)
Definition addPrevious (tombstone : bool) (configured : gmap gostring bool)
    (st : targetMap * targetMap) (t : ServingRegion) : targetMap * targetMap :=
  let '(byKey, withdrawn) := st in
  if tombstone then (addTarget byKey t, withdrawn)
  else if bool_decide (byKey !! targetKey t = None) && default false (configured !! targetKey t)
  then (byKey, addTarget withdrawn t) else st.

(** [publicationTargets]. *)
Definition publicationTargets (own : DNSPublicationOwnershipSpec) (contexts : list gostring) (tombstone : bool) :
    prog (result PublisherError (list ServingRegion * list ServingRegion)) :=
  r ← listProjectBindings;
  match r with
  | Err e => mret (Err e)
  | Ok bindings =>
      let bound := foldl addTarget ∅ (contexts ≫= λ c, boundTargets c bindings) in
      let byKey := if decide (bound = ∅)
                   then foldl addTarget ∅ (contexts ≫= λ c, selectServingTargets c bindings)
                   else bound in
      if decide (os_ActiveManifestName own = []) then mret (Ok (sortedTargets byKey, sortedTargets ∅))
      else
        r ← call (Get Manifest (op_PlatformNamespace o, os_ActiveManifestName own));
        match r with
        | Found previous =>
            let spec := manifestSpec previous in
            let configured := foldl (λ m t, <[targetKey t := local o (sr_Region t)]> m) ∅ (servingRegions o) in
            let '(byKey, withdrawn) :=
              foldl (addPrevious tombstone configured) (byKey, ∅) (targetOf <$> ms_ServingTargets spec) in
            let prior := (targetOf <$> ms_WithdrawnTargets spec)
              ++ (if decide (entry (o_Labels previous) withdrawalsTrackedLabel = managedObjectValue)
                  then [] else servingRegions o) in
            w ← addWithdrawals (os_ActiveManifestName own) byKey configured prior withdrawn;
            mret (match w with
                  | Err e => Err e
                  | Ok withdrawn => Ok (sortedTargets byKey, sortedTargets withdrawn)
                  end)
        | _ => mret (Err UKube)
        end
  end.

(** * Storing a publication *)

(** [createImmutable]: an object that exists must be the one to create. *)
Definition createImmutable (k : Kind) (n : Name) (labels : labelMap) (body : Body k)
    (same : Object k → bool) : prog (result PublisherError unit) :=
  r ← call (Create k n labels body);
  match r with
  | Found _ => mret (Ok tt)
  | AlreadyExists =>
      g ← call (Get k n);
      match g with
      | Found have => mret (if same have then Ok tt else Err UImmutable)
      | _ => mret (Err UKube)
      end
  | _ => mret (Err UKube)
  end.

Definition regionToken (t : ServingRegion) : gostring :=
  SafeToken (sr_Region t) ++ "-" ++ SafeToken (sr_Shard t).

(** [outbox]. *)
Definition publicationOutbox (subject zone : gostring) (epoch revision : Z) (manifest payload : gostring)
    (activation : bool) (deps : list gostring) : DNSTransportOutboxSpec :=
  {| ob_Subject := subject; ob_ResourceUID := zone; ob_WriterEpoch := epoch; ob_Revision := revision;
     ob_ManifestRef := manifest;
     ob_OwnershipRef := if activation then ownershipName zone else [];
     ob_PayloadHash := Hash payload; ob_Payload := payload; ob_Activation := activation;
     ob_DependsOn := deps |}.
Definition outboxLabels (t : ServingRegion) : labelMap :=
  {[ regionLabel := SafeToken (sr_Region t); shardLabel := SafeToken (sr_Shard t) ]}.

Definition createOutbox (t : ServingRegion) (name : gostring) (spec : DNSTransportOutboxSpec) :
    prog (result PublisherError unit) :=
  createImmutable TransportOutbox (op_PlatformNamespace o, name) (outboxLabels t) (spec, emptyStatus)
    (λ have, bool_decide (outboxSpec have = spec)).

(** What is published: its identity as [int64]s, as the API objects hold it. *)
Record Publication := {
  pb_zone : DNSZone;
  pb_name : gostring;
  pb_epoch : Z;
  pb_revision : Z;
  pb_previous : Z;
  pb_tombstone : bool;
  pb_payload : gostring;
  pb_hash : gostring;
  pb_now : Z;
}.
Definition identityOf (p : Publication) : PublicationIdentity :=
  {| pi_name := pb_name p; pi_zoneUID := z_UID (pb_zone p); pi_apex := z_DomainName (pb_zone p);
     pi_epoch := toUint64 (pb_epoch p); pi_revision := toUint64 (pb_revision p);
     pi_previous := toUint64 (pb_previous p); pi_now := pb_now p |}.

(** The envelope of an event of the publication. *)
Definition publicationEnvelope (p : Publication) (kind eventID : gostring) (t : ServingRegion)
    (payload : option json) : result WireError Envelope :=
  NewEnvelope kind eventID (sr_Region t) (sr_Shard t) (z_UID (pb_zone p)) (toUint64 (pb_epoch p))
    (toUint64 (pb_revision p)) (pb_now p) payload.

Definition chunkExportName (name : gostring) (i : nat) (t : ServingRegion) : gostring :=
  boundedName (chunkName name i ++ "-" ++ regionToken t ++ "-export").

Abbreviation depMap := (gmap gostring (list gostring)).
Definition addDep (m : depMap) (token name : gostring) : depMap :=
  <[token := default [] (m !! token) ++ [name]]> m.

(** The entries of a chunk, one per shard. *)
Fixpoint exportChunk (p : Publication) (i : nat) (part : gostring) (targets : list ServingRegion) (deps : depMap) :
    prog (result PublisherError depMap) :=
  match targets with
  | [] => mret (Ok deps)
  | t :: targets' =>
      match publicationEnvelope p KindPublicationChunk (regionToken t ++ ":" ++ chunkName (pb_name p) i) t
              (Some (PublicationChunk_json (wireChunk (identityOf p) i part))) with
      | Err e => mret (Err (UWire e))
      | Ok env =>
          let name := chunkExportName (pb_name p) i t in
          r ← createOutbox t name
                (publicationOutbox (RecordChunkSubject (sr_Region t) (sr_Shard t) (z_UID (pb_zone p)))
                   (z_UID (pb_zone p)) (pb_epoch p) (pb_revision p) (pb_name p)
                   (encode (Envelope_json env)) false []);
          match r with
          | Err e => mret (Err e)
          | Ok _ => exportChunk p i part targets' (addDep deps (regionToken t) name)
          end
      end
  end.

(** The loop over the chunks. *)
Fixpoint persistChunks (p : Publication) (i : nat) (parts : list gostring) (targets : list ServingRegion)
    (deps : depMap) : prog (result PublisherError depMap) :=
  match parts with
  | [] => mret (Ok deps)
  | part :: parts' =>
      let spec := {| pcs_WriterEpoch := pb_epoch p; pcs_Revision := pb_revision p;
                     pcs_Index := Z.of_nat i; pcs_SHA256 := Hash part; pcs_Payload := part |} in
      r ← createImmutable ChunkObject (op_PlatformNamespace o, chunkName (pb_name p) i) ∅ spec
            (λ have, bool_decide (chunkSpec have = spec));
      match r with
      | Err e => mret (Err e)
      | Ok _ =>
          r ← exportChunk p i part targets deps;
          match r with
          | Err e => mret (Err e)
          | Ok deps => persistChunks p (S i) parts' targets deps
          end
      end
  end.

(** The activations of a manifest, one per shard. *)
Fixpoint exportManifest (p : Publication) (m : PublicationManifest) (targets : list ServingRegion)
    (deps : ServingRegion → list gostring) : prog (result PublisherError unit) :=
  match targets with
  | [] => mret (Ok tt)
  | t :: targets' =>
      match publicationEnvelope p KindPublicationManifest (regionToken t ++ ":" ++ pb_name p) t
              (PublicationManifest_marshal m) with
      | Err e => mret (Err (UWire e))
      | Ok env =>
          r ← createOutbox t (PublicationActivationName (pb_name p) (sr_Region t) (sr_Shard t))
                (publicationOutbox (RecordManifestSubject (sr_Region t) (sr_Shard t) (z_UID (pb_zone p)))
                   (z_UID (pb_zone p)) (pb_epoch p) (pb_revision p) (pb_name p)
                   (encode (Envelope_json env)) true (deps t));
          match r with
          | Err e => mret (Err e)
          | Ok _ => exportManifest p m targets' deps
          end
      end
  end.

Definition manifestLabels (zone : gostring) : labelMap :=
  {[ "internal-dns.miloapis.com/zone-uid" := zone;
     "internal-dns.miloapis.com/project-uid" := op_ProjectUID o;
     withdrawalsTrackedLabel := managedObjectValue ]}.

(** The manifest object of a publication. *)
Definition manifestObject (p : Publication) (plan : option PublicationPlan)
    (targets withdrawn : list ServingRegion) (expected : list gostring) : DNSPublicationManifestSpec :=
  {| ms_ZoneRef := {| ref_Name := z_Name (pb_zone p); ref_UID := z_UID (pb_zone p) |};
     ms_ZoneApex := z_DomainName (pb_zone p);
     ms_ContextUIDs := match plan with Some q => pp_ContextUIDs q | None => [] end;
     ms_WriterEpoch := pb_epoch p; ms_Revision := pb_revision p; ms_PreviousRevision := pb_previous p;
     ms_Tombstone := pb_tombstone p;
     ms_Chunks := imap (λ i part, {| kr_Name := chunkName (pb_name p) i; kr_SHA256 := Hash part;
                                     kr_Size := Z.of_nat (length part) |})
                    (chunk (pb_payload p) (op_ChunkSize o));
     ms_ContentHash := pb_hash p; ms_GeneratedAt := metaTime (pb_now p);
     ms_ContributionFences :=
       match plan with
       | Some q => (λ f, {| dcf_UID := fe_UID f; dcf_Generation := fe_Generation f;
                            dcf_Sequence := fe_Sequence f; dcf_Retired := fe_Retired f;
                            dcf_SourceName := fe_SourceName f |}) <$> pp_Contributions q
       | None => []
       end;
     ms_RegistrationFences :=
       match plan with
       | Some q => (λ f, {| drf_UID := rgf_UID f; drf_Generation := rgf_Generation f |})
                     <$> pp_Registrations q
       | None => []
       end;
     ms_ServingTargets := apiTarget <$> targets; ms_WithdrawnTargets := apiTarget <$> withdrawn;
     ms_ExpectedRegions := expected |}.
Definition emptyManifestStatus : DNSPublicationManifestStatus :=
  {| mst_ExportState := []; mst_ExportedAt := None; mst_Conditions := [] |}.

(** [persistPublication]. *)
Definition persistPublication (p : Publication) (plan : option PublicationPlan)
    (targets withdrawn : list ServingRegion) (expected : list gostring) : prog (result PublisherError unit) :=
  let parts := chunk (pb_payload p) (op_ChunkSize o) in
  deps ← persistChunks p 0 parts targets ∅;
  match deps with
  | Err e => mret (Err e)
  | Ok deps =>
      let spec := manifestObject p plan targets withdrawn expected in
      r ← createImmutable Manifest (op_PlatformNamespace o, pb_name p) (manifestLabels (z_UID (pb_zone p)))
            (spec, emptyManifestStatus) (λ have, bool_decide (manifestSpec have = spec));
      match r with
      | Err e => mret (Err e)
      | Ok _ =>
          let m := (wirePublication (identityOf p) (pb_tombstone p) (pb_payload p) (pb_hash p)
                      (op_ChunkSize o)).1 in
          match PublicationManifest_Validate m with
          | Err e => mret (Err (UWire e))
          | Ok _ =>
              r ← exportManifest p m targets (λ t, default [] (deps !! regionToken t));
              match r with
              | Err e => mret (Err e)
              | Ok _ => exportManifest p (withdrawalManifest m) withdrawn (λ _, [])
              end
          end
      end
  end.

(** [tombstoneAcknowledged]. *)
Definition tombstoneAcknowledged (own : DNSPublicationOwnershipSpec) : prog bool :=
  if decide (os_ActiveManifestName own = []) then mret false
  else
    r ← call (Get Manifest (op_PlatformNamespace o, os_ActiveManifestName own));
    match r with
    | Found m =>
        let spec := manifestSpec m in
        mret (ms_Tombstone spec && bool_decide (ms_ZoneUID spec = os_ZoneUID own)
              && negb (os_WriterEpoch own <? ms_WriterEpoch spec)%Z
              && (bool_decide (ms_ServingTargets spec = [])
                  || match FindStatusCondition (mst_Conditions (manifestStatus m)) "Published" with
                     | Some c => bool_decide (c_Status c = ConditionTrue)
                     | None => false
                     end))
    | _ => mret false
    end.

(** * Compiling and committing *)

(** The regions the zone is served in, when each region has a control plane: those of the
    targets and, for a withdrawal, those of the previous manifest. *)
Definition regionsOf (targets : list ServingRegion) : list gostring := remove_dups (sr_Region <$> targets).

(** The hash of the state a publication describes. *)
Definition stateHash (plan : PublicationPlan) (payload : gostring) (targets : list ServingRegion)
    (expected : list gostring) : gostring :=
  let h := Hash (payload ++ encode (JArr (ContributionFence_json <$> pp_Contributions plan))) in
  let h := Hash (h ++ encode (JArr (ServingRegion_json <$> targets))) in
  if decide (expected = []) then h else Hash (h ++ encode (JArr (JStr <$> expected))).

(** Reserve a revision, store the publication and commit it. *)
Definition commitPublication (n : Name) (own : Object Ownership) (zone : DNSZone) (previous : Z)
    (tombstone : bool) (payload hash state : gostring) (plan : option PublicationPlan)
    (targets withdrawn : list ServingRegion) (expected : list gostring) (now : Z) :
    prog (result PublisherError bool) :=
  let spec := ownershipSpec own in
  let revision := if (os_NextRevision spec <=? 0)%Z then 1%Z else os_NextRevision spec in
  at_ ← call Clock;
  u ← patchLease n own (withRevision spec (wrap64 (revision + 1)) (at_ + op_LeaseDuration o));
  match u with
  | Err e => mret (Err e)
  | Ok own =>
      let spec := ownershipSpec own in
      let name := artifactName "pub" (z_UID zone) (os_WriterEpoch spec) revision in
      r ← persistPublication
            {| pb_zone := zone; pb_name := name; pb_epoch := os_WriterEpoch spec; pb_revision := revision;
               pb_previous := previous; pb_tombstone := tombstone; pb_payload := payload; pb_hash := hash;
               pb_now := now |} plan targets withdrawn expected;
      match r with
      | Err e => mret (Err e)
      | Ok _ =>
          at_ ← call Clock;
          u ← patchLease n own (withActive spec state name (at_ + op_LeaseDuration o));
          mret (match u with Ok _ => Ok false | Err e => Err e end)
      end
  end.

(** The expected regions and this control plane's own targets; [None] when there is nothing
    to publish or withdraw here. *)
Definition regionalTargets (own : DNSPublicationOwnershipSpec) (tombstone : bool) (targets : list ServingRegion) :
    prog (result PublisherError (option (list ServingRegion * list gostring))) :=
  if negb (regional o) then mret (Ok (Some (targets, [])))
  else
    let here := List.filter (λ t, local o (sr_Region t)) targets in
    let finish expected :=
      let expected := sortStrings expected in
      if bool_decide (here = []) && bool_decide (os_ActiveManifestName own = [])
      then mret (Ok None) else mret (Ok (Some (here, expected))) in
    if tombstone && bool_decide (os_ActiveManifestName own ≠ []) then
      r ← call (Get Manifest (op_PlatformNamespace o, os_ActiveManifestName own));
      match r with
      | Found m => finish (remove_dups (regionsOf targets ++ ms_ExpectedRegions (manifestSpec m)))
      | _ => mret (Err UKube)
      end
    else finish (regionsOf targets).

(** What is compiled: the plan, its encoding and the contexts; a zone that is being deleted
    is withdrawn. *)
Definition compilePayload (inputs : CompileInput) (tombstone : bool) (previous : option PublicationPlan) :
    result PublisherError (option PublicationPlan * gostring) :=
  if tombstone then Ok (None, [])
  else
    let inp := {| in_Zone := in_Zone inputs; in_Associations := in_Associations inputs;
                  in_AssociationReferences := in_AssociationReferences inputs;
                  in_RegistrationZoneReferences := in_RegistrationZoneReferences inputs;
                  in_Registrations := in_Registrations inputs;
                  in_Contributions := in_Contributions inputs;
                  in_StaticRecords := in_StaticRecords inputs; in_Previous := previous |} in
    match Compile today inp with
    | Some (Ok r) =>
        match WirePlan today (res_Plan r) with
        | Ok wire => Ok (Some (res_Plan r), encode (PublicationPlan_json wire))
        | Err e => Err (UPlan e)
        end
    | Some (Err e) => Err (UCompile e)
    | None => Err UStored
    end.

(** [compileZone]: [Ok true] when the zone is withdrawn everywhere.  Its inputs are the
    project's objects as they were read; the confirmation of missing contributions, the hold
    of regions, the session of cached inputs and the patches of input statuses, which write
    only those objects, are left out; a run that one of them ends early is one that stops. *)
Definition compileZone (zone : DNSZone) (own : Object Ownership) (inputs : CompileInput) (now : Z)
    (stopping : bool) : prog (result PublisherError bool) :=
  let n := ownershipKeyOf (z_UID zone) in
  let spec := ownershipSpec own in
  let tombstone := negb (bool_decide (z_DeletionTimestamp zone = None)) in
  previous ← loadPrevious spec;
  match previous with
  | Err e => mret (Err e)
  | Ok previous =>
      match compilePayload inputs tombstone previous with
      | Err e => mret (Err e)
      | Ok (plan, payload) =>
          t ← publicationTargets spec (match plan with Some q => pp_ContextUIDs q | None => [] end) tombstone;
          match t with
          | Err e => mret (Err e)
          | Ok (targets, withdrawn) =>
              r ← regionalTargets spec tombstone targets;
              match r with
              | Err e => mret (Err e)
              | Ok None => mret (Ok tombstone)
              | Ok (Some (targets, expected)) =>
                  let hash := if tombstone then EmptyContentHash else Hash payload in
                  let state := match plan with
                               | Some q => stateHash q payload targets expected
                               | None => EmptyContentHash
                               end in
                  a ← activeRevision spec;
                  match a with
                  | Err e => mret (Err e)
                  | Ok active =>
                      if (0 <? active)%Z && bool_decide (os_LastContentHash spec = state)
                      then b ← tombstoneAcknowledged spec; mret (Ok b)
                      else if stopping then mret (Ok false)
                      else commitPublication n own zone active tombstone payload hash state plan
                             targets withdrawn expected now
                  end
              end
          end
      end
  end.

(** A pass over a zone: hold it, then compile it. *)
Definition publishZone (zone : DNSZone) (inputs : CompileInput) : prog (result PublisherError bool) :=
  now ← call Clock;
  h ← holdOwnership (z_UID zone) false;
  match h with
  | Err e => mret (Err e)
  | Ok None => mret (Ok false)
  | Ok (Some own) => compileZone zone own inputs now false
  end.

(** A publisher process: one pass after the other, each with the objects it finds. *)
Fixpoint publish (passes : list (DNSZone * CompileInput)) : prog unit :=
  match passes with
  | [] => mret tt
  | (zone, inputs) :: passes' => _ ← publishZone zone inputs; publish passes'
  end.
End publisher.
