(* ===== verification/PublishInvariant.v ===== *)
(** What holds of the platform store while planners, publishers and outboxes share it.

    A shard's record and a zone's ownership only move forward.  Every outbox entry comes
    from a reservation: the snapshot of a shard's revision, or the chunks and activations
    of a zone's revision.  An entry that is acknowledged has been published.  The stream
    is in order ([gate]): a snapshot follows the manifests of its zones, and a manifest
    follows its chunks.  [inv] says so, and [rely] is what one process may count on while
    the others run. *)

From S2P Require Import Prelude GoStrings GoCrypto GoJson GoJsonDecode Api ApiMeta ReservedScopes.
From S2P Require Import WireModel Publication Capacity Compile CompileHistory WireDecode ApiStore.
From S2P Require Import ShardState ApiHistory Planner Outbox Publisher.

(** * Order *)

(** The order of writers. *)
Definition lexle (e r e' r' : Z) : Prop := (e < e' ∨ e = e' ∧ r ≤ r')%Z.

Lemma lexle_refl e r : lexle e r e r.
Proof. right. done. Qed.
Lemma lexle_trans e r e' r' e'' r'' : lexle e r e' r' → lexle e' r' e'' r'' → lexle e r e'' r''.
Proof. unfold lexle. lia. Qed.
Lemma Compare_lexle e r e' r' : (0 ≤ Compare e' r' e r)%Z ↔ lexle e r e' r'.
Proof.
  unfold Compare, lexle. destruct (Z.ltb_spec e' e), (Z.eqb_spec e' e), (Z.ltb_spec r' r), (Z.eqb_spec r' r);
    cbn; lia.
Qed.

(** The number of events so far. *)
Definition age (s : store) : Z := Z.of_nat (length (st_log s)).
Lemma age_later s s' : later s s' → (age s ≤ age s')%Z.
Proof. intros Hl. unfold age. apply prefix_length in Hl. lia. Qed.

Section protocol.
Context `{GoRuntime} `{ApiMeta} `{K8sValidation} `{MiekgDNS}.
Context (ns : gostring) (shards : list ServingRegion).

(** * Names *)

Definition recordName (token : gostring) : gostring := "dns-shard-owner-" ++ token.
Definition isRecord (n : Name) : Prop := n.1 = ns ∧ HasPrefix n.2 "dns-shard-owner-" = true.
Definition shardToken (region shard : gostring) : gostring := OpaqueToken (region ++ "/" ++ shard).
Definition manifestName (zone : gostring) (e r : Z) : gostring := artifactName "pub" zone e r.

Definition nextOf (cm : Object ConfigMap) : Z :=
  match readShardState cm with Some st => sh_NextRevision st | None => 0 end.
Definition nextRevision (own : Object Ownership) : Z := os_NextRevision (ownershipSpec own).
Definition shardOf (o : Object TransportOutbox) : gostring := entry (o_Labels o) shardOwnerLabel.

(** * Serving entries *)

Record Serving := {
  sv_region : gostring;
  sv_shard : gostring;
  sv_uid : gostring;
  sv_epoch : Z;
  sv_revision : Z;
  sv_now : Z;
  sv_snapshot : ServingSnapshot;
  sv_deps : list gostring;
}.
Definition sv_token (x : Serving) : gostring := shardToken (sv_region x) (sv_shard x).
Definition sv_name (x : Serving) : gostring :=
  servingName (sv_region x) (sv_shard x) (sv_epoch x) (sv_revision x).

(** The manifest [m] of the zone is or was active, and not before the revision. *)
Definition reached (s : store) (zone : gostring) (e r : Z) (m : gostring) : Prop :=
  ∃ own mo, wrote s Ownership (ns, ownershipName zone) own
    ∧ os_ActiveManifestName (ownershipSpec own) = m
    ∧ wrote s Manifest (ns, m) mo ∧ ms_ZoneUID (manifestSpec mo) = zone
    ∧ lexle e r (ms_WriterEpoch (manifestSpec mo)) (ms_Revision (manifestSpec mo)).

(** Every zone the snapshot attaches has an activation among the dependencies. *)
Definition covered (s : store) (x : Serving) : Prop :=
  ∀ b z, b ∈ elems (s_Bindings (sv_snapshot x)) → z ∈ elems (b_Zones b) → za_Pending z = false →
  ∃ m, reached s (za_ZoneUID z) (za_RequiredPublicationEpoch z) (za_RequiredPublicationRevision z) m
    ∧ PublicationActivationName m (sv_region x) (sv_shard x) ∈ sv_deps x.

Record serving_ok (s : store) (x : Serving) : Prop := {
  sv_wf : wf_Snapshot (sv_snapshot x) = true;
  sv_valid : ServingSnapshot_Validate (sv_snapshot x) = Ok tt;
  sv_text : text (sv_region x) = true ∧ text (sv_shard x) = true ∧ text (sv_uid x) = true;
  sv_time : marshalable (sv_now x) = true;
  sv_identity : s_Region (sv_snapshot x) = sv_region x ∧ s_Shard (sv_snapshot x) = sv_shard x
    ∧ s_ConfigurationEpoch (sv_snapshot x) = sv_epoch x
    ∧ s_ConfigurationRevision (sv_snapshot x) = sv_revision x;
  sv_below : ∃ cm st, wrote s ConfigMap (ns, recordName (sv_token x)) cm ∧ readShardState cm = Some st
    ∧ (sv_epoch x ≤ sh_Epoch st)%Z ∧ (sv_revision x < sh_NextRevision st)%Z ∧ o_UID cm = sv_uid x;
  sv_known : {| sr_Region := sv_region x; sr_Shard := sv_shard x |} ∈ shards;
  sv_covered : covered s x;
}.

(** The entry holds the snapshot. *)
Definition servingMade (x : Serving) (n : Name) (o : Object TransportOutbox) : Prop :=
  n = (ns, sv_name x) ∧ (1 ≤ sv_epoch x ∧ 1 ≤ sv_revision x)%Z ∧ shardOf o = recordName (sv_token x)
  ∧ ∃ env, NewEnvelope KindServingSnapshot (sv_name x) (sv_region x) (sv_shard x) (sv_uid x)
             (sv_epoch x) (sv_revision x) (sv_now x) (ServingSnapshot_marshal (sv_snapshot x)) = Ok env
    ∧ outboxSpec o = servingOutbox (sv_region x) (sv_shard x) (sv_uid x) (sv_epoch x) (sv_revision x)
                       (encode (Envelope_json env)) (sv_deps x).

(** * Publications *)

(** What a reservation of a zone publishes. *)
Record Making := {
  mk_pub : Publication;
  mk_size : Z;
}.
Definition mk_zone (k : Making) : gostring := z_UID (pb_zone (mk_pub k)).
Definition mk_name (k : Making) : gostring := pb_name (mk_pub k).
Definition mk_parts (k : Making) : list gostring := chunk (pb_payload (mk_pub k)) (mk_size k).
Definition mk_manifest (k : Making) : PublicationManifest :=
  (wirePublication (identityOf (mk_pub k)) (pb_tombstone (mk_pub k)) (pb_payload (mk_pub k))
     (pb_hash (mk_pub k)) (mk_size k)).1.

(** The ownership was at this epoch when this revision was taken. *)
Definition usedName (s : store) (m : gostring) : Prop :=
  ∃ n own, wrote s Ownership n own
    ∧ m = manifestName (os_ZoneUID (ownershipSpec own)) (os_WriterEpoch (ownershipSpec own))
            (os_NextRevision (ownershipSpec own) - 1).

Record making_ok (s : store) (zone : gostring) (r : Z) (k : Making) : Prop := {
  mo_zone : mk_zone k = zone;
  mo_revision : pb_revision (mk_pub k) = r;
  mo_name : mk_name k = manifestName zone (pb_epoch (mk_pub k)) r;
  mo_text : text zone = true ∧ text (z_DomainName (pb_zone (mk_pub k))) = true;
  mo_time : marshalable (pb_now (mk_pub k)) = true;
  mo_bounds : (1 ≤ pb_epoch (mk_pub k) < 2 ^ 63)%Z ∧ (1 ≤ r < 2 ^ 63)%Z
    ∧ (0 ≤ pb_previous (mk_pub k) < 2 ^ 63)%Z;
  mo_size : (0 < mk_size k < 2 ^ 63)%Z;
  mo_content : if pb_tombstone (mk_pub k) then pb_payload (mk_pub k) = [] ∧ pb_hash (mk_pub k) = EmptyContentHash
    else pb_payload (mk_pub k) ≠ [] ∧ pb_hash (mk_pub k) = Hash (pb_payload (mk_pub k));
  mo_used : ∃ own, wrote s Ownership (ns, ownershipName zone) own ∧ os_ZoneUID (ownershipSpec own) = zone
    ∧ os_WriterEpoch (ownershipSpec own) = pb_epoch (mk_pub k) ∧ os_NextRevision (ownershipSpec own) = (r + 1)%Z;
}.

(** An entry of a chunk and of a manifest. *)
Definition chunkMade (k : Making) (i : nat) (t : ServingRegion) (n : Name) (o : Object TransportOutbox) : Prop :=
  ∃ part env, mk_parts k !! i = Some part
    ∧ n = (ns, chunkExportName (mk_name k) i t)
    ∧ publicationEnvelope (mk_pub k) KindPublicationChunk (regionToken t ++ ":" ++ chunkName (mk_name k) i) t
        (Some (PublicationChunk_json (wireChunk (identityOf (mk_pub k)) i part))) = Ok env
    ∧ outboxSpec o = publicationOutbox (RecordChunkSubject (sr_Region t) (sr_Shard t) (mk_zone k)) (mk_zone k)
                       (pb_epoch (mk_pub k)) (pb_revision (mk_pub k)) (mk_name k)
                       (encode (Envelope_json env)) false [].
Definition activationMade (k : Making) (t : ServingRegion) (m : PublicationManifest) (deps : list gostring)
    (n : Name) (o : Object TransportOutbox) : Prop :=
  ∃ env, n = (ns, PublicationActivationName (mk_name k) (sr_Region t) (sr_Shard t))
    ∧ publicationEnvelope (mk_pub k) KindPublicationManifest (regionToken t ++ ":" ++ mk_name k) t
        (PublicationManifest_marshal m) = Ok env
    ∧ outboxSpec o = publicationOutbox (RecordManifestSubject (sr_Region t) (sr_Shard t) (mk_zone k))
                       (mk_zone k) (pb_epoch (mk_pub k)) (pb_revision (mk_pub k)) (mk_name k)
                       (encode (Envelope_json env)) true deps.

(** The object of a chunk. *)
Definition chunkAt (s : store) (m : gostring) (i : nat) : Prop :=
  ∃ c, wrote s ChunkObject (ns, chunkName m i) c ∧ pcs_Index (chunkSpec c) = Z.of_nat i.
Definition chunkStored (s : store) (k : Making) (i : nat) : Prop := chunkAt s (mk_name k) i.

(** The objects and entries of the chunks of a publication for a shard. *)
Definition chunksMade (s : store) (k : Making) (t : ServingRegion) (deps : list gostring) : Prop :=
  ∀ i part, mk_parts k !! i = Some part →
  chunkStored s k i ∧
  ∃ o, wrote s TransportOutbox (ns, chunkExportName (mk_name k) i t) o ∧ shardOf o = []
    ∧ chunkMade k i t (ns, chunkExportName (mk_name k) i t) o ∧ chunkExportName (mk_name k) i t ∈ deps.

(** An entry of the publication [k]. *)
Inductive pub_ok (s : store) (k : Making) (n : Name) (o : Object TransportOutbox) : Prop :=
| pub_chunk i t :
    t ∈ shards → chunkMade k i t n o → chunkStored s k i → pub_ok s k n o
| pub_manifest t deps mo :
    t ∈ shards → activationMade k t (mk_manifest k) deps n o → chunksMade s k t deps →
    PublicationManifest_Validate (mk_manifest k) = Ok tt →
    wrote s Manifest (ns, mk_name k) mo → pub_ok s k n o
| pub_withdrawal t deps mo :
    t ∈ shards → activationMade k t (withdrawalManifest (mk_manifest k)) deps n o →
    PublicationManifest_Validate (mk_manifest k) = Ok tt →
    wrote s Manifest (ns, mk_name k) mo → pub_ok s k n o.

(** Every entry, where [choice] gives the publication of each reservation. *)
Definition outbox_ok (s : store) (choice : gostring → Z → Making) (n : Name) (o : Object TransportOutbox) : Prop :=
  (∃ x, servingMade x n o ∧ serving_ok s x)
  ∨ (∃ zone r, shardOf o = [] ∧ making_ok s zone r (choice zone r) ∧ pub_ok s (choice zone r) n o).

(** * Records, ownerships and manifests *)

(** The rank a name of a snapshot or of a manifest shows. *)
Definition servingAt (name : gostring) (e r : Z) : Prop :=
  ∃ region shard, name = servingName region shard e r ∧ (0 ≤ e)%Z ∧ (0 ≤ r)%Z.
Definition manifestAt (name : gostring) (e r : Z) : Prop :=
  ∃ zone, name = manifestName zone e r ∧ (0 ≤ e)%Z ∧ (0 ≤ r)%Z.

(** The second name is not before the first. *)
Definition forward (at_ : gostring → Z → Z → Prop) (a b : gostring) : Prop :=
  ∀ e r, at_ a e r → ∃ e' r', at_ b e' r' ∧ (e ≤ e')%Z ∧ (r ≤ r')%Z.

Record record_ok (s : store) (n : Name) (cm : Object ConfigMap) (token : gostring) (st : shardState) : Prop := {
  rc_name : n = (ns, recordName token);
  rc_state : readShardState cm = Some st;
  rc_wf : wf_ShardState st = true;
  rc_uid : text (o_UID cm) = true;
  rc_next : (1 ≤ sh_NextRevision st ≤ age s)%Z;
  rc_epoch : (1 ≤ sh_Epoch st ≤ 2 ^ 38 + age s)%Z;
  rc_rank : ∀ e r, servingAt (sh_ActiveOutbox st) e r → (e ≤ sh_Epoch st ∧ r < sh_NextRevision st)%Z;
  rc_active : sh_ActiveOutbox st = [] ∨
    ∃ x o, wrote s TransportOutbox (ns, sh_ActiveOutbox st) o ∧ servingMade x (ns, sh_ActiveOutbox st) o
      ∧ sv_token x = token;
}.

(** The record moves forward. *)
Definition record_le (cm cur : Object ConfigMap) : Prop :=
  ∃ st st', readShardState cm = Some st ∧ readShardState cur = Some st' ∧ o_UID cm = o_UID cur
    ∧ (sh_Epoch st ≤ sh_Epoch st')%Z ∧ (sh_NextRevision st ≤ sh_NextRevision st')%Z
    ∧ forward servingAt (sh_ActiveOutbox st) (sh_ActiveOutbox st').

Record own_ok (s : store) (n : Name) (own : Object Ownership) : Prop := {
  ow_name : n = (ns, ownershipName (os_ZoneUID (ownershipSpec own)));
  ow_next : (1 ≤ os_NextRevision (ownershipSpec own) ≤ age s)%Z;
  ow_epoch : (1 ≤ os_WriterEpoch (ownershipSpec own) ≤ 2 ^ 38 + age s)%Z;
  ow_rank : ∀ e r, manifestAt (os_ActiveManifestName (ownershipSpec own)) e r →
    (e ≤ os_WriterEpoch (ownershipSpec own) ∧ r < os_NextRevision (ownershipSpec own))%Z;
  ow_active : os_ActiveManifestName (ownershipSpec own) = [] ∨
    ∃ mo, wrote s Manifest (ns, os_ActiveManifestName (ownershipSpec own)) mo
      ∧ ms_ZoneUID (manifestSpec mo) = os_ZoneUID (ownershipSpec own);
}.

Definition own_le (own cur : Object Ownership) : Prop :=
  let o := ownershipSpec own in
  let c := ownershipSpec cur in
  os_ZoneUID o = os_ZoneUID c ∧ (os_WriterEpoch o ≤ os_WriterEpoch c)%Z
  ∧ (os_NextRevision o ≤ os_NextRevision c)%Z
  ∧ forward manifestAt (os_ActiveManifestName o) (os_ActiveManifestName c).

Record manifest_ok (s : store) (n : Name) (mo : Object Manifest) : Prop := {
  mf_name : n = (ns, manifestName (ms_ZoneUID (manifestSpec mo)) (ms_WriterEpoch (manifestSpec mo))
                       (ms_Revision (manifestSpec mo)));
  mf_bounds : (1 ≤ ms_WriterEpoch (manifestSpec mo) < 2 ^ 63)%Z ∧ (1 ≤ ms_Revision (manifestSpec mo) < 2 ^ 63)%Z;
  mf_text : text (ms_ZoneUID (manifestSpec mo)) = true ∧ text (ms_ZoneApex (manifestSpec mo)) = true;
  mf_used : ∃ own, wrote s Ownership (ns, ownershipName (ms_ZoneUID (manifestSpec mo))) own
    ∧ os_ZoneUID (ownershipSpec own) = ms_ZoneUID (manifestSpec mo)
    ∧ os_WriterEpoch (ownershipSpec own) = ms_WriterEpoch (manifestSpec mo)
    ∧ os_NextRevision (ownershipSpec own) = (ms_Revision (manifestSpec mo) + 1)%Z;
  mf_targets : ∀ t, t ∈ ms_ServingTargets (manifestSpec mo) ++ ms_WithdrawnTargets (manifestSpec mo) →
    targetOf t ∈ shards;
}.

(** * Events *)

Definition manifestEvent (env : Envelope) (m : PublicationManifest) : Prop :=
  e_Kind env = KindPublicationManifest ∧ e_Payload env = Encoded (PublicationManifest_json m)
  ∧ dManifest zeroManifest (PublicationManifest_json m) = Some m
  ∧ e_ResourceUID env = pm_ZoneUID m ∧ e_Epoch env = pm_WriterEpoch m ∧ e_Revision env = pm_Revision m.
Definition chunkEvent (env : Envelope) (c : PublicationChunk) : Prop :=
  e_Kind env = KindPublicationChunk ∧ e_Payload env = Encoded (PublicationChunk_json c)
  ∧ dChunk zeroChunk (PublicationChunk_json c) = Some c
  ∧ e_ResourceUID env = pc_ZoneUID c ∧ e_Epoch env = pc_WriterEpoch c ∧ e_Revision env = pc_Revision c.
Definition snapshotEvent (env : Envelope) (x : ServingSnapshot) : Prop :=
  e_Kind env = KindServingSnapshot ∧ e_Payload env = Encoded (ServingSnapshot_json x)
  ∧ dSnapshot zeroSnapshot (ServingSnapshot_json x) = Some x
  ∧ e_Region env = s_Region x ∧ e_Shard env = s_Shard x
  ∧ e_Epoch env = s_ConfigurationEpoch x ∧ e_Revision env = s_ConfigurationRevision x.

(** Sent to the same shard. *)
Definition sameShard (env env' : Envelope) : Prop :=
  e_Region env = e_Region env' ∧ e_Shard env = e_Shard env'.

(** The shard's record named this snapshot as the one in force. *)
Definition snapshotCommitted (l : list (nat * event)) (env : Envelope) : Prop :=
  ∃ cm st, wroteIn l ConfigMap (shardOwnerName ns (e_Region env) (e_Shard env)) cm
    ∧ readShardState cm = Some st ∧ o_UID cm = e_ResourceUID env ∧ sh_Epoch st = e_Epoch env
    ∧ sh_ActiveOutbox st = servingName (e_Region env) (e_Shard env) (e_Epoch env) (e_Revision env).

(** The zone's ownership named this publication as the active one. *)
Definition publicationCommitted (l : list (nat * event)) (env : Envelope) : Prop :=
  ∃ own, wroteIn l Ownership (ns, ownershipName (e_ResourceUID env)) own
    ∧ os_ZoneUID (ownershipSpec own) = e_ResourceUID env
    ∧ os_ActiveManifestName (ownershipSpec own)
      = manifestName (e_ResourceUID env) (e_Epoch env) (e_Revision env).

(** What a published snapshot needs of what came before it. *)
Definition snapshotGate (l : list (nat * event)) (env : Envelope) (x : ServingSnapshot) : Prop :=
  ServingSnapshot_Validate x = Ok tt ∧ snapshotCommitted l env ∧
  ∀ b z, b ∈ elems (s_Bindings x) → z ∈ elems (b_Zones b) → za_Pending z = false →
  ∃ subject env' m, happened l subject env' ∧ manifestEvent env' m ∧ sameShard env env'
    ∧ pm_ZoneUID m = za_ZoneUID z
    ∧ lexle (za_RequiredPublicationEpoch z) (za_RequiredPublicationRevision z) (pm_WriterEpoch m) (pm_Revision m).

(** What a published manifest needs. *)
Definition manifestGate (l : list (nat * event)) (env : Envelope) (m : PublicationManifest) : Prop :=
  publicationCommitted l env ∧
  (pm_Tombstone m = true ∨
   ∃ chunks payload, VerifyManifest m chunks = Ok payload ∧
     ∀ c, c ∈ chunks → ∃ subject env', happened l subject env' ∧ chunkEvent env' c ∧ sameShard env env').

(** What is sent is an entry's. *)
Definition sentFrom (l : list (nat * event)) (env : Envelope) : Prop :=
  ∃ n out, n.1 = ns ∧ wroteIn l TransportOutbox n out ∧ entryEnvelope (outboxSpec out) = Some env.

Definition gate (l : list (nat * event)) (subject : gostring) (env : Envelope) : Prop :=
  subject = expectedSubject env ∧ sentFrom l env ∧
  ((∃ x, snapshotEvent env x ∧ snapshotGate l env x)
   ∨ (∃ m, manifestEvent env m ∧ manifestGate l env m)
   ∨ (∃ c, chunkEvent env c ∧ publicationCommitted l env)).

(** * The invariant *)

Definition ack_ok (s : store) (o : Object TransportOutbox) : Prop :=
  obs_State (outboxStatus o) = dnsValueAcknowledged →
  ∃ env, entryEnvelope (outboxSpec o) = Some env ∧ happened (st_log s) (ob_Subject (outboxSpec o)) env.

Definition binding_ok (b : Object ResolverBinding) : Prop :=
  let p := planBinding b in
  text (o_UID b) = true ∧ text (bs_ProjectUID p) = true ∧ text (ref_UID (bs_ResolverContextRef p)) = true
  ∧ text (bs_NodeAddress p) = true ∧ text (bs_RegionalAddress p) = true
  ∧ Forall (λ z, text (ref_UID z) = true) (bs_ZoneRefs p)
  ∧ map_Forall (λ _ apex, text apex = true) (bs_ZoneApices p).

(** A shard's revision is one entry. *)
Definition serving_unique (s : store) : Prop :=
  ∀ n n' o o' x x', wrote s TransportOutbox n o → wrote s TransportOutbox n' o' →
  servingMade x n o → servingMade x' n' o' → sv_token x = sv_token x' → sv_revision x = sv_revision x' →
  n = n' ∧ outboxSpec o = outboxSpec o'.

(** An entry is what it was made with as long as it lives. *)
Definition sameEntry (o o' : Object TransportOutbox) : Prop :=
  outboxSpec o = outboxSpec o' ∧ o_Labels o = o_Labels o'.

Record inv (s : store) : Prop := {
  i_versioned : versioned s;
  i_uids : ∀ k n (o : Object k), wrote s k n o → o_UID o ∈ st_uids s;
  i_lifetime : ∀ n o o', n.1 = ns → wrote s TransportOutbox n o → wrote s TransportOutbox n o' →
    o_UID o = o_UID o' → sameEntry o o';
  i_record : ∀ n cm, isRecord n → st_table s ConfigMap !! n = Some cm → wrote s ConfigMap n cm;
  i_own : ∀ n own, n.1 = ns → st_table s Ownership !! n = Some own → wrote s Ownership n own;
  i_manifest : ∀ n mo, n.1 = ns → st_table s Manifest !! n = Some mo → wrote s Manifest n mo;
  i_chunk : ∀ n c, n.1 = ns → st_table s ChunkObject !! n = Some c → wrote s ChunkObject n c;
  i_outbox : ∀ n o, n.1 = ns → st_table s TransportOutbox !! n = Some o → wrote s TransportOutbox n o;
  i_record_ok : ∀ n cm, isRecord n → wrote s ConfigMap n cm → ∃ token st, record_ok s n cm token st;
  i_record_le : ∀ n cm, isRecord n → wrote s ConfigMap n cm →
    ∃ cur, st_table s ConfigMap !! n = Some cur ∧ record_le cm cur;
  i_own_ok : ∀ n own, n.1 = ns → wrote s Ownership n own → own_ok s n own;
  i_own_le : ∀ n own, n.1 = ns → wrote s Ownership n own →
    ∃ cur, st_table s Ownership !! n = Some cur ∧ own_le own cur;
  i_manifest_ok : ∀ n mo, n.1 = ns → wrote s Manifest n mo → manifest_ok s n mo;
  i_outbox_ok : ∃ choice, ∀ n o, n.1 = ns → wrote s TransportOutbox n o → outbox_ok s choice n o;
  i_ack : ∀ n o, n.1 = ns → wrote s TransportOutbox n o → ack_ok s o;
  i_unique : serving_unique s;
  i_binding : ∀ n b, n.1 = ns → st_table s ResolverBinding !! n = Some b → binding_ok b;
  i_gate : ∀ before i subject env after,
    st_log s = before ++ (i, Published subject env) :: after → gate before subject env;
}.

(** * What a process counts on *)

(** The reservation the entry belongs to is the process's. *)
Definition reservedBy (s : store) (i : nat) (o : Object TransportOutbox) : Prop :=
  (∃ token, shardOf o = recordName token
     ∧ took ConfigMap nextOf s i (ns, recordName token) (ob_Revision (outboxSpec o)))
  ∨ (shardOf o = [] ∧ took Ownership nextRevision s i (ns, ownershipName (ob_ResourceUID (outboxSpec o)))
                        (ob_Revision (outboxSpec o))).

Definition rely (i : nat) (s s' : store) : Prop :=
  later s s' ∧
  ∀ n o, n.1 = ns → wrote s' TransportOutbox n o → reservedBy s i o →
    ∃ o', wrote s TransportOutbox n o' ∧ sameEntry o' o.

(** * What is assumed of a run *)

(** The names that are cut or hashed do not meet: the zones' tokens, and the names of the
    entries of the publications that are made.  The index of a chunk is an [int]. *)
Record apart (s : store) : Prop := {
  ap_zones : ∀ n n' own own', wrote s Ownership n own → wrote s Ownership n' own' →
    take 16 (OpaqueToken (os_ZoneUID (ownershipSpec own)))
      = take 16 (OpaqueToken (os_ZoneUID (ownershipSpec own'))) →
    os_ZoneUID (ownershipSpec own) = os_ZoneUID (ownershipSpec own');
  ap_activations : ∀ m m' t t', usedName s m → usedName s m' → t ∈ shards → t' ∈ shards →
    PublicationActivationName m (sr_Region t) (sr_Shard t)
      = PublicationActivationName m' (sr_Region t') (sr_Shard t') → m = m' ∧ t = t';
  ap_index : ∀ m i, chunkAt s m i → (Z.of_nat i < 2 ^ 63)%Z;
  ap_chunks : ∀ m m' i i' t t', usedName s m → usedName s m' → chunkAt s m i → chunkAt s m' i' →
    t ∈ shards → t' ∈ shards →
    chunkExportName m i t = chunkExportName m' i' t' → m = m' ∧ i = i' ∧ t = t';
  ap_kinds : ∀ m m' i t t', usedName s m → usedName s m' → chunkAt s m' i → t ∈ shards → t' ∈ shards →
    PublicationActivationName m (sr_Region t) (sr_Shard t) ≠ chunkExportName m' i t';
}.
Definition within (s : store) : Prop := (age s < 2 ^ 62)%Z ∧ apart s.

(** * Monotonicity *)

Lemma reached_later s s' zone e r m : later s s' → reached s zone e r m → reached s' zone e r m.
Proof. intros Hl (own & mo & Hw & Ha & Hm & Hr). exists own, mo. eauto 6 using wrote_later. Qed.

Lemma covered_later s s' x : later s s' → covered s x → covered s' x.
Proof. intros Hl Hc b z Hb Hz Hp. destruct (Hc b z Hb Hz Hp) as (m & Hm & ?). eauto using reached_later. Qed.

Lemma serving_ok_later s s' x : later s s' → serving_ok s x → serving_ok s' x.
Proof.
  intros Hl []. split; try done; [|by eapply covered_later].
  destruct sv_below0 as (cm & st & Hw & ?). exists cm, st. eauto using wrote_later.
Qed.

Lemma usedName_later s s' m : later s s' → usedName s m → usedName s' m.
Proof. intros Hl (n & own & Hw & ->). exists n, own. eauto using wrote_later. Qed.

Lemma making_ok_later s s' zone r k : later s s' → making_ok s zone r k → making_ok s' zone r k.
Proof.
  intros Hl []. split; try done. destruct mo_used0 as (own & Hw & ?). exists own. eauto using wrote_later.
Qed.

Lemma chunkAt_later s s' m i : later s s' → chunkAt s m i → chunkAt s' m i.
Proof. intros Hl (c & Hw & ?). exists c. eauto using wrote_later. Qed.
Lemma chunkStored_later s s' k i : later s s' → chunkStored s k i → chunkStored s' k i.
Proof. apply chunkAt_later. Qed.

Lemma chunksMade_later s s' k t deps : later s s' → chunksMade s k t deps → chunksMade s' k t deps.
Proof.
  intros Hl Hc i part Hp. destruct (Hc i part Hp) as (Hs & o & Hw & ?).
  split; [by eapply chunkStored_later|]. exists o. eauto using wrote_later.
Qed.

Lemma pub_ok_later s s' k n o : later s s' → pub_ok s k n o → pub_ok s' k n o.
Proof.
  intros Hl [].
  - eapply pub_chunk; eauto using chunkStored_later.
  - eapply pub_manifest; eauto using wrote_later, chunksMade_later.
  - eapply pub_withdrawal; eauto using wrote_later.
Qed.

Lemma outbox_ok_later s s' choice n o : later s s' → outbox_ok s choice n o → outbox_ok s' choice n o.
Proof.
  intros Hl [(x & Hx & Hok)|(zone & r & Hs & Hm & Hp)].
  - left. exists x. eauto using serving_ok_later.
  - right. exists zone, r. eauto using making_ok_later, pub_ok_later.
Qed.

Lemma record_ok_later s s' n cm token st : later s s' → record_ok s n cm token st → record_ok s' n cm token st.
Proof.
  intros Hl []. pose proof (age_later _ _ Hl). split; try done; [lia|lia|].
  destruct rc_active0 as [|(x & o & Hw & ?)]; [by left|]. right. exists x, o. eauto using wrote_later.
Qed.

Lemma own_ok_later s s' n own : later s s' → own_ok s n own → own_ok s' n own.
Proof.
  intros Hl []. pose proof (age_later _ _ Hl). split; try done; [lia|lia|].
  destruct ow_active0 as [|(mo & ? & ?)]; [by left|]. right. exists mo. eauto using wrote_later.
Qed.

Lemma manifest_ok_later s s' n mo : later s s' → manifest_ok s n mo → manifest_ok s' n mo.
Proof.
  intros Hl []. split; try done. destruct mf_used0 as (own & ? & ?). exists own. eauto using wrote_later.
Qed.

Lemma ack_ok_later s s' o : later s s' → ack_ok s o → ack_ok s' o.
Proof. intros Hl Ha Hs. destruct (Ha Hs) as (env & ? & ?). exists env. eauto using happened_later. Qed.

Lemma reservedBy_later s s' i o : later s s' → reservedBy s i o → reservedBy s' i o.
Proof.
  intros Hl [(token & ? & ?)|[? ?]]; [left|right].
  - exists token. eauto using took_later.
  - eauto using took_later.
Qed.

Lemma reservedBy_same s i o o' : sameEntry o o' → reservedBy s i o → reservedBy s i o'.
Proof. intros [Hs Hl]. unfold reservedBy, shardOf. by rewrite Hs, Hl. Qed.

Lemma rely_refl i s : rely i s s.
Proof. split; [done|]. intros n o _ Hw _. by exists o. Qed.
Lemma rely_trans i s1 s2 s3 : rely i s1 s2 → rely i s2 s3 → rely i s1 s3.
Proof.
  intros [Hl1 Hs1] [Hl2 Hs2]. split; [by etrans|]. intros n o Hn Hw Hr.
  destruct (Hs2 n o Hn Hw) as (o' & Hw' & Hsame); [by eapply reservedBy_later|].
  destruct (Hs1 n o' Hn Hw') as (o'' & Hw'' & Hsame').
  { eapply reservedBy_same; [|done]. by destruct Hsame. }
  exists o''. split; [done|]. destruct Hsame, Hsame'. split; congruence.
Qed.

Lemma apart_later s s' : later s s' → apart s' → apart s.
Proof.
  intros Hl []. split.
  - intros n n' own own' Hw Hw'. eapply ap_zones0; by eapply wrote_later.
  - intros m m' t t' Hm Hm'. eapply ap_activations0; by eapply usedName_later.
  - intros m i Hc. eapply ap_index0. by eapply chunkAt_later.
  - intros m m' i i' t t' Hm Hm' Hw Hw'.
    eapply ap_chunks0; first [by eapply usedName_later|by eapply chunkAt_later].
  - intros m m' i t t' Hm Hm' Hw. eapply ap_kinds0; first [by eapply usedName_later|by eapply chunkAt_later].
Qed.

Lemma within_later s s' : later s s' → within s' → within s.
Proof. intros Hl [Ha Hp]. split; [pose proof (age_later _ _ Hl); lia|by eapply apart_later]. Qed.

End protocol.
