(* ===== verification/PublishWire.v ===== *)
(** Names and envelopes of the publication protocol.

    The names of snapshots and manifests tell their revision apart, and an outbox entry
    gives back the envelope it was made from. *)

From S2P Require Import Prelude GoStrings GoCrypto GoJson GoJsonDecode Api ApiMeta ReservedScopes.
From S2P Require Import WireModel Publication Capacity Compile CompileHistory WireDecode ApiStore.
From S2P Require Import ShardState ApiHistory Planner Outbox Publisher.

(** * Names *)

(** Digits up to the first byte that is none. *)
Lemma digits_split (a a' b b' : gostring) :
  forallb isDigit a = true → forallb isDigit a' = true →
  (∀ c t, b = c :: t → isDigit c = false) → (∀ c t, b' = c :: t → isDigit c = false) →
  a ++ b = a' ++ b' → a = a' ∧ b = b'.
Proof.
  revert a'. induction a as [|x a IH]; intros [|y a']; cbn; intros Ha Ha' Hb Hb' Heq.
  - done.
  - apply andb_true_iff in Ha' as [Hy _]. rewrite (Hb _ _ Heq) in Hy. done.
  - apply andb_true_iff in Ha as [Hx _]. rewrite (Hb' _ _ (eq_sym Heq)) in Hx. done.
  - apply andb_true_iff in Ha as [_ Ha], Ha' as [_ Ha']. injection Heq as -> Heq.
    destruct (IH a' Ha Ha' Hb Hb' Heq) as [-> ->]. done.
Qed.

Lemma FormatUint_inj n m : (0 ≤ n)%Z → (0 ≤ m)%Z → FormatUint n = FormatUint m → n = m.
Proof.
  intros Hn Hm Heq. destruct (FormatUint_spec n Hn) as (_ & _ & <-), (FormatUint_spec m Hm) as (_ & _ & <-).
  by rewrite Heq.
Qed.

(** Epoch and revision, as the names end with them. *)
Lemma ranks_inj e r e' r' :
  (0 ≤ e)%Z → (0 ≤ r)%Z → (0 ≤ e')%Z → (0 ≤ r')%Z →
  "-e" ++ FormatUint e ++ "-r" ++ FormatUint r = "-e" ++ FormatUint e' ++ "-r" ++ FormatUint r' →
  e = e' ∧ r = r'.
Proof.
  intros He Hr He' Hr' Heq. apply app_inv_head in Heq.
  apply digits_split in Heq as [Hee Heq].
  - apply app_inv_head in Heq. eauto using FormatUint_inj.
  - by apply FormatUint_spec.
  - by apply FormatUint_spec.
  - by intros c t [= <- _].
  - by intros c t [= <- _].
Qed.

Lemma length_OpaqueToken s : length (OpaqueToken s) = 24.
Proof. unfold OpaqueToken. rewrite length_EncodeToString, length_take, length_Sum256. done. Qed.

Lemma servingName_inj region shard e r region' shard' e' r' :
  (0 ≤ e)%Z → (0 ≤ r)%Z → (0 ≤ e')%Z → (0 ≤ r')%Z →
  servingName region shard e r = servingName region' shard' e' r' →
  OpaqueToken (region ++ "/" ++ shard) = OpaqueToken (region' ++ "/" ++ shard') ∧ e = e' ∧ r = r'.
Proof.
  intros ? ? ? ? Heq. unfold servingName, servingPrefix in Heq. rewrite <- !(assoc_L (++)) in Heq.
  apply app_inv_head in Heq. apply app_inj_1 in Heq as [Ht Heq]; [|by rewrite !length_OpaqueToken].
  split; [done|]. by apply ranks_inj.
Qed.

Lemma artifactName_inj p zone e r zone' e' r' :
  (0 ≤ e)%Z → (0 ≤ r)%Z → (0 ≤ e')%Z → (0 ≤ r')%Z →
  artifactName p zone e r = artifactName p zone' e' r' →
  take 16 (OpaqueToken zone) = take 16 (OpaqueToken zone') ∧ e = e' ∧ r = r'.
Proof.
  intros ? ? ? ? Heq. unfold artifactName in Heq. rewrite !FormatInt_nonneg in Heq by done.
  apply app_inv_head in Heq. apply app_inv_head in Heq.
  apply app_inj_1 in Heq as [Ht Heq]; [|by rewrite !length_take, !length_OpaqueToken].
  split; [done|]. by apply ranks_inj.
Qed.

Lemma ownershipName_inj zone zone' :
  ownershipName zone = ownershipName zone' → take 16 (OpaqueToken zone) = take 16 (OpaqueToken zone').
Proof.
  unfold ownershipName. intros Heq. apply app_inv_head in Heq.
  apply (f_equal (take 16)) in Heq. by rewrite !take_take in Heq.
Qed.

(** The entries of publications begin with a [p], those of snapshots with a [d]. *)
Lemma TrimByte_head c x s : c ≠ x → ∃ t, TrimByte (c :: s) x = c :: t.
Proof.
  intros Hc. unfold TrimByte, TrimRightByte. cbn [trimLeftByte].
  destruct (Ascii.eqb_spec c x); [done|]. cbn [rev].
  assert (∀ l, ∃ t, rev (trimLeftByte x (l ++ [c])) = c :: t) as Hl; [|apply Hl].
  induction l as [|y l IH]; cbn.
  - destruct (Ascii.eqb_spec c x); [done|]. by exists [].
  - destruct (Ascii.eqb y x); [done|]. cbn. rewrite rev_app_distr. cbn. eauto.
Qed.

Section tokens.
Context `{GoRuntime}.

Lemma boundedName_head c s : c ≠ "-"%char → ∃ t, boundedName (c :: s) = c :: t.
Proof.
  intros Hc. unfold boundedName. case_match; [by apply TrimByte_head|].
  destruct (TrimByte_head c "-" (take 49 s) Hc) as [t Ht]. cbn [take]. rewrite Ht. by eexists.
Qed.

Lemma activationName_head zone e r region shard :
  ∃ t, PublicationActivationName (artifactName "pub" zone e r) region shard = "p"%char :: t.
Proof.
  unfold PublicationActivationName. case_match; [by apply TrimByte_head|].
  match goal with |- ∃ t, TrimByte (take 50 ?s) _ ++ _ = _ => assert (∃ s', s = "p"%char :: s') as [s' ->] end.
  { by eexists. }
  destruct (TrimByte_head "p" "-" (take 49 s')) as [t Ht]; [done|]. cbn [take]. rewrite Ht. by eexists.
Qed.

Lemma chunkExportName_head zone e r i t :
  ∃ x, chunkExportName (artifactName "pub" zone e r) i t = "p"%char :: x.
Proof. by apply boundedName_head. Qed.

Lemma servingName_head region shard e r : ∃ t, servingName region shard e r = "d"%char :: t.
Proof. by eexists. Qed.

(** * Text *)

Lemma text_ascii s : ascii_string s = true → text s = true.
Proof. intros Hs. apply bool_decide_eq_true_2. by apply clean_ascii. Qed.

Lemma ascii_hex s : forallb isHexDigit s = true → ascii_string s = true.
Proof. apply forallb_impl. intros c. bytecases c; done. Qed.
Lemma ascii_digits s : forallb isDigit s = true → ascii_string s = true.
Proof. apply forallb_impl. intros c. bytecases c; done. Qed.
Lemma ascii_app s t : ascii_string s = true → ascii_string t = true → ascii_string (s ++ t) = true.
Proof. unfold ascii_string. rewrite forallb_app. by intros -> ->. Qed.

Lemma OpaqueToken_ascii s : ascii_string (OpaqueToken s) = true.
Proof. apply ascii_hex, EncodeToString_hex, Forall_take, Sum256_range. Qed.
Lemma Hash_ascii s : ascii_string (Hash s) = true.
Proof. apply ascii_hex, EncodeToString_hex, Sum256_range. Qed.
Lemma FormatUint_ascii n : (0 ≤ n)%Z → ascii_string (FormatUint n) = true.
Proof. intros Hn. apply ascii_digits. by apply FormatUint_spec. Qed.

Lemma ascii_take n s : ascii_string s = true → ascii_string (take n s) = true.
Proof. unfold ascii_string. rewrite !forallb_Forall. apply Forall_take. Qed.

Lemma artifactName_ascii zone e r : (0 ≤ e)%Z → (0 ≤ r)%Z → ascii_string (artifactName "pub" zone e r) = true.
Proof.
  intros He Hr. unfold artifactName. rewrite !FormatInt_nonneg by done.
  repeat apply ascii_app; try done; [apply ascii_take, OpaqueToken_ascii|by apply FormatUint_ascii..].
Qed.

Lemma servingName_ascii region shard e r :
  (0 ≤ e)%Z → (0 ≤ r)%Z → ascii_string (servingName region shard e r) = true.
Proof.
  intros He Hr. unfold servingName, servingPrefix.
  repeat apply ascii_app; try done; [apply OpaqueToken_ascii|by apply FormatUint_ascii..].
Qed.

Lemma chunkName_ascii name i : ascii_string name = true → ascii_string (chunkName name i) = true.
Proof.
  intros Hn. unfold chunkName, pad3. repeat apply ascii_app; try done.
  - by induction (3 - _).
  - rewrite FormatInt_nonneg by lia. apply FormatUint_ascii. lia.
Qed.

Lemma trimLeftByte_sub c s x : x ∈ trimLeftByte c s → x ∈ s.
Proof. induction s as [|y s IH]; cbn; [done|]. case_match; [right; by apply IH|done]. Qed.

Lemma SafeToken_ascii s : ascii_string (SafeToken s) = true.
Proof.
  unfold SafeToken. case_decide; [done|]. apply forallb_Forall, Forall_forall. intros c Hc.
  assert (c ∈ replaceUnsafe false (ToLower s)) as Hin.
  { unfold TrimByte, TrimRightByte in Hc. rewrite list_elem_of_In, <- in_rev, <- list_elem_of_In in Hc.
    apply trimLeftByte_sub in Hc. rewrite list_elem_of_In, <- in_rev, <- list_elem_of_In in Hc.
    by apply trimLeftByte_sub in Hc. }
  assert (∀ l b, c ∈ replaceUnsafe b l → isASCII c = true) as Hl; [|by eapply Hl].
  clear. induction l as [|x l IH]; intros b; cbn; [by intros ?%elem_of_nil|].
  destruct (safeByte x) eqn:Hx.
  - intros [->|?]%elem_of_cons; [|by eapply IH]. revert Hx. bytecases x; done.
  - destruct b; [by apply IH|]. intros [->|?]%elem_of_cons; [done|by eapply IH].
Qed.

Lemma regionToken_ascii t : ascii_string (regionToken t) = true.
Proof. unfold regionToken. repeat apply ascii_app; try done; apply SafeToken_ascii. Qed.
End tokens.

(** * Entries *)

Lemma toUint64_id z : (0 ≤ z < 2 ^ 64)%Z → toUint64 z = z.
Proof. apply Z.mod_small. Qed.

Section entries.
Context `{GoRuntime} `{MiekgDNS}.

Lemma NewEnvelope_Ok kind id region shard uid e r now payload env :
  NewEnvelope kind id region shard uid e r now payload = Ok env →
  ∃ j, payload = Some j ∧ env = envelopeOf kind id region shard uid e r now j ∧ Envelope_Validate env = Ok tt.
Proof.
  unfold NewEnvelope. destruct payload as [j|]; [|done]. rewrite bind_Ok.
  intros ([] & Hv & [= <-]). by exists j.
Qed.

Lemma Envelope_Validate_safe env :
  Envelope_Validate env = Ok tt →
  SafeToken (e_Region env) = e_Region env ∧ SafeToken (e_Shard env) = e_Shard env.
Proof.
  unfold Envelope_Validate. rewrite !refuse_bind. intros (_ & Hs & _).
  rewrite orb_false_iff, !bool_decide_eq_false in Hs. destruct Hs as [Hr Hs]. split; apply dec_stable; done.
Qed.

(** An entry made from an envelope gives it back. *)
Lemma entryEnvelope_made kind id region shard uid e r now j d env spec :
  NewEnvelope kind id region shard uid e r now (Some j) = Ok env →
  text kind = true → text id = true → text region = true → text shard = true → text uid = true →
  (0 ≤ e < 2 ^ 64)%Z → (0 ≤ r < 2 ^ 64)%Z → marshalable now = true → faithful d j → d ≤ 9 →
  ob_Payload spec = encode (Envelope_json env) → ob_PayloadHash spec = Hash (ob_Payload spec) →
  ob_ResourceUID spec = uid → toUint64 (ob_WriterEpoch spec) = e → toUint64 (ob_Revision spec) = r →
  ob_Subject spec = expectedSubject env →
  entryEnvelope spec = Some env.
Proof.
  intros Hnew Hk Hid Hreg Hsh Hu He Hr Hm Hf Hd Hp Hh Huid Hep Hrv Hsub.
  apply NewEnvelope_Ok in Hnew as (j' & [= <-] & Henv & Hv).
  assert (wf_Envelope env = true) as Hwf.
  { rewrite Henv. unfold wf_Envelope. cbn [e_APIVersion e_Kind e_EventID e_Region e_Shard e_ResourceUID e_Epoch
      e_Revision e_PublishedAt envelopeOf]. rewrite Hk, Hid, Hreg, Hsh, Hu, Hm.
    assert (fits 64 e = true) as -> by (unfold fits; lia).
    assert (fits 64 r = true) as -> by (unfold fits; lia).
    assert (text APIVersion = true) as -> by by vm_compute. done. }
  unfold entryEnvelope. rewrite Hh, Hp, bool_decide_eq_false_2 by tauto.
  rewrite (travels_Unmarshal dEnvelope zeroEnvelope Envelope_json (S d) env); [|eapply travels_Envelope; [done|by rewrite Henv|done]|lia].
  cbn [mbind option_bind]. rewrite Hv, Huid, Hep, Hrv, <- Hsub, Henv.
  cbn [e_ResourceUID e_Epoch e_Revision envelopeOf]. rewrite !Z.eqb_refl, !bool_decide_eq_false_2 by tauto. done.
Qed.
End entries.
