(* ===== verification/PublishEvents.v ===== *)
(** What the entries of the outbox publish.

    Under the invariant an entry holds one envelope, which is the snapshot, the manifest or
    the chunk it was made for, and its name says which.  From this follows that an entry may
    be published once its dependencies have been ([gate_entry]). *)

From S2P Require Import Prelude GoStrings GoCrypto GoJson GoJsonDecode Api ApiMeta ReservedScopes.
From S2P Require Import WireModel Publication Capacity Compile CompileHistory WireDecode ApiStore.
From S2P Require Import ShardState ApiHistory Planner Outbox Publisher PublishInvariant PublishWire.

Ltac envelope_fields := cbn [e_APIVersion e_Kind e_EventID e_Region e_Shard e_ResourceUID e_Epoch e_Revision
  e_PublishedAt e_Payload envelopeOf].

Section events.
Context `{GoRuntime} `{ApiMeta} `{K8sValidation} `{MiekgDNS}.
Context (ns : gostring) (shards : list ServingRegion).
Abbreviation inv := (inv ns shards).
Abbreviation serving_ok := (serving_ok ns shards).
Abbreviation servingMade := (servingMade ns).
Abbreviation making_ok := (making_ok ns).
Abbreviation pub_ok := (pub_ok ns shards).
Abbreviation outbox_ok := (outbox_ok ns shards).
Abbreviation within := (within ns shards).

Lemma toUint64_wrap64 z : (0 ≤ z < 2 ^ 64)%Z → toUint64 (wrap64 z) = z.
Proof. intros Hz. unfold toUint64, wrap64. Z.to_euclidean_division_equations. lia. Qed.

Lemma validated_text env : Envelope_Validate env = Ok tt → text (e_Region env) = true ∧ text (e_Shard env) = true.
Proof.
  intros [Hr Hs]%Envelope_Validate_safe. rewrite <- Hr, <- Hs. split; apply text_ascii, SafeToken_ascii.
Qed.

(** ** Snapshots *)

Lemma serving_envelope s x n o :
  servingMade x n o → serving_ok s x →
  ∃ env, entryEnvelope (outboxSpec o) = Some env ∧ snapshotEvent env (sv_snapshot x)
    ∧ e_ResourceUID env = sv_uid x ∧ e_Region env = sv_region x ∧ e_Shard env = sv_shard x
    ∧ e_Epoch env = sv_epoch x ∧ e_Revision env = sv_revision x.
Proof.
  intros (-> & [He Hr] & _ & env & Hnew & Hspec) []. destruct sv_text as (Hreg & Hsh & Huid).
  destruct sv_identity as (Hir & His & Hie & Hirv).
  pose proof (travels_Snapshot _ sv_wf) as [Hread Hf].
  assert (marshalable (s_GeneratedAt (sv_snapshot x)) = true) as Hmar
    by (unfold wf_Snapshot in sv_wf; rewrite !andb_true_iff in sv_wf; tauto).
  assert (0 ≤ sv_epoch x < 2 ^ 64 ∧ 0 ≤ sv_revision x < 2 ^ 64)%Z as [He' Hr'].
  { unfold wf_Snapshot in sv_wf. rewrite Hie, Hirv, !andb_true_iff in sv_wf.
    destruct sv_wf as ((((((((_ & _) & Hf1) & Hf2) & _) & _) & _) & _) & _).
    apply fits_range in Hf1, Hf2. lia. }
  unfold ServingSnapshot_marshal in Hnew. rewrite Hmar in Hnew.
  pose proof Hnew as (j & [= <-] & Henv & Hv)%NewEnvelope_Ok.
  exists env. split.
  - eapply entryEnvelope_made; [exact Hnew|..]; try done.
    + apply text_ascii, servingName_ascii; lia.
    + lia.
    + by rewrite Hspec.
    + by rewrite Hspec.
    + by rewrite Hspec.
    + rewrite Hspec. by apply toUint64_wrap64.
    + rewrite Hspec. by apply toUint64_wrap64.
    + rewrite Hspec, Henv. done.
  - rewrite Henv. unfold snapshotEvent. envelope_fields. rewrite Hir, His, Hie, Hirv. split_and!; done.
Qed.

(** ** Publications *)

Lemma identity_epochs s zone r k :
  making_ok s zone r k →
  toUint64 (pb_epoch (mk_pub k)) = pb_epoch (mk_pub k) ∧ toUint64 (pb_revision (mk_pub k)) = r
  ∧ (0 ≤ pb_epoch (mk_pub k) < 2 ^ 64)%Z ∧ (0 ≤ r < 2 ^ 64)%Z.
Proof. intros []. rewrite !toUint64_id; lia. Qed.

Lemma making_name_ascii s zone r k : making_ok s zone r k → ascii_string (mk_name k) = true.
Proof. intros []. rewrite mo_name. apply artifactName_ascii; lia. Qed.

Lemma chunk_envelope s zone r k i t n o :
  making_ok s zone r k → chunkMade ns k i t n o → (Z.of_nat i < 2 ^ 63)%Z →
  ∃ env part, mk_parts k !! i = Some part ∧ entryEnvelope (outboxSpec o) = Some env
    ∧ chunkEvent env (wireChunk (identityOf (mk_pub k)) i part)
    ∧ e_ResourceUID env = zone ∧ e_Region env = sr_Region t ∧ e_Shard env = sr_Shard t
    ∧ e_Epoch env = pb_epoch (mk_pub k) ∧ e_Revision env = r.
Proof.
  intros Hm (part & env & Hpart & -> & Hnew & Hspec) Hi.
  pose proof (identity_epochs _ _ _ _ Hm) as (He & Hr & Heb & Hrb).
  pose proof (making_name_ascii _ _ _ _ Hm) as Hname. destruct Hm. subst zone.
  destruct mo_text as [Hz _].
  assert (wf_Chunk (wireChunk (identityOf (mk_pub k)) i part) = true) as Hwf.
  { unfold wf_Chunk. cbn [wireChunk identityOf pi_name pi_zoneUID pi_epoch pi_revision pc_ManifestUID pc_ZoneUID
      pc_WriterEpoch pc_Revision pc_Index pc_SHA256]. rewrite He, Hr. unfold mk_zone, mk_name in *.
    rewrite (text_ascii _ Hname), Hz, (text_ascii _ (Hash_ascii _)).
    unfold fits, fitsInt. lia. }
  pose proof (travels_Chunk _ Hwf) as [Hread Hf].
  unfold publicationEnvelope in Hnew. rewrite He, Hr in Hnew.
  pose proof Hnew as (j & [= <-] & Henv & Hv)%NewEnvelope_Ok.
  pose proof (validated_text _ Hv) as [Hreg Hsh]. rewrite Henv in Hreg, Hsh. cbn [e_Region e_Shard envelopeOf] in Hreg, Hsh.
  exists env, part. split; [done|]. split.
  - eapply entryEnvelope_made; [exact Hnew|..]; try done.
    + apply text_ascii, ascii_app; [apply regionToken_ascii|]. apply ascii_app; [done|by apply chunkName_ascii].
    + lia.
    + by rewrite Hspec.
    + by rewrite Hspec.
    + by rewrite Hspec.
    + by rewrite Hspec.
    + by rewrite Hspec.
    + rewrite Hspec, Henv. done.
  - rewrite Henv. unfold chunkEvent. envelope_fields.
    cbn [wireChunk identityOf pi_zoneUID pi_epoch pi_revision pc_ZoneUID pc_WriterEpoch pc_Revision]. rewrite He, Hr. split_and!; done.
Qed.

Lemma chunk_length p size i part :
  (0 < size)%Z → chunk p size !! i = Some part → (Z.of_nat (length part) ≤ size)%Z.
Proof.
  intros Hs Hp. pose proof (chunkFrom_size (length p) p size Hs) as Hall. rewrite Forall_lookup in Hall.
  specialize (Hall i part Hp). cbn in Hall. lia.
Qed.

(** The manifests of a publication are read back. *)
Lemma wireManifest_wf s zone r k tombstone refs hash :
  making_ok s zone r k → forallb wf_ChunkRef refs = true → text hash = true →
  wf_Manifest (wireManifest (identityOf (mk_pub k)) tombstone refs hash) = true.
Proof.
  intros Hm Hrefs Hhash. pose proof (identity_epochs _ _ _ _ Hm) as (He & Hr & Heb & Hrb).
  pose proof (making_name_ascii _ _ _ _ Hm) as Hname. destruct Hm. subst zone. destruct mo_text as [Hz Ha].
  unfold wf_Manifest. cbn [wireManifest identityOf pi_name pi_zoneUID pi_apex pi_epoch pi_revision pi_previous
    pi_now pm_ManifestUID pm_ZoneUID pm_Apex pm_WriterEpoch pm_Revision pm_PreviousRevision pm_Chunks
    pm_ContentHash pm_GeneratedAt]. rewrite He, Hr, mo_time. unfold mk_zone, mk_name in *.
  rewrite (text_ascii _ Hname), Hz, Ha, Hrefs, Hhash, toUint64_id by lia. unfold fits. lia.
Qed.

Lemma manifest_wf s zone r k :
  making_ok s zone r k → (∀ i part, mk_parts k !! i = Some part → (Z.of_nat i < 2 ^ 63)%Z) →
  wf_Manifest (mk_manifest k) = true.
Proof.
  intros Hm Hi. eapply wireManifest_wf; [done|..]; destruct Hm.
  - apply forallb_Forall, Forall_lookup. intros i ref Hl. rewrite list_lookup_imap in Hl.
    destruct (chunk _ _ !! i) as [part|] eqn:Hp; [|done]. injection Hl as <-.
    pose proof (Hi i part Hp). pose proof (chunk_length _ _ _ _ (proj1 mo_size) Hp).
    unfold wf_ChunkRef. cbn [wireRef cr_Index cr_SHA256 cr_Size].
    rewrite (text_ascii _ (Hash_ascii _)). unfold fitsInt. lia.
  - destruct (pb_tombstone _); destruct mo_content as [_ ->]; apply text_ascii, Hash_ascii.
Qed.

Lemma withdrawal_wf s zone r k : making_ok s zone r k → wf_Manifest (withdrawalManifest (mk_manifest k)) = true.
Proof. intros Hm. by eapply (wireManifest_wf s zone r k true []); [|done|apply text_ascii, Hash_ascii]. Qed.

Lemma activation_envelope s zone r k t m deps n o :
  making_ok s zone r k → activationMade ns k t m deps n o →
  wf_Manifest m = true → pm_ZoneUID m = zone → pm_WriterEpoch m = pb_epoch (mk_pub k) → pm_Revision m = r →
  ∃ env, entryEnvelope (outboxSpec o) = Some env ∧ manifestEvent env m
    ∧ e_ResourceUID env = zone ∧ e_Region env = sr_Region t ∧ e_Shard env = sr_Shard t
    ∧ e_Epoch env = pb_epoch (mk_pub k) ∧ e_Revision env = r.
Proof.
  intros Hm (env & -> & Hnew & Hspec) Hwf Hmz Hme Hmr.
  pose proof (identity_epochs _ _ _ _ Hm) as (He & Hr & Heb & Hrb).
  pose proof (making_name_ascii _ _ _ _ Hm) as Hname. destruct Hm. subst zone. destruct mo_text as [Hz _].
  pose proof (travels_Manifest _ Hwf) as [Hread Hf].
  assert (marshalable (pm_GeneratedAt m) = true) as Hg.
  { unfold wf_Manifest in Hwf. rewrite !andb_true_iff in Hwf. tauto. }
  unfold PublicationManifest_marshal in Hnew. rewrite Hg in Hnew.
  unfold publicationEnvelope in Hnew. rewrite He, Hr in Hnew.
  pose proof Hnew as (j & [= <-] & Henv & Hv)%NewEnvelope_Ok.
  pose proof (validated_text _ Hv) as [Hreg Hsh]. rewrite Henv in Hreg, Hsh. cbn [e_Region e_Shard envelopeOf] in Hreg, Hsh.
  exists env. split.
  - eapply entryEnvelope_made; [exact Hnew|..]; try done.
    + apply text_ascii, ascii_app; [apply regionToken_ascii|]. by apply ascii_app.
    + lia.
    + by rewrite Hspec.
    + by rewrite Hspec.
    + by rewrite Hspec.
    + by rewrite Hspec.
    + by rewrite Hspec.
    + rewrite Hspec, Henv. done.
  - rewrite Henv. unfold manifestEvent. envelope_fields. rewrite Hmz, Hme, Hmr. split_and!; done.
Qed.

(** ** Names *)

Definition owned (s : store) (zone : gostring) : Prop :=
  ∃ n own, wrote s Ownership n own ∧ os_ZoneUID (ownershipSpec own) = zone.

Lemma owned_same s zone zone' :
  within s → owned s zone → owned s zone' → take 16 (OpaqueToken zone) = take 16 (OpaqueToken zone') →
  zone = zone'.
Proof. intros [_ []] (n & own & Hw & <-) (n' & own' & Hw' & <-). by eapply ap_zones. Qed.

Lemma manifestName_same s zone e r zone' e' r' :
  within s → owned s zone → owned s zone' → (0 ≤ e ∧ 0 ≤ r)%Z → (0 ≤ e' ∧ 0 ≤ r')%Z →
  manifestName zone e r = manifestName zone' e' r' → zone = zone' ∧ e = e' ∧ r = r'.
Proof.
  intros Hw Ho Ho' [? ?] [? ?] (Ht & -> & ->)%artifactName_inj; try done. split; [|done].
  by eapply owned_same.
Qed.

Lemma making_owned s zone r k : making_ok s zone r k → owned s zone.
Proof. intros []. destruct mo_used as (own & ? & ? & _). by eexists _, own. Qed.
Lemma making_used s zone r k : making_ok s zone r k → usedName s (mk_name k).
Proof.
  intros []. destruct mo_used as (own & ? & Hz & He & Hr). eexists _, own. split; [done|].
  rewrite mo_name, Hz, He, Hr. f_equal. lia.
Qed.
Lemma manifest_owned s n mo : manifest_ok ns shards s n mo → owned s (ms_ZoneUID (manifestSpec mo)).
Proof. intros []. destruct mf_used as (own & ? & ? & _). by eexists _, own. Qed.
Lemma manifest_used s m mo : manifest_ok ns shards s (ns, m) mo → usedName s m.
Proof.
  intros []. destruct mf_used as (own & ? & Hz & He & Hr). eexists _, own. split; [done|].
  injection mf_name as ->. rewrite Hz, He, Hr. f_equal. lia.
Qed.

(** A manifest of the name of a publication is of its zone and revision. *)
Lemma manifest_named s zone r k mo :
  inv s → within s → making_ok s zone r k → wrote s Manifest (ns, mk_name k) mo →
  ms_ZoneUID (manifestSpec mo) = zone ∧ ms_WriterEpoch (manifestSpec mo) = pb_epoch (mk_pub k)
  ∧ ms_Revision (manifestSpec mo) = r.
Proof.
  intros Hi Hw Hm Hmo. pose proof (i_manifest_ok _ _ _ Hi (ns, _) _ eq_refl Hmo) as Hok.
  pose proof (manifest_owned _ _ _ Hok) as Ho. destruct Hok. pose proof (making_owned _ _ _ _ Hm) as Ho'.
  destruct Hm. injection mf_name as Hname. rewrite mo_name in Hname.
  eapply manifestName_same in Hname as (? & ? & ?); [|done..|lia|lia]. done.
Qed.

(** Two manifests of one name have one rank. *)
Lemma manifest_same s m mo mo' :
  inv s → within s → wrote s Manifest (ns, m) mo → wrote s Manifest (ns, m) mo' →
  ms_ZoneUID (manifestSpec mo) = ms_ZoneUID (manifestSpec mo')
  ∧ ms_WriterEpoch (manifestSpec mo) = ms_WriterEpoch (manifestSpec mo')
  ∧ ms_Revision (manifestSpec mo) = ms_Revision (manifestSpec mo').
Proof.
  intros Hi Hw Hmo Hmo'. pose proof (i_manifest_ok _ _ _ Hi (ns, _) _ eq_refl Hmo) as Hok.
  pose proof (i_manifest_ok _ _ _ Hi (ns, _) _ eq_refl Hmo') as Hok'.
  pose proof (manifest_owned _ _ _ Hok) as Ho. pose proof (manifest_owned _ _ _ Hok') as Ho'.
  destruct Hok, Hok'. eapply manifestName_same; [done..|lia|lia|]. congruence.
Qed.

(** An ownership of the name of a zone is the zone's. *)
Lemma own_named s zone own :
  inv s → within s → owned s zone → wrote s Ownership (ns, ownershipName zone) own →
  os_ZoneUID (ownershipSpec own) = zone.
Proof.
  intros Hi Hw Ho Hown. pose proof (i_own_ok _ _ _ Hi (ns, _) _ eq_refl Hown) as [Hname _ _ _].
  apply (f_equal snd), ownershipName_inj in Hname. symmetry. eapply owned_same; [done..| |done].
  by exists (ns, ownershipName zone), own.
Qed.

(** ** Entries by their names *)

Lemma serving_not_publication s k zone r region shard e r' o :
  making_ok s zone r k → pub_ok s k (ns, servingName region shard e r') o → False.
Proof.
  intros Hm Hp. destruct (servingName_head region shard e r') as [h Hh].
  assert (∃ h', servingName region shard e r' = "p"%char :: h') as [h' Hh']; [|congruence].
  destruct Hm. destruct Hp as [i t _ (? & ? & _ & Hn & _)|t deps mo _ (? & Hn & _)|t deps mo _ (? & Hn & _)];
    apply (f_equal snd) in Hn; cbn [snd] in Hn; rewrite Hn, mo_name;
    first [apply chunkExportName_head|apply activationName_head].
Qed.

(** The entry of a name that is an activation. *)
Definition activates (s : store) (k : Making) (t : ServingRegion) (m : PublicationManifest)
    (o : Object TransportOutbox) : Prop :=
  ∃ deps, activationMade ns k t m deps (ns, PublicationActivationName (mk_name k) (sr_Region t) (sr_Shard t)) o
    ∧ (m = mk_manifest k ∧ chunksMade ns s k t deps ∧ PublicationManifest_Validate (mk_manifest k) = Ok tt
       ∨ m = withdrawalManifest (mk_manifest k)).

Section choice.
Context (s : store) (choice : gostring → Z → Making).
Context (Hinv : inv s) (Hwithin : within s).
Context (Hchoice : ∀ n o, n.1 = ns → wrote s TransportOutbox n o → outbox_ok s choice n o).

Lemma activation_entry m t o :
  usedName s m → t ∈ shards → (∃ zone e r, m = manifestName zone e r) →
  wrote s TransportOutbox (ns, PublicationActivationName m (sr_Region t) (sr_Shard t)) o →
  ∃ zone r m', making_ok s zone r (choice zone r) ∧ mk_name (choice zone r) = m
    ∧ activates s (choice zone r) t m' o.
Proof.
  destruct Hwithin as [_ Hap]. intros Hused Ht Hm Ho.
  destruct (Hchoice (ns, _) _ eq_refl Ho) as [(x & (Hn & _) & Hx)|(zone & r & Hsh & Hmk & Hp)].
  { exfalso. apply (f_equal snd) in Hn. cbn [snd] in Hn. destruct Hm as (zone & e & r & ->).
    destruct (activationName_head zone e r (sr_Region t) (sr_Shard t)) as [h Hh].
    destruct (servingName_head (sv_region x) (sv_shard x) (sv_epoch x) (sv_revision x)) as [h' Hh'].
    unfold sv_name in Hn. unfold manifestName in Hn. congruence. }
  pose proof (making_used _ _ _ _ Hmk) as Hused'.
  destruct Hp as [i t' Ht' Hc Hcw|t' deps mo Ht' Ha Hcs Hv Hmo|t' deps mo Ht' Ha Hv Hmo].
  - exfalso. destruct Hc as (part & env & _ & Hn & _). apply (f_equal snd) in Hn.
    by eapply (ap_kinds _ _ _ Hap _ _ i t t' Hused Hused' Hcw Ht Ht').
  - destruct (Ha) as (env & Hn & _). apply (f_equal snd) in Hn.
    destruct (ap_activations _ _ _ Hap _ _ _ _ Hused Hused' Ht Ht' Hn) as [-> <-].
    exists zone, r, (mk_manifest (choice zone r)). split_and!; [done|done|]. exists deps. split; [done|]. by left.
  - destruct (Ha) as (env & Hn & _). apply (f_equal snd) in Hn.
    destruct (ap_activations _ _ _ Hap _ _ _ _ Hused Hused' Ht Ht' Hn) as [-> <-].
    exists zone, r, (withdrawalManifest (mk_manifest (choice zone r))). split_and!; [done|done|].
    exists deps. split; [done|]. by right.
Qed.

Lemma chunk_entry zone r i t o :
  making_ok s zone r (choice zone r) → chunkStored ns s (choice zone r) i → t ∈ shards →
  wrote s TransportOutbox (ns, chunkExportName (mk_name (choice zone r)) i t) o →
  chunkMade ns (choice zone r) i t (ns, chunkExportName (mk_name (choice zone r)) i t) o.
Proof.
  destruct Hwithin as [_ Hap]. intros Hmk Hcw Ht Ho. pose proof (making_used _ _ _ _ Hmk) as Hused.
  destruct (Hchoice (ns, _) _ eq_refl Ho) as [(x & (Hn & _) & Hx)|(zone' & r' & Hsh & Hmk' & Hp)].
  { exfalso. apply (f_equal snd) in Hn. cbn [snd] in Hn. rewrite (mo_name _ _ _ _ _ Hmk) in Hn.
    destruct (chunkExportName_head zone (pb_epoch (mk_pub (choice zone r))) r i t) as [h Hh].
    destruct (servingName_head (sv_region x) (sv_shard x) (sv_epoch x) (sv_revision x)) as [h' Hh'].
    unfold sv_name in Hn. unfold manifestName in Hn. congruence. }
  pose proof (making_used _ _ _ _ Hmk') as Hused'.
  destruct Hp as [i' t' Ht' Hc Hcw'|t' deps mo Ht' Ha Hcs Hv Hmo|t' deps mo Ht' Ha Hv Hmo].
  - destruct (Hc) as (part & env & _ & Hn & _). apply (f_equal snd) in Hn. cbn [snd] in Hn.
    destruct (ap_chunks _ _ _ Hap _ _ _ _ _ _ Hused Hused' Hcw Hcw' Ht Ht' Hn) as (Hname & <- & <-).
    rewrite (mo_name _ _ _ _ _ Hmk), (mo_name _ _ _ _ _ Hmk') in Hname.
    eapply manifestName_same in Hname as (-> & _ & ->);
      [done|done|by eapply making_owned|by eapply making_owned|destruct Hmk; lia|destruct Hmk'; lia].
  - exfalso. destruct Ha as (env & Hn & _). apply (f_equal snd) in Hn. symmetry in Hn.
    by eapply (ap_kinds _ _ _ Hap _ _ i t' t Hused' Hused Hcw Ht' Ht).
  - exfalso. destruct Ha as (env & Hn & _). apply (f_equal snd) in Hn. symmetry in Hn.
    by eapply (ap_kinds _ _ _ Hap _ _ i t' t Hused' Hused Hcw Ht' Ht).
Qed.

Lemma stored_index k i : chunkStored ns s k i → (Z.of_nat i < 2 ^ 63)%Z.
Proof. destruct Hwithin as [_ Hap]. apply (ap_index _ _ _ Hap). Qed.

(** The manifest an activation publishes. *)
Lemma activates_envelope zone r k t m o :
  making_ok s zone r k → activates s k t m o →
  ∃ env, entryEnvelope (outboxSpec o) = Some env ∧ manifestEvent env m ∧ pm_ZoneUID m = zone
    ∧ pm_WriterEpoch m = pb_epoch (mk_pub k) ∧ pm_Revision m = r
    ∧ e_ResourceUID env = zone ∧ e_Region env = sr_Region t ∧ e_Shard env = sr_Shard t
    ∧ e_Epoch env = pb_epoch (mk_pub k) ∧ e_Revision env = r.
Proof.
  intros Hmk (deps & Ha & Hcase). pose proof (identity_epochs _ _ _ _ Hmk) as (He & Hr & _ & _).
  pose proof (mo_zone _ _ _ _ _ Hmk) as Hz.
  assert (wf_Manifest m = true ∧ pm_ZoneUID m = zone ∧ pm_WriterEpoch m = pb_epoch (mk_pub k)
    ∧ pm_Revision m = r) as (Hwf & Hmz & Hme & Hmr).
  { destruct Hcase as [(-> & Hcs & _)| ->]; (split; [|done]).
    - eapply manifest_wf; [done|]. intros i part Hp. eapply stored_index. by apply (Hcs i part).
    - by eapply withdrawal_wf. }
  destruct (activation_envelope _ _ _ _ _ _ _ _ _ Hmk Ha Hwf Hmz Hme Hmr) as (env & ?).
  exists env. tauto.
Qed.
End choice.

(** * Dependencies *)

(** The entry of this name has been published. *)
Definition acked (s : store) (name : gostring) : Prop :=
  ∃ env o, wrote s TransportOutbox (ns, name) o ∧ entryEnvelope (outboxSpec o) = Some env
    ∧ happened (st_log s) (ob_Subject (outboxSpec o)) env.

Lemma acked_later s s' name : later s s' → acked s name → acked s' name.
Proof. intros Hl (env & o & ? & ? & ?). exists env, o. eauto using wrote_later, happened_later. Qed.

(** The dependency has been published, or a later publication of the same zone has. *)
Definition depReady (s : store) (env : Envelope) (dep : gostring) : Prop :=
  acked s dep ∨
  (e_Kind env = KindServingSnapshot ∧ ∃ d prev own cur,
     wrote s TransportOutbox (ns, dep) d ∧ wrote s Manifest (ns, ob_ManifestRef (outboxSpec d)) prev
     ∧ wrote s Ownership (ns, ownershipName (ms_ZoneUID (manifestSpec prev))) own
     ∧ os_ActiveManifestName (ownershipSpec own) ≠ []
     ∧ wrote s Manifest (ns, os_ActiveManifestName (ownershipSpec own)) cur
     ∧ (0 ≤ Compare (toUint64 (ms_WriterEpoch (manifestSpec cur))) (toUint64 (ms_Revision (manifestSpec cur)))
              (toUint64 (ms_WriterEpoch (manifestSpec prev))) (toUint64 (ms_Revision (manifestSpec prev))))%Z
     ∧ acked s (PublicationActivationName (os_ActiveManifestName (ownershipSpec own)) (e_Region env) (e_Shard env))).

Lemma depReady_later s s' env dep : later s s' → depReady s env dep → depReady s' env dep.
Proof.
  intros Hl [Ha|(Hk & d & prev & own & cur & H1' & H2' & H3' & H4' & H5' & H6' & H7')].
  - left. by eapply acked_later.
  - right. split; [done|]. exists d, prev, own, cur. split_and!; eauto using wrote_later, acked_later.
Qed.

(** The entry is the one in force. *)
Definition entryCommitted (s : store) (n : Name) (out : Object TransportOutbox) (env : Envelope) : Prop :=
  if decide (e_Kind env = KindServingSnapshot) then
    ∃ cm st, wrote s ConfigMap (ns, shardOf out) cm ∧ readShardState cm = Some st
      ∧ o_UID cm = ob_ResourceUID (outboxSpec out) ∧ sh_Epoch st = e_Epoch env ∧ sh_ActiveOutbox st = n.2
  else
    ∃ mo own, wrote s Manifest (ns, ob_ManifestRef (outboxSpec out)) mo
      ∧ wrote s Ownership (ns, ownershipName (ms_ZoneUID (manifestSpec mo))) own
      ∧ os_ActiveManifestName (ownershipSpec own) = ob_ManifestRef (outboxSpec out).

Lemma entryCommitted_later s s' n out env : later s s' → entryCommitted s n out env → entryCommitted s' n out env.
Proof.
  intros Hl. unfold entryCommitted. case_decide.
  - intros (cm & st & ? & ?). exists cm, st. eauto using wrote_later.
  - intros (mo & own & ? & ? & ?). exists mo, own. eauto using wrote_later.
Qed.

(** * What may be published *)

Lemma zone_committed s zone r k mo own :
  inv s → within s → making_ok s zone r k → wrote s Manifest (ns, mk_name k) mo →
  wrote s Ownership (ns, ownershipName (ms_ZoneUID (manifestSpec mo))) own →
  os_ActiveManifestName (ownershipSpec own) = mk_name k →
  ∀ env, e_ResourceUID env = zone → e_Epoch env = pb_epoch (mk_pub k) → e_Revision env = r →
  publicationCommitted ns (st_log s) env.
Proof.
  intros Hi Hw Hmk Hmo Hown Hact env Hz He Hr.
  destruct (manifest_named _ _ _ _ _ Hi Hw Hmk Hmo) as (Hmz & _ & _). rewrite Hmz in Hown.
  exists own. rewrite Hz, He, Hr. split_and!; [done| |].
  - eapply own_named; [done..|by eapply making_owned|done].
  - by rewrite Hact, (mo_name _ _ _ _ _ Hmk).
Qed.

(** The dependency of a snapshot on a zone: a manifest of the zone that is not older has
    been published to the shard. *)
Lemma dependency_manifest s choice env zone e r m t :
  inv s → within s → (∀ n o, n.1 = ns → wrote s TransportOutbox n o → outbox_ok s choice n o) →
  t ∈ shards → e_Region env = sr_Region t → e_Shard env = sr_Shard t →
  reached ns s zone e r m → depReady s env (PublicationActivationName m (sr_Region t) (sr_Shard t)) →
  ∃ subject env' m', happened (st_log s) subject env' ∧ manifestEvent env' m' ∧ sameShard env env'
    ∧ pm_ZoneUID m' = zone ∧ lexle e r (pm_WriterEpoch m') (pm_Revision m').
Proof.
  intros Hi Hw Hch Ht Hreg Hsh (own0 & mo0 & Hown0 & Hact0 & Hmo0 & Hz0 & Hle).
  pose proof (i_manifest_ok _ _ _ Hi (ns, _) _ eq_refl Hmo0) as Hok0.
  assert (∀ m mo, wrote s Manifest (ns, m) mo → ms_ZoneUID (manifestSpec mo) = zone →
    lexle e r (ms_WriterEpoch (manifestSpec mo)) (ms_Revision (manifestSpec mo)) →
    acked s (PublicationActivationName m (sr_Region t) (sr_Shard t)) →
    ∃ subject env' m', happened (st_log s) subject env' ∧ manifestEvent env' m' ∧ sameShard env env'
      ∧ pm_ZoneUID m' = zone ∧ lexle e r (pm_WriterEpoch m') (pm_Revision m')) as Hack.
  { intros m1 mo1 Hmo1 Hz1 Hle1 (env' & o & Ho & Henv & Hhap).
    pose proof (i_manifest_ok _ _ _ Hi (ns, _) _ eq_refl Hmo1) as Hok1.
    destruct (activation_entry s choice Hw Hch m1 t o) as (zone' & r' & m' & Hmk & Hname & Ha);
      [by eapply manifest_used|done| |done|].
    { destruct Hok1 as [Hn]. apply (f_equal snd) in Hn. by do 3 eexists. }
    destruct (activates_envelope s Hw _ _ _ _ _ _ Hmk Ha) as (env1 & Henv1 & Hev & Hmz & Hme & Hmr & _ & Hr1 & Hs1 & _).
    rewrite Henv in Henv1. injection Henv1 as <-. rewrite <- Hname in Hmo1.
    destruct (manifest_named _ _ _ _ _ Hi Hw Hmk Hmo1) as (Hz' & He' & Hr').
    exists (ob_Subject (outboxSpec o)), env', m'. split_and!; [done|done| | |].
    - split; congruence.
    - congruence.
    - rewrite Hme, Hmr, <- He', <- Hr'. done. }
  intros [Hrdy|(Hk & d & prev & own & cur & Hd & Hprev & Hown & Hne & Hcur & Hcmp & Hrdy)].
  - by eapply (Hack m mo0).
  - destruct (activation_entry s choice Hw Hch m t d) as (zone' & r' & m' & Hmk & Hname & Ha);
      [by eapply manifest_used|done| |done|].
    { destruct Hok0 as [Hn]. apply (f_equal snd) in Hn. by do 3 eexists. }
    assert (ob_ManifestRef (outboxSpec d) = m) as Href.
    { destruct Ha as (deps & (env1 & _ & _ & ->) & _). done. }
    rewrite Href in Hprev. destruct (manifest_same _ _ _ _ Hi Hw Hprev Hmo0) as (Hpz & Hpe & Hpr).
    rewrite Hpz, Hz0 in Hown. pose proof (i_own_ok _ _ _ Hi (ns, _) _ eq_refl Hown) as Hook.
    assert (owned s zone) as Hzone by (rewrite <- Hz0; by eapply manifest_owned).
    pose proof (own_named _ _ _ Hi Hw Hzone Hown) as Hoz.
    destruct (ow_active _ _ _ _ Hook) as [|(moa & Hmoa & Hmoaz)]; [done|].
    destruct (manifest_same _ _ _ _ Hi Hw Hcur Hmoa) as (Hcz & Hce & Hcr).
    pose proof (i_manifest_ok _ _ _ Hi (ns, _) _ eq_refl Hcur) as Hokc.
    rewrite Hreg, Hsh in Hrdy. eapply (Hack _ cur Hcur); [congruence| |done].
    apply Compare_lexle in Hcmp. destruct Hokc, Hok0. rewrite !toUint64_id in Hcmp by lia.
    eapply lexle_trans; [exact Hle|]. congruence.
Qed.

(** The chunks of a manifest have been published before it. *)
Lemma manifest_chunks s choice env zone r t deps :
  inv s → within s → (∀ n o, n.1 = ns → wrote s TransportOutbox n o → outbox_ok s choice n o) →
  t ∈ shards → e_Region env = sr_Region t → e_Shard env = sr_Shard t →
  e_Kind env ≠ KindServingSnapshot →
  making_ok s zone r (choice zone r) → pb_tombstone (mk_pub (choice zone r)) = false →
  PublicationManifest_Validate (mk_manifest (choice zone r)) = Ok tt →
  chunksMade ns s (choice zone r) t deps → (∀ dep, dep ∈ deps → depReady s env dep) →
  ∃ chunks payload, VerifyManifest (mk_manifest (choice zone r)) chunks = Ok payload ∧
    ∀ c, c ∈ chunks → ∃ subject env', happened (st_log s) subject env' ∧ chunkEvent env' c ∧ sameShard env env'.
Proof.
  intros Hi Hw Hch Ht Hreg Hsh Hkind Hmk Htomb Hv Hcs Hdeps. set (k := choice zone r) in *.
  pose proof (mo_content _ _ _ _ _ Hmk) as Hcont. rewrite Htomb in Hcont. destruct Hcont as [Hne Hhash].
  pose proof (mo_size _ _ _ _ _ Hmk) as [Hsize _].
  exists (imap (wireChunk (identityOf (mk_pub k))) (mk_parts k)), (pb_payload (mk_pub k)). split.
  { unfold mk_manifest in *. rewrite Htomb, Hhash in Hv |- *. by apply wire_verified. }
  intros c (i & Hc)%list_elem_of_lookup. rewrite list_lookup_imap in Hc.
  destruct (mk_parts k !! i) as [part|] eqn:Hpart; [|done]. injection Hc as <-.
  destruct (Hcs i part Hpart) as (Hst & o & _ & _ & _ & Hin).
  destruct (Hdeps _ Hin) as [(env' & o' & Ho' & Henv' & Hhap)|[]]; [|done].
  pose proof (chunk_entry s choice Hw Hch _ _ _ _ _ Hmk Hst Ht Ho') as Hmade.
  destruct (chunk_envelope _ _ _ _ _ _ _ _ Hmk Hmade (stored_index s Hw _ _ Hst))
    as (env1 & part' & Hpart' & Henv1 & Hev & _ & Hr1 & Hs1 & _).
  fold k in Hpart'. rewrite Hpart in Hpart'. injection Hpart' as <-. rewrite Henv' in Henv1. injection Henv1 as <-.
  exists (ob_Subject (outboxSpec o')), env'. split_and!; [done|done|]. split; congruence.
Qed.

Lemma entryEnvelope_subject spec env : entryEnvelope spec = Some env → ob_Subject spec = expectedSubject env.
Proof.
  unfold entryEnvelope. case_match; [done|].
  destruct (Unmarshal _ _ _) as [e|]; [|done]. cbn [mbind option_bind].
  destruct (Envelope_Validate e); [|done].
  destruct (_ || _) eqn:Hb; [done|]. intros [= <-]. rewrite !orb_false_iff, !bool_decide_eq_false in Hb.
  apply dec_stable. tauto.
Qed.

(** The event of a publication's entry. *)
Lemma publication_event s zone r k n o env :
  within s → making_ok s zone r k → pub_ok s k n o → entryEnvelope (outboxSpec o) = Some env →
  e_ResourceUID env = zone ∧ e_Epoch env = pb_epoch (mk_pub k) ∧ e_Revision env = r
  ∧ e_Kind env ≠ KindServingSnapshot ∧ ob_ManifestRef (outboxSpec o) = mk_name k.
Proof.
  intros Hw Hmk Hp Henv. destruct Hp as [i t Ht Hc Hst|t deps mo Ht Ha Hcs Hv Hmo|t deps mo Ht Ha Hv Hmo].
  - destruct (chunk_envelope _ _ _ _ _ _ _ _ Hmk Hc (stored_index s Hw _ _ Hst))
      as (env1 & part & _ & Henv1 & [Hk _] & Hu & _ & _ & He & Hr).
    rewrite Henv in Henv1. injection Henv1 as <-. rewrite Hk. destruct Hc as (? & ? & _ & _ & _ & ->). done.
  - destruct (Ha) as (env0 & -> & _ & Hspec).
    destruct (activates_envelope s Hw _ _ _ t (mk_manifest k) o Hmk)
      as (env1 & Henv1 & [Hk _] & _ & _ & _ & Hu & Hr & Hs & He & Hrv); [exists deps; split; [done|by left]|].
    rewrite Henv in Henv1. injection Henv1 as <-. rewrite Hk, Hspec. done.
  - destruct (Ha) as (env0 & -> & _ & Hspec).
    destruct (activates_envelope s Hw _ _ _ t (withdrawalManifest (mk_manifest k)) o Hmk)
      as (env1 & Henv1 & [Hk _] & _ & _ & _ & Hu & Hr & Hs & He & Hrv); [exists deps; split; [done|by right]|].
    rewrite Henv in Henv1. injection Henv1 as <-. rewrite Hk, Hspec. done.
Qed.

(** The entry of a snapshot carries the name of its record. *)
Lemma serving_label s n o env :
  inv s → within s → n.1 = ns → wrote s TransportOutbox n o → entryEnvelope (outboxSpec o) = Some env →
  e_Kind env = KindServingSnapshot → ∃ token, shardOf o = recordName token.
Proof.
  intros Hi Hw Hn Ho Henv Hk. destruct (i_outbox_ok _ _ _ Hi) as [choice Hch].
  destruct (Hch n o Hn Ho) as [(x & (_ & _ & Hsh & _) & _)|(zone & r & _ & Hmk & Hp)]; [by eexists|].
  destruct (publication_event _ _ _ _ _ _ _ Hw Hmk Hp Henv) as (_ & _ & _ & ? & _). done.
Qed.

(** An entry that is committed and whose dependencies are published may be published. *)
Lemma gate_entry s n out env :
  inv s → within s → n.1 = ns → wrote s TransportOutbox n out →
  entryEnvelope (outboxSpec out) = Some env → entryCommitted s n out env →
  (∀ dep, dep ∈ ob_DependsOn (outboxSpec out) → depReady s env dep) →
  gate ns (st_log s) (ob_Subject (outboxSpec out)) env.
Proof.
  intros Hi Hw Hn Hout Henv Hcom Hdeps. split_and!; [by apply entryEnvelope_subject|by exists n, out|].
  destruct (i_outbox_ok _ _ _ Hi) as [choice Hch].
  destruct (Hch n out Hn Hout) as [(x & Hx & Hok)|(zone & r & Hsh & Hmk & Hp)].
  - left. destruct (serving_envelope _ _ _ _ Hx Hok) as (env' & Henv' & Hev & Hu & Hr & Hs & He & Hrv).
    rewrite Henv in Henv'. injection Henv' as <-. exists (sv_snapshot x). split; [done|].
    destruct Hx as (-> & _ & Hsh & env1 & _ & Hspec). pose proof Hok as []. split_and!; [done| |].
    + unfold entryCommitted in Hcom. rewrite decide_True in Hcom by apply Hev.
      destruct Hcom as (cm & st & Hcm & Hst & Huid & Hep & Hact). exists cm, st.
      rewrite Hu, Hr, Hs, He, Hrv. split_and!; [|done| |congruence|done].
      * rewrite Hsh in Hcm. done.
      * rewrite Huid, Hspec. done.
    + intros b z Hb Hz Hp. destruct (sv_covered b z Hb Hz Hp) as (m & Hreach & Hin).
      eapply (dependency_manifest s choice env _ _ _ m {| sr_Region := sv_region x; sr_Shard := sv_shard x |});
        [done..|]. apply Hdeps. by rewrite Hspec.
  - right. destruct (publication_event _ _ _ _ _ _ _ Hw Hmk Hp Henv) as (Hu & He & Hr & Hkind & Href).
    assert (publicationCommitted ns (st_log s) env) as Hzone.
    { unfold entryCommitted in Hcom. rewrite decide_False in Hcom by done. rewrite Href in Hcom.
      destruct Hcom as (mo & own & Hmo & Hown & Hact). by eapply zone_committed. }
    destruct Hp as [i t Ht Hc Hst|t deps mo Ht Ha Hcs Hv Hmo|t deps mo Ht Ha Hv Hmo].
    + right. destruct (chunk_envelope _ _ _ _ _ _ _ _ Hmk Hc (stored_index s Hw _ _ Hst))
        as (env1 & part & _ & Henv1 & Hev & _). rewrite Henv in Henv1. injection Henv1 as <-. by eexists.
    + left. destruct (Ha) as (env0 & -> & _ & Hspec).
      destruct (activates_envelope s Hw _ _ _ t (mk_manifest (choice zone r)) out Hmk)
        as (env1 & Henv1 & Hev & _ & _ & _ & _ & Hreg & Hs & _); [exists deps; split; [done|by left]|].
      rewrite Henv in Henv1. injection Henv1 as <-. exists (mk_manifest (choice zone r)). split; [done|].
      split; [done|]. destruct (pb_tombstone (mk_pub (choice zone r))) eqn:Htomb; [left; done|].
      right. rewrite Hspec in Hdeps. by eapply manifest_chunks.
    + left. destruct (Ha) as (env0 & -> & _ & Hspec).
      destruct (activates_envelope s Hw _ _ _ t (withdrawalManifest (mk_manifest (choice zone r))) out Hmk)
        as (env1 & Henv1 & Hev & _); [exists deps; split; [done|by right]|].
      rewrite Henv in Henv1. injection Henv1 as <-. eexists. split; [done|]. split; [done|by left].
Qed.
End events.
