(* ===== verification/PublishWrites.v ===== *)
(** Each kind of write keeps the invariant of the publication protocol.

    [inv_extend] reduces this to what the one new event needs; the lemmas after it say what
    a record, an ownership, a manifest or an outbox entry has to satisfy to be written.  The
    last part is the logic of [ApiStore] for the processes of the protocol: what a read of
    each kind of object tells under the invariant. *)

From S2P Require Import Prelude GoStrings GoCrypto GoJson GoJsonDecode Api ApiMeta ReservedScopes.
From S2P Require Import WireModel Publication Capacity Compile CompileHistory WireDecode ApiStore.
From S2P Require Import ShardState ApiHistory Planner Outbox Publisher PublishInvariant PublishWire.
From S2P Require Import PublishEvents.

(** * One more event *)

(** [s'] is [s] after the event [ev] of process [i]; objects that are [kept] are not
    removed. *)
Record extends (kept : ∀ k : Kind, Name → Prop) (i : nat) (ev : event) (s s' : store) : Prop := {
  ex_log : st_log s' = st_log s ++ [(i, ev)];
  ex_uids : st_uids s ⊆ st_uids s';
  ex_uid : ∀ (k : Kind) (n : Name) (o : Object k), written k ev = Some (n, o) → o_UID o ∈ st_uids s';
  ex_versioned : versioned s → versioned s';
  ex_new : ∀ (k : Kind) (n : Name) (o : Object k), written k ev = Some (n, o) → st_table s' k !! n = Some o;
  ex_table : ∀ (k : Kind) (n : Name) (o : Object k),
    st_table s' k !! n = Some o → written k ev = Some (n, o) ∨ st_table s k !! n = Some o;
  ex_kept : ∀ (k : Kind) (n : Name) (o : Object k), kept k n → st_table s k !! n = Some o →
    ∃ o', st_table s' k !! n = Some o' ∧ (o' = o ∨ written k ev = Some (n, o'));
}.

Lemma extends_later kept i ev s s' : extends kept i ev s s' → later s s'.
Proof. intros []. by exists [(i, ev)]. Qed.
Lemma extends_age kept i ev s s' : extends kept i ev s s' → age s' = (age s + 1)%Z.
Proof. intros []. unfold age. rewrite ex_log0, length_app. cbn. lia. Qed.

Lemma wrote_extends kept i ev s s' (k : Kind) (n : Name) (o : Object k) :
  extends kept i ev s s' → wrote s' k n o ↔ wrote s k n o ∨ written k ev = Some (n, o).
Proof.
  intros []. unfold wrote, wroteIn. rewrite ex_log0. setoid_rewrite elem_of_app.
  setoid_rewrite list_elem_of_singleton. split.
  - intros (j & ev' & [Hin|[= -> ->]] & Hw); eauto.
  - intros [(j & ev' & Hin & Hw)|Hw]; eauto 6.
Qed.

Lemma written_write (k k' : Kind) (n n' : Name) (o : Object k) (o' : Object k') :
  written k' (Wrote k n (Some o)) = Some (n', o') → ∃ e : k = k', n' = n ∧ eq_rect k Object o k' e = o'.
Proof. cbn. destruct (decide (k = k')) as [e|]; [|done]. intros [= <- <-]. by exists e. Qed.

Lemma write_extends kept i (k : Kind) (n : Name) (o : Object k) s :
  (st_version s < o_ResourceVersion o)%Z → extends kept i (Wrote k n (Some o)) s (write i k n o s).
Proof.
  intros Hv. split; [done|cbn; set_solver|..].
  - intros k' n' o' (e & -> & <-)%written_write. destruct e. cbn. set_solver.
  - intros Hver. by apply versioned_write.
  - intros k' n' o' (e & -> & <-)%written_write. destruct e. cbn. by rewrite set_table_same, lookup_insert_eq.
  - intros k' n' o' Ho. destruct (decide (k = k')) as [<-|Hne].
    + destruct (decide (n = n')) as [<-|Hn].
      * left. rewrite write_lookup in Ho. injection Ho as <-. apply written_same.
      * right. by rewrite write_lookup_ne in Ho.
    + right. by rewrite write_other in Ho.
  - intros k' n' o' _ Ho. destruct (decide (k = k')) as [<-|Hne].
    + destruct (decide (n = n')) as [<-|Hn].
      * exists o. rewrite write_lookup, written_same. auto.
      * exists o'. rewrite write_lookup_ne by done. auto.
    + exists o'. rewrite write_other by done. auto.
Qed.

Lemma remove_extends (kept : ∀ k : Kind, Name → Prop) i (k : Kind) (n : Name) s :
  ¬ kept k n → extends kept i (Wrote k n None) s (remove i k n s).
Proof.
  intros Hk. split; [done|done|done| |done|..].
  - by apply (versioned_silent _ _ i (Wrote k n None)).
  - intros k' n' o' Ho. right. destruct (decide (k = k')) as [<-|Hne]; [|by rewrite remove_other in Ho].
    destruct (decide (n = n')) as [<-|Hn]; [by rewrite remove_lookup in Ho|by rewrite remove_lookup_ne in Ho].
  - intros k' n' o' Hk' Ho. exists o'. split; [|by left].
    destruct (decide (k = k')) as [<-|Hne]; [|by rewrite remove_other].
    destruct (decide (n = n')) as [<-|Hn]; [done|by rewrite remove_lookup_ne].
Qed.

Lemma note_extends kept i ev s :
  (∀ k, written k ev = None) → extends kept i ev s (note i ev s).
Proof.
  intros Hev. split; [done|done| | | | |].
  - intros k n o Hw. by rewrite Hev in Hw.
  - by apply (versioned_silent _ _ i ev).
  - intros k n o Hw. by rewrite Hev in Hw.
  - intros k n o Ho. by right.
  - intros k n o _ Ho. exists o. auto.
Qed.

(** * The invariant *)

Section writes.
Context `{GoRuntime} `{ApiMeta} `{K8sValidation} `{MiekgDNS}.
Context (ns : gostring) (shards : list ServingRegion).
Abbreviation inv := (inv ns shards).
Abbreviation within := (within ns shards).
Abbreviation rely := (rely ns).

(** Records and ownerships are never deleted. *)
Definition durable (k : Kind) (n : Name) : Prop :=
  match k with ConfigMap => isRecord ns n | Ownership => n.1 = ns | _ => False end.

(** What a new event needs. *)
Record accepts (ev : event) (s s' : store) : Prop := {
  ac_record : ∀ n cm, isRecord ns n → written ConfigMap ev = Some (n, cm) →
    (∃ token st, record_ok ns s' n cm token st) ∧ ∀ cm', wrote s ConfigMap n cm' → record_le cm' cm;
  ac_own : ∀ n own, n.1 = ns → written Ownership ev = Some (n, own) →
    own_ok ns s' n own ∧ ∀ own', wrote s Ownership n own' → own_le own' own;
  ac_manifest : ∀ n mo, n.1 = ns → written Manifest ev = Some (n, mo) → manifest_ok ns shards s' n mo;
  ac_outbox : ∀ n o, n.1 = ns → written TransportOutbox ev = Some (n, o) →
    ack_ok s' o ∧ (∀ o', wrote s TransportOutbox n o' → o_UID o' = o_UID o → sameEntry o' o)
    ∧ (∀ x n' o' x', servingMade ns x n o → wrote s TransportOutbox n' o' → servingMade ns x' n' o' →
         sv_token x = sv_token x' → sv_revision x = sv_revision x' → n = n' ∧ outboxSpec o = outboxSpec o')
    ∧ ∃ choice, ∀ n' o', n'.1 = ns → wrote s' TransportOutbox n' o' → outbox_ok ns shards s' choice n' o';
  ac_binding : ∀ n b, n.1 = ns → written ResolverBinding ev = Some (n, b) → binding_ok b;
  ac_gate : ∀ subject env, ev = Published subject env → gate ns (st_log s) subject env;
}.

Lemma record_le_refl s n cm token st : record_ok ns s n cm token st → record_le cm cm.
Proof.
  intros []. exists st, st. split_and!; try done. intros e r Ha. by exists e, r.
Qed.
Lemma own_le_refl own : own_le own own.
Proof. split_and!; try done. intros e r Ha. by exists e, r. Qed.

Lemma inv_extend i ev s s' : inv s → extends durable i ev s s' → accepts ev s s' → inv s'.
Proof.
  intros Hi Hex Hac. pose proof (extends_later _ _ _ _ _ Hex) as Hl.
  pose proof (λ k n o, proj1 (wrote_extends _ _ _ _ _ k n o Hex)) as Hw.
  pose proof (λ k n o, proj2 (wrote_extends _ _ _ _ _ k n o Hex)) as Hw'.
  pose proof (ex_log _ _ _ _ _ Hex) as Hlog. pose proof (ex_table _ _ _ _ _ Hex) as Htab.
  destruct Hi, Hac. split.
  - by apply (ex_versioned _ _ _ _ _ Hex).
  - intros k n o [Ho|Ho]%Hw; [apply (ex_uids _ _ _ _ _ Hex); eauto|by eapply ex_uid].
  - intros n o o' Hn [Ho|Ho]%Hw [Ho'|Ho']%Hw Huid; [eauto| | |].
    + destruct (ac_outbox0 n o' Hn Ho') as (_ & Hlife & _). eauto.
    + destruct (ac_outbox0 n o Hn Ho) as (_ & Hlife & _). destruct (Hlife o' Ho' (eq_sym Huid)). done.
    + rewrite Ho in Ho'. by injection Ho' as ->.
  - intros n cm Hn [Hc|Hc]%Htab; apply Hw'; [by right|left; eauto].
  - intros n own Hn [Hc|Hc]%Htab; apply Hw'; [by right|left; eauto].
  - intros n mo Hn [Hc|Hc]%Htab; apply Hw'; [by right|left; eauto].
  - intros n c Hn [Hc|Hc]%Htab; apply Hw'; [by right|left; eauto].
  - intros n o Hn [Hc|Hc]%Htab; apply Hw'; [by right|left; eauto].
  - intros n cm Hn [Hc|Hc]%Hw; [|by apply ac_record0].
    destruct (i_record_ok n cm Hn Hc) as (token & st & Hok). exists token, st. by eapply record_ok_later.
  - intros n cm Hn [Hc|Hc]%Hw.
    + destruct (i_record_le n cm Hn Hc) as (cur & Hcur & Hle).
      destruct (ex_kept _ _ _ _ _ Hex ConfigMap n cur Hn Hcur) as (cur' & Hcur' & [->|Hnew]); [by eauto|].
      exists cur'. split; [done|]. destruct (ac_record0 n cur' Hn Hnew) as [_ Hall]. by apply Hall.
    + exists cm. split; [by eapply ex_new|]. destruct (ac_record0 n cm Hn Hc) as [(token & st & Hok) _].
      by eapply record_le_refl.
  - intros n own Hn [Hc|Hc]%Hw; [|by apply ac_own0]. eapply own_ok_later; eauto.
  - intros n own Hn [Hc|Hc]%Hw.
    + destruct (i_own_le n own Hn Hc) as (cur & Hcur & Hle).
      destruct (ex_kept _ _ _ _ _ Hex Ownership n cur Hn Hcur) as (cur' & Hcur' & [->|Hnew]); [by eauto|].
      exists cur'. split; [done|]. destruct (ac_own0 n cur' Hn Hnew) as [_ Hall]. by apply Hall.
    + exists own. split; [by eapply ex_new|]. apply own_le_refl.
  - intros n mo Hn [Hc|Hc]%Hw; [|by apply ac_manifest0]. eapply manifest_ok_later; eauto.
  - destruct (written TransportOutbox ev) as [[n o]|] eqn:Hev; [destruct (decide (n.1 = ns)) as [Hn|Hn]|].
    + by apply (ac_outbox0 n o Hn).
    + destruct i_outbox_ok as [choice Hch]. exists choice. intros n' o' Hn' [Ho|Ho]%Hw; [|congruence].
      eapply outbox_ok_later; eauto.
    + destruct i_outbox_ok as [choice Hch]. exists choice. intros n' o' Hn' [Ho|Ho]%Hw; [|congruence].
      eapply outbox_ok_later; eauto.
  - intros n o Hn [Ho|Ho]%Hw; [eapply ack_ok_later; eauto|by apply (ac_outbox0 n o Hn Ho)].
  - intros n n' o o' x x' [Ho|Ho]%Hw [Ho'|Ho']%Hw Hx Hx' Ht Hr; [by eapply i_unique| | |].
    + destruct (ac_outbox0 n' o') as (_ & _ & Hu & _); [by destruct Hx' as [-> _]|done|].
      destruct (Hu x' n o x Hx' Ho Hx) as [-> ?]; done.
    + destruct (ac_outbox0 n o) as (_ & _ & Hu & _); [by destruct Hx as [-> _]|done|].
      by destruct (Hu x n' o' x' Hx Ho' Hx').
    + rewrite Ho in Ho'. injection Ho' as -> ->. done.
  - intros n b Hn [Hb|Hb]%Htab; eauto.
  - intros before j subject env after Hs. rewrite Hlog in Hs.
    destruct after as [|y after _] using rev_ind.
    + apply app_inj_tail in Hs as [<- [= -> ->]]. by apply ac_gate0.
    + rewrite app_comm_cons, (assoc_L (++)) in Hs. apply app_inj_tail in Hs as [Hs _]. eauto.
Qed.

Lemma rely_extend j i ev s s' :
  extends durable i ev s s' →
  (∀ n o, n.1 = ns → written TransportOutbox ev = Some (n, o) → reservedBy ns s j o →
     ∃ o', wrote s TransportOutbox n o' ∧ sameEntry o' o) →
  rely j s s'.
Proof.
  intros Hex Hnew. split; [by eapply extends_later|]. intros n o Hn Hw Hr.
  apply (wrote_extends _ _ _ _ _ _ _ _ Hex) in Hw as [Hw|Hw]; [by exists o|eauto].
Qed.

(** The new event is of one kind. *)
Ltac accepts_kind :=
  split; intros;
  repeat match goal with
  | Hwr : written ?k (Wrote ?k _ _) = Some _ |- _ => rewrite written_same in Hwr; injection Hwr as <- <-
  | Hwr : written _ (Wrote _ _ _) = Some _ |- _ => rewrite written_other in Hwr by done; discriminate Hwr
  | Hwr : Wrote _ _ _ = Published _ _ |- _ => discriminate Hwr
  end; eauto.

(** An event that writes no entry is nothing to the others. *)
Lemma rely_silent j i (k : Kind) (n : Name) (o : Object k) s :
  k ≠ TransportOutbox → (st_version s < o_ResourceVersion o)%Z → rely j s (write i k n o s).
Proof.
  intros Hk Hv. eapply rely_extend; [by apply write_extends|]. intros n' o' _ Hw. by rewrite written_other in Hw.
Qed.

(** ** Records *)

Lemma forward_trans at_ a b c :
  (∀ e r e' r', at_ b e r → at_ b e' r' → e = e' ∧ r = r') → forward at_ a b → forward at_ b c → forward at_ a c.
Proof.
  intros Hfun Hab Hbc e r Ha. destruct (Hab e r Ha) as (e1 & r1 & Hb & ? & ?).
  destruct (Hbc e1 r1 Hb) as (e2 & r2 & Hc & ? & ?). exists e2, r2. split_and!; [done|lia|lia].
Qed.
Lemma servingAt_fun b e r e' r' : servingAt b e r → servingAt b e' r' → e = e' ∧ r = r'.
Proof. intros (? & ? & -> & ? & ?) (? & ? & Heq & ? & ?). by apply servingName_inj in Heq as (_ & ? & ?). Qed.
Lemma manifestAt_fun b e r e' r' : manifestAt b e r → manifestAt b e' r' → e = e' ∧ r = r'.
Proof. intros (? & -> & ? & ?) (? & Heq & ? & ?). by apply artifactName_inj in Heq as (_ & ? & ?). Qed.

Lemma isRecord_name token : isRecord ns (ns, recordName token).
Proof. split; [done|]. by apply HasPrefix_spec; eexists. Qed.

Lemma record_inj token token' : recordName token = recordName token' → token = token'.
Proof. apply app_inv_head. Qed.

(** The record in the table is the last one written, and all written before are behind it. *)
Lemma record_current s token cm :
  inv s → st_table s ConfigMap !! (ns, recordName token) = Some cm →
  wrote s ConfigMap (ns, recordName token) cm
  ∧ (∃ st, record_ok ns s (ns, recordName token) cm token st)
  ∧ ∀ cm', wrote s ConfigMap (ns, recordName token) cm' → record_le cm' cm.
Proof.
  intros Hi Hcm. pose proof (isRecord_name token) as Hn. pose proof (i_record _ _ _ Hi _ _ Hn Hcm) as Hw.
  split; [done|]. destruct (i_record_ok _ _ _ Hi _ _ Hn Hw) as (token' & st & Hok). split.
  - exists st. pose proof (rc_name _ _ _ _ _ _ Hok) as Heq. apply (f_equal snd) in Heq.
    by apply record_inj in Heq as <-.
  - intros cm' Hw'. destruct (i_record_le _ _ _ Hi _ _ Hn Hw') as (cur & Hcur & Hle). congruence.
Qed.

(** How a record may change. *)
Record record_step (s : store) (token : gostring) (st st' : shardState) : Prop := {
  rs_wf : wf_ShardState st' = true;
  rs_next : (sh_NextRevision st ≤ sh_NextRevision st' ≤ sh_NextRevision st + 1)%Z;
  rs_epoch : (sh_Epoch st ≤ sh_Epoch st' ≤ Z.max (2 ^ 38) (sh_Epoch st + 1))%Z;
  rs_active : sh_ActiveOutbox st' = sh_ActiveOutbox st ∨
    ∃ x o, wrote s TransportOutbox (ns, sh_ActiveOutbox st') o ∧ servingMade ns x (ns, sh_ActiveOutbox st') o
      ∧ sv_token x = token ∧ sv_epoch x = sh_Epoch st' ∧ sv_revision x = (sh_NextRevision st' - 1)%Z;
}.

Lemma record_step_rank s token st st' :
  record_step s token st st' →
  (∀ e r, servingAt (sh_ActiveOutbox st) e r → e ≤ sh_Epoch st ∧ r < sh_NextRevision st)%Z →
  (∀ e r, servingAt (sh_ActiveOutbox st') e r → e ≤ sh_Epoch st' ∧ r < sh_NextRevision st')%Z
  ∧ forward servingAt (sh_ActiveOutbox st) (sh_ActiveOutbox st').
Proof.
  intros [_ Hnext Hep Hact] Hrank. destruct Hact as [->|(x & o & _ & (Hn & Hpos & _) & _ & He & Hr)].
  - split; [|intros e r Ha; by exists e, r]. intros e r Ha. apply Hrank in Ha. lia.
  - apply (f_equal snd) in Hn. cbn [snd] in Hn.
    assert (servingAt (sh_ActiveOutbox st') (sv_epoch x) (sv_revision x)) as Hx.
    { rewrite Hn. eexists _, _. split_and!; [done|lia|lia]. }
    split.
    + intros e r Ha. destruct (servingAt_fun _ _ _ _ _ Ha Hx) as [-> ->]. lia.
    + intros e r Ha. exists (sv_epoch x), (sv_revision x). apply Hrank in Ha. split_and!; [done|lia|lia].
Qed.

Lemma record_next s i token (owner cm : Object ConfigMap) st st' :
  inv s → st_table s ConfigMap !! (ns, recordName token) = Some owner → readShardState owner = Some st →
  record_step s token st st' → readShardState cm = Some st' → o_UID cm = o_UID owner →
  (st_version s < o_ResourceVersion cm)%Z →
  inv (write i ConfigMap (ns, recordName token) cm s).
Proof.
  intros Hi Htab Hst Hstep Hst' Huid Hv. set (n := (ns, recordName token)) in *.
  destruct (record_current _ _ _ Hi Htab) as (Hw & (st0 & Hok) & Hall).
  pose proof (rc_state _ _ _ _ _ _ Hok) as Hst0. rewrite Hst in Hst0. injection Hst0 as <-.
  pose proof (write_extends durable i ConfigMap n cm s Hv) as Hex.
  pose proof (extends_age _ _ _ _ _ Hex) as Hage. pose proof (extends_later _ _ _ _ _ Hex) as Hl.
  pose proof (record_step_rank _ _ _ _ Hstep (rc_rank _ _ _ _ _ _ Hok)) as [Hrank Hfw].
  eapply inv_extend; [done|exact Hex|]. accepts_kind. split.
  - exists token, st'. destruct Hok, Hstep. split; try done; [congruence|lia|lia|].
    destruct rs_active0 as [->|(x & o & Ho & Hx & Ht & _)].
    + destruct rc_active as [|(x & o & Ho & ?)]; [by left|right]. exists x, o. eauto using wrote_later.
    + right. exists x, o. eauto using wrote_later.
  - intros cm' Hcm'. destruct (Hall cm' Hcm') as (st1 & st2 & Hst1 & Hst2 & Hu & He & Hn & Hf).
    rewrite Hst in Hst2. injection Hst2 as <-. exists st1, st'. destruct Hstep.
    split_and!; [done|done|congruence|lia|lia|]. eapply forward_trans; [|exact Hf|exact Hfw].
    intros ? ? ? ?. apply servingAt_fun.
Qed.

(** ** Revisions of a shard *)

Lemma made_same x x' n o o' :
  servingMade ns x n o → servingMade ns x' n o' →
  sv_token x = sv_token x' ∧ sv_epoch x = sv_epoch x' ∧ sv_revision x = sv_revision x'.
Proof.
  intros (-> & ? & _) (Hn & ? & _). apply (f_equal snd) in Hn. cbn [snd] in Hn.
  unfold sv_name in Hn. apply servingName_inj in Hn; [done|lia..].
Qed.

(** The entry of a snapshot is below the record. *)
Lemma serving_below s n o x :
  inv s → wrote s TransportOutbox n o → servingMade ns x n o →
  ∃ cm st, st_table s ConfigMap !! (ns, recordName (sv_token x)) = Some cm ∧ readShardState cm = Some st
    ∧ (sv_epoch x ≤ sh_Epoch st)%Z ∧ (sv_revision x < sh_NextRevision st)%Z.
Proof.
  intros Hi Hw Hx. destruct (i_outbox_ok _ _ _ Hi) as [choice Hch].
  assert (n.1 = ns) as Hn by by destruct Hx as [-> _].
  destruct (Hch n o Hn Hw) as [(x' & Hx' & Hok)|(zone & r & _ & Hmk & Hp)].
  - destruct (made_same _ _ _ _ _ Hx Hx') as (-> & -> & ->).
    destruct (sv_below _ _ _ _ Hok) as (cm & st & Hcm & Hst & He & Hr & _).
    destruct (i_record_le _ _ _ Hi _ _ (isRecord_name _) Hcm) as (cur & Hcur & (st1 & st2 & Hst1 & Hst2 & _ & ? & ? & _)).
    exists cur, st2. rewrite Hst in Hst1. injection Hst1 as <-. split_and!; [done|done|lia|lia].
  - exfalso. destruct Hx as [-> _]. by eapply serving_not_publication.
Qed.

Definition fresh (s : store) (token : gostring) (r : Z) : Prop :=
  ∀ n o x, wrote s TransportOutbox n o → servingMade ns x n o → sv_token x = token → sv_revision x ≠ r.

Lemma fresh_next s token cm st :
  inv s → st_table s ConfigMap !! (ns, recordName token) = Some cm → readShardState cm = Some st →
  fresh s token (sh_NextRevision st).
Proof.
  intros Hi Hcm Hst n o x Hw Hx <-. destruct (serving_below _ _ _ _ Hi Hw Hx) as (cm' & st' & Hcm' & Hst' & _ & ?).
  rewrite Hcm in Hcm'. injection Hcm' as <-. rewrite Hst in Hst'. injection Hst' as <-. lia.
Qed.

(** Nobody else makes an entry of a revision that is taken. *)
Lemma fresh_rely i s s' token r :
  (1 ≤ r < 2 ^ 63)%Z → took ConfigMap nextOf s i (ns, recordName token) r →
  fresh s token r → rely i s s' → fresh s' token r.
Proof.
  intros Hr Htook Hf [Hl Hrely] n o x Hw Hx Ht Hrev.
  assert (n.1 = ns) as Hn by by destruct Hx as [-> _].
  destruct (Hrely n o Hn Hw) as (o' & Hw' & [Hspec Hlab]).
  { left. exists token. destruct Hx as (_ & _ & Hsh & env & _ & Hspec). rewrite Ht in Hsh. split; [done|].
    rewrite Hspec. cbn [servingOutbox ob_Revision]. rewrite Hrev, wrap64_id by lia. done. }
  apply (Hf n o' x Hw'); [|done..]. unfold servingMade, shardOf in *. by rewrite Hspec, Hlab.
Qed.

(** ** Writing a record *)

Lemma record_update i s token owner st st' x s2 :
  inv s → wrote s ConfigMap (ns, recordName token) owner → readShardState owner = Some st →
  record_step s token st st' →
  serve i (Update ConfigMap (ns, recordName token) (o_ResourceVersion owner) (o_Labels owner)
             (withState owner st')) s x s2 →
  inv s2 ∧ (∀ j, rely j s s2) ∧
  ∀ cm, x = Found cm → wrote s2 ConfigMap (ns, recordName token) cm ∧ readShardState cm = Some st'
    ∧ o_UID cm = o_UID owner ∧ fresh s2 token (sh_NextRevision st)
    ∧ (sh_NextRevision st < sh_NextRevision st' →
       took ConfigMap nextOf s2 i (ns, recordName token) (sh_NextRevision st))%Z.
Proof.
  intros Hi Hw Hst Hstep Hserve. cbn [serve] in Hserve. set (n := (ns, recordName token)) in *.
  destruct (st_table s ConfigMap !! n) as [old|] eqn:Htab.
  2:{ destruct Hserve as [-> Hx]. split_and!; [done|intros j; apply rely_refl|]. intros cm ->. by destruct Hx. }
  destruct Hserve as [[-> ->]|[(_ & -> & ->)|(Hv & cm & (Hu & Hver & _ & _ & _ & Hbody) & -> & Hx)]].
  1-2: split_and!; [done|intros j; apply rely_refl|done].
  destruct (record_current _ _ _ Hi Htab) as (Hold & _ & Hall).
  destruct (ver_unique _ (i_versioned _ _ _ Hi) _ _ _ _ _ Hold Hw Hv) as [_ ->].
  assert (readShardState cm = Some st') as Hst'.
  { unfold readShardState, dataOf. rewrite Hbody. unfold entry, withState. rewrite lookup_insert_eq.
    apply unmarshal_ShardState, Hstep. }
  split_and!.
  - by eapply record_next.
  - intros j. by apply rely_silent.
  - intros cm' ->. destruct Hx as [[= ->]|]; [|done]. split_and!; [|done|done| |].
    + apply wrote_write. by right.
    + intros n' o' x' Ho' Hx'. apply wrote_write_other in Ho'; [|done]. by eapply fresh_next.
    + intros Hlt. apply took_write.
      * unfold nextOf. by rewrite Hst'.
      * intros cm1 Hcm1. destruct (Hall cm1 Hcm1) as (st1 & st2 & Hst1 & Hst2 & _ & _ & Hle & _).
        rewrite Hst in Hst2. injection Hst2 as <-. unfold nextOf. by rewrite Hst1.
Qed.

Lemma record_create i s token st labels x s2 :
  inv s → wf_ShardState st = true → sh_NextRevision st = 1%Z → (1 ≤ sh_Epoch st ≤ 2 ^ 38)%Z →
  sh_ActiveOutbox st = [] →
  serve i (Create ConfigMap (ns, recordName token) labels
             ({["state" := marshalShardState st]} : gmap gostring gostring)) s x s2 →
  inv s2 ∧ ∀ j, rely j s s2.
Proof.
  intros Hi Hwf Hnext Hep Hact Hserve. cbn [serve] in Hserve. set (n := (ns, recordName token)) in *.
  destruct (st_table s ConfigMap !! n) as [old|] eqn:Htab.
  { destruct Hserve as [-> _]. split; [done|intros j; apply rely_refl]. }
  destruct Hserve as [[-> ->]|(cm & Hfresh & Hne & Hascii & Hver & Hlab & Hbody & Hdel & -> & Hx)].
  { split; [done|intros j; apply rely_refl]. }
  split; [|intros j; by apply rely_silent].
  pose proof (write_extends durable i ConfigMap n cm s Hver) as Hex.
  pose proof (extends_age _ _ _ _ _ Hex) as Hage. assert (0 ≤ age s)%Z by (unfold age; lia).
  eapply inv_extend; [done|exact Hex|]. accepts_kind. split.
  - exists token, st. split; [done| |done|by apply text_ascii|lia|lia| |by left].
    + unfold readShardState, dataOf. rewrite Hbody. unfold entry. rewrite lookup_singleton_eq.
      by apply unmarshal_ShardState.
    + rewrite Hact. by intros e r (? & ? & ? & _).
  - intros cm' Hcm'. destruct (i_record_le _ _ _ Hi _ _ (isRecord_name _) Hcm') as (cur & Hcur & _).
    unfold n in Htab. congruence.
Qed.

(** ** Ownerships *)

Lemma own_current s zone own :
  inv s → st_table s Ownership !! (ns, ownershipName zone) = Some own →
  wrote s Ownership (ns, ownershipName zone) own
  ∧ own_ok ns s (ns, ownershipName zone) own
  ∧ ∀ own', wrote s Ownership (ns, ownershipName zone) own' → own_le own' own.
Proof.
  intros Hi Hown. pose proof (i_own _ _ _ Hi (ns, _) _ eq_refl Hown) as Hw. split_and!; [done| |].
  - by eapply i_own_ok.
  - intros own' Hw'. destruct (i_own_le _ _ _ Hi (ns, _) _ eq_refl Hw') as (cur & Hcur & Hle). congruence.
Qed.

(** How an ownership may change. *)
Record own_step (s : store) (o o' : DNSPublicationOwnershipSpec) : Prop := {
  os_zone : os_ZoneUID o' = os_ZoneUID o;
  os_next : (os_NextRevision o ≤ os_NextRevision o' ≤ os_NextRevision o + 1)%Z;
  os_epoch : (os_WriterEpoch o ≤ os_WriterEpoch o' ≤ Z.max (2 ^ 38) (os_WriterEpoch o + 1))%Z;
  os_active : os_ActiveManifestName o' = os_ActiveManifestName o ∨
    (∃ mo, wrote s Manifest (ns, os_ActiveManifestName o') mo ∧ ms_ZoneUID (manifestSpec mo) = os_ZoneUID o')
    ∧ os_ActiveManifestName o' = manifestName (os_ZoneUID o') (os_WriterEpoch o') (os_NextRevision o' - 1);
}.

Lemma own_step_rank s o o' :
  own_step s o o' → (1 ≤ os_NextRevision o ∧ 0 ≤ os_WriterEpoch o)%Z →
  (∀ e r, manifestAt (os_ActiveManifestName o) e r → e ≤ os_WriterEpoch o ∧ r < os_NextRevision o)%Z →
  (∀ e r, manifestAt (os_ActiveManifestName o') e r → e ≤ os_WriterEpoch o' ∧ r < os_NextRevision o')%Z
  ∧ forward manifestAt (os_ActiveManifestName o) (os_ActiveManifestName o').
Proof.
  intros [_ Hnext Hep Hact] Hpos Hrank. destruct Hact as [->|[_ Hn]].
  - split; [|intros e r Ha; by exists e, r]. intros e r Ha. apply Hrank in Ha. lia.
  - assert (manifestAt (os_ActiveManifestName o') (os_WriterEpoch o') (os_NextRevision o' - 1)) as Hx.
    { rewrite Hn. eexists. split_and!; [done|lia|lia]. }
    split.
    + intros e r Ha. destruct (manifestAt_fun _ _ _ _ _ Ha Hx) as [-> ->]. lia.
    + intros e r Ha. do 2 eexists. split; [exact Hx|]. apply Hrank in Ha. lia.
Qed.

Lemma own_next s i zone (own new : Object Ownership) :
  inv s → st_table s Ownership !! (ns, ownershipName zone) = Some own →
  own_step s (ownershipSpec own) (ownershipSpec new) → (st_version s < o_ResourceVersion new)%Z →
  inv (write i Ownership (ns, ownershipName zone) new s).
Proof.
  intros Hi Htab Hstep Hv. set (n := (ns, ownershipName zone)) in *.
  destruct (own_current _ _ _ Hi Htab) as (Hw & Hok & Hall).
  pose proof (write_extends durable i Ownership n new s Hv) as Hex.
  pose proof (extends_age _ _ _ _ _ Hex) as Hage. pose proof (extends_later _ _ _ _ _ Hex) as Hl.
  destruct Hok. assert (1 ≤ os_NextRevision (ownershipSpec own) ∧ 0 ≤ os_WriterEpoch (ownershipSpec own))%Z as Hpos by lia.
  destruct (own_step_rank _ _ _ Hstep Hpos ow_rank) as [Hrank Hfw]. destruct Hstep.
  eapply inv_extend; [done|exact Hex|]. accepts_kind. split.
  - split; [by rewrite os_zone0|lia|lia|done|].
    destruct os_active0 as [->|[(mo & ? & ?) _]].
    + rewrite os_zone0. destruct ow_active as [|(mo & ? & ?)]; [by left|right]. exists mo. eauto using wrote_later.
    + right. exists mo. eauto using wrote_later.
  - intros own' Hown'. destruct (Hall own' Hown') as (Hz & He & Hn & Hf).
    split_and!; [congruence|lia|lia|]. eapply forward_trans; [|exact Hf|exact Hfw].
    intros ? ? ? ?. apply manifestAt_fun.
Qed.

(** No entry of this revision of the zone has been made. *)
Definition unpublished (s : store) (zone : gostring) (r : Z) : Prop :=
  ∀ n o, n.1 = ns → wrote s TransportOutbox n o → shardOf o = [] →
    ownershipName (ob_ResourceUID (outboxSpec o)) = ownershipName zone → ob_Revision (outboxSpec o) ≠ r.

Lemma pub_ok_spec s k n o :
  pub_ok ns shards s k n o →
  ob_ResourceUID (outboxSpec o) = mk_zone k ∧ ob_Revision (outboxSpec o) = pb_revision (mk_pub k).
Proof.
  by intros [i t _ (? & ? & _ & _ & _ & ->)|t deps mo _ (? & _ & _ & ->)|t deps mo _ (? & _ & _ & ->)].
Qed.

Lemma unpublished_next s zone own :
  inv s → st_table s Ownership !! (ns, ownershipName zone) = Some own →
  unpublished s zone (os_NextRevision (ownershipSpec own)).
Proof.
  intros Hi Hown n o Hn Hw Hsh Hname Hrev. destruct (i_outbox_ok _ _ _ Hi) as [choice Hch].
  destruct (Hch n o Hn Hw) as [(x & (_ & _ & Hx & _) & _)|(zone' & r' & _ & Hmk & Hp)].
  { by rewrite Hsh in Hx. }
  apply pub_ok_spec in Hp as [Hu Hr]. destruct Hmk. rewrite Hu, mo_zone in Hname. rewrite Hr, mo_revision in Hrev.
  destruct mo_used as (own' & Hown' & _ & _ & Hnext). rewrite Hname in Hown'.
  destruct (own_current _ _ _ Hi Hown) as (_ & _ & Hall). destruct (Hall _ Hown') as (_ & _ & Hle & _). lia.
Qed.

Lemma own_update i s zone own labels spec' x s2 :
  inv s → wrote s Ownership (ns, ownershipName zone) own → own_step s (ownershipSpec own) spec' →
  serve i (Update Ownership (ns, ownershipName zone) (o_ResourceVersion own) labels spec') s x s2 →
  inv s2 ∧ (∀ j, rely j s s2) ∧
  ∀ new, x = Found new → wrote s2 Ownership (ns, ownershipName zone) new ∧ ownershipSpec new = spec'
    ∧ unpublished s2 zone (os_NextRevision (ownershipSpec own))
    ∧ (os_NextRevision (ownershipSpec own) < os_NextRevision spec' →
       took Ownership nextRevision s2 i (ns, ownershipName zone) (os_NextRevision (ownershipSpec own)))%Z.
Proof.
  intros Hi Hw Hstep Hserve. cbn [serve] in Hserve. set (n := (ns, ownershipName zone)) in *.
  destruct (st_table s Ownership !! n) as [old|] eqn:Htab.
  2:{ destruct Hserve as [-> Hx]. split_and!; [done|intros j; apply rely_refl|]. intros new ->. by destruct Hx. }
  destruct Hserve as [[-> ->]|[(_ & -> & ->)|(Hv & new & (Hu & Hver & _ & _ & _ & Hbody) & -> & Hx)]].
  1-2: split_and!; [done|intros j; apply rely_refl|done].
  destruct (own_current _ _ _ Hi Htab) as (Hold & _ & Hall).
  destruct (ver_unique _ (i_versioned _ _ _ Hi) _ _ _ _ _ Hold Hw Hv) as [_ ->].
  split_and!.
  - eapply own_next; [done|done| |done]. unfold ownershipSpec at 2. by rewrite Hbody.
  - intros j. by apply rely_silent.
  - intros new' ->. destruct Hx as [[= ->]|]; [|done]. split_and!; [|done| |].
    + apply wrote_write. by right.
    + intros n' o' Hn' Ho'. apply wrote_write_other in Ho'; [|done]. by eapply unpublished_next.
    + intros Hlt. apply took_write.
      * unfold nextRevision, ownershipSpec at 2. by rewrite Hbody.
      * intros own1 Hown1. destruct (Hall own1 Hown1) as (_ & _ & Hle & _). done.
Qed.

Lemma own_create i s zone labels spec x s2 :
  inv s → os_ZoneUID spec = zone → os_NextRevision spec = 1%Z → (1 ≤ os_WriterEpoch spec ≤ 2 ^ 38)%Z →
  os_ActiveManifestName spec = [] →
  serve i (Create Ownership (ns, ownershipName zone) labels spec) s x s2 →
  inv s2 ∧ ∀ j, rely j s s2.
Proof.
  intros Hi Hz Hnext Hep Hact Hserve. cbn [serve] in Hserve. set (n := (ns, ownershipName zone)) in *.
  destruct (st_table s Ownership !! n) as [old|] eqn:Htab.
  { destruct Hserve as [-> _]. split; [done|intros j; apply rely_refl]. }
  destruct Hserve as [[-> ->]|(own & Hfresh & Hne & Hascii & Hver & Hlab & Hbody & Hdel & -> & Hx)].
  { split; [done|intros j; apply rely_refl]. }
  split; [|intros j; by apply rely_silent]. assert (ownershipSpec own = spec) as Hspec by done.
  pose proof (write_extends durable i Ownership n own s Hver) as Hex.
  pose proof (extends_age _ _ _ _ _ Hex) as Hage. assert (0 ≤ age s)%Z by (unfold age; lia).
  eapply inv_extend; [done|exact Hex|]. accepts_kind. split.
  - split; rewrite Hspec; [by rewrite Hz|lia|lia| |by left]. rewrite Hact. by intros e r (? & ? & _).
  - intros own' Hown'. destruct (i_own_le _ _ _ Hi (ns, _) _ eq_refl Hown') as (cur & Hcur & _).
    unfold n in Htab. congruence.
Qed.

(** ** Manifests, chunks and bindings *)

Lemma manifest_write i s n mo :
  inv s → (st_version s < o_ResourceVersion mo)%Z →
  (n.1 = ns → manifest_ok ns shards s n mo) →
  inv (write i Manifest n mo s) ∧ ∀ j, rely j s (write i Manifest n mo s).
Proof.
  intros Hi Hv Hok. split; [|intros j; by apply rely_silent].
  pose proof (write_extends durable i Manifest n mo s Hv) as Hex. eapply inv_extend; [done|exact Hex|].
  accepts_kind. eapply manifest_ok_later; [by eapply extends_later|by apply Hok].
Qed.

Lemma chunk_write i s n c :
  inv s → (st_version s < o_ResourceVersion c)%Z →
  inv (write i ChunkObject n c s) ∧ ∀ j, rely j s (write i ChunkObject n c s).
Proof.
  intros Hi Hv. split; [|intros j; by apply rely_silent].
  eapply inv_extend; [done|by apply write_extends|]. accepts_kind.
Qed.

Lemma config_write i s n cm :
  inv s → (st_version s < o_ResourceVersion cm)%Z → ¬ isRecord ns n →
  inv (write i ConfigMap n cm s) ∧ ∀ j, rely j s (write i ConfigMap n cm s).
Proof.
  intros Hi Hv Hn. split; [|intros j; by apply rely_silent].
  eapply inv_extend; [done|by apply write_extends|]. accepts_kind. done.
Qed.

Lemma binding_write i s n b :
  inv s → (st_version s < o_ResourceVersion b)%Z → (n.1 = ns → binding_ok b) →
  inv (write i ResolverBinding n b s) ∧ ∀ j, rely j s (write i ResolverBinding n b s).
Proof.
  intros Hi Hv Hb. split; [|intros j; by apply rely_silent].
  eapply inv_extend; [done|by apply write_extends|]. accepts_kind.
Qed.

(** ** Entries *)

Lemma servingMade_same x n o o' : sameEntry o o' → servingMade ns x n o → servingMade ns x n o'.
Proof. intros [Hs Hl]. unfold servingMade, shardOf. by rewrite Hs, Hl. Qed.

Lemma pub_ok_same s k n o o' : outboxSpec o = outboxSpec o' → pub_ok ns shards s k n o → pub_ok ns shards s k n o'.
Proof.
  intros Hs [i t ? Hm ?|t deps mo ? Hm ? ? ?|t deps mo ? Hm ? ?].
  - eapply pub_chunk; [done| |done]. unfold chunkMade in *. by rewrite <- Hs.
  - eapply pub_manifest; [done| |done..]. unfold activationMade in *. by rewrite <- Hs.
  - eapply pub_withdrawal; [done| |done..]. unfold activationMade in *. by rewrite <- Hs.
Qed.

Lemma outbox_ok_same s choice n o o' :
  sameEntry o o' → outbox_ok ns shards s choice n o → outbox_ok ns shards s choice n o'.
Proof.
  intros Hsame [(x & Hx & Hok)|(zone & r & Hsh & Hm & Hp)].
  - left. exists x. split; [by eapply servingMade_same|done].
  - right. exists zone, r. destruct Hsame as [Hs Hl]. unfold shardOf in *. rewrite Hl in Hsh.
    split_and!; [done|done|by eapply pub_ok_same].
Qed.

Lemma sameEntry_sym o o' : sameEntry o o' → sameEntry o' o.
Proof. by intros []. Qed.
Lemma sameEntry_trans o1 o2 o3 : sameEntry o1 o2 → sameEntry o2 o3 → sameEntry o1 o3.
Proof. intros [? ?] [? ?]. split; congruence. Qed.

(** An object that has just been created has a life of its own. *)
Lemma created_alone s (n n' : Name) (o o' : Object TransportOutbox) :
  inv s → (o_UID o ∉ st_uids s) → wrote s TransportOutbox n' o' → o_UID o' ≠ o_UID o.
Proof. intros Hi Hfresh Hw Heq. apply Hfresh. rewrite <- Heq. by eapply i_uids. Qed.

Lemma serving_create i s x env labels reply s2 :
  inv s → serving_ok ns shards s x → (1 ≤ sv_epoch x ∧ 1 ≤ sv_revision x < 2 ^ 63)%Z →
  NewEnvelope KindServingSnapshot (sv_name x) (sv_region x) (sv_shard x) (sv_uid x) (sv_epoch x)
    (sv_revision x) (sv_now x) (ServingSnapshot_marshal (sv_snapshot x)) = Ok env →
  entry labels shardOwnerLabel = recordName (sv_token x) →
  took ConfigMap nextOf s i (ns, recordName (sv_token x)) (sv_revision x) →
  fresh s (sv_token x) (sv_revision x) →
  serve i (Create TransportOutbox (ns, sv_name x) labels
             (servingOutbox (sv_region x) (sv_shard x) (sv_uid x) (sv_epoch x) (sv_revision x)
                (encode (Envelope_json env)) (sv_deps x), emptyStatus)) s reply s2 →
  inv s2 ∧ (∀ j, j ≠ i → rely j s s2) ∧ reply ≠ AlreadyExists ∧
  ∀ o, reply = Found o → wrote s2 TransportOutbox (ns, sv_name x) o ∧ servingMade ns x (ns, sv_name x) o.
Proof.
  intros Hi Hok Hpos Henv Hlabel Htook Hfresh Hserve. cbn [serve] in Hserve. set (n := (ns, sv_name x)) in *.
  destruct (i_outbox_ok _ _ _ Hi) as [choice Hch].
  destruct (st_table s TransportOutbox !! n) as [old|] eqn:Htab.
  { exfalso. pose proof (i_outbox _ _ _ Hi n _ eq_refl Htab) as Hold.
    destruct (Hch n old eq_refl Hold) as [(x' & Hx' & _)|(zone & r & _ & Hmk & Hp)];
      [|by eapply serving_not_publication].
    destruct (Hx') as (Hn & Hpos' & _). apply (f_equal snd) in Hn. cbn [n snd] in Hn.
    unfold sv_name in Hn. apply servingName_inj in Hn as (Ht & _ & Hr); [|lia..]. by eapply (Hfresh n old x'). }
  destruct Hserve as [[-> ->]|(o & Hnew & _ & _ & Hver & Hlab & Hbody & _ & -> & Hx)].
  { split_and!; [done|intros; apply rely_refl|done|done]. }
  pose proof (write_extends durable i TransportOutbox n o s Hver) as Hex.
  pose proof (extends_later _ _ _ _ _ Hex) as Hl.
  assert (servingMade ns x n o) as Hmade.
  { split_and!; [done|lia|lia| |]. { unfold shardOf. by rewrite Hlab. }
    exists env. split; [done|]. unfold outboxSpec. by rewrite Hbody. }
  split_and!.
  - eapply inv_extend; [done|exact Hex|]. accepts_kind. split_and!.
    + intros Hs. unfold outboxStatus in Hs. rewrite Hbody in Hs. done.
    + intros o' Ho' Hu. exfalso. by eapply created_alone.
    + intros x0 n' o' x' Hx0 Ho' Hx' Ht Hr. exfalso. destruct (made_same _ _ _ _ _ Hmade Hx0) as (Ht0 & _ & Hr0).
      eapply (Hfresh n' o' x'); [done|done|congruence..].
    + exists choice. intros n' o' Hn' Ho'. apply wrote_write in Ho' as [Ho'|[-> ->]].
      * eapply outbox_ok_later; eauto.
      * left. exists x. split; [done|by eapply serving_ok_later].
  - intros j Hj. eapply rely_extend; [exact Hex|]. intros n' o' _ Hw. rewrite written_same in Hw.
    injection Hw as <- <-. destruct Hmade as (_ & _ & Hsh & env0 & _ & Hspec).
    intros [(token & Hsh' & Htook')|[Hsh' _]]; [|by rewrite Hsh in Hsh'].
    rewrite Hsh in Hsh'. apply record_inj in Hsh' as <-. rewrite Hspec in Htook'.
    cbn [servingOutbox ob_Revision] in Htook'. rewrite wrap64_id in Htook' by lia.
    destruct Hj. by eapply took_unique.
  - by destruct Hx as [->| ->].
  - intros o' ->. destruct Hx as [[= ->]|]; [|done]. split; [apply wrote_write; by right|done].
Qed.

(** What the process that took a revision of a zone knows: all entries of the revision are
    its own. *)
Record holding (s : store) (i : nat) (zone : gostring) (r : Z) (k : Making) : Prop := {
  hd_took : took Ownership nextRevision s i (ns, ownershipName zone) r;
  hd_making : making_ok ns s zone r k;
  hd_entries : ∀ n o, n.1 = ns → wrote s TransportOutbox n o → shardOf o = [] →
    ownershipName (ob_ResourceUID (outboxSpec o)) = ownershipName zone → ob_Revision (outboxSpec o) = r →
    pub_ok ns shards s k n o;
}.

Lemma holding_rely i s s' zone r k : holding s i zone r k → rely i s s' → holding s' i zone r k.
Proof.
  intros [Htook Hmk Hall] [Hl Hrely]. split; [by eapply took_later|by eapply making_ok_later|].
  intros n o Hn Hw Hsh Hz Hr. destruct (Hrely n o Hn Hw) as (o' & Hw' & Hspec & Hlab).
  { right. split; [done|]. by rewrite Hz, Hr. }
  eapply pub_ok_same; [exact Hspec|]. eapply pub_ok_later; [done|]. apply Hall; [done|done| | |].
  - unfold shardOf in *. by rewrite Hlab.
  - by rewrite Hspec.
  - by rewrite Hspec.
Qed.

Lemma pub_create i s zone r k n labels spec reply s2 :
  inv s → holding s i zone r k → n.1 = ns → entry labels shardOwnerLabel = [] →
  ob_ResourceUID spec = zone → ob_Revision spec = r →
  (∀ o, outboxSpec o = spec → pub_ok ns shards s k n o) →
  serve i (Create TransportOutbox n labels (spec, emptyStatus)) s reply s2 →
  inv s2 ∧ (∀ j, j ≠ i → rely j s s2) ∧ holding s2 i zone r k ∧
  ∀ o, reply = Found o → wrote s2 TransportOutbox n o ∧ outboxSpec o = spec ∧ shardOf o = [].
Proof.
  intros Hi Hhold Hn Hlabel Hz Hr Hpub Hserve. cbn [serve] in Hserve.
  destruct (st_table s TransportOutbox !! n) as [old|] eqn:Htab.
  { destruct Hserve as [-> Hx]. split_and!; [done|intros; apply rely_refl|done|]. intros o ->. by destruct Hx. }
  destruct Hserve as [[-> ->]|(o & Hnew & _ & _ & Hver & Hlab & Hbody & _ & -> & Hx)].
  { split_and!; [done|intros; apply rely_refl|done|done]. }
  pose proof (write_extends durable i TransportOutbox n o s Hver) as Hex.
  pose proof (extends_later _ _ _ _ _ Hex) as Hl.
  assert (outboxSpec o = spec) as Hspec by (unfold outboxSpec; by rewrite Hbody).
  assert (shardOf o = []) as Hsh by (unfold shardOf; by rewrite Hlab).
  assert (holding (write i TransportOutbox n o s) i zone r k) as Hhold'.
  { destruct Hhold. split; [by eapply took_later|by eapply making_ok_later|].
    intros n' o' Hn' Ho' Hsh' Hz' Hr'. eapply pub_ok_later; [done|].
    apply wrote_write in Ho' as [Ho'|[-> ->]]; [by apply hd_entries0|by apply Hpub]. }
  split_and!; [| |done|].
  - eapply inv_extend; [done|exact Hex|]. accepts_kind. split_and!.
    + intros Hs. unfold outboxStatus in Hs. rewrite Hbody in Hs. done.
    + intros o' Ho' Hu. exfalso. by eapply created_alone.
    + intros x0 n' o' x' (_ & _ & Hsh0 & _). by rewrite Hsh in Hsh0.
    + destruct (i_outbox_ok _ _ _ Hi) as [choice Hch].
      exists (λ z' r', if decide (z' = zone ∧ r' = r) then k else choice z' r').
      intros n' o' Hn' Ho'. pose proof (hd_making _ _ _ _ _ Hhold') as Hmk.
      destruct (decide (shardOf o' = [] ∧ ob_ResourceUID (outboxSpec o') = zone ∧ ob_Revision (outboxSpec o') = r))
        as [(Hsh' & Hz' & Hr')|Hno].
      { right. exists zone, r. rewrite decide_True by done. split_and!; [done|done|].
        apply (hd_entries _ _ _ _ _ Hhold'); [done..|by rewrite Hz'|done]. }
      apply wrote_write in Ho' as [Ho'|[-> ->]]; [|destruct Hno; by rewrite Hspec].
      apply (outbox_ok_later ns shards s _ _ _ _ Hl).
      destruct (Hch n' o' Hn' Ho') as [?|(zone' & r' & Hsh' & Hmk' & Hp')]; [by left|].
      right. exists zone', r'. rewrite decide_False; [done|]. intros [-> ->]. destruct Hno.
      pose proof (pub_ok_spec _ _ _ _ Hp') as [-> ->]. destruct Hmk'. done.
  - intros j Hj. eapply rely_extend; [exact Hex|]. intros n' o' _ Hw. rewrite written_same in Hw.
    injection Hw as <- <-. intros [(token & Hsh' & _)|[_ Htook']]; [by rewrite Hsh in Hsh'|].
    rewrite Hspec, Hz, Hr in Htook'. destruct Hj, Hhold. by eapply took_unique.
  - intros o' ->. destruct Hx as [[= ->]|]; [|done]. split_and!; [apply wrote_write; by right|done|done].
Qed.

Lemma status_update i s n out status reply s2 :
  inv s → n.1 = ns → wrote s TransportOutbox n out →
  (obs_State status = dnsValueAcknowledged →
   ∃ env, entryEnvelope (outboxSpec out) = Some env ∧ happened (st_log s) (ob_Subject (outboxSpec out)) env) →
  serve i (Update TransportOutbox n (o_ResourceVersion out) (o_Labels out) (outboxSpec out, status)) s reply s2 →
  inv s2 ∧ ∀ j, rely j s s2.
Proof.
  intros Hi Hn Hw Hack Hserve. cbn [serve] in Hserve.
  destruct (st_table s TransportOutbox !! n) as [old|] eqn:Htab.
  2:{ destruct Hserve as [-> _]. split; [done|intros; apply rely_refl]. }
  destruct Hserve as [[-> _]|[(_ & -> & _)|(Hv & o & (Hu & Hver & Hlab & _ & _ & Hbody) & -> & _)]].
  1-2: split; [done|intros; apply rely_refl].
  pose proof (i_outbox _ _ _ Hi n _ Hn Htab) as Hold.
  destruct (ver_unique _ (i_versioned _ _ _ Hi) _ _ _ _ _ Hold Hw Hv) as [_ ->].
  pose proof (write_extends durable i TransportOutbox n o s Hver) as Hex.
  pose proof (extends_later _ _ _ _ _ Hex) as Hl.
  assert (sameEntry out o) as Hsame by (split; [unfold outboxSpec; by rewrite Hbody|done]).
  split.
  - eapply inv_extend; [done|exact Hex|]. accepts_kind. split_and!.
    + intros Hs. destruct Hsame as [<- _]. unfold outboxStatus in Hs. rewrite Hbody in Hs.
      destruct (Hack Hs) as (env & ? & ?). exists env. eauto using happened_later.
    + intros o' Ho' Hu'. eapply sameEntry_trans; [|exact Hsame]. eapply i_lifetime; [done|done|done|done|congruence].
    + intros x n' o' x' Hx Ho' Hx' Ht Hr. destruct (Hsame) as [<- _].
      eapply (i_unique _ _ _ Hi); [done|done| |done..]. by eapply servingMade_same; [apply sameEntry_sym|].
    + destruct (i_outbox_ok _ _ _ Hi) as [choice Hch]. exists choice. intros n' o' Hn' Ho'.
      apply (outbox_ok_later ns shards s _ _ _ _ Hl).
      apply wrote_write in Ho' as [Ho'|[-> ->]]; [by apply Hch|]. eapply outbox_ok_same; [exact Hsame|by apply Hch].
  - intros j. eapply rely_extend; [exact Hex|]. intros n' o' _ Hw'. rewrite written_same in Hw'.
    injection Hw' as <- <-. eauto.
Qed.

(** ** The stream *)

Lemma publish_note i s subject env :
  inv s → gate ns (st_log s) subject env →
  inv (note i (Published subject env) s) ∧ ∀ j, rely j s (note i (Published subject env) s).
Proof.
  intros Hi Hg. pose proof (note_extends durable i (Published subject env) s (λ _, eq_refl)) as Hex. split.
  - eapply inv_extend; [done|exact Hex|]. split; try done. by intros ? ? [= <- <-].
  - intros j. by eapply rely_extend.
Qed.
Lemma keep_note i s key env :
  inv s → inv (note i (Kept key env) s) ∧ ∀ j, rely j s (note i (Kept key env) s).
Proof.
  intros Hi. pose proof (note_extends durable i (Kept key env) s (λ _, eq_refl)) as Hex. split.
  - by eapply inv_extend; [done|exact Hex|].
  - intros j. by eapply rely_extend.
Qed.
End writes.

(** * The logic of the processes *)

Create HintDb protocol.

(** Every call only adds to the history. *)
Lemma serve_later i {R} (c : Call R) s x s' : serve i c s x s' → later s s'.
Proof.
  destruct c; cbn [serve]; intros Hs; repeat case_match;
    repeat match goal with
    | H : ∃ _, _ |- _ => destruct H
    | H : _ ∧ _ |- _ => destruct H
    | H : _ ∨ _ |- _ => destruct H
    end; simplify_eq; (done || apply later_write || apply later_remove || apply later_note).
Qed.

Section logic.
Context `{GoRuntime} `{ApiMeta} `{K8sValidation} `{MiekgDNS}.
Context (ns : gostring) (shards : list ServingRegion).
Abbreviation inv := (inv ns shards).
Abbreviation within := (within ns shards).
Abbreviation rely := (rely ns).
Definition safe {A} (i : nat) (p : prog A) (Q : A → store → Prop) (s : store) : Prop := wp inv rely within i p Q s.

Lemma rely_later i s s' : rely i s s' → later s s'.
Proof. by intros []. Qed.

Lemma safe_ret {A} i (a : A) (Q : A → store → Prop) s : Q a s → safe i (mret a) Q s.
Proof. done. Qed.
Lemma safe_bind {A B} i (p : prog A) (g : A → prog B) Q s :
  safe i p (λ a s', safe i (g a) Q s') s → safe i (p ≫= g) Q s.
Proof. apply wp_bind. Qed.
Lemma safe_mono {A} i (p : prog A) (Q Q' : A → store → Prop) s :
  safe i p Q s → (∀ a s', Q a s' → Q' a s') → safe i p Q' s.
Proof. apply wp_mono. Qed.

(** First [p], with what it establishes, then the rest. *)
Lemma safe_seq {A B} i (p : prog A) (g : A → prog B) (Q : A → store → Prop) Q' s :
  safe i p Q s → (∀ a s', Q a s' → safe i (g a) Q' s') → safe i (p ≫= g) Q' s.
Proof. intros Hp Hg. apply safe_bind. by eapply safe_mono. Qed.

Lemma safe_call {A R} i (c : Call R) (f : R → prog A) Q s :
  (∀ s1 x s2, rely i s s1 → inv s1 → serve i c s1 x s2 → within s2 →
    inv s2 ∧ (∀ j, j ≠ i → rely j s1 s2) ∧ safe i (f x) Q s2) →
  safe i (call c ≫= f) Q s.
Proof. apply wp_call. Qed.

Lemma safe_read {A R} i (c : Call R) (f : R → prog A) Q s :
  reads c →
  (∀ s1 x, rely i s s1 → inv s1 → within s1 → serve i c s1 x s1 → safe i (f x) Q s1) →
  safe i (call c ≫= f) Q s.
Proof.
  intros Hc Hf. apply safe_call. intros s1 x s2 Hr Hi Hs Hw. pose proof (Hc i s1 x s2 Hs) as ->.
  split_and!; [done|intros; apply rely_refl|by apply Hf].
Qed.

Lemma safe_get {A} i (k : Kind) (n : Name) (f : Reply (Object k) → prog A) Q s :
  (∀ s1, rely i s s1 → inv s1 → within s1 →
    safe i (f Failed) Q s1 ∧
    safe i (f (match st_table s1 k !! n with Some o => Found o | None => NotFound end)) Q s1) →
  safe i (call (Get k n) ≫= f) Q s.
Proof.
  intros Hf. apply safe_read; [apply reads_Get|]. intros s1 x Hr Hi Hw [_ Hx].
  destruct (Hf s1 Hr Hi Hw) as [Hfail Hok]. by destruct Hx as [->| ->].
Qed.

Lemma safe_list {A} i (k : Kind) labels (f : Reply (list (Name * Object k)) → prog A) Q s :
  (∀ s1 l, rely i s s1 → inv s1 → within s1 → safe i (f Failed) Q s1 ∧
    ((∀ n o, (n, o) ∈ l → n.1 = ns ∧ st_table s1 k !! n = Some o) → safe i (f (Found l)) Q s1)) →
  safe i (call (List_ k ns labels) ≫= f) Q s.
Proof.
  intros Hf. apply safe_read; [apply reads_List|]. intros s1 x Hr Hi Hw [_ Hx].
  destruct Hx as [->|(l & -> & Hl)]; [by destruct (Hf s1 [] Hr Hi Hw)|].
  apply (Hf s1 l Hr Hi Hw). intros n o Hin. rewrite Hl in Hin.
  apply list_elem_of_filter in Hin as [[Hns _] Hin]. by apply elem_of_map_to_list in Hin.
Qed.

Lemma safe_clock {A} i (f : Z → prog A) Q s :
  (∀ s1 t, rely i s s1 → inv s1 → clockRange t → safe i (f t) Q s1) → safe i (call Clock ≫= f) Q s.
Proof.
  intros Hf. apply safe_read; [apply reads_Clock|]. intros s1 x Hr Hi Hw [_ Hx]. by apply Hf.
Qed.

(** A program that only reads. *)
Lemma safe_readonly {A} i (p : prog A) s : readonly p → safe i p (λ _ s', rely i s s') s.
Proof.
  intros Hp. induction Hp as [a|R c f Hc _ IH] in s |- *; [apply rely_refl|].
  intros s1 x s2 Hr Hi Hs Hw. pose proof (Hc i s1 x s2 Hs) as ->. split_and!; [done|intros; apply rely_refl|].
  eapply safe_mono; [apply IH|]. cbn. intros a s' Hr'. by eapply rely_trans.
Qed.

(** Times the processes write are in range. *)
Lemma clock_marshalable t d : clockRange t → (0 ≤ d < 2 ^ 63)%Z → marshalable (t + d) = true.
Proof.
  unfold clockRange. intros Ht Hd. unfold marshalable, Year.
  assert (0 ≤ (t + d) / (86400 * nanosPerSecond) < 2674500)%Z as Hday.
  { unfold nanosPerSecond. split; [apply Z.div_pos; lia|apply Z.div_lt_upper_bound; lia]. }
  generalize dependent ((t + d) / (86400 * nanosPerSecond))%Z. clear. intros z Hz. unfold civil. cbn [fst].
  set (era := ((z + 719468) / 146097)%Z). set (doe := ((z + 719468) mod 146097)%Z).
  assert (4 ≤ era ≤ 23 ∧ 0 ≤ doe < 146097)%Z as [He Hdoe].
  { subst era doe. Z.to_euclidean_division_equations. lia. }
  set (yoe := ((doe - doe / 1460 + doe / 36524 - doe / 146096) / 365)%Z).
  assert (0 ≤ yoe ≤ 400)%Z as Hy.
  { subst yoe. clearbody doe. Z.to_euclidean_division_equations. lia. }
  clearbody era yoe doe. repeat case_match; lia.
Qed.
End logic.

#[export] Hint Resolve rely_refl rely_later : protocol.
#[export] Hint Extern 2 (rely _ _ _ _) => (eapply rely_trans; eassumption) : protocol.

(** The program ends here. *)
Ltac finish := apply safe_ret; split_and?; intros; first [done | by eauto with protocol | idtac].
