(* ===== verification/PublishOutbox.v ===== *)
(** The outbox keeps the protocol: it publishes an entry only when the entry is committed
    and its dependencies are published, and acknowledges only what it has published. *)

From S2P Require Import Prelude GoStrings GoCrypto GoJson GoJsonDecode Api ApiMeta ReservedScopes.
From S2P Require Import WireModel Publication Capacity Compile CompileHistory WireDecode ApiStore.
From S2P Require Import ShardState ApiHistory Planner Outbox Publisher PublishInvariant PublishWire.
From S2P Require Import PublishEvents PublishWrites.

Section outbox.
Context `{GoRuntime} `{ApiMeta} `{K8sValidation} `{MiekgDNS}.
Context (ns : gostring) (shards : list ServingRegion).
Abbreviation inv := (inv ns shards).
Abbreviation within := (within ns shards).
Abbreviation rely := (rely ns).
Abbreviation safe := (safe ns shards).
Abbreviation acked := (acked ns).
Abbreviation depReady := (depReady ns).
Abbreviation entryCommitted := (entryCommitted ns).

(** What the map of states says is so. *)
Definition states_ok (s : store) (states : gmap gostring gostring) : Prop :=
  ∀ name, states !! name = Some dnsValueAcknowledged → acked s name.

Lemma states_ok_later s s' states : later s s' → states_ok s states → states_ok s' states.
Proof. intros Hl Hs name Hn. eapply acked_later; eauto. Qed.

Lemma states_ok_insert s states name state :
  states_ok s states → (state = dnsValueAcknowledged → acked s name) → states_ok s (<[name := state]> states).
Proof. intros Hs Hn name' [[<- Heq]|[_ Heq]]%lookup_insert_Some; [by apply Hn|by apply Hs]. Qed.

Lemma acked_entry s name o :
  inv s → st_table s TransportOutbox !! (ns, name) = Some o →
  obs_State (outboxStatus o) = dnsValueAcknowledged → acked s name.
Proof.
  intros Hi Ho Hst. pose proof (i_outbox _ _ _ Hi (ns, _) _ eq_refl Ho) as Hw.
  destruct (i_ack _ _ _ Hi (ns, _) _ eq_refl Hw Hst) as (env & Henv & Hhap). by exists env, o.
Qed.

(** ** Reads *)

Lemma safe_committed i s n out env :
  n.1 = ns → wrote s TransportOutbox n out → entryEnvelope (outboxSpec out) = Some env →
  safe i (committed ns n out env) (λ r s', rely i s s' ∧ (r = Ok true → entryCommitted s' n out env)) s.
Proof.
  intros Hn Hout Henv. unfold committed. destruct (decide (e_Kind env = KindServingSnapshot)) as [Hk|Hk].
  - case_decide; [finish|].
    apply safe_get. intros s1 Hr1 Hi1 Hw1. split; [finish|].
    destruct (st_table s1 ConfigMap !! _) as [cm|] eqn:Hcm; [|finish].
    apply safe_ret. split; [done|]. destruct (readShardState cm) as [st|] eqn:Hst; [|done].
    intros [= Heq]. rewrite !andb_true_iff, !bool_decide_eq_true, Z.eqb_eq in Heq.
    destruct Heq as [[Huid Hep] Hact]. unfold entryCommitted. rewrite decide_True by done.
    exists cm, st. split_and!; [|done..].
    destruct (serving_label ns shards s1 n out env) as [token Htok];
      [done|done|done|by eapply wrote_later; [eapply rely_later|]|done|done|].
    eapply i_record; [done| |done]. rewrite Htok. apply isRecord_name.
  - case_decide; [finish|].
    apply safe_get. intros s1 Hr1 Hi1 Hw1. split; [finish|].
    destruct (st_table s1 Manifest !! _) as [mo|] eqn:Hmo; [|finish].
    apply safe_get. intros s2 Hr2 Hi2 Hw2. split; [finish|].
    destruct (st_table s2 Ownership !! _) as [own|] eqn:Hown; [|finish].
    apply safe_ret. split; [eauto with protocol|]. intros [= Heq].
    rewrite !andb_true_iff, bool_decide_eq_true in Heq. destruct Heq as [[[_ Hact] _] _].
    unfold entryCommitted. rewrite decide_False by done. exists mo, own. split_and!; [|by eapply (i_own _ _ _ Hi2 (ns, _))|done].
    eapply wrote_later; [by eapply rely_later|]. by eapply (i_manifest _ _ _ Hi1 (ns, _)).
Qed.

Lemma safe_dependencyReady i s env name states :
  states_ok s states →
  safe i (dependencyReady ns env name states)
    (λ r s', rely i s s' ∧ states_ok s' r.2 ∧ (r.1 = Ok true → depReady s' env name)) s.
Proof.
  intros Hst. unfold dependencyReady. case_decide as Hentry.
  { apply safe_ret. split_and!; [apply rely_refl|done|]. intros _. left. apply Hst.
    unfold entry in Hentry. by destruct (states !! name) as [x|]; cbn in Hentry; subst. }
  apply safe_get. intros s1 Hr1 Hi1 Hw1. pose proof (states_ok_later _ _ _ (rely_later _ _ _ _ Hr1) Hst) as Hst1.
  split; [finish|]. destruct (st_table s1 TransportOutbox !! _) as [dep|] eqn:Hdep; [|finish].
  case_decide as Hack.
  { apply safe_ret. pose proof (acked_entry _ _ _ Hi1 Hdep Hack) as Ha.
    split_and!; [done|by apply states_ok_insert|by left]. }
  case_match eqn:Hkind; [finish|]. rewrite orb_false_iff, !bool_decide_eq_false in Hkind.
  destruct Hkind as [Hkind Href]. apply dec_stable in Hkind.
  apply safe_get. intros s2 Hr2 Hi2 Hw2. pose proof (states_ok_later _ _ _ (rely_later _ _ _ _ Hr2) Hst1) as Hst2.
  assert (rely i s s2) as Hr02 by eauto with protocol.
  split; [finish|]. destruct (st_table s2 Manifest !! _) as [prev|] eqn:Hprev; [|finish].
  apply safe_get. intros s3 Hr3 Hi3 Hw3. pose proof (states_ok_later _ _ _ (rely_later _ _ _ _ Hr3) Hst2) as Hst3.
  assert (rely i s s3) as Hr03 by eauto with protocol.
  split; [finish|]. destruct (st_table s3 Ownership !! _) as [own|] eqn:Hown; [|finish].
  case_decide as Hact; [finish|].
  apply safe_get. intros s4 Hr4 Hi4 Hw4. pose proof (states_ok_later _ _ _ (rely_later _ _ _ _ Hr4) Hst3) as Hst4.
  assert (rely i s s4) as Hr04 by eauto with protocol.
  split; [finish|]. destruct (st_table s4 Manifest !! _) as [cur|] eqn:Hcur; [|finish].
  case_match eqn:Hcmp; [finish|]. apply Z.ltb_ge in Hcmp.
  apply safe_get. intros s5 Hr5 Hi5 Hw5. pose proof (states_ok_later _ _ _ (rely_later _ _ _ _ Hr5) Hst4) as Hst5.
  assert (rely i s s5) as Hr05 by eauto with protocol.
  split; [finish|]. destruct (st_table s5 TransportOutbox !! _) as [activation|] eqn:Hacts; [|finish].
  apply safe_ret. split_and!; [done|done|]. intros [= Hb%bool_decide_eq_true].
  right. split; [done|]. exists dep, prev, own, cur.
  assert (later s1 s5 ∧ later s2 s5 ∧ later s3 s5 ∧ later s4 s5) as (Hl1 & Hl2 & Hl3 & Hl4).
  { pose proof (rely_later _ _ _ _ Hr2). pose proof (rely_later _ _ _ _ Hr3). pose proof (rely_later _ _ _ _ Hr4).
    pose proof (rely_later _ _ _ _ Hr5). split_and!; repeat (done || (etrans; [eassumption|])). }
  split_and!; [..|done| |done|by eapply acked_entry].
  - eapply wrote_later; [exact Hl1|]. by eapply (i_outbox _ _ _ Hi1 (ns, _)).
  - eapply wrote_later; [exact Hl2|]. by eapply (i_manifest _ _ _ Hi2 (ns, _)).
  - eapply wrote_later; [exact Hl3|]. by eapply (i_own _ _ _ Hi3 (ns, _)).
  - eapply wrote_later; [exact Hl4|]. by eapply (i_manifest _ _ _ Hi4 (ns, _)).
Qed.

Lemma safe_dependenciesReady i s env deps states :
  states_ok s states →
  safe i (dependenciesReady ns env deps states)
    (λ r s', rely i s s' ∧ states_ok s' r.2 ∧ (r.1 = Ok true → ∀ dep, dep ∈ deps → depReady s' env dep)) s.
Proof.
  revert s states. induction deps as [|dep deps IH]; intros s states Hst; cbn [dependenciesReady].
  { apply safe_ret. split_and!; [apply rely_refl|done|]. by intros _ dep ?%elem_of_nil. }
  eapply safe_seq; [by apply safe_dependencyReady|]. intros [r states1] s1 (Hr1 & Hst1 & Hdep).
  destruct r as [[]|e]; [|finish..]. cbn [fst snd] in *. specialize (Hdep eq_refl).
  eapply safe_mono; [by apply IH|]. intros [r states2] s2 (Hr2 & Hst2 & Hall).
  split_and!; [eauto with protocol|done|]. intros Hok dep' [->|Hin]%elem_of_cons; [|by apply Hall].
  eapply depReady_later; [by eapply rely_later|done].
Qed.

Lemma safe_superseded i s out env : safe i (superseded ns out env) (λ _ s', rely i s s') s.
Proof.
  unfold superseded. case_decide.
  - apply safe_get. intros s1 Hr1 Hi1 Hw1. split; [finish|].
    destruct (st_table s1 ConfigMap !! _) as [cm|]; [|finish]. destruct (readShardState cm); [|finish].
    case_decide; [finish|]. case_decide; [finish|].
    apply safe_get. intros s2 Hr2 Hi2 Hw2. split; [finish|].
    destruct (st_table s2 TransportOutbox !! _); finish.
  - apply safe_get. intros s1 Hr1 Hi1 Hw1. split; [finish|].
    destruct (st_table s1 Ownership !! _) as [own|]; [|finish]. case_decide; [finish|].
    apply safe_get. intros s2 Hr2 Hi2 Hw2. split; [finish|]. destruct (st_table s2 Manifest !! _); finish.
Qed.

(** ** Writes *)

Lemma safe_patchStatus i s n out status :
  n.1 = ns → wrote s TransportOutbox n out →
  (obs_State status = dnsValueAcknowledged →
   ∃ env, entryEnvelope (outboxSpec out) = Some env ∧ happened (st_log s) (ob_Subject (outboxSpec out)) env) →
  safe i (patchStatus n out status) (λ _ s', rely i s s') s.
Proof.
  intros Hn Hout Hack. unfold patchStatus. apply safe_call. intros s1 x s2 Hr Hi Hs Hw.
  pose proof (rely_later _ _ _ _ Hr) as Hl.
  destruct (status_update ns shards i s1 n out status x s2) as [Hi2 Hr2]; [done|done|by eapply wrote_later| |done|].
  { intros Hst. destruct (Hack Hst) as (env & ? & ?). exists env. eauto using happened_later. }
  split_and!; [done|auto|]. specialize (Hr2 i). destruct x; finish.
Qed.

Lemma safe_markExported i s name now : safe i (markExported ns name now) (λ _ s', rely i s s') s.
Proof.
  unfold markExported. apply safe_get. intros s1 Hr1 Hi1 Hw1. split; [finish|].
  destruct (st_table s1 Manifest !! _) as [m|]; [|finish]. case_match; [finish|].
  apply safe_call. intros s2 x s3 Hr2 Hi2 Hs Hw3.
  enough (inv s3 ∧ ∀ j, rely j s2 s3) as [Hi3 Hr3].
  { split_and!; [done|auto|]. specialize (Hr3 i). assert (rely i s s2) by eauto with protocol. destruct x; finish. }
  cbn [serve] in Hs. destruct (st_table s2 Manifest !! (ns, name)) as [old|] eqn:Hold.
  2:{ destruct Hs as [-> _]. split; [done|intros; apply rely_refl]. }
  destruct Hs as [[-> _]|(mo & (_ & Hver & _ & _ & _ & Hbody) & -> & _)]; [split; [done|intros; apply rely_refl]|].
  apply manifest_write; [done|done|]. intros _. pose proof (i_manifest _ _ _ Hi2 (ns, _) _ eq_refl Hold) as Hwo.
  pose proof (i_manifest_ok _ _ _ Hi2 (ns, _) _ eq_refl Hwo) as Hok.
  assert (manifestSpec mo = manifestSpec old) as Hspec by (unfold manifestSpec; by rewrite Hbody).
  destruct Hok. split; rewrite Hspec; done.
Qed.

Lemma safe_send i s o n out env :
  n.1 = ns → wrote s TransportOutbox n out → entryEnvelope (outboxSpec out) = Some env →
  entryCommitted s n out env → (∀ dep, dep ∈ ob_DependsOn (outboxSpec out) → depReady s env dep) →
  safe i (send o (outboxSpec out) env)
    (λ r s', rely i s s' ∧ (∀ seq, r = Ok seq → happened (st_log s') (ob_Subject (outboxSpec out)) env)) s.
Proof.
  intros Hn Hout Henv Hcom Hdeps. unfold send. apply safe_call. intros s1 x s2 Hr Hi Hs Hw.
  pose proof (rely_later _ _ _ _ Hr) as Hl. cbn [serve] in Hs. destruct Hs as [[-> ->]| ->].
  { split_and!; [done|intros; apply rely_refl|]. finish. }
  set (s2 := note i (Published (ob_Subject (outboxSpec out)) env) s1) in *.
  destruct (publish_note ns shards i s1 (ob_Subject (outboxSpec out)) env) as [Hi2 Hr2]; [done| |].
  { apply (gate_entry ns shards s1 n); [done| |done|by eapply wrote_later|done|by eapply entryCommitted_later|].
    - eapply within_later; [|exact Hw]. apply later_note.
    - intros dep Hin. eapply depReady_later; eauto. }
  fold s2 in Hi2, Hr2. split_and!; [done|auto|]. pose proof (Hr2 i) as Hr2i.
  assert (rely i s s2) as Hr02 by eauto with protocol.
  assert (happened (st_log s2) (ob_Subject (outboxSpec out)) env) as Hhap.
  { exists i. apply elem_of_app. right. by apply list_elem_of_singleton. }
  destruct x as [seq|]; [|finish]. destruct (ox_Bootstrap o); [|finish].
  destruct (snapshotKeyOf env) as [key|]; [|finish].
  apply safe_call. intros s3 y s4 Hr3 Hi3 Hs4 Hw4. cbn [serve] in Hs4. destruct Hs4 as [[-> ->]| ->].
  { split_and!; [done|intros; apply rely_refl|]. finish. }
  destruct (keep_note ns shards i s3 key env Hi3) as [Hi4 Hr4]. split_and!; [done|auto|].
  specialize (Hr4 i). assert (rely i s2 (note i (Kept key env) s3)) as Hr24 by by eapply rely_trans.
  destruct y as [y|]; [|finish]. apply safe_ret. split; [by eapply rely_trans|].
  intros seq' _. eapply happened_later; [by eapply rely_later|exact Hhap].
Qed.

Lemma safe_settle i s o n out env sent first states :
  ox_Namespace o = ns → n.1 = ns → wrote s TransportOutbox n out → entryEnvelope (outboxSpec out) = Some env →
  states_ok s states →
  (∀ seq, sent = Ok seq → happened (st_log s) (ob_Subject (outboxSpec out)) env) →
  safe i (settle o n out env sent first states) (λ r s', rely i s s' ∧ states_ok s' r.2) s.
Proof.
  intros Hns Hn Hout Henv Hst Hsent. unfold settle. rewrite Hns.
  apply safe_get. intros s1 Hr1 Hi1 Hw1. pose proof (rely_later _ _ _ _ Hr1) as Hl1.
  pose proof (states_ok_later _ _ _ Hl1 Hst) as Hst1. split; [finish|].
  destruct (st_table s1 TransportOutbox !! n) as [current|] eqn:Hcur; [|finish].
  case_match eqn:Hb; [finish|]. rewrite orb_false_iff, bool_decide_eq_false in Hb.
  destruct Hb as [Huid%dec_stable _].
  pose proof (i_outbox _ _ _ Hi1 n current Hn Hcur) as Hwc.
  assert (sameEntry current out) as [Hspec _].
  { eapply (i_lifetime _ _ _ Hi1 n); [done|done|by eapply wrote_later|done]. }
  apply safe_clock. intros s2 now Hr2 Hi2 _. assert (rely i s s2) as Hr02 by eauto with protocol.
  apply (safe_seq _ _ _ _ _ (λ _ s', rely i s2 s')).
  { destruct sent; [|finish]. case_decide; [apply safe_markExported|finish]. }
  intros err s3 Hr3. assert (rely i s s3) as Hr03 by eauto with protocol.
  pose proof (rely_later _ _ _ _ Hr03) as Hl3. pose proof (states_ok_later _ _ _ Hl3 Hst) as Hst3.
  assert (wrote s3 TransportOutbox n current) as Hwc3.
  { eapply wrote_later; [|exact Hwc]. eapply rely_later. by eapply rely_trans. }
  assert (∀ status first' states',
    (obs_State status = dnsValueAcknowledged → ∃ seq, sent = Ok seq) → states_ok s3 states' →
    safe i (e ← patchStatus n current status;
            mret (match e with None => first' | Some e => note_first first' e end, states'))
      (λ r s', rely i s s' ∧ states_ok s' r.2) s3) as Hpatch.
  { intros status first' states' Hack Hst'. apply (safe_seq _ _ _ _ _ (λ _ s', rely i s3 s')).
    - apply safe_patchStatus; [done|done|]. intros Hs. destruct (Hack Hs) as [seq Hseq]. exists env.
      rewrite Hspec. split; [done|]. eapply happened_later; eauto.
    - intros e s4 Hr4. apply safe_ret. split; [by eapply rely_trans|].
      eapply states_ok_later; [by eapply rely_later|done]. }
  destruct err as [e|], sent as [seq|e']; cbn beta iota zeta; apply Hpatch; eauto; try done.
  apply states_ok_insert; [done|]. intros _. exists env, current. rewrite Hspec.
  destruct n as [n1 n2]. cbn in Hn |- *. subst n1. split_and!; [done|done|]. eapply happened_later; eauto.
Qed.

Lemma safe_publishEntry i s o n out first states :
  ox_Namespace o = ns → n.1 = ns → wrote s TransportOutbox n out → states_ok s states →
  safe i (publishEntry o n out first states) (λ r s', rely i s s' ∧ states_ok s' r.2) s.
Proof.
  intros Hns Hn Hout Hst. unfold publishEntry. rewrite Hns. case_match; [finish|].
  destruct (entryEnvelope (outboxSpec out)) as [env|] eqn:Henv; [|finish].
  eapply safe_seq; [by apply safe_committed|]. intros c s1 [Hr1 Hcom].
  pose proof (rely_later _ _ _ _ Hr1) as Hl1. pose proof (states_ok_later _ _ _ Hl1 Hst) as Hst1.
  assert (wrote s1 TransportOutbox n out) as Hout1 by by eapply wrote_later.
  destruct c as [[]|e]; [| |finish].
  - specialize (Hcom eq_refl). eapply safe_seq; [by apply safe_dependenciesReady|].
    intros [r states2] s2 (Hr2 & Hst2 & Hdeps). assert (rely i s s2) as Hr02 by eauto with protocol.
    pose proof (rely_later _ _ _ _ Hr2) as Hl2. destruct r as [[]|e]; [|finish..]. specialize (Hdeps eq_refl).
    assert (wrote s2 TransportOutbox n out) as Hout2 by by eapply wrote_later.
    eapply safe_seq; [apply (safe_send i s2 o n out env); [done..|by eapply entryCommitted_later|done]|].
    intros sent s3 [Hr3 Hsent]. pose proof (rely_later _ _ _ _ Hr3) as Hl3.
    eapply safe_mono; [apply safe_settle; [done|done|by eapply wrote_later|done|by eapply states_ok_later|done]|].
    intros r s4 [Hr4 Hst4]. split; [|done]. eapply rely_trans; [exact Hr02|]. by eapply rely_trans.
  - eapply safe_seq; [apply safe_superseded|]. intros older s2 Hr2. assert (rely i s s2) as Hr02 by eauto with protocol.
    pose proof (rely_later _ _ _ _ Hr2) as Hl2. pose proof (states_ok_later _ _ _ Hl2 Hst1) as Hst2.
    destruct older as [[]|e]; [|finish..].
    eapply safe_seq; [apply safe_patchStatus; [done|by eapply wrote_later|done]|]. intros e s3 Hr3. apply safe_ret.
    split; [by eapply rely_trans|]. apply states_ok_insert; [|done].
    by eapply (states_ok_later s2); [exact (rely_later _ _ _ _ Hr3)|].
Qed.

Lemma safe_publishAll i s o entries first states :
  ox_Namespace o = ns → (∀ n out, (n, out) ∈ entries → n.1 = ns ∧ wrote s TransportOutbox n out) →
  states_ok s states → safe i (publishAll o entries first states) (λ _ s', rely i s s') s.
Proof.
  intros Hns. revert s first states. induction entries as [|[n out] entries IH]; intros s first states Hall Hst;
    cbn [publishAll]; [finish|].
  destruct (Hall n out) as [Hn Hout]; [left|].
  eapply safe_seq; [by apply safe_publishEntry|]. intros [first1 states1] s1 [Hr1 Hst1].
  eapply safe_mono; [apply IH; [|done]|].
  - intros n' out' Hin. destruct (Hall n' out') as [? ?]; [by right|]. split; [done|].
    eapply wrote_later; [by eapply rely_later|done].
  - intros ? s2 Hr2. by eapply rely_trans.
Qed.

Lemma states_ok_list s entries :
  inv s → (∀ n out, (n, out) ∈ entries → n.1 = ns ∧ st_table s TransportOutbox !! n = Some out) →
  states_ok s (foldl (λ m e, <[e.1.2 := obs_State (outboxStatus e.2)]> m) ∅ entries).
Proof.
  intros Hi Hall. apply (foldl_inv (λ m, states_ok s m)).
  - intros name. by rewrite lookup_empty.
  - intros m [[n1 n2] out] Hin Hm. apply states_ok_insert; [done|]. intros Hack.
    destruct (Hall _ _ Hin) as [Hn Hout]. cbn in Hn. subst n1. by eapply acked_entry.
Qed.

Lemma safe_OutboxStep i s o : ox_Namespace o = ns → safe i (OutboxStep o) (λ _ s', rely i s s') s.
Proof.
  intros Hns. unfold OutboxStep. case_decide; [finish|]. rewrite Hns.
  apply safe_list. intros s1 l Hr1 Hi1 Hw1. split; [finish|]. intros Hl.
  assert (∀ n out, (n, out) ∈ sort_slice outboxLess (listed o l) →
    n.1 = ns ∧ st_table s1 TransportOutbox !! n = Some out) as Hall.
  { intros n out Hin. rewrite sort_slice_perm in Hin. apply Hl. unfold listed in Hin. destruct (ox_PendingOnly o); [|done].
    rewrite list_elem_of_In in Hin |- *. by apply filter_In in Hin as [? _]. }
  eapply safe_mono; [apply safe_publishAll; [done| |by apply states_ok_list]|].
  - intros n out Hin. destruct (Hall n out Hin) as [? ?]. split; [done|]. by eapply i_outbox.
  - intros ? s2 Hr2. by eapply rely_trans.
Qed.

Lemma safe_export i s o k : ox_Namespace o = ns → safe i (export o k) (λ _ _, True) s.
Proof.
  intros Hns. revert s. induction k as [|k IH]; intros s; cbn [export]; [by apply safe_ret|].
  eapply safe_seq; [by apply safe_OutboxStep|]. intros ? s1 _. apply IH.
Qed.
End outbox.
