(* ===== verification/PublishPlanner.v ===== *)
(** The planner keeps the protocol: it writes a snapshot only under a revision it has
    reserved, with an activation among the dependencies for every zone the snapshot
    attaches, and names it in the record only afterwards. *)

From S2P Require Import Prelude GoStrings GoCrypto GoJson GoJsonDecode Api ApiMeta ReservedScopes.
From S2P Require Import WireModel Publication Capacity Compile CompileHistory WireDecode ApiStore.
From S2P Require Import ShardState ApiHistory Planner Outbox Publisher PublishInvariant PublishWire.
From S2P Require Import PublishEvents PublishWrites.

(** * What fitting and dependencies leave *)

Section pure.
Context `{GoRuntime} `{MiekgDNS}.

Lemma fits_bindings maxBindings maxBytes st b st' :
  Capacity.fits maxBindings maxBytes st b = Some st' → f_bindings st' = f_bindings st ++ [b].
Proof.
  unfold Capacity.fits. case_match; [done|]. destruct (foldl _ _ _) as [sz next]. case_match; [done|].
  by intros [= <-].
Qed.

Lemma fitLoop_bindings maxBindings maxBytes previous candidates (P : Binding → Prop) st rejected st' rejected' e :
  (∀ b, b ∈ candidates → P b) → (∀ uid b, previous !! uid = Some b → P b) → Forall P (f_bindings st) →
  fitLoop maxBindings maxBytes previous st rejected candidates = (st', rejected', e) → Forall P (f_bindings st').
Proof.
  intros Hc Hp. revert st rejected. induction candidates as [|b rest IH]; intros st rejected Hst; cbn.
  { by intros [= <- _ _]. }
  assert (∀ b' st1 rej, P b' → Capacity.fits maxBindings maxBytes st b' = Some st1 →
    fitLoop maxBindings maxBytes previous st1 rej rest = (st', rejected', e) → Forall P (f_bindings st')) as Hnext.
  { intros b' st1 rej Hb' Hf. apply IH; [intros x Hx; apply Hc; by right|].
    rewrite (fits_bindings _ _ _ _ _ Hf). apply Forall_app. by repeat constructor. }
  assert (∀ rej, fitLoop maxBindings maxBytes previous st rej rest = (st', rejected', e) →
    Forall P (f_bindings st')) as Hskip.
  { intros rej. apply IH; [intros x Hx; apply Hc; by right|done]. }
  destruct (Capacity.fits _ _ st b) as [st1|] eqn:Hf; [by eapply Hnext; [apply Hc; left|]|].
  destruct (previous !! b_BindingUID b) as [old|] eqn:Hold; [|apply Hskip].
  destruct (safeExpansion old b); [|by intros [= <- _ _]].
  destruct (Capacity.fits _ _ st old) as [st1|] eqn:Hf'; [|by intros [= <- _ _]].
  eapply Hnext; [by eapply Hp|done].
Qed.

Lemma fitSnapshot_bindings (P : Binding → Prop) snapshot prior maxBindings maxBytes s' rejected :
  fitSnapshot snapshot prior maxBindings maxBytes = (s', rejected, None) →
  (∀ b, b ∈ elems (s_Bindings snapshot) → P b) → (∀ b, b ∈ elems (s_Bindings prior) → P b) →
  ∃ bs, s' = withBindings snapshot (Some bs) ∧ ∀ b, b ∈ bs → P b.
Proof.
  intros (envelope & st & _ & Hloop & ->)%fitSnapshot_Ok Hw Hp.
  exists (sort_slice uidLess (f_bindings st)). split; [done|]. intros b Hb. rewrite sort_slice_perm in Hb.
  assert (Forall P (f_bindings st)) as Hall; [|rewrite Forall_forall in Hall; auto].
  eapply fitLoop_bindings; [| | |exact Hloop]; [| |apply Forall_nil_2].
  - intros x Hx. rewrite sort_slice_perm in Hx. auto.
  - intros uid x [Hx _]%byUID_lookup. auto.
Qed.

Lemma dependZones_deps activations zs st deps reqs :
  result_fold (dependZone activations) st zs = Ok (deps, reqs) →
  st.1 ⊆ deps ∧ ∀ z, z ∈ zs → za_Pending z = false →
  ∃ name, activations !! za_ZoneUID z = Some name ∧ name ∈ deps.
Proof.
  revert st. induction zs as [|z zs IH]; intros [d m]; cbn [result_fold].
  { intros [= <- <-]. split; [done|]. by intros z ?%elem_of_nil. }
  destruct (dependZone activations (d, m) z) as [[d1 m1]|] eqn:Hz; [|done]. intros Hfold. destruct (IH _ Hfold) as [Hsub Hall]. cbn [fst] in Hsub.
  unfold dependZone in Hz. destruct (za_Pending z) eqn:Hp.
  { simplify_eq. split; [done|]. intros y [->|Hy]%elem_of_cons Hyp; [congruence|by apply Hall]. }
  destruct (activations !! za_ZoneUID z) as [name|] eqn:Hname; cbn [default] in Hz.
  2:{ by rewrite decide_True in Hz. }
  case_decide; [done|]. injection Hz as <- <-. split; [set_solver|].
  intros y [->|Hy]%elem_of_cons Hyp; [|by apply Hall]. exists name. split; [done|set_solver].
Qed.

Lemma requirementOf_wf z : wf_Attachment z = true → wf_Requirement (requirementOf z) = true.
Proof.
  unfold wf_Attachment, wf_Requirement, requirementOf. cbn [pr_ZoneUID pr_Epoch pr_Revision].
  rewrite !andb_true_iff. tauto.
Qed.

Lemma publicationDependencies_Ok snapshot activations deps s' :
  publicationDependencies snapshot activations = Ok (deps, s') →
  s_Region s' = s_Region snapshot ∧ s_Shard s' = s_Shard snapshot
  ∧ s_ConfigurationEpoch s' = s_ConfigurationEpoch snapshot
  ∧ s_ConfigurationRevision s' = s_ConfigurationRevision snapshot ∧ s_Bindings s' = s_Bindings snapshot
  ∧ (wf_Snapshot snapshot = true → wf_Snapshot s' = true)
  ∧ ∀ b z, b ∈ elems (s_Bindings snapshot) → z ∈ elems (b_Zones b) → za_Pending z = false →
    ∃ name, activations !! za_ZoneUID z = Some name ∧ name ∈ deps.
Proof.
  unfold publicationDependencies. rewrite bind_Ok. intros ([ds reqs] & Hfold & [= <- <-]).
  cbn [s_Region s_Shard s_ConfigurationEpoch s_ConfigurationRevision s_Bindings]. split_and!; [done..| |].
  - unfold wf_Snapshot. cbn [s_Region s_Shard s_ConfigurationEpoch s_ConfigurationRevision s_Bindings s_Members
      s_MemberPatterns s_RequiredPublications s_GeneratedAt]. rewrite !andb_true_iff. intros Hwf. split_and!; try tauto.
    destruct Hwf as (((((_ & Hbs) & _) & _) & Hrs) & _).
    rewrite forallb_Forall in Hbs. rewrite forallb_Forall in Hrs. rewrite forallb_Forall.
    rewrite sort_slice_perm, Forall_app. split; [done|].
    rewrite map_range_perm. apply Forall_fmap, Forall_forall. intros [uid r] Hin. apply elem_of_map_to_list in Hin.
    pose proof (dependZones_highest _ _ _ _ Hfold uid) as Hh. rewrite Hin in Hh.
    destruct Hh as [(z & Hz & _ & _ & <-) _]. apply list_elem_of_bind in Hz as (b & Hz & Hb).
    rewrite Forall_forall in Hbs. specialize (Hbs b Hb). unfold wf_Binding in Hbs. rewrite !andb_true_iff in Hbs.
    destruct Hbs as [[[[_ Hzs] _] _] _]. rewrite forallb_Forall, Forall_forall in Hzs. specialize (Hzs z Hz).
    by apply requirementOf_wf.
  - intros b z Hb Hz Hp. destruct (dependZones_deps _ _ _ _ _ Hfold) as [_ Hall].
    destruct (Hall z) as (name & Hn & Hin); [|done|].
    { apply list_elem_of_bind. eauto. }
    exists name. split; [done|]. rewrite sortStrings_perm. by apply elem_of_elements.
Qed.
End pure.

(** * The planner *)

Lemma wf_ShardState_spec st :
  wf_ShardState st = true ↔ text (sh_Holder st) = true ∧ WireDecode.fits 64 (sh_Epoch st) = true
    ∧ WireDecode.fits 64 (sh_NextRevision st) = true ∧ marshalable (sh_LeaseUntil st) = true
    ∧ text (sh_ActiveOutbox st) = true ∧ text (sh_ContentHash st) = true.
Proof. unfold wf_ShardState. rewrite !andb_true_iff. tauto. Qed.

Lemma fits64 z : WireDecode.fits 64 z = true ↔ (0 ≤ z < 2 ^ 64)%Z.
Proof. unfold WireDecode.fits. lia. Qed.
Lemma toUint64_fits z : WireDecode.fits 64 (toUint64 z) = true.
Proof. apply fits64. unfold toUint64. apply Z.mod_pos_bound. lia. Qed.

Lemma leaseOf_range c : (cfg_LeaseDuration c < 2 ^ 63)%Z → (0 ≤ leaseOf c < 2 ^ 63)%Z.
Proof. intros Hc. unfold leaseOf. case_match; lia. Qed.

Lemma Unix_range now : clockRange now → (0 ≤ Unix now < 2 ^ 38)%Z.
Proof.
  unfold clockRange, Unix, nanosPerSecond. intros Hn. split; [apply Z.div_pos; lia|].
  apply Z.div_lt_upper_bound; lia.
Qed.

(** A new epoch is past the one before, and no further than the clock. *)
Lemma NextWriterEpoch_range e now :
  clockRange now → (0 ≤ e < 2 ^ 63)%Z → (e < NextWriterEpoch e now ≤ Z.max (2 ^ 38) (e + 1))%Z.
Proof.
  intros Hn%Unix_range He. unfold NextWriterEpoch. rewrite Z.mod_small by lia. lia.
Qed.

Section planner.
Context `{GoRuntime} `{ApiMeta} `{K8sValidation} `{MiekgDNS}.
Context (ns : gostring) (shards : list ServingRegion) (c : PlannerConfig).
Abbreviation inv := (inv ns shards).
Abbreviation within := (within ns shards).
Abbreviation rely := (rely ns).
Abbreviation safe := (safe ns shards).
Abbreviation token := (shardToken (cfg_Region c) (cfg_Shard c)).
Abbreviation fits := WireDecode.fits.

(** The configuration is text and the lease an [int64]; the shard is one of those the
    names are compared for. *)
Record planner_ok : Prop := {
  po_ns : cfg_Namespace c = ns;
  po_shard : {| sr_Region := cfg_Region c; sr_Shard := cfg_Shard c |} ∈ shards;
  po_text : text (cfg_Region c) = true ∧ text (cfg_Shard c) = true ∧ text (cfg_Identity c) = true;
  po_lease : (cfg_LeaseDuration c < 2 ^ 63)%Z;
  po_backends : forallb wf_Backend (elems (cfg_NodeBackends c)) = true
    ∧ forallb wf_Backend (elems (cfg_ClusterBackends c)) = true;
  po_members : forallb wf_Member (cfg_Members c) = true;
  po_patterns : forallb wf_Pattern (cfg_MemberPatterns c) = true;
}.
Context (Hc : planner_ok).

Lemma plannerKey_name : plannerKey c = (ns, recordName token).
Proof using Hc. unfold plannerKey, shardOwnerName. by rewrite (po_ns Hc). Qed.

(** ** The record *)

(** The record was written with this state. *)
Record holds (s : store) (owner : Object ConfigMap) (st : shardState) : Prop := {
  hl_wrote : wrote s ConfigMap (ns, recordName token) owner;
  hl_state : readShardState owner = Some st;
  hl_wf : wf_ShardState st = true;
  hl_next : (1 ≤ sh_NextRevision st < 2 ^ 62)%Z;
  hl_epoch : (1 ≤ sh_Epoch st < 2 ^ 63)%Z;
  hl_uid : text (o_UID owner) = true;
}.

Lemma holds_later s s' owner st : later s s' → holds s owner st → holds s' owner st.
Proof. intros Hl []. split; try done. by eapply wrote_later. Qed.

Lemma holds_record s owner st : inv s → holds s owner st → record_ok ns s (ns, recordName token) owner token st.
Proof.
  intros Hi []. destruct (i_record_ok _ _ _ Hi _ _ (isRecord_name ns _) hl_wrote0) as (token' & st' & Hok).
  pose proof (rc_name _ _ _ _ _ _ Hok) as Hn. apply (f_equal snd) in Hn. cbn [snd] in Hn.
  apply record_inj in Hn as <-. pose proof (rc_state _ _ _ _ _ _ Hok) as Hst. by simplify_eq.
Qed.

Lemma holds_wrote s owner st :
  inv s → within s → wrote s ConfigMap (ns, recordName token) owner → readShardState owner = Some st →
  holds s owner st.
Proof.
  intros Hi [Hage _] Hw Hst.
  destruct (i_record_ok _ _ _ Hi _ _ (isRecord_name ns _) Hw) as (token' & st' & []).
  rewrite Hst in rc_state. injection rc_state as <-. split; [done..|lia|lia|done].
Qed.

Lemma safe_writeRecord i s owner st st' :
  holds s owner st → (∀ s1, rely i s s1 → record_step ns s1 token st st') →
  safe i (writeRecord c owner st')
    (λ u s', rely i s s' ∧ ∀ cm, u = Found cm → holds s' cm st' ∧ o_UID cm = o_UID owner
       ∧ fresh ns s' token (sh_NextRevision st)
       ∧ (sh_NextRevision st < sh_NextRevision st' →
          took ConfigMap nextOf s' i (ns, recordName token) (sh_NextRevision st))%Z) s.
Proof using Hc.
  intros Hh Hstep. unfold writeRecord. rewrite plannerKey_name. intros s1 x s2 Hr Hi Hs Hw. cbn [safe wp].
  destruct (holds_later _ _ _ _ (rely_later _ _ _ _ Hr) Hh).
  destruct (record_update ns shards i s1 token owner st st' x s2) as (Hi2 & Hr2 & Hx); [by auto..|].
  split_and!; [done|by auto|by eapply rely_trans|]. intros cm ->. destruct (Hx cm eq_refl) as (Hcm & Hst' & Hu & Hf & Ht).
  split_and!; [by apply holds_wrote|done|done|done].
Qed.

(** A write that only renews or ends the lease, or takes the next revision. *)
Lemma lease_step s st until n :
  wf_ShardState st = true → (1 ≤ sh_NextRevision st < 2 ^ 62)%Z → marshalable until = true → (n = 0 ∨ n = 1)%Z →
  record_step ns s token st
    {| sh_Holder := sh_Holder st; sh_Epoch := sh_Epoch st; sh_NextRevision := sh_NextRevision st + n;
       sh_LeaseUntil := until; sh_ActiveOutbox := sh_ActiveOutbox st; sh_ContentHash := sh_ContentHash st |}.
Proof.
  rewrite wf_ShardState_spec. intros (? & ? & ? & ? & ? & ?) Hn Hu Hz.
  split; cbn [sh_Holder sh_Epoch sh_NextRevision sh_LeaseUntil sh_ActiveOutbox sh_ContentHash]; [|lia|lia|by left].
  apply wf_ShardState_spec. split_and!; try done. apply fits64. cbn [sh_NextRevision]. lia.
Qed.

Lemma safe_Release i s now : marshalable now = true → safe i (Release c now) (λ _ _, True) s.
Proof using Hc.
  intros Hnow. unfold Release. rewrite plannerKey_name. apply safe_get. intros s1 Hr1 Hi1 Hw1. split; [finish|].
  destruct (st_table s1 ConfigMap !! _) as [owner|] eqn:Hown; [|finish].
  destruct (readShardState owner) as [st|] eqn:Hst; [|finish]. case_match; [finish|].
  rewrite Hnow. cbn [negb]. rewrite <- plannerKey_name.
  assert (holds s1 owner st) as Hh.
  { apply holds_wrote; [done|done| |done]. eapply i_record; [done|apply isRecord_name|done]. }
  eapply safe_seq; [apply (safe_writeRecord _ _ _ _ _ Hh); intros s2 _|].
  - pose proof (lease_step s2 st now 0 (hl_wf _ _ _ Hh) (hl_next _ _ _ Hh) Hnow (or_introl eq_refl)) as Hstep.
    by rewrite Z.add_0_r in Hstep.
  - intros u s2 _. destruct u; by finish.
Qed.

(** ** Publishing a snapshot *)

(** What the snapshot is when the planner comes to write it. *)
Record planned (s : store) (st : shardState) (snapshot : ServingSnapshot) (deps : list gostring) : Prop := {
  pl_wf : wf_Snapshot snapshot = true;
  pl_valid : ServingSnapshot_Validate snapshot = Ok tt;
  pl_identity : s_Region snapshot = cfg_Region c ∧ s_Shard snapshot = cfg_Shard c
    ∧ s_ConfigurationEpoch snapshot = sh_Epoch st ∧ s_ConfigurationRevision snapshot = sh_NextRevision st;
  pl_covered : ∀ b z, b ∈ elems (s_Bindings snapshot) → z ∈ elems (b_Zones b) → za_Pending z = false →
    ∃ m, reached ns s (za_ZoneUID z) (za_RequiredPublicationEpoch z) (za_RequiredPublicationRevision z) m
      ∧ PublicationActivationName m (cfg_Region c) (cfg_Shard c) ∈ deps;
}.

Definition servingOf (owner : Object ConfigMap) (st : shardState) (now : Z) (snapshot : ServingSnapshot)
    (deps : list gostring) : Serving :=
  {| sv_region := cfg_Region c; sv_shard := cfg_Shard c; sv_uid := o_UID owner; sv_epoch := sh_Epoch st;
     sv_revision := sh_NextRevision st; sv_now := now; sv_snapshot := snapshot; sv_deps := deps |}.

Lemma planned_serving s s' owner st st' now snapshot deps cm :
  planned s st snapshot deps → later s s' → marshalable now = true →
  text (o_UID owner) = true → o_UID cm = o_UID owner →
  holds s' cm st' → (sh_Epoch st ≤ sh_Epoch st')%Z → (sh_NextRevision st < sh_NextRevision st')%Z →
  serving_ok ns shards s' (servingOf owner st now snapshot deps).
Proof using Hc.
  intros [] Hl Hnow Huid Hcm [] He Hn. pose proof (po_text Hc) as (? & ? & ?).
  split; cbn [servingOf sv_region sv_shard sv_uid sv_epoch sv_revision sv_now sv_snapshot]; try done.
  - exists cm, st'. done.
  - apply Hc.
  - intros b z Hb Hz Hp. destruct (pl_covered0 b z Hb Hz Hp) as (m & Hm & Hin). exists m. split; [|done].
    by eapply reached_later.
Qed.

Lemma reserved_eq st until :
  (1 ≤ sh_NextRevision st < 2 ^ 62)%Z →
  reserved st until =
    {| sh_Holder := sh_Holder st; sh_Epoch := sh_Epoch st; sh_NextRevision := sh_NextRevision st + 1;
       sh_LeaseUntil := until; sh_ActiveOutbox := sh_ActiveOutbox st; sh_ContentHash := sh_ContentHash st |}.
Proof. intros Hn. unfold reserved. by rewrite toUint64_id by lia. Qed.

Lemma commit_step s st x o hash until :
  wf_ShardState st = true → (1 ≤ sh_NextRevision st)%Z → marshalable until = true → text hash = true →
  wrote s TransportOutbox (ns, sv_name x) o → servingMade ns x (ns, sv_name x) o → sv_token x = token →
  sv_epoch x = sh_Epoch st → sv_revision x = (sh_NextRevision st - 1)%Z →
  record_step ns s token st (committedState st (sv_name x) hash until).
Proof.
  rewrite wf_ShardState_spec. intros (? & ? & ? & ? & ? & ?) Hn Hu Hh Hw Hx Ht He Hr.
  split; cbn [committedState sh_Holder sh_Epoch sh_NextRevision sh_LeaseUntil sh_ActiveOutbox sh_ContentHash]; [|lia|lia|].
  - apply wf_ShardState_spec. split_and!; try done. destruct Hx as (_ & Hpos & _).
    apply text_ascii, servingName_ascii; lia.
  - right. by exists x, o.
Qed.

Lemma servingLabels_owner : entry (servingLabels c) shardOwnerLabel = recordName token.
Proof using Hc.
  unfold servingLabels. rewrite plannerKey_name. cbn [snd]. unfold entry. by rewrite lookup_insert_eq.
Qed.

Lemma safe_publishSnapshot i s owner st now snapshot deps hash report :
  holds s owner st → planned s st snapshot deps → clockRange now → text hash = true →
  (∀ s', safe i report (λ _ s'', rely i s' s'') s') →
  safe i (publishSnapshot c owner st now snapshot deps hash report) (λ _ s', later s s') s.
Proof using Hc.
  intros Hh Hp Hnow Hhash Hreport. unfold publishSnapshot.
  destruct (NewEnvelope _ _ _ _ _ _ _ _ _) as [env|e] eqn:Henv; [|by finish]. case_match; [by finish|].
  assert (marshalable (now + leaseOf c) = true) as Huntil.
  { apply clock_marshalable; [done|]. by apply leaseOf_range, Hc. }
  assert (marshalable now = true) as Hmar.
  { rewrite <- (Z.add_0_r now). by apply clock_marshalable. }
  rewrite reserved_eq by apply Hh. set (st1 := {| sh_Holder := _ |}).
  eapply safe_seq; [apply (safe_writeRecord _ _ _ _ st1 Hh); intros s1 _|].
  { apply lease_step; [apply Hh|apply Hh|done|by right]. }
  intros u s1 [Hr1 Hu]. pose proof (rely_later _ _ _ _ Hr1) as Hl1. destruct u as [cm| | | |]; [|by finish..].
  destruct (Hu cm eq_refl) as (Hh1 & Huid & Hfresh & Htook). clear Hu.
  assert (sh_NextRevision st < sh_NextRevision st1)%Z as Hlt by (cbn; lia). specialize (Htook Hlt).
  set (x := servingOf owner st now snapshot deps).
  assert (sv_token x = token) as Hxt by done.
  rewrite Huid, (po_ns Hc). apply safe_call. intros s2 r s3 Hr2 Hi2 Hs Hw3.
  pose proof (rely_later _ _ _ _ Hr2) as Hl2.
  pose proof (hl_next _ _ _ Hh) as Hnext. pose proof (hl_epoch _ _ _ Hh) as Hep.
  assert (serving_ok ns shards s2 x) as Hok.
  { eapply (planned_serving s); [done|by etrans|done|apply Hh|done|by eapply holds_later|done|done]. }
  assert (fresh ns s2 token (sh_NextRevision st)) as Hfresh2.
  { eapply fresh_rely; [|exact Htook|exact Hfresh|done]. lia. }
  destruct (serving_create ns shards i s2 x env (servingLabels c) r s3) as (Hi3 & Hr3 & Hne & Hr);
    [done|done|cbn [x servingOf sv_epoch sv_revision]; lia|exact Henv|apply servingLabels_owner
    |by eapply took_later|exact Hfresh2|exact Hs|].
  split_and!; [done|done|]. assert (later s2 s3) as Hl3 by by eapply serve_later.
  assert (later s s3) as Hl by (etrans; [exact Hl1|]; by etrans).
  destruct r as [o| | | |]; [|by finish..]. destruct (Hr o eq_refl) as [Ho Hx].
  assert (holds s3 cm st1) as Hh3 by (eapply holds_later; [|exact Hh1]; by etrans).
  eapply safe_seq; [apply (safe_writeRecord _ _ _ _ _ Hh3)|].
  - intros s4 Hr4. apply (commit_step _ _ x o); try done; [apply Hh1|cbn; lia| |cbn; lia].
      eapply wrote_later; [by eapply rely_later|done].
  - intros u s4 [Hr4 _]. pose proof (rely_later _ _ _ _ Hr4) as Hl4. assert (later s s4) by by etrans.
      destruct u; try by finish. eapply safe_seq; [apply Hreport|]. intros [] s5 Hr5.
      pose proof (rely_later _ _ _ _ Hr5). apply safe_ret. by etrans.
Qed.

(** ** The prior snapshot *)

(** The cache holds the payload of an entry that was written. *)
Definition cache_ok (s : store) (cache : PriorCache) : Prop :=
  pr_Outbox cache = [] ∨
  ∃ o e, wrote s TransportOutbox (ns, pr_Outbox cache) o
    ∧ Unmarshal dEnvelope zeroEnvelope (ob_Payload (outboxSpec o)) = Some e ∧ pr_Payload cache = e_Payload e.

Lemma cache_ok_later s s' cache : later s s' → cache_ok s cache → cache_ok s' cache.
Proof. intros Hl [|(o & e & Ho & ?)]; [by left|right]. exists o, e. eauto using wrote_later. Qed.

(** The zones of the prior snapshot had their publications. *)
Definition prior_ok (s : store) (prior : ServingSnapshot) : Prop :=
  ∀ b, b ∈ elems (s_Bindings prior) → wf_Binding b = true ∧
    ∀ z, z ∈ elems (b_Zones b) → za_Pending z = false →
    ∃ m, reached ns s (za_ZoneUID z) (za_RequiredPublicationEpoch z) (za_RequiredPublicationRevision z) m.

Lemma serving_prior s x : serving_ok ns shards s x → prior_ok s (sv_snapshot x).
Proof.
  intros Hok b Hb. pose proof (sv_wf _ _ _ _ Hok) as Hwf. unfold wf_Snapshot in Hwf. rewrite !andb_true_iff in Hwf.
  destruct Hwf as (((((_ & Hbs) & _) & _) & _) & _). rewrite forallb_Forall, Forall_forall in Hbs.
  split; [by apply Hbs|]. intros z Hz Hp. destruct (sv_covered _ _ _ _ Hok b z Hb Hz Hp) as (m & ? & _). by exists m.
Qed.

Lemma entryEnvelope_payload spec env :
  entryEnvelope spec = Some env → Unmarshal dEnvelope zeroEnvelope (ob_Payload spec) = Some env.
Proof.
  unfold entryEnvelope. case_match; [done|]. rewrite bind_Some. intros (e & He & Hm).
  repeat case_match; by simplify_eq.
Qed.

(** Every entry of this name has the payload of the one the record names. *)
Lemma same_payload s s' n o o' x :
  inv s' → later s s' → wrote s TransportOutbox n o → servingMade ns x n o → wrote s' TransportOutbox n o' →
  outboxSpec o' = outboxSpec o.
Proof.
  intros Hi Hl Ho Hx Ho'. pose proof (wrote_later _ _ _ _ _ Hl Ho) as Hw. destruct (i_outbox_ok _ _ _ Hi) as [choice Hch].
  assert (n.1 = ns) as Hn by by destruct Hx as [-> _].
  destruct (Hch n o' Hn Ho') as [(x' & Hx' & _)|(zone & r & _ & Hmk & Hp)].
  - destruct (made_same _ _ _ _ _ _ Hx Hx') as (Ht & _ & Hr).
    by destruct (i_unique _ _ _ Hi n n o o' x x') as [_ ->].
  - exfalso. destruct Hx as [-> _]. by eapply serving_not_publication.
Qed.

(** The record names an entry, whose snapshot is then the one that is loaded. *)
Lemma active_snapshot s owner st :
  inv s → holds s owner st → sh_ActiveOutbox st ≠ [] →
  ∃ x o env, wrote s TransportOutbox (ns, sh_ActiveOutbox st) o ∧ servingMade ns x (ns, sh_ActiveOutbox st) o
    ∧ prior_ok s (sv_snapshot x) ∧ Unmarshal dEnvelope zeroEnvelope (ob_Payload (outboxSpec o)) = Some env
    ∧ e_Payload env = Encoded (ServingSnapshot_json (sv_snapshot x))
    ∧ dSnapshot zeroSnapshot (ServingSnapshot_json (sv_snapshot x)) = Some (sv_snapshot x).
Proof.
  intros Hi Hh Hne. destruct (rc_active _ _ _ _ _ _ (holds_record _ _ _ Hi Hh)) as [|(x & o & Ho & Hx & _)]; [done|].
  destruct (i_outbox_ok _ _ _ Hi) as [choice Hch].
  destruct (Hch (ns, _) o eq_refl Ho) as [(x' & Hx' & Hok)|(zone & r & _ & Hmk & Hp)].
  - destruct (serving_envelope ns shards s x' _ o Hx' Hok) as (env & Henv & (_ & Hpay & Hdec & _) & _).
    exists x', o, env. split_and!; [done|done|by apply serving_prior|by apply entryEnvelope_payload|done|done].
  - exfalso. destruct Hx as [Hn _]. rewrite Hn in Hp. by eapply serving_not_publication.
Qed.

Lemma safe_loadPrior i s s1 owner st cache :
  inv s → later s s1 → holds s owner st → cache_ok s cache → sh_ActiveOutbox st ≠ [] →
  safe i (loadPrior c cache (sh_ActiveOutbox st))
    (λ r s', rely i s1 s' ∧ cache_ok s' r.2 ∧ ∀ prior, r.1 = Ok prior → prior_ok s prior) s1.
Proof using Hc.
  intros Hi Hl Hh Hcache Hne. destruct (active_snapshot s owner st Hi Hh Hne)
    as (x & o & env & Ho & Hx & Hprior & Henv & Hpay & Hdec).
  unfold loadPrior. rewrite (po_ns Hc). case_decide as Heq.
  - apply safe_ret. split_and!; [apply rely_refl|by eapply cache_ok_later|]. cbn [fst].
    destruct Hcache as [Hnil|(o' & e & Ho' & He & Hp)]; [congruence|]. rewrite <- Heq in Ho'.
    rewrite (same_payload s s _ o o' x) in He by done. rewrite Henv in He. injection He as <-.
    rewrite Hp, Hpay, Hdec. by intros prior [= <-].
  - apply safe_get. intros s2 Hr2 Hi2 Hw2. assert (later s s2) as Hl2 by (etrans; [done|by eapply rely_later]).
    assert (cache_ok s2 cache) as Hcache2 by by eapply cache_ok_later.
    split; [finish|]. destruct (st_table s2 TransportOutbox !! _) as [o'|] eqn:Hget; [|finish].
    pose proof (i_outbox _ _ _ Hi2 (ns, _) _ eq_refl Hget) as Ho'.
    pose proof (same_payload s s2 _ o o' x Hi2 Hl2 Ho Hx Ho') as Hspec. rewrite Hspec, Henv.
    apply safe_ret. cbn [fst snd pr_Payload]. rewrite Hpay, Hdec. split_and!; [done| |by intros prior [= <-]].
    right. exists o', env. by rewrite Hspec.
Qed.

(** ** Collecting *)

Abbreviation ownerMap := (gmap gostring DNSPublicationOwnershipSpec).

(** The ownerships that were read after [s0]. *)
Definition owners_ok (s0 s : store) (byZone : ownerMap) : Prop :=
  ∀ uid o, byZone !! uid = Some o →
  ∃ own, wrote s Ownership (ns, ownershipName uid) own ∧ ownershipSpec own = o
    ∧ ∀ own', wrote s0 Ownership (ns, ownershipName uid) own' → own_le own' own.

Lemma owners_ok_later s0 s s' byZone : later s s' → owners_ok s0 s byZone → owners_ok s0 s' byZone.
Proof. intros Hl Ho uid o Hu. destruct (Ho uid o Hu) as (own & ? & ?). exists own. eauto using wrote_later. Qed.

Lemma safe_ownersOfZones i s0 s uids byZone :
  later s0 s → owners_ok s0 s byZone →
  safe i (ownersOfZones ns uids byZone)
    (λ r s', rely i s s' ∧ ∀ byZone', r = Ok byZone' → owners_ok s0 s' byZone') s.
Proof.
  revert s byZone. induction uids as [|uid uids IH]; intros s byZone Hl Ho; cbn [ownersOfZones].
  { apply safe_ret. split; [apply rely_refl|]. by intros ? [= <-]. }
  destruct (byZone !! uid) as [own|]; [by apply IH|].
  apply safe_get. intros s1 Hr1 Hi1 Hw1. split; [finish|]. pose proof (rely_later _ _ _ _ Hr1) as Hl1.
  assert (later s0 s1) as Hl01 by by etrans.
  pose proof (owners_ok_later _ _ _ _ Hl1 Ho) as Ho1.
  assert (∀ byZone1, owners_ok s0 s1 byZone1 → safe i (ownersOfZones ns uids byZone1)
    (λ r s', rely i s s' ∧ ∀ byZone', r = Ok byZone' → owners_ok s0 s' byZone') s1) as Hnext.
  { intros byZone1 Ho1'. eapply safe_mono; [by apply IH|]. intros r s2 [Hr2 ?]. split; [by eapply rely_trans|done]. }
  destruct (st_table s1 Ownership !! _) as [own|] eqn:Hown; [|by apply Hnext].
  apply Hnext. intros uid' o [[<- <-]|[_ Hu]]%lookup_insert_Some; [|by apply Ho1].
  destruct (own_current _ _ _ _ _ Hi1 Hown) as (Hw & _ & Hall). exists own. split_and!; [done|done|].
  intros own' Hw'. apply Hall. by eapply wrote_later.
Qed.

(** What the attachment requires is not past the manifest its zone's owner names. *)
Definition required (byZone : ownerMap) (z : ZoneAttachment) : Prop :=
  za_Pending z = false → ∀ o e r, byZone !! za_ZoneUID z = Some o → manifestAt (os_ActiveManifestName o) e r →
  lexle (za_RequiredPublicationEpoch z) (za_RequiredPublicationRevision z) e r.

(** A manifest that was written. *)
Definition stored (s : store) (name : gostring) (mo : Object Manifest) : Prop :=
  wrote s Manifest (ns, name) mo ∧ manifest_ok ns shards s (ns, name) mo.

Lemma stored_later s s' name mo : later s s' → stored s name mo → stored s' name mo.
Proof. intros Hl [? ?]. split; [by eapply wrote_later|by eapply manifest_ok_later]. Qed.
Lemma stored_wrote s name mo : inv s → wrote s Manifest (ns, name) mo → stored s name mo.
Proof. intros Hi Hw. split; [done|]. by apply (i_manifest_ok _ _ _ Hi). Qed.

Lemma manifest_at s name mo :
  stored s name mo → manifestAt name (ms_WriterEpoch (manifestSpec mo)) (ms_Revision (manifestSpec mo)).
Proof.
  intros [_ []]. apply (f_equal snd) in mf_name. cbn [snd] in mf_name. eexists. split_and!; [exact mf_name|lia|lia].
Qed.

Lemma reached_required s0 s byZone z m :
  inv s0 → owners_ok s0 s byZone →
  reached ns s0 (za_ZoneUID z) (za_RequiredPublicationEpoch z) (za_RequiredPublicationRevision z) m →
  required byZone z.
Proof.
  intros Hi Ho (own0 & mo & Hown0 & Hact & Hmo & _ & Hle) _ o e r Hu Hat. destruct (Ho _ _ Hu) as (own & _ & <- & Hall).
  destruct (Hall _ Hown0) as (_ & _ & _ & Hf). rewrite Hact in Hf.
  destruct (Hf _ _ (manifest_at _ _ _ (stored_wrote _ _ _ Hi Hmo))) as (e' & r' & Hat' & ? & ?).
  destruct (manifestAt_fun _ _ _ _ _ Hat Hat') as [-> ->]. unfold lexle in *. lia.
Qed.

Definition zone_ok (byZone : ownerMap) (z : ZoneAttachment) : Prop := wf_Attachment z = true ∧ required byZone z.
Definition view_ok (byZone : ownerMap) (b : Binding) : Prop :=
  wf_Binding b = true ∧ ∀ z, z ∈ elems (b_Zones b) → required byZone z.

Lemma wf_Binding_zones b z : wf_Binding b = true → z ∈ elems (b_Zones b) → wf_Attachment z = true.
Proof.
  unfold wf_Binding. rewrite !andb_true_iff. intros [[[[_ Hzs] _] _] _]. rewrite forallb_Forall, Forall_forall in Hzs.
  apply Hzs.
Qed.

Lemma prior_view s0 s byZone prior b :
  inv s0 → owners_ok s0 s byZone → prior_ok s0 prior → b ∈ elems (s_Bindings prior) → view_ok byZone b.
Proof.
  intros Hi Ho Hp Hb. destruct (Hp b Hb) as [Hwf Hz]. split; [done|]. intros z Hin Hpend.
  destruct (Hz z Hin Hpend) as [m Hm]. by eapply reached_required.
Qed.

Lemma attachmentOf_ok s byZone generation old uid m mo o :
  text uid = true → byZone !! uid = Some o → stored s (os_ActiveManifestName o) mo →
  manifestSpec mo = m → (∀ b, old = Some b → view_ok byZone b) →
  zone_ok byZone (attachmentOf generation old uid m).
Proof.
  intros Huid Hu Hmo <- Hold. pose proof (manifest_at _ _ _ Hmo) as Hat. destruct Hmo as [_ []]. unfold attachmentOf.
  match goal with |- context [foldl _ ?a _] => assert (zone_ok byZone a ∧ za_ZoneUID a = uid ∧ za_Pending a = false) as Ha end.
  { split_and!; [|done|done]. split.
    - unfold wf_Attachment. cbn [za_ZoneUID za_Apex za_RequiredPublicationEpoch za_RequiredPublicationRevision].
      rewrite Huid, (proj2 mf_text), !toUint64_fits. done.
    - intros _ o' e r Hu' Hat'. cbn [za_ZoneUID] in Hu'. simplify_eq. destruct (manifestAt_fun _ _ _ _ _ Hat Hat') as [<- <-].
      cbn [za_RequiredPublicationEpoch za_RequiredPublicationRevision]. rewrite !toUint64_id by lia. apply lexle_refl. }
  destruct old as [b|]; [|apply Ha]. case_match; [|apply Ha]. destruct (Hold b eq_refl) as [Hwf Hreq].
  eapply (foldl_inv (λ a, zone_ok byZone a ∧ za_ZoneUID a = uid ∧ za_Pending a = false)); [done|].
  intros a z Hz ((Hwa & Hra) & Hau & Hap). unfold keepRequirement. case_match eqn:Hk; [|done].
  rewrite !andb_true_iff, negb_true_iff, !bool_decide_eq_true in Hk. destruct Hk as [[Hzp Hzu] _].
  split_and!; [|done|done]. split.
  - pose proof (wf_Binding_zones _ _ Hwf Hz) as Hwz. unfold wf_Attachment in *. cbn [za_ZoneUID za_Apex
      za_RequiredPublicationEpoch za_RequiredPublicationRevision]. rewrite !andb_true_iff in *. tauto.
  - intros _ o' e r Hu' Hat'. cbn [za_ZoneUID] in Hu'. apply (Hreq z Hz Hzp o'); [|done]. by rewrite Hzu.
Qed.

Definition acts_ok (s : store) (byZone : ownerMap) (acts : gmap gostring gostring) : Prop :=
  ∀ uid name, acts !! uid = Some name →
  ∃ o mo, byZone !! uid = Some o ∧ stored s (os_ActiveManifestName o) mo
    ∧ ms_ZoneUID (manifestSpec mo) = uid
    ∧ name = PublicationActivationName (os_ActiveManifestName o) (cfg_Region c) (cfg_Shard c).
Definition read_ok (s : store) (read : manifestCache) : Prop :=
  ∀ name m, read !! name = Some (Some m) → ∃ mo, stored s name mo ∧ manifestSpec mo = m.

Lemma acts_ok_later s s' byZone acts : later s s' → acts_ok s byZone acts → acts_ok s' byZone acts.
Proof. intros Hl Ha uid name Hu. destruct (Ha uid name Hu) as (o & mo & ? & ? & ?). exists o, mo. eauto using stored_later. Qed.
Lemma read_ok_later s s' read : later s s' → read_ok s read → read_ok s' read.
Proof. intros Hl Hr name m Hn. destruct (Hr name m Hn) as (mo & ? & ?). exists mo. eauto using stored_later. Qed.

Lemma safe_readManifest i s read name :
  read_ok s read →
  safe i (readManifest ns read name)
    (λ r s', rely i s s' ∧ read_ok s' r.2 ∧ ∀ m, r.1 = Ok (Some m) →
       ∃ mo, stored s' name mo ∧ manifestSpec mo = m) s.
Proof.
  intros Hread. unfold readManifest. destruct (read !! name) as [m|] eqn:Hm.
  { apply safe_ret. split_and!; [apply rely_refl|done|]. intros m' [= ->]. by apply Hread. }
  apply safe_get. intros s1 Hr1 Hi1 Hw1. pose proof (read_ok_later _ _ _ (rely_later _ _ _ _ Hr1) Hread) as Hread1.
  split; [finish|]. destruct (st_table s1 Manifest !! _) as [mo|] eqn:Hmo.
  - pose proof (stored_wrote _ _ _ Hi1 (i_manifest _ _ _ Hi1 (ns, _) _ eq_refl Hmo)) as Hw. apply safe_ret. split_and!; [done| |].
    + cbn [snd]. intros name' m' [[<- [= <-]]|[_ Hn]]%lookup_insert_Some; [by exists mo|by apply Hread1].
    + intros m' [= <-]. by exists mo.
  - apply safe_ret. split_and!; [done| |done]. cbn [snd]. intros name' m' [[_ ?]|[_ Hn]]%lookup_insert_Some; [done|by apply Hread1].
Qed.

Definition collected (s : store) (byZone : ownerMap) (st : Collecting) : Prop :=
  Forall (zone_ok byZone) (co_zones st) ∧ acts_ok s byZone (co_activations st) ∧ read_ok s (co_read st).

Lemma collected_later s s' byZone st : later s s' → collected s byZone st → collected s' byZone st.
Proof. intros Hl (? & ? & ?). split_and!; [done|by eapply acts_ok_later|by eapply read_ok_later]. Qed.

Lemma pending_collected s byZone uid apex st :
  text uid = true → text apex = true → collected s byZone st → collected s byZone (pending uid apex st).
Proof.
  intros Hu Ha (Hz & ? & ?). unfold pending. case_decide; [done|].
  split_and!; [|done|done]. apply Forall_app. split; [done|]. constructor; [|done]. split; [|by intros ?].
  unfold wf_Attachment. cbn [za_ZoneUID za_Apex]. by rewrite Hu, Ha.
Qed.

Lemma safe_attachZones i s b old byZone uids st :
  Forall (λ uid, text uid = true) uids → map_Forall (λ _ apex, text apex = true) (bs_ZoneApices b) →
  (∀ v, old = Some v → view_ok byZone v) → collected s byZone st →
  safe i (attachZones c b old byZone uids st)
    (λ r s', rely i s s' ∧ ∀ st', r = Ok st' → collected s' byZone st') s.
Proof using Hc.
  intros Huids Hapex Hold. revert s st. induction Huids as [|uid uids Huid Huids IH]; intros s st Hst;
    cbn [attachZones]; rewrite ?(po_ns Hc).
  { apply safe_ret. split; [apply rely_refl|]. by intros st' [= <-]. }
  assert (text (entry (bs_ZoneApices b) uid) = true) as Ha.
  { unfold entry. destruct (bs_ZoneApices b !! uid) eqn:He; [by eapply (Hapex uid)|done]. }
  destruct (byZone !! uid) as [o|] eqn:Hu; [|by apply IH, pending_collected].
  case_decide as Hact; [by apply IH, pending_collected|].
  eapply safe_seq; [apply safe_readManifest, Hst|]. intros [r read] s1 (Hr1 & Hread & Hm). cbn [fst snd] in *.
  pose proof (collected_later _ _ _ _ (rely_later _ _ _ _ Hr1) Hst) as (Hz1 & Ha1 & _).
  assert (∀ st1, collected s1 byZone st1 → safe i (attachZones c b old byZone uids st1)
    (λ r s', rely i s s' ∧ ∀ st', r = Ok st' → collected s' byZone st') s1) as Hnext.
  { intros st1 Hst1. eapply safe_mono; [by apply IH|]. intros r' s2 [Hr2 ?]. split; [by eapply rely_trans|done]. }
  destruct r as [[m|]|e]; [|by apply Hnext, pending_collected|by finish].
  destruct (Hm m eq_refl) as (mo & Hmo & Hspec). case_match eqn:Hcond; [by apply Hnext, pending_collected|].
  rewrite !orb_false_iff, bool_decide_eq_false in Hcond. destruct Hcond as [[Hzone%dec_stable _] _].
  apply Hnext. split_and!; cbn [co_zones co_activations co_read]; [| |done].
  - apply Forall_app. split; [done|]. constructor; [|done]. by eapply attachmentOf_ok.
  - intros uid' name [[<- <-]|[_ Hn]]%lookup_insert_Some; [|by apply Ha1].
    exists o, mo. split_and!; [done|done|by rewrite Hspec|done].
Qed.

Lemma elems_sorted {A} (less : A → A → bool) l : elems (sort_slice less <$> appended l) ≡ₚ l.
Proof. destruct l as [|x l]; [done|]. cbn. apply sort_slice_perm. Qed.

Lemma viewOf_ok byZone obj zones pend :
  binding_ok obj → Forall (zone_ok byZone) (elems zones) →
  view_ok byZone (withZones (viewOf c (o_UID obj) (planBinding obj)) zones pend).
Proof using Hc.
  intros (Huid & Hproj & Hctx & Hna & Hra & _) Hz. destruct (po_backends Hc) as [Hnb Hcb]. split.
  - unfold wf_Binding. cbn [withZones viewOf b_BindingUID b_ProjectUID b_ContextUID b_BindingGeneration
      b_ConfigurationRevision b_ConsumerAddress b_ClusterAddress b_Port b_Transports b_Zones b_NodeBackends
      b_ClusterBackends b_Version]. unfold wf_Version. cbn [v_Epoch v_Sequence].
    rewrite Huid, Hproj, Hctx, Hna, Hra, Hnb, Hcb, !toUint64_fits, !andb_true_iff. split_and!; try done.
    apply forallb_Forall. eapply Forall_impl; [exact Hz|]. by intros z [? _].
  - intros z Hin. cbn [withZones b_Zones] in Hin. rewrite Forall_forall in Hz. by apply Hz.
Qed.

Lemma safe_collectBindings i s byZone prior bindings views acts read :
  Forall binding_ok bindings → (∀ uid v, prior !! uid = Some v → view_ok byZone v) →
  Forall (view_ok byZone) views → acts_ok s byZone acts → read_ok s read →
  safe i (collectBindings c prior byZone bindings views acts read)
    (λ r s', rely i s s' ∧ ∀ views' acts', r = Ok (views', acts') →
       Forall (view_ok byZone) views' ∧ acts_ok s' byZone acts') s.
Proof using Hc.
  intros Hbs Hprior. revert s views acts read. induction Hbs as [|obj bindings Hb Hbs IH];
    intros s views acts read Hviews Hacts Hread; cbn [collectBindings].
  { apply safe_ret. split; [apply rely_refl|]. by intros ? ? [= <- <-]. }
  case_match; [by apply IH|]. case_match.
  { apply IH; [|done..]. apply Forall_app. split; [done|]. constructor; [|done].
    by apply (viewOf_ok byZone obj None false). }
  eapply safe_seq; [apply (safe_attachZones i s)|].
  - destruct Hb as (_ & _ & _ & _ & _ & Hrefs & _). by apply Forall_fmap.
  - by destruct Hb as (_ & _ & _ & _ & _ & _ & Hap).
  - intros v Hv. by eapply Hprior.
  - split_and!; [constructor|done|done].
  - intros [st|e] s1 [Hr1 Hst]; [|by finish]. destruct (Hst st eq_refl) as (Hz & Ha & Hr).
    eapply safe_mono; [apply IH; [|done|done]|].
    + apply Forall_app. split; [done|]. constructor; [|done]. unfold viewWith.
      case_match; apply viewOf_ok; try done. by rewrite elems_sorted.
    + intros r s2 [Hr2 ?]. split; [by eapply rely_trans|done].
Qed.

Lemma safe_reportCapacity i s bindings rejected now :
  (∀ n b, (n, b) ∈ bindings → binding_ok b) → safe i (reportCapacity c bindings rejected now) (λ _ s', rely i s s') s.
Proof.
  revert s. induction bindings as [|[n b] bindings IH]; intros s Hbs; cbn [reportCapacity]; [finish|].
  assert (∀ s', safe i (reportCapacity c bindings rejected now) (λ _ s'', rely i s' s'') s') as Hrest.
  { intros s'. apply IH. intros n' b' Hin. eapply Hbs. by right. }
  case_match; [done|]. case_match; [done|].
  assert (binding_ok b) as Hb by (eapply Hbs; left). apply safe_call. intros s1 x s2 Hr1 Hi1 Hs Hw2.
  enough (inv s2 ∧ ∀ j, rely j s1 s2) as [Hi2 Hr2].
  { split_and!; [done|auto|]. eapply safe_mono; [apply Hrest|]. intros [] s3 Hr3.
    eapply rely_trans; [exact Hr1|]. by eapply rely_trans. }
  cbn [serve] in Hs. destruct (st_table s1 ResolverBinding !! n) as [old|] eqn:Hold.
  2:{ destruct Hs as [-> _]. split; [done|intros; apply rely_refl]. }
  destruct Hs as [[-> _]|[(_ & -> & _)|(_ & o & (Hu & Hv & _ & _ & _ & Hbody) & -> & _)]];
    [split; [done|intros; apply rely_refl]..|].
  apply binding_write; [done|done|]. intros Hn. destruct (i_binding _ _ _ Hi1 _ _ Hn Hold) as [Hold' _].
  unfold binding_ok in *. assert (planBinding o = planBinding b) as -> by (unfold planBinding at 1; by rewrite Hbody).
  rewrite Hu. tauto.
Qed.

(** ** A step *)

Lemma wantedSnapshot_wf st now views :
  wf_ShardState st = true → marshalable now = true → Forall (λ b, wf_Binding b = true) views →
  wf_Snapshot (wantedSnapshot c st now views) = true.
Proof using Hc.
  rewrite wf_ShardState_spec. intros (_ & He & Hn & _) Hnow Hv. destruct (po_text Hc) as (Hr & Hs & _).
  unfold wf_Snapshot. cbn [wantedSnapshot s_Region s_Shard s_ConfigurationEpoch s_ConfigurationRevision s_Bindings
    s_Members s_MemberPatterns s_RequiredPublications s_GeneratedAt].
  rewrite !andb_true_iff, !forallb_Forall, !elems_sorted, <- !forallb_Forall. split_and!; try done; [|apply Hc..].
  by apply forallb_Forall.
Qed.

Lemma withBindings_wf snapshot bs :
  wf_Snapshot snapshot = true → (∀ b, b ∈ bs → wf_Binding b = true) →
  wf_Snapshot (withBindings snapshot (Some bs)) = true.
Proof.
  unfold wf_Snapshot. cbn [withBindings s_Region s_Shard s_ConfigurationEpoch s_ConfigurationRevision s_Bindings
    s_Members s_MemberPatterns s_RequiredPublications s_GeneratedAt elems]. rewrite !andb_true_iff. intros Hwf Hbs.
  split_and!; try tauto. apply forallb_Forall, Forall_forall, Hbs.
Qed.

(** What is fitted and given its dependencies can be published. *)
Lemma fitted_planned s0 s byZone st now views prior acts snapshot rejected deps snapshot' :
  wf_ShardState st = true → marshalable now = true →
  Forall (view_ok byZone) views → (∀ b, b ∈ elems (s_Bindings prior) → view_ok byZone b) →
  owners_ok s0 s byZone → acts_ok s byZone acts →
  fitSnapshot (wantedSnapshot c st now views) prior (maxBindingsOf c) (maxBytesOf c) = (snapshot, rejected, None) →
  publicationDependencies snapshot acts = Ok (deps, snapshot') →
  ServingSnapshot_Validate snapshot' = Ok tt →
  planned s st snapshot' deps.
Proof using Hc.
  intros Hst Hnow Hviews Hprior Howners Hacts Hfit Hdeps Hval.
  destruct (fitSnapshot_bindings (view_ok byZone) _ _ _ _ _ _ Hfit) as (bs & -> & Hbs); [|done|].
  { intros b Hb. cbn [wantedSnapshot s_Bindings] in Hb. rewrite elems_sorted in Hb. rewrite Forall_forall in Hviews. auto. }
  destruct (publicationDependencies_Ok _ _ _ _ Hdeps) as (Hr & Hs & He & Hrev & Hb & Hwf & Hall).
  split; [|done| |].
  - apply Hwf, withBindings_wf; [|intros b Hin; by apply Hbs]. apply wantedSnapshot_wf; [done|done|].
    eapply Forall_impl; [exact Hviews|]. by intros b [? _].
  - by rewrite Hr, Hs, He, Hrev.
  - intros b z Hin Hz Hp. rewrite Hb in Hin. destruct (Hall b z Hin Hz Hp) as (name & Hname & Hd).
    destruct (Hacts _ _ Hname) as (o & mo & Ho & Hmo & Hzone & ->). exists (os_ActiveManifestName o). split; [|done].
    destruct (Howners _ _ Ho) as (own & Hown & Hspec & _). exists own, mo. split_and!; [done|by rewrite Hspec|apply Hmo|done|].
    destruct (Hbs b Hin) as [_ Hreq]. eapply (Hreq z Hz Hp); [exact Ho|]. by eapply manifest_at.
Qed.

Lemma safe_planSnapshot i s0 s owner st now byZone bindings prior views acts :
  holds s owner st → clockRange now → (∀ n b, (n, b) ∈ bindings → binding_ok b) →
  Forall (view_ok byZone) views → (∀ b, b ∈ elems (s_Bindings prior) → view_ok byZone b) →
  owners_ok s0 s byZone → acts_ok s byZone acts →
  safe i (planSnapshot c owner st now bindings prior views acts) (λ _ s', later s s') s.
Proof using Hc.
  intros Hh Hnow Hbindings Hviews Hprior Howners Hacts. unfold planSnapshot.
  destruct (fitSnapshot _ _ _ _) as [[snapshot rejected] fitErr] eqn:Hfit.
  assert (∀ s', safe i (reportCapacity c bindings rejected now) (λ _ s'', rely i s' s'') s') as Hreport
    by (intros s'; by apply safe_reportCapacity).
  assert (∀ s' (e : result PlannerError unit), later s s' →
    safe i (_ ← reportCapacity c bindings rejected now; mret e) (λ _ s', later s s') s') as Hend.
  { intros s' e Hl. eapply safe_seq; [apply Hreport|]. intros [] s'' Hr%rely_later. apply safe_ret. by etrans. }
  destruct fitErr as [e|]; [by apply Hend|].
  destruct (publicationDependencies snapshot acts) as [[deps snapshot']|zone] eqn:Hdeps; [|by finish].
  destruct (ServingSnapshot_Validate snapshot') as [[]|e] eqn:Hval; [|by finish].
  assert (marshalable now = true) as Hmar by (rewrite <- (Z.add_0_r now); by apply clock_marshalable).
  case_decide.
  - case_match; [by apply Hend|].
    eapply safe_seq; [apply (safe_writeRecord _ _ _ _ _ Hh); intros s2 _|].
    + pose proof (lease_step s2 st (now + leaseOf c) 0 (hl_wf _ _ _ Hh) (hl_next _ _ _ Hh)) as Hstep.
      rewrite Z.add_0_r in Hstep. apply Hstep; [|by left]. apply clock_marshalable; [done|by apply leaseOf_range, Hc].
    + intros u s2 [Hr2%rely_later _]. destruct u; [by apply Hend|by finish..].
  - case_match; [by finish|]. apply safe_publishSnapshot; [done| |done|apply text_ascii, Hash_ascii|done].
    eapply fitted_planned; try done. apply Hh.
Qed.

Lemma zero_prior s : prior_ok s zeroSnapshot.
Proof. by intros b ?%elem_of_nil. Qed.

Lemma safe_planHeld i s cache owner st now :
  holds s owner st → clockRange now → cache_ok s cache →
  safe i (planHeld c cache owner st now) (λ r s', cache_ok s' r.2) s.
Proof using Hc.
  intros Hh Hnow Hcache. unfold planHeld. rewrite (po_ns Hc). apply safe_list. intros s0 bindings Hr0 Hi0 Hw0.
  pose proof (rely_later _ _ _ _ Hr0) as Hl0. pose proof (cache_ok_later _ _ _ Hl0 Hcache) as Hcache0.
  pose proof (holds_later _ _ _ _ Hl0 Hh) as Hh0. split; [finish|]. intros Hlist.
  assert (∀ n b, (n, b) ∈ bindings → binding_ok b) as Hbindings.
  { intros n b Hin. destruct (Hlist n b Hin). by eapply i_binding. }
  eapply safe_seq; [apply (safe_ownersOfZones i s0 s0); [done|]; intros uid o; by rewrite lookup_empty|].
  intros [byZone|e] s1 [Hr1 Howners]; pose proof (rely_later _ _ _ _ Hr1) as Hl1;
    pose proof (cache_ok_later _ _ _ Hl1 Hcache0) as Hcache1; [|by finish].
  specialize (Howners byZone eq_refl).
  apply (safe_seq _ _ _ _ _ (λ r s', rely i s1 s' ∧ cache_ok s' r.2 ∧ ∀ prior, r.1 = Ok prior → prior_ok s0 prior)).
  { case_decide; [apply safe_ret; split_and!; [apply rely_refl|done|by intros ? [= <-]; apply zero_prior]|].
    by eapply safe_loadPrior. }
  intros [[prior|e] cache2] s2 (Hr2 & Hcache2 & Hprior); pose proof (rely_later _ _ _ _ Hr2) as Hl2; [|by finish].
  specialize (Hprior prior eq_refl). cbn [snd] in Hcache2.
  assert (∀ b, b ∈ elems (s_Bindings prior) → view_ok byZone b) as Hviews by (intros b Hb; by eapply prior_view).
  eapply safe_seq; [apply (safe_collectBindings i s2 byZone)|].
  - apply Forall_fmap, Forall_forall. intros [n b] Hin. by eapply Hbindings.
  - intros uid v [Hv _]%byUID_lookup. by apply Hviews.
  - constructor.
  - intros uid name. by rewrite lookup_empty.
  - intros name m. by rewrite lookup_empty.
  - intros [[views acts]|e] s3 [Hr3 Hcol]; pose proof (rely_later _ _ _ _ Hr3) as Hl3;
      pose proof (cache_ok_later _ _ _ Hl3 Hcache2) as Hcache3; [|by finish].
    destruct (Hcol views acts eq_refl) as [Hv Ha]. eapply safe_seq; [eapply (safe_planSnapshot i s0 s3); try done|].
    + eapply holds_later; [|exact Hh0]. etrans; [exact Hl1|]. by etrans.
    + eapply owners_ok_later; [|exact Howners]. by etrans.
    + intros r s4 Hl4. apply safe_ret. exact (cache_ok_later _ _ _ Hl4 Hcache3).
Qed.

Lemma takeover_step s st now :
  wf_ShardState st = true → (1 ≤ sh_Epoch st < 2 ^ 63)%Z → clockRange now →
  record_step ns s token st (takenOver c st now).
Proof using Hc.
  rewrite wf_ShardState_spec. intros (? & ? & Hn%fits64 & ? & ? & ?) He Hnow. destruct (po_text Hc) as (_ & _ & Hid).
  pose proof (NextWriterEpoch_range (sh_Epoch st) now Hnow ltac:(lia)) as Hr.
  split; cbn [takenOver sh_Holder sh_Epoch sh_NextRevision sh_LeaseUntil sh_ActiveOutbox sh_ContentHash]; [|lia|lia|by left].
  apply wf_ShardState_spec. split_and!; try done.
  - apply fits64. cbn [takenOver sh_Epoch]. lia.
  - by apply fits64.
  - apply clock_marshalable; [done|]. by apply leaseOf_range, Hc.
Qed.

Lemma safe_Step i s stopping cache :
  cache_ok s cache → safe i (Step c stopping cache) (λ r s', cache_ok s' r.2) s.
Proof using Hc.
  intros Hcache. unfold Step. case_match; [by finish|]. case_match; [by finish|].
  apply safe_clock. intros s1 now Hr1 _ Hnow. apply safe_get. intros s2 Hr2 Hi2 Hw2.
  assert (rely i s s2) as Hr02%rely_later by by eapply rely_trans.
  pose proof (cache_ok_later _ _ _ Hr02 Hcache) as Hcache2. split; [by finish|]. rewrite plannerKey_name.
  destruct (st_table s2 ConfigMap !! _) as [owner|] eqn:Hown.
  - destruct (readShardState owner) as [st|] eqn:Hst; [|by finish].
    assert (holds s2 owner st) as Hh.
    { apply holds_wrote; [done|done| |done]. eapply i_record; [done|apply isRecord_name|done]. }
    case_decide; [by apply safe_planHeld|]. case_match; [by finish|].
    eapply safe_seq; [apply (safe_writeRecord _ _ _ _ _ Hh); intros s3 _; apply takeover_step; [apply Hh|apply Hh|done]|].
    intros u s3 [Hr3%rely_later Hu]. pose proof (cache_ok_later _ _ _ Hr3 Hcache2) as Hcache3.
    destruct u as [cm| | | |]; [|by finish..]. destruct (Hu cm eq_refl) as (Hh3 & _). by apply safe_planHeld.
  - set (st := {| sh_Holder := _ |}). apply safe_call. intros s3 x s4 Hr3 Hi3 Hs Hw4. pose proof (serve_later _ _ _ _ _ Hs) as Hl4.
    assert (cache_ok s4 cache) as Hcache4.
    { eapply cache_ok_later; [|exact Hcache2]. etrans; [by eapply rely_later|done]. }
    pose proof (NextWriterEpoch_range 0 now Hnow ltac:(lia)) as Hr. destruct (po_text Hc) as (_ & _ & Hid).
    assert (wf_ShardState st = true) as Hwf.
    { apply wf_ShardState_spec. split_and!; try done; [apply fits64; cbn [st sh_Epoch]; lia|].
      apply clock_marshalable; [done|by apply leaseOf_range, Hc]. }
    destruct (record_create ns shards i s3 token st (shardLabels c) x s4) as [Hi4 Hr4]; [done..|cbn [st sh_Epoch]; lia|done|done|].
    split_and!; [done|by auto|]. destruct x; by finish.
Qed.

(** The steps of a planner keep the protocol. *)
Lemma safe_plan i s n cache : cache_ok s cache → safe i (plan c n cache) (λ _ _, True) s.
Proof using Hc.
  revert s cache. induction n as [|n IH]; intros s cache Hcache; cbn [plan]; [by apply safe_ret|].
  eapply safe_seq; [by apply safe_Step|]. intros [r cache'] s' Hc'. by apply IH.
Qed.
End planner.
