(* ===== verification/PublishPublisher.v ===== *)
(** The publisher keeps the protocol: under a revision it has reserved it stores the chunks
    before the manifest and the manifest before its activations, and names the manifest in
    the ownership only afterwards. *)

From S2P Require Import Prelude GoStrings GoCrypto GoJson GoJsonDecode Api ApiMeta ReservedScopes.
From S2P Require Import WireModel Publication Capacity Compile CompileHistory WireDecode ApiStore.
From S2P Require Import ShardState ApiHistory Planner Outbox Publisher PublishInvariant PublishWire.
From S2P Require Import PublishEvents PublishWrites PublishPlanner.

Section publisher.
Context `{GoRuntime} `{ApiMeta} `{K8sValidation} `{MiekgDNS}.
Context (ns : gostring) (shards : list ServingRegion) (o : ReconcilerOptions) (today : gostring).
Abbreviation inv := (inv ns shards).
Abbreviation within := (within ns shards).
Abbreviation rely := (rely ns).
Abbreviation safe := (safe ns shards).
Abbreviation holding := (holding ns shards).

(** The shards a publisher sends to are among those the names are compared for; the size
    of a chunk is an [int]. *)
Record publisher_ok : Prop := {
  pk_ns : op_PlatformNamespace o = ns;
  pk_shards : ∀ t, t ∈ servingRegions o → t ∈ shards;
  pk_size : (0 < op_ChunkSize o < 2 ^ 63)%Z;
}.
Context (Ho : publisher_ok).

Lemma ownershipKeyOf_name zone : ownershipKeyOf o zone = (ns, ownershipName zone).
Proof using Ho. unfold ownershipKeyOf. by rewrite (pk_ns Ho). Qed.

(** ** Ownership *)

Record owns (s : store) (zone : gostring) (own : Object Ownership) : Prop := {
  on_wrote : wrote s Ownership (ns, ownershipName zone) own;
  on_zone : os_ZoneUID (ownershipSpec own) = zone;
  on_next : (1 ≤ os_NextRevision (ownershipSpec own) < 2 ^ 62)%Z;
  on_epoch : (1 ≤ os_WriterEpoch (ownershipSpec own) < 2 ^ 62 + 2 ^ 38)%Z;
}.

Lemma owns_later s s' zone own : later s s' → owns s zone own → owns s' zone own.
Proof. intros Hl []. split; try done. by eapply wrote_later. Qed.

Lemma owns_wrote s zone own :
  inv s → within s → wrote s Ownership (ns, ownershipName zone) own → os_ZoneUID (ownershipSpec own) = zone →
  owns s zone own.
Proof.
  intros Hi [Hage _] Hw Hz. destruct (i_own_ok _ _ _ Hi (ns, _) _ eq_refl Hw). split; [done|done|lia|lia].
Qed.

Lemma safe_patchLease i s zone own spec' :
  owns s zone own → (∀ s1, rely i s s1 → own_step ns s1 (ownershipSpec own) spec') →
  safe i (patchLease (ns, ownershipName zone) own spec')
    (λ r s', rely i s s' ∧ ∀ new, r = Ok new → owns s' zone new ∧ ownershipSpec new = spec'
       ∧ unpublished ns s' zone (os_NextRevision (ownershipSpec own))
       ∧ (os_NextRevision (ownershipSpec own) < os_NextRevision spec' →
          took Ownership nextRevision s' i (ns, ownershipName zone) (os_NextRevision (ownershipSpec own)))%Z) s.
Proof.
  intros Hown Hstep. unfold patchLease. apply safe_call. intros s1 x s2 Hr Hi Hs Hw.
  specialize (Hstep s1 Hr). destruct (owns_later _ _ _ _ (rely_later _ _ _ _ Hr) Hown).
  destruct (own_update ns shards i s1 zone own (o_Labels own) spec' x s2) as (Hi2 & Hr2 & Hx); [done..|].
  split_and!; [done|by auto|]. assert (rely i s s2) by by eapply rely_trans.
  destruct x as [new| | | |]; [|by finish..]. destruct (Hx new eq_refl) as (Hnew & Hspec & Hun & Htook).
  apply safe_ret. split; [done|]. intros ? [= <-]. split_and!; [|done..]. apply owns_wrote; [done..|].
  rewrite Hspec. by rewrite (os_zone _ _ _ _ Hstep).
Qed.

(** A write that changes neither the revision nor the manifest. *)
Lemma epoch_step s (a b : DNSPublicationOwnershipSpec) :
  os_ZoneUID b = os_ZoneUID a → os_NextRevision b = os_NextRevision a →
  os_ActiveManifestName b = os_ActiveManifestName a →
  (os_WriterEpoch a ≤ os_WriterEpoch b ≤ Z.max (2 ^ 38) (os_WriterEpoch a + 1))%Z → own_step ns s a b.
Proof. intros Hz Hn Ha He. split; [done|lia|done|by left]. Qed.

Lemma lease_own_step s a until : own_step ns s a (withLease a until).
Proof. apply epoch_step; [done..|]. cbn [withLease os_WriterEpoch]. lia. Qed.

Lemma safe_acquireOwnership i s zone stopping now :
  clockRange now →
  safe i (acquireOwnership o zone stopping now)
    (λ r s', rely i s s' ∧ ∀ own, r = Ok (Some own) → owns s' zone own) s.
Proof using Ho.
  intros Hnow. unfold acquireOwnership. case_match; [by finish|]. rewrite ownershipKeyOf_name.
  apply safe_get. intros s1 Hr1 Hi1 Hw1. split; [by finish|].
  destruct (st_table s1 Ownership !! _) as [own|] eqn:Hown.
  - pose proof (i_own _ _ _ Hi1 (ns, _) _ eq_refl Hown) as Hwo. case_decide as Hz; [by finish|].
    assert (owns s1 zone own) as Hos by by apply owns_wrote.
    case_decide; [apply safe_ret; split; [done|]; by intros ? [= <-]|]. case_match; [by finish|].
    pose proof (on_epoch _ _ _ Hos) as He.
    eapply safe_seq; [apply (safe_patchLease _ _ _ _ _ Hos); intros s2 _|].
    + apply epoch_step; [done..|]. cbn [withHolder os_WriterEpoch]. rewrite toUint64_id by lia.
      pose proof (NextWriterEpoch_range (os_WriterEpoch (ownershipSpec own)) now Hnow ltac:(lia)).
      rewrite wrap64_id by lia. lia.
    + intros u s2 [Hr2 Hu]. assert (rely i s s2) by by eapply rely_trans. destruct u as [new|e]; [|by finish].
      apply safe_ret. split; [done|]. intros ? [= <-]. by apply Hu.
  - set (spec := {| os_ZoneUID := zone |}). apply safe_call. intros s2 x s3 Hr2 Hi2 Hs Hw3.
    pose proof (NextWriterEpoch_range 0 now Hnow ltac:(lia)) as He.
    assert (1 ≤ os_WriterEpoch spec ≤ 2 ^ 38)%Z as Hep by (cbn [spec os_WriterEpoch]; rewrite wrap64_id by lia; lia).
    destruct (own_create ns shards i s2 zone ∅ spec x s3) as [Hi3 Hr3]; [done..|]. split_and!; [done|by auto|].
    assert (rely i s s3) by (eapply rely_trans; [exact Hr1|]; by eapply rely_trans). destruct x; by finish.
Qed.

Lemma safe_holdOwnership i s zone stopping :
  safe i (holdOwnership o zone stopping)
    (λ r s', rely i s s' ∧ ∀ own, r = Ok (Some own) → owns s' zone own) s.
Proof using Ho.
  unfold holdOwnership. apply safe_clock. intros s1 now Hr1 _ Hnow.
  eapply safe_seq; [by apply safe_acquireOwnership|]. intros r s2 [Hr2 Hown].
  assert (rely i s s2) as Hr02 by by eapply rely_trans. destruct r as [[own|]|e]; [|by finish..].
  specialize (Hown own eq_refl). apply safe_clock. intros s3 at_ Hr3 _ _.
  assert (owns s3 zone own) as Hown3 by (eapply owns_later; [by eapply rely_later|done]).
  assert (rely i s s3) as Hr03 by by eapply rely_trans.
  case_match; [apply safe_ret; split; [done|]; by intros ? [= <-]|]. rewrite ownershipKeyOf_name.
  eapply safe_seq; [apply (safe_patchLease _ _ _ _ _ Hown3); intros s4 _; apply lease_own_step|].
  intros u s4 [Hr4 Hu]. assert (rely i s s4) by by eapply rely_trans. destruct u as [new|e]; [|by finish].
  apply safe_ret. split; [done|]. intros ? [= <-]. by apply Hu.
Qed.

Lemma safe_releaseAll i s identity now owners a b d :
  (∀ n own, (n, own) ∈ owners → n.1 = ns ∧ wrote s Ownership n own) →
  safe i (releaseAll identity now owners a b d) (λ _ _, True) s.
Proof.
  revert s a b d. induction owners as [|[n own] owners IH]; intros s a b d Hall; cbn [releaseAll]; [by apply safe_ret|].
  assert (∀ s' a b d, later s s' → safe i (releaseAll identity now owners a b d) (λ _ _, True) s') as Hrest.
  { intros s' a' b' d' Hl. apply IH. intros n' own' Hin. destruct (Hall n' own') as [? ?]; [by right|].
    split; [done|by eapply wrote_later]. }
  case_match; [by apply Hrest|]. destruct (Hall n own) as [Hn Hw]; [left|].
  apply safe_call. intros s1 x s2 Hr1 Hi1 Hs Hw2. pose proof (rely_later _ _ _ _ Hr1) as Hl1.
  pose proof (wrote_later _ _ _ _ _ Hl1 Hw) as Hwo. pose proof (ow_name _ _ _ _ (i_own_ok _ _ _ Hi1 _ _ Hn Hwo)) as Hname.
  rewrite Hname in Hwo, Hs.
  destruct (own_update ns shards i s1 (os_ZoneUID (ownershipSpec own)) own (o_Labels own) (withLease (ownershipSpec own) now) x s2)
    as (Hi2 & Hr2 & _); [done|done|apply lease_own_step|done|].
  assert (later s s2) by (etrans; [done|]; by eapply serve_later).
  split_and!; [done|by auto|]. destruct x; by apply Hrest.
Qed.

(** Ending the leases keeps the protocol. *)
Lemma safe_ReleaseOwnership i s identity now : safe i (ReleaseOwnership ns identity now) (λ _ _, True) s.
Proof.
  unfold ReleaseOwnership. apply safe_list. intros s1 l Hr1 Hi1 Hw1. split; [by finish|]. intros Hl.
  eapply safe_seq; [apply safe_releaseAll|by intros; apply safe_ret]. intros n own Hin.
  destruct (Hl n own Hin) as [Hn Hown]. split; [done|]. by eapply i_own.
Qed.

(** ** Reading *)

Lemma safe_activeRevision i s own :
  safe i (activeRevision o own) (λ r s', rely i s s' ∧ ∀ a, r = Ok a → (0 ≤ a < 2 ^ 63)%Z) s.
Proof using Ho.
  unfold activeRevision. case_decide; [apply safe_ret; split; [apply rely_refl|]; by intros a [= <-]|].
  rewrite (pk_ns Ho). apply safe_get. intros s1 Hr1 Hi1 Hw1. split; [by finish|].
  destruct (st_table s1 Manifest !! _) as [mo|] eqn:Hmo; [|by finish].
  pose proof (i_manifest _ _ _ Hi1 (ns, _) _ eq_refl Hmo) as Hwm.
  destruct (i_manifest_ok _ _ _ Hi1 (ns, _) _ eq_refl Hwm).
  case_match; [by finish|]. case_match; apply safe_ret; (split; [done|]); intros a [= <-]; lia.
Qed.

Lemma readonly_get {A} (k : Kind) (n : Name) (f : Reply (Object k) → prog A) :
  (∀ x, readonly (f x)) → readonly (call (Get k n) ≫= f).
Proof. intros Hf. apply readonly_ask; [apply reads_Get|done]. Qed.

Lemma readonly_loadChunks m i refs b : readonly (loadChunks o m i refs b).
Proof.
  revert i b. induction refs as [|ref refs IH]; intros i b; [constructor|]. cbn [loadChunks].
  apply readonly_get. intros []; [|constructor..]. case_match; [constructor|apply IH].
Qed.

Lemma readonly_loadPrevious own : readonly (loadPrevious o own).
Proof.
  unfold loadPrevious. case_decide; [constructor|]. apply readonly_get. intros []; [|constructor..].
  apply readonly_bind; [apply readonly_loadChunks|]. intros [b|e]; [|constructor].
  case_decide; [constructor|]. case_decide; constructor.
Qed.

Lemma readonly_tombstoneAcknowledged own : readonly (tombstoneAcknowledged o own).
Proof.
  unfold tombstoneAcknowledged. case_decide; [constructor|]. apply readonly_get. intros []; constructor.
Qed.

Lemma readonly_withdrawalDelivered manifest t : readonly (withdrawalDelivered o manifest t).
Proof. apply readonly_get. intros []; constructor. Qed.

(** ** Targets *)

Lemma bestShard_candidate context region candidates t :
  bestShard o context region candidates = Some t → t ∈ candidates.
Proof.
  unfold bestShard.
  match goal with |- fst <$> foldl ?f _ _ = _ → _ =>
    assert (∀ x, foldl f None candidates = Some x → x.1 ∈ candidates) as Hf end.
  { intros x. apply (foldl_inv (λ best, best = Some x → x.1 ∈ candidates)); [done|].
    intros [[c old]|] y Hy Hb; [case_match; [by intros [= <-]|done]|by intros [= <-]]. }
  destruct (foldl _ _ _) as [x|]; [|done]. intros [= <-]. by apply Hf.
Qed.

Lemma selectShard_candidate context region bindings candidates t :
  selectShard o context region bindings candidates = Some t → t ∈ candidates.
Proof.
  unfold selectShard. destruct (List.filter _ _) as [|x l] eqn:Hf.
  - intros Ht%bestShard_candidate. by rewrite sort_slice_perm in Ht.
  - intros [= <-]. assert (x ∈ List.filter (λ t, existsb (boundAt o context t) bindings) (sort_slice shardLess candidates)) as Hx
      by (rewrite Hf; left).
    rewrite list_elem_of_In in Hx. apply filter_In in Hx as [Hx%list_elem_of_In _]. by rewrite sort_slice_perm in Hx.
Qed.

Lemma selectServingTargets_shards context bindings t : t ∈ selectServingTargets o context bindings → t ∈ shards.
Proof using Ho.
  unfold selectServingTargets. rewrite list_elem_of_omap. intros (region & _ & Ht%selectShard_candidate).
  rewrite list_elem_of_In in Ht. apply filter_In in Ht as [Ht%list_elem_of_In _]. by apply Ho.
Qed.
Lemma boundTargets_shards context bindings t : t ∈ boundTargets o context bindings → t ∈ shards.
Proof using Ho.
  unfold boundTargets. rewrite list_elem_of_In. intros [Ht%list_elem_of_In _]%filter_In.
  by eapply selectServingTargets_shards.
Qed.

Abbreviation targetMap := (gmap gostring ServingRegion).
Definition known (m : targetMap) : Prop := map_Forall (λ _ t, t ∈ shards) m.

Lemma addTarget_known m t : known m → t ∈ shards → known (addTarget m t).
Proof. intros Hm Ht. by apply map_Forall_insert_2. Qed.
Lemma addTargets_known m ts : known m → (∀ t, t ∈ ts → t ∈ shards) → known (foldl addTarget m ts).
Proof. intros Hm Hts. apply (foldl_inv known); [done|]. intros m' t Hin Hm'. apply addTarget_known; auto. Qed.
Lemma sortedTargets_known m t : known m → t ∈ sortedTargets m → t ∈ shards.
Proof.
  unfold sortedTargets. intros Hm. rewrite sort_slice_perm, map_range_perm. intros ([key t'] & -> & Hin)%list_elem_of_fmap.
  apply elem_of_map_to_list in Hin. by eapply Hm.
Qed.

Lemma addPrevious_known tombstone configured st t :
  known st.1 → known st.2 → t ∈ shards →
  known (addPrevious tombstone configured st t).1 ∧ known (addPrevious tombstone configured st t).2.
Proof.
  destruct st as [byKey withdrawn]. cbn [fst snd]. intros Hb Hw Ht. unfold addPrevious. repeat case_match; split; try done;
    by apply addTarget_known.
Qed.

Lemma safe_addWithdrawals i s manifest byKey configured prior withdrawn :
  known withdrawn → (∀ t, t ∈ prior → t ∈ shards) →
  safe i (addWithdrawals o manifest byKey configured prior withdrawn)
    (λ r s', rely i s s' ∧ ∀ w, r = Ok w → known w) s.
Proof.
  revert s withdrawn. induction prior as [|t prior IH]; intros s withdrawn Hw Hp; cbn [addWithdrawals].
  { apply safe_ret. split; [apply rely_refl|]. by intros w [= <-]. }
  assert (∀ t, t ∈ prior → t ∈ shards) as Hp' by (intros x Hx; apply Hp; by right).
  case_match; [by apply IH|]. eapply safe_seq; [apply safe_readonly, readonly_withdrawalDelivered|]. cbn beta.
  intros d s1 Hr1.
  assert (∀ withdrawn, known withdrawn → safe i (addWithdrawals o manifest byKey configured prior withdrawn)
    (λ r s', rely i s s' ∧ ∀ w, r = Ok w → known w) s1) as Hnext.
  { intros w' Hw'. eapply safe_mono; [by apply IH|]. intros r s2 [Hr2 ?]. split; [exact (rely_trans _ _ _ _ _ Hr1 Hr2)|done]. }
  destruct d as [[]|e]; [by apply Hnext| |by finish]. apply Hnext, addTarget_known; [done|]. apply Hp. left.
Qed.

Lemma safe_labelBindings i s legacy :
  safe i (labelBindings o legacy) (λ _ s', rely i s s') s.
Proof.
  revert s. induction legacy as [|[n b] legacy IH]; intros s; cbn [labelBindings]; [by finish|].
  apply safe_call. intros s1 x s2 Hr1 Hi1 Hs Hw2.
  enough (inv s2 ∧ ∀ j, rely j s1 s2) as [Hi2 Hr2].
  { split_and!; [done|auto|]. eapply safe_mono; [apply IH|]. intros [] s3 Hr3.
    eapply rely_trans; [exact Hr1|]. by eapply rely_trans. }
  cbn [serve] in Hs. destruct (st_table s1 ResolverBinding !! n) as [old|] eqn:Hold.
  2:{ destruct Hs as [-> _]. split; [done|intros; apply rely_refl]. }
  destruct Hs as [[-> _]|(ob & (Hu & Hv & _ & _ & _ & Hbody) & -> & _)]; [split; [done|intros; apply rely_refl]|].
  apply binding_write; [done|done|]. intros Hn. pose proof (i_binding _ _ _ Hi1 _ _ Hn Hold) as Hb.
  unfold binding_ok, planBinding in *. by rewrite Hu, Hbody.
Qed.

Lemma safe_listProjectBindings i s : safe i (listProjectBindings o) (λ _ s', rely i s s') s.
Proof using Ho.
  unfold listProjectBindings. rewrite (pk_ns Ho). apply safe_list. intros s1 l1 Hr1 _ _. split; [by finish|]. intros _.
  apply safe_list. intros s2 l2 Hr2 _ _. assert (rely i s s2) as Hr02 by by eapply rely_trans. split; [by finish|]. intros _.
  eapply safe_seq; [apply safe_labelBindings|]. intros [] s3 Hr3. apply safe_ret. by eapply rely_trans.
Qed.

Lemma safe_publicationTargets i s own contexts tombstone :
  safe i (publicationTargets o own contexts tombstone)
    (λ r s', rely i s s' ∧ ∀ ts ws, r = Ok (ts, ws) → (∀ t, t ∈ ts → t ∈ shards) ∧ ∀ t, t ∈ ws → t ∈ shards) s.
Proof using Ho.
  unfold publicationTargets. eapply safe_seq; [apply safe_listProjectBindings|]. intros [bindings|e] s1 Hr1; [|by finish].
  match goal with |- context [decide (?b = ∅)] => set (bound := b) end. set (byKey := if decide (bound = ∅) then _ else _).
  assert (known ∅) as Hempty by apply map_Forall_empty.
  assert (known byKey) as Hby.
  { unfold byKey, bound. case_decide; apply addTargets_known; try done; intros t (x & Ht & _)%list_elem_of_bind;
      [by eapply selectServingTargets_shards|by eapply boundTargets_shards]. }
  assert (∀ m w, known m → known w → (∀ t, t ∈ sortedTargets m → t ∈ shards) ∧ ∀ t, t ∈ sortedTargets w → t ∈ shards)
    as Hsorted by (intros m w Hm Hw; split; intros t; by apply sortedTargets_known).
  case_decide; [apply safe_ret; split; [done|]; intros ts ws [= <- <-]; by apply Hsorted|].
  rewrite (pk_ns Ho). apply safe_get. intros s2 Hr2 Hi2 Hw2. assert (rely i s s2) as Hr02 by by eapply rely_trans.
  split; [by finish|]. destruct (st_table s2 Manifest !! _) as [mo|] eqn:Hmo; [|by finish].
  pose proof (i_manifest _ _ _ Hi2 (ns, _) _ eq_refl Hmo) as Hwm.
  pose proof (mf_targets _ _ _ _ _ (i_manifest_ok _ _ _ Hi2 (ns, _) _ eq_refl Hwm)) as Htargets.
  match goal with |- context [foldl (addPrevious tombstone ?conf) _ _] => set (configured := conf) end.
  destruct (foldl (addPrevious tombstone configured) _ _) as [byKey' withdrawn] eqn:Hfold.
  assert (known byKey' ∧ known withdrawn) as [Hby' Hw'].
  { change (known (byKey', withdrawn).1 ∧ known (byKey', withdrawn).2). rewrite <- Hfold.
    apply (foldl_inv (λ st, known st.1 ∧ known st.2)); [done|]. intros st t (t' & -> & Ht)%list_elem_of_fmap [? ?].
    apply addPrevious_known; [done|done|]. apply Htargets, elem_of_app. by left. }
  eapply safe_seq; [apply (safe_addWithdrawals i s2); [done|]|].
  - intros t [(t' & -> & Ht)%list_elem_of_fmap|Ht]%elem_of_app; [apply Htargets, elem_of_app; by right|].
    case_decide; [by apply elem_of_nil in Ht|by apply Ho].
  - intros w s3 [Hr3 Hw3]. apply safe_ret. split; [by eapply rely_trans|]. destruct w as [w|e]; [|done].
    intros ts ws [= <- <-]. apply Hsorted; [done|by apply Hw3].
Qed.

Lemma safe_regionalTargets i s own tombstone targets :
  safe i (regionalTargets o own tombstone targets)
    (λ r s', rely i s s' ∧ ∀ ts es, r = Ok (Some (ts, es)) → ∀ t, t ∈ ts → t ∈ targets) s.
Proof.
  unfold regionalTargets. case_match; [apply safe_ret; split; [apply rely_refl|]; by intros ts es [= <- <-]|].
  assert (∀ s' (expected : list gostring), rely i s s' →
    safe i (if bool_decide (List.filter (λ t, local o (sr_Region t)) targets = []) && bool_decide (os_ActiveManifestName own = [])
            then mret (Ok None) else mret (Ok (Some (List.filter (λ t, local o (sr_Region t)) targets, expected))))
      (λ (r : result PublisherError _) s', rely i s s' ∧ ∀ ts es, r = Ok (Some (ts, es)) → ∀ t, t ∈ ts → t ∈ targets) s')
    as Hend.
  { intros s' expected Hr. case_match; apply safe_ret; (split; [done|]); [done|]. intros ts es [= <- <-] t.
    rewrite list_elem_of_In. by intros [Ht%list_elem_of_In _]%filter_In. }
  destruct (tombstone && _); [|apply Hend, rely_refl].
  apply safe_get. intros s1 Hr1 _ _. split; [by finish|]. destruct (st_table s1 Manifest !! _); [by apply Hend|by finish].
Qed.

(** ** Storing *)

(** What is created or already there, under a fact [R] the others leave alone. *)
Lemma safe_createImmutable i s (k : Kind) (n : Name) labels (body : Body k) same (R : store → Prop)
    (P : store → Object k → Prop) :
  R s → (∀ s1 s2, R s1 → rely i s1 s2 → R s2) →
  (∀ s1 x s2, R s1 → later s s1 → inv s1 → within s2 → serve i (Create k n labels body) s1 x s2 →
     inv s2 ∧ (∀ j, j ≠ i → rely j s1 s2) ∧ R s2 ∧ ∀ ob, x = Found ob → P s2 ob) →
  (∀ s1 ob, R s1 → later s s1 → inv s1 → st_table s1 k !! n = Some ob → same ob = true → P s1 ob) →
  safe i (createImmutable k n labels body same)
    (λ r s', later s s' ∧ R s' ∧ (r = Ok tt → ∃ ob, P s' ob)) s.
Proof.
  intros HR Hstable Hcreate Hget. unfold createImmutable. apply safe_call. intros s1 x s2 Hr1 Hi1 Hs Hw2.
  pose proof (rely_later _ _ _ _ Hr1) as Hl1. pose proof (serve_later _ _ _ _ _ Hs) as Hl2.
  destruct (Hcreate s1 x s2) as (Hi2 & Hr2 & HR2 & HP); [by eapply Hstable|done|done|done|done|].
  assert (later s s2) as Hl02 by by etrans. split_and!; [done|done|].
  destruct x as [ob| | | |]; try (apply safe_ret; split_and!; by eauto).
  apply safe_get. intros s3 Hr3 Hi3 Hw3. assert (later s s3) as Hl03 by (etrans; [done|by eapply rely_later]).
  assert (R s3) as HR3 by by eapply Hstable. split; [by finish|].
  destruct (st_table s3 k !! n) as [ob|] eqn:Hob; [|by finish]. apply safe_ret. split_and!; [done|done|].
  destruct (same ob) eqn:Hsame; [|done]. intros _. exists ob. by apply Hget.
Qed.

Lemma outboxLabels_owner t : entry (outboxLabels t) shardOwnerLabel = [].
Proof. by vm_compute. Qed.

Lemma safe_createOutbox i s zone r k t name spec :
  holding s i zone r k → ob_ResourceUID spec = zone → ob_Revision spec = r →
  (∀ s1 ob, later s s1 → outboxSpec ob = spec → pub_ok ns shards s1 k (ns, name) ob) →
  safe i (createOutbox o t name spec)
    (λ x s', later s s' ∧ holding s' i zone r k ∧ (x = Ok tt → ∃ ob,
       wrote s' TransportOutbox (ns, name) ob ∧ outboxSpec ob = spec ∧ shardOf ob = [])) s.
Proof using Ho.
  intros Hhold Hz Hr Hpub. unfold createOutbox. rewrite (pk_ns Ho).
  apply (safe_createImmutable _ _ _ _ _ _ _ (λ s', holding s' i zone r k)
    (λ s' ob, wrote s' TransportOutbox (ns, name) ob ∧ outboxSpec ob = spec ∧ shardOf ob = [])).
  - done.
  - intros s1 s2. apply holding_rely.
  - intros s1 x s2 Hh1 Hl1 Hi1 _ Hs.
    eapply (pub_create ns shards i s1 zone r k); [done|done|done|apply outboxLabels_owner|done|done| |done].
    intros ob Hob. by apply Hpub.
  - intros s1 ob Hh1 Hl1 Hi1 Hob Hsame%bool_decide_eq_true.
    pose proof (i_outbox _ _ _ Hi1 (ns, _) _ eq_refl Hob) as Hw. split_and!; [done|done|].
    destruct (i_outbox_ok _ _ _ Hi1) as [choice Hch].
    destruct (Hch (ns, name) ob eq_refl Hw) as [(x & (Hn & _) & _)|(zone' & r' & Hsh & _)]; [|done]. exfalso.
    apply (f_equal snd) in Hn. cbn [snd] in Hn. pose proof (Hpub s1 ob Hl1 Hsame) as Hp. rewrite Hn in Hp.
    eapply serving_not_publication; [apply Hh1|exact Hp].
Qed.

(** *** Chunks *)

Abbreviation depMap := (gmap gostring (list gostring)).

(** The entry of a chunk for a shard has been made and is among the dependencies. *)
Definition exported (s : store) (k : Making) (j : nat) (t : ServingRegion) (deps : depMap) : Prop :=
  ∃ ob, wrote s TransportOutbox (ns, chunkExportName (mk_name k) j t) ob ∧ shardOf ob = []
    ∧ chunkMade ns k j t (ns, chunkExportName (mk_name k) j t) ob
    ∧ chunkExportName (mk_name k) j t ∈ default [] (deps !! regionToken t).

Lemma exported_mono s s' k j t deps deps' :
  later s s' → (∀ token, default [] (deps !! token) ⊆ default [] (deps' !! token)) →
  exported s k j t deps → exported s' k j t deps'.
Proof.
  intros Hl Hd (ob & Hw & Hsh & Hm & Hin). exists ob. split_and!; [by eapply wrote_later|done|done|by apply Hd].
Qed.

Lemma addDep_mono deps token name token' :
  default [] (deps !! token') ⊆ default [] (addDep deps token name !! token').
Proof.
  unfold addDep. destruct (decide (token = token')) as [->|Hne].
  - rewrite lookup_insert_eq. cbn. set_solver.
  - by rewrite lookup_insert_ne.
Qed.
Lemma addDep_new deps token name : name ∈ default [] (addDep deps token name !! token).
Proof. unfold addDep. rewrite lookup_insert_eq. cbn. set_solver. Qed.

Lemma safe_exportChunk i s zone r k j part targets deps :
  holding s i zone r k → chunkStored ns s k j → mk_parts k !! j = Some part → (∀ t, t ∈ targets → t ∈ shards) →
  safe i (exportChunk o (mk_pub k) j part targets deps)
    (λ x s', later s s' ∧ holding s' i zone r k ∧ ∀ deps', x = Ok deps' →
       (∀ token, default [] (deps !! token) ⊆ default [] (deps' !! token))
       ∧ ∀ t, t ∈ targets → exported s' k j t deps') s.
Proof using Ho.
  revert s deps. induction targets as [|t targets IH]; intros s deps Hh Hst Hpart Hts; cbn [exportChunk].
  { apply safe_ret. split_and!; [done|done|]. intros deps' [= <-]. split; [done|]. by intros t ?%elem_of_nil. }
  destruct (publicationEnvelope _ _ _ _ _) as [env|e] eqn:Henv; [|by finish].
  match goal with |- context [createOutbox o t ?n ?b] => set (name := n); set (spec := b) end.
  assert (∀ ob, outboxSpec ob = spec → chunkMade ns k j t (ns, name) ob) as Hmade.
  { intros ob Hob. exists part, env. split_and!; done. }
  pose proof (hd_making _ _ _ _ _ _ _ Hh) as Hmk.
  eapply safe_seq; [apply (safe_createOutbox i s zone r k); [done|apply Hmk|apply Hmk|]|].
  { intros s1 ob Hl1 Hob. eapply pub_chunk; [apply Hts; left|by apply Hmade|by eapply chunkStored_later]. }
  intros x s1 (Hl1 & Hh1 & Hx). destruct x as [[]|e]; [|by finish]. destruct (Hx eq_refl) as (ob & Hob & Hspec & Hsh).
  assert (exported s1 k j t (addDep deps (regionToken t) name)) as Hexp.
  { exists ob. split_and!; [done|done|by apply Hmade|apply addDep_new]. }
  eapply safe_mono; [apply IH; [done|by eapply chunkStored_later|done|intros t' Ht'; apply Hts; by right]|].
  intros x s2 (Hl2 & Hh2 & Hx2). split_and!; [by etrans|done|]. intros deps' ->. destruct (Hx2 deps' eq_refl) as [Hsub Hall].
  split.
  - intros token. etrans; [apply addDep_mono|apply Hsub].
  - intros t' [->|Ht']%elem_of_cons; [by eapply exported_mono|by apply Hall].
Qed.

(** The object of a chunk. *)
Lemma safe_createChunk i s zone r k j spec :
  holding s i zone r k → pcs_Index spec = Z.of_nat j →
  safe i (createImmutable ChunkObject (ns, chunkName (mk_name k) j) ∅ spec (λ have, bool_decide (chunkSpec have = spec)))
    (λ x s', later s s' ∧ holding s' i zone r k ∧ (x = Ok tt → ∃ c,
       wrote s' ChunkObject (ns, chunkName (mk_name k) j) c ∧ pcs_Index (chunkSpec c) = Z.of_nat j)) s.
Proof.
  intros Hh Hindex. apply (safe_createImmutable _ _ _ _ _ _ _ (λ s', holding s' i zone r k)
    (λ s' c, wrote s' ChunkObject (ns, chunkName (mk_name k) j) c ∧ pcs_Index (chunkSpec c) = Z.of_nat j)).
  - done.
  - intros s1 s2. apply holding_rely.
  - intros s1 x s2 Hh1 _ Hi1 _ Hs. cbn [serve] in Hs.
    destruct (st_table s1 ChunkObject !! _) as [old|] eqn:Hold.
    { destruct Hs as [-> Hx]. split_and!; [done|intros; apply rely_refl|done|]. intros c ->. by destruct Hx. }
    destruct Hs as [[-> ->]|(c & _ & _ & _ & Hv & _ & Hbody & _ & -> & Hx)].
    { split_and!; [done|intros; apply rely_refl|done|done]. }
    destruct (chunk_write ns shards i s1 (ns, chunkName (mk_name k) j) c Hi1 Hv) as [Hi2 Hr2].
    split_and!; [done|by auto|by eapply holding_rely|]. intros c' ->. destruct Hx as [[= ->]|]; [|done].
    split; [apply wrote_write; by right|]. unfold chunkSpec. by rewrite Hbody.
  - intros s1 c _ _ Hi1 Hc Hsame%bool_decide_eq_true. split; [by apply (i_chunk _ _ _ Hi1)|by rewrite Hsame].
Qed.

Lemma safe_persistChunks i s zone r k j parts targets deps :
  holding s i zone r k → parts = drop j (mk_parts k) → (∀ t, t ∈ targets → t ∈ shards) →
  (∀ j', j' < j → chunkStored ns s k j' ∧ ∀ t, t ∈ targets → exported s k j' t deps) →
  safe i (persistChunks o (mk_pub k) j parts targets deps)
    (λ x s', later s s' ∧ holding s' i zone r k ∧ ∀ deps', x = Ok deps' →
       ∀ t, t ∈ targets → chunksMade ns s' k t (default [] (deps' !! regionToken t))) s.
Proof using Ho.
  intros Hh Hparts Hts. revert s j deps Hh Hparts.
  induction parts as [|part parts IH]; intros s j deps Hh Hparts Hdone; cbn [persistChunks].
  { apply safe_ret. split_and!; [done|done|]. intros deps' [= <-] t Ht j' part Hp.
    destruct (Hdone j') as [Hst Hexp]; [|split; [done|by apply Hexp]].
    apply lookup_lt_Some in Hp. apply (f_equal length) in Hparts. rewrite length_drop in Hparts. cbn in Hparts. lia. }
  assert (mk_parts k !! j = Some part ∧ parts = drop (S j) (mk_parts k)) as [Hpart Hrest].
  { rewrite <- (Nat.add_0_r j) at 1. rewrite <- lookup_drop, <- Hparts. split; [done|].
    by rewrite <- Nat.add_1_r, <- drop_drop, <- Hparts. }
  rewrite (pk_ns Ho).
  eapply safe_seq; [by apply (safe_createChunk i s zone r k j)|]. intros x s1 (Hl1 & Hh1 & Hx).
  destruct x as [[]|e]; [|by finish]. specialize (Hx eq_refl).
  eapply safe_seq; [by apply (safe_exportChunk i s1 zone r k)|]. intros x s2 (Hl2 & Hh2 & Hx2).
  assert (later s s2) as Hl02 by by etrans. destruct x as [deps2|e]; [|by finish].
  destruct (Hx2 deps2 eq_refl) as [Hsub Hexp].
  eapply safe_mono; [apply IH; [done|done|]|].
  - intros j' Hj'. destruct (decide (j' = j)) as [->|Hne].
    + split; [exact (chunkStored_later ns s1 s2 k j Hl2 Hx)|done].
    + destruct (Hdone j') as [Hst Hall]; [lia|]. split; [by eapply chunkStored_later|].
      intros t Ht. eapply exported_mono; [exact Hl02|exact Hsub|by apply Hall].
  - intros x s3 (Hl3 & Hh3 & Hx3). split_and!; [by etrans|done|done].
Qed.

(** *** The manifest *)

Lemma targetOf_apiTarget t : targetOf (apiTarget t) = t.
Proof. by destruct t. Qed.

Lemma manifestObject_ok s zone r k plan targets withdrawn expected mo :
  making_ok ns s zone r k → (∀ t, t ∈ targets → t ∈ shards) → (∀ t, t ∈ withdrawn → t ∈ shards) →
  manifestSpec mo = manifestObject o (mk_pub k) plan targets withdrawn expected →
  manifest_ok ns shards s (ns, mk_name k) mo.
Proof.
  intros [] Hts Hws Hspec. assert (ms_ZoneUID (manifestSpec mo) = zone) as Hz by by rewrite Hspec.
  split; rewrite ?Hz, Hspec; cbn [manifestObject ms_ZoneApex ms_WriterEpoch ms_Revision ms_ServingTargets ms_WithdrawnTargets].
  - by rewrite mo_name, mo_revision.
  - rewrite mo_revision. lia.
  - apply mo_text.
  - by rewrite mo_revision.
  - intros t [(t' & -> & Ht)%list_elem_of_fmap|(t' & -> & Ht)%list_elem_of_fmap]%elem_of_app;
      rewrite targetOf_apiTarget; auto.
Qed.

Lemma safe_createManifest i s zone r k labels plan targets withdrawn expected :
  holding s i zone r k → (∀ t, t ∈ targets → t ∈ shards) → (∀ t, t ∈ withdrawn → t ∈ shards) →
  let spec := manifestObject o (mk_pub k) plan targets withdrawn expected in
  safe i (createImmutable Manifest (ns, mk_name k) labels (spec, emptyManifestStatus)
            (λ have, bool_decide (manifestSpec have = spec)))
    (λ x s', later s s' ∧ holding s' i zone r k ∧ (x = Ok tt → ∃ mo,
       wrote s' Manifest (ns, mk_name k) mo ∧ ms_ZoneUID (manifestSpec mo) = zone)) s.
Proof.
  intros Hh Hts Hws spec. assert (ms_ZoneUID spec = zone) as Hz by apply (hd_making _ _ _ _ _ _ _ Hh).
  apply (safe_createImmutable _ _ _ _ _ _ _ (λ s', holding s' i zone r k)
    (λ s' mo, wrote s' Manifest (ns, mk_name k) mo ∧ ms_ZoneUID (manifestSpec mo) = zone)).
  - done.
  - intros s1 s2. apply holding_rely.
  - intros s1 x s2 Hh1 _ Hi1 _ Hs. cbn [serve] in Hs.
    destruct (st_table s1 Manifest !! _) as [old|] eqn:Hold.
    { destruct Hs as [-> Hx]. split_and!; [done|intros; apply rely_refl|done|]. intros c ->. by destruct Hx. }
    destruct Hs as [[-> ->]|(mo & _ & _ & _ & Hv & _ & Hbody & _ & -> & Hx)].
    { split_and!; [done|intros; apply rely_refl|done|done]. }
    assert (manifestSpec mo = spec) as Hspec by (unfold manifestSpec; by rewrite Hbody).
    destruct (manifest_write ns shards i s1 (ns, mk_name k) mo Hi1 Hv) as [Hi2 Hr2].
    { intros _. eapply manifestObject_ok; [apply Hh1|exact Hts|exact Hws|exact Hspec]. }
    split_and!; [done|by auto|by eapply holding_rely|]. intros c' ->. destruct Hx as [[= ->]|]; [|done].
    split; [apply wrote_write; by right|by rewrite Hspec].
  - intros s1 mo _ _ Hi1 Hmo Hsame%bool_decide_eq_true. split; [by apply (i_manifest _ _ _ Hi1)|by rewrite Hsame].
Qed.

Lemma safe_exportManifest i s zone r k m targets (deps : ServingRegion → list gostring) :
  holding s i zone r k →
  (∀ s1 t n ob, later s s1 → t ∈ targets → activationMade ns k t m (deps t) n ob → pub_ok ns shards s1 k n ob) →
  safe i (exportManifest o (mk_pub k) m targets deps) (λ _ s', later s s' ∧ holding s' i zone r k) s.
Proof using Ho.
  revert s. induction targets as [|t targets IH]; intros s Hh Hpub; cbn [exportManifest]; [by finish|].
  destruct (publicationEnvelope _ _ _ _ _) as [env|e] eqn:Henv; [|by finish].
  pose proof (hd_making _ _ _ _ _ _ _ Hh) as Hmk.
  eapply safe_seq; [apply (safe_createOutbox i s zone r k); [done|apply Hmk|apply Hmk|]|].
  { intros s1 ob Hl1 Hob. apply (Hpub s1 t); [done|left|]. exists env. by split_and!. }
  intros x s1 (Hl1 & Hh1 & _). destruct x as [[]|e]; [|by finish].
  eapply safe_mono; [apply IH; [done|]|].
  - intros s2 t' n ob Hl2 Ht'. apply Hpub; [by etrans|by right].
  - intros x s2 [Hl2 Hh2]. split; [by etrans|done].
Qed.

Lemma safe_persistPublication i s zone r k plan targets withdrawn expected :
  mk_size k = op_ChunkSize o → holding s i zone r k →
  (∀ t, t ∈ targets → t ∈ shards) → (∀ t, t ∈ withdrawn → t ∈ shards) →
  safe i (persistPublication o (mk_pub k) plan targets withdrawn expected)
    (λ x s', later s s' ∧ (x = Ok tt → ∃ mo,
       wrote s' Manifest (ns, mk_name k) mo ∧ ms_ZoneUID (manifestSpec mo) = zone)) s.
Proof using Ho.
  intros Hsize Hh Hts Hws. unfold persistPublication. rewrite <- Hsize.
  eapply safe_seq; [apply (safe_persistChunks i s zone r k 0); [done|done|done|intros j' ?; lia]|].
  intros x s1 (Hl1 & Hh1 & Hx). destruct x as [deps|e]; [|by finish]. specialize (Hx deps eq_refl).
  rewrite (pk_ns Ho). eapply safe_seq; [by apply (safe_createManifest i s1 zone r k)|]. intros x s2 (Hl2 & Hh2 & Hx2).
  assert (later s s2) as Hl02 by by etrans. destruct x as [[]|e]; [|by finish].
  destruct (Hx2 eq_refl) as (mo & Hmo & Hz). fold (mk_manifest k).
  destruct (PublicationManifest_Validate (mk_manifest k)) as [[]|e] eqn:Hval; [|by finish].
  eapply safe_seq; [apply (safe_exportManifest i s2 zone r k); [done|]|].
  { intros s3 t n ob Hl3 Ht Hm. eapply pub_manifest; [by apply Hts|exact Hm| |done|by eapply wrote_later].
    eapply chunksMade_later; [|by apply Hx]. by etrans. }
  intros x s3 [Hl3 Hh3]. assert (later s s3) as Hl03 by by etrans. destruct x as [[]|e]; [|by finish].
  eapply safe_mono; [apply (safe_exportManifest i s3 zone r k); [done|]|].
  { intros s4 t n ob Hl4 Ht Hm. eapply pub_withdrawal; [by apply Hws|exact Hm|done|].
    eapply wrote_later; [|exact Hmo]. by etrans. }
  intros x s4 [Hl4 _]. split; [by etrans|]. intros _. exists mo. split; [|done].
  eapply wrote_later; [|exact Hmo]. by etrans.
Qed.

(** ** Committing *)

Lemma holding_start i s zone r k own :
  owns s zone own → unpublished ns s zone r → took Ownership nextRevision s i (ns, ownershipName zone) r →
  making_ok ns s zone r k → holding s i zone r k.
Proof. intros Hown Hun Htook Hmk. split; [done|done|]. intros n ob Hn Hw Hsh Hz Hr. by destruct (Hun n ob Hn Hw Hsh Hz). Qed.

Lemma safe_commitPublication i s own zone previous (tombstone : bool) payload hash state plan targets withdrawn
    expected now :
  owns s (z_UID zone) own → text (z_UID zone) = true → text (z_DomainName zone) = true → clockRange now →
  (0 ≤ previous < 2 ^ 63)%Z →
  (if tombstone then payload = [] ∧ hash = EmptyContentHash else payload ≠ [] ∧ hash = Hash payload) →
  (∀ t, t ∈ targets → t ∈ shards) → (∀ t, t ∈ withdrawn → t ∈ shards) →
  safe i (commitPublication o (ns, ownershipName (z_UID zone)) own zone previous tombstone payload hash state plan
            targets withdrawn expected now) (λ _ _, True) s.
Proof using Ho.
  intros Hown Htext Hdomain Hnow Hprev Hcontent Hts Hws. unfold commitPublication.
  apply safe_clock. intros s1 at_ Hr1 _ _. pose proof (owns_later _ _ _ _ (rely_later _ _ _ _ Hr1) Hown) as Hown1.
  pose proof (on_next _ _ _ Hown) as Hn. pose proof (on_epoch _ _ _ Hown) as He.
  destruct (Z.leb_spec (os_NextRevision (ownershipSpec own)) 0) as [|_]; [lia|].
  set (r := os_NextRevision (ownershipSpec own)) in *. rewrite wrap64_id by lia.
  eapply safe_seq; [apply (safe_patchLease _ _ _ _ _ Hown1); intros s2 _|].
  { split; [done|cbn [withRevision os_NextRevision]; lia|cbn [withRevision os_WriterEpoch]; lia|by left]. }
  intros u s2 [Hr2 Hu]. destruct u as [new|e]; [|by finish].
  destruct (Hu new eq_refl) as (Hnew & Hspec & Hun & Htook). clear Hu. fold r in Hspec, Hun, Htook.
  assert (os_WriterEpoch (ownershipSpec new) = os_WriterEpoch (ownershipSpec own)
    ∧ os_NextRevision (ownershipSpec new) = (r + 1)%Z) as [Hepoch Hnext] by (rewrite Hspec; done).
  assert (r < r + 1)%Z as Hlt by lia. specialize (Htook Hlt).
  match goal with |- context [persistPublication o ?q _ _ _ _] => set (p := q) end.
  set (k := {| mk_pub := p; mk_size := op_ChunkSize o |}).
  assert (making_ok ns s2 (z_UID zone) r k) as Hmk.
  { split; cbn [k mk_pub mk_size p pb_revision pb_epoch pb_previous pb_tombstone pb_payload pb_hash pb_now pb_zone mk_zone];
      try done.
    - rewrite <- (Z.add_0_r now). by apply clock_marshalable.
    - rewrite Hepoch. lia.
    - apply Ho.
    - exists new. split_and!; [apply Hnew|apply Hnew|done|done]. }
  assert (holding s2 i (z_UID zone) r k) as Hh by by eapply holding_start.
  eapply safe_seq; [by apply (safe_persistPublication i s2 (z_UID zone) r k)|]. intros x s3 [Hl3 Hx].
  destruct x as [[]|e]; [|by finish]. destruct (Hx eq_refl) as (mo & Hmo & Hz).
  apply safe_clock. intros s4 at2 Hr4 _ _.
  assert (owns s4 (z_UID zone) new) as Hnew4.
  { eapply owns_later; [|exact Hnew]. etrans; [exact Hl3|by eapply rely_later]. }
  eapply safe_seq; [apply (safe_patchLease _ _ _ _ _ Hnew4); intros s5 Hr5|by intros; apply safe_ret].
  split; [done|cbn [withActive os_NextRevision]; lia|cbn [withActive os_WriterEpoch]; lia|right].
  cbn [withActive os_ActiveManifestName os_ZoneUID os_WriterEpoch os_NextRevision]. rewrite (on_zone _ _ _ Hnew), Hnext. split.
  - exists mo. split; [|done]. eapply wrote_later; [|exact Hmo]. etrans; by eapply rely_later.
  - unfold manifestName. by replace (r + 1 - 1)%Z with r by lia.
Qed.

Lemma compilePayload_content inputs (tombstone : bool) previous plan payload :
  compilePayload today inputs tombstone previous = Ok (plan, payload) →
  if tombstone then payload = [] else payload ≠ [].
Proof.
  unfold compilePayload. destruct tombstone; [by intros [= _ <-]|]. destruct (Compile _ _) as [[r|e]|]; [|done..].
  destruct (WirePlan _ _) as [wire|e]; [|done]. intros [= _ <-]. done.
Qed.

Lemma safe_compileZone i s zone own inputs now stopping :
  owns s (z_UID zone) own → text (z_UID zone) = true → text (z_DomainName zone) = true → clockRange now →
  safe i (compileZone o today zone own inputs now stopping) (λ _ _, True) s.
Proof using Ho.
  intros Hown Htext Hdomain Hnow. unfold compileZone. rewrite ownershipKeyOf_name.
  eapply safe_seq; [apply safe_readonly, readonly_loadPrevious|]. intros previous s1 Hr1.
  destruct previous as [previous|e]; [|by finish].
  destruct (compilePayload _ _ _ _) as [[plan payload]|e] eqn:Hcompile; [|by finish].
  apply compilePayload_content in Hcompile.
  eapply safe_seq; [apply safe_publicationTargets|]. intros t s2 [Hr2 Ht]. destruct t as [[targets withdrawn]|e]; [|by finish].
  destruct (Ht _ _ eq_refl) as [Hts Hws].
  eapply safe_seq; [apply safe_regionalTargets|]. intros x s3 [Hr3 Hx]. destruct x as [[[here expected]|]|e]; [|by finish..].
  specialize (Hx _ _ eq_refl).
  eapply safe_seq; [apply safe_activeRevision|]. intros a s4 [Hr4 Ha]. destruct a as [active|e]; [|by finish].
  specialize (Ha active eq_refl). destruct ((0 <? active)%Z && _).
  { eapply safe_seq; [apply safe_readonly, readonly_tombstoneAcknowledged|]. intros b s5 _. by apply safe_ret. }
  destruct stopping; [by finish|]. apply safe_commitPublication; try done.
  - eapply owns_later; [|exact Hown]. do 3 (etrans; [by eapply rely_later|]). by eapply rely_later.
  - by destruct (negb _).
  - intros t Hin. by apply Hts, Hx.
Qed.

(** The zones of the passes are text. *)
Definition zone_text (zone : DNSZone) : Prop := text (z_UID zone) = true ∧ text (z_DomainName zone) = true.

Lemma safe_publishZone i s zone inputs :
  zone_text zone → safe i (publishZone o today zone inputs) (λ _ _, True) s.
Proof using Ho.
  intros [Htext Hdomain]. unfold publishZone. apply safe_clock. intros s1 now Hr1 _ Hnow.
  eapply safe_seq; [apply safe_holdOwnership|]. intros h s2 [Hr2 Hown]. destruct h as [[own|]|e]; [|by finish..].
  apply safe_compileZone; [by apply Hown|done..].
Qed.

(** The passes of a publisher keep the protocol. *)
Lemma safe_publish i s passes :
  Forall (λ p, zone_text p.1) passes → safe i (publish o today passes) (λ _ _, True) s.
Proof using Ho.
  intros Hall. induction Hall as [|[zone inputs] passes Hz Hall IH] in s |- *; cbn [publish]; [by apply safe_ret|].
  eapply safe_seq; [by apply safe_publishZone|]. intros ? s1 _. apply IH.
Qed.
End publisher.
