(* ===== verification/PublishSafety.v ===== *)
(** The publication protocol as a whole: planners, publishers and outboxes run against one
    store, in any order, with calls that fail and processes that stop.

    [stream_ordered] is what the replicas count on: nothing is on the stream before what it
    refers to.  [one_content] says that a revision names one content, and [commits_forward]
    that what is in force never goes back. *)

From S2P Require Import Prelude GoStrings GoCrypto GoJson GoJsonDecode Api ApiMeta RdataTypes ReservedScopes.
From S2P Require Import WireModel Publication Capacity Compile CompileHistory WireDecode ApiStore.
From S2P Require Import ShardState ApiHistory Planner Outbox Publisher CompileSafety PublishInvariant PublishWire.
From S2P Require Import PublishEvents PublishWrites PublishOutbox PublishPlanner PublishPublisher.

(** * The processes *)

Inductive Participant :=
| Planning (c : PlannerConfig) (steps : nat)
| Releasing (c : PlannerConfig) (now : Z)
| Publishing (o : ReconcilerOptions) (today : gostring) (passes : list (DNSZone * CompileInput))
| ReleasingOwnership (namespace identity : gostring) (now : Z)
| Exporting (o : Outbox) (steps : nat).

Section safety.
Context `{GoRuntime} `{ApiMeta} `{K8sValidation} `{MiekgDNS}.
Context (ns : gostring) (shards : list ServingRegion).
Abbreviation inv := (inv ns shards).
Abbreviation within := (within ns shards).
Abbreviation rely := (rely ns).

Definition play (p : Participant) : prog unit :=
  match p with
  | Planning c steps => plan c steps noPrior
  | Releasing c now => _ ← Release c now; mret tt
  | Publishing o today passes => publish o today passes
  | ReleasingOwnership namespace identity now => _ ← ReleaseOwnership namespace identity now; mret tt
  | Exporting o steps => export o steps
  end.

(** What is configured is text and in range, in this namespace and for these shards. *)
Definition participant_ok (p : Participant) : Prop :=
  match p with
  | Planning c _ => planner_ok ns shards c
  | Releasing c now => planner_ok ns shards c ∧ marshalable now = true
  | Publishing o _ passes => publisher_ok ns shards o ∧ Forall (λ x, zone_text x.1) passes
  | ReleasingOwnership namespace _ _ => namespace = ns
  | Exporting o _ => ox_Namespace o = ns
  end.

Lemma safe_play i s p : participant_ok p → safe ns shards i (play p) (λ _ _, True) s.
Proof.
  destruct p; cbn [participant_ok play].
  - intros Hc. apply safe_plan; [done|by left].
  - intros [Hc Hn]. eapply safe_seq; [by apply safe_Release|]. intros; by apply safe_ret.
  - intros [Ho Hz]. by apply safe_publish.
  - intros ->. eapply safe_seq; [apply safe_ReleaseOwnership|]. intros; by apply safe_ret.
  - apply safe_export.
Qed.

(** ** What else happens *)

(** Objects the others may write: those of other namespaces, what is no record, bindings
    that are text, and a manifest whose specification stays. *)
Inductive foreign (s : store) : ∀ (k : Kind), Name → Object k → Prop :=
| foreign_namespace k n (o : Object k) : n.1 ≠ ns → foreign s k n o
| foreign_config n (o : Object ConfigMap) : ¬ isRecord ns n → foreign s ConfigMap n o
| foreign_binding n (o : Object ResolverBinding) : binding_ok o → foreign s ResolverBinding n o
| foreign_status n (o old : Object Manifest) :
    st_table s Manifest !! n = Some old → manifestSpec o = manifestSpec old → foreign s Manifest n o.

(** Besides, objects are collected, but no record and no ownership. *)
Inductive others : store → store → Prop :=
| others_write i k n (o : Object k) s :
    foreign s k n o → (st_version s < o_ResourceVersion o)%Z → others s (write i k n o s)
| others_remove i k n s : ¬ durable ns k n → others s (remove i k n s).

Lemma others_later s s' : others s s' → later s s'.
Proof. intros []; eauto with store. Qed.

Lemma foreign_write i s (k : Kind) (n : Name) (o : Object k) :
  inv s → foreign s k n o → (st_version s < o_ResourceVersion o)%Z →
  inv (write i k n o s) ∧ ∀ j, rely j s (write i k n o s).
Proof.
  intros Hi Hf Hv. destruct Hf as [k n o Hn|n o Hn|n o Hb|n o old Hold Hspec].
  - pose proof (write_extends (durable ns) i k n o s Hv) as Hex.
    assert (∀ (k' : Kind) (n' : Name) (o' : Object k'), written k' (Wrote k n (Some o)) = Some (n', o') → n' = n) as Hname.
    { intros k' n' o' Hw. destruct (decide (k = k')) as [<-|Hne]; [rewrite written_same in Hw; by injection Hw|].
      by rewrite written_other in Hw. }
    split; [eapply inv_extend; [done|exact Hex|]|intros j; eapply rely_extend; [exact Hex|]].
    + split; try (intros n' o' Hn' Hw; pose proof (Hname _ _ _ Hw); subst n'; try done; by destruct Hn'). done.
    + intros n' o' Hn' Hw. pose proof (Hname _ _ _ Hw). by subst n'.
  - by apply config_write.
  - by apply binding_write.
  - apply manifest_write; [done|done|]. intros Hn.
    pose proof (i_manifest_ok _ _ _ Hi _ _ Hn (i_manifest _ _ _ Hi _ _ Hn Hold)) as [].
    split; rewrite ?Hspec; done.
Qed.

Lemma others_ok s s' : inv s → others s s' → inv s' ∧ ∀ i, rely i s s'.
Proof.
  intros Hi Ho. revert Hi. destruct Ho as [i k n o s1 Hf Hv|i k n s1 Hd]; intros Hi; [by apply foreign_write|].
  pose proof (remove_extends (durable ns) i k n s1 Hd) as Hex. split; [eapply inv_extend; [done|exact Hex|]; by split|].
  intros j. by eapply rely_extend.
Qed.

(** * Runs *)

(** Nothing of the protocol is there yet. *)
Record start (s : store) : Prop := {
  sr_log : st_log s = [];
  sr_record : ∀ n cm, st_table s ConfigMap !! n = Some cm → ¬ isRecord ns n;
  sr_own : ∀ n own, st_table s Ownership !! n = Some own → n.1 ≠ ns;
  sr_manifest : ∀ n mo, st_table s Manifest !! n = Some mo → n.1 ≠ ns;
  sr_chunk : ∀ n c, st_table s ChunkObject !! n = Some c → n.1 ≠ ns;
  sr_outbox : ∀ n o, st_table s TransportOutbox !! n = Some o → n.1 ≠ ns;
  sr_binding : ∀ n b, st_table s ResolverBinding !! n = Some b → binding_ok b;
}.

Definition noMaking : Making :=
  {| mk_pub := {| pb_zone := pz_Zone exampleZone; pb_name := []; pb_epoch := 0; pb_revision := 0;
                  pb_previous := 0; pb_tombstone := true; pb_payload := []; pb_hash := []; pb_now := 0 |};
     mk_size := 1 |}.
Lemma start_inv s : start s → inv s.
Proof.
  intros []. assert (∀ (k : Kind) (n : Name) (o : Object k), ¬ wrote s k n o) as Hno.
  { intros k n o (i & ev & Hin & _). rewrite sr_log0 in Hin. by apply elem_of_nil in Hin. }
  split; try (intros; exfalso; by eapply Hno).
  - split; intros; exfalso; by eapply Hno.
  - intros n cm Hn Hcm. by destruct (sr_record0 n cm Hcm).
  - intros n own Hn Hown. by destruct (sr_own0 n own Hown).
  - intros n mo Hn Hmo. by destruct (sr_manifest0 n mo Hmo).
  - intros n c Hn Hc. by destruct (sr_chunk0 n c Hc).
  - intros n o Hn Ho. by destruct (sr_outbox0 n o Ho).
  - exists (λ _ _, noMaking). intros; exfalso; by eapply Hno.
  - intros n n' o o' x x' Ho. exfalso. by eapply Hno.
  - intros n b _ Hb. by eapply sr_binding0.
  - intros before i subject env after Hl. rewrite sr_log0 in Hl. by destruct before.
Qed.

Abbreviation moves := (step (A := unit) others).

Lemma moves_later a b : rtc moves a b → later a.1 b.1.
Proof.
  induction 1 as [|a b c Hs _ IH]; [done|]. etrans; [|exact IH].
  destruct Hs; cbn [fst]; [by eapply serve_later|by apply others_later].
Qed.

Lemma run_inv (P : nat → Participant) s s' progs :
  start s → (∀ i, participant_ok (P i)) → rtc moves (s, λ i, play (P i)) (s', progs) → within s' → inv s'.
Proof.
  intros Hs Hp Hrun Hw.
  apply (adequacy inv rely within (rely_refl ns) (rely_trans ns) others
    (λ s s' Hi Ho _, others_ok s s' Hi Ho)
    (λ i R c s x s' Hsv Hw, within_later ns shards _ _ (serve_later _ _ _ _ _ Hsv) Hw)
    (λ s s' Ho Hw, within_later ns shards _ _ (others_later _ _ Ho) Hw)
    (λ _ _ _, True) s (λ i, play (P i)) s' progs); try done.
  - by apply start_inv.
  - intros i. by apply safe_play.
Qed.

(** ** What an event came from *)

Definition sent (s : store) (env : Envelope) : Prop := ∃ subject, happened (st_log s) subject env.

Lemma sent_entry s env : inv s → sent s env → sentFrom ns (st_log s) env.
Proof.
  intros Hi (subject & i & Hin). apply list_elem_of_split in Hin as (before & after & Hl).
  destruct (i_gate _ _ _ Hi before i subject env after Hl) as (_ & (n & out & Hn & (j & ev & Hev & Hw) & Henv) & _).
  exists n, out. split_and!; [done| |done]. exists j, ev. split; [|done]. rewrite Hl. apply elem_of_app. by left.
Qed.

Lemma snapshot_source s env :
  inv s → within s → sent s env → e_Kind env = KindServingSnapshot →
  ∃ n out y, wrote s TransportOutbox n out ∧ entryEnvelope (outboxSpec out) = Some env ∧ servingMade ns y n out
    ∧ sv_region y = e_Region env ∧ sv_shard y = e_Shard env ∧ sv_revision y = e_Revision env.
Proof.
  intros Hi Hw Hsent Hkind. destruct (sent_entry _ _ Hi Hsent) as (n & out & Hn & Hout & Henv).
  destruct (i_outbox_ok _ _ _ Hi) as [choice Hch].
  destruct (Hch n out Hn Hout) as [(y & Hy & Hok)|(zone & r & _ & Hmk & Hp)].
  - destruct (serving_envelope _ _ _ _ _ _ Hy Hok) as (env' & Henv' & _ & _ & Hr & Hs & _ & Hrv).
    rewrite Henv in Henv'. injection Henv' as <-. exists n, out, y. by split_and!.
  - by destruct (publication_event _ _ _ _ _ _ _ _ _ Hw Hmk Hp Henv) as (_ & _ & _ & Hne & _).
Qed.

(** One snapshot event per shard and revision. *)
Lemma snapshot_unique s env env' :
  inv s → within s → sent s env → sent s env' → e_Kind env = KindServingSnapshot → e_Kind env' = KindServingSnapshot →
  sameShard env env' → e_Revision env = e_Revision env' → env = env'.
Proof.
  intros Hi Hw Hsent Hsent' Hk Hk' [Hr Hsh] Hrev.
  destruct (snapshot_source _ _ Hi Hw Hsent Hk) as (n & out & y & Hout & Henv & Hy & Hyr & Hys & Hyv).
  destruct (snapshot_source _ _ Hi Hw Hsent' Hk') as (n' & out' & y' & Hout' & Henv' & Hy' & Hyr' & Hys' & Hyv').
  destruct (i_unique _ _ _ Hi n n' out out' y y') as [_ Hspec]; [done..|unfold sv_token; congruence|congruence|].
  congruence.
Qed.

(** The publications of a choice. *)
Definition chosen (s : store) (choice : gostring → Z → Making) : Prop :=
  ∀ n o, n.1 = ns → wrote s TransportOutbox n o → outbox_ok ns shards s choice n o.

Lemma Encoded_inj a b : Encoded a = Encoded b → a = b.
Proof. by intros [= ->]. Qed.
Lemma manifestEvent_same env m m' : manifestEvent env m → manifestEvent env m' → m = m'.
Proof. intros (_ & Hp & Hd & _) (_ & Hp' & Hd' & _). rewrite Hp in Hp'. apply Encoded_inj in Hp'. congruence. Qed.
Lemma chunkEvent_same env c c' : chunkEvent env c → chunkEvent env c' → c = c'.
Proof. intros (_ & Hp & Hd & _) (_ & Hp' & Hd' & _). rewrite Hp in Hp'. apply Encoded_inj in Hp'. congruence. Qed.

(** An entry of a publication sends a chunk of it, its manifest or the withdrawal. *)
Lemma publication_content s zone r k n out env :
  within s → making_ok ns s zone r k → pub_ok ns shards s k n out → entryEnvelope (outboxSpec out) = Some env →
  (∃ i part, mk_parts k !! i = Some part ∧ chunkEvent env (wireChunk (identityOf (mk_pub k)) i part))
  ∨ ∃ m, (m = mk_manifest k ∨ m = withdrawalManifest (mk_manifest k)) ∧ manifestEvent env m.
Proof.
  intros Hw Hmk Hp Henv.
  destruct Hp as [i t Ht Hc Hst|t deps mo Ht Ha Hcs Hv Hmo|t deps mo Ht Ha Hv Hmo].
  - left. destruct (chunk_envelope _ _ _ _ _ _ _ _ _ Hmk Hc (stored_index _ _ _ Hw _ _ Hst))
      as (env1 & part & Hpart & Henv1 & Hev & _). exists i, part. split; [done|]. congruence.
  - right. exists (mk_manifest k). split; [by left|]. destruct (Ha) as (env0 & -> & _ & _).
    destruct (activates_envelope ns shards s Hw zone r k t (mk_manifest k) out Hmk)
      as (env1 & Henv1 & Hev & _); [exists deps; split; [done|by left]|]. congruence.
  - right. eexists. split; [by right|]. destruct (Ha) as (env0 & -> & _ & _).
    destruct (activates_envelope ns shards s Hw zone r k t (withdrawalManifest (mk_manifest k)) out Hmk)
      as (env1 & Henv1 & Hev & _); [exists deps; split; [done|by right]|]. congruence.
Qed.

(** An event that is no snapshot belongs to the publication of its zone and revision. *)
Lemma publication_source s choice env :
  inv s → within s → chosen s choice → sent s env → e_Kind env ≠ KindServingSnapshot →
  let k := choice (e_ResourceUID env) (e_Revision env) in
  making_ok ns s (e_ResourceUID env) (e_Revision env) k
  ∧ ((∃ i part, mk_parts k !! i = Some part ∧ chunkEvent env (wireChunk (identityOf (mk_pub k)) i part))
     ∨ ∃ m, (m = mk_manifest k ∨ m = withdrawalManifest (mk_manifest k)) ∧ manifestEvent env m).
Proof.
  intros Hi Hw Hch Hsent Hkind. destruct (sent_entry _ _ Hi Hsent) as (n & out & Hn & Hout & Henv).
  destruct (Hch n out Hn Hout) as [(y & Hy & Hok)|(zone & r & _ & Hmk & Hp)].
  - destruct (serving_envelope _ _ _ _ _ _ Hy Hok) as (env' & Henv' & [Hk _] & _). congruence.
  - destruct (publication_event _ _ _ _ _ _ _ _ _ Hw Hmk Hp Henv) as (-> & _ & -> & _).
    split; [done|by eapply publication_content].
Qed.

(** A publication that removes its zone needs no other withdrawal. *)
Lemma tombstone_withdrawn s zone r k :
  making_ok ns s zone r k → pm_Tombstone (mk_manifest k) = true → withdrawalManifest (mk_manifest k) = mk_manifest k.
Proof.
  intros Hmk Ht. change (pb_tombstone (mk_pub k) = true) in Ht. pose proof (mo_content _ _ _ _ _ Hmk) as Hc.
  rewrite Ht in Hc. destruct Hc as [Hp Hh]. unfold mk_manifest. by rewrite Ht, Hp, Hh.
Qed.

Lemma manifest_source s choice env m :
  inv s → within s → chosen s choice → sent s env → manifestEvent env m →
  let k := choice (pm_ZoneUID m) (pm_Revision m) in
  m = if pm_Tombstone m then withdrawalManifest (mk_manifest k) else mk_manifest k.
Proof.
  intros Hi Hw Hch Hsent Hev k. pose proof Hev as (Hkind & _ & _ & Hzone & _ & Hrev).
  destruct (publication_source s choice env) as [Hmk Hsrc]; [done..|by rewrite Hkind|]. rewrite Hzone, Hrev in Hmk, Hsrc.
  destruct Hsrc as [(i & part & _ & [Hk _])|(m' & Hm' & Hev')]; [by rewrite Hkind in Hk|].
  pose proof (manifestEvent_same _ _ _ Hev Hev') as <-. destruct (pm_Tombstone m) eqn:Ht.
  - destruct Hm' as [Hm'|Hm']; [|exact Hm']. unfold k. rewrite (tombstone_withdrawn _ _ _ _ Hmk); [exact Hm'|].
    rewrite <- Hm'. exact Ht.
  - destruct Hm' as [Hm'|Hm']; [exact Hm'|]. by rewrite Hm' in Ht.
Qed.

(** Two manifests of one publication: both activate it or both withdraw it and are equal,
    or one of them is the withdrawal of the other. *)
Definition sameContent (m m' : PublicationManifest) : Prop :=
  (pm_Tombstone m = pm_Tombstone m' → m = m') ∧ (pm_Tombstone m = true → m = withdrawalManifest m')
  ∧ (pm_Tombstone m' = true → m' = withdrawalManifest m).

Lemma sameContent_source (k : Making) m m' :
  m = (if pm_Tombstone m then withdrawalManifest (mk_manifest k) else mk_manifest k) →
  m' = (if pm_Tombstone m' then withdrawalManifest (mk_manifest k) else mk_manifest k) → sameContent m m'.
Proof.
  intros Hm Hm'. assert (∀ x, withdrawalManifest (withdrawalManifest x) = withdrawalManifest x) as Hw by done.
  split_and!; destruct (pm_Tombstone m), (pm_Tombstone m'); intros E; try done; congruence.
Qed.

Lemma chunk_source s choice env c :
  inv s → within s → chosen s choice → sent s env → chunkEvent env c →
  let k := choice (pc_ZoneUID c) (pc_Revision c) in
  ∃ i part, mk_parts k !! i = Some part ∧ c = wireChunk (identityOf (mk_pub k)) i part.
Proof.
  intros Hi Hw Hch Hsent Hev. pose proof Hev as (Hkind & _ & _ & Hzone & _ & Hrev).
  destruct (publication_source s choice env) as [_ Hsrc]; [done..|by rewrite Hkind|]. rewrite Hzone, Hrev in Hsrc.
  destruct Hsrc as [(i & part & Hpart & Hev')|(m' & _ & [Hk _])]; [|by rewrite Hkind in Hk].
  exists i, part. split; [done|]. by eapply chunkEvent_same.
Qed.

(** * What the stream shows *)

(** C1. However planners, publishers and outboxes of a platform namespace interleave,
    whichever of their calls fail and wherever they stop: every event on the stream is
    preceded by what it refers to.  Before a serving snapshot the shard's record has named
    it, and for every zone the snapshot attaches a manifest of the zone, not older than the
    snapshot requires, has been published to the same shard.  Before a manifest the zone's
    ownership has named the publication, and chunks that verify against the manifest have
    been published to the same shard, unless the manifest withdraws the zone.  Assumes of
    the run that no two of the truncated hashes in its names collide. *)
Theorem stream_ordered (P : nat → Participant) s s' progs :
  start s → (∀ i, participant_ok (P i)) → rtc moves (s, λ i, play (P i)) (s', progs) → within s' →
  ∀ before i subject env after,
    st_log s' = before ++ (i, Published subject env) :: after → gate ns before subject env.
Proof. intros Hs Hp Hrun Hw. by apply (i_gate _ _ _ (run_inv P s s' progs Hs Hp Hrun Hw)). Qed.

(** C2. A revision names one content, however many planners or publishers believe to hold
    the shard or the zone.  Two snapshots of one shard and revision on the stream are the
    same event.  Of two manifests of one zone and revision, either both activate the
    publication or both withdraw it, and then they are equal, or one of them is the
    withdrawal of the other: the same manifest marked as a tombstone, without its chunks.
    Two chunks of one zone, revision and index are equal.  Assumes of the run that no two of
    the truncated hashes in its names collide and that it has fewer than 2^62 events. *)
Theorem one_content (P : nat → Participant) s s' progs :
  start s → (∀ i, participant_ok (P i)) → rtc moves (s, λ i, play (P i)) (s', progs) → within s' →
  ∀ env env', sent s' env → sent s' env' →
  (∀ x x', snapshotEvent env x → snapshotEvent env' x' → sameShard env env' → e_Revision env = e_Revision env' →
     env = env')
  ∧ (∀ m m', manifestEvent env m → manifestEvent env' m' → pm_ZoneUID m = pm_ZoneUID m' →
       pm_Revision m = pm_Revision m' → sameContent m m')
  ∧ (∀ c c', chunkEvent env c → chunkEvent env' c' → pc_ZoneUID c = pc_ZoneUID c' →
       pc_Revision c = pc_Revision c' → pc_Index c = pc_Index c' → c = c').
Proof.
  intros Hs Hp Hrun Hw env env' Hsent Hsent'. pose proof (run_inv P s s' progs Hs Hp Hrun Hw) as Hi.
  destruct (i_outbox_ok _ _ _ Hi) as [choice Hch]. split_and!.
  - intros x x' [Hk _] [Hk' _] Hsh Hrev. by eapply snapshot_unique.
  - intros m m' Hm Hm' Hz Hr. pose proof (manifest_source _ _ _ _ Hi Hw Hch Hsent Hm) as E.
    rewrite Hz, Hr in E. exact (sameContent_source _ _ _ E (manifest_source _ _ _ _ Hi Hw Hch Hsent' Hm')).
  - intros c c' Hc Hc' Hz Hr Hidx. destruct (chunk_source _ _ _ _ Hi Hw Hch Hsent Hc) as (i & part & Hpart & Heq).
    destruct (chunk_source _ _ _ _ Hi Hw Hch Hsent' Hc') as (i' & part' & Hpart' & Heq').
    rewrite Hz, Hr in Hpart, Heq. assert (i = i') as <-; [|congruence].
    rewrite Heq, Heq' in Hidx. cbn [wireChunk pc_Index] in Hidx. lia.
Qed.

(** C3. What is in force never goes back: from any moment of a run to any later one the
    epoch and the next revision of a shard's record and of a zone's ownership do not fall,
    and the snapshot or manifest it names is not of a smaller epoch or revision. *)
Theorem commits_forward (P : nat → Participant) s s1 progs1 s' progs :
  start s → (∀ i, participant_ok (P i)) → rtc moves (s, λ i, play (P i)) (s1, progs1) →
  rtc moves (s1, progs1) (s', progs) → within s' →
  (∀ n cm, isRecord ns n → st_table s1 ConfigMap !! n = Some cm →
     ∃ cm', st_table s' ConfigMap !! n = Some cm' ∧ record_le cm cm')
  ∧ (∀ n own, n.1 = ns → st_table s1 Ownership !! n = Some own →
       ∃ own', st_table s' Ownership !! n = Some own' ∧ own_le own own').
Proof.
  intros Hs Hp Hrun1 Hrun2 Hw. pose proof (moves_later _ _ Hrun2) as Hl. cbn [fst] in Hl.
  pose proof (run_inv P s s1 progs1 Hs Hp Hrun1 (within_later _ _ _ _ Hl Hw)) as Hi1.
  assert (inv s') as Hi by by eapply (run_inv P s s' progs); [..|by etrans|].
  split; intros n o Hn Ho.
  - eapply (i_record_le _ _ _ Hi); [done|]. eapply wrote_later; [done|]. by eapply i_record.
  - eapply (i_own_le _ _ _ Hi); [done|]. eapply wrote_later; [done|]. by eapply i_own.
Qed.
End safety.

(** * Names that do not meet, checked *)

Definition injectiveOn {A B} `{EqDecision A, EqDecision B} (f : A → B) (l : list A) : bool :=
  forallb (λ a, forallb (λ b, implb (bool_decide (f a = f b)) (bool_decide (a = b))) l) l.

Lemma injectiveOn_spec {A B} `{EqDecision A, EqDecision B} (f : A → B) l a b :
  injectiveOn f l = true → a ∈ l → b ∈ l → f a = f b → a = b.
Proof.
  unfold injectiveOn. rewrite forallb_forall. intros Hall Ha%list_elem_of_In Hb%list_elem_of_In Hf.
  specialize (Hall a Ha). rewrite forallb_forall in Hall. specialize (Hall b Hb).
  rewrite bool_decide_true in Hall by done. by apply bool_decide_eq_true in Hall.
Qed.

(** The objects of a kind that were written. *)
Definition objectsOf (k : Kind) (s : store) : list (Object k) := omap (λ e, snd <$> written k e.2) (st_log s).

Lemma objectsOf_wrote (k : Kind) (s : store) (n : Name) (o : Object k) : wrote s k n o → o ∈ objectsOf k s.
Proof.
  intros (i & ev & Hin & Hw). apply list_elem_of_omap. exists (i, ev). split; [done|]. cbn [snd]. by rewrite Hw.
Qed.

Section checked.
Context `{GoRuntime} (ns : gostring) (shards : list ServingRegion).

Definition usedNames (s : store) : list gostring :=
  (λ own, manifestName (os_ZoneUID (ownershipSpec own)) (os_WriterEpoch (ownershipSpec own))
            (os_NextRevision (ownershipSpec own) - 1)) <$> objectsOf Ownership s.
Definition chunkIndexes (s : store) : list nat :=
  (λ c, Z.to_nat (pcs_Index (chunkSpec c))) <$> objectsOf ChunkObject s.
Definition activationNames (s : store) : list (gostring * ServingRegion) := list_prod (usedNames s) shards.
Definition exportNames (s : store) : list (gostring * nat * ServingRegion) :=
  list_prod (list_prod (usedNames s) (chunkIndexes s)) shards.

Definition activationOf (x : gostring * ServingRegion) : gostring :=
  PublicationActivationName x.1 (sr_Region x.2) (sr_Shard x.2).
Definition exportOf (x : gostring * nat * ServingRegion) : gostring := chunkExportName x.1.1 x.1.2 x.2.

Definition apart_check (s : store) : bool :=
  injectiveOn (λ zone, take 16 (OpaqueToken zone)) ((λ own, os_ZoneUID (ownershipSpec own)) <$> objectsOf Ownership s)
  && injectiveOn activationOf (activationNames s)
  && forallb (λ i, Z.of_nat i <? 2 ^ 63)%Z (chunkIndexes s)
  && injectiveOn exportOf (exportNames s)
  && forallb (λ a, forallb (λ b, negb (bool_decide (activationOf a = exportOf b))) (exportNames s)) (activationNames s).

Lemma usedNames_spec s m : usedName s m → m ∈ usedNames s.
Proof. intros (n & own & Hw & ->). apply list_elem_of_fmap. exists own. split; [done|]. by eapply objectsOf_wrote. Qed.
Lemma chunkIndexes_spec s m i : chunkAt ns s m i → i ∈ chunkIndexes s.
Proof.
  intros (c & Hw & Hi). apply list_elem_of_fmap. exists c. split; [by rewrite Hi, Nat2Z.id|]. by eapply objectsOf_wrote.
Qed.
Lemma elem_of_prod {A B} (a : A) (b : B) l l' : a ∈ l → b ∈ l' → (a, b) ∈ list_prod l l'.
Proof. rewrite !list_elem_of_In. by apply in_prod. Qed.
Lemma activationNames_spec s m t : usedName s m → t ∈ shards → (m, t) ∈ activationNames s.
Proof. intros. apply elem_of_prod; [by apply usedNames_spec|done]. Qed.
Lemma exportNames_spec s m i t : usedName s m → chunkAt ns s m i → t ∈ shards → (m, i, t) ∈ exportNames s.
Proof. intros. repeat apply elem_of_prod; [by apply usedNames_spec|by eapply chunkIndexes_spec|done]. Qed.

Lemma apart_checked s : apart_check s = true → apart ns shards s.
Proof.
  unfold apart_check. rewrite !andb_true_iff. intros ((((Hz & Ha) & Hi) & He) & Hk). split.
  - intros n n' own own' Hw Hw'. apply (injectiveOn_spec _ _ _ _ Hz); apply list_elem_of_fmap;
      eexists; (split; [done|]); by eapply objectsOf_wrote.
  - intros m m' t t' Hm Hm' Ht Ht' Heq.
    by pose proof (injectiveOn_spec _ _ (m, t) (m', t') Ha (activationNames_spec _ _ _ Hm Ht)
      (activationNames_spec _ _ _ Hm' Ht') Heq) as [= -> ->].
  - intros m i Hc%chunkIndexes_spec. rewrite forallb_Forall, Forall_forall in Hi. specialize (Hi i Hc). lia.
  - intros m m' i i' t t' Hm Hm' Hc Hc' Ht Ht' Heq.
    by pose proof (injectiveOn_spec _ _ (m, i, t) (m', i', t') He (exportNames_spec _ _ _ _ Hm Hc Ht)
      (exportNames_spec _ _ _ _ Hm' Hc' Ht') Heq) as [= -> -> ->].
  - intros m m' i t t' Hm Hm' Hc Ht Ht' Heq. rewrite forallb_Forall, Forall_forall in Hk.
    specialize (Hk _ (activationNames_spec _ _ _ Hm Ht)). rewrite forallb_Forall, Forall_forall in Hk.
    specialize (Hk _ (exportNames_spec _ _ _ _ Hm' Hc Ht')). by rewrite negb_true_iff, bool_decide_eq_false in Hk.
Qed.
End checked.
