(* ===== verification/PublishExample.v ===== *)
(** A run of the publication protocol: a control plane publishes a zone, a planner publishes
    a snapshot that attaches it, and the outbox sends chunk, manifest and snapshot.  The
    theorems of [PublishSafety] apply to it. *)

From S2P Require Import Prelude GoStrings GoCrypto GoJson GoJsonDecode Api ApiMeta RdataTypes ReservedScopes.
From S2P Require Import WireModel Publication Capacity Compile CompileHistory WireDecode ApiStore.
From S2P Require Import ShardState ApiHistory Planner Outbox Publisher CompileSafety PublishInvariant PublishWire.
From S2P Require Import PublishEvents PublishWrites PublishOutbox PublishPlanner PublishPublisher.
From S2P Require Import PublishSafety.

#[local] Existing Instance reference_runtime.
#[local] Existing Instance reference_apimeta.
#[local] Existing Instance reference_validation.
#[local] Existing Instance reference_miekg.

(** * The configuration *)

Definition exampleClock : Z := 1700000000000000000.
Definition exampleShards : list ServingRegion := [{| sr_Region := "east"; sr_Shard := "a" |}].

Definition exampleOptions : ReconcilerOptions := {|
  op_ProjectUID := "p"; op_PlatformNamespace := "dns"; op_Region := "east"; op_Shard := "a";
  op_Identity := "cp"; op_ChunkSize := 100000; op_LeaseDuration := 30000000000;
  op_ServingRegions := []; op_Regions := [] |}.

(** The zone [corp.internal] with one record set, associated with the context [c]. *)
Definition exampleAccepted : Condition := {|
  c_Type := "Accepted"; c_Status := ConditionTrue; c_ObservedGeneration := 1; c_LastTransitionTime := 0;
  c_Reason := []; c_Message := [] |}.
Definition exampleInputs : CompileInput := {|
  in_Zone := Some exampleZone;
  in_Associations := [{| assoc_UID := "as"; assoc_Generation := 1; assoc_DeletionTimestamp := None;
                         assoc_Conditions := [exampleAccepted] |}];
  in_AssociationReferences :=
    {[ "as" := {| ar_Zone := {| or_Name := "corp"; or_UID := "z"; or_Generation := 1 |};
                  ar_Context := {| or_Name := "ctx"; or_UID := "c"; or_Generation := 1 |} |} ]};
  in_RegistrationZoneReferences := ∅; in_Registrations := []; in_Contributions := [];
  in_StaticRecords := [exampleRecordSet "www" RRTypeA [entryA "www"]]; in_Previous := None |}.
Definition examplePass : DNSZone * CompileInput := (pz_Zone exampleZone, exampleInputs).

Definition examplePlanner : PlannerConfig := {|
  cfg_Namespace := "dns"; cfg_Region := "east"; cfg_Shard := "a"; cfg_Identity := "planner";
  cfg_LeaseDuration := 0;
  cfg_NodeBackends := Some [{| be_MemberID := "n"; be_Address := "fd00::10"; be_Port := 5353 |}];
  cfg_ClusterBackends := Some [{| be_MemberID := "n"; be_Address := "fd00::11"; be_Port := 5353 |}];
  cfg_Members := [{| m_MemberID := "n"; m_ReplicaID := "n"; m_Role := "node" |}];
  cfg_MemberPatterns := []; cfg_MaxBindings := 0; cfg_MaxSnapshotBytes := 0 |}.

Definition exampleOutbox (pendingOnly : bool) : Outbox := {|
  ox_Namespace := "dns"; ox_Region := []; ox_Bootstrap := true; ox_PendingOnly := pendingOnly |}.

Definition exampleParticipant (i : nat) : Participant :=
  match i with
  | 0 => Publishing exampleOptions [] [examplePass; examplePass]
  | 1 => Planning examplePlanner 2
  | 2 => Exporting (exampleOutbox true) 2
  | _ => Exporting (exampleOutbox false) 0
  end.

(** The binding of the context to the shard. *)
Definition exampleBinding : DNSResolverBindingSpec * DNSResolverBindingStatus :=
  ({| bs_ProjectUID := "p"; bs_ResolverContextRef := {| ref_Name := "ctx"; ref_UID := "c" |};
      bs_AccessBindingRef := {| ref_Name := "ab"; ref_UID := "ab" |}; bs_Region := "east"; bs_Shard := "a";
      bs_Generation := 1; bs_Revision := 1; bs_NodeAddress := "fd00::1"; bs_RegionalAddress := "fd00::2";
      bs_ZoneRefs := [{| ref_Name := "corp"; ref_UID := "z" |}];
      bs_ZoneApices := {[ "z" := ("corp.internal" : gostring) ]}; bs_Epoch := 1; bs_Sequence := 1;
      bs_Tombstone := false |},
   {| bst_ObservedConfigurationRevision := 0; bst_Phase := []; bst_Conditions := [] |}).
Definition exampleBindings : gmap Name (Object ResolverBinding) :=
  {[ ("dns", "bind") : Name :=
     Build_Object ResolverBinding "b" 1
       {[ regionLabel := SafeToken "east"; shardLabel := SafeToken "a"; referenceProjectLabel := ("p" : gostring) ]}
       1 None exampleBinding ]}.

Definition exampleStart : store :=
  {| st_table := set_table ResolverBinding exampleBindings (λ _, ∅); st_version := 1;
     st_uids := {[ "b" : gostring ]}; st_log := [] |}.

(** * The run *)

Definition exampleRun (i : nat) (s : store) : store := (exec i exampleClock (play (exampleParticipant i)) s).2.
Definition examplePublished : store := exampleRun 0 exampleStart.
Definition examplePlanned : store := exampleRun 1 examplePublished.
Definition exampleEnd : store := exampleRun 2 examplePlanned.

Lemma publish_steps i progs s :
  progs i = play (exampleParticipant i) →
  ∃ progs', rtc (step (others "dns")) (s, progs) (exampleRun i s, progs') ∧ ∀ j, j ≠ i → progs' j = progs j.
Proof.
  intros Hi. unfold exampleRun. rewrite <- Hi. destruct (exec_steps (others "dns") i exampleClock progs s) as (p & ? & _ & ?).
  - by vm_compute.
  - by exists p.
Qed.

Lemma publish_run : ∃ progs1 progs,
  rtc (step (others "dns")) (exampleStart, λ i, play (exampleParticipant i)) (examplePublished, progs1)
  ∧ rtc (step (others "dns")) (examplePublished, progs1) (exampleEnd, progs).
Proof.
  destruct (publish_steps 0 (λ i, play (exampleParticipant i)) exampleStart eq_refl) as (p1 & R1 & O1).
  destruct (publish_steps 1 p1 examplePublished) as (p2 & R2 & O2); [by rewrite O1|].
  destruct (publish_steps 2 p2 examplePlanned) as (p3 & R3 & O3); [by rewrite O2, O1|].
  exists p1, p3. split; [exact R1|]. etrans; [exact R2|]. exact R3.
Qed.

Lemma example_start : start "dns" exampleStart.
Proof.
  assert (∀ (k : Kind) (n : Name) (o : Object k), k ≠ ResolverBinding → st_table exampleStart k !! n ≠ Some o) as Hno.
  { intros k n o Hk. unfold exampleStart. cbn [st_table]. by rewrite set_table_other, lookup_empty. }
  split; [done|intros n o Ho; exfalso; by eapply (Hno _ n o)..|].
  intros n b. unfold exampleStart. cbn [st_table]. rewrite set_table_same. unfold exampleBindings.
  intros [_ <-]%lookup_singleton_Some.
  split_and!; [by vm_compute..| |].
  - constructor; [by vm_compute|constructor].
  - apply map_Forall_singleton. by vm_compute.
Qed.

Lemma example_participants i : participant_ok "dns" exampleShards (exampleParticipant i).
Proof.
  destruct i as [|[|[|i]]]; cbn [exampleParticipant participant_ok]; [| |done..].
  - split; [|by repeat constructor]. split; [done| |done]. intros t Ht. exact Ht.
  - split; [done|left|split_and!; by vm_compute|done|split; by vm_compute|by vm_compute|by vm_compute].
Qed.

(** The event at a place of the history. *)
Definition publishedAt (k : nat) (s : store) : option (gostring * Envelope) :=
  match st_log s !! k with Some (_, Published subject env) => Some (subject, env) | _ => None end.

Lemma publishedAt_split k s subject env :
  publishedAt k s = Some (subject, env) →
  ∃ i, st_log s = take k (st_log s) ++ (i, Published subject env) :: drop (S k) (st_log s).
Proof.
  unfold publishedAt. destruct (st_log s !! k) as [[i ev]|] eqn:Hk; [|done]. destruct ev as [| |]; try done.
  intros [= -> ->]. exists i. symmetry. by apply take_drop_middle.
Qed.

Lemma publishedAt_sent k s subject env : publishedAt k s = Some (subject, env) → sent s env.
Proof.
  intros [i Hl]%publishedAt_split. exists subject, i. rewrite Hl. apply elem_of_app. right. left.
Qed.

(** What the run shows: its names are apart; the last event is the snapshot, and one before
    it a manifest of revision 1 of the zone; the zone has an owner. *)
Definition isSnapshot (e : option (gostring * Envelope)) : bool :=
  match e with
  | Some (subject, env) =>
      bool_decide (subject = "dns.private.serving.east.a") && bool_decide (e_Kind env = KindServingSnapshot)
  | None => false
  end.
Definition isManifest (e : option (gostring * Envelope)) : bool :=
  match e with
  | Some (_, env) =>
      bool_decide (e_Kind env = KindPublicationManifest)
      && match e_Payload env with
         | Encoded j =>
             match dManifest zeroManifest j with
             | Some m => bool_decide (pm_ZoneUID m = "z" ∧ pm_Revision m = 1%Z ∧ pm_Tombstone m = false)
             | None => false
             end
         | NotJson _ => false
         end
  | None => false
  end.
Definition exampleOwner : Name := ("dns", ownershipName "z").
Definition exampleCheck : bool :=
  (age exampleEnd <? 2 ^ 62)%Z && apart_check exampleShards exampleEnd
  && isSnapshot (publishedAt 19 exampleEnd) && isManifest (publishedAt 15 exampleEnd)
  && match st_table examplePublished Ownership !! exampleOwner with Some _ => true | None => false end.

Lemma example_check :
  within "dns" exampleShards exampleEnd
  ∧ isSnapshot (publishedAt 19 exampleEnd) = true ∧ isManifest (publishedAt 15 exampleEnd) = true
  ∧ is_Some (st_table examplePublished Ownership !! exampleOwner).
Proof.
  assert (exampleCheck = true) as Hc by (vm_compute; reflexivity).
  unfold exampleCheck in Hc. apply andb_prop in Hc as [Hc Ho]. apply andb_prop in Hc as [Hc Hm].
  apply andb_prop in Hc as [Hc Hs]. apply andb_prop in Hc as [Hage Hapart].
  split; [exact (conj (proj1 (Z.ltb_lt _ _) Hage) (apart_checked "dns" exampleShards exampleEnd Hapart))|].
  split; [exact Hs|]. split; [exact Hm|].
  destruct (st_table examplePublished Ownership !! exampleOwner) as [own|]; [by exists own|discriminate Ho].
Qed.

Lemma example_inv : inv "dns" exampleShards exampleEnd.
Proof.
  destruct publish_run as (p1 & p & R1 & R2).
  exact (run_inv "dns" exampleShards exampleParticipant exampleStart exampleEnd p example_start example_participants
           (transitivity R1 R2) (proj1 example_check)).
Qed.

(** * The theorems at the run *)

Lemma example_snapshot : ∃ env,
  publishedAt 19 exampleEnd = Some ("dns.private.serving.east.a" : gostring, env) ∧ e_Kind env = KindServingSnapshot.
Proof.
  destruct example_check as (_ & Hs & _). destruct (publishedAt 19 exampleEnd) as [[subject env]|]; [|discriminate Hs].
  unfold isSnapshot in Hs. rewrite andb_true_iff, !bool_decide_eq_true in Hs. destruct Hs as [-> Hk]. exists env.
  split; [reflexivity|exact Hk].
Qed.

Lemma example_manifest : ∃ subject env m,
  publishedAt 15 exampleEnd = Some (subject, env) ∧ manifestEvent env m
  ∧ pm_ZoneUID m = "z" ∧ pm_Revision m = 1%Z ∧ pm_Tombstone m = false.
Proof.
  destruct example_check as (_ & _ & Hm & _).
  destruct (publishedAt 15 exampleEnd) as [[subject env]|] eqn:Hat; [|discriminate Hm].
  unfold isManifest in Hm. apply andb_true_iff in Hm as [Hk%bool_decide_eq_true Hm]. exists subject, env.
  destruct (publishedAt_split _ _ _ _ Hat) as [i Hl].
  destruct (i_gate _ _ _ example_inv _ _ _ _ _ Hl) as (_ & _ & [(x & [Hk' _] & _)|[(m & Hev & _)|(c & [Hk' _] & _)]]);
    [rewrite Hk in Hk'; discriminate Hk'| |rewrite Hk in Hk'; discriminate Hk'].
  pose proof Hev as (_ & Hp & Hd & _). rewrite Hp, Hd in Hm. apply bool_decide_eq_true in Hm as (Hz & Hr & Ht).
  exists m. split_and!; [reflexivity|exact Hev|exact Hz|exact Hr|exact Ht].
Qed.

Lemma stream_ordered_witness : ∃ env,
  publishedAt 19 exampleEnd = Some ("dns.private.serving.east.a" : gostring, env) ∧ e_Kind env = KindServingSnapshot
  ∧ gate "dns" (take 19 (st_log exampleEnd)) "dns.private.serving.east.a" env.
Proof.
  destruct example_snapshot as (env & Hat & Hk). destruct (publishedAt_split _ _ _ _ Hat) as [i Hl].
  destruct publish_run as (p1 & p & R1 & R2). exists env. split; [exact Hat|]. split; [exact Hk|].
  exact (stream_ordered "dns" exampleShards exampleParticipant _ _ _ example_start example_participants
           (transitivity R1 R2) (proj1 example_check) _ _ _ _ _ Hl).
Defined.

Lemma one_content_witness : ∃ m, pm_ZoneUID m = "z" ∧ pm_Revision m = 1%Z ∧
  ∀ env' m', sent exampleEnd env' → manifestEvent env' m' → pm_ZoneUID m' = "z" → pm_Revision m' = 1%Z →
  sameContent m' m.
Proof.
  destruct example_manifest as (subject & env & m & Hat & Hm & Hz & Hr & Ht).
  destruct publish_run as (p1 & p & R1 & R2). exists m. split; [exact Hz|]. split; [exact Hr|].
  intros env' m' Hsent Hm' Hz' Hr'.
  destruct (one_content "dns" exampleShards exampleParticipant _ _ _ example_start example_participants
    (transitivity R1 R2) (proj1 example_check) env' env Hsent (publishedAt_sent _ _ _ _ Hat)) as (_ & Hman & _).
  apply Hman; [done..|by rewrite Hz|by rewrite Hr].
Defined.

Lemma commits_forward_witness : ∃ own own',
  st_table examplePublished Ownership !! exampleOwner = Some own
  ∧ st_table exampleEnd Ownership !! exampleOwner = Some own' ∧ own_le own own'.
Proof.
  destruct publish_run as (p1 & p & R1 & R2).
  destruct (commits_forward "dns" exampleShards exampleParticipant _ _ _ _ _ example_start example_participants
    R1 R2 (proj1 example_check)) as [_ Hown].
  destruct example_check as (_ & _ & _ & [own Ho]).
  destruct (Hown exampleOwner own eq_refl Ho) as (own' & Ho' & Hle). exists own, own'.
  split; [exact Ho|]. split; [exact Ho'|exact Hle].
Defined.
