(* ===== verification/AgentState.v ===== *)
(** What a serving replica keeps: [serving/state.go], [publication_state.go],
    [publication_hash.go], [zone.go] and the parts of [serving/agent.go] and
    [serving/continuity.go] that only read it.

    The checkpoint is what survives a restart.  It is modelled as the value the file holds:
    the streaming encoder and decoder of the file are not modelled.  A [time.Time] is its
    instant. *)

From S2P Require Import Prelude GoStrings GoCrypto GoJson GoJsonDecode WireModel WireDecode.
From S2P Require Import Publication ServingFences.
From coqutil Require Import Datatypes.RecordSettersUsingExistingGetters.

(** * Acknowledgements on the wire ([model.MemberAck]) *)

Definition AckAccepted : gostring := "Accepted".
Definition AckApplied : gostring := "Applied".
Definition AckVerified : gostring := "Verified".
Definition AckExpired : gostring := "Expired".
Definition AckRejected : gostring := "Rejected".

Record MemberAck := {
  ma_MemberID : gostring;
  ma_ReplicaID : gostring;
  ma_ResourceUID : gostring;
  ma_Kind : gostring;
  ma_Epoch : Z;
  ma_Revision : Z;
  ma_Phase : gostring;
  ma_ObservedAt : Z;
  ma_ValidUntil : Z;
  ma_Error : gostring;
}.
Definition zeroAck : MemberAck := {|
  ma_MemberID := []; ma_ReplicaID := []; ma_ResourceUID := []; ma_Kind := []; ma_Epoch := 0;
  ma_Revision := 0; ma_Phase := []; ma_ObservedAt := zeroTime; ma_ValidUntil := zeroTime;
  ma_Error := [] |}.
Definition dAck : decoder MemberAck := struct_decoder (λ old fs,
  memberID ← field dString "memberID" (ma_MemberID old) fs;
  replicaID ← field dString "replicaID" (ma_ReplicaID old) fs;
  resourceUID ← field dString "resourceUID" (ma_ResourceUID old) fs;
  kind ← field dString "kind" (ma_Kind old) fs;
  epoch ← field dUint64 "epoch" (ma_Epoch old) fs;
  revision ← field dUint64 "revision" (ma_Revision old) fs;
  phase ← field dString "phase" (ma_Phase old) fs;
  observedAt ← field dTime "observedAt" (ma_ObservedAt old) fs;
  validUntil ← field dTime "validUntil" (ma_ValidUntil old) fs;
  error ← field dString "error" (ma_Error old) fs;
  Some {| ma_MemberID := memberID; ma_ReplicaID := replicaID; ma_ResourceUID := resourceUID;
          ma_Kind := kind; ma_Epoch := epoch; ma_Revision := revision; ma_Phase := phase;
          ma_ObservedAt := observedAt; ma_ValidUntil := validUntil; ma_Error := error |}).
(** [omitempty] keeps a [time.Time]: it is a struct. *)
Definition MemberAck_json (a : MemberAck) : json :=
  JObj (("memberID", JStr (ma_MemberID a))
        :: omitempty (bool_decide (ma_ReplicaID a = [])) "replicaID" (JStr (ma_ReplicaID a))
        ++ [("resourceUID", JStr (ma_ResourceUID a)); ("kind", JStr (ma_Kind a));
            ("epoch", JNum (ma_Epoch a)); ("revision", JNum (ma_Revision a));
            ("phase", JStr (ma_Phase a)); ("observedAt", JTime (ma_ObservedAt a));
            ("validUntil", JTime (ma_ValidUntil a))]
        ++ omitempty (bool_decide (ma_Error a = [])) "error" (JStr (ma_Error a))).
Definition MemberAck_marshal (a : MemberAck) : option json :=
  if marshalable (ma_ObservedAt a) && marshalable (ma_ValidUntil a)
  then Some (MemberAck_json a) else None.

(** * Data *)

Record fence := { f_Epoch : Z; f_Revision : Z }.
Definition noFence : fence := {| f_Epoch := 0; f_Revision := 0 |}.
#[global] Instance fence_eq_dec : EqDecision fence.
Proof. solve_decision. Defined.

Record publicationState := {
  p_Fence : fence;
  p_Manifest : PublicationManifest;
  p_Plan : PublicationPlan;
  p_LocalRevision : Z;
  p_EffectiveHash : gostring;
  p_Verified : bool;
  p_WithdrawnAt : Z;
  p_Retired : bool;
}.
Definition zeroPublication : publicationState := {|
  p_Fence := noFence; p_Manifest := zeroManifest; p_Plan := zeroPlan; p_LocalRevision := 0;
  p_EffectiveHash := []; p_Verified := false; p_WithdrawnAt := zeroTime; p_Retired := false |}.
Record replicaAck := {
  ra_Rejected : bool;
  ra_ObservedAt : Z;
  ra_Fence : fence;
  ra_ValidUntil : Z;
}.
Definition noAck : replicaAck :=
  {| ra_Rejected := false; ra_ObservedAt := zeroTime; ra_Fence := noFence; ra_ValidUntil := zeroTime |}.

(** Files by path. *)
Abbreviation Files := (gmap gostring gostring).
Abbreviation publications := (gmap gostring publicationState).
Abbreviation stagedChunks := (gmap gostring (gmap gostring PublicationChunk)).

Record activeConfiguration := {
  av_Snapshot : ServingSnapshot;
  av_Publications : publications;
  av_Files : Files;
  av_NodeAuthoritative : bool;
}.

Record checkpoint := {
  ck_Active : option activeConfiguration;
  ck_Withdrawing : option activeConfiguration;
  ck_FormatVersion : Z;
  ck_ServingFence : fence;
  ck_Snapshot : option ServingSnapshot;
  ck_Publications : publications;
  ck_Chunks : stagedChunks;
  ck_Acks : gmap gostring (gmap gostring replicaAck);
  ck_BindingFences : fences;
  ck_ContributionFences : contributionFences;
  ck_RenderedHash : gostring;
  ck_UpdatedAt : Z;
}.
Definition checkpointFormatVersion : Z := 7.
Definition newCheckpoint : checkpoint := {|
  ck_Active := None; ck_Withdrawing := None; ck_FormatVersion := checkpointFormatVersion;
  ck_ServingFence := noFence; ck_Snapshot := None; ck_Publications := ∅; ck_Chunks := ∅;
  ck_Acks := ∅; ck_BindingFences := ∅; ck_ContributionFences := ∅; ck_RenderedHash := [];
  ck_UpdatedAt := zeroTime |}.

(** * Configuration *)

Inductive Mode := ModeResolver | ModeCombined.
#[global] Instance Mode_eq_dec : EqDecision Mode.
Proof. solve_decision. Defined.

Inductive RenderRole := RenderNode | RenderCluster | RenderBoth | RenderRegionalCoreDNS | RenderRegionalDNSDist.
#[global] Instance RenderRole_eq_dec : EqDecision RenderRole.
Proof. solve_decision. Defined.

Record DNSDistRenderConfig := {
  dd_Path : gostring;
  dd_ListenAddress : gostring;
  dd_ListenerCount : Z;
  dd_ACLs : slice gostring;
  dd_PoolName : gostring;
  dd_Backends : list Backend;
  dd_IdentityKeyFile : gostring;
  dd_BackendTransport : gostring;
  dd_MetricsAddress : gostring;
  dd_MetricsACLs : list gostring;
}.
Record CoreDNSRenderConfig := {
  cd_Path : gostring;
  cd_ListenAddress : gostring;
  cd_Port : Z;
  cd_ProxyPeers : slice gostring;
  cd_IdentityKeyFile : gostring;
  cd_UDPReadBufferBytes : Z;
  cd_PublicUpstreams : list gostring;
}.

(** [RenderConfig].  The role is the one the code falls back to when it is empty.  A Go map
    of booleans that is only asked for true entries is the set of those. *)
Record RenderConfig := {
  rc_ReadyZoneMembers : gmap gostring (gmap gostring (gset gostring));
  rc_ReadyMembers : gmap gostring (gset gostring);
  rc_Role : RenderRole;
  rc_NodeDNSDist : DNSDistRenderConfig;
  rc_ClusterDNSDist : DNSDistRenderConfig;
  rc_NodeCoreDNS : CoreDNSRenderConfig;
  rc_ClusterCoreDNS : CoreDNSRenderConfig;
  rc_NodeAuthoritative : bool;
}.

(** One command of a transaction, run only when one of the files it names changed. *)
Record Command := {
  cmd_Path : gostring;
  cmd_Args : list gostring;
  cmd_WhenChanged : list gostring;
}.
Record TransactionConfig := {
  tc_StageDir : gostring;
  tc_CommandStageDir : gostring;
  tc_Validate : list Command;
  tc_Reload : list Command;
  tc_FailClosed : list Command;
}.

(** [Config] and the dependencies that may be left out.  [LocalServing], the probe of the
    member's own daemons, only delays a verification. *)
Record Config := {
  cfg_Region : gostring;
  cfg_Shard : gostring;
  cfg_MemberID : gostring;
  cfg_ReplicaID : gostring;
  cfg_StateDir : gostring;
  cfg_Mode : Mode;
  cfg_NodeAuthoritative : bool;
  cfg_Render : RenderConfig;
  cfg_Transaction : TransactionConfig;
  cfg_AckInterval : Z;
  cfg_AckLease : Z;
  cfg_MaxBindings : Z;
  cfg_Verifier : bool;
  cfg_PublicationVerifier : bool;
  cfg_AckPublisher : bool;
}.

(** * Comparison by encoding ([equalJSON]) *)

(** [json.Marshal] writes the keys of a map in order. *)
Definition JMap {A} (f : A → json) (m : gmap gostring A) : json :=
  JObj (omap (λ k, (λ a, (k, f a)) <$> m !! k) (sortStrings (map_to_list m).*1)).

Definition equalJSON (a b : option json) : bool :=
  match a, b with Some a, Some b => bool_decide (encode a = encode b) | _, _ => false end.

Definition PublicationManifest_marshal (m : PublicationManifest) : option json :=
  if marshalable (pm_GeneratedAt m) then Some (PublicationManifest_json m) else None.
Definition fence_json (f : fence) : json :=
  JObj [("epoch", JNum (f_Epoch f)); ("revision", JNum (f_Revision f))].
Definition bindingFence_json (f : bindingFence) : json :=
  JObj [("identity", JStr (bf_Identity f));
        ("configurationGeneration", JNum (bf_ConfigurationGeneration f));
        ("configurationRevision", JNum (bf_ConfigurationRevision f));
        ("version", AccessVersion_json (bf_Version f)); ("tombstone", JBool (bf_Tombstone f))].
Definition publicationState_json (p : publicationState) : json :=
  JObj ([("fence", fence_json (p_Fence p)); ("manifest", PublicationManifest_json (p_Manifest p));
         ("plan", PublicationPlan_json (p_Plan p))]
        ++ omitempty (p_LocalRevision p =? 0)%Z "localRevision" (JNum (p_LocalRevision p))
        ++ omitempty (bool_decide (p_EffectiveHash p = [])) "effectiveHash" (JStr (p_EffectiveHash p))
        ++ [("verified", JBool (p_Verified p))]
        ++ omitempty (IsZero (p_WithdrawnAt p)) "withdrawnAt" (JTime (p_WithdrawnAt p))
        ++ omitempty (negb (p_Retired p)) "retired" (JBool true)).
Definition publicationTimes (p : publicationState) : bool :=
  marshalable (pm_GeneratedAt (p_Manifest p)) && (IsZero (p_WithdrawnAt p) || marshalable (p_WithdrawnAt p)).
Definition activeConfiguration_json (a : activeConfiguration) : json :=
  JObj ([("snapshot", ServingSnapshot_json (av_Snapshot a));
         ("publications", JMap publicationState_json (av_Publications a));
         ("files", JMap JBytes (av_Files a))]
        ++ omitempty (negb (av_NodeAuthoritative a)) "nodeAuthoritative" (JBool true)).
Definition activeConfiguration_marshal (a : activeConfiguration) : option json :=
  if marshalable (s_GeneratedAt (av_Snapshot a))
     && forallb (λ kv, publicationTimes kv.2) (map_to_list (av_Publications a))
  then Some (activeConfiguration_json a) else None.

(** * Hashes *)

Definition nul : gostring := ["000"%char].

Section hashes.
Context `{GoRuntime}.

Definition effectivePlanHash (plan : PublicationPlan) : gostring :=
  let values := pl_RRSets plan ≫= λ rr,
    (λ r, AbsoluteName (rr_Name rr) ++ nul ++ ToUpper (rr_Type rr) ++ nul ++ rec_Content r)
      <$> filter (λ r, rec_Eligible r = true) (rr_Records rr) in
  Hash (Join (sortStrings values) [newline]).

(** [hashFiles]. *)
Definition hashFiles (files : Files) : gostring :=
  Hash (sortStrings (map_to_list files).*1 ≫= λ k, k ++ nul ++ default [] (files !! k)).

Definition publicationIdentity (p : publicationState) : gostring :=
  FormatUint (f_Epoch (p_Fence p)) ++ "/" ++ FormatUint (f_Revision (p_Fence p)) ++ "/"
    ++ FormatUint (p_LocalRevision p) ++ "/" ++ Hash (encode (PublicationPlan_json (p_Plan p))).

Definition publicationFingerprint (p : publicationState) : gostring :=
  Hash (FormatUint (f_Epoch (p_Fence p)) ++ "/" ++ FormatUint (f_Revision (p_Fence p)) ++ "/"
    ++ FormatUint (p_LocalRevision p) ++ "/" ++ Hash (encode (PublicationPlan_json (p_Plan p))) ++ "/"
    ++ effectivePlanHash (p_Plan p)).
(** The first four bytes of the fingerprint; 0 is no serial. *)
Definition hexDigits (s : gostring) : Z :=
  fold_left (λ n c, n * 16 + default 0 (hexValue c))%Z s 0%Z.
Definition publicationSerial (p : publicationState) : Z :=
  let serial := hexDigits (take 8 (publicationFingerprint p)) in
  if (serial =? 0)%Z then 1 else serial.
Definition publicationMailbox (p : publicationState) : gostring :=
  let hash := publicationFingerprint p in
  take 32 hash ++ "." ++ drop 32 hash ++ ".publication.internal.".
End hashes.

(** * Loading and pruning *)

Inductive CheckpointError :=
| CFormat
| CBindingIncomplete (uid : gostring)
| CBindingMismatch (uid : gostring)
| CContribution (uid : gostring)
| CSnapshot (e : WireError)
| CPublication (uid : gostring) (e : WireError).

Section checkpoint.
Context `{GoRuntime} `{MiekgDNS}.

(** [pruneSupersededChunks]: one chunk speaks for all of its manifest. *)
Definition superseded (pubs : publications) (c : PublicationChunk) : bool :=
  let applied := p_Fence (default zeroPublication (pubs !! pc_ZoneUID c)) in
  (0 <? f_Revision applied)%Z
  && (Compare (pc_WriterEpoch c) (pc_Revision c) (f_Epoch applied) (f_Revision applied) <? 0)%Z.
Definition keepChunks (pubs : publications) (chunks : gmap gostring PublicationChunk) : bool :=
  match map_range chunks with
  | [] => false
  | (_, c) :: _ => negb (superseded pubs c)
  end.
Definition pruneSupersededChunks (c : checkpoint) : checkpoint :=
  c <| ck_Chunks := filter (λ kv, keepChunks (ck_Publications c) kv.2 = true) (ck_Chunks c) |>.

Definition incompleteFence (uid : gostring) (f : bindingFence) : bool :=
  bool_decide (uid = []) || bool_decide (bf_Identity f = []) || (bf_ConfigurationGeneration f =? 0)%Z
  || (bf_ConfigurationRevision f =? 0)%Z || (v_Epoch (bf_Version f) =? 0)%Z
  || (v_Sequence (bf_Version f) =? 0)%Z.
Definition checkBinding (fs : fences) (b : Binding) : result CheckpointError unit :=
  match fs !! b_BindingUID b with
  | Some f => refuse (negb (equalJSON (Some (bindingFence_json f)) (Some (bindingFence_json (bindingFenceFor b)))))
                (CBindingMismatch (b_BindingUID b))
  | None => Err (CBindingMismatch (b_BindingUID b))
  end.
Definition checkContribution (kv : gostring * contributionFence) : result CheckpointError unit :=
  refuse (bool_decide (kv.1 = []) || (cf_Generation kv.2 =? 0)%Z || (cf_Sequence kv.2 =? 0)%Z)
    (CContribution kv.1).
Definition checkPublication (kv : gostring * publicationState) : result CheckpointError unit :=
  if pm_Tombstone (p_Manifest kv.2) then Ok tt
  else match PublicationPlan_Validate (p_Plan kv.2) with Ok _ => Ok tt | Err e => Err (CPublication kv.1 e) end.

(** [stateStore.Load], from the checkpoint the file holds; [None] when there is no file. *)
Definition Load (file : option checkpoint) : result CheckpointError checkpoint :=
  match file with
  | None => Ok newCheckpoint
  | Some c =>
      _ ← refuse (negb (ck_FormatVersion c =? checkpointFormatVersion)%Z) CFormat;
      _ ← result_iter (λ kv, refuse (incompleteFence kv.1 kv.2) (CBindingIncomplete kv.1))
            (map_range (ck_BindingFences c));
      _ ← match ck_Snapshot c with
          | Some s => result_iter (checkBinding (ck_BindingFences c)) (elems (s_Bindings s))
          | None => Ok tt
          end;
      let c := pruneSupersededChunks c in
      _ ← result_iter checkContribution (map_range (ck_ContributionFences c));
      _ ← match ck_Snapshot c with
          | Some s => match ServingSnapshot_Validate s with Ok _ => Ok tt | Err e => Err (CSnapshot e) end
          | None => Ok tt
          end;
      _ ← result_iter checkPublication (map_range (ck_Publications c));
      Ok c
  end.
End checkpoint.

(** * What the state says *)

Record PublicationView := {
  pv_View : gostring;
  pv_DestinationAddress : gostring;
  pv_DestinationPort : Z;
  pv_Serial : Z;
  pv_FingerprintMailbox : gostring;
}.

Definition set_Zones (zs : slice ZoneAttachment) (b : Binding) : Binding := b <| b_Zones := zs |>.
Definition set_Bindings (bs : slice Binding) (s : ServingSnapshot) : ServingSnapshot :=
  s <| s_Bindings := bs |>.

(** The publication is at or above what the attachment requires. *)
Definition meets (f : fence) (z : ZoneAttachment) : bool :=
  (0 <=? Compare (f_Epoch f) (f_Revision f) (za_RequiredPublicationEpoch z)
           (za_RequiredPublicationRevision z))%Z.

Section reading.
Context `{GoRuntime} (cfg : Config).

(** [publicationViewsAt], [publicationViews]. *)
Definition publicationViews (c : checkpoint) (p : publicationState) : list PublicationView :=
  match ck_Snapshot c with
  | None => []
  | Some s =>
      filter (λ b, b_Tombstone b = false ∧ b_ConfigurationPending b = false) (elems (s_Bindings s)) ≫= λ b,
        (λ _, {| pv_View := ViewName b;
                 pv_DestinationAddress := if cfg_NodeAuthoritative cfg then b_ConsumerAddress b
                                          else b_ClusterAddress b;
                 pv_DestinationPort := b_Port b; pv_Serial := publicationSerial p;
                 pv_FingerprintMailbox := publicationMailbox p |})
          <$> filter (λ z, za_Pending z = false ∧ za_ZoneUID z = pl_ZoneUID (p_Plan p) ∧ meets (p_Fence p) z = true)
                (elems (b_Zones b))
  end.

(** A zone whose publication this member has verified, as new as required. *)
Definition zoneReady (c : checkpoint) (z : ZoneAttachment) : bool :=
  match ck_Publications c !! za_ZoneUID z with
  | Some p => negb (za_Pending z) && p_Verified p && negb (pm_Tombstone (p_Manifest p)) && meets (p_Fence p) z
  | None => false
  end.

(** A member that has acknowledged the zone as required. *)
Definition memberKeyOf (m : Member) : gostring := m_MemberID m ++ "/" ++ m_ReplicaID m.
Definition zoneProved (c : checkpoint) (m : Member) (z : ZoneAttachment) : bool :=
  let proof := default noAck (default ∅ (ck_Acks c !! za_ZoneUID z) !! memberKeyOf m) in
  negb (ra_Rejected proof) && negb (IsZero (ra_ObservedAt proof)) && meets (ra_Fence proof) z.

(** [eligibleRegionalMembers] and [publicationsReady].  In combined mode the second decides
    the first by this member's publications alone. *)
Definition eligibleRegionalMembers (c : checkpoint) (b : Binding) : gset gostring :=
  match ck_Snapshot c with
  | None => ∅
  | Some s =>
      if b_ConfigurationPending b then ∅
      else
        match cfg_Mode cfg with
        | ModeCombined => if forallb (zoneReady c) (elems (b_Zones b)) then {[ cfg_MemberID cfg ]} else ∅
        | ModeResolver =>
            list_to_set (m_MemberID <$>
              filter (λ m, (m_Role m = "regional" ∨ m_Role m = "cluster")
                           ∧ forallb (λ z, zoneReady c z && zoneProved c m z) (elems (b_Zones b)) = true)
                (elems (s_Members s)))
        end
  end.

(** [readyZones]: [nil] when there is none. *)
Definition readyZones (c : checkpoint) (b : Binding) : slice ZoneAttachment :=
  match filter (λ zone, eligibleRegionalMembers c (set_Zones (Some [zone]) b) ≠ ∅) (elems (b_Zones b)) with
  | [] => None
  | ready => Some ready
  end.

(** [probeIdentity]: encoding a binding cannot fail. *)
Definition probeIdentity (c : checkpoint) (b : Binding) : gostring :=
  let members : gmap gostring (gset gostring) :=
    list_to_map (rev ((λ zone, (za_ZoneUID zone, eligibleRegionalMembers c (set_Zones (Some [zone]) b)))
                        <$> elems (b_Zones b))) in
  Hash (encode (JObj [("Binding", Binding_json b);
                      ("Members", JMap (λ ms : gset gostring, JMap (λ _ : unit, JBool true) (gset_to_gmap tt ms))
                                    members)])).

(** ** What an approved configuration may keep serving ([canRetainActive]) *)

Definition bindingsByUID (s : ServingSnapshot) : gmap gostring Binding :=
  foldl (λ m b, <[b_BindingUID b := b]> m) ∅ (elems (s_Bindings s)).
Definition zoneKept (candidate : Binding) (zone : ZoneAttachment) : bool :=
  za_Pending zone
  || existsb (λ attached, bool_decide (za_ZoneUID attached = za_ZoneUID zone)
                          && bool_decide (za_Apex attached = za_Apex zone) && negb (za_Pending attached))
       (elems (b_Zones candidate)).
Definition bindingKept (next : gmap gostring Binding) (b : Binding) : bool :=
  b_Tombstone b || b_ConfigurationPending b
  || match next !! b_BindingUID b with
     | Some candidate =>
         negb (b_Tombstone candidate) && negb (b_ConfigurationPending candidate)
         && bool_decide (bindingIdentity b = bindingIdentity candidate)
         && bool_decide (b_Version b = b_Version candidate)
         && forallb (zoneKept candidate) (elems (b_Zones b))
     | None => false
     end.

(** The eligible records of a plan, by name, type and content. *)
Definition eligibleRecords (plan : PublicationPlan) : list gostring :=
  pl_RRSets plan ≫= λ rr,
    (λ r, rr_Name rr ++ nul ++ rr_Type rr ++ nul ++ rec_Content r)
      <$> filter (λ r, rec_Eligible r = true) (rr_Records rr).
Definition publicationKept (next : publications) (kv : gostring * publicationState) : bool :=
  pm_Tombstone (p_Manifest kv.2)
  || match next !! kv.1 with
     | Some candidate =>
         negb (pm_Tombstone (p_Manifest candidate))
         && bool_decide (pl_Apex (p_Plan candidate) = pl_Apex (p_Plan kv.2))
         && forallb (λ r, bool_decide (r ∈ eligibleRecords (p_Plan candidate))) (eligibleRecords (p_Plan kv.2))
     | None => false
     end.

Definition canRetainActive (c : checkpoint) : bool :=
  match ck_Active c, ck_Snapshot c with
  | Some old, Some s =>
      Bool.eqb (av_NodeAuthoritative old) (cfg_NodeAuthoritative cfg)
      && forallb (bindingKept (bindingsByUID s)) (elems (s_Bindings (av_Snapshot old)))
      && forallb (publicationKept (ck_Publications c)) (map_to_list (av_Publications old))
  | _, _ => false
  end.
End reading.
