(* ===== verification/AgentHost.v ===== *)
(** The machine a serving replica runs on: its clock, the checkpoint and the installed
    files, the activation marker and its lock, the commands that reload or stop the DNS
    daemons, the probes and the broker.

    An operation of the agent is a function of the state of the process and of the machine.
    Every call to the outside is an event.  Whether it fails and what it answers is a
    function of the events up to and including it, so any machine that can be observed one
    call at a time is covered.  What a call writes is part of the state. *)

From S2P Require Import Prelude GoStrings GoCrypto GoJson GoJsonDecode WireModel WireDecode.
From S2P Require Import Publication ServingFences AgentState.
From coqutil Require Import Datatypes.RecordSettersUsingExistingGetters.

(** * Errors *)

(** What is wrong with a bootstrap listing. *)
Inductive BootstrapError :=
| BForeign
| BChunkIdentity
| BManifestIdentity
| BServingIdentity
| BKind
| BNoServing
| BConflict
| BNoPublication (zone : gostring)
| BNoSnapshot
| BConfiguration.

Inductive AgentError :=
| EWire (e : WireError)
| EFence (e : FenceError)
| ECheckpoint (e : CheckpointError)
| EDecode
| ETarget
| EKind
| EBindings
| ESnapshotIdentity
| ESnapshotConflict
| EManifestIdentity
| EManifestConflict
| EManifestBase
| EPlanIdentity
| EChunkEnvelope
| EChunkConflict
| EAckIdentity
| EAckLease
| EAckPhase
| ENotInstalled
| EApplied (uid : gostring)
| ERender
| EBootstrap (e : BootstrapError)
| EWaiting
| ENoConfiguration
| ERestoredExpired
| EFormat
| EStage
| EPath (path : gostring)
| ECancelled
| EHost
| EPreserved (e : AgentError)
| EUncertain (e : AgentError)
| EJoin (e e' : AgentError).

(** [errors.As] for the two kinds of transaction errors. *)
Fixpoint asPreserved (e : AgentError) : bool :=
  match e with
  | EPreserved _ => true
  | EUncertain e => asPreserved e
  | EJoin e e' => asPreserved e || asPreserved e'
  | _ => false
  end.
Fixpoint asUncertain (e : AgentError) : bool :=
  match e with
  | EUncertain _ => true
  | EPreserved e => asUncertain e
  | EJoin e e' => asUncertain e || asUncertain e'
  | _ => false
  end.

(** [errors.Join] of two. *)
Definition joinErr (a b : option AgentError) : option AgentError :=
  match a, b with
  | Some e, Some e' => Some (EJoin e e')
  | Some e, None | None, Some e => Some e
  | None, None => None
  end.

(** * Calls *)

Inductive Phase := activationInstalling | activationVerifying | activationGating.
#[global] Instance Phase_eq_dec : EqDecision Phase.
Proof. solve_decision. Defined.
Record activationState := { ast_Phase : Phase; ast_Since : Z }.

(** Which list of the transaction a command is of. *)
Inductive Purpose := Validating | Reloading | Stopping.

Inductive event :=
| EvNow
| EvContext
| EvMkdir (dir : gostring)
| EvMkdirTemp (dir : gostring)
| EvRead (path : gostring)
| EvWrite (path content : gostring)
| EvRename (from to : gostring)
| EvRemove (path : gostring)
| EvRemoveAll (dir : gostring)
| EvSync (dir : gostring)
| EvWriteCheckpoint (c : checkpoint)
| EvRenameCheckpoint (c : checkpoint)
| EvSyncCheckpoint
| EvLock (exclusive : bool)
| EvUnlock
| EvWriteMarker (s : activationState)
| EvRenameMarker (s : activationState)
| EvRemoveMarker
| EvSyncMarker
| EvRun (p : Purpose) (c : Command)
| EvVerifyPublication (plan : PublicationPlan) (views : list PublicationView)
| EvProbe (bindings : list Binding)
| EvPublish (subject : gostring) (env : Envelope)
| EvDaemons
| EvList (prefix : gostring).

(** The answers of the probes are the results in the order they came, before the
    deadline. *)
Record Host := {
  h_now : list event → Z;
  (** [ctx.Err() != nil] *)
  h_done : list event → bool;
  h_fail : list event → bool;
  (** what [os.MkdirTemp] adds to the name *)
  h_stage : list event → gostring;
  (** what a failed write leaves in the file, if it was opened *)
  h_left : list event → option gostring;
  (** the files a failed [os.RemoveAll] leaves *)
  h_kept : list event → gostring → bool;
  h_probe : list event → list (gostring * bool);
  h_list : list event → list Envelope;
}.

(** * State *)

Record servingAckState := {
  sa_phase : gostring;
  sa_at : Z;
  sa_fence : fence;
  sa_configurationRevision : Z;
  sa_accessVersion : AccessVersion;
}.

(** [installedPublication]. *)
Record installedPublication := {
  ip_Identity : gostring;
  ip_EffectiveHash : gostring;
  ip_Views : list PublicationView;
}.

Record Agent := {
  a_state : checkpoint;
  a_needsActivation : bool;
  a_lastServingAck : gmap gostring servingAckState;
  a_lastPublicationAck : gmap gostring Z;
  a_installedPublications : gmap gostring installedPublication;
  a_verifiedPaths : gmap gostring gostring;
  a_verifiedRestarts : Z;
  a_restoredAt : Z;
  a_bootstrapComplete : bool;
  a_bootstrapInProgress : bool;
  a_checkpointWithdrawn : bool;
  (** The activation lock the transaction holds, exclusive or shared, and its restarts. *)
  a_lock : option bool;
  a_restarts : Z;
}.

(** What outlives the process: the files outside the state directory, and in it the
    checkpoint and the marker [activation.pending]. *)
Record Machine := {
  mc_files : Files;
  mc_checkpoint : option checkpoint;
  mc_marker : option activationState;
}.

Record World := { w_agent : Agent; w_machine : Machine; w_trace : list event }.

Definition M (A : Type) : Type := World → A * World.
#[global] Instance M_ret : MRet M := λ A a w, (a, w).
#[global] Instance M_bind : MBind M := λ A B f m w, let '(a, w') := m w in f a w'.

(** [if err := m; err != nil { return err }]. *)
Definition orReturn (m : M (option AgentError)) (k : M (option AgentError)) : M (option AgentError) :=
  err ← m;
  match err with Some e => mret (Some e) | None => k end.
Notation "'check' m ; k" := (orReturn m k)
  (at level 20, m at level 100, k at level 200, right associativity, format "'check'  m ;  '/' k") : go_scope.

Definition fail (e : AgentError) : M (option AgentError) := mret (Some e).
Definition ok : M (option AgentError) := mret None.

(** [for _, x := range l] with a body that may return an error. *)
Fixpoint each {A} (f : A → M (option AgentError)) (l : list A) : M (option AgentError) :=
  match l with
  | [] => ok
  | x :: l' => check f x; each f l'
  end.

Definition gets {A} (f : Agent → A) : M A := λ w, (f (w_agent w), w).
Definition modify (f : Agent → Agent) : M unit := λ w, (tt, w <| w_agent ::= f |>).
Definition state : M checkpoint := gets a_state.
Definition modifyState (f : checkpoint → checkpoint) : M unit := modify (λ a, a <| a_state ::= f |>).
Definition machine : M Machine := λ w, (w_machine w, w).
Definition modifyMachine (f : Machine → Machine) : M unit := λ w, (tt, w <| w_machine ::= f |>).

(** A call to the outside, and one that only succeeds or fails. *)
Definition ask {A} (ev : event) (answer : list event → A) : M A := λ w,
  let tr := w_trace w ++ [ev] in (answer tr, w <| w_trace := tr |>).

(** What the last call left, which is not a call. *)
Definition aftermath {A} (f : list event → A) : M A := λ w, (f (w_trace w), w).

Section calls.
Context (K : Host).

Definition Now : M Z := ask EvNow (h_now K).
Definition ctxErr : M (option AgentError) :=
  c ← ask EvContext (h_done K); mret (if (c : bool) then Some ECancelled else None).
Definition try (ev : event) : M (option AgentError) :=
  f ← ask ev (h_fail K); mret (if (f : bool) then Some EHost else None).
(** A call that returns something when it succeeds. *)
Definition tryGet {A} (ev : event) (answer : list event → A) : M (result AgentError A) :=
  ask ev (λ tr, if h_fail K tr then Err EHost else Ok (answer tr)).
End calls.

(** [x, err := m; if err != nil { return err }]. *)
Definition withResult {E A B} (m : M (result E A)) (onErr : E → M B) (k : A → M B) : M B :=
  r ← m;
  match (r : result E A) with Ok a => k a | Err e => onErr e end.
