(* ===== verification/AgentTransaction.v ===== *)
(** Installing files: [serving/transaction.go] and the writers of [serving/activation.go].

    A transaction stages and validates the files, takes the activation lock, renames the
    changed files into place and reloads the daemons; when the reload fails it puts the old
    files back and reloads again.  Its error says whether the daemons still serve what they
    served before ([EPreserved]) or not ([EUncertain]).

    The transaction is the agent's, which has a marker.  The staged copies and the temporary
    files of a rollback are files like others, and so is what a failed write leaves of them.
    File modes, directories and the log of updates are not modelled, nor what the commands
    do to files. *)

From S2P Require Import Prelude GoStrings GoCrypto GoJson GoJsonDecode WireModel WireDecode.
From S2P Require Import Publication ServingFences AgentState AgentHost.
From coqutil Require Import Datatypes.RecordSettersUsingExistingGetters.

(** * Paths and texts *)

Definition IsAbs (path : gostring) : bool := HasPrefix path "/".
(** [filepath.Base] and [filepath.Dir] of an absolute path. *)
Definition Base (path : gostring) : gostring :=
  let p := TrimRightByte path "/" in
  if decide (p = []) then "/" else afterLast "/" p.
Definition Dir (path : gostring) : gostring :=
  let p := TrimRightByte (take (length path - length (afterLast "/" path)) path) "/" in
  if decide (p = []) then "/" else p.
Definition inDir (dir path : gostring) : gostring := dir ++ "/" ++ Base path.

(** The name of the directory [os.MkdirTemp] makes in [dir] for the stage, up to what it adds,
    and that of the temporary file of a rollback. *)
Definition stagePrefix (dir : gostring) : gostring :=
  (if HasSuffix dir "/" then dir else dir ++ "/") ++ ".internal-dns-stage-".
Definition rollbackPath (path : gostring) (nanos : Z) : gostring := path ++ ".rollback-" ++ FormatInt nanos.

(** [strings.ReplaceAll] for a text that is not empty. *)
Fixpoint replaceFrom (skip : nat) (old new s : gostring) : gostring :=
  match s with
  | [] => []
  | c :: s' =>
      match skip with
      | S k => replaceFrom k old new s'
      | O => if HasPrefix s old then new ++ replaceFrom (length old - 1) old new s'
             else c :: replaceFrom 0 old new s'
      end
  end.

(** A file before the transaction; [None] where there was none. *)
Abbreviation oldFiles := (gmap gostring (option gostring)).

Definition routingConfigurationChanged (path before after : gostring) : bool :=
  HasSuffix path ".conf" && negb (HasSuffix path "-dnsdist.conf") && bool_decide (before ≠ after).

(** [activationMarkerPath]. *)
Definition activationMarkerPath (cfg : Config) : gostring := cfg_StateDir cfg ++ "/activation.pending".

Section transaction.
Context `{GoRuntime} (cfg : Config) (K : Host).
Abbreviation tx := (cfg_Transaction cfg).

(** * activation.go *)

(** The time of the marker before is kept: back-to-back updates do not renew it. *)
Definition writeActivation (phase : Phase) : M (option AgentError) :=
  now ← Now K;
  unread ← try K (EvRead (activationMarkerPath cfg));
  m ← machine;
  let since := match (unread : option AgentError), mc_marker m with
               | None, Some previous => if IsZero (ast_Since previous) then now else ast_Since previous
               | _, _ => now
               end in
  let s := {| ast_Phase := phase; ast_Since := since |} in
  check try K (EvWriteMarker s);
  check try K (EvRenameMarker s);
  _ ← modifyMachine (λ m, m <| mc_marker := Some s |>);
  try K EvSyncMarker.

(** [activationPending]: also when the marker cannot be looked at. *)
Definition activationPending : M bool :=
  unread ← try K (EvRead (activationMarkerPath cfg));
  m ← machine;
  mret (bool_decide (is_Some (mc_marker m)) || bool_decide (is_Some (unread : option AgentError))).

Definition beginPhase (phase : Phase) : M (option AgentError) :=
  check try K (EvMkdir (cfg_StateDir cfg));
  lock ← gets a_lock;
  check match (lock : option bool) with
        | None => check try K (EvLock true); _ ← modify (λ a, a <| a_lock := Some true |>); ok
        | Some _ => ok
        end;
  check try K (EvLock true);
  _ ← modify (λ a, a <| a_lock := Some true |>);
  writeActivation phase.
Definition beginActivation : M (option AgentError) := beginPhase activationInstalling.
Definition beginGate : M (option AgentError) := beginPhase activationGating.

Definition filesInstalled : M (option AgentError) :=
  check writeActivation activationVerifying;
  lock ← gets a_lock;
  match (lock : option bool) with
  | Some _ => check try K (EvLock false); _ ← modify (λ a, a <| a_lock := Some false |>); ok
  | None => ok
  end.

(** The lock is gone also when closing its file fails. *)
Definition abandonActivation : M (option AgentError) :=
  lock ← gets a_lock;
  match (lock : option bool) with
  | None => ok
  | Some _ => err ← try K EvUnlock; _ ← modify (λ a, a <| a_lock := None |>); mret err
  end.

Definition commitActivation : M (option AgentError) :=
  check try K EvRemoveMarker;
  _ ← modifyMachine (λ m, m <| mc_marker := None |>);
  check try K EvSyncMarker;
  abandonActivation.

(** * transaction.go *)

(** [commandsForChanges]; [None] for the changes stands for the [nil] map. *)
Definition commandRuns (changed : option (gset gostring)) (c : Command) : bool :=
  match changed with
  | None => true
  | Some ps => (length (cmd_WhenChanged c) =? 0)%nat || existsb (λ p, bool_decide (p ∈ ps)) (cmd_WhenChanged c)
  end.
Definition replaceStage (stage : option gostring) (c : Command) : Command :=
  match stage with
  | None => c
  | Some dir =>
      {| cmd_Path := replaceFrom 0 "{stageDir}" dir (cmd_Path c);
         cmd_Args := replaceFrom 0 "{stageDir}" dir <$> cmd_Args c;
         cmd_WhenChanged := cmd_WhenChanged c |}
  end.
Definition commandsForChanges (p : Purpose) (commands : list Command) (stage : option gostring)
    (changed : option (gset gostring)) : M (option AgentError) :=
  each (λ c, try K (EvRun p (replaceStage stage c))) (filter (λ c, commandRuns changed c = true) commands).

(** [FileTransaction.FailClosed]. *)
Definition stopDaemons : M (option AgentError) := commandsForChanges Stopping (tc_FailClosed tx) None None.

Definition syncDirs (paths : list gostring) : M (option AgentError) :=
  each (λ dir, try K (EvSync dir)) (rev (remove_dups (rev (Dir <$> paths)))).

Definition putFile (path content : gostring) : M unit :=
  modifyMachine (λ m, m <| mc_files := <[path := content]> (mc_files m) |>).
Definition dropFile (path : gostring) : M unit :=
  modifyMachine (λ m, m <| mc_files := delete path (mc_files m) |>).

(** [writeDurable]: when it fails the file may have been truncated or written in part. *)
Definition writeDurable (path data : gostring) : M (option AgentError) :=
  failed ← try K (EvWrite path data);
  match (failed : option AgentError) with
  | None => _ ← putFile path data; ok
  | Some e =>
      left ← aftermath (h_left K);
      _ ← match (left : option gostring) with Some part => putFile path part | None => mret tt end;
      fail e
  end.

(** [os.Rename] of a file, which has to be there. *)
Definition rename (from to : gostring) : M (option AgentError) :=
  check try K (EvRename from to);
  m ← machine;
  match mc_files m !! from with
  | Some data => _ ← dropFile from; _ ← putFile to data; ok
  | None => fail EHost
  end.

(** [os.RemoveAll]. *)
Definition removeAll (dir : gostring) : M (option AgentError) :=
  failed ← try K (EvRemoveAll dir);
  kept ← aftermath (h_kept K);
  let stays path := negb (HasPrefix path (dir ++ "/")) || bool_decide (is_Some (failed : option AgentError)) && kept path in
  _ ← modifyMachine (λ m, m <| mc_files := filter (λ kv, stays kv.1 = true) (mc_files m) |>);
  mret failed.

(** [restoreFiles] goes on after a failure. *)
Definition restoreFile (old : oldFiles) (path : gostring) : M (option AgentError) :=
  match default None (old !! path) with
  | None => check try K (EvRemove path); _ ← dropFile path; ok
  | Some data =>
      now ← Now K;
      check writeDurable (rollbackPath path now) data;
      rename (rollbackPath path now) path
  end.
Fixpoint restoreFiles (old : oldFiles) (paths : list gostring) : M (option AgentError) :=
  match paths with
  | [] => ok
  | path :: paths' => e ← restoreFile old path; e' ← restoreFiles old paths'; mret (joinErr e e')
  end.

(** The names of the files are absolute and their last elements differ. *)
Definition checkPath (seen : gset gostring) (path : gostring) : result AgentError (gset gostring) :=
  if negb (IsAbs path) then Err (EPath path)
  else if decide (Base path ∈ seen) then Err (EPath path) else Ok ({[ Base path ]} ∪ seen).

(** What is installed at the paths, as far as it can be read. *)
Fixpoint readOld (paths : list gostring) (old : oldFiles) : M (result AgentError oldFiles) :=
  match paths with
  | [] => mret (Ok old)
  | path :: paths' =>
      err ← try K (EvRead path);
      match (err : option AgentError) with
      | Some e => mret (Err e)
      | None => m ← machine; readOld paths' (<[path := mc_files m !! path]> old)
      end
  end.
Definition changedFiles (files : Files) (old : oldFiles) : gset gostring :=
  dom (filter (λ kv, old !! kv.1 ≠ Some (Some kv.2)) files).

(** Before anything is changed: what was there, and the staged copies. *)
Definition writeStage (files : Files) (stage : gostring) : M (option AgentError) :=
  let paths := sortStrings (map_to_list files).*1 in
  check each (λ path, writeDurable (inDir stage path) (default [] (files !! path))) paths;
  syncDirs (inDir stage <$> paths).
Definition stageFiles (files : Files) (stage : gostring) : M (result AgentError oldFiles) :=
  match result_fold checkPath ∅ (map_range files).*1 with
  | Err e => mret (Err e)
  | Ok _ =>
      withResult (readOld (sortStrings (map_to_list files).*1) ∅) (λ e, mret (Err e)) (λ old,
        staged ← writeStage files stage;
        mret match (staged : option AgentError) with Some e => Err e | None => Ok old end)
  end.

(** Rename the changed files into place.  An error comes with the files that are there
    already, for the rollback, and with whether an error of the rollback is reported. *)
Definition installFile (stage path data : gostring) : M (option (AgentError * bool)) :=
  made ← try K (EvMkdir (Dir path));
  match (made : option AgentError) with Some e => mret (Some (e, false)) | None =>
  written ← writeDurable (inDir stage path) data;
  match (written : option AgentError) with Some e => mret (Some (e, true)) | None =>
  renamed ← rename (inDir stage path) path;
  mret ((λ e, (e, false)) <$> (renamed : option AgentError))
  end end.
Fixpoint installFiles (files : Files) (stage : gostring) (paths installed : list gostring) :
    M (list gostring * option (AgentError * bool)) :=
  match paths with
  | [] => mret (installed, None)
  | path :: paths' =>
      e ← installFile stage path (default [] (files !! path));
      match (e : option (AgentError * bool)) with
      | Some e => mret (installed, Some e)
      | None => installFiles files stage paths' (installed ++ [path])
      end
  end.

(** The files are in place and the daemons did not take them: back to the old ones. *)
Definition rollBack (paths : list gostring) (old : oldFiles) (err : AgentError) : M (option AgentError) :=
  guard1 ← beginActivation;
  match (guard1 : option AgentError) with Some g => fail (EJoin err g) | None =>
  _ ← modify (λ a, a <| a_restarts := ((a_restarts a + 1) mod 2 ^ 64)%Z |>);
  guard2 ← stopDaemons;
  match (guard2 : option AgentError) with Some g => fail (EJoin err g) | None =>
  rollback ← restoreFiles old paths;
  synced ← syncDirs paths;
  match joinErr rollback synced with Some g => fail (EJoin err g) | None =>
  guard3 ← filesInstalled;
  match (guard3 : option AgentError) with Some g => fail (EJoin err g) | None =>
  reload ← commandsForChanges Reloading (tc_Reload tx) None None;
  match (reload : option AgentError) with
  | Some r => fail (EJoin err r)
  | None =>
      committed ← commitActivation;
      match (committed : option AgentError) with
      | Some g => fail (EJoin err g)
      | None => fail (EPreserved err)
      end
  end end end end end.

(** After the files are validated: whether the files may have changed, and the error. *)
Definition activateFiles (files : Files) (force : bool) (stage : gostring) (old : oldFiles) :
    M (bool * option AgentError) :=
  let paths := sortStrings (map_to_list files).*1 in
  let changed := changedFiles files old in
  let structural := force || existsb (λ path, bool_decide (path ∈ changed)
    && routingConfigurationChanged path (default [] (default None (old !! path))) (default [] (files !! path))) paths in
  begun ← beginActivation;
  match (begun : option AgentError) with Some e => mret (false, Some e) | None =>
  stopped ← (if structural then
               _ ← modify (λ a, a <| a_restarts := ((a_restarts a + 1) mod 2 ^ 64)%Z |>); stopDaemons
             else ok);
  match (stopped : option AgentError) with Some e => mret (false, Some (EUncertain e)) | None =>
  let reloads := if force || structural then None else Some changed in
  r ← installFiles files stage (filter (λ p, p ∈ changed) paths) [];
  let '(installed, err) := (r : list gostring * option (AgentError * bool)) in
  match err with
  | Some (e, joins) =>
      rollback ← restoreFiles old installed;
      mret (true, if (joins : bool) then joinErr (Some e) rollback else Some e)
  | None =>
      synced ← syncDirs installed;
      match (synced : option AgentError) with
      | Some e => rollback ← restoreFiles old installed; mret (true, joinErr (Some e) rollback)
      | None =>
          e ← (check filesInstalled;
               reloaded ← commandsForChanges Reloading (tc_Reload tx) None reloads;
               match (reloaded : option AgentError) with
               | Some e => rollBack paths old e
               | None => ok
               end);
          mret (true, e)
      end
  end end end.

(** With the stage made: whether the files may have changed, and the error. *)
Definition applyIn (files : Files) (force : bool) (stage : gostring) : M (bool * option AgentError) :=
  withResult (stageFiles files stage) (λ e, mret (false, Some e)) (λ old,
    let commandStage := if decide (tc_CommandStageDir tx = []) then stage
                        else inDir (tc_CommandStageDir tx) stage in
    let commandChanges := if force then None else Some (changedFiles files old) in
    validated ← commandsForChanges Validating (tc_Validate tx) (Some commandStage) commandChanges;
    match (validated : option AgentError) with
    | Some e => mret (false, Some (EPreserved e))
    | None => activateFiles files force stage old
    end).

(** [apply]: the stage is removed at the end, and the error says what became of the
    daemons. *)
Definition classify (mutating : bool) (e : AgentError) : AgentError :=
  if asPreserved e then e else if mutating then EUncertain e else EPreserved e.
Definition apply (files : Files) (force : bool) : M (option AgentError) :=
  if negb (IsAbs (tc_StageDir tx)) || bool_decide (files = ∅) then fail (classify false EStage)
  else
    withResult (tryGet K (EvMkdir (tc_StageDir tx)) (λ _, tt)) (λ e, fail (classify false e)) (λ _,
    withResult (tryGet K (EvMkdirTemp (tc_StageDir tx)) (h_stage K)) (λ e, fail (classify false e)) (λ added,
      let stage := stagePrefix (tc_StageDir tx) ++ added in
      r ← applyIn files force stage;
      _ ← removeAll stage;
      mret (classify r.1 <$> r.2))).
Definition Apply (files : Files) : M (option AgentError) := apply files false.
Definition ApplyForce (files : Files) : M (option AgentError) := apply files true.
End transaction.
