(* ===== verification/Agent.v ===== *)
(** The agent of a serving replica: [serving/agent.go], and what it calls of
    [serving/continuity.go], [serving/publication_state.go] and [serving/state.go].

    The agent receives snapshots, chunks, manifests and acknowledgements ([Handle]), keeps
    what it accepts in the checkpoint, installs the configuration it renders from that,
    probes it and acknowledges it; [Step] repeats the work that is still to be done.  Its
    lock makes [Handle] and [Step] atomic, so that a run of the agent is a sequence of
    them.

    [render] is the field of the agent that makes the files, [errorText] the wording of an
    error.  Metrics and reports, and the wait for the member's own daemons before a probe,
    are not modelled. *)

From S2P Require Import Prelude GoStrings GoCrypto GoJson GoJsonDecode WireModel WireDecode.
From S2P Require Import Publication ServingFences AgentState AgentHost AgentTransaction.
From coqutil Require Import Datatypes.RecordSettersUsingExistingGetters.

Definition minute : Z := (60 * nanosPerSecond)%Z.
Definition tombstoneAckRetention : Z := (24 * 60 * minute)%Z.
Definition restoredCheckpointLimit : Z := (15 * minute)%Z.

Section agent.
Context `{GoRuntime} `{MiekgDNS} (cfg : Config) (K : Host).
Context (render : RenderConfig → ServingSnapshot → gset gostring → publications → option Files).
Context (errorText : AgentError → gostring).

(** * The checkpoint *)

(** [a.store.Save(a.state)].  Chunks are pruned in the state itself: the copy shares the map. *)
Definition Save : M (option AgentError) :=
  c ← state;
  if negb (ck_FormatVersion c =? checkpointFormatVersion)%Z then fail EFormat
  else
    _ ← modifyState pruneSupersededChunks;
    c ← state;
    now ← Now K;
    let c := c <| ck_UpdatedAt := now |> in
    check try K (EvMkdir (cfg_StateDir cfg));
    check try K (EvWriteCheckpoint c);
    check try K (EvRenameCheckpoint c);
    _ ← modifyMachine (λ m, m <| mc_checkpoint := Some c |>);
    try K EvSyncCheckpoint.

Definition putPublication (uid : gostring) (p : publicationState) : M unit :=
  modifyState (λ c, c <| ck_Publications ::= insert uid p |>).

(** * Gating ([agent.go], [continuity.go]) *)

Definition failClosed : M (option AgentError) :=
  _ ← modify (λ a, a <| a_needsActivation := true |> <| a_state ::= λ c, c <| ck_Withdrawing := None |> |>
                     <| a_verifiedPaths := ∅ |>);
  begun ← beginGate cfg K;
  stopped ← stopDaemons cfg K;
  abandoned ← abandonActivation K;
  mret (joinErr (joinErr begun stopped) abandoned).

(** The approved configuration stays when nothing it serves is withdrawn and the daemons
    still serve it. *)
Definition gateRejectedUpdate (err : AgentError) : M unit :=
  c ← state;
  needs ← gets a_needsActivation;
  let retained := match ck_Active c with
                  | Some active => negb needs && bool_decide (ck_RenderedHash c = hashFiles (av_Files active))
                  | None => false
                  end in
  if negb (asUncertain err) && canRetainActive cfg c && (asPreserved err || retained) then mret tt
  else _ ← failClosed; mret tt.

Definition withdrawApproval : M unit :=
  modifyState (λ c, c <| ck_Withdrawing := match ck_Active c with Some a => Some a | None => ck_Withdrawing c end |>
                      <| ck_Active := None |>).

(** [approveConfiguration]: the copy through JSON is the configuration itself. *)
Definition approveConfiguration (files : Files) : M (option AgentError) :=
  c ← state;
  match ck_Snapshot c with
  | None => ok
  | Some s =>
      let active := {| av_Snapshot := s; av_Publications := ck_Publications c; av_Files := files;
                       av_NodeAuthoritative := cfg_NodeAuthoritative cfg |} in
      let same := match ck_Active c, ck_Withdrawing c with
                  | Some old, None =>
                      equalJSON (activeConfiguration_marshal old) (activeConfiguration_marshal active)
                  | _, _ => false
                  end in
      match activeConfiguration_marshal active with
      | None => fail EDecode
      | Some _ =>
          if same then commitActivation K
          else
            _ ← modifyState (λ c, c <| ck_Active := Some active |> <| ck_Withdrawing := None |>);
            saved ← Save;
            match (saved : option AgentError) with
            | Some e =>
                _ ← modifyState (λ c', c' <| ck_Active := ck_Active c |> <| ck_Withdrawing := ck_Withdrawing c |>);
                fail e
            | None => commitActivation K
            end
      end
  end.

(** * Verification *)

Definition verifyPublication (p : publicationState) : M (option AgentError) :=
  c ← state;
  installed ← gets a_installedPublications;
  if pm_Tombstone (p_Manifest p) || negb (cfg_PublicationVerifier cfg)
     || (length (publicationViews cfg c p) =? 0)%nat then ok
  else
    match installed !! pl_ZoneUID (p_Plan p) with
    | Some i =>
        if decide (ip_Identity i = publicationIdentity p)
        then try K (EvVerifyPublication (p_Plan p) (ip_Views i)) else fail ENotInstalled
    | None => fail ENotInstalled
    end.

(** [appliedPublicationError]: the first publication that differs from what was applied. *)
Definition differsFromApplied (c : checkpoint) (installed : gmap gostring installedPublication)
    (kv : gostring * publicationState) : bool :=
  let p := kv.2 in
  let current := effectivePlanHash (p_Plan p) in
  negb (pm_Tombstone (p_Manifest p))
  && match cfg_Mode cfg with
     | ModeCombined =>
         negb (length (publicationViews cfg c p) =? 0)%nat
         && match installed !! kv.1 with
            | Some i => bool_decide (ip_Identity i ≠ publicationIdentity p)
                        || bool_decide (ip_EffectiveHash i ≠ current)
            | None => true
            end
     | ModeResolver => bool_decide (p_EffectiveHash p ≠ current)
     end.
Definition appliedPublicationError : M (option AgentError) :=
  c ← state;
  installed ← gets a_installedPublications;
  mret match filter (λ kv, differsFromApplied c installed kv = true) (map_range (ck_Publications c)) with
       | kv :: _ => Some (EApplied kv.1)
       | [] => None
       end.
Definition verifyAppliedConfiguration : M (option AgentError) :=
  check ctxErr K;
  applied ← appliedPublicationError;
  match (applied : option AgentError) with
  | Some e => closed ← failClosed; mret (joinErr (Some e) closed)
  | None => ctxErr K
  end.

(** ** Resolver probes *)

(** Results in the order they came; when they are out before every binding has one, the
    deadline has passed. *)
Fixpoint collectProbes (identities : gmap gostring gostring) (results : list (gostring * bool))
    (pending active : gset gostring) (paths : gmap gostring gostring) (failed : bool) :
    gset gostring * gmap gostring gostring * bool :=
  if decide (pending = ∅) then (active, paths, failed)
  else
    match results with
    | [] => (active ∖ pending, paths, true)
    | (uid, err) :: results' =>
        if decide (uid ∈ pending) then
          if (err : bool) then collectProbes identities results' (pending ∖ {[uid]}) (active ∖ {[uid]}) paths true
          else collectProbes identities results' (pending ∖ {[uid]}) active
                 (<[uid := default [] (identities !! uid)]> paths) failed
        else collectProbes identities results' pending active paths failed
    end.

(** [verifyResolverBindings]: the bindings that stay active, and whether one failed.  A
    path that was verified since the last restart is not probed again. *)
Definition verifyResolverBindings (bindings : list Binding) (active : gset gostring) :
    M (gset gostring * bool) :=
  if negb (cfg_Verifier cfg) then mret (active, false)
  else
    _ ← modify (λ a, if (a_verifiedRestarts a =? a_restarts a)%Z then a
                     else a <| a_verifiedPaths := ∅ |> <| a_verifiedRestarts := a_restarts a |>);
    c ← state;
    paths ← gets a_verifiedPaths;
    let candidates := (λ b, set_Zones (readyZones cfg c b) b)
                        <$> filter (λ b, b_BindingUID b ∈ active) bindings in
    let known b := bool_decide (probeIdentity cfg c b ≠ [] ∧ paths !! b_BindingUID b = Some (probeIdentity cfg c b)) in
    let uidMap bs : gmap gostring gostring :=
      foldl (λ m b, <[b_BindingUID b := probeIdentity cfg c b]> m) ∅ bs in
    let verified := uidMap (filter (λ b, known b = true) candidates) in
    let eligible := filter (λ b, known b = false) candidates in
    _ ← modify (λ a, a <| a_verifiedPaths := verified |>);
    if (length eligible =? 0)%nat then mret (active, false)
    else
      results ← ask (EvProbe eligible) (h_probe K);
      let '(active, paths, failed) :=
        collectProbes (uidMap eligible) results (list_to_set (b_BindingUID <$> eligible)) active verified false in
      _ ← modify (λ a, a <| a_verifiedPaths := paths |>);
      mret (active, failed).

(** * Acknowledgements *)

Definition emitAck (kind uid : gostring) (epoch revision : Z) (phase message : gostring) :
    M (option AgentError) :=
  if negb (cfg_AckPublisher cfg) then ok
  else
    now ← Now K;
    let lease := if (cfg_AckLease cfg <=? 0)%Z then (90 * nanosPerSecond)%Z else cfg_AckLease cfg in
    let ack := {| ma_MemberID := cfg_MemberID cfg; ma_ReplicaID := cfg_ReplicaID cfg; ma_ResourceUID := uid;
                  ma_Kind := kind; ma_Epoch := epoch; ma_Revision := revision; ma_Phase := phase;
                  ma_ObservedAt := now; ma_ValidUntil := (now + lease)%Z; ma_Error := message |} in
    let eventID := "ack-" ++ OpaqueToken (cfg_MemberID cfg ++ "/" ++ cfg_ReplicaID cfg) ++ "-" ++ OpaqueToken uid
      ++ "-" ++ FormatUint epoch ++ "-" ++ FormatUint revision ++ "-" ++ phase ++ "-" ++ FormatInt (wrap64 now) in
    published ← Now K;
    match NewEnvelope KindMemberAck eventID (cfg_Region cfg) (cfg_Shard cfg) uid epoch revision published
            (MemberAck_marshal ack) with
    | Err e => fail (EWire e)
    | Ok env => try K (EvPublish (AckSubject (cfg_Region cfg) (cfg_Shard cfg) (cfg_MemberID cfg)) env)
    end.

(** Reports of a failed delivery are not modelled. *)
Definition emitVerifiedPublicationAck (uid : gostring) (epoch revision : Z) : M (option AgentError) :=
  check verifyAppliedConfiguration;
  if cfg_NodeAuthoritative cfg then ok
  else
    sent ← emitAck KindPublicationManifest uid epoch revision AckVerified [];
    match (sent : option AgentError) with
    | Some _ => ok
    | None => now ← Now K; _ ← modify (λ a, a <| a_lastPublicationAck ::= insert uid now |>); ok
    end.

Definition ackInterval : Z :=
  if (cfg_AckInterval cfg <=? 0)%Z then (30 * nanosPerSecond)%Z else cfg_AckInterval cfg.

Definition emitServingAck (b : Binding) (phase : gostring) : M (option AgentError) :=
  now ← Now K;
  c ← state;
  acks ← gets a_lastServingAck;
  let last := acks !! b_BindingUID b in
  if match (last : option servingAckState) with
     | Some l => bool_decide (sa_phase l = phase) && bool_decide (sa_fence l = ck_ServingFence c)
                 && (sa_configurationRevision l =? b_ConfigurationRevision b)%Z
                 && bool_decide (sa_accessVersion l = b_Version b) && (Sub now (sa_at l) <? ackInterval)%Z
     | None => false
     end
  then ok
  else
    check emitAck KindServingSnapshot (b_BindingUID b) (f_Epoch (ck_ServingFence c)) (f_Revision (ck_ServingFence c))
            phase [];
    _ ← modify (λ a, a <| a_lastServingAck ::= insert (b_BindingUID b)
          {| sa_phase := phase; sa_at := now; sa_fence := ck_ServingFence c;
             sa_configurationRevision := b_ConfigurationRevision b; sa_accessVersion := b_Version b |} |>);
    ok.

(** The publications whose acknowledgement is due, each verified again; the first that
    fails is rejected. *)
Definition heartbeatDue (now : Z) (c : checkpoint) (last : gmap gostring Z) (kv : gostring * publicationState) : bool :=
  let p := kv.2 in
  p_Verified p && negb (p_Retired p)
  && (pm_Tombstone (p_Manifest p) || negb (length (publicationViews cfg c p) =? 0)%nat)
  && negb match last !! kv.1 with
          | Some t => negb (IsZero t) && (Sub now t <? ackInterval)%Z
          | None => false
          end.
Fixpoint sendAcks (now : Z) (due : list (gostring * publicationState)) : M unit :=
  match due with
  | [] => mret tt
  | (uid, p) :: due' =>
      sent ← emitAck KindPublicationManifest uid (f_Epoch (p_Fence p)) (f_Revision (p_Fence p)) AckVerified [];
      match (sent : option AgentError) with
      | Some _ => mret tt
      | None => _ ← modify (λ a, a <| a_lastPublicationAck ::= insert uid now |>); sendAcks now due'
      end
  end.
Definition heartbeatPublications : M (option AgentError) :=
  if cfg_NodeAuthoritative cfg then ok
  else
    now ← Now K;
    c ← state;
    last ← gets a_lastPublicationAck;
    let due := filter (λ kv, heartbeatDue now c last kv = true) (map_range (ck_Publications c)) in
    check each (λ kv : gostring * publicationState,
      let '(uid, p) := kv in
      err ← verifyPublication p;
      match (err : option AgentError) with
      | None => ok
      | Some e =>
          _ ← emitAck KindPublicationManifest uid (f_Epoch (p_Fence p)) (f_Revision (p_Fence p)) AckRejected (errorText e);
          fail e
      end) due;
    _ ← sendAcks now due;
    ok.

(** [finishEvent]. *)
Definition finishEvent : M (option AgentError) :=
  progress ← gets a_bootstrapInProgress;
  complete ← gets a_bootstrapComplete;
  if progress || cfg_NodeAuthoritative cfg && negb complete then ok
  else
    check match cfg_Mode cfg with ModeCombined => heartbeatPublications | ModeResolver => ok end;
    verifyAppliedConfiguration.

(** * Reconciliation *)

(** What is rendered: the bindings that are not withdrawn, those that are to answer, and
    the members each of them and each of its zones may be sent to. *)
Definition servedSnapshot (s : ServingSnapshot) : ServingSnapshot :=
  set_Bindings (match filter (λ b, b_Tombstone b = false) (elems (s_Bindings s)) with
                | [] => None
                | bs => Some bs
                end) s.
Definition activeBindings (s : ServingSnapshot) : gset gostring :=
  list_to_set (b_BindingUID <$>
    filter (λ b, b_Tombstone b = false ∧ b_ConfigurationPending b = false) (elems (s_Bindings s))).
Definition zoneMembers (c : checkpoint) (b : Binding) : gmap gostring (gset gostring) :=
  foldl (λ m z, <[za_ZoneUID z := eligibleRegionalMembers cfg c (set_Zones (Some [z]) b)]> m) ∅ (elems (b_Zones b)).
Definition desiredRender (c : checkpoint) (s : ServingSnapshot) : RenderConfig :=
  let bs := elems (s_Bindings (servedSnapshot s)) in
  (cfg_Render cfg)
    <| rc_ReadyMembers := foldl (λ m b, <[b_BindingUID b := eligibleRegionalMembers cfg c (set_Zones None b)]> m) ∅ bs |>
    <| rc_ReadyZoneMembers := foldl (λ m b, <[b_BindingUID b := zoneMembers c b]> m) ∅ bs |>.
Definition renderDesired (c : checkpoint) (s : ServingSnapshot) (active : gset gostring) : option Files :=
  render ((desiredRender c s) <| rc_NodeAuthoritative := cfg_NodeAuthoritative cfg |>) (servedSnapshot s) active
    (ck_Publications c).

(** Install what was rendered, unless it is installed: whether anything was activated. *)
Definition installRendered (files : Files) : M (option AgentError * bool) :=
  c ← state;
  needs ← gets a_needsActivation;
  if negb (bool_decide (hashFiles files = ck_RenderedHash c)) || needs then
    withdrawn ←
      (if canRetainActive cfg c then ok
       else
         check match ck_Active c with Some _ => beginActivation cfg K | None => ok end;
         _ ← withdrawApproval;
         Save);
    match (withdrawn : option AgentError) with Some e => mret (Some e, false) | None =>
    applied ← (if (needs : bool) then ApplyForce cfg K files else Apply cfg K files);
    match (applied : option AgentError) with
    | Some e => _ ← gateRejectedUpdate e; mret (Some e, false)
    | None =>
        _ ← modifyState (λ c, c <| ck_RenderedHash := hashFiles files |>);
        saved ← Save;
        match (saved : option AgentError) with
        | Some e => mret (Some e, true)
        | None => _ ← modify (λ a, a <| a_needsActivation := false |>); mret (None, true)
        end
    end end
  else
    e ← (if bool_decide (is_Some (ck_Active c)) && negb (canRetainActive cfg c) then _ ← withdrawApproval; Save
         else ok);
    mret (e, false).

(** In combined mode, what is installed is recorded and every verified publication is
    probed again. *)
Definition noteInstalled : M unit :=
  modify (λ a, a <| a_installedPublications :=
    (λ p, {| ip_Identity := publicationIdentity p; ip_EffectiveHash := effectivePlanHash (p_Plan p);
             ip_Views := publicationViews cfg (a_state a) p |}) <$> ck_Publications (a_state a) |>).
Definition verifyInstalled : M (option AgentError) :=
  _ ← noteInstalled;
  c ← state;
  each (λ p, err ← verifyPublication p;
             match (err : option AgentError) with
             | Some e => _ ← failClosed; fail e
             | None => ok
             end)
    (filter (λ p, p_Verified p = true ∧ pm_Tombstone (p_Manifest p) = false ∧ publicationViews cfg c p ≠ [])
       (map_range (ck_Publications c)).*2).

(** A binding that failed its probe is taken out again. *)
Definition installGated (s : ServingSnapshot) (active : gset gostring) (files : Files) :
    M (option AgentError * Files) :=
  c ← state;
  match renderDesired c s active with
  | None => mret (Some ERender, files)
  | Some gated =>
      if decide (hashFiles gated = ck_RenderedHash c) then mret (None, files)
      else
        applied ← Apply cfg K gated;
        match (applied : option AgentError) with
        | Some e => _ ← failClosed; mret (Some e, files)
        | None =>
            _ ← modifyState (λ c, c <| ck_RenderedHash := hashFiles gated |>);
            saved ← Save;
            mret (saved, gated)
        end
  end.

(** The acknowledgements of the bindings; the first that cannot be delivered is the last. *)
Fixpoint ackBindings (active : gset gostring) (bs : list Binding) : M unit :=
  match bs with
  | [] => mret tt
  | b :: bs' =>
      if b_ConfigurationPending b then ackBindings active bs'
      else
        sent ← emitServingAck b (if negb (b_Tombstone b) && bool_decide (b_BindingUID b ∉ active)
                                 then AckApplied else AckVerified);
        match (sent : option AgentError) with Some _ => mret tt | None => ackBindings active bs' end
  end.

(** Everything is installed and verified: approve it. *)
Definition approveInstalled (s : ServingSnapshot) (active : gset gostring) (files : Files) : M (option AgentError) :=
  c ← state;
  if bool_decide (cfg_Mode cfg = ModeCombined)
     && existsb (λ kv : gostring * publicationState,
          negb (p_Verified kv.2)
          && (pm_Tombstone (p_Manifest kv.2) || negb (length (publicationViews cfg c kv.2) =? 0)%nat))
          (map_to_list (ck_Publications c))
  then ok
  else
    check approveConfiguration files;
    check match cfg_Mode cfg with ModeResolver => verifyAppliedConfiguration | ModeCombined => ok end;
    _ ← ackBindings active (elems (s_Bindings s));
    ok.

Definition reconcileDesired (retained : option gostring) : M (option AgentError) :=
  c ← state;
  match ck_Snapshot c with
  | None => ok
  | Some s =>
      let active := activeBindings s in
      match renderDesired c s active with
      | None => fail ERender
      | Some rendered =>
          let rendered := match retained with
                          | Some data => <[dd_Path (rc_NodeDNSDist (cfg_Render cfg)) := data]> rendered
                          | None => rendered
                          end in
          r ← installRendered rendered;
          match (r : option AgentError * bool).1 with Some e => fail e | None =>
          check match cfg_Mode cfg with ModeCombined => verifyInstalled | ModeResolver => ok end;
          probed ← verifyResolverBindings (elems (s_Bindings (servedSnapshot s))) active;
          let '(active, failed) := (probed : gset gostring * bool) in
          gated ← (if (failed : bool) then installGated s active rendered else mret (None, rendered));
          let '(err, rendered) := (gated : option AgentError * Files) in
          match err with Some e => fail e | None => approveInstalled s active rendered end
          end
      end
  end.

(** A failure to install what withdraws something gates the daemons. *)
Definition reconcileWithNodeRouting (retained : option gostring) : M (option AgentError) :=
  c ← state;
  match ck_Snapshot c with
  | None => ok
  | Some _ =>
      err ← reconcileDesired retained;
      match (err : option AgentError) with
      | None => ok
      | Some e =>
          if canRetainActive cfg c then fail e
          else
            cancelled ← ctxErr K;
            match (cancelled : option AgentError) with
            | Some _ => fail e
            | None => closed ← failClosed; mret (joinErr (Some e) closed)
            end
      end
  end.
Definition reconcile : M (option AgentError) := reconcileWithNodeRouting None.

(** ** Routing that is kept over an addition ([retainedNodeRouting]) *)

Fixpoint filesMatch (files : list (gostring * gostring)) : M bool :=
  match files with
  | [] => mret true
  | (path, expected) :: files' =>
      err ← try K (EvRead path);
      m ← machine;
      match (err : option AgentError) with
      | Some _ => mret false
      | None => if decide (mc_files m !! path = Some expected) then filesMatch files' else mret false
      end
  end.
Definition installedFilesMatch (files : Files) : M bool :=
  if decide (files = ∅) then mret false else filesMatch (map_range files).

(** Every zone the configuration attaches has a verified publication of its own. *)
Definition approvedZone (pubs : publications) (z : ZoneAttachment) : bool :=
  match pubs !! za_ZoneUID z with
  | Some p => negb (za_Pending z) && p_Verified p && negb (pm_Tombstone (p_Manifest p)) && meets (p_Fence p) z
  | None => false
  end.
Definition approvedRender (s : ServingSnapshot) : RenderConfig :=
  (cfg_Render cfg)
    <| rc_ReadyZoneMembers :=
         foldl (λ m b, <[b_BindingUID b :=
                  foldl (λ zs z, <[za_ZoneUID z := {[ cfg_MemberID cfg ]}]> zs) ∅ (elems (b_Zones b))]> m) ∅
           (elems (s_Bindings (servedSnapshot s))) |>
    <| rc_NodeAuthoritative := true |>.

Definition retainedNodeRouting : M (option gostring) :=
  c ← state;
  needs ← gets a_needsActivation;
  match ck_Active c, ck_Snapshot c with
  | Some active, Some s =>
      if negb (cfg_NodeAuthoritative cfg) || needs || negb (canRetainActive cfg c)
         || negb (equalJSON (ServingSnapshot_marshal (av_Snapshot active)) (ServingSnapshot_marshal s))
         || negb (bool_decide (ck_RenderedHash c = hashFiles (av_Files active)))
      then mret None
      else
        pending ← activationPending cfg K;
        if (pending : bool) then mret None
        else
          same ← installedFilesMatch (av_Files active);
          let path := dd_Path (rc_NodeDNSDist (cfg_Render cfg)) in
          if negb same
             || negb (forallb (λ b, forallb (approvedZone (av_Publications active)) (elems (b_Zones b)))
                        (elems (s_Bindings (servedSnapshot (av_Snapshot active)))))
          then mret None
          else
            mret match render (approvedRender (av_Snapshot active)) (servedSnapshot (av_Snapshot active))
                         (activeBindings (av_Snapshot active)) (av_Publications active) with
                 | Some rendered =>
                     if decide (default [] (rendered !! path) = default [] (av_Files active !! path))
                     then av_Files active !! path else None
                 | None => None
                 end
  | _, _ => mret None
  end.

(** * Events *)

Definition applyServingSnapshot (snapshot : ServingSnapshot) (advance : bool) : M (option AgentError) :=
  check
    (if advance then
       c ← state;
       match advanceBindingFences (ck_BindingFences c) snapshot with
       | Err e => fail (EFence e)
       | Ok bindingFences =>
           _ ← modifyState (λ c, c <| ck_BindingFences := bindingFences |>
                 <| ck_ServingFence := {| f_Epoch := s_ConfigurationEpoch snapshot;
                                          f_Revision := s_ConfigurationRevision snapshot |} |>
                 <| ck_Snapshot := Some snapshot |>);
           c ← state;
           progress ← gets a_bootstrapInProgress;
           complete ← gets a_bootstrapComplete;
           _ ← (if negb (canRetainActive cfg c) && (progress || cfg_NodeAuthoritative cfg && negb complete)
                then withdrawApproval else mret tt);
           saved ← Save;
           match (saved : option AgentError) with
           | Some e => _ ← failClosed; fail e
           | None => ok
           end
       end
     else ok);
  progress ← gets a_bootstrapInProgress;
  complete ← gets a_bootstrapComplete;
  if cfg_NodeAuthoritative cfg && negb complete && negb progress then ok
  else if (progress : bool) then ok
  else
    check reconcile;
    finishEvent.

Definition handleServing (env : Envelope) : M (option AgentError) :=
  match e_Payload env with
  | NotJson _ => fail EDecode
  | Encoded j =>
      match dSnapshot zeroSnapshot j with
      | None => fail EDecode
      | Some snapshot =>
          match ServingSnapshot_Validate snapshot with
          | Err e => fail (EWire e)
          | Ok _ =>
              let maximum := if (cfg_MaxBindings cfg =? 0)%Z then 4096%Z else cfg_MaxBindings cfg in
              if (maximum <? Z.of_nat (length (elems (s_Bindings snapshot))))%Z then fail EBindings
              else if bool_decide (s_Region snapshot ≠ e_Region env) || bool_decide (s_Shard snapshot ≠ e_Shard env)
                      || negb (s_ConfigurationEpoch snapshot =? e_Epoch env)%Z
                      || negb (s_ConfigurationRevision snapshot =? e_Revision env)%Z
              then fail ESnapshotIdentity
              else
                c ← state;
                let cmp := Compare (e_Epoch env) (e_Revision env) (f_Epoch (ck_ServingFence c))
                             (f_Revision (ck_ServingFence c)) in
                if (cmp <? 0)%Z then ok
                else
                  match (if (cmp =? 0)%Z then ck_Snapshot c else None) with
                  | Some s =>
                      if equalJSON (ServingSnapshot_marshal snapshot) (ServingSnapshot_marshal s)
                      then applyServingSnapshot snapshot false else fail ESnapshotConflict
                  | None => applyServingSnapshot snapshot true
                  end
          end
      end
  end.

Definition chunkKey (index : Z) : gostring := FormatInt index.

Definition handleChunk (env : Envelope) : M (option AgentError) :=
  match e_Payload env with
  | NotJson _ => fail EDecode
  | Encoded j =>
      match dChunk zeroChunk j with
      | None => fail EDecode
      | Some chunk =>
          match PublicationChunk_Validate chunk with
          | Err e => fail (EWire e)
          | Ok _ =>
              if bool_decide (pc_ZoneUID chunk ≠ e_ResourceUID env) || negb (pc_WriterEpoch chunk =? e_Epoch env)%Z
                 || negb (pc_Revision chunk =? e_Revision env)%Z
              then fail EChunkEnvelope
              else
                c ← state;
                let current := p_Fence (default zeroPublication (ck_Publications c !! pc_ZoneUID chunk)) in
                if (Compare (pc_WriterEpoch chunk) (pc_Revision chunk) (f_Epoch current) (f_Revision current) <? 0)%Z
                then ok
                else
                  let staged := default ∅ (ck_Chunks c !! pc_ManifestUID chunk) in
                  _ ← modifyState (λ c, c <| ck_Chunks ::= insert (pc_ManifestUID chunk) staged |>);
                  if match staged !! chunkKey (pc_Index chunk) with
                     | Some old => bool_decide (pc_SHA256 old ≠ pc_SHA256 chunk)
                     | None => false
                     end
                  then fail EChunkConflict
                  else
                    _ ← modifyState (λ c, c <| ck_Chunks ::= insert (pc_ManifestUID chunk)
                                                 (<[chunkKey (pc_Index chunk) := chunk]> staged) |>);
                    Save
          end
      end
  end.

(** Commit the fence before files are installed: an identical redelivery tries again. *)
Definition recordResolverPublication (uid : gostring) (next : publicationState) : M (option AgentError) :=
  _ ← putPublication uid (next <| p_Verified := false |>);
  check Save;
  _ ← putPublication uid (next <| p_Verified := true |>);
  Save.

Definition activatePublication (uid : gostring) (next : publicationState) : M (option AgentError) :=
  _ ← putPublication uid next;
  check Save;
  progress ← gets a_bootstrapInProgress;
  complete ← gets a_bootstrapComplete;
  if progress || cfg_NodeAuthoritative cfg && negb complete then ok
  else
    retained ← retainedNodeRouting;
    check reconcileWithNodeRouting retained;
    c ← state;
    if negb (pm_Tombstone (p_Manifest next)) && (length (publicationViews cfg c next) =? 0)%nat then ok
    else
      verified ← verifyPublication next;
      match (verified : option AgentError) with
      | Some e => _ ← failClosed; fail e
      | None =>
          _ ← putPublication uid (next <| p_Verified := true |>);
          check Save;
          check reconcile;
          emitVerifiedPublicationAck uid (f_Epoch (p_Fence next)) (f_Revision (p_Fence next))
      end.

Definition applyPublication (uid : gostring) (next : publicationState) : M (option AgentError) :=
  match cfg_Mode cfg with
  | ModeResolver => recordResolverPublication uid next
  | ModeCombined => activatePublication uid next
  end.

Definition publicationOf (m : PublicationManifest) (plan : PublicationPlan) (hash : gostring) : publicationState := {|
  p_Fence := {| f_Epoch := pm_WriterEpoch m; f_Revision := pm_Revision m |}; p_Manifest := m; p_Plan := plan;
  p_LocalRevision := 0; p_EffectiveHash := hash; p_Verified := false; p_WithdrawnAt := zeroTime;
  p_Retired := false |}.

Definition applyTombstone (m : PublicationManifest) (old : publicationState) : M (option AgentError) :=
  applyPublication (pm_ZoneUID m) (publicationOf m (p_Plan old) []).

(** The publication is there already and was verified. *)
Definition confirmPublication (m : PublicationManifest) (old : publicationState) : M (option AgentError) :=
  progress ← gets a_bootstrapInProgress;
  if (progress : bool) then ok
  else
    match cfg_Mode cfg with
    | ModeResolver => recordResolverPublication (pm_ZoneUID m) old
    | ModeCombined =>
        if negb (equalJSON (PublicationManifest_marshal m) (PublicationManifest_marshal (p_Manifest old)))
        then fail EManifestConflict
        else
          verified ← verifyPublication old;
          match (verified : option AgentError) with
          | Some e =>
              _ ← (if cfg_NodeAuthoritative cfg then ok
                   else emitAck KindPublicationManifest (pm_ZoneUID m) (pm_WriterEpoch m) (pm_Revision m) AckRejected
                          (errorText e));
              fail e
          | None => emitVerifiedPublicationAck (pm_ZoneUID m) (pm_WriterEpoch m) (pm_Revision m)
          end
    end.

(** The chunks that are there make up a plan: keep its observations, then the plan. *)
Definition assemblePlan (c : checkpoint) (m : PublicationManifest) : result AgentError PublicationPlan :=
  match VerifyManifest m (map_range (default ∅ (ck_Chunks c !! pm_ManifestUID m))).*2 with
  | Err e => Err (EWire e)
  | Ok payload =>
      match Unmarshal dPlan zeroPlan payload with
      | None => Err EDecode
      | Some plan =>
          match PublicationPlan_Validate plan with
          | Err e => Err (EWire e)
          | Ok _ =>
              if bool_decide (pl_ZoneUID plan ≠ pm_ZoneUID m)
                 || bool_decide (AbsoluteName (pl_Apex plan) ≠ AbsoluteName (pm_Apex m))
              then Err EPlanIdentity
              else
                match validateContributionFences (ck_ContributionFences c) plan with
                | Err e => Err (EFence e)
                | Ok _ => Ok plan
                end
          end
      end
  end.
Definition acceptManifest (m : PublicationManifest) : M (option AgentError) :=
  c ← state;
  match assemblePlan c m with
  | Err e => fail e
  | Ok plan =>
      _ ← modifyState (λ c, c <| ck_ContributionFences := commitContributionFences (ck_ContributionFences c) plan |>);
      check Save;
      applyPublication (pm_ZoneUID m) (publicationOf m plan (effectivePlanHash plan))
  end.

Definition handleManifest (env : Envelope) : M (option AgentError) :=
  match e_Payload env with
  | NotJson _ => fail EDecode
  | Encoded j =>
      match dManifest zeroManifest j with
      | None => fail EDecode
      | Some m =>
          match PublicationManifest_Validate m with
          | Err e => fail (EWire e)
          | Ok _ =>
              if bool_decide (pm_ZoneUID m ≠ e_ResourceUID env) || negb (pm_WriterEpoch m =? e_Epoch env)%Z
                 || negb (pm_Revision m =? e_Revision env)%Z
              then fail EManifestIdentity
              else
                c ← state;
                let old := default zeroPublication (ck_Publications c !! pm_ZoneUID m) in
                let f := p_Fence old in
                let cmp := Compare (pm_WriterEpoch m) (pm_Revision m) (f_Epoch f) (f_Revision f) in
                if (cmp <? 0)%Z then ok
                else if (cmp =? 0)%Z && (0 <? f_Revision f)%Z
                        && negb (equalJSON (PublicationManifest_marshal m) (PublicationManifest_marshal (p_Manifest old)))
                then fail EManifestConflict
                else if (cmp =? 0)%Z && p_Verified old then confirmPublication m old
                else if (0 <? cmp)%Z && (f_Epoch f =? pm_WriterEpoch m)%Z && (0 <? f_Revision f)%Z
                        && (pm_PreviousRevision m <? f_Revision f)%Z
                then fail EManifestBase
                else if pm_Tombstone m then applyTombstone m old
                else acceptManifest m
          end
      end
  end.

(** ** Acknowledgements of the members *)

Definition decodeAck (env : Envelope) : result AgentError MemberAck :=
  match e_Payload env with
  | NotJson _ => Err EDecode
  | Encoded j =>
      match dAck zeroAck j with
      | None => Err EDecode
      | Some ack =>
          if bool_decide (ma_ResourceUID ack ≠ e_ResourceUID env) || negb (ma_Epoch ack =? e_Epoch env)%Z
             || negb (ma_Revision ack =? e_Revision env)%Z
          then Err EAckIdentity
          else if IsZero (ma_ValidUntil ack) || IsZero (ma_ObservedAt ack)
                  || (ma_ObservedAt ack + 2 * minute <? ma_ValidUntil ack)%Z
          then Err EAckLease
          else Ok ack
      end
  end.

Definition putAck (uid key : gostring) (a : replicaAck) : M unit :=
  modifyState (λ c, c <| ck_Acks ::= insert uid (<[key := a]> (default ∅ (ck_Acks c !! uid))) |>).

Definition ensureAcks (uid : gostring) : M unit :=
  modifyState (λ c, c <| ck_Acks ::= insert uid (default ∅ (ck_Acks c !! uid)) |>).

Definition saveAndReconcile : M (option AgentError) :=
  check Save;
  check reconcile;
  finishEvent.

Definition handleAck (env : Envelope) : M (option AgentError) :=
  match decodeAck env with
  | Err e => fail e
  | Ok ack =>
      c ← state;
      match ck_Snapshot c with
      | None => ok
      | Some s =>
          match LookupMember (elems (s_Members s)) (s_MemberPatterns s) (ma_MemberID ack) with
          | None => ok
          | Some member =>
              if decide (m_ReplicaID member ≠ ma_ReplicaID ack) then ok
              else
                now ← Now K;
                if (ma_ValidUntil ack <=? now)%Z then ok
                else if decide (ma_Kind ack ≠ KindPublicationManifest) then ok
                else if decide (ma_Phase ack = AckExpired) then
                  check reconcile; finishEvent
                else
                  let uid := ma_ResourceUID ack in
                  let key := ma_MemberID ack ++ "/" ++ ma_ReplicaID ack in
                  let old := default noAck (default ∅ (ck_Acks c !! uid) !! key) in
                  let cmp := Compare (ma_Epoch ack) (ma_Revision ack) (f_Epoch (ra_Fence old)) (f_Revision (ra_Fence old)) in
                  let stale := (cmp <? 0)%Z || (cmp =? 0)%Z && negb (ra_ObservedAt old <? ma_ObservedAt ack)%Z in
                  let row rejected until := {| ra_Rejected := rejected; ra_ObservedAt := ma_ObservedAt ack;
                    ra_Fence := {| f_Epoch := ma_Epoch ack; f_Revision := ma_Revision ack |}; ra_ValidUntil := until |} in
                  if decide (ma_Phase ack ≠ AckVerified) then
                    if decide (ma_Phase ack ≠ AckRejected ∧ ma_Phase ack ≠ AckApplied) then fail EAckPhase
                    else
                      _ ← ensureAcks uid;
                      if stale then ok else _ ← putAck uid key (row true zeroTime); saveAndReconcile
                  else
                  _ ← ensureAcks uid;
                  if stale then ok
                  else if (cmp =? 0)%Z && negb (ra_ValidUntil old <? ma_ValidUntil ack)%Z then ok
                  else
                    _ ← putAck uid key (row false (ma_ValidUntil ack));
                    if (cmp =? 0)%Z && negb (ra_Rejected old) && negb (IsZero (ra_ObservedAt old)) then ok
                    else saveAndReconcile
          end
      end
  end.

(** * The agent's operations *)

Definition Handle (env : Envelope) : M (option AgentError) :=
  match Envelope_Validate env with
  | Err e => fail (EWire e)
  | Ok _ =>
      if bool_decide (e_Region env ≠ cfg_Region cfg) || bool_decide (e_Shard env ≠ cfg_Shard cfg) then fail ETarget
      else
        expired ← (if decide (e_Kind env = KindMemberAck) then
                     match decodeAck env with
                     | Err e => mret (Some (Some e))
                     | Ok ack => now ← Now K; mret (if (ma_ValidUntil ack <=? now)%Z then Some None else None)
                     end
                   else mret None);
        match (expired : option (option AgentError)) with
        | Some r => mret r
        | None =>
            check ctxErr K;
            if decide (e_Kind env = KindServingSnapshot) then handleServing env
            else if decide (e_Kind env = KindPublicationChunk) then handleChunk env
            else if decide (e_Kind env = KindPublicationManifest) then
              err ← handleManifest env;
              match (err : option AgentError) with
              | Some e => _ ← gateRejectedUpdate e; fail e
              | None => finishEvent
              end
            else if decide (e_Kind env = KindMemberAck) then handleAck env
            else fail EKind
        end
  end.

(** [retireTombstones]: a verified withdrawal is acknowledged for a day; then only what
    rejects an older replay of the zone is kept. *)
Definition retired (now : Z) (p : publicationState) : option publicationState :=
  if negb (pm_Tombstone (p_Manifest p)) || negb (p_Verified p) || p_Retired p then None
  else if IsZero (p_WithdrawnAt p) then Some (p <| p_WithdrawnAt := now |>)
  else if (tombstoneAckRetention <=? Sub now (p_WithdrawnAt p))%Z then
    Some (p <| p_Plan := zeroPlan |> <| p_EffectiveHash := [] |> <| p_Retired := true |>)
  else None.
Definition retireTombstones (now : Z) : M (option AgentError) :=
  c ← state;
  let changed := omap (retired now) (ck_Publications c) in
  if decide (changed = ∅) then ok
  else
    _ ← modifyState (λ c, c <| ck_Publications := changed ∪ ck_Publications c |>);
    saved ← Save;
    match (saved : option AgentError) with
    | Some e => _ ← modifyState (λ c', c' <| ck_Publications := ck_Publications c |>); fail e
    | None => ok
    end.

(** [retryPendingPublications]: the publications as they were when the loop began. *)
Definition retryPublication (kv : gostring * publicationState) : M (option AgentError) :=
  let '(uid, p) := kv in
  if p_Verified p then ok
  else
    match cfg_Mode cfg with
    | ModeResolver => recordResolverPublication uid p
    | ModeCombined =>
        c ← state;
        if negb (pm_Tombstone (p_Manifest p)) && (length (publicationViews cfg c p) =? 0)%nat then ok
        else
          check reconcile;
          check verifyPublication p;
          _ ← putPublication uid (p <| p_Verified := true |> <| p_EffectiveHash := effectivePlanHash (p_Plan p) |>);
          Save
    end.
Definition retryPendingPublications : M (option AgentError) :=
  c ← state;
  each retryPublication (map_range (ck_Publications c)).

Definition restoredCheckpointExpired : M bool :=
  a ← gets id;
  if IsZero (a_restoredAt a) || a_bootstrapComplete a then mret false
  else now ← Now K; mret (negb (now <? a_restoredAt a + restoredCheckpointLimit)%Z).

Definition withdrawRestoredCheckpoint : M (option AgentError) :=
  withdrawn ← gets a_checkpointWithdrawn;
  if (withdrawn : bool) then ok
  else
    _ ← modify (λ a, a <| a_checkpointWithdrawn := true |>);
    closed ← failClosed;
    mret (joinErr (Some ERestoredExpired) closed).

Definition Step : M (option AgentError) :=
  expired ← restoredCheckpointExpired;
  if (expired : bool) then withdrawRestoredCheckpoint
  else
    complete ← gets a_bootstrapComplete;
    if cfg_NodeAuthoritative cfg && negb complete then fail EWaiting
    else
      c ← state;
      match ck_Snapshot c with
      | None => fail ENoConfiguration
      | Some _ =>
          now ← Now K;
          _ ← retireTombstones now;
          retried ← retryPendingPublications;
          match (retried : option AgentError) with
          | Some e => _ ← gateRejectedUpdate e; fail e
          | None =>
              check match cfg_Mode cfg with
                    | ModeResolver => ok
                    | ModeCombined =>
                        a ← gets id;
                        check (if a_needsActivation a || bool_decide (a_installedPublications a = ∅) then reconcile else ok);
                        heartbeatPublications
                    end;
              check reconcile;
              verifyAppliedConfiguration
          end
      end.
End agent.
