(* ===== verification/AgentStart.v ===== *)
(** How a serving replica starts: [serving/bootstrap.go], and of [serving/agent.go] and
    [serving/continuity.go] what happens before the first event.

    A process loads the checkpoint, puts the approved configuration back, reads a consistent
    cut of the bootstrap store and hands it to [Handle].  The configuration is valid
    ([Config.Validate]).  [refresh] is [refreshDNSDistConfiguration], which renders the
    process settings of a router again; the wait for daemons that are starting is one call. *)

From S2P Require Import Prelude GoStrings GoCrypto GoJson GoJsonDecode WireModel WireDecode.
From S2P Require Import Publication ServingFences AgentState AgentHost AgentTransaction Agent.
From coqutil Require Import Datatypes.RecordSettersUsingExistingGetters.

Section start.
Context `{GoRuntime} `{MiekgDNS} (cfg : Config) (K : Host).
Context (render : RenderConfig → ServingSnapshot → gset gostring → publications → option Files).
Context (errorText : AgentError → gostring).
Context (refresh : DNSDistRenderConfig → gostring → option gostring).

(** * The bootstrap cut *)

Record bootstrapCut := {
  bc_chunks : gmap gostring (list PublicationChunk);
  bc_manifests : list PublicationManifest;
  bc_manifestByZone : gmap gostring PublicationManifest;
  bc_serving : list (ServingSnapshot * Envelope);
}.
Definition emptyCut : bootstrapCut :=
  {| bc_chunks := ∅; bc_manifests := []; bc_manifestByZone := ∅; bc_serving := [] |}.

Definition wire {A} (r : result WireError A) : result AgentError A :=
  match r with Ok a => Ok a | Err e => Err (EWire e) end.
Definition decoded {A} (d : decoder A) (zero : A) (env : Envelope) : result AgentError A :=
  match e_Payload env with
  | Encoded j => match d zero j with Some a => Ok a | None => Err EDecode end
  | NotJson _ => Err EDecode
  end.

(** One envelope of the listing. *)
Definition readChunk (cut : bootstrapCut) (env : Envelope) : result AgentError bootstrapCut :=
  c ← decoded dChunk zeroChunk env;
  _ ← wire (PublicationChunk_Validate c);
  _ ← refuse (bool_decide (pc_ZoneUID c ≠ e_ResourceUID env) || negb (pc_WriterEpoch c =? e_Epoch env)%Z
              || negb (pc_Revision c =? e_Revision env)%Z) (EBootstrap BChunkIdentity);
  Ok (cut <| bc_chunks := <[pc_ManifestUID c := default [] (bc_chunks cut !! pc_ManifestUID c) ++ [c]]> (bc_chunks cut) |>).
Definition readManifest (cut : bootstrapCut) (env : Envelope) : result AgentError bootstrapCut :=
  m ← decoded dManifest zeroManifest env;
  _ ← wire (PublicationManifest_Validate m);
  _ ← refuse (bool_decide (pm_ZoneUID m ≠ e_ResourceUID env) || negb (pm_WriterEpoch m =? e_Epoch env)%Z
              || negb (pm_Revision m =? e_Revision env)%Z) (EBootstrap BManifestIdentity);
  let newer := match bc_manifestByZone cut !! pm_ZoneUID m with
               | Some old => (0 <? Compare (pm_WriterEpoch m) (pm_Revision m) (pm_WriterEpoch old) (pm_Revision old))%Z
               | None => true
               end in
  Ok (cut <| bc_manifests := bc_manifests cut ++ [m] |>
          <| bc_manifestByZone := if newer then <[pm_ZoneUID m := m]> (bc_manifestByZone cut)
                                  else bc_manifestByZone cut |>).
Definition readServing (cut : bootstrapCut) (env : Envelope) : result AgentError bootstrapCut :=
  s ← decoded dSnapshot zeroSnapshot env;
  _ ← wire (ServingSnapshot_Validate s);
  _ ← refuse (bool_decide (s_Region s ≠ e_Region env) || bool_decide (s_Shard s ≠ e_Shard env)
              || negb (s_ConfigurationEpoch s =? e_Epoch env)%Z || negb (s_ConfigurationRevision s =? e_Revision env)%Z)
        (EBootstrap BServingIdentity);
  Ok (cut <| bc_serving := bc_serving cut ++ [(s, env)] |>).
Definition readBootstrap (region shard : gostring) (cut : bootstrapCut) (env : Envelope) :
    result AgentError bootstrapCut :=
  _ ← wire (Envelope_Validate env);
  _ ← refuse (bool_decide (e_Region env ≠ region) || bool_decide (e_Shard env ≠ shard)) (EBootstrap BForeign);
  if decide (e_Kind env = KindPublicationChunk) then readChunk cut env
  else if decide (e_Kind env = KindPublicationManifest) then readManifest cut env
  else if decide (e_Kind env = KindServingSnapshot) then readServing cut env
  else Err (EBootstrap BKind).

(** The newest snapshot, the first of equals. *)
Definition compareServing (a b : ServingSnapshot * Envelope) : Z :=
  Compare (e_Epoch a.2) (e_Revision a.2) (e_Epoch b.2) (e_Revision b.2).
Definition newestServing (first : ServingSnapshot * Envelope) (rest : list (ServingSnapshot * Envelope)) :
    ServingSnapshot * Envelope :=
  foldl (λ best candidate, if (0 <? compareServing candidate best)%Z then candidate else best) first rest.

(** Every zone that is to answer has a publication as new as required. *)
Definition attachedZones (s : ServingSnapshot) : list ZoneAttachment :=
  filter (λ b, b_Tombstone b = false ∧ b_ConfigurationPending b = false) (elems (s_Bindings s)) ≫= λ b,
    filter (λ z, za_Pending z = false) (elems (b_Zones b)).
Definition checkAttached (byZone : gmap gostring PublicationManifest) (z : ZoneAttachment) : result AgentError unit :=
  match byZone !! za_ZoneUID z with
  | Some m => refuse (negb (meets {| f_Epoch := pm_WriterEpoch m; f_Revision := pm_Revision m |} z))
                (EBootstrap (BNoPublication (za_ZoneUID z)))
  | None => Err (EBootstrap (BNoPublication (za_ZoneUID z)))
  end.

(** What of the listing is kept: the manifests and the chunks they are made of. *)
Definition keepBootstrap (manifests : gset gostring) (env : Envelope) : bool :=
  if decide (e_Kind env = KindServingSnapshot) then false
  else if decide (e_Kind env = KindPublicationChunk) then
    match decoded dChunk zeroChunk env with
    | Ok c => bool_decide (pc_ManifestUID c ∈ manifests)
    | Err _ => false
    end
  else true.

Definition verifyBootstrap (envs : list Envelope) (region shard : gostring) : result AgentError (list Envelope) :=
  cut ← result_fold (readBootstrap region shard) emptyCut envs;
  match bc_serving cut with
  | [] => Err (EBootstrap BNoServing)
  | first :: rest =>
      let serving := newestServing first rest in
      _ ← refuse (existsb (λ candidate, (compareServing candidate serving =? 0)%Z
                    && negb (equalJSON (ServingSnapshot_marshal candidate.1) (ServingSnapshot_marshal serving.1)))
                    (bc_serving cut)) (EBootstrap BConflict);
      _ ← result_iter (λ m, (λ _, tt) <$> wire (VerifyManifest m (default [] (bc_chunks cut !! pm_ManifestUID m))))
            (bc_manifests cut);
      _ ← result_iter (checkAttached (bc_manifestByZone cut)) (attachedZones serving.1);
      let manifests : gset gostring := list_to_set (pm_ManifestUID <$> bc_manifests cut) in
      Ok (filter (λ env, keepBootstrap manifests env = true) envs ++ [serving.2])
  end.

Definition bootstrapOrder (kind : gostring) : Z :=
  if decide (kind = KindPublicationChunk) then 0
  else if decide (kind = KindServingSnapshot) then 1 else 2.
Definition sortBootstrap (envs : list Envelope) : list Envelope :=
  SliceStable (λ a b, (bootstrapOrder (e_Kind a) <? bootstrapOrder (e_Kind b))%Z) envs.

(** [SnapshotBootstrap.Load]: list until the cut is consistent, a few times. *)
Fixpoint loadAttempts (attempts : nat) (last : AgentError) : M (result AgentError (list Envelope)) :=
  match attempts with
  | O => mret (Err last)
  | S attempts' =>
      listed ← tryGet K (EvList (SnapshotPrefix (cfg_Region cfg) (cfg_Shard cfg))) (h_list K);
      match (listed : result AgentError (list Envelope)) ≫= λ envs, verifyBootstrap envs (cfg_Region cfg) (cfg_Shard cfg) with
      | Ok envs => mret (Ok (sortBootstrap envs))
      | Err e =>
          if decide (attempts' = 0) then mret (Err e)
          else
            cancelled ← ctxErr K;
            match (cancelled : option AgentError) with
            | Some e => mret (Err e)
            | None => loadAttempts attempts' e
            end
      end
  end.
Definition LoadBootstrap (attempts : Z) : M (result AgentError (list Envelope)) :=
  loadAttempts (Z.to_nat (if (attempts <=? 0)%Z then 4 else attempts)) (EBootstrap BConfiguration).

(** [loadBootstrap].  The agent's lock is released between the parts. *)
Definition beginBootstrap : M unit := modify (λ a, a <| a_bootstrapInProgress := true |>).
Definition endBootstrap : M unit := modify (λ a, a <| a_bootstrapInProgress := false |>).
Definition completeBootstrap : M (option AgentError) :=
  c ← state;
  match ck_Snapshot c with
  | None => fail (EBootstrap BNoSnapshot)
  | Some _ => _ ← modify (λ a, a <| a_bootstrapComplete := true |>); ok
  end.
Definition loadBootstrap (attempts : Z) : M (option AgentError) :=
  withResult (LoadBootstrap attempts) fail (λ envs,
  match verifyBootstrap envs (cfg_Region cfg) (cfg_Shard cfg) with
  | Err e => fail e
  | Ok envs =>
      _ ← beginBootstrap;
      err ← (check each (Handle cfg K render errorText) (sortBootstrap envs);
             completeBootstrap);
      _ ← endBootstrap;
      mret err
  end).

(** * The approved configuration *)

Definition refreshRouters : list DNSDistRenderConfig :=
  let r := cfg_Render cfg in
  filter (λ router, dd_Backends router ≠ [])
    ((if decide (rc_Role r = RenderBoth ∨ rc_Role r = RenderNode) then [rc_NodeDNSDist r] else [])
     ++ (if decide (rc_Role r = RenderBoth ∨ rc_Role r = RenderCluster ∨ rc_Role r = RenderRegionalDNSDist)
         then [rc_ClusterDNSDist r] else [])).
Definition refreshRouter (router : DNSDistRenderConfig) : M (option AgentError) :=
  c ← state;
  match ck_Active c with
  | None => ok
  | Some active =>
      match av_Files active !! dd_Path router with
      | None => ok
      | Some retained =>
          match refresh router retained with
          | None => fail ERender
          | Some current =>
              _ ← modifyState (λ c, c <| ck_Active :=
                    Some (active <| av_Files := <[dd_Path router := current]> (av_Files active) |>) |>);
              ok
          end
      end
  end.
Definition refreshActiveDNSDist : M (option AgentError) := each refreshRouter refreshRouters.

(** [restoreActive]: running daemons stay when what is installed is what was approved. *)
Definition reinstall (files : Files) : M (option AgentError) :=
  _ ← modify (λ a, a <| a_needsActivation := true |>);
  check ApplyForce cfg K files;
  _ ← modifyState (λ c, c <| ck_RenderedHash := hashFiles files |>);
  check Save cfg K;
  check commitActivation K;
  _ ← modify (λ a, a <| a_needsActivation := false |>);
  ok.
Definition keepDaemons (files : Files) : M (option AgentError) :=
  _ ← modify (λ a, a <| a_needsActivation := false |>);
  c ← state;
  if decide (ck_RenderedHash c = hashFiles files) then ok
  else _ ← modifyState (λ c, c <| ck_RenderedHash := hashFiles files |>); Save cfg K.
Definition restoreActive : M (option AgentError) :=
  c ← state;
  if negb (canRetainActive cfg c) then failClosed cfg K
  else
    check refreshActiveDNSDist;
    c ← state;
    match ck_Active c with
    | None => ok
    | Some active =>
        let files := av_Files active in
        pending ← activationPending cfg K;
        same ← (if (pending : bool) then mret false else installedFilesMatch K files);
        if (same : bool) then
          answered ← try K EvDaemons;
          match (answered : option AgentError) with
          | None => keepDaemons files
          | Some _ => check ctxErr K; reinstall files
          end
        else reinstall files
    end.

(** The first part of [Start]: a configuration that was restored serves for a bounded time. *)
Definition startRestore : M unit :=
  _ ← restoreActive;
  a ← gets id;
  if bool_decide (is_Some (ck_Active (a_state a))) && negb (a_needsActivation a)
  then now ← Now K; modify (λ a, a <| a_restoredAt := now |>)
  else mret tt.

(** * A new process *)

(** [NewAgent], from the checkpoint on disk. *)
Definition newAgent (c : checkpoint) : Agent := {|
  a_state := c; a_needsActivation := false; a_lastServingAck := ∅; a_lastPublicationAck := ∅;
  a_installedPublications := ∅; a_verifiedPaths := ∅; a_verifiedRestarts := 0; a_restoredAt := zeroTime;
  a_bootstrapComplete := false; a_bootstrapInProgress := false; a_checkpointWithdrawn := false;
  a_lock := None; a_restarts := 0 |}.
Definition NewAgent (file : option checkpoint) : result CheckpointError Agent := newAgent <$> Load file.
End start.
