(* ===== verification/AgentLogic.v ===== *)
(** Reasoning about the agent's operations.

    [hoare P m Q]: run where [P] holds, [m] ends where [Q] holds of its result.  [stable P m]:
    [m] keeps [P].  The second part shows once for every operation that works on the state a
    replica has accepted, without changing it, that it keeps what is said of the accepted
    state alone. *)

From S2P Require Import Prelude GoStrings GoCrypto GoJson GoJsonDecode WireModel WireDecode.
From S2P Require Import Publication ServingFences AgentState AgentHost AgentTransaction Agent.
From coqutil Require Import Datatypes.RecordSettersUsingExistingGetters.

Abbreviation assertion := (World → Prop).

(** Fields of a record with some fields set. *)
Ltac fields := cbn [set RecordSettersUsingExistingGetters.const w_agent w_machine w_trace a_state a_needsActivation
  a_bootstrapComplete a_bootstrapInProgress a_installedPublications a_verifiedPaths a_lastPublicationAck
  a_lastServingAck a_lock a_restarts
  mc_files mc_checkpoint mc_marker ck_Active ck_Withdrawing ck_FormatVersion ck_ServingFence ck_Snapshot ck_Publications
  ck_Chunks ck_Acks ck_BindingFences ck_ContributionFences ck_RenderedHash ck_UpdatedAt p_Fence p_Manifest p_Plan
  p_LocalRevision p_EffectiveHash p_Verified p_WithdrawnAt p_Retired fst snd];
  unfold RecordSettersUsingExistingGetters.const.

Definition hoare {A} (P : assertion) (m : M A) (Q : A → assertion) : Prop := ∀ w, P w → Q (m w).1 (m w).2.
Definition stable {A} (P : assertion) (m : M A) : Prop := hoare P m (λ _, P).

Section rules.
Context {A B : Type}.
Implicit Types (P : assertion) (m : M A).

Lemma hoare_bind P m (f : A → M B) (Q : A → assertion) (R : B → assertion) :
  hoare P m Q → (∀ a, hoare (Q a) (f a) R) → hoare P (m ≫= f) R.
Proof.
  intros Hm Hf w HP. specialize (Hm w HP). unfold mbind, M_bind. destruct (m w) as [a w']. by apply Hf.
Qed.
Lemma hoare_weaken P P' m (Q Q' : A → assertion) :
  hoare P' m Q' → (∀ w, P w → P' w) → (∀ a w, Q' a w → Q a w) → hoare P m Q.
Proof. intros Hm HP HQ w Hw. auto. Qed.
(** A fact that follows from the precondition. *)
Lemma hoare_know (φ : Prop) P m (Q : A → assertion) : (∀ w, P w → φ) → (φ → hoare P m Q) → hoare P m Q.
Proof. intros Hφ Hm w HP. apply Hm; eauto. Qed.

(** Reading the state: what follows knows the value read. *)
Lemma hoare_gets {C} P (f : Agent → C) (k : C → M A) (Q : A → assertion) :
  (∀ x, hoare (λ w, P w ∧ f (w_agent w) = x) (k x) Q) → hoare P (gets f ≫= k) Q.
Proof. intros Hk w HP. unfold mbind, M_bind, gets. by apply Hk. Qed.
Lemma hoare_state P (k : checkpoint → M A) (Q : A → assertion) :
  (∀ c, hoare (λ w, P w ∧ a_state (w_agent w) = c) (k c) Q) → hoare P (state ≫= k) Q.
Proof. apply hoare_gets. Qed.

(** *** Stability *)

Lemma stable_ret P (a : A) : stable P (mret a).
Proof. by intros w. Qed.
Lemma stable_bind P m (f : A → M B) : stable P m → (∀ a, stable P (f a)) → stable P (m ≫= f).
Proof. apply hoare_bind. Qed.
End rules.

Lemma stable_withResult {E A B} P (m : M (result E A)) (e : E → M B) (k : A → M B) :
  stable P m → (∀ x, stable P (e x)) → (∀ x, stable P (k x)) → stable P (withResult m e k).
Proof. intros. apply stable_bind; [done|]. intros []; auto. Qed.
Lemma stable_gets {A C} P (f : Agent → C) (k : C → M A) : (∀ x, stable P (k x)) → stable P (gets f ≫= k).
Proof. intros Hk w HP. unfold mbind, M_bind, gets. by apply Hk. Qed.

Lemma stable_orReturn P m k : stable P m → stable P k → stable P (orReturn m k).
Proof. intros. apply stable_bind; [done|]. intros []; [apply stable_ret|done]. Qed.
Lemma stable_each {A} P (f : A → M (option AgentError)) l : (∀ x, stable P (f x)) → stable P (each f l).
Proof. intros Hf. induction l; [apply stable_ret|]. by apply stable_orReturn. Qed.
Lemma stable_each_in {A} P (f : A → M (option AgentError)) l :
  (∀ x, x ∈ l → stable P (f x)) → stable P (each f l).
Proof.
  induction l as [|x l IH]; intros Hf; [apply stable_ret|].
  apply stable_orReturn; [apply Hf|apply IH; intros y Hy; apply Hf]; apply elem_of_cons; auto.
Qed.

Create HintDb agent discriminated.
#[export] Hint Resolve stable_ret : agent.

(** Through an operation, one call or one branch at a time. *)
Ltac agent_step :=
  lazymatch goal with
  | |- hoare _ ?m (λ _, ?Q) => change (stable Q m)
  | |- stable _ (orReturn _ _) => apply stable_orReturn
  | |- stable _ (withResult _ _ _) => apply stable_withResult
  | |- stable _ (each _ _) => apply stable_each
  | |- stable _ (gets _ ≫= _) => apply stable_gets
  | |- stable _ (state ≫= _) => apply stable_gets
  | |- stable _ (_ ≫= _) => apply stable_bind
  | |- stable _ (match ?x with _ => _ end) => destruct x
  | |- stable _ (if ?x then _ else _) => destruct x
  | |- ∀ _, _ => intros ?
  | |- stable _ (let _ := _ in _) => cbn zeta
  | |- stable _ _ => solve [eauto with agent nocore]
  end.
Ltac agent_steps := repeat agent_step.

(** * The accepted state

    What was accepted of the stream, without what the replica makes of it: the approved
    configuration, the acknowledgements of the members and the hash of the files. *)

Definition core (c : checkpoint) : checkpoint :=
  c <| ck_Active := None |> <| ck_Withdrawing := None |> <| ck_Acks := ∅ |> <| ck_RenderedHash := [] |>
    <| ck_UpdatedAt := zeroTime |>.

(** The checkpoints that were renamed into place, in order. *)
Definition renamed (ev : event) : option checkpoint :=
  match ev with EvRenameCheckpoint c => Some c | _ => None end.
Definition written (tr : list event) : list checkpoint := omap renamed tr.

Lemma written_quiet tr ev : renamed ev = None → written (tr ++ [ev]) = written tr.
Proof. intros E. unfold written. rewrite omap_app. cbn. by rewrite E, app_nil_r. Qed.
Lemma written_rename tr c : written (tr ++ [EvRenameCheckpoint c]) = written tr ++ [c].
Proof. unfold written. by rewrite omap_app. Qed.

(** A property of the accepted state, of the checkpoint on disk and of those written so far,
    that pruning and saving keep. *)
Record persistent `{GoRuntime} (I : checkpoint → option checkpoint → list checkpoint → Prop) : Prop := {
  ps_core : ∀ c c' d l, core c = core c' → I c d l → I c' d l;
  ps_prune : ∀ c d l, I c d l → I (pruneSupersededChunks c) d l;
  ps_write : ∀ c d l t, I c d l → I c d (l ++ [c <| ck_UpdatedAt := t |>]);
  ps_save : ∀ c d l t, I c d l → I c (Some (c <| ck_UpdatedAt := t |>)) (l ++ [c <| ck_UpdatedAt := t |>]);
}.

Section accepted.
Context `{GoRuntime} `{MiekgDNS} (cfg : Config) (K : Host).
Context (render : RenderConfig → ServingSnapshot → gset gostring → publications → option Files).
Context (errorText : AgentError → gostring).
Context (I : checkpoint → option checkpoint → list checkpoint → Prop) (HI : persistent I).

Definition accepted : assertion := λ w,
  I (a_state (w_agent w)) (mc_checkpoint (w_machine w)) (written (w_trace w)).
Abbreviation keeps m := (stable accepted m).

Lemma keeps_ask {A} ev (f : list event → A) : renamed ev = None → keeps (ask ev f).
Proof. intros E w Hw. unfold accepted, ask in *. cbn [snd]. fields. by rewrite written_quiet. Qed.
Lemma keeps_try ev : renamed ev = None → keeps (try K ev).
Proof. intros E. apply stable_bind; [by apply keeps_ask|]. intros; apply stable_ret. Qed.
Lemma keeps_Now : keeps (Now K).
Proof. by apply keeps_ask. Qed.
Lemma keeps_ctxErr : keeps (ctxErr K).
Proof. apply stable_bind; [by apply keeps_ask|]. intros; apply stable_ret. Qed.
Lemma keeps_tryGet {A} ev (f : list event → A) : renamed ev = None → keeps (tryGet K ev f).
Proof. apply keeps_ask. Qed.
Lemma keeps_machine : keeps machine.
Proof. by intros w. Qed.
Lemma keeps_gets {A} (f : Agent → A) : keeps (gets f).
Proof. by intros w. Qed.
Lemma keeps_modify f : (∀ a, core (a_state (f a)) = core (a_state a)) → keeps (modify f).
Proof. intros Hf w Hw. unfold accepted in *. cbn. eapply ps_core; [done| |exact Hw]. by rewrite Hf. Qed.
Lemma keeps_modifyState f : (∀ c, core (f c) = core c) → keeps (modifyState f).
Proof. intros Hf. apply keeps_modify. intros a. apply Hf. Qed.
Lemma keeps_modifyMachine f : (∀ m, mc_checkpoint (f m) = mc_checkpoint m) → keeps (modifyMachine f).
Proof. intros Hf w Hw. unfold accepted in *. cbn. by rewrite Hf. Qed.

Lemma keeps_ok : keeps ok. Proof. apply stable_ret. Qed.
Lemma keeps_fail e : keeps (fail e). Proof. apply stable_ret. Qed.

Local Hint Resolve keeps_Now keeps_ctxErr keeps_machine keeps_gets keeps_ok keeps_fail : agent.
Local Hint Extern 1 (stable _ (ask _ _)) => (apply keeps_ask; reflexivity) : agent.
Local Hint Extern 1 (stable _ (try _ _)) => (apply keeps_try; reflexivity) : agent.
Local Hint Extern 1 (stable _ (tryGet _ _ _)) => (apply keeps_tryGet; reflexivity) : agent.
Local Hint Extern 1 (stable _ (modify _)) => (apply keeps_modify; intros ?; reflexivity) : agent.
Local Hint Extern 1 (stable _ (modifyState _)) => (apply keeps_modifyState; intros ?; reflexivity) : agent.
Local Hint Extern 1 (stable _ (modifyMachine _)) => (apply keeps_modifyMachine; intros ?; reflexivity) : agent.

(** The transaction. *)
Lemma keeps_writeActivation phase : keeps (writeActivation cfg K phase).
Proof. unfold writeActivation. agent_steps. Qed.
Local Hint Resolve keeps_writeActivation : agent.
Lemma keeps_beginPhase phase : keeps (beginPhase cfg K phase).
Proof. unfold beginPhase. agent_steps. Qed.
Local Hint Resolve keeps_beginPhase : agent.
Lemma keeps_filesInstalled : keeps (filesInstalled cfg K).
Proof. unfold filesInstalled. agent_steps. Qed.
Lemma keeps_abandonActivation : keeps (abandonActivation K).
Proof. unfold abandonActivation. agent_steps. Qed.
Local Hint Resolve keeps_filesInstalled keeps_abandonActivation : agent.
Lemma keeps_commitActivation : keeps (commitActivation K).
Proof. unfold commitActivation. agent_steps. Qed.
Lemma keeps_commands p cs stage changed : keeps (commandsForChanges K p cs stage changed).
Proof. unfold commandsForChanges. agent_steps. Qed.
Local Hint Resolve keeps_commitActivation keeps_commands : agent.
Lemma keeps_stopDaemons : keeps (stopDaemons cfg K).
Proof. apply keeps_commands. Qed.
Lemma keeps_syncDirs paths : keeps (syncDirs K paths).
Proof. unfold syncDirs. agent_steps. Qed.
Lemma keeps_putFile path data : keeps (putFile path data).
Proof. unfold putFile. agent_steps. Qed.
Lemma keeps_dropFile path : keeps (dropFile path).
Proof. unfold dropFile. agent_steps. Qed.
Local Hint Resolve keeps_stopDaemons keeps_syncDirs keeps_putFile keeps_dropFile : agent.
Lemma keeps_aftermath {A} (f : list event → A) : keeps (aftermath f).
Proof. by intros w. Qed.
Local Hint Resolve keeps_aftermath : agent.
Lemma keeps_writeDurable path data : keeps (writeDurable K path data).
Proof. unfold writeDurable. agent_steps. Qed.
Lemma keeps_rename from to : keeps (rename K from to).
Proof. unfold rename. agent_steps. Qed.
Lemma keeps_removeAll dir : keeps (removeAll K dir).
Proof. unfold removeAll. agent_steps. Qed.
Local Hint Resolve keeps_writeDurable keeps_rename keeps_removeAll : agent.
Lemma keeps_restoreFiles old paths : keeps (restoreFiles K old paths).
Proof.
  induction paths as [|path paths IH]; cbn [restoreFiles]; unfold restoreFile; agent_steps.
Qed.
Lemma keeps_readOld paths old : keeps (readOld K paths old).
Proof. revert old. induction paths as [|path paths IH]; intros old; cbn [readOld]; agent_steps. Qed.
Local Hint Resolve keeps_restoreFiles keeps_readOld : agent.
Lemma keeps_stageFiles files stage : keeps (stageFiles K files stage).
Proof. unfold stageFiles, writeStage. agent_steps. Qed.
Lemma keeps_installFiles files stage paths done : keeps (installFiles K files stage paths done).
Proof.
  revert done. induction paths as [|path paths IH]; intros done; cbn [installFiles]; unfold installFile;
    agent_steps.
Qed.
Local Hint Resolve keeps_stageFiles keeps_installFiles : agent.
Lemma keeps_rollBack paths old e : keeps (rollBack cfg K paths old e).
Proof. unfold rollBack, beginActivation. agent_steps. Qed.
Local Hint Resolve keeps_rollBack : agent.
Lemma keeps_apply files force : keeps (apply cfg K files force).
Proof. unfold apply, applyIn, activateFiles, beginActivation. agent_steps. Qed.
Local Hint Resolve keeps_apply : agent.

(** The checkpoint. *)
Lemma keeps_Save : keeps (Save cfg K).
Proof.
  unfold Save. apply stable_gets. intros c0. destruct (negb _); [apply keeps_fail|].
  apply stable_bind.
  { intros w Hw. unfold accepted in *. by apply ps_prune. }
  intros _. apply hoare_state. intros c.
  set (R := λ w, accepted w ∧ a_state (w_agent w) = c).
  assert (∀ A ev (f : list event → A), renamed ev = None → stable R (ask ev f)) as Hask.
  { intros A ev f E w [Hw Hc]. split; [by apply keeps_ask|done]. }
  apply (hoare_bind _ _ _ (λ _, R)); [by apply Hask|]. intros now.
  do 2 (eapply (hoare_bind _ _ _ (λ _, R));
        [apply stable_bind; [by apply Hask|intros; apply stable_ret]|]; intros [e|]; [by intros w []|]).
  eapply (hoare_bind _ _ _ (λ _ w, R w ∧ I c (Some (c <| ck_UpdatedAt := now |>)) (written (w_trace w)))).
  { intros w [Hw Hc]. unfold try, mbind, M_bind, ask, mret, M_ret. cbn [snd]. unfold R, accepted in *. fields.
    rewrite written_rename, Hc in *. split; [split; [|done]|].
    - exact (ps_write _ HI _ _ _ now Hw).
    - exact (ps_save _ HI _ _ _ now Hw). }
  intros [e|]; [by intros w [[] _]|].
  eapply (hoare_bind _ _ _ (λ _, accepted)); [|intros _; by apply keeps_try].
  intros w [[Hw Hc] HS]. unfold accepted, modifyMachine in *. cbn [snd]. fields. by rewrite Hc.
Qed.
Local Hint Resolve keeps_Save : agent.

(** Gating, verification and acknowledgements. *)
Lemma keeps_failClosed : keeps (failClosed cfg K).
Proof. unfold failClosed, beginGate. agent_steps. Qed.
Local Hint Resolve keeps_failClosed : agent.
Lemma keeps_gateRejectedUpdate e : keeps (gateRejectedUpdate cfg K e).
Proof. unfold gateRejectedUpdate. agent_steps. Qed.
Lemma keeps_withdrawApproval : keeps withdrawApproval.
Proof. unfold withdrawApproval. agent_steps. Qed.
Local Hint Resolve keeps_gateRejectedUpdate keeps_withdrawApproval : agent.
Lemma keeps_approveConfiguration files : keeps (approveConfiguration cfg K files).
Proof. unfold approveConfiguration. agent_steps. Qed.
Lemma keeps_verifyPublication p : keeps (verifyPublication cfg K p).
Proof. unfold verifyPublication. agent_steps. Qed.
Lemma keeps_verifyAppliedConfiguration : keeps (verifyAppliedConfiguration cfg K).
Proof. unfold verifyAppliedConfiguration, appliedPublicationError. agent_steps. Qed.
Lemma keeps_verifyResolverBindings bs active : keeps (verifyResolverBindings cfg K bs active).
Proof.
  unfold verifyResolverBindings. agent_steps. apply keeps_modify. intros a. by destruct (_ =? _)%Z.
Qed.
Lemma keeps_emitAck kind uid epoch revision phase message :
  keeps (emitAck cfg K kind uid epoch revision phase message).
Proof. unfold emitAck. agent_steps. Qed.
Local Hint Resolve keeps_approveConfiguration keeps_verifyPublication keeps_verifyAppliedConfiguration
  keeps_verifyResolverBindings keeps_emitAck : agent.
Lemma keeps_emitVerifiedPublicationAck uid epoch revision :
  keeps (emitVerifiedPublicationAck cfg K uid epoch revision).
Proof. unfold emitVerifiedPublicationAck. agent_steps. Qed.
Lemma keeps_emitServingAck b phase : keeps (emitServingAck cfg K b phase).
Proof. unfold emitServingAck. agent_steps. Qed.
Lemma keeps_sendAcks now due : keeps (sendAcks cfg K now due).
Proof. induction due as [|[uid p] due IH]; cbn [sendAcks]; agent_steps. Qed.
Local Hint Resolve keeps_emitVerifiedPublicationAck keeps_emitServingAck keeps_sendAcks : agent.
Lemma keeps_heartbeatPublications : keeps (heartbeatPublications cfg K errorText).
Proof. unfold heartbeatPublications. agent_steps. Qed.
Local Hint Resolve keeps_heartbeatPublications : agent.
Lemma keeps_finishEvent : keeps (finishEvent cfg K errorText).
Proof. unfold finishEvent. agent_steps. Qed.
Local Hint Resolve keeps_finishEvent : agent.

(** Reconciliation. *)
Lemma keeps_installRendered files : keeps (installRendered cfg K files).
Proof. unfold installRendered, Apply, ApplyForce, beginActivation. agent_steps. Qed.
Lemma keeps_verifyInstalled : keeps (verifyInstalled cfg K).
Proof. unfold verifyInstalled, noteInstalled. agent_steps. Qed.
Lemma keeps_installGated s active files : keeps (installGated cfg K render s active files).
Proof. unfold installGated, Apply. agent_steps. Qed.
Lemma keeps_ackBindings active bs : keeps (ackBindings cfg K active bs).
Proof. induction bs as [|b bs IH]; cbn [ackBindings]; agent_steps. Qed.
Local Hint Resolve keeps_installRendered keeps_verifyInstalled keeps_installGated keeps_ackBindings : agent.
Lemma keeps_approveInstalled s active files : keeps (approveInstalled cfg K s active files).
Proof. unfold approveInstalled. agent_steps. Qed.
Local Hint Resolve keeps_approveInstalled : agent.
Lemma keeps_reconcileDesired retained : keeps (reconcileDesired cfg K render retained).
Proof. unfold reconcileDesired. agent_steps. Qed.
Local Hint Resolve keeps_reconcileDesired : agent.
Lemma keeps_reconcileWithNodeRouting retained : keeps (reconcileWithNodeRouting cfg K render retained).
Proof. unfold reconcileWithNodeRouting. agent_steps. Qed.
Lemma keeps_filesMatch files : keeps (filesMatch K files).
Proof. induction files as [|[path data] files IH]; cbn [filesMatch]; agent_steps. Qed.
Local Hint Resolve keeps_reconcileWithNodeRouting keeps_filesMatch : agent.
Lemma keeps_installedFilesMatch files : keeps (installedFilesMatch K files).
Proof. unfold installedFilesMatch. agent_steps. Qed.
Lemma keeps_activationPending : keeps (activationPending cfg K).
Proof. unfold activationPending. agent_steps. Qed.
Local Hint Resolve keeps_installedFilesMatch keeps_activationPending : agent.
Lemma keeps_retainedNodeRouting : keeps (retainedNodeRouting cfg K render).
Proof. unfold retainedNodeRouting. agent_steps. Qed.
End accepted.

#[export] Hint Extern 1 (stable (accepted _) (ask _ _)) => (apply keeps_ask; reflexivity) : agent.
#[export] Hint Extern 1 (stable (accepted _) (try _ _)) => (apply keeps_try; reflexivity) : agent.
#[export] Hint Extern 1 (stable (accepted _) (tryGet _ _ _)) => (apply keeps_tryGet; reflexivity) : agent.
#[export] Hint Resolve keeps_Now keeps_ctxErr keeps_machine keeps_gets keeps_ok
  keeps_fail keeps_apply keeps_Save keeps_failClosed keeps_gateRejectedUpdate keeps_withdrawApproval
  keeps_verifyPublication keeps_verifyAppliedConfiguration keeps_emitAck keeps_emitVerifiedPublicationAck
  keeps_heartbeatPublications keeps_finishEvent keeps_reconcileWithNodeRouting keeps_retainedNodeRouting
  keeps_installedFilesMatch keeps_activationPending
  keeps_commitActivation : agent.
#[export] Hint Extern 1 (stable (accepted _) (modify _)) => (apply keeps_modify; [|intros ?; reflexivity]) : agent.
#[export] Hint Extern 1 (stable (accepted _) (modifyState _)) => (apply keeps_modifyState; [|intros ?; reflexivity]) : agent.
#[export] Hint Extern 1 (stable (accepted _) (modifyMachine _)) =>
  (apply keeps_modifyMachine; intros ?; reflexivity) : agent.
