(* ===== verification/AgentSafety.v ===== *)
(** What a serving replica holds, whatever it is sent, whatever fails and whenever its
    process ends.

    [replica_restarts]: a checkpoint it wrote can always be loaded again.
    [replica_forward]: what it accepted never goes back, over restarts too, and what a
    fence names stays.  [replica_holds]: every publication is put together from chunks and a
    manifest that were delivered. *)

From S2P Require Import Prelude GoStrings GoCrypto GoJson GoJsonDecode WireModel WireDecode.
From S2P Require Import Capacity SnapshotValid Publication ServingFences AgentState AgentHost AgentTransaction Agent AgentLogic.
From coqutil Require Import Datatypes.RecordSettersUsingExistingGetters.

(** * Order *)

Definition fence_leq (f f' : fence) : Prop :=
  (0 ≤ Compare (f_Epoch f') (f_Revision f') (f_Epoch f) (f_Revision f))%Z.

#[global] Instance fence_leq_preorder : PreOrder fence_leq.
Proof.
  split.
  - intros f. unfold fence_leq. by rewrite (proj2 (Compare_eq _ _ _ _)).
  - intros f1 f2 f3. unfold fence_leq, Compare. repeat case_match; lia.
Qed.
Lemma fence_leq_antisymm f f' : fence_leq f f' → fence_leq f' f → f = f'.
Proof.
  destruct f as [e r], f' as [e' r']. unfold fence_leq, Compare. cbn. intros.
  f_equal; repeat case_match; lia.
Qed.

(** The next state of a zone: a newer fence, or the same one for the same manifest. *)
Definition publication_le (p p' : publicationState) : Prop :=
  fence_leq (p_Fence p) (p_Fence p')
  ∧ (p_Fence p' = p_Fence p →
     encode (PublicationManifest_json (p_Manifest p')) = encode (PublicationManifest_json (p_Manifest p))).
#[global] Instance publication_le_preorder : PreOrder publication_le.
Proof.
  split; [intros p; by split|]. intros p1 p2 p3 [H12 E12] [H23 E23]. split; [by etrans|]. intros E.
  assert (p_Fence p2 = p_Fence p1) as E2 by (apply fence_leq_antisymm; [by rewrite <- E|done]).
  rewrite E23 by congruence. by apply E12.
Qed.

Lemma contribution_le_refl c : contribution_le c c.
Proof. split; [|done]. rewrite (proj2 (Compare_eq _ _ _ _)); [lia|done]. Qed.
Lemma contribution_le_trans c1 c2 c3 : contribution_le c1 c2 → contribution_le c2 c3 → contribution_le c1 c3.
Proof. intros [H1 R1] [H2 R2]. split; [|auto]. unfold Compare in *. repeat case_match; lia. Qed.

(** Nothing is forgotten and nothing goes back. *)
Record ck_le (c c' : checkpoint) : Prop := {
  le_serving : fence_leq (ck_ServingFence c) (ck_ServingFence c');
  le_snapshot : ∀ s s', ck_Snapshot c = Some s → ck_Snapshot c' = Some s' → ck_ServingFence c' = ck_ServingFence c →
    encode (ServingSnapshot_json s') = encode (ServingSnapshot_json s);
  le_kept : is_Some (ck_Snapshot c) → is_Some (ck_Snapshot c');
  le_publication : ∀ uid p, ck_Publications c !! uid = Some p →
    ∃ p', ck_Publications c' !! uid = Some p' ∧ publication_le p p';
  le_binding : ∀ uid f, ck_BindingFences c !! uid = Some f →
    ∃ f', ck_BindingFences c' !! uid = Some f' ∧ fence_le f f';
  le_contribution : ∀ uid f, ck_ContributionFences c !! uid = Some f →
    ∃ f', ck_ContributionFences c' !! uid = Some f' ∧ contribution_le f f';
}.

#[global] Instance ck_le_preorder : PreOrder ck_le.
Proof.
  split.
  - intros c. split; [done|congruence|done|..]; intros uid x Hx; exists x; (split; [done|]).
    + done.
    + done.
    + apply contribution_le_refl.
  - intros c1 c2 c3 H12 H23. split.
    + etrans; [exact (le_serving _ _ H12)|exact (le_serving _ _ H23)].
    + intros s1 s3 Hs1 Hs3 E. destruct (le_kept _ _ H12) as [s2 Hs2]; [by rewrite Hs1|].
      assert (ck_ServingFence c2 = ck_ServingFence c1) as E2.
      { apply fence_leq_antisymm; [|by apply le_serving]. rewrite <- E. by apply le_serving. }
      rewrite (le_snapshot _ _ H23 s2 s3) by congruence. by apply (le_snapshot _ _ H12).
    + intros Hs. eapply le_kept; [done|]. by eapply le_kept.
    + intros uid p Hp. destruct (le_publication _ _ H12 uid p Hp) as (p2 & Hp2 & L2).
      destruct (le_publication _ _ H23 uid p2 Hp2) as (p3 & Hp3 & L3). exists p3. split; [done|]. by etrans.
    + intros uid p Hp. destruct (le_binding _ _ H12 uid p Hp) as (p2 & Hp2 & L2).
      destruct (le_binding _ _ H23 uid p2 Hp2) as (p3 & Hp3 & L3). exists p3. split; [done|]. by etrans.
    + intros uid p Hp. destruct (le_contribution _ _ H12 uid p Hp) as (p2 & Hp2 & L2).
      destruct (le_contribution _ _ H23 uid p2 Hp2) as (p3 & Hp3 & L3). exists p3. split; [done|].
      by eapply contribution_le_trans.
Qed.

(** * What is held *)

Section safety.
Context `{GoRuntime} `{MiekgDNS}.

(** What an envelope carries, as the handlers read it. *)
Definition carriesManifest (env : Envelope) (m : PublicationManifest) : Prop :=
  e_Kind env = KindPublicationManifest ∧ (∃ j, e_Payload env = Encoded j ∧ dManifest zeroManifest j = Some m)
  ∧ PublicationManifest_Validate m = Ok tt
  ∧ e_ResourceUID env = pm_ZoneUID m ∧ e_Epoch env = pm_WriterEpoch m ∧ e_Revision env = pm_Revision m.
Definition carriesChunk (env : Envelope) (c : PublicationChunk) : Prop :=
  e_Kind env = KindPublicationChunk ∧ (∃ j, e_Payload env = Encoded j ∧ dChunk zeroChunk j = Some c)
  ∧ PublicationChunk_Validate c = Ok tt
  ∧ e_ResourceUID env = pc_ZoneUID c ∧ e_Epoch env = pc_WriterEpoch c ∧ e_Revision env = pc_Revision c.
Definition carriesSnapshot (env : Envelope) (s : ServingSnapshot) : Prop :=
  e_Kind env = KindServingSnapshot ∧ (∃ j, e_Payload env = Encoded j ∧ dSnapshot zeroSnapshot j = Some s)
  ∧ ServingSnapshot_Validate s = Ok tt
  ∧ e_Region env = s_Region s ∧ e_Shard env = s_Shard s
  ∧ e_Epoch env = s_ConfigurationEpoch s ∧ e_Revision env = s_ConfigurationRevision s.

(** The envelopes that were delivered. *)
Context (D : Envelope → Prop).

Definition manifestFence (m : PublicationManifest) : fence :=
  {| f_Epoch := pm_WriterEpoch m; f_Revision := pm_Revision m |}.

(** A plan put together from delivered chunks, as the manifest lists them. *)
Definition assembled (m : PublicationManifest) (plan : PublicationPlan) : Prop :=
  ∃ chunks payload, Forall (λ c, ∃ env, D env ∧ carriesChunk env c) chunks
    ∧ VerifyManifest m chunks = Ok payload ∧ Unmarshal dPlan zeroPlan payload = Some plan
    ∧ PublicationPlan_Validate plan = Ok tt ∧ pl_ZoneUID plan = pm_ZoneUID m
    ∧ AbsoluteName (pl_Apex plan) = AbsoluteName (pm_Apex m).

Record held (uid : gostring) (p : publicationState) : Prop := {
  hd_zone : pm_ZoneUID (p_Manifest p) = uid;
  hd_fence : p_Fence p = manifestFence (p_Manifest p);
  hd_delivered : ∃ env, D env ∧ carriesManifest env (p_Manifest p);
  hd_plan : pm_Tombstone (p_Manifest p) = false → assembled (p_Manifest p) (p_Plan p);
}.

Record good (c : checkpoint) : Prop := {
  g_format : ck_FormatVersion c = checkpointFormatVersion;
  g_fences : ∀ uid f, ck_BindingFences c !! uid = Some f → incompleteFence uid f = false;
  g_snapshot : ∀ s, ck_Snapshot c = Some s → (∃ env, D env ∧ carriesSnapshot env s)
    ∧ ck_ServingFence c = {| f_Epoch := s_ConfigurationEpoch s; f_Revision := s_ConfigurationRevision s |};
  g_bindings : ∀ s b, ck_Snapshot c = Some s → b ∈ elems (s_Bindings s) →
    ck_BindingFences c !! b_BindingUID b = Some (bindingFenceFor b);
  g_contribution : ∀ kv, ck_ContributionFences c !! kv.1 = Some kv.2 → checkContribution kv = Ok tt;
  g_publication : ∀ uid p, ck_Publications c !! uid = Some p → held uid p;
  g_chunk : ∀ m i cs c', ck_Chunks c !! m = Some cs → cs !! i = Some c' →
    (∃ env, D env ∧ carriesChunk env c') ∧ pc_ManifestUID c' = m ∧ chunkKey (pc_Index c') = i;
}.

Lemma result_iter_range {E V} (f : gostring * V → result E unit) (m : gmap gostring V) :
  (∀ k v, m !! k = Some v → f (k, v) = Ok tt) → result_iter f (map_range m) = Ok tt.
Proof.
  intros Hf. apply result_iter_Ok, Forall_forall. intros [k v]. rewrite map_range_perm, elem_of_map_to_list. apply Hf.
Qed.

Lemma equalJSON_refl j : equalJSON (Some j) (Some j) = true.
Proof. apply bool_decide_eq_true. done. Qed.

Lemma good_Load c : good c → Load (Some c) = Ok (pruneSupersededChunks c).
Proof.
  intros [Hf Hb Hs Hbs Hc Hp _]. unfold Load. rewrite Hf. cbn [negb Z.eqb refuse mbind result_bind].
  rewrite (result_iter_range (λ kv, refuse (incompleteFence kv.1 kv.2) (CBindingIncomplete kv.1)));
    [|intros uid f Hu; cbn [fst snd]; by rewrite (Hb _ _ Hu)].
  cbn [mbind result_bind]. rewrite (result_iter_range checkContribution) by (intros k v Hk; by apply Hc).
  rewrite (result_iter_range checkPublication).
  2:{ intros uid p Hu. unfold checkPublication. cbn [fst snd]. destruct (pm_Tombstone (p_Manifest p)) eqn:Ht; [done|].
      destruct (hd_plan _ _ (Hp _ _ Hu) Ht) as (? & ? & _ & _ & _ & -> & _). done. }
  change (ck_Snapshot (pruneSupersededChunks c)) with (ck_Snapshot c).
  destruct (ck_Snapshot c) as [s|]; [|reflexivity].
  rewrite (proj2 (result_iter_Ok _ _)).
  2:{ apply Forall_forall. intros b Hin. unfold checkBinding. rewrite (Hbs s b eq_refl Hin), equalJSON_refl. done. }
  cbn [mbind result_bind]. destruct (Hs s eq_refl) as [(env & _ & _ & _ & -> & _) _]. reflexivity.
Qed.

Lemma good_new : good newCheckpoint.
Proof. split; done. Qed.

(** ** The accepted state keeps it *)

Lemma good_core c c' : core c = core c' → good c → good c'.
Proof.
  intros E [Hf Hb Hs Hbs Hc Hp Hk].
  assert (ck_FormatVersion c' = ck_FormatVersion c) as E1 by exact (f_equal ck_FormatVersion (eq_sym E)).
  assert (ck_BindingFences c' = ck_BindingFences c) as E2 by exact (f_equal ck_BindingFences (eq_sym E)).
  assert (ck_Snapshot c' = ck_Snapshot c) as E3 by exact (f_equal ck_Snapshot (eq_sym E)).
  assert (ck_ServingFence c' = ck_ServingFence c) as E4 by exact (f_equal ck_ServingFence (eq_sym E)).
  assert (ck_ContributionFences c' = ck_ContributionFences c) as E5 by exact (f_equal ck_ContributionFences (eq_sym E)).
  assert (ck_Publications c' = ck_Publications c) as E6 by exact (f_equal ck_Publications (eq_sym E)).
  assert (ck_Chunks c' = ck_Chunks c) as E7 by exact (f_equal ck_Chunks (eq_sym E)).
  split; rewrite ?E1, ?E2, ?E3, ?E4, ?E5, ?E6, ?E7; done.
Qed.

Lemma ck_le_core c0 c c' : core c = core c' → ck_le c0 c → ck_le c0 c'.
Proof.
  intros E [Hs Hsn Hk Hp Hb Hc].
  assert (ck_BindingFences c' = ck_BindingFences c) as E2 by exact (f_equal ck_BindingFences (eq_sym E)).
  assert (ck_Snapshot c' = ck_Snapshot c) as E3 by exact (f_equal ck_Snapshot (eq_sym E)).
  assert (ck_ServingFence c' = ck_ServingFence c) as E4 by exact (f_equal ck_ServingFence (eq_sym E)).
  assert (ck_ContributionFences c' = ck_ContributionFences c) as E5 by exact (f_equal ck_ContributionFences (eq_sym E)).
  assert (ck_Publications c' = ck_Publications c) as E6 by exact (f_equal ck_Publications (eq_sym E)).
  split; rewrite ?E2, ?E3, ?E4, ?E5, ?E6; done.
Qed.

Lemma good_prune c : good c → good (pruneSupersededChunks c).
Proof.
  intros [Hf Hb Hs Hbs Hc Hp Hk]. split; try done. cbn. intros m i cs c' [Hcs _]%map_lookup_filter_Some. by apply Hk.
Qed.
Lemma ck_le_prune c0 c : ck_le c0 c → ck_le c0 (pruneSupersededChunks c).
Proof. intros []. by split. Qed.

(** A checkpoint written since one was [d0], below the state [c]. *)
Definition stored (d0 : option checkpoint) (c x : checkpoint) : Prop :=
  good x ∧ ck_le x c ∧ ∀ y, d0 = Some y → ck_le y x.

(** [c0] is the state, [d0] the checkpoint and [l0] what was written before, at an earlier
    moment. *)
Record since (c0 : checkpoint) (d0 : option checkpoint) (l0 : list checkpoint)
    (c : checkpoint) (d : option checkpoint) (l : list checkpoint) : Prop := {
  si_good : good c;
  si_le : ck_le c0 c;
  si_start : ∀ y, d0 = Some y → ck_le y c;
  si_written : ∃ l', l = l0 ++ l' ∧ Forall (stored d0 c) l' ∧ (d = d0 ∨ ∃ x, d = Some x ∧ x ∈ l');
}.

Lemma stored_le d0 c c' x : ck_le c c' → stored d0 c x → stored d0 c' x.
Proof. intros Hle (Hg & Hx & Hy). split; [done|]. split; [by etrans|done]. Qed.

Lemma since_change c0 d0 l0 c d l c' : since c0 d0 l0 c d l → ck_le c c' → good c' → since c0 d0 l0 c' d l.
Proof.
  intros [_ Hle Hst (l' & -> & Hl & Hd)] Hcc Hg. split; [done|by etrans|intros y Hy; etrans; [by apply Hst|done]|].
  exists l'. split_and!; [done| |done]. eapply Forall_impl; [done|]. intros x. by apply stored_le.
Qed.

Lemma ck_le_equiv c c' : core c = core c' → ck_le c c'.
Proof. intros E. by apply (ck_le_core _ c). Qed.

Lemma persistent_since c0 d0 l0 : persistent (since c0 d0 l0).
Proof.
  assert (∀ c d l t, since c0 d0 l0 c d l →
    ∃ l', l ++ [c <| ck_UpdatedAt := t |>] = l0 ++ l' ∧ Forall (stored d0 c) l'
          ∧ (d = d0 ∨ ∃ x, d = Some x ∧ x ∈ l') ∧ c <| ck_UpdatedAt := t |> ∈ l') as Hw.
  { intros c d l t [Hg Hle Hst (l' & -> & Hl & Hd)]. exists (l' ++ [c <| ck_UpdatedAt := t |>]). split_and!.
    - by rewrite app_assoc.
    - apply Forall_app. split; [done|]. apply Forall_singleton. split_and!; [by apply (good_core c)|by apply ck_le_equiv|].
      intros y Hy. etrans; [by apply Hst|by apply ck_le_equiv].
    - destruct Hd as [?|(x & ? & ?)]; [by left|]. right. exists x. split; [done|]. apply elem_of_app. by left.
    - apply elem_of_app. right. by apply list_elem_of_singleton. }
  split.
  - intros c c' d l E Hs. eapply since_change; [done|by apply ck_le_equiv|]. eapply good_core; [done|apply Hs].
  - intros c d l Hs. eapply since_change; [done|by apply ck_le_prune|]. apply good_prune, Hs.
  - intros c d l t Hs. destruct (Hw c d l t Hs) as (l' & Hl & Hf & Hd & _). destruct Hs. split; [done..|]. by exists l'.
  - intros c d l t Hs. destruct (Hw c d l t Hs) as (l' & Hl & Hf & _ & Hin). destruct Hs. split; [done..|]. exists l'.
    split_and!; [done..|]. right. by eexists.
Qed.
Hint Resolve persistent_since : agent.

(** ** Snapshots *)

Lemma Hash_nonempty s : Hash s ≠ [].
Proof. intros E. apply (f_equal length) in E. unfold Hash in E. by rewrite length_EncodeToString, length_Sum256 in E. Qed.

Lemma wf_Binding_fence b : SnapshotValid.wf_Binding b → incompleteFence (b_BindingUID b) (bindingFenceFor b) = false.
Proof.
  intros (Hu & _ & _ & Hg & Hr & _ & Hc). unfold validateConfiguration in Hc. rewrite refuse_bind in Hc.
  destruct Hc as [[[_ He]%orb_false_iff Hs]%orb_false_iff _]. unfold incompleteFence, bindingFenceFor.
  cbn [bf_Identity bf_ConfigurationGeneration bf_ConfigurationRevision bf_Version].
  rewrite He, Hs, (bool_decide_eq_false_2 (b_BindingUID b = [])), (bool_decide_eq_false_2 (bindingIdentity b = []))
    by (done || apply Hash_nonempty).
  cbn [orb]. rewrite !orb_false_r. apply orb_false_iff. split; by apply Z.eqb_neq.
Qed.

Lemma advance_lookup prior s next b :
  NoDup (b_BindingUID <$> elems (s_Bindings s)) → advanceBindingFences prior s = Ok next →
  b ∈ elems (s_Bindings s) → next !! b_BindingUID b = Some (bindingFenceFor b).
Proof.
  intros Hnd Hadv Hb. destruct (advanceBindings_le _ _ _ _ Hadv (b_BindingUID b)) as [-> _].
  assert (∀ x, x ∈ filter (λ x, b_BindingUID x = b_BindingUID b) (rev (elems (s_Bindings s))) → x = b) as Hone.
  { intros x [Hu Hx]%list_elem_of_filter. rewrite <- (Permutation_rev (elems _)) in Hx.
    apply list_elem_of_lookup in Hx as [i Hi], Hb as [j Hj].
    assert (i = j) as ->; [|congruence]. eapply (NoDup_lookup _ _ _ (b_BindingUID b) Hnd).
    - by rewrite list_lookup_fmap, Hi, <- Hu.
    - by rewrite list_lookup_fmap, Hj. }
  assert (b ∈ filter (λ x, b_BindingUID x = b_BindingUID b) (rev (elems (s_Bindings s)))) as Hin.
  { apply list_elem_of_filter. split; [done|]. by rewrite <- (Permutation_rev (elems _)). }
  destruct (filter _ _) as [|x l]; [by apply elem_of_nil in Hin|]. by rewrite (Hone x) by by left.
Qed.

Lemma advance_source prior s next uid f :
  advanceBindingFences prior s = Ok next → next !! uid = Some f →
  (∃ b, b ∈ elems (s_Bindings s) ∧ b_BindingUID b = uid ∧ f = bindingFenceFor b)
  ∨ ∃ old, prior !! uid = Some old ∧ f = withdrawn old.
Proof.
  intros Hadv Hf. destruct (advanceBindings_le _ _ _ _ Hadv uid) as [Hlook _]. rewrite Hf in Hlook.
  destruct (filter _ _) as [|b l] eqn:Hl.
  - right. rewrite lookup_fmap in Hlook. destruct (prior !! uid) as [old|]; cbn in Hlook; simplify_eq. by exists old.
  - left. assert (b ∈ filter (λ b, b_BindingUID b = uid) (rev (elems (s_Bindings s)))) as Hb by (rewrite Hl; by left).
    apply list_elem_of_filter in Hb as [Hu Hb]. rewrite <- (Permutation_rev (elems _)) in Hb. exists b. by simplify_eq.
Qed.

Definition snapshotFence (s : ServingSnapshot) : fence :=
  {| f_Epoch := s_ConfigurationEpoch s; f_Revision := s_ConfigurationRevision s |}.
Definition withSnapshot (s : ServingSnapshot) (bf : fences) (c : checkpoint) : checkpoint :=
  c <| ck_BindingFences := bf |> <| ck_ServingFence := snapshotFence s |> <| ck_Snapshot := Some s |>.

Lemma since_snapshot c0 d0 l0 c d l env s bf :
  since c0 d0 l0 c d l → D env → carriesSnapshot env s → fence_leq (ck_ServingFence c) (snapshotFence s) →
  (ck_ServingFence c = snapshotFence s → ck_Snapshot c = None) →
  advanceBindingFences (ck_BindingFences c) s = Ok bf → since c0 d0 l0 (withSnapshot s bf c) d l.
Proof.
  intros Hs Hd Henv Hle Hnew Hadv. pose proof (si_good _ _ _ _ _ _ Hs) as Hg. pose proof Henv as (_ & _ & Hval & _).
  apply Validate_wf in Hval as [_ [Hnd Heach _]].
  apply (since_change _ _ _ _ _ _ _ Hs).
  - split; try done.
    + unfold withSnapshot. fields. intros s1 s2 Hs1 [= <-] E. rewrite Hnew in Hs1 by done. done.
    + unfold withSnapshot. fields. intros uid p Hp. by exists p.
    + unfold withSnapshot. fields. intros uid f Hf. by eapply advance_step.
    + unfold withSnapshot. fields. intros uid f Hf. exists f. split; [done|]. apply contribution_le_refl.
  - destruct Hg as [Hf Hb Hsn Hbs Hc Hp Hk]. split; try done; unfold withSnapshot; fields.
    + intros uid f Hlook. destruct (advance_source _ _ _ _ _ Hadv Hlook) as [(b & Hin & <- & ->)|(old & Hold & ->)].
      * rewrite Forall_forall in Heach. apply wf_Binding_fence. by apply Heach.
      * by apply (Hb _ _ Hold).
    + intros s' [= <-]. split; [by exists env|done].
    + intros s' b [= <-] Hin. by eapply advance_lookup.
Qed.

(** ** Chunks and contributions *)

Lemma since_chunks c0 d0 l0 c d l chunks :
  since c0 d0 l0 c d l →
  (∀ m i cs c', chunks !! m = Some cs → cs !! i = Some c' →
    (∃ env, D env ∧ carriesChunk env c') ∧ pc_ManifestUID c' = m ∧ chunkKey (pc_Index c') = i) →
  since c0 d0 l0 (c <| ck_Chunks := chunks |>) d l.
Proof.
  intros Hs Hk. pose proof (si_good _ _ _ _ _ _ Hs) as [Hf Hb Hsn Hbs Hc Hp _].
  apply (since_change _ _ _ _ _ _ _ Hs); [|by split].
  apply (ck_le_core _ (c <| ck_Chunks := chunks |>)); [done|]. pose proof (reflexivity c : ck_le c c) as [].
  by split.
Qed.

Lemma observations_complete st st' os :
  result_fold validateObservation st os = Ok st' →
  Forall (λ o, of_ContributionUID o ≠ [] ∧ of_Generation o ≠ 0%Z ∧ of_Sequence o ≠ 0%Z) os.
Proof.
  revert st. induction os as [|o os IH]; intros st; [constructor|]. cbn [result_fold].
  destruct (validateObservation st o) as [st1|] eqn:Ho; [|done]. intros Hos. constructor; [|by eapply IH].
  destruct st as [m previous]. unfold validateObservation in Ho. rewrite !refuse_bind in Ho.
  destruct Ho as ([[Hne Hg]%orb_false_iff Hs]%orb_false_iff & _).
  apply bool_decide_eq_false in Hne. split_and!; [done|lia|lia].
Qed.

Lemma plan_observations plan :
  PublicationPlan_Validate plan = Ok tt →
  Forall (λ o, of_ContributionUID o ≠ [] ∧ of_Generation o ≠ 0%Z ∧ of_Sequence o ≠ 0%Z) (pl_ObservationFences plan).
Proof.
  unfold PublicationPlan_Validate. rewrite !refuse_bind.
  intros (_ & _ & (? & _ & ([m p] & Hos & _)%bind_Ok)%bind_Ok). by eapply observations_complete.
Qed.

Lemma commit_complete fs os :
  (∀ kv, fs !! kv.1 = Some kv.2 → checkContribution kv = Ok tt) →
  Forall (λ o, of_ContributionUID o ≠ [] ∧ of_Generation o ≠ 0%Z ∧ of_Sequence o ≠ 0%Z) os →
  ∀ kv, foldl commitContribution fs os !! kv.1 = Some kv.2 → checkContribution kv = Ok tt.
Proof.
  intros Hfs Hos. revert fs Hfs. induction Hos as [|o os (Hu & Hg & Hsq) _ IH]; intros fs Hfs; [done|].
  cbn [foldl]. apply IH. intros [uid f]. cbn [fst snd]. unfold commitContribution.
  destruct (_ || _); [|by apply (Hfs (uid, f))].
  intros [[<- <-]|[_ Hlook]]%lookup_insert_Some; [|by apply (Hfs (uid, f))]. unfold checkContribution.
  apply refuse_Ok. cbn [fst snd cf_Generation cf_Sequence]. rewrite bool_decide_eq_false_2 by done.
  apply orb_false_iff. split; by apply Z.eqb_neq.
Qed.

Lemma since_contributions c0 d0 l0 c d l plan :
  since c0 d0 l0 c d l → PublicationPlan_Validate plan = Ok tt →
  validateContributionFences (ck_ContributionFences c) plan = Ok tt →
  since c0 d0 l0 (c <| ck_ContributionFences := commitContributionFences (ck_ContributionFences c) plan |>) d l.
Proof.
  intros Hs Hplan Hval. pose proof (si_good _ _ _ _ _ _ Hs) as [Hf Hb Hsn Hbs Hc Hp Hk].
  apply (since_change _ _ _ _ _ _ _ Hs).
  - pose proof (reflexivity c : ck_le c c) as []. split; try done. fields. intros uid f Hlook.
    apply (commit_le _ (pl_ObservationFences plan) uid f); [by apply plan_contributions|by apply result_iter_Ok|done].
  - split; try done. fields. apply commit_complete; [done|by apply plan_observations].
Qed.

(** ** Publications *)

(** [next] may replace what is there. *)
Definition bounded (bs : publications) (pubs : publications) : Prop :=
  ∀ uid p old, bs !! uid = Some p → pubs !! uid = Some old → publication_le old p.
Definition within (c0 : checkpoint) (d0 : option checkpoint) (l0 : list checkpoint) (bs : publications)
    (c : checkpoint) (d : option checkpoint) (l : list checkpoint) : Prop :=
  since c0 d0 l0 c d l ∧ bounded bs (ck_Publications c).

Lemma persistent_and (I : checkpoint → option checkpoint → list checkpoint → Prop) (φ : publications → Prop) :
  persistent I → persistent (λ c d l, I c d l ∧ φ (ck_Publications c)).
Proof.
  intros [H1 H2 H3 H4]. split.
  - intros c c' d l E [Hc Hφ]. split; [by eapply H1|].
    by rewrite <- (f_equal ck_Publications E : ck_Publications c = ck_Publications c').
  - intros c d l [Hc Hφ]. split; [by apply H2|done].
  - intros c d l t [Hc Hφ]. split; [by apply H3|done].
  - intros c d l t [Hc Hφ]. split; [by eapply H4|done].
Qed.
Lemma persistent_within c0 d0 l0 bs : persistent (within c0 d0 l0 bs).
Proof. apply persistent_and, persistent_since. Qed.

(** The same publication, as far as the stream is concerned. *)
Definition same (p p' : publicationState) : Prop := p_Fence p' = p_Fence p ∧ p_Manifest p' = p_Manifest p.
Lemma same_le p p' : same p p' → publication_le p p' ∧ publication_le p' p.
Proof. intros [Hf Hm]. unfold publication_le. rewrite Hf, Hm. done. Qed.

Lemma since_publications c0 d0 l0 c d l pubs :
  since c0 d0 l0 c d l → (∀ uid p, pubs !! uid = Some p → held uid p) →
  (∀ uid p, ck_Publications c !! uid = Some p → ∃ p', pubs !! uid = Some p' ∧ publication_le p p') →
  since c0 d0 l0 (c <| ck_Publications := pubs |>) d l.
Proof.
  intros Hs Hheld Hle. pose proof (si_good _ _ _ _ _ _ Hs) as [Hf Hb Hsn Hbs Hc _ Hk].
  apply (since_change _ _ _ _ _ _ _ Hs); [|by split].
  pose proof (reflexivity c : ck_le c c) as []. by split.
Qed.

Lemma within_put c0 d0 l0 bs c d l uid p p' :
  within c0 d0 l0 bs c d l → bs !! uid = Some p → same p p' → held uid p' →
  within c0 d0 l0 bs (c <| ck_Publications := <[uid := p']> (ck_Publications c) |>) d l.
Proof.
  intros [Hs Hb] Hp Hsame Hheld. destruct (same_le _ _ Hsame) as [Hle Hge]. split.
  - apply since_publications; [done|..].
    + intros uid' q [[<- <-]|[_ Hq]]%lookup_insert_Some; [done|]. destruct Hs as [Hg _]. by apply g_publication with c.
    + intros uid' q Hq. destruct (decide (uid = uid')) as [<-|Hne].
      * exists p'. split; [apply lookup_insert_eq|]. etrans; [by eapply Hb|done].
      * exists q. by rewrite lookup_insert_ne.
  - fields. intros uid' q old Hq [[<- <-]|[_ Hold]]%lookup_insert_Some; [|by eapply Hb].
    rewrite Hp in Hq. by injection Hq as <-.
Qed.

(** ** The handlers *)

Context (cfg : Config) (K : Host).
Context (render : RenderConfig → ServingSnapshot → gset gostring → publications → option Files).
Context (errorText : AgentError → gostring).
Context (c0 : checkpoint) (d0 : option checkpoint) (l0 : list checkpoint).
Abbreviation holds := (accepted (since c0 d0 l0)).
Abbreviation holdsWithin bs := (accepted (within c0 d0 l0 bs)).
Hint Resolve persistent_within : agent.

Lemma held_same uid p p' : same p p' → p_Plan p' = p_Plan p → held uid p → held uid p'.
Proof.
  intros [Hf Hm] Hplan []. split; rewrite ?Hf, ?Hm, ?Hplan; done.
Qed.

Lemma stable_put bs uid p p' :
  bs !! uid = Some p → same p p' → held uid p' → stable (holdsWithin bs) (putPublication uid p').
Proof. intros Hp Hsame Hheld w Hw. by eapply within_put. Qed.

Lemma stable_recordResolver bs uid p :
  bs !! uid = Some p → held uid p → stable (holdsWithin bs) (recordResolverPublication cfg K uid p).
Proof.
  intros Hp Hheld. assert (∀ v, stable (holdsWithin bs) (putPublication uid (p <| p_Verified := v |>))) as Hput.
  { intros v. eapply stable_put; [exact Hp|by split|]. by apply (held_same _ p). }
  unfold recordResolverPublication. agent_steps.
Qed.

Lemma stable_activate bs uid p :
  bs !! uid = Some p → held uid p → stable (holdsWithin bs) (activatePublication cfg K render uid p).
Proof.
  intros Hp Hheld. assert (∀ v, stable (holdsWithin bs) (putPublication uid (p <| p_Verified := v |>))) as Hput.
  { intros v. eapply stable_put; [exact Hp|by split|]. by apply (held_same _ p). }
  assert (stable (holdsWithin bs) (putPublication uid p)) as Hput'.
  { eapply stable_put; [exact Hp|by split|done]. }
  unfold activatePublication, reconcile. agent_steps.
Qed.

Lemma stable_applyPublication bs uid p :
  bs !! uid = Some p → held uid p → stable (holdsWithin bs) (applyPublication cfg K render uid p).
Proof.
  intros Hp Hheld. unfold applyPublication. destruct (cfg_Mode cfg); [by apply stable_recordResolver|by apply stable_activate].
Qed.

Lemma within_holds {A} bs (m : M A) : stable (holdsWithin bs) m → hoare (holdsWithin bs) m (λ _, holds).
Proof. intros Hm w Hw. by destruct (Hm w Hw). Qed.

(** A publication that may replace what the state holds. *)
Lemma holds_replace {A} uid p (m : M A) c :
  (∀ old, ck_Publications c !! uid = Some old → publication_le old p) →
  stable (holdsWithin {[ uid := p ]}) m →
  hoare (λ w, holds w ∧ a_state (w_agent w) = c) m (λ _, holds).
Proof.
  intros Hle Hm. eapply hoare_weaken; [exact Hm|..].
  - intros w [Hw Hc]. split; [done|]. rewrite Hc. intros uid' q old [<- <-]%lookup_singleton_Some. apply Hle.
  - by intros a w [].
Qed.

Lemma holds_applyServingSnapshot_false s : stable holds (applyServingSnapshot cfg K render errorText s false).
Proof. unfold applyServingSnapshot, reconcile. agent_steps. Qed.

Lemma holds_applyServingSnapshot env s c :
  D env → carriesSnapshot env s → fence_leq (ck_ServingFence c) (snapshotFence s) →
  (ck_ServingFence c = snapshotFence s → ck_Snapshot c = None) →
  hoare (λ w, holds w ∧ a_state (w_agent w) = c) (applyServingSnapshot cfg K render errorText s true) (λ _, holds).
Proof.
  intros Hd Hs Hle Hnew. unfold applyServingSnapshot, reconcile.
  eapply (hoare_bind _ _ _ (λ _, holds)); [|intros [e|]; agent_steps].
  apply hoare_state. intros c1.
  destruct (advanceBindingFences (ck_BindingFences c1) s) as [bf|e] eqn:Hadv; [|by intros w [[] _]].
  eapply (hoare_bind _ _ _ (λ _, holds)); [|agent_steps].
  intros w [[Hw Hc] <-]. unfold accepted in *. change (since c0 d0 l0 (withSnapshot s bf (a_state (w_agent w)))
    (mc_checkpoint (w_machine w)) (written (w_trace w))).
  rewrite Hc in *. by eapply since_snapshot.
Qed.

Lemma equalJSON_true a b : equalJSON a b = true → ∃ x y, a = Some x ∧ b = Some y ∧ encode x = encode y.
Proof. destruct a as [x|], b as [y|]; try done. intros E%bool_decide_eq_true. by exists x, y. Qed.

Lemma holds_handleServing env :
  D env → e_Kind env = KindServingSnapshot → stable holds (handleServing cfg K render errorText env).
Proof.
  intros Hd Hkind. unfold handleServing. destruct (e_Payload env) as [j|] eqn:Hj; [|agent_steps].
  destruct (dSnapshot zeroSnapshot j) as [s|] eqn:Hs; [|agent_steps].
  destruct (ServingSnapshot_Validate s) as [[]|] eqn:Hval; [|agent_steps].
  destruct (_ <? Z.of_nat _)%Z; [agent_steps|].
  destruct (bool_decide (s_Region s ≠ e_Region env) || _ || _ || _) eqn:Hid; [agent_steps|].
  rewrite !orb_false_iff, !bool_decide_eq_false, !negb_false_iff, !Z.eqb_eq in Hid.
  destruct Hid as (((Hr%dec_stable & Hsh%dec_stable) & He) & Hv).
  assert (carriesSnapshot env s) as Hcar by (split_and!; eauto).
  apply hoare_state. intros c. destruct (_ <? 0)%Z eqn:Hlt; [by intros w []|].
  assert (fence_leq (ck_ServingFence c) (snapshotFence s)) as Hle.
  { unfold fence_leq. cbn [snapshotFence f_Epoch f_Revision]. rewrite He, Hv. lia. }
  assert (ck_ServingFence c = snapshotFence s →
    (Compare (e_Epoch env) (e_Revision env) (f_Epoch (ck_ServingFence c)) (f_Revision (ck_ServingFence c)) =? 0)%Z = true)
    as Heq.
  { intros E. apply Z.eqb_eq, Compare_eq. rewrite E. by rewrite <- He, <- Hv. }
  destruct (Compare _ _ _ _ =? 0)%Z eqn:Hz.
  - destruct (ck_Snapshot c) as [s'|] eqn:Hold.
    + destruct (equalJSON _ _); [|by intros w []]. eapply hoare_weaken; [apply holds_applyServingSnapshot_false|by intros w []|done].
    + by eapply holds_applyServingSnapshot.
  - eapply holds_applyServingSnapshot; [done..|]. intros E. by specialize (Heq E).
Qed.

Lemma holds_handleChunk env :
  D env → e_Kind env = KindPublicationChunk → stable holds (handleChunk cfg K env).
Proof.
  intros Hd Hkind. unfold handleChunk. destruct (e_Payload env) as [j|] eqn:Hj; [|agent_steps].
  destruct (dChunk zeroChunk j) as [ch|] eqn:Hs; [|agent_steps].
  destruct (PublicationChunk_Validate ch) as [[]|] eqn:Hval; [|agent_steps].
  destruct (_ || _ || _) eqn:Hid; [agent_steps|].
  rewrite !orb_false_iff, !bool_decide_eq_false, !negb_false_iff, !Z.eqb_eq in Hid.
  destruct Hid as ((Hz%dec_stable & He) & Hv).
  assert (carriesChunk env ch) as Hcar by (split_and!; eauto).
  apply hoare_state. intros c. destruct (_ <? 0)%Z; [by intros w []|].
  set (staged := default ∅ (ck_Chunks c !! pc_ManifestUID ch)).
  assert (∀ w, holds w → a_state (w_agent w) = c → ∀ i c', staged !! i = Some c' →
    (∃ env, D env ∧ carriesChunk env c') ∧ pc_ManifestUID c' = pc_ManifestUID ch ∧ chunkKey (pc_Index c') = i) as Hstaged.
  { intros w [Hg _] Hc i c' Hi. subst staged. rewrite Hc in Hg. destruct (ck_Chunks c !! _) as [cs|] eqn:Hcs; [|done].
    by eapply g_chunk. }
  assert (∀ cs w, holds w → (∀ i c', cs !! i = Some c' →
    (∃ env, D env ∧ carriesChunk env c') ∧ pc_ManifestUID c' = pc_ManifestUID ch ∧ chunkKey (pc_Index c') = i) →
    holds (w <| w_agent ::= λ a, a <| a_state ::= λ c, c <| ck_Chunks ::= insert (pc_ManifestUID ch) cs |> |> |>)) as Hput.
  { intros cs w Hw Hcs.
    change (since c0 d0 l0 ((a_state (w_agent w)) <| ck_Chunks := <[pc_ManifestUID ch := cs]> (ck_Chunks (a_state (w_agent w))) |>)
              (mc_checkpoint (w_machine w)) (written (w_trace w))).
    apply since_chunks; [done|].
    intros m i cs' c' [[<- <-]|[_ Hm]]%lookup_insert_Some; [by apply Hcs|]. destruct Hw as [Hg _]. by eapply g_chunk. }
  eapply (hoare_bind _ _ _ (λ _ w, holds w ∧ ∀ i c', staged !! i = Some c' →
    (∃ env, D env ∧ carriesChunk env c') ∧ pc_ManifestUID c' = pc_ManifestUID ch ∧ chunkKey (pc_Index c') = i)).
  { intros w [Hw Hc]. split; [|by eapply Hstaged]. apply Hput; [done|by eapply Hstaged]. }
  intros _. destruct (match staged !! chunkKey (pc_Index ch) with Some _ => _ | None => _ end); [by intros w []|].
  eapply (hoare_bind _ _ _ (λ _, holds)); [|agent_steps].
  intros w [Hw Hst]. apply Hput; [done|]. intros i c' [[<- <-]|[_ Hi]]%lookup_insert_Some; [|by apply Hst].
  split; [by exists env|done].
Qed.

(** A decoded revision is not negative. *)
Lemma field_inv {A} (d : decoder A) name old fs a (P : A → Prop) :
  (∀ x j y, P x → d x j = Some y → P y) → P old → field d name old fs = Some a → P a.
Proof.
  intros Hd. revert old. induction fs as [|[k j] fs IH]; intros old Hold; [by intros [= <-]|].
  unfold field. cbn [foldl]. cbn [mbind option_bind fst snd]. destruct (decide _).
  - destruct (d old j) as [x|] eqn:Hx; [apply IH; by eapply Hd|].
    clear. intros E. exfalso. induction fs; [done|]. by apply IHfs.
  - by apply IH.
Qed.
Lemma dUint64_nonneg name fs z : field dUint64 name 0%Z fs = Some z → (0 ≤ z)%Z.
Proof.
  apply (field_inv _ _ _ _ _ (λ z, 0 ≤ z)%Z); [|done]. intros x j y Hx. unfold dUint64, dInt.
  destruct j; try done; [intros [= <-]; done|case_match; intros [= <-]; lia|case_match; intros [= <-]; lia].
Qed.
Lemma carriesManifest_revision env m : carriesManifest env m → (0 < pm_Revision m)%Z.
Proof.
  intros (_ & (j & _ & Hj) & Hval & _). unfold PublicationManifest_Validate in Hval. rewrite refuse_bind in Hval.
  destruct Hval as [[[_ Hr]%orb_false_iff _]%orb_false_iff _]. apply Z.eqb_neq in Hr.
  assert (0 ≤ pm_Revision m)%Z; [|lia]. unfold dManifest, struct_decoder in Hj.
  destruct j; try done; [by injection Hj as <-|].
  repeat match type of Hj with (?x ≫= _) = Some _ => destruct x eqn:?; [cbn [mbind option_bind] in Hj|done] end.
  injection Hj as <-. by eapply dUint64_nonneg.
Qed.

(** A newer manifest, or the same one, may replace what is there. *)
Lemma manifest_le (c : checkpoint) env m uid old next :
  good c → carriesManifest env m → pm_ZoneUID m = uid → ck_Publications c !! uid = Some old →
  p_Fence next = manifestFence m → p_Manifest next = m →
  let cmp := Compare (pm_WriterEpoch m) (pm_Revision m) (f_Epoch (p_Fence old)) (f_Revision (p_Fence old)) in
  (cmp <? 0)%Z = false →
  (cmp =? 0)%Z && (0 <? f_Revision (p_Fence old))%Z
    && negb (equalJSON (PublicationManifest_marshal m) (PublicationManifest_marshal (p_Manifest old))) = false →
  publication_le old next.
Proof.
  intros Hg Hcar Hz Hold Hf Hm cmp Hlt Hsame. subst cmp. split.
  - rewrite Hf. unfold fence_leq, manifestFence. cbn [f_Epoch f_Revision]. lia.
  - rewrite Hf, Hm. intros E. destruct (hd_delivered _ _ (g_publication _ Hg _ _ Hold)) as (env' & _ & Hcar').
    pose proof (hd_fence _ _ (g_publication _ Hg _ _ Hold)) as Hfo.
    pose proof (carriesManifest_revision _ _ Hcar') as Hr.
    rewrite (proj2 (Compare_eq _ _ _ _)) in Hsame.
    2:{ by rewrite <- E. }
    rewrite Hfo in Hsame. cbn [manifestFence f_Revision] in Hsame.
    replace (0 <? pm_Revision (p_Manifest old))%Z with true in Hsame by lia. cbn [andb] in Hsame.
    change (0 =? 0)%Z with true in Hsame. cbn [andb] in Hsame.
    apply negb_false_iff, equalJSON_true in Hsame as (x & y & Hx & Hy & Hxy).
    unfold PublicationManifest_marshal in Hx, Hy. repeat case_match; try done. congruence.
Qed.

Lemma held_manifest env m plan hash :
  D env → carriesManifest env m → (pm_Tombstone m = false → assembled m plan) →
  held (pm_ZoneUID m) (publicationOf m plan hash).
Proof. intros Hd Hcar Hplan. split; [done|done|by exists env|done]. Qed.

Lemma assemblePlan_ok c m plan :
  good c → assemblePlan c m = Ok plan →
  assembled m plan ∧ PublicationPlan_Validate plan = Ok tt
  ∧ validateContributionFences (ck_ContributionFences c) plan = Ok tt.
Proof.
  intros Hg. unfold assemblePlan. destruct (VerifyManifest _ _) as [payload|] eqn:Hv; [|done].
  destruct (Unmarshal dPlan zeroPlan payload) as [pl|] eqn:Hu; [|done].
  destruct (PublicationPlan_Validate pl) as [[]|] eqn:Hp; [|done]. destruct (_ || _) eqn:Hid; [done|].
  destruct (validateContributionFences _ pl) as [[]|] eqn:Hc; [|done]. intros [= <-]. split_and!; try done.
  apply orb_false_iff in Hid as [Hz%bool_decide_eq_false%dec_stable Ha%bool_decide_eq_false%dec_stable].
  exists (map_range (default ∅ (ck_Chunks c !! pm_ManifestUID m))).*2, payload. split_and!; try done.
  apply Forall_forall. intros ch ([i ch'] & -> & Hin)%list_elem_of_fmap.
  rewrite map_range_perm, elem_of_map_to_list in Hin. cbn [snd].
  destruct (ck_Chunks c !! pm_ManifestUID m) as [cs|] eqn:Hcs; [|done]. by eapply (g_chunk _ Hg).
Qed.

Lemma holds_acceptManifest env m c :
  D env → carriesManifest env m → pm_Tombstone m = false →
  (∀ plan hash old, ck_Publications c !! pm_ZoneUID m = Some old → publication_le old (publicationOf m plan hash)) →
  hoare (λ w, holds w ∧ a_state (w_agent w) = c) (acceptManifest cfg K render m) (λ _, holds).
Proof.
  intros Hd Hcar Ht Hle. unfold acceptManifest. apply hoare_state. intros c1.
  apply (hoare_know (c1 = c ∧ good c)).
  { intros w [[Hw <-] Hc]. split; [done|]. apply (si_good _ _ _ _ _ _ Hw). }
  intros [-> Hg]. destruct (assemblePlan c m) as [plan|e] eqn:Ha; [|by intros w [[] _]].
  destruct (assemblePlan_ok _ _ _ Hg Ha) as (Has & Hp & Hv).
  set (next := publicationOf m plan (effectivePlanHash plan)).
  assert (held (pm_ZoneUID m) next) as Hheld by by eapply held_manifest.
  eapply (hoare_bind _ _ _ (λ _, holdsWithin {[ pm_ZoneUID m := next ]})).
  - intros w [[Hw Hc] _]. unfold accepted, modifyState, modify in *. cbn [snd]. rewrite Hc in Hw. split; fields; rewrite Hc.
    + by apply (since_contributions _ _ _ c).
    + intros uid q old [<- <-]%lookup_singleton_Some. apply Hle.
  - intros _. apply within_holds.
    apply stable_orReturn; [agent_steps|]. apply stable_applyPublication; [by rewrite lookup_singleton_eq|done].
Qed.

Lemma holds_confirmPublication m old c :
  p_Verified old = true → old = default zeroPublication (ck_Publications c !! pm_ZoneUID m) →
  hoare (λ w, holds w ∧ a_state (w_agent w) = c) (confirmPublication cfg K errorText m old) (λ _, holds).
Proof.
  intros Hver Hold. destruct (ck_Publications c !! pm_ZoneUID m) as [p|] eqn:Hp; [|by subst old].
  cbn in Hold. subst p.
  apply (hoare_know (held (pm_ZoneUID m) old)).
  { intros w [Hw Hc]. eapply (g_publication _ (si_good _ _ _ _ _ _ Hw)). by rewrite Hc. }
  intros Hheld. apply (holds_replace (pm_ZoneUID m) old); [intros p; rewrite Hp; by intros [= <-]|].
  unfold confirmPublication. apply stable_gets. intros []; [agent_steps|]. destruct (cfg_Mode cfg).
  - apply stable_recordResolver; [by rewrite lookup_singleton_eq|done].
  - agent_steps.
Qed.

Lemma holds_handleManifest env :
  D env → e_Kind env = KindPublicationManifest → stable holds (handleManifest cfg K render errorText env).
Proof.
  intros Hd Hkind. unfold handleManifest. destruct (e_Payload env) as [j|] eqn:Hj; [|agent_steps].
  destruct (dManifest zeroManifest j) as [m|] eqn:Hs; [|agent_steps].
  destruct (PublicationManifest_Validate m) as [[]|] eqn:Hval; [|agent_steps].
  destruct (_ || _ || _) eqn:Hid; [agent_steps|].
  rewrite !orb_false_iff, !bool_decide_eq_false, !negb_false_iff, !Z.eqb_eq in Hid.
  destruct Hid as ((Hz%dec_stable & He) & Hv).
  assert (carriesManifest env m) as Hcar by (split_and!; eauto).
  apply hoare_state. intros c. set (old := default zeroPublication (ck_Publications c !! pm_ZoneUID m)). cbn zeta.
  destruct (_ <? 0)%Z eqn:Hlt; [by intros w []|].
  destruct (_ && _ && negb _) eqn:Hsame; [by intros w []|].
  apply (hoare_know (good c)). { intros w [Hw <-]. apply (si_good _ _ _ _ _ _ Hw). }
  intros Hg. assert (∀ plan hash p, ck_Publications c !! pm_ZoneUID m = Some p → publication_le p (publicationOf m plan hash)) as Hle.
  { intros plan hash p Hp. subst old. rewrite Hp in Hlt, Hsame.
    by apply (manifest_le c env m (pm_ZoneUID m)). }
  destruct (_ && p_Verified old) eqn:Hver.
  { apply andb_true_iff in Hver as [_ Hver]. by apply holds_confirmPublication. }
  destruct (_ && _ && _ && _); [by intros w []|].
  destruct (pm_Tombstone m) eqn:Ht; [|by eapply holds_acceptManifest].
  unfold applyTombstone. apply (holds_replace (pm_ZoneUID m) (publicationOf m (p_Plan old) [])); [by apply Hle|].
  apply stable_applyPublication; [by rewrite lookup_singleton_eq|]. by eapply held_manifest; [| |rewrite Ht].
Qed.

Lemma holds_handleAck env : stable holds (handleAck cfg K render errorText env).
Proof. unfold handleAck, ensureAcks, putAck, saveAndReconcile, reconcile. agent_steps. Qed.

Lemma holds_Handle env : D env → stable holds (Handle cfg K render errorText env).
Proof.
  intros Hd. unfold Handle. destruct (Envelope_Validate env); [|agent_steps]. destruct (_ || _); [agent_steps|].
  apply stable_bind; [agent_steps|]. intros [r|]; [agent_steps|]. apply stable_orReturn; [agent_steps|].
  destruct (decide _); [by apply holds_handleServing|]. destruct (decide _); [by apply holds_handleChunk|].
  destruct (decide _).
  - apply stable_bind; [by apply holds_handleManifest|]. agent_steps.
  - destruct (decide _); [apply holds_handleAck|agent_steps].
Qed.

(** ** The periodic step *)

Lemma retired_same now p p' : retired now p = Some p' → same p p' ∧ pm_Tombstone (p_Manifest p) = true.
Proof.
  unfold retired. destruct (_ || _ || _) eqn:Hb; [done|].
  apply orb_false_iff in Hb as [[Ht%negb_false_iff _]%orb_false_iff _].
  repeat case_match; intros [= <-]; by split.
Qed.

Lemma holds_retireTombstones now : stable holds (retireTombstones cfg K now).
Proof.
  unfold retireTombstones. apply hoare_state. intros c. cbn zeta. destruct (decide _); [by intros w []|].
  set (changed := omap (retired now) (ck_Publications c)).
  assert (∀ uid p', changed !! uid = Some p' → ∃ p, ck_Publications c !! uid = Some p ∧ retired now p = Some p') as Hch.
  { intros uid p'. subst changed. rewrite lookup_omap. by intros (p & Hp & Hr)%bind_Some; exists p. }
  set (near := λ pubs : publications, ∀ uid,
    match ck_Publications c !! uid, pubs !! uid with
    | Some p, Some p' => publication_le p p' ∧ publication_le p' p
    | None, None => True
    | _, _ => False
    end).
  apply (hoare_know (good c)). { intros w [Hw <-]. apply (si_good _ _ _ _ _ _ Hw). } intros Hg.
  assert (persistent (λ c d l, since c0 d0 l0 c d l ∧ near (ck_Publications c))) as Hpers by apply persistent_and, persistent_since.
  eapply (hoare_bind _ _ _ (λ _, accepted (λ c d l, since c0 d0 l0 c d l ∧ near (ck_Publications c)))).
  - intros w [Hw Hc]. unfold accepted, modifyState, modify in *. cbn [snd]. fields. rewrite Hc in *.
    assert (near (changed ∪ ck_Publications c)) as Hnear.
    { intros uid. rewrite lookup_union. destruct (changed !! uid) as [p'|] eqn:Hp'.
      - destruct (Hch _ _ Hp') as (p & -> & Hr). rewrite union_Some_l. by apply same_le, (retired_same now).
      - by destruct (ck_Publications c !! uid). }
    split; [|done]. apply (since_publications _ _ _ c _ _ (changed ∪ ck_Publications c)); [done|..].
    + intros uid q [Hq|[_ Hq]]%lookup_union_Some_raw; [|by apply (g_publication _ Hg)].
      destruct (Hch _ _ Hq) as (p & Hp & Hr). destruct (retired_same _ _ _ Hr) as [[Hf Hm] Ht].
      destruct (g_publication _ Hg _ _ Hp). split; rewrite ?Hf, ?Hm; try done. by rewrite Ht.
    + intros uid p Hp. specialize (Hnear uid). rewrite Hp in Hnear.
      destruct ((changed ∪ ck_Publications c) !! uid) as [p'|]; [|done]. exists p'. by destruct Hnear.
  - intros _. eapply (hoare_bind _ _ _ (λ _, accepted (λ c d l, since c0 d0 l0 c d l ∧ near (ck_Publications c)))).
    { by apply keeps_Save. }
    intros [e|]; [|by intros w []]. eapply (hoare_bind _ _ _ (λ _, holds)); [|agent_steps].
    intros w [Hw Hnear]. apply since_publications; [done|by apply g_publication|].
    intros uid p Hp. specialize (Hnear uid). rewrite Hp in Hnear. destruct (ck_Publications c !! uid) as [p'|]; [|done].
    exists p'. by destruct Hnear.
Qed.

Lemma holds_retryPendingPublications : stable holds (retryPendingPublications cfg K render).
Proof.
  unfold retryPendingPublications. apply hoare_state. intros c.
  apply (hoare_know (good c)). { intros w [Hw <-]. apply (si_good _ _ _ _ _ _ Hw). } intros Hg.
  eapply (hoare_weaken _ (holdsWithin (ck_Publications c)) _ _ (λ _, holdsWithin (ck_Publications c))); [|..].
  - apply stable_each_in. intros [uid p]. rewrite map_range_perm, elem_of_map_to_list. intros Hp.
    pose proof (g_publication _ Hg _ _ Hp) as Hheld. unfold retryPublication. destruct (p_Verified p); [agent_steps|].
    destruct (cfg_Mode cfg); [by apply stable_recordResolver|].
    assert (stable (holdsWithin (ck_Publications c)) (putPublication uid
      (p <| p_Verified := true |> <| p_EffectiveHash := effectivePlanHash (p_Plan p) |>))) as Hput.
    { eapply stable_put; [exact Hp|by split|]. by apply (held_same _ p). }
    unfold reconcile. agent_steps.
  - intros w [Hw Hc]. split; [done|]. rewrite Hc. intros uid p old Hp Hold. rewrite Hp in Hold. by injection Hold as <-.
  - by intros a w [].
Qed.

Lemma holds_Step : stable holds (Step cfg K render errorText).
Proof.
  assert (∀ now, stable holds (retireTombstones cfg K now)) as H1 by apply holds_retireTombstones.
  pose proof holds_retryPendingPublications as H2.
  unfold Step, restoredCheckpointExpired, withdrawRestoredCheckpoint, reconcile. agent_steps.
Qed.
End safety.
