(* ===== verification/AgentFiles.v ===== *)
(** The file transaction is atomic ([serving/transaction.go]): it installs all files, or says
    that it preserved what was there and has, or says that it does not know.  Its temporary
    files, in the stage and beside the files of a rollback, may stay behind. *)

From S2P Require Import Prelude GoStrings GoCrypto GoJson GoJsonDecode WireModel WireDecode.
From S2P Require Import Publication ServingFences AgentState AgentHost AgentTransaction Agent AgentLogic.
From coqutil Require Import Datatypes.RecordSettersUsingExistingGetters.

(** * What calls leave alone *)

Section machine.
Context (cfg : Config) (K : Host) (I : Machine → Prop).

Definition on : assertion := λ w, I (w_machine w).

Lemma on_ask {A} ev (f : list event → A) : stable on (ask ev f).
Proof. by intros w. Qed.
Lemma on_try ev : stable on (try K ev).
Proof. by intros w. Qed.
Lemma on_tryGet {A} ev (f : list event → A) : stable on (tryGet K ev f).
Proof. by intros w. Qed.
Lemma on_Now : stable on (Now K).
Proof. by intros w. Qed.
Lemma on_gets {A} (f : Agent → A) : stable on (gets f).
Proof. by intros w. Qed.
Lemma on_modify f : stable on (modify f).
Proof. by intros w. Qed.
Lemma on_machine : stable on machine.
Proof. by intros w. Qed.
Lemma on_ok : stable on ok.
Proof. by intros w. Qed.
#[local] Hint Resolve on_ask on_try on_tryGet on_Now on_gets on_modify on_machine on_ok : agent.

Lemma on_commands p cs stage changed : stable on (commandsForChanges K p cs stage changed).
Proof. unfold commandsForChanges. agent_steps. Qed.
Lemma on_syncDirs paths : stable on (syncDirs K paths).
Proof. unfold syncDirs. agent_steps. Qed.
#[local] Hint Resolve on_commands on_syncDirs : agent.
Lemma on_stopDaemons : stable on (stopDaemons cfg K).
Proof. apply on_commands. Qed.

(** And the marker of an activation. *)
Context (HI : ∀ m x, I m → I (m <| mc_marker := x |>)).
Lemma on_marker x : stable on (modifyMachine (λ m, m <| mc_marker := x |>)).
Proof. intros w Hw. unfold on, modifyMachine in *. cbn [snd]. fields. by apply HI. Qed.
#[local] Hint Resolve on_marker : agent.
Lemma on_writeActivation phase : stable on (writeActivation cfg K phase).
Proof. unfold writeActivation. agent_steps. Qed.
#[local] Hint Resolve on_writeActivation : agent.
Lemma on_beginActivation : stable on (beginActivation cfg K).
Proof. unfold beginActivation, beginPhase. agent_steps. Qed.
Lemma on_filesInstalled : stable on (filesInstalled cfg K).
Proof. unfold filesInstalled. agent_steps. Qed.
Lemma on_abandonActivation : stable on (abandonActivation K).
Proof. unfold abandonActivation. agent_steps. Qed.
#[local] Hint Resolve on_abandonActivation : agent.
Lemma on_commitActivation : stable on (commitActivation K).
Proof. unfold commitActivation. agent_steps. Qed.
End machine.

(** * Errors of the machine *)

(** An error of a call says nothing of what was preserved. *)
Definition plain (r : option AgentError) : Prop := ∀ e, r = Some e → asPreserved e = false.
Definition plainly (m : M (option AgentError)) : Prop := ∀ w, plain (m w).1.

Section plain.
Context (cfg : Config) (K : Host).

Lemma plain_join a b : plain a → plain b → plain (joinErr a b).
Proof. intros Ha Hb e. destruct a, b; cbn; intros [= <-]; cbn; rewrite ?(Ha _ eq_refl), ?(Hb _ eq_refl); done. Qed.
Lemma plainly_try ev : plainly (try K ev).
Proof. intros w e. unfold try, mbind, M_bind, ask. cbn. by destruct (h_fail K _); intros [= <-]. Qed.
Lemma plainly_ok : plainly ok.
Proof. by intros w e. Qed.
Lemma plainly_bind {A} (m : M A) f : (∀ a, plainly (f a)) → plainly (m ≫= f).
Proof. intros Hf w. unfold mbind, M_bind. destruct (m w). apply Hf. Qed.
Lemma plainly_orReturn m k : plainly m → plainly k → plainly (orReturn m k).
Proof.
  intros Hm Hk w. unfold orReturn, mbind, M_bind. specialize (Hm w). destruct (m w) as [[e|] w']; [exact Hm|apply Hk].
Qed.
Lemma plainly_each {A} (f : A → M (option AgentError)) l : (∀ x, plainly (f x)) → plainly (each f l).
Proof. intros Hf. induction l; [apply plainly_ok|]. by apply plainly_orReturn. Qed.
#[local] Hint Resolve plainly_try plainly_ok plainly_bind plainly_orReturn plainly_each : agent.

Lemma plainly_syncDirs paths : plainly (syncDirs K paths).
Proof. apply plainly_each; auto with agent. Qed.
Lemma plainly_commands p cs stage changed : plainly (commandsForChanges K p cs stage changed).
Proof. apply plainly_each; auto with agent. Qed.
Lemma plainly_writeActivation phase : plainly (writeActivation cfg K phase).
Proof. unfold writeActivation. auto 20 with agent. Qed.
#[local] Hint Resolve plainly_writeActivation : agent.
Lemma plainly_beginActivation : plainly (beginActivation cfg K).
Proof.
  unfold beginActivation, beginPhase. apply plainly_orReturn; [auto with agent|]. apply plainly_bind. intros lock.
  apply plainly_orReturn; [destruct lock|]; auto with agent.
Qed.
Lemma plainly_filesInstalled : plainly (filesInstalled cfg K).
Proof. unfold filesInstalled. apply plainly_orReturn; [auto with agent|]. apply plainly_bind. intros []; auto with agent. Qed.
Lemma plainly_abandonActivation : plainly (abandonActivation K).
Proof.
  apply plainly_bind. intros [b|]; [|apply plainly_ok]. intros w. unfold mbind, M_bind.
  pose proof (plainly_try EvUnlock w) as Hp. by destruct (try K EvUnlock w).
Qed.
#[local] Hint Resolve plainly_abandonActivation : agent.
Lemma plainly_commitActivation : plainly (commitActivation K).
Proof. unfold commitActivation. auto 10 with agent. Qed.
Lemma plainly_fail e : asPreserved e = false → plainly (fail e).
Proof. intros He w e' [= <-]. done. Qed.
Lemma plainly_writeDurable path data : plainly (writeDurable K path data).
Proof.
  intros w. unfold writeDurable, mbind, M_bind. pose proof (plainly_try (EvWrite path data) w) as Hp.
  destruct (try K (EvWrite path data) w) as [[e|] w']; cbn [fst snd] in *; [|done].
  unfold aftermath. by destruct (h_left K (w_trace w')).
Qed.
Lemma plainly_rename from to : plainly (rename K from to).
Proof.
  apply plainly_orReturn; [auto with agent|]. apply plainly_bind. intros m.
  case_match; [auto with agent|by apply plainly_fail].
Qed.
#[local] Hint Resolve plainly_writeDurable plainly_rename : agent.
Lemma plainly_restoreFiles old paths : plainly (restoreFiles K old paths).
Proof.
  induction paths as [|path paths IH]; [apply plainly_ok|]. cbn [restoreFiles]. intros w. unfold mbind, M_bind.
  assert (plainly (restoreFile K old path)) as Hr by (unfold restoreFile; case_match; auto 10 with agent).
  specialize (Hr w). destruct (restoreFile K old path w) as [e w1]. specialize (IH w1).
  destruct (restoreFiles K old paths w1) as [e' w2]. by apply plain_join.
Qed.
End plain.

(** A call whose error is plain. *)
Lemma hoare_plainly {A} P m (f : option AgentError → M A) (Q : A → assertion) :
  plainly m → stable P m → hoare P (f None) Q → (∀ e, asPreserved e = false → hoare P (f (Some e)) Q) →
  hoare P (m ≫= f) Q.
Proof.
  intros Hp Hs Hn He w Hw. unfold mbind, M_bind. specialize (Hp w). specialize (Hs w Hw).
  destruct (m w) as [[e|] w']; [by apply He; [apply Hp|]|by apply Hn].
Qed.
Lemma hoare_check P m k (Q : option AgentError → assertion) :
  stable P m → hoare P k Q → (∀ e w, P w → Q (Some e) w) → hoare P (orReturn m k) Q.
Proof.
  intros Hm Hk He. apply (hoare_bind _ _ _ (λ _, P)); [done|]. intros [e|]; [|done]. intros w. apply He.
Qed.
Lemma hoare_conj {A} P (m : M A) (Q R : A → assertion) :
  hoare P m Q → hoare P m R → hoare P m (λ a w, Q a w ∧ R a w).
Proof. intros HQ HR w Hw. auto. Qed.
Lemma plainly_hoare P m : plainly m → hoare P m (λ r _, plain r).
Proof. intros Hm w _. apply Hm. Qed.

(** The phase of the marker. *)
Definition phase (m : Machine) : option Phase := ast_Phase <$> mc_marker m.

Abbreviation marked ph := (on (λ m, phase m = Some ph)).

Lemma hoare_writeActivation cfg K P ph :
  hoare P (writeActivation cfg K ph) (λ r w, r = None → marked ph w).
Proof.
  assert (∀ m k, hoare (λ _, True) k (λ r w, r = None → marked ph w) →
    hoare (λ _, True) (orReturn m k) (λ r w, r = None → marked ph w)) as Hc by (intros; by apply hoare_check).
  apply (hoare_weaken _ (λ _, True) _ _ (λ r w, r = None → marked ph w)); [|done..]. unfold writeActivation.
  do 3 (apply (hoare_bind _ _ _ (λ _ _, True)); [done|]; intros ?). apply Hc, Hc.
  apply (hoare_bind _ _ _ (λ _, marked ph)); [by intros w|]. intros _.
  apply (hoare_weaken _ (marked ph) _ _ (λ _, marked ph)); [apply on_try|done|done].
Qed.

Lemma hoare_filesInstalled cfg K P :
  hoare P (filesInstalled cfg K) (λ r w, r = None → marked activationVerifying w).
Proof.
  unfold filesInstalled. eapply hoare_bind; [apply hoare_writeActivation|]. intros [e|]; [by intros w _|].
  apply (hoare_weaken _ (marked activationVerifying) _ _ (λ _, marked activationVerifying)); [|by intros w Hw; apply Hw|done].
  apply stable_gets. intros [b|]; [|apply on_ok]. apply stable_orReturn; [apply on_try|].
  apply stable_bind; [apply on_modify|]. intros _. apply on_ok.
Qed.

(** * Files *)

Section atomic.
Context `{GoRuntime} (cfg : Config) (K : Host) (files : Files).

(** A file of the stage, or the temporary file of a rollback. *)
Definition temporary (p : gostring) : Prop :=
  HasPrefix p (stagePrefix (tc_StageDir (cfg_Transaction cfg))) = true
  ∨ ∃ q n, q ∈ dom files ∧ p = rollbackPath q n.

Lemma temporary_stage added path :
  temporary (inDir (stagePrefix (tc_StageDir (cfg_Transaction cfg)) ++ added) path).
Proof. left. apply HasPrefix_spec. exists (added ++ "/" ++ Base path). unfold inDir. by rewrite <- !app_assoc. Qed.
Lemma temporary_rollback p n : p ∈ dom files → temporary (rollbackPath p n).
Proof. right. eauto. Qed.

(** What is said of the other files only. *)
Definition agree (fs fs' : Files) : Prop := ∀ p, ¬ temporary p → fs !! p = fs' !! p.
Definition blind (I : Machine → Prop) : Prop :=
  ∀ m fs, agree fs (mc_files m) → I m → I (m <| mc_files := fs |>).

Section blind.
Context (I : Machine → Prop) (HI : blind I).

Lemma on_files g : (∀ fs, agree (g fs) fs) → stable (on I) (modifyMachine (λ m, m <| mc_files := g (mc_files m) |>)).
Proof. intros Hg w Hw. apply (HI (w_machine w)); [apply Hg|exact Hw]. Qed.
Lemma on_putFile path data : temporary path → stable (on I) (putFile path data).
Proof. intros Ht. apply on_files. intros fs p Hp. apply lookup_insert_ne. by intros ->. Qed.

Lemma hoare_writeDurable path data :
  temporary path →
  hoare (on I) (writeDurable K path data) (λ r, on (λ m, I m ∧ (r = None → mc_files m !! path = Some data))).
Proof.
  intros Ht. apply (hoare_bind _ _ _ (λ _, on I)); [apply on_try|]. intros [e|].
  - apply (hoare_bind _ _ _ (λ _, on I)); [by intros w|]. intros left.
    apply (hoare_bind _ _ _ (λ _, on I)); [|by intros [] w Hw].
    destruct left; [by apply on_putFile|by intros w].
  - intros w Hw. split; [by apply (on_putFile path data Ht w Hw)|]. intros _.
    change (<[path := data]> (mc_files (w_machine w)) !! path = Some data). apply lookup_insert_eq.
Qed.
Lemma on_writeDurable path data : temporary path → stable (on I) (writeDurable K path data).
Proof. intros Ht. eapply hoare_weaken; [by apply hoare_writeDurable|done|by intros a w []]. Qed.

Lemma on_removeAll added :
  stable (on I) (removeAll K (stagePrefix (tc_StageDir (cfg_Transaction cfg)) ++ added)).
Proof.
  apply stable_bind; [apply on_try|]. intros failed. apply stable_bind; [by intros w|]. intros kept. cbn zeta.
  apply stable_bind; [|intros; apply stable_ret]. apply on_files. intros fs p Hp.
  destruct (fs !! p) as [x|] eqn:Hx; [|by apply map_lookup_filter_None_2; left].
  apply map_lookup_filter_Some_2; [done|]. cbn [fst]. destruct (HasPrefix p _) eqn:E; [|done]. destruct Hp. left.
  apply HasPrefix_spec in E as [t E]. apply HasPrefix_spec. exists (added ++ "/" ++ t). by rewrite E, <- !app_assoc.
Qed.

(** Renaming a temporary file into place. *)
Definition placed (to data : gostring) (m : Machine) : Prop :=
  ∃ m0, I m0 ∧ agree (mc_files m) (<[to := data]> (mc_files m0)).
Lemma hoare_rename from to data :
  temporary from →
  hoare (on (λ m, I m ∧ mc_files m !! from = Some data)) (rename K from to)
    (λ r, on (match r with Some _ => I | None => placed to data end)).
Proof.
  intros Ht. apply hoare_check; [apply on_try| |by intros e w []]. intros w [Hw Hd].
  unfold mbind, M_bind, machine. rewrite Hd. exists (w_machine w). split; [done|]. intros p Hp.
  change (<[to := data]> (delete from (mc_files (w_machine w))) !! p = <[to := data]> (mc_files (w_machine w)) !! p).
  destruct (decide (p = to)) as [->|Hne]; [by rewrite !lookup_insert_eq|].
  rewrite !lookup_insert_ne by done. apply lookup_delete_ne. by intros ->.
Qed.
End blind.

Context (F : Files) (Hfiles : ∀ p, p ∈ dom files → ¬ temporary p).

(** The files are as they were, except some. *)
Definition off (S : gset gostring) (m : Machine) : Prop :=
  ∀ p, ¬ temporary p → p ∉ S → mc_files m !! p = F !! p.
(** Some of the new ones are in place, the others as they were. *)
Definition put (installed : list gostring) (m : Machine) : Prop :=
  ∀ p, ¬ temporary p → mc_files m !! p = if decide (p ∈ installed) then Some (default [] (files !! p)) else F !! p.

Lemma off_blind S : blind (off S).
Proof. intros m fs Hfs Ho p Hp HS. change (fs !! p = F !! p). rewrite Hfs by done. by apply Ho. Qed.
Lemma put_blind installed : blind (put installed).
Proof.
  intros m fs Hfs Hput p Hp. change (fs !! p = if decide (p ∈ installed) then Some (default [] (files !! p)) else F !! p).
  rewrite Hfs by done. by apply Hput.
Qed.
#[local] Hint Resolve off_blind put_blind : core.
Lemma off_mono S S' m : S ⊆ S' → off S m → off S' m.
Proof. intros Hsub Ho p Hp HS. apply Ho; [done|]. set_solver. Qed.
Lemma off_put installed m : put installed m → off (list_to_set installed) m.
Proof. intros Hput p Hp HS. rewrite Hput, decide_False; [done| |done]. by rewrite elem_of_list_to_set in HS. Qed.

(** What was read of the old files. *)
Definition oldOf (old : oldFiles) (paths : list gostring) : Prop := ∀ p, p ∈ paths → old !! p = Some (F !! p).

Lemma hoare_readOld paths old seen :
  Forall (λ p, ¬ temporary p) paths → oldOf old seen →
  hoare (on (off ∅)) (readOld K paths old)
    (λ r w, on (off ∅) w ∧ ∀ old', r = Ok old' → oldOf old' (seen ++ paths)).
Proof.
  intros Hps. revert old seen. induction Hps as [|path paths Hpath _ IH]; intros old seen Ho; cbn [readOld].
  - intros w Hw. split; [done|]. intros old' [= <-]. by rewrite app_nil_r.
  - apply (hoare_bind _ _ _ (λ _, on (off ∅))); [apply on_try|]. intros [e|]; [by intros w|].
    intros w Hw. unfold mbind, M_bind, machine. rewrite (cons_middle path seen paths), app_assoc. apply IH; [|done].
    intros p Hp. destruct (decide (p = path)) as [->|Hne].
    + rewrite lookup_insert_eq. f_equal. apply Hw; [done|set_solver].
    + rewrite lookup_insert_ne by done. apply Ho. set_solver.
Qed.

Definition paths : list gostring := sortStrings (map_to_list files).*1.
Lemma elem_of_paths p : p ∈ paths ↔ p ∈ dom files.
Proof.
  unfold paths. rewrite sortStrings_perm, elem_of_dom, list_elem_of_fmap. split.
  - intros ([k x] & -> & Hin%elem_of_map_to_list). by exists x.
  - intros [x Hx]. exists (p, x). split; [done|]. by apply elem_of_map_to_list.
Qed.

Lemma paths_apart : Forall (λ p, ¬ temporary p) paths.
Proof. apply Forall_forall. intros p Hp%elem_of_paths. by apply Hfiles. Qed.

(** The directory of the stage. *)
Abbreviation stageOf added := (stagePrefix (tc_StageDir (cfg_Transaction cfg)) ++ added).

Lemma on_writeStage added : stable (on (off ∅)) (writeStage K files (stageOf added)).
Proof.
  apply stable_orReturn; [|apply on_syncDirs]. apply stable_each. intros path. apply on_writeDurable; [done|].
  apply temporary_stage.
Qed.

Lemma hoare_stageFiles added :
  hoare (on (off ∅)) (stageFiles K files (stageOf added))
    (λ r w, on (off ∅) w ∧ ∀ old, r = Ok old → oldOf old paths).
Proof.
  unfold stageFiles. case_match; [|by intros w].
  eapply hoare_bind; [apply (hoare_readOld _ _ []); [apply paths_apart|set_solver]|].
  intros [old|e]; [|by intros w [Hw _]]. apply (hoare_know (oldOf old paths)); [intros w [_ Ho]; by apply Ho|intros Hold].
  apply (hoare_bind _ _ _ (λ _, on (off ∅))); [|by intros [e|] w Hw; (split; [done|]); intros old' [= <-]].
  eapply hoare_weaken; [apply on_writeStage|by intros w []|done].
Qed.

(** ** Putting files back *)

Lemma hoare_restoreFile old p S :
  p ∈ dom files → default None (old !! p) = F !! p →
  hoare (on (off S)) (restoreFile K old p)
    (λ r, on (off (match r with Some _ => S | None => S ∖ {[p]} end))).
Proof.
  intros Hdom Hold. unfold restoreFile. rewrite Hold. destruct (F !! p) as [data|] eqn:Hp.
  - apply (hoare_bind _ _ _ (λ _, on (off S))); [apply on_Now|]. intros now.
    eapply hoare_bind; [apply hoare_writeDurable; [done|by apply temporary_rollback]|].
    intros [e|]; [by intros w []|]. eapply hoare_weaken; [apply (hoare_rename (off S) _ p data);
      by apply temporary_rollback|by intros w [Hw Hd]; split; [|apply Hd]|].
    intros [e|] w Hw; [done|]. destruct Hw as (m0 & Hm & Ha). intros q Hq HS. rewrite (Ha q Hq).
    destruct (decide (q = p)) as [->|Hne]; [by rewrite lookup_insert_eq|].
    rewrite lookup_insert_ne by done. apply Hm; [done|set_solver].
  - apply hoare_check; [apply on_try| |done]. intros w Hw q Hq HS.
    change (delete p (mc_files (w_machine w)) !! q = F !! q).
    destruct (decide (q = p)) as [->|Hne]; [by rewrite lookup_delete_eq|].
    rewrite lookup_delete_ne by done. apply Hw; [done|set_solver].
Qed.

Lemma hoare_restoreFiles old ps S :
  ps ⊆ paths → oldOf old paths →
  hoare (on (off S)) (restoreFiles K old ps)
    (λ r, on (off (match r with Some _ => S | None => S ∖ list_to_set ps end))).
Proof.
  intros Hsub Ho. revert S Hsub. induction ps as [|p ps IH]; intros S Hsub; cbn [restoreFiles].
  - intros w Hw. eapply off_mono; [|exact Hw]. set_solver.
  - assert (p ∈ paths) as Hp by (apply Hsub; set_solver).
    eapply hoare_bind; [apply hoare_restoreFile; [by apply elem_of_paths|by rewrite (Ho p Hp)]|]. intros e.
    eapply hoare_bind; [apply IH; set_solver|]. intros e' w.
    destruct e, e'; cbn; intros Hw; (eapply off_mono; [|exact Hw]); set_solver.
Qed.

(** ** Putting files in place *)

Lemma hoare_installFile added p installed :
  p ∈ dom files →
  hoare (on (put installed)) (installFile K (stageOf added) p (default [] (files !! p)))
    (λ r w, match r with
            | None => on (put (installed ++ [p])) w
            | Some (e, _) => on (put installed) w ∧ asPreserved e = false
            end).
Proof.
  intros Hdom. unfold installFile.
  apply hoare_plainly; [apply plainly_try|apply on_try| |by intros e He w].
  eapply hoare_bind; [apply hoare_conj; [apply hoare_writeDurable; [done|apply temporary_stage]|
    apply plainly_hoare, plainly_writeDurable]|].
  intros [e|]; [by intros w [[Hw _] He]; split; [|apply He]|].
  eapply hoare_bind; [apply hoare_conj; [eapply hoare_weaken; [apply (hoare_rename (put installed));
    apply temporary_stage|by intros w [[Hw Hd] _]; split; [|apply Hd]|by intros a w Ha; exact Ha]|
    apply plainly_hoare, plainly_rename]|].
  intros [e|] w [Hw He]; [by split; [|apply He]|]. destruct Hw as (m0 & Hm & Ha). intros q Hq.
  etrans; [exact (Ha q Hq)|]. destruct (decide (q = p)) as [->|Hne].
  - rewrite lookup_insert_eq, decide_True by set_solver. done.
  - rewrite lookup_insert_ne by done. rewrite (Hm q Hq). by repeat case_decide; set_solver.
Qed.

Lemma hoare_installFiles added ps installed :
  ps ⊆ paths →
  hoare (on (put installed)) (installFiles K files (stageOf added) ps installed)
    (λ r w, on (put r.1) w ∧ r.1 ⊆ installed ++ ps
      ∧ match r.2 with None => r.1 = installed ++ ps | Some (e, _) => asPreserved e = false end).
Proof.
  revert installed. induction ps as [|p ps IH]; intros installed Hsub; cbn [installFiles].
  - intros w Hw. cbn. by rewrite app_nil_r.
  - eapply hoare_bind; [apply hoare_installFile, elem_of_paths, Hsub; set_solver|]. intros [[e b]|].
    + intros w [Hw He]. cbn. split_and!; [done|set_solver|done].
    + rewrite (cons_middle p installed ps), app_assoc. apply IH. set_solver.
Qed.

(** ** The transaction *)

Lemma off_marker S m x : off S m → off S (m <| mc_marker := x |>).
Proof. done. Qed.
#[local] Hint Resolve off_marker : core.

Abbreviation touched := (on (off (dom files))).

(** An error after the files were touched: if it says that they are preserved, they are. *)
Definition rolledBack (e : AgentError) (w : World) : Prop := touched w ∧ (asPreserved e = true → on (off ∅) w).

Lemma rolledBack_plain e w : asPreserved e = false → touched w → rolledBack e w.
Proof. intros He Hw. split; [done|]. congruence. Qed.

Lemma hoare_rollBack old err :
  oldOf old paths → asPreserved err = false →
  hoare touched (rollBack cfg K paths old err) (λ r w, ∃ e, r = Some e ∧ rolledBack e w).
Proof.
  intros Hold Herr. unfold rollBack.
  assert (∀ g w, asPreserved g = false → touched w → ∃ e, Some (EJoin err g) = Some e ∧ rolledBack e w) as Hj.
  { intros g w Hg Hw. eexists. split; [done|]. apply rolledBack_plain; [|done]. cbn. by rewrite Herr, Hg. }
  apply hoare_plainly; [apply plainly_beginActivation|by apply on_beginActivation| |by intros g Hg w; apply Hj].
  apply (hoare_bind _ _ _ (λ _, touched)); [apply on_modify|]. intros _.
  apply hoare_plainly; [apply plainly_commands|apply on_stopDaemons| |by intros g Hg w; apply Hj].
  eapply hoare_bind; [apply hoare_conj; [apply (hoare_restoreFiles old paths); done|apply plainly_hoare, plainly_restoreFiles]|].
  intros [g|].
  { intros w [Hw Hg]. specialize (Hg g eq_refl). pose proof (on_syncDirs K (off (dom files)) paths w Hw) as Hw'.
    pose proof (plainly_syncDirs K paths w) as Hp. unfold mbind, M_bind. destruct (syncDirs K paths w) as [[g'|] w'];
      apply Hj; [cbn; by rewrite Hg, (Hp g')|done..]. }
  eapply (hoare_weaken _ (on (off ∅))); [|intros w [Hw _]; eapply off_mono; [|exact Hw];
    intros p; rewrite elem_of_difference, elem_of_list_to_set, elem_of_paths; tauto|by intros a w Ha; exact Ha].
  assert (∀ g, asPreserved g = false → hoare (on (off ∅)) (fail (EJoin err g)) (λ r w, ∃ e, r = Some e ∧ rolledBack e w)) as Hf.
  { intros g Hg w Hw. apply Hj; [done|]. eapply off_mono; [|exact Hw]. set_solver. }
  apply hoare_plainly; [apply plainly_syncDirs|apply on_syncDirs|cbn [joinErr]|exact Hf].
  apply hoare_plainly; [apply plainly_filesInstalled|by apply on_filesInstalled| |exact Hf].
  apply hoare_plainly; [apply plainly_commands|apply on_commands| |exact Hf].
  apply hoare_plainly; [apply plainly_commitActivation|by apply on_commitActivation| |exact Hf].
  intros w Hw. eexists. split; [done|]. split; [|done]. eapply off_mono; [|exact Hw]. set_solver.
Qed.

Lemma put_marker installed m x : put installed m → put installed (m <| mc_marker := x |>).
Proof. done. Qed.
#[local] Hint Resolve put_marker : core.
Lemma put_touched installed m : installed ⊆ paths → put installed m → off (dom files) m.
Proof.
  intros Hsub Hput%off_put. eapply off_mono; [|exact Hput]. intros p. rewrite elem_of_list_to_set, <- elem_of_paths.
  apply Hsub.
Qed.

(** The files that differ from the old ones make up the difference. *)
Definition changes (old : oldFiles) : list gostring := filter (λ p, p ∈ changedFiles files old) paths.
Lemma changes_paths old : changes old ⊆ paths.
Proof. intros p. unfold changes. by rewrite list_elem_of_filter; intros [_ Hp]. Qed.
Lemma put_changes old m : oldOf old paths → put (changes old) m → agree (mc_files m) (files ∪ F).
Proof.
  intros Hold Hput p Hp0. rewrite (Hput p Hp0), lookup_union. unfold changes.
  destruct (files !! p) as [x|] eqn:Hx.
  - assert (p ∈ paths) as Hp by by apply elem_of_paths, elem_of_dom. rewrite union_Some_l. case_decide as Hd; [done|].
    rewrite list_elem_of_filter in Hd. unfold changedFiles in Hd. rewrite elem_of_dom in Hd.
    destruct (decide (old !! p = Some (Some x))) as [E|E]; [rewrite (Hold p Hp) in E; by injection E as ->|].
    destruct Hd. split; [|done]. exists x. by apply map_lookup_filter_Some.
  - rewrite decide_False; [by rewrite (left_id_L None _)|]. rewrite list_elem_of_filter, elem_of_paths, elem_of_dom, Hx.
    by intros [_ [? ?]].
Qed.

(** The files are in place: reload the daemons, or go back. *)
Definition installedAll (m : Machine) : Prop :=
  agree (mc_files m) (files ∪ F) ∧ phase m = Some activationVerifying.

Lemma hoare_reload old reloads :
  oldOf old paths →
  hoare (on (put (changes old)))
    (check filesInstalled cfg K;
     reloaded ← commandsForChanges K Reloading (tc_Reload (cfg_Transaction cfg)) None reloads;
     match (reloaded : option AgentError) with
     | Some e => rollBack cfg K paths old e
     | None => ok
     end)
    (λ r w, match r with None => on installedAll w | Some e => rolledBack e w end).
Proof.
  intros Hold. eapply hoare_bind; [apply hoare_conj; [by apply on_filesInstalled|apply hoare_conj;
    [apply hoare_filesInstalled|apply plainly_hoare, plainly_filesInstalled]]|].
  intros [e|].
  { intros w (Hw & _ & He). apply rolledBack_plain; [by apply He|]. by eapply put_touched; [apply changes_paths|]. }
  eapply (hoare_weaken _ (on (λ m, put (changes old) m ∧ phase m = Some activationVerifying)));
    [|intros w (Hw & Hm & _); split; [exact Hw|by apply Hm]|by intros a w Ha; exact Ha].
  apply hoare_plainly; [apply plainly_commands|apply on_commands| |].
  - intros w [Hw Hm]. split; [by eapply put_changes|done].
  - intros e He. eapply hoare_weaken; [by apply hoare_rollBack| |].
    + intros w [Hw _]. by eapply put_touched; [apply changes_paths|].
    + by intros r w (e' & -> & Hr).
Qed.

(** What an installation that got this far leaves. *)
Definition outcome (r : bool * option AgentError) (m : Machine) : Prop :=
  match r.2 with
  | None => installedAll m
  | Some e => off (dom files) m ∧ (r.1 = false ∨ asPreserved e = true → off ∅ m)
  end.
Lemma outcome_blind r : blind (outcome r).
Proof.
  intros m fs Hfs. unfold outcome. destruct (r.2) as [e|].
  - intros [Ht Hp]. split; [by apply off_blind|]. intros He. apply off_blind; auto.
  - intros [Ha Hm]. split; [|done]. intros p Hp. etrans; [exact (Hfs p Hp)|by apply Ha].
Qed.

Lemma hoare_undo old installed (e : AgentError) (joins : bool) :
  oldOf old paths → installed ⊆ paths → asPreserved e = false →
  hoare (on (put installed))
    (rollback ← restoreFiles K old installed; mret (true, if joins then joinErr (Some e) rollback else Some e))
    (λ r, on (outcome r)).
Proof.
  intros Hold Hsub He.
  eapply hoare_bind; [apply (hoare_weaken _ touched _ _ (λ r w, touched w ∧ plain r))|].
  - apply hoare_conj; [|apply plainly_hoare, plainly_restoreFiles].
    eapply hoare_weaken; [by apply hoare_restoreFiles|done|].
    intros [g|] w Hw; [done|]. eapply off_mono; [|exact Hw]. set_solver.
  - intros w Hw. by eapply put_touched.
  - intros a w Ha. exact Ha.
  - intros r w [Hw Hr]. destruct joins, r as [g|]; (split; [done|]); cbn; rewrite He, ?(Hr g eq_refl); by intros [].
Qed.

Lemma hoare_activateFiles force added old :
  oldOf old paths →
  hoare (on (off ∅)) (activateFiles cfg K files force (stageOf added) old) (λ r, on (outcome r)).
Proof.
  intros Hold. unfold activateFiles. fold paths.
  assert (∀ e, hoare (on (off ∅)) (mret (false, Some e)) (λ r, on (outcome r))) as Hearly.
  { intros e w Hw. split; [|done]. eapply off_mono; [|exact Hw]. set_solver. }
  apply hoare_plainly; [apply plainly_beginActivation|by apply on_beginActivation| |by intros e _].
  apply (hoare_bind _ _ _ (λ _, on (off ∅))); [|intros [e|]; [apply Hearly|]].
  { agent_step. case_match; [|apply on_ok]. apply stable_bind; [apply on_modify|]. intros _. apply on_stopDaemons. }
  fold (changes old).
  eapply hoare_bind; [eapply hoare_weaken; [apply hoare_installFiles, changes_paths| |by intros a w Ha; exact Ha]|].
  { intros w Hw p Hp. rewrite decide_False by set_solver. apply Hw; [done|set_solver]. }
  intros [installed [[e joins]|]]; cbn [fst snd app].
  - apply (hoare_know (installed ⊆ paths ∧ asPreserved e = false)); [|intros [Hsub He]].
    + intros w (_ & Hsub & He). split; [|done]. etrans; [exact Hsub|apply changes_paths].
    + eapply hoare_weaken; [by apply hoare_undo|by intros w (Hw & _)|done].
  - apply (hoare_know (installed = changes old)); [by intros w (_ & _ & ?)|intros ->].
    apply (hoare_weaken _ (on (put (changes old))) _ _ (λ r, on (outcome r))); [|by intros w (Hw & _)|done].
    apply hoare_plainly; [apply plainly_syncDirs|apply on_syncDirs| |].
    + eapply hoare_bind; [by apply hoare_reload|]. intros [e|] w Hw; [|done]. destruct Hw as [Ht Hp]. split; [done|].
      intros [[=]|]; by apply Hp.
    + intros e He. by apply (hoare_undo old _ e true); [|apply changes_paths|].
Qed.

Lemma classify_says mutating e : asPreserved (classify mutating e) = false → asUncertain (classify mutating e) = true.
Proof. unfold classify. destruct (asPreserved e) eqn:E; [congruence|by destruct mutating]. Qed.

Lemma hoare_applyIn force added :
  hoare (on (off ∅)) (applyIn cfg K files force (stageOf added)) (λ r, on (outcome r)).
Proof.
  assert (∀ e m, off ∅ m → outcome (false, Some e) m) as Hearly.
  { intros e m Hm. split; [|done]. eapply off_mono; [|exact Hm]. set_solver. }
  unfold applyIn. eapply hoare_bind; [apply hoare_stageFiles|]. intros [old|e]; [|by intros w [Hw _]; apply Hearly].
  apply (hoare_know (oldOf old paths)); [intros w [_ Ho]; by apply Ho|intros Hold].
  eapply (hoare_weaken _ (on (off ∅))); [|by intros w [Hw _]|by intros a w Ha; exact Ha].
  apply (hoare_bind _ _ _ (λ _, on (off ∅))); [apply on_commands|].
  intros [e|]; [by intros w Hw; apply Hearly|by apply hoare_activateFiles].
Qed.

(** The outcome of a transaction, by its error. *)
Definition settled (r : option AgentError) (m : Machine) : Prop :=
  match r with
  | None => installedAll m
  | Some e => off (dom files) m ∧ (asPreserved e = true → off ∅ m) ∧ (asPreserved e = false → asUncertain e = true)
  end.
Lemma settled_classify r m : outcome r m → settled (classify r.1 <$> r.2) m.
Proof.
  destruct r as [mutating [e|]]; [|done]. intros [Ht Hp]. split_and!; [done| |apply classify_says].
  cbn [fst snd] in *. unfold classify. destruct (asPreserved e) eqn:E; [by intros _; apply Hp; right|].
  destruct mutating; [cbn [asPreserved]; congruence|]. intros _. apply Hp. by left.
Qed.

Lemma hoare_apply force : hoare (on (off ∅)) (apply cfg K files force) (λ r, on (settled r)).
Proof.
  assert (∀ e, hoare (on (off ∅)) (fail (classify false e)) (λ r, on (settled r))) as Hearly.
  { intros e w Hw. apply (settled_classify (false, Some e)). split; [|done]. eapply off_mono; [|exact Hw]. set_solver. }
  unfold apply. case_match; [apply Hearly|].
  apply (hoare_bind _ _ _ (λ _, on (off ∅))); [apply on_tryGet|]. intros [u|e]; [|apply Hearly].
  apply (hoare_bind _ _ _ (λ _, on (off ∅))); [apply on_tryGet|]. intros [added|e]; [|apply Hearly].
  eapply hoare_bind; [apply hoare_applyIn|]. intros r.
  apply (hoare_bind _ _ _ (λ _, on (outcome r))); [apply on_removeAll, outcome_blind|].
  intros _ w Hw. by apply settled_classify.
Qed.
End atomic.

(** C7. A transaction is all or nothing, and its error tells which, whichever calls and
    commands fail and whatever a failed write leaves.  Apart from temporary files, which
    are those of its stage and the [.rollback-] files beside the given ones, and which may
    stay behind: without an error every given file is in place and the marker says that the
    daemons are being verified; an error that says the configuration is preserved leaves
    every file as it was, also when the new files had been installed and the daemons
    refused them; every other error says that the configuration is uncertain; and no file
    that was not given is changed.  Assumes that no given file is named like a temporary
    one. *)
Theorem transaction_atomic `{GoRuntime} cfg K files force w :
  (∀ p, p ∈ dom files → ¬ temporary cfg files p) →
  let '(r, w') := apply cfg K files force w in
  let before := mc_files (w_machine w) in
  let after := mc_files (w_machine w') in
  match r with
  | None => (∀ p, ¬ temporary cfg files p → after !! p = (files ∪ before) !! p)
      ∧ ast_Phase <$> mc_marker (w_machine w') = Some activationVerifying
  | Some e => (asPreserved e = true → ∀ p, ¬ temporary cfg files p → after !! p = before !! p)
      ∧ (asPreserved e = false → asUncertain e = true)
      ∧ ∀ p, ¬ temporary cfg files p → p ∉ dom files → after !! p = before !! p
  end.
Proof.
  intros Hfiles.
  pose proof (hoare_apply cfg K files (mc_files (w_machine w)) Hfiles force w (λ _ _ _, eq_refl)) as Ho.
  destruct (apply cfg K files force w) as [[e|] w']; [|exact Ho]. destruct Ho as (Ht & Hp & Hu).
  split_and!; [|exact Hu|exact Ht]. intros He p Htmp. apply (Hp He p Htmp). set_solver.
Qed.

(** * A transaction that is rolled back *)

#[local] Existing Instance reference_runtime.

Definition exampleDNSDist : DNSDistRenderConfig := {|
  dd_Path := "/run/dnsdist.conf"; dd_ListenAddress := "fd00::1"; dd_ListenerCount := 1; dd_ACLs := None;
  dd_PoolName := "regional"; dd_Backends := []; dd_IdentityKeyFile := []; dd_BackendTransport := [];
  dd_MetricsAddress := []; dd_MetricsACLs := [] |}.
Definition exampleCoreDNS : CoreDNSRenderConfig := {|
  cd_Path := "/run/Corefile"; cd_ListenAddress := "fd00::2"; cd_Port := 53; cd_ProxyPeers := None;
  cd_IdentityKeyFile := []; cd_UDPReadBufferBytes := 0; cd_PublicUpstreams := [] |}.
Definition exampleConfig (reload : list Command) : Config := {|
  cfg_Region := "east"; cfg_Shard := "a"; cfg_MemberID := "n"; cfg_ReplicaID := "n"; cfg_StateDir := "/state";
  cfg_Mode := ModeResolver; cfg_NodeAuthoritative := false;
  cfg_Render := {|
    rc_ReadyZoneMembers := ∅; rc_ReadyMembers := ∅; rc_Role := RenderNode; rc_NodeDNSDist := exampleDNSDist;
    rc_ClusterDNSDist := exampleDNSDist; rc_NodeCoreDNS := exampleCoreDNS; rc_ClusterCoreDNS := exampleCoreDNS;
    rc_NodeAuthoritative := false |};
  cfg_Transaction := {| tc_StageDir := "/stage"; tc_CommandStageDir := []; tc_Validate := []; tc_Reload := reload;
                        tc_FailClosed := [] |};
  cfg_AckInterval := 0; cfg_AckLease := 0; cfg_MaxBindings := 0; cfg_Verifier := false;
  cfg_PublicationVerifier := false; cfg_AckPublisher := false |}.

(** The daemons do not take the new file; the second reload, of the old one, succeeds. *)
Definition isReload (ev : event) : bool := match ev with EvRun Reloading _ => true | _ => false end.
Definition refusingHost : Host := {|
  h_now := λ _, 7%Z; h_done := λ _, false;
  h_fail := λ tr, match last tr with Some ev => isReload ev && (length (filter (λ ev, isReload ev = true) tr) =? 1) | None => false end;
  h_stage := λ _, "1"; h_left := λ _, None; h_kept := λ _ _, true; h_probe := λ _, []; h_list := λ _, [] |}.
Definition refusedFiles : Files := {[ "/run/a.conf" := "new" : gostring ]}.
Definition refusedWorld : World := {|
  w_agent := {| a_state := newCheckpoint; a_needsActivation := false; a_lastServingAck := ∅; a_lastPublicationAck := ∅;
    a_installedPublications := ∅; a_verifiedPaths := ∅; a_verifiedRestarts := 0; a_restoredAt := zeroTime;
    a_bootstrapComplete := false; a_bootstrapInProgress := false; a_checkpointWithdrawn := false; a_lock := None;
    a_restarts := 0 |};
  w_machine := {| mc_files := {[ "/run/a.conf" := "old" : gostring ]}; mc_checkpoint := None; mc_marker := None |};
  w_trace := [] |}.
Definition refusedConfig : Config :=
  exampleConfig [{| cmd_Path := "/bin/reload"; cmd_Args := []; cmd_WhenChanged := [] |}].

Lemma refused_apart p : p ∈ dom refusedFiles → ¬ temporary refusedConfig refusedFiles p.
Proof.
  unfold refusedFiles. rewrite dom_singleton_L. intros ->%elem_of_singleton [Hs|(q & n & Hq & E)]; [by vm_compute in Hs|].
  rewrite dom_singleton_L in Hq. apply elem_of_singleton in Hq as ->. apply (f_equal length) in E.
  unfold rollbackPath in E. rewrite !length_app in E. cbn [length] in E. lia.
Qed.

Lemma transaction_atomic_witness : ∃ e w',
  apply refusedConfig refusingHost refusedFiles false refusedWorld = (Some e, w') ∧ asPreserved e = true
  ∧ mc_files (w_machine w') !! ("/run/a.conf" : gostring) = Some ("old" : gostring).
Proof.
  pose proof (transaction_atomic refusedConfig refusingHost refusedFiles false refusedWorld refused_apart) as W.
  destruct (apply refusedConfig refusingHost refusedFiles false refusedWorld) as [r w'] eqn:E.
  assert (∃ e, r = Some e ∧ asPreserved e = true) as (e & -> & He).
  { apply (f_equal fst) in E. vm_compute in E. subst r. eexists. split; [reflexivity|reflexivity]. }
  exists e, w'. split; [reflexivity|]. split; [exact He|]. destruct W as (Hp & _ & _).
  rewrite (Hp He); [reflexivity|]. apply refused_apart. vm_compute. by eexists.
Defined.
