(* ===== verification/AgentRuns.v ===== *)
(** Runs of serving replicas: any sequence of deliveries, periodic steps, bootstraps and
    restarts, on a machine where any call may fail and the process may end in the middle of
    an operation.

    [replica_forward]: what a replica has stored never goes back, can always be loaded
    again, and is never ahead of what it works with.  [replica_holds]: every publication it
    has stored is put together from a manifest and chunks that were delivered. *)

From S2P Require Import Prelude GoStrings GoCrypto GoJson GoJsonDecode Api ApiMeta RdataTypes ReservedScopes.
From S2P Require Import WireModel Capacity SnapshotValid Publication WireDecode ServingFences.
From S2P Require Import AgentState AgentHost AgentTransaction Agent AgentStart AgentLogic AgentSafety.
From coqutil Require Import Datatypes.RecordSettersUsingExistingGetters.

Section runs.
Context `{GoRuntime} `{MiekgDNS} (D : Envelope → Prop).
Context (cfg : Config) (K : Host).
Context (render : RenderConfig → ServingSnapshot → gset gostring → publications → option Files).
Context (errorText : AgentError → gostring).
Context (refresh : DNSDistRenderConfig → gostring → option gostring).

(** What a replica does under its lock. *)
Inductive operation : M unit → Prop :=
| op_handle env : D env → operation (_ ← Handle cfg K render errorText env; mret tt)
| op_step : operation (_ ← Step cfg K render errorText; mret tt)
| op_restore : operation (startRestore cfg K refresh)
| op_list attempts : operation (_ ← LoadBootstrap cfg K attempts; mret tt)
| op_begin : operation beginBootstrap
| op_complete : operation (_ ← completeBootstrap; mret tt)
| op_end : operation endBootstrap.

Inductive moves : World → World → Prop :=
| moves_op m w : operation m → moves w (m w).2.

(** The process ends in the middle of an operation: what it had written by then is there,
    and a new process loads it.  Files and the marker may be anything. *)
Inductive restarts : World → World → Prop :=
| restarts_at m w tr files marker d a :
    operation m → w_trace w `prefix_of` tr → tr `prefix_of` w_trace (m w).2 →
    d = mc_checkpoint (w_machine w)
      ∨ (∃ c evs, tr = w_trace w ++ evs ∧ EvRenameCheckpoint c ∈ evs ∧ d = Some c) →
    NewAgent d = Ok a →
    restarts w {| w_agent := a; w_machine := {| mc_files := files; mc_checkpoint := d; mc_marker := marker |};
                  w_trace := tr |}.

Definition runs : World → World → Prop := rtc (λ w w', moves w w' ∨ restarts w w').

Lemma runs_handle env w : D env → runs w (Handle cfg K render errorText env w).2.
Proof.
  intros Hd. apply rtc_once. left. pose proof (moves_op _ w (op_handle env Hd)) as Hm. unfold mbind, M_bind in Hm.
  destruct (Handle cfg K render errorText env w) as [r w']. exact Hm.
Qed.

(** A replica that starts for the first time. *)
Definition fresh (w : World) : Prop :=
  mc_checkpoint (w_machine w) = None ∧ w_agent w = newAgent newCheckpoint.

(** * The invariant *)

Record sound (w : World) : Prop := {
  so_state : good D (a_state (w_agent w));
  so_disk : ∀ d, mc_checkpoint (w_machine w) = Some d → good D d ∧ ck_le d (a_state (w_agent w));
}.

Lemma holds_operation c0 d0 l0 m : operation m → stable (accepted (since D c0 d0 l0)) m.
Proof.
  pose proof (persistent_since D c0 d0 l0) as HP. intros [].
  - apply stable_bind; [by apply holds_Handle|agent_steps].
  - apply stable_bind; [by apply holds_Step|agent_steps].
  - unfold startRestore, restoreActive, refreshActiveDNSDist, refreshRouter, reinstall, keepDaemons, ApplyForce.
    agent_steps.
  - apply stable_bind; [|agent_steps]. unfold LoadBootstrap.
    generalize (EBootstrap BConfiguration). induction (Z.to_nat _) as [|n IH]; intros e; cbn [loadAttempts]; agent_steps.
  - unfold beginBootstrap. agent_steps.
  - unfold completeBootstrap. agent_steps.
  - unfold endBootstrap. agent_steps.
Qed.

Lemma sound_since w :
  sound w → accepted (since D (a_state (w_agent w)) (mc_checkpoint (w_machine w)) (written (w_trace w))) w.
Proof.
  intros [Hs Hd]. split; [done|done|by intros y Hy; apply Hd|]. exists []. rewrite app_nil_r. split_and!; [done..|by left].
Qed.

(** The checkpoint on disk goes forward. *)
Definition disk_le (d d' : option checkpoint) : Prop := ∀ x, d = Some x → ∃ x', d' = Some x' ∧ ck_le x x'.
Lemma disk_le_refl d : disk_le d d.
Proof. intros x ->. by exists x. Qed.
Lemma disk_le_trans d1 d2 d3 : disk_le d1 d2 → disk_le d2 d3 → disk_le d1 d3.
Proof.
  intros H12 H23 x Hx. destruct (H12 x Hx) as (y & Hy & Hxy). destruct (H23 y Hy) as (z & Hz & Hyz).
  exists z. split; [done|]. by etrans.
Qed.

Lemma written_app tr evs : written (tr ++ evs) = written tr ++ written evs.
Proof. apply omap_app. Qed.

(** What an operation leaves, and what it wrote on the way. *)
Lemma operation_sound m w :
  operation m → sound w →
  sound (m w).2 ∧ ck_le (a_state (w_agent w)) (a_state (w_agent (m w).2))
  ∧ disk_le (mc_checkpoint (w_machine w)) (mc_checkpoint (w_machine (m w).2))
  ∧ ∃ l, written (w_trace (m w).2) = written (w_trace w) ++ l
      ∧ Forall (λ x, good D x ∧ disk_le (mc_checkpoint (w_machine w)) (Some x)) l.
Proof.
  intros Hop Hs. pose proof (holds_operation _ _ _ _ Hop w (sound_since _ Hs)) as [Hg Hle Hst (l & Hl & Hall & Hd)].
  rewrite Forall_forall in Hall. split_and!; [split; [done|]|done|..].
  - intros x Hx. destruct Hd as [Hd|(x' & Hd & Hin)].
    + rewrite Hd in Hx. split; [by apply (so_disk _ Hs)|by apply Hst].
    + assert (x' = x) as -> by congruence. destruct (Hall x Hin) as (? & ? & _). done.
  - destruct Hd as [->|(x & -> & Hin)]; [apply disk_le_refl|]. destruct (Hall x Hin) as (_ & _ & Hy).
    intros y Hy'. exists x. split; [done|]. by apply Hy.
  - exists l. split; [done|]. apply Forall_forall. intros x Hin. destruct (Hall x Hin) as (Hgx & _ & Hy).
    split; [done|]. intros y Hy'. exists x. split; [done|]. by apply Hy.
Qed.

Lemma good_NewAgent d : good D d → NewAgent (Some d) = Ok (newAgent (pruneSupersededChunks d)).
Proof. intros Hg. unfold NewAgent. by rewrite (good_Load D). Qed.

(** What was renamed into place before an operation was cut short. *)
Lemma written_before m w evs c :
  operation m → sound w → w_trace w ++ evs `prefix_of` w_trace (m w).2 → EvRenameCheckpoint c ∈ evs →
  good D c ∧ disk_le (mc_checkpoint (w_machine w)) (Some c).
Proof.
  intros Hop Hs [evs' Htr] Hin. destruct (operation_sound m w Hop Hs) as (_ & _ & _ & l & Hl & Hall).
  rewrite Htr, !written_app, <- app_assoc in Hl. apply (inj (app _)) in Hl. subst l.
  rewrite Forall_app in Hall. destruct Hall as [Hall _]. rewrite Forall_forall in Hall. apply Hall.
  apply list_elem_of_omap. by exists (EvRenameCheckpoint c).
Qed.

(** The disk a process that ended leaves to the next. *)
Lemma restart_disk w w' :
  sound w → restarts w w' →
  disk_le (mc_checkpoint (w_machine w)) (mc_checkpoint (w_machine w'))
  ∧ (∀ d, mc_checkpoint (w_machine w') = Some d → good D d)
  ∧ NewAgent (mc_checkpoint (w_machine w')) = Ok (w_agent w').
Proof.
  intros Hs Hr. revert Hs. destruct Hr as [m w tr files marker d a Hop _ Htr Hd Ha]. intros Hs.
  cbn [w_machine w_agent mc_checkpoint]. destruct Hd as [->|(c & evs & -> & Hin & ->)].
  - split_and!; [apply disk_le_refl|by apply (so_disk _ Hs)|done].
  - destruct (written_before _ _ _ _ Hop Hs Htr Hin) as [Hg Hle]. split_and!; [done| |done]. by intros d [= <-].
Qed.

Lemma step_sound w w' :
  sound w → moves w w' ∨ restarts w w' →
  sound w' ∧ disk_le (mc_checkpoint (w_machine w)) (mc_checkpoint (w_machine w')).
Proof.
  intros Hs [Hm|Hr].
  - revert Hs. destruct Hm as [m w1 Hop]. intros Hs. destruct (operation_sound m w1 Hop Hs) as (? & _ & ? & _). done.
  - destruct (restart_disk w w' Hs Hr) as (Hle & Hg & Ha). split; [|done].
    destruct (mc_checkpoint (w_machine w')) as [d|] eqn:Hd.
    + rewrite (good_NewAgent d) in Ha by by apply Hg. injection Ha as Ha. split; rewrite <- Ha; cbn [a_state newAgent].
      * by apply good_prune, Hg.
      * rewrite Hd. intros x [= <-]. split; [by apply Hg|]. by apply ck_le_prune.
    + cbn in Ha. injection Ha as Ha. split; rewrite <- Ha; [apply good_new|]. by rewrite Hd.
Qed.

Lemma fresh_sound w : fresh w → sound w.
Proof. intros [Hd Ha]. split; [rewrite Ha; apply good_new|]. by rewrite Hd. Qed.

Lemma runs_sound w w' :
  sound w → runs w w' → sound w' ∧ disk_le (mc_checkpoint (w_machine w)) (mc_checkpoint (w_machine w')).
Proof.
  intros Hs Hr. revert Hs. induction Hr as [w|w1 w2 w3 Hstep _ IH]; intros Hs; [split; [done|apply disk_le_refl]|].
  destruct (step_sound _ _ Hs Hstep) as [Hs2 H12]. destruct (IH Hs2) as [Hs3 H23].
  split; [done|]. by eapply disk_le_trans.
Qed.

Lemma moves_forward w w' : sound w → rtc moves w w' → ck_le (a_state (w_agent w)) (a_state (w_agent w')).
Proof.
  intros Hs Hr. revert Hs. induction Hr as [w|w1 w2 w3 Hm _ IH]; intros Hs; [done|].
  revert Hs IH. destruct Hm as [m w Hop]. intros Hs IH.
  destruct (operation_sound m w Hop Hs) as (Hs2 & Hle & _). etrans; [exact Hle|by apply IH].
Qed.

(** C5. Whatever a replica is sent, in whatever order and however often, whichever of its
    calls fail and wherever its process ends: the checkpoint on disk never goes back.  A
    zone's publication, a binding, a contribution and the shard's snapshot keep their fence
    or get a newer one, and a fence keeps naming the same manifest or snapshot.  A process
    can always start from the checkpoint, and what it works with is never behind it; nor,
    until it ends, behind what it worked with before. *)
Theorem replica_forward w0 w w' :
  fresh w0 → runs w0 w → runs w w' →
  (∀ d, mc_checkpoint (w_machine w) = Some d → ∃ d', mc_checkpoint (w_machine w') = Some d' ∧ ck_le d d')
  ∧ (∀ d, mc_checkpoint (w_machine w) = Some d →
       (∃ a, NewAgent (Some d) = Ok a ∧ ck_le d (a_state a)) ∧ ck_le d (a_state (w_agent w)))
  ∧ (rtc moves w w' → ck_le (a_state (w_agent w)) (a_state (w_agent w'))).
Proof.
  intros Hf Hr Hr'. destruct (runs_sound _ _ (fresh_sound _ Hf) Hr) as [Hs _].
  destruct (runs_sound _ _ Hs Hr') as [_ Hle]. split_and!; [exact Hle| |by apply moves_forward].
  intros d Hd. destruct (so_disk _ Hs d Hd) as [Hg Hdc]. split; [|done]. eexists. split; [by apply good_NewAgent|].
  by apply ck_le_prune.
Qed.

(** C6. Every publication a replica works with or has stored was delivered to it: it
    carries the fence of a delivered manifest of its zone, and, unless that withdraws the
    zone, the plan is read from delivered chunks that make up exactly what the manifest
    lists, is valid and of the manifest's zone and apex.  The snapshot it serves was
    delivered and is valid. *)
Theorem replica_holds w0 w c :
  fresh w0 → runs w0 w → c = a_state (w_agent w) ∨ mc_checkpoint (w_machine w) = Some c →
  (∀ uid p, ck_Publications c !! uid = Some p → held D uid p)
  ∧ (∀ s, ck_Snapshot c = Some s → ∃ env, D env ∧ carriesSnapshot env s).
Proof.
  intros Hf Hr Hc. destruct (runs_sound _ _ (fresh_sound _ Hf) Hr) as [Hs _].
  assert (good D c) as [_ _ Hsn _ _ Hp _].
  { destruct Hc as [->|Hc]; [apply (so_state _ Hs)|by apply (so_disk _ Hs)]. }
  split; [done|]. intros s Hs'. by destruct (Hsn s Hs').
Qed.
End runs.
