(* ===== verification/AgentAgree.v ===== *)
(** The publication protocol and the replicas together.

    The replicas get what planners, publishers and outboxes have put on the stream
    ([PublishSafety.v]), some of it, in any order, repeatedly.  They run on machines of
    their own and may be of different regions and shards.  The last part is such a replica: a
    resolver that gets the chunk and then the manifest of the zone of [PublishExample]. *)

From S2P Require Import Prelude GoStrings GoCrypto GoJson GoJsonDecode Api ApiMeta RdataTypes ReservedScopes.
From S2P Require Import WireModel Capacity SnapshotValid Publication WireDecode ServingFences.
From S2P Require Import Compile CompileHistory ApiStore ShardState ApiHistory Planner Outbox Publisher CompileSafety.
From S2P Require Import PublishInvariant PublishWire PublishEvents PublishSafety PublishExample.
From S2P Require Import AgentState AgentHost AgentTransaction Agent AgentStart AgentLogic AgentSafety AgentFiles AgentRuns.

(** * Replicas *)

Record Replica := {
  rp_cfg : Config;
  rp_host : Host;
  rp_render : RenderConfig → ServingSnapshot → gset gostring → publications → option Files;
  rp_errorText : AgentError → gostring;
  rp_refresh : DNSDistRenderConfig → gostring → option gostring;
}.

Section agree.
Context `{GoRuntime} `{ApiMeta} `{K8sValidation} `{MiekgDNS}.
Context (ns : gostring) (shards : list ServingRegion).

(** A state the replica works with or has stored at some moment of a run. *)
Definition reaches (D : Envelope → Prop) (r : Replica) (c : checkpoint) : Prop :=
  ∃ w0 w, fresh w0 ∧ runs D (rp_cfg r) (rp_host r) (rp_render r) (rp_errorText r) (rp_refresh r) w0 w
    ∧ (c = a_state (w_agent w) ∨ mc_checkpoint (w_machine w) = Some c).

Lemma reaches_good D r c : reaches D r c → good D c.
Proof.
  intros (w0 & w & Hf & Hr & Hc). destruct (runs_sound _ _ _ _ _ _ _ _ (fresh_sound _ _ Hf) Hr) as [Hs _].
  destruct Hc as [->|Hc]; [apply (so_state _ _ Hs)|by apply (so_disk _ _ Hs)].
Qed.

(** * What the stream carries *)

Section source.
Context (s : store) (choice : gostring → Z → Making).
Context (Hi : inv ns shards s) (Hw : PublishInvariant.within ns shards s) (Hch : chosen ns shards s choice).

Lemma carried_manifest env m :
  sent s env → carriesManifest env m →
  let k := choice (pm_ZoneUID m) (pm_Revision m) in
  m = if pm_Tombstone m then withdrawalManifest (mk_manifest k) else mk_manifest k.
Proof.
  intros Hsent (Hkind & (j & Hj & Hd) & _ & Hids). apply (manifest_source ns shards s choice env); [done..|].
  destruct (publication_source ns shards s choice env) as [_ Hsrc]; [done..|by rewrite Hkind|].
  destruct Hsrc as [(i & part & _ & [Hk _])|(m' & _ & Hev)]; [by rewrite Hkind in Hk|].
  assert (m' = m) as <-; [|done]. destruct Hev as (_ & Hp & Hd' & _). rewrite Hj in Hp. apply Encoded_inj in Hp. congruence.
Qed.

Lemma carried_chunk env c :
  sent s env → carriesChunk env c →
  let k := choice (pc_ZoneUID c) (pc_Revision c) in
  ∃ i part, mk_parts k !! i = Some part ∧ c = wireChunk (identityOf (mk_pub k)) i part.
Proof.
  intros Hsent (Hkind & (j & Hj & Hd) & _ & Hids). apply (chunk_source ns shards s choice env); [done..|].
  destruct (publication_source ns shards s choice env) as [_ Hsrc]; [done..|by rewrite Hkind|].
  destruct Hsrc as [(i & part & _ & Hev)|(m' & _ & [Hk _])]; [|by rewrite Hkind in Hk].
  replace c with (wireChunk (identityOf (mk_pub (choice (e_ResourceUID env) (e_Revision env)))) i part); [done|].
  destruct Hev as (_ & Hp & Hd' & _). rewrite Hj in Hp. apply Encoded_inj in Hp. congruence.
Qed.

Lemma same_chunk env env' c c' :
  sent s env → sent s env' → carriesChunk env c → carriesChunk env' c' →
  pc_ZoneUID c = pc_ZoneUID c' → pc_Revision c = pc_Revision c' → pc_Index c = pc_Index c' → c = c'.
Proof.
  intros Hs Hs' Hc Hc' Hz Hr Hidx. destruct (carried_chunk env c Hs Hc) as (i & part & Hpart & Heq).
  destruct (carried_chunk env' c' Hs' Hc') as (i' & part' & Hpart' & Heq'). rewrite Hz, Hr in Hpart, Heq.
  assert (i = i') as <-; [|congruence]. rewrite Heq, Heq' in Hidx. cbn [wireChunk pc_Index] in Hidx. lia.
Qed.

(** Delivered chunks that make up one manifest are the same chunks. *)
Lemma same_chunks_payload m chunks chunks' payload payload' :
  pm_Tombstone m = false →
  Forall (λ c, ∃ env, sent s env ∧ carriesChunk env c) chunks →
  Forall (λ c, ∃ env, sent s env ∧ carriesChunk env c) chunks' →
  VerifyManifest m chunks = Ok payload → VerifyManifest m chunks' = Ok payload' → payload = payload'.
Proof.
  intros Ht Hall Hall' Hv%verified_chunks Hv'%verified_chunks. rewrite Ht in Hv, Hv'.
  destruct Hv as (cs & Hp & Hdl & -> & _), Hv' as (cs' & Hp' & Hdl' & -> & _).
  rewrite <- Hp in Hall. rewrite <- Hp' in Hall'. clear Hp Hp'. f_equal. f_equal.
  revert cs' Hdl' Hall'. induction Hdl as [|ref c refs cs Hdel _ IH]; intros cs' Hdl' Hall'; [by inversion Hdl'|].
  apply Forall2_cons_inv_l in Hdl' as (c' & cs1 & Hdel' & Hdl' & ->).
  apply Forall_cons in Hall as [(env & Hs & Hc) Hall]. apply Forall_cons in Hall' as [(env' & Hs' & Hc') Hall'].
  destruct Hdel as ((_ & _ & Hz & _ & Hr) & Hidx & _), Hdel' as ((_ & _ & Hz' & _ & Hr') & Hidx' & _).
  f_equal; [|by apply IH]. by apply (same_chunk env env'); try congruence.
Qed.
End source.

(** C4. The replicas agree: whatever of the stream reaches them, however planners,
    publishers and outboxes interleave and whichever replicas restart, two replicas that
    hold the same revision of a zone, at whatever times and in whatever regions, hold the
    same manifest, unless exactly one of them holds the withdrawal of what the other holds,
    and the same plan, unless one of them holds the withdrawal; and a snapshot of one
    revision is the same for all members of a shard.  Assumes of the run of the protocol
    that no two of the truncated hashes in its names collide and that it has fewer than
    2^62 events. *)
Theorem replicas_agree (P : nat → Participant) s s' progs :
  start ns s → (∀ i, participant_ok ns shards (P i)) →
  rtc (step (A := unit) (others ns)) (s, λ i, play (P i)) (s', progs) → PublishInvariant.within ns shards s' →
  ∀ r r' c c', reaches (sent s') r c → reaches (sent s') r' c' →
  (∀ uid p p', ck_Publications c !! uid = Some p → ck_Publications c' !! uid = Some p' →
     f_Revision (p_Fence p) = f_Revision (p_Fence p') →
     sameContent (p_Manifest p) (p_Manifest p')
     ∧ (pm_Tombstone (p_Manifest p) = false → pm_Tombstone (p_Manifest p') = false → p_Plan p = p_Plan p'))
  ∧ (∀ x x', ck_Snapshot c = Some x → ck_Snapshot c' = Some x' → s_Region x = s_Region x' → s_Shard x = s_Shard x' →
       s_ConfigurationRevision x = s_ConfigurationRevision x' → x = x').
Proof.
  intros Hst Hp Hrun Hw r r' c c' Hc%reaches_good Hc'%reaches_good.
  pose proof (run_inv ns shards P s s' progs Hst Hp Hrun Hw) as Hi. destruct (i_outbox_ok _ _ _ Hi) as [choice Hch]. split.
  - intros uid p p' Hup Hup' Hrev.
    destruct (g_publication _ _ Hc _ _ Hup) as [Hz Hf (env & Hs & Hcar) Hplan].
    destruct (g_publication _ _ Hc' _ _ Hup') as [Hz' Hf' (env' & Hs' & Hcar') Hplan'].
    assert (sameContent (p_Manifest p) (p_Manifest p')) as Hsame.
    { pose proof (carried_manifest _ _ Hi Hw Hch _ _ Hs Hcar) as E. pose proof (carried_manifest _ _ Hi Hw Hch _ _ Hs' Hcar') as E'.
      rewrite Hf, Hf' in Hrev. cbn [manifestFence f_Revision] in Hrev. rewrite Hz, Hrev in E. rewrite Hz' in E'.
      exact (sameContent_source _ _ _ E E'). }
    split; [done|]. intros Ht Ht'. assert (p_Manifest p = p_Manifest p') as E by (apply Hsame; congruence).
    destruct (Hplan Ht) as (cs & payload & Hcs & Hv & Hu & _).
    destruct (Hplan' Ht') as (cs' & payload' & Hcs' & Hv' & Hu' & _). rewrite <- E in Hv', Ht'.
    pose proof (same_chunks_payload _ _ Hi Hw Hch _ _ _ _ _ Ht Hcs Hcs' Hv Hv') as <-. congruence.
  - intros x x' Hx Hx' Hr Hsh Hrev.
    destruct (g_snapshot _ _ Hc _ Hx) as [(env & Hs & Hk & (j & Hj & Hd) & _ & Er & Es & _ & Ev) _].
    destruct (g_snapshot _ _ Hc' _ Hx') as [(env' & Hs' & Hk' & (j' & Hj' & Hd') & _ & Er' & Es' & _ & Ev') _].
    assert (env = env') as <- by (apply (snapshot_unique ns shards s'); try done; [split|]; congruence).
    rewrite Hj in Hj'. apply Encoded_inj in Hj'. congruence.
Qed.
End agree.

(** * A replica at the end of a stream *)

#[local] Existing Instance reference_runtime.
#[local] Existing Instance reference_apimeta.
#[local] Existing Instance reference_validation.
#[local] Existing Instance reference_miekg.

(** A machine on which every call succeeds. *)
Definition exampleHost : Host := {|
  h_now := λ _, exampleClock; h_done := λ _, false; h_fail := λ _, false; h_stage := λ _, "1";
  h_left := λ _, None; h_kept := λ _ _, true;
  h_probe := λ _, []; h_list := λ _, [] |}.
Definition exampleReplica : Replica := {|
  rp_cfg := exampleConfig []; rp_host := exampleHost; rp_render := λ _ _ _ _, Some ∅; rp_errorText := λ _, [];
  rp_refresh := λ _ text, Some text |}.

Definition exampleWorld : World := {|
  w_agent := newAgent newCheckpoint;
  w_machine := {| mc_files := ∅; mc_checkpoint := None; mc_marker := None |}; w_trace := [] |}.

(** The replica handles an event of the history, if there is one. *)
Definition deliver (e : option (gostring * Envelope)) (w : World) : World :=
  match e with
  | Some (_, env) => (Handle (exampleConfig []) exampleHost (rp_render exampleReplica) (rp_errorText exampleReplica) env w).2
  | None => w
  end.
Definition exampleStaged : World := deliver (publishedAt 12 exampleEnd) exampleWorld.
Definition exampleHolding : World := deliver (publishedAt 15 exampleEnd) exampleStaged.

(** The run of the replica. *)
Definition exampleRuns : World → World → Prop :=
  runs (sent exampleEnd) (exampleConfig []) exampleHost (rp_render exampleReplica) (rp_errorText exampleReplica)
    (rp_refresh exampleReplica).

Lemma deliver_runs k w : exampleRuns w (deliver (publishedAt k exampleEnd) w).
Proof.
  destruct (publishedAt k exampleEnd) as [[subject env]|] eqn:Hat; cbn [deliver]; [|apply rtc_refl].
  apply runs_handle. by eapply publishedAt_sent.
Qed.

(** The chunk is stored after the first event, the zone is held after the second. *)
Definition stagedIn (d : option checkpoint) : bool :=
  match d with Some d => negb (bool_decide (ck_Chunks d = ∅)) | None => false end.
Definition heldIn (d : option checkpoint) : bool :=
  match d with
  | Some d =>
      match ck_Publications d !! ("z" : gostring) with
      | Some p => (f_Revision (p_Fence p) =? 1)%Z && negb (pm_Tombstone (p_Manifest p))
      | None => false
      end
  | None => false
  end.
Definition exampleDisk (w : World) : option checkpoint := mc_checkpoint (w_machine w).
Definition replicaCheck : bool := stagedIn (exampleDisk exampleStaged) && heldIn (exampleDisk exampleHolding).

Lemma replica_check :
  (∃ d, exampleDisk exampleStaged = Some d ∧ ck_Chunks d ≠ ∅)
  ∧ ∃ d p, exampleDisk exampleHolding = Some d ∧ ck_Publications d !! ("z" : gostring) = Some p
      ∧ f_Revision (p_Fence p) = 1%Z ∧ pm_Tombstone (p_Manifest p) = false.
Proof.
  assert (replicaCheck = true) as Hc by (vm_compute; reflexivity).
  unfold replicaCheck in Hc. apply andb_prop in Hc as [Hs Hh]. split.
  - destruct (exampleDisk exampleStaged) as [d|]; [|discriminate Hs]. exists d. split; [reflexivity|].
    unfold stagedIn in Hs. by rewrite negb_true_iff, bool_decide_eq_false in Hs.
  - destruct (exampleDisk exampleHolding) as [d|]; [|discriminate Hh]. unfold heldIn in Hh.
    destruct (ck_Publications d !! ("z" : gostring)) as [p|] eqn:Hp; [|discriminate Hh].
    apply andb_prop in Hh as [Hr Ht]. exists d, p. split; [reflexivity|]. split; [exact Hp|].
    split; [by apply Z.eqb_eq|by apply negb_true_iff].
Qed.

Lemma example_fresh : fresh exampleWorld.
Proof. split; reflexivity. Qed.
Lemma example_staged : exampleRuns exampleWorld exampleStaged.
Proof. apply deliver_runs. Qed.
Lemma example_holding : exampleRuns exampleStaged exampleHolding.
Proof. apply deliver_runs. Qed.

Lemma replica_run : exampleRuns exampleWorld exampleHolding.
Proof. etrans; [exact example_staged|exact example_holding]. Qed.

(** * The theorems at the run *)

Lemma replica_forward_witness : ∃ d d',
  exampleDisk exampleStaged = Some d ∧ ck_Chunks d ≠ ∅ ∧ exampleDisk exampleHolding = Some d' ∧ ck_le d d'.
Proof.
  destruct replica_check as [(d & Hd & Hne) _].
  destruct (replica_forward _ _ _ _ _ _ _ _ _ example_fresh example_staged example_holding) as [Hle _].
  destruct (Hle d Hd) as (d' & Hd' & Hdd'). exists d, d'. split; [exact Hd|]. split; [exact Hne|].
  split; [exact Hd'|exact Hdd'].
Defined.

Lemma replica_holds_witness : ∃ d p,
  exampleDisk exampleHolding = Some d ∧ ck_Publications d !! ("z" : gostring) = Some p ∧ held (sent exampleEnd) "z" p.
Proof.
  destruct replica_check as [_ (d & p & Hd & Hp & _ & _)].
  destruct (replica_holds _ _ _ _ _ _ _ _ d example_fresh replica_run
    (or_intror Hd)) as [Hheld _].
  exists d, p. split; [exact Hd|]. split; [exact Hp|]. exact (Hheld "z" p Hp).
Defined.

Lemma replicas_agree_witness : ∃ d p,
  exampleDisk exampleHolding = Some d ∧ ck_Publications d !! ("z" : gostring) = Some p ∧
  ∀ r' c' p', reaches (sent exampleEnd) r' c' → ck_Publications c' !! ("z" : gostring) = Some p' →
    f_Revision (p_Fence p') = 1%Z → pm_Tombstone (p_Manifest p') = false → p_Plan p' = p_Plan p.
Proof.
  destruct replica_check as [_ (d & p & Hd & Hp & Hr & Ht)]. exists d, p. split; [exact Hd|]. split; [exact Hp|].
  intros r' c' p' Hc' Hp' Hr' Ht'. destruct publish_run as (p1 & progs & R1 & R2).
  assert (reaches (sent exampleEnd) exampleReplica d) as Hc.
  { exists exampleWorld, exampleHolding. split; [exact example_fresh|]. split; [|by right].
    exact replica_run. }
  destruct (replicas_agree "dns" exampleShards exampleParticipant _ _ _ example_start example_participants
    (transitivity R1 R2) (proj1 example_check) r' exampleReplica c' d Hc' Hc) as [Hsame _].
  destruct (Hsame "z" p' p Hp' Hp) as [_ Hplan]; [congruence|]. exact (Hplan Ht' Ht).
Defined.
